(* ===== verification/_CoqProject ===== *)
-Q . S2P
Prelude.v
Wire.v
Queues.v
ConnectionManager.v
Host.v
HssiCsrs.v
Hssi.v
NicCcip.v
NicProtocol.v
NicModes.v
NicBuffers.v
NicLifecycle.v
NicLiveness.v
NicOwner.v
CompletionQueue.v
RpcServer.v
RpcClient.v
RpcStub.v
MicaUtil.v
MicaPool.v
MicaTable.v
MicaStore.v
MicaCache.v
MicaRun.v
MicaHash.v
MicaServer.v
McText.v
McHash.v
McBip.v
McCache.v
McItem.v
McLists.v
McAssoc.v
McTable.v
McSlabs.v
McAlloc.v
McSlabRun.v
McItems.v
McQueues.v
McDagger.v
McStore.v
McServe.v
McAnswers.v
McFull.v
McOps.v
McConn.v
McCommands.v
McBinary.v
McMeta.v
McMachine.v
McFraming.v
McPackets.v
McStream.v
McRequests.v
McRounds.v
McOutput.v
McReplies.v
McRuns.v
McCrc.v
HwBase.v
HwDefs.v
HwCcip.v
HwPolling.v
HwTxPath.v
HwTransmit.v
HwRxPath.v
HwConn.v
HwRpc.v
HwNic.v
HwControl.v
HwReset.v
HwDriver.v
