(* ===== verification/Prelude.v ===== *)
(** * Dagger: an FPGA-based RPC fabric, its host software, hardware and applications

    Dagger offloads RPCs to a NIC on an FPGA that shares memory with the CPU.  This
    library models the host side, under src/sw/src, and the stubs generated for it, the
    hardware between CPU and network, under src/hw/rtl, and its two key-value applications: the MICA store, under
    src/sw/apps/mica, and memcached with the handlers that Dagger adds to it, under
    src/sw/apps/memcached.

    ** The program and its model

    A client stub writes a 64-byte packet into a transmit ring; the NIC sends it, and
    writes the packets it receives into receive rings, one pair of rings for each flow;
    threads on the CPU poll the receive rings.  The driver brings the NIC up through a
    register file and sets up connections; a server and a client pool own a NIC and give
    each of their threads or clients one flow.

    - Prelude (this file): machine integers and bit fields; the effects of the C and C++
      code, a state monad [M] with [Ret], [Abort] (an assert, [std::terminate]), [Block]
      (a lock never given back) and [Fault]; the total and the partial weakest
      precondition [wp] and [wlp]; [preserves]; the tactics and the hint databases
      [word] and [effects].
    - Wire: config.h, defs.h, rpc_header.h.  Constants, addresses, packets as bytes.
    - Queues: tx_queue, rx_queue (modules [Tx] and [Rx]).
    - ConnectionManager: connection_manager, with its abstract registry [cm_spec].
    - Host: what is not in the repository, the OPAE library and the operating system, as
      the class [Platform]; the calls a program makes and the answers it gets are its
      trace.  [scripted] is a platform that answers from a function, for examples.
    - HssiCsrs, Hssi: network_ctl, the 40G Ethernet controller: its table of registers
      and the functions of fpga_hssi_common.c and fpga_hssi_e40.c.
    - NicCcip: nic_ccip, the base class of the driver.  NicModes: the three derived
      classes, modules [Polling], [Dma] and [Mmio].
    - NicProtocol, NicBuffers, NicLifecycle, NicLiveness: theorems on the driver.
      NicLifecycle has the interface of a NIC, the class [Nic] with its laws [NicLaws],
      and the instances for the three modes.
    - NicOwner: what server and client pool do with a NIC they own, for any [Nic].
    - CompletionQueue: completion_queue.  [pull] is one shared memory access of the
      polling loop, [step] the interleaving with the hardware and the application.
    - RpcServer: rpc_server_thread and rpc_threaded_server.
    - RpcClient: rpc_client_nonblocking_base and rpc_client_pool.  RpcStub: what rpc_gen.py
      and dagger_write.tmpl generate around them, the client's stub and the server's
      callback, as the lists of their stores to a packet.
    - MicaUtil, MicaPool, MicaTable: util.h, alloc_pool and table of MICA, as the build
      of mica_server.cc configures them.  MicaStore, MicaCache, MicaRun: theorems on them.
      MicaHash: the hash of keys.  MicaServer: the set and get handlers of mica_server.cc.
    - McText, McHash, McBip, McCache: the self-contained parts of memcached, which are
      itoa_ljust.c and util.c, the hash functions, bipbuffer.c and cache.c.
    - McItem: the state of a memcached server ([mc]): a heap of items and the globals of
      assoc.c, slabs.c and items.c; the item macros and the settings.  McLists: doubly
      linked lists in that heap, which free lists and LRU queues share.
    - McAssoc: assoc.c.  McTable: the hash table as a finite map.
    - McSlabs: slabs.c.  McAlloc: its invariant.  McSlabRun: runs of the allocator.
    - McItems: items.c.  McQueues: the LRU queues as lists.
    - McDagger: the set, get and populate handlers of memcached.c and the item functions
      of thread.c.  McStore: the invariant of the whole server, across table, queues and
      allocator.  McServe, McAnswers, McFull: what the handlers do and what clients see.
    - McOps: the operations behind memcached's own protocols, [do_store_item] with chunked
      items and [do_add_delta].  McConn: connections, responses, the tokenizer; the class
      [Env] has what is outside (the clock, system calls that may fail, the numbers behind
      [stats], the crawler's and the logger's answers).  McCommands: the text protocol;
      McMeta: its meta commands and [process_command]; McBinary: the binary protocol.
      McMachine: [drive_machine], the state machine of a connection, with reading,
      cutting the input into commands, reading values and sending.
    - Theorems on connections: McFraming and McPackets (what each command leaves of the
      input and of the state), McStream (the commands of a stream), McRequests (binary
      requests), McRounds (termination), McOutput (sending), McReplies (binary responses);
      McRuns runs a server on example streams.
    - McCrc: crc32c.c, its hardware and its table-driven versions.
    - HwBase, HwDefs: the RAM, the pulse generator and the FIFO between clocks; the packed
      structures of the .vh files.  HwCcip: the CCI-P layer of the polling build,
      ccip_queue_polling.sv, ccip_transmitter.sv and request_queue.sv.  HwPolling,
      HwTransmit: theorems on its two directions.  HwTxPath: the stub of RpcStub and this
      layer together.  HwRxPath: this layer and the polling thread of CompletionQueue
      together.
    - HwConn: connection_manager.sv, register by register.
      HwRpc: rpc.sv.  HwNic: nic.sv and nic_counters.sv, where the CCI-P layer is a
      parameter.  HwControl, HwReset: what the register file does and its state after a
      reset.  HwDriver: the driver of NicCcip on this hardware.

    Objects are records, methods are computations over the object or, for the driver,
    over the object and the world ([sys]), for a memcached connection over the server
    ([srv]).  A hardware module is a function from its registers and inputs to the
    registers of the next cycle.  Functions keep the names of the source, with
    the class as a prefix where two classes have the same method.

    ** What the theorems show

    - Delivery.  Whatever the interleaving of hardware and threads, a polling loop
      delivers the packets written to its ring in order, without loss or duplicate
      ([ring_delivery]), and a server thread handles them so ([requests_handled_in_order]).
      The completion queue gives responses to the application only if its lock covers the
      whole of [pop_response] ([pop_response_atomic]), which it does not
      ([pop_response_race]).
    - From CPU to NIC and back.  Hardware and software lay out a packet in the same way
      ([packet_layouts_agree]).  The NIC asks for every line of every transmit ring in
      bounded time ([polling_complete]) and forwards each packet that a stub stored exactly
      once ([tx_exactly_once]), under conditions that can fail: a line read while it is
      written ([torn_packet_forwarded]), answers that come too close together
      ([close_answers_duplicate]).  It writes the packets of a flow in order to consecutive
      lines of its ring ([rx_rings_written]), from where they reach the polling thread
      ([rx_end_to_end]); a flow whose FIFO fills up is never served again
      ([full_flow_starves]).
    - Rings.  The [k]-th slot and change bit of a transmit ring ([write_ptrs_ring]); the
      address behind the ring is not behind it ([cq_inside_ring]).
    - Connections.  The connection manager refines a bounded registry ([cm_refines]); the
      driver's setup and teardown are exact sequences of frames ([open_connection_exchange],
      [close_connection_exchange]) that the hardware can read back ([frame_roundtrip]).
    - The driver.  An invariant of all modes under every sequence of calls and every
      hardware ([nic_lifecycle]); bring-up and shut-down succeed on hardware that honours
      the register contract ([bring_up_succeeds]); the rings of a configured NIC are
      disjoint and inside the pinned page ([polling_configured]), and remain so for the
      threads of a server and the clients of a pool ([polling_server_rings],
      [polling_pool_rings], [server_threads], [pool_clients], [pop_capacity]).
    - The network controller: lookup in its register table ([csr_lookup]), resources on
      every path of opening ([hssi_open_balanced]), the registers that a packet takes
      ([send_packet_calls]).
    - Encodings: [pckt_roundtrip], [ipv4_addr_inv].
    - The store.  Under every sequence of calls the store is a cache: a lookup misses or
      returns what was last stored ([store_is_cache]), and hits directly after a store
      ([stored_is_found]).  The pool is first-in first-out ([pool_allocate_fifo]) and its
      validity test exact ([pool_is_valid_exact]).  The server over it is a cache of strings
      ([server_is_cache]) except for values whose length is a multiple of 8
      ([get_leaks_stack]); its hash uses only the first 2^16 buckets
      ([hash_reaches_few_buckets]).
    - memcached.  The hash table refines a finite map under look-ups, insertions,
      deletions and expansion ([table_refines_map]), and an expansion ends
      ([expansion_ends]).  The slab allocator hands out chunks that are distinct, big
      enough and not free ([slab_allocator]).  The Dagger handlers never fault and answer a
      get with a value that was stored under the key ([dagger_answers]), but keep every
      item they touch ([full_for_good]) and can return an overwritten value
      ([overwritten_value_returns], [expansion_returns_overwritten]).  The bip buffer is a
      queue of bytes ([bipbuf_fifo]); the object cache owns its objects ([cache_objects]);
      printing and parsing of numbers is a round trip ([itoa_roundtrip]); the URI encoder
      stays in its buffer ([uriencode_safe]); the hash of a key depends on its bytes only
      ([hash_of_key]) and the mixing steps are injective ([mixing_reversible]).
    - memcached connections.  However the network cuts a stream into pieces, the commands
      executed are those of the stream, in both protocols, and no byte of a value is taken
      for a command ([input_framing]); for the requests of a client of the binary protocol
      these are the requests, with their keys and extra fields
      ([binary_requests_executed]), unless a command is unknown
      ([unknown_command_overruns]).  An event ends ([machine_stops]).  Sending neither loses
      nor repeats a byte ([transmit_conserves], [responses_tallied]), and a binary
      response is a packet with the request's command and number and the length of what
      follows ([binary_responses]).
    - The checksum.  All versions of CRC-32C agree with the definition bit by bit
      ([crc32c_equivalent]), and it finds every error within four bytes
      ([crc32c_detects_bursts]).
    - The hardware.  Its connection manager is a table of connections that answers each
      request with the documented status ([hw_connections]); the driver's open and close on
      this hardware, cycle by cycle, keep pool and table in step ([driver_on_hardware]),
      up to the defects [close_truncates_id] and [stray_packet_forwarded].
    - Defects: [phy_addr_lost], [dma_notification_lock], [mmio_rx_rings_overlap],
      [pin_failure_terminates], [pop_response_race], [cq_inside_ring], and in the store
      [move_to_head_overflows], [full_bucket_evicts_newest], [memcmp8_padding]; in
      memcached the three above, [cache_free_keeps], [bipbuf_poll_overrun] and
      [safe_strtoul_accepts].

    ** Bounds and fuel

    The waits of the driver have the retry counts of the source.  The performance thread
    is given the number of rounds until it is stopped.  The loops of the store have fuel:
    dropping items from the pool, one more than its words, since an item takes a word
    ([make_room_spec]); cleaning, the number of buckets between the two tails
    ([cleanup_loop_spec]); powers of two, 64 shifts ([power_loop_spec]); the shift of the
    table, 48 ([rshift_loop_spec]).  The theorems on them are total: the fuel is enough.
    Head and tail of the pool are 64-bit counters; the theorems hold below 2^63 bytes,
    which 2^41 calls cannot exceed.  Walks along a chain or a queue of memcached items
    have one more step than the heap has items.  [dagger_answers] is stated up to 65,000
    gets: each get leaves a reference behind, and the count has 16 bits.

    The loop of [drive_machine] has [rounds] steps, a number computed from the input, the
    answers of the network and the requests per event, which [machine_stops] shows to be
    enough; its inner loops have the bounds of the source where there are any (4 reads of an
    event), or twice the bytes of a value and two (chunks of an item), 64 doublings (the
    statistics buffer).  The tables of the checksum are built with 32 squarings.  On the
    hardware, [settling] and [init_cycles] are the cycles that a command and a reset take at
    most; the transmitter is started by two cycles of reset, the write of the init register
    and 128 cycles, one for each slot of its request queue ([start_up]).

    ** What is not modelled

    Printing and logging; statistics and latency profiling under their macros; the parser
    of interface descriptions and the stubs for the MMIO and DMA builds.  Of the hardware:
    the vendor's FIFO, a parameter with its documented laws; the receive sides of the other
    builds, ccip_polling.sv, ccip_mmio.sv and ccip_dma.sv; that a read of memory returns a
    line as it was at one time after the request is part of the statements; the network
    and the top level, which are wiring to vendor components.  In MICA: concurrency, extra
    buckets and the other allocators, which the build leaves out, prefetching, the memory
    mapping below the pool, and the handler that loads a file.  Of memcached: listening
    sockets, UDP, TLS, SASL and external storage, which are build options; the crawler, the
    logger, the thread that moves slab pages; the numbers behind [stats]; its locks, a call
    being one step, and of the locks that are only tried the outcome is an argument. *)

From Stdlib Require Export ZArith Lia.
From stdpp Require Export base list gmap strings.

Declare Scope dagger_scope.
Delimit Scope dagger_scope with dagger.
Global Open Scope Z_scope.
Global Open Scope dagger_scope.

(** ** Machine integers *)

(** A [w]-bit unsigned integer is an integer in [[0, 2^w)]; C's conversion to
    a [w]-bit unsigned type is reduction modulo [2^w]. *)
Definition wrap (w x : Z) : Z := x mod 2 ^ w.

Abbreviation u8 := (wrap 8).
Abbreviation u16 := (wrap 16).
Abbreviation u32 := (wrap 32).
Abbreviation u64 := (wrap 64).

Definition in_width (w x : Z) : Prop := 0 <= x < 2 ^ w.

(** The conversion to a signed type of [w] bits. *)
Definition swrap (w x : Z) : Z := (x + 2 ^ (w - 1)) mod 2 ^ w - 2 ^ (w - 1).

Abbreviation i32 := (swrap 32).
Abbreviation i64 := (swrap 64).

(** The [len]-bit field of [x] that starts at bit [lo]. *)
Definition field (x lo len : Z) : Z := Z.land (Z.shiftr x lo) (Z.ones len).

(** Assigning [v] to that field. *)
Definition set_field (x lo len v : Z) : Z :=
  Z.lor (Z.ldiff x (Z.shiftl (Z.ones len) lo)) (Z.shiftl (wrap len v) lo).

Lemma swrap_small w x : 0 < w -> - 2 ^ (w - 1) <= x < 2 ^ (w - 1) -> swrap w x = x.
Proof.
  intros Hw Hx. unfold swrap. assert (2 ^ w = 2 * 2 ^ (w - 1)) as E
    by (rewrite <- Z.pow_succ_r by lia; f_equal; lia).
  rewrite Z.mod_small by lia. lia.
Qed.

Create HintDb word.

Lemma wrap_range w x : 0 <= w -> in_width w (wrap w x).
Proof. intros Hw. apply Z.mod_pos_bound. lia. Qed.

Lemma wrap_small w x : in_width w x -> wrap w x = x.
Proof. intros H. by apply Z.mod_small. Qed.

(** Bits of an integer that fits a width. *)
Lemma width_bits w x : 0 <= w -> in_width w x <-> 0 <= x /\ forall n, w <= n -> Z.testbit x n = false.
Proof.
  intros Hw. unfold in_width. split.
  - intros [H0 H1]. split; [done|]. intros n Hn. destruct (decide (x = 0)) as [->|]; [apply Z.bits_0|].
    apply Z.bits_above_log2; [done|]. apply Z.lt_le_trans with w; [apply Z.log2_lt_pow2; lia|done].
  - intros [H0 H1]. split; [done|]. destruct (decide (x < 2 ^ w)); [done|].
    assert (0 < x) by (pose proof (Z.pow_pos_nonneg 2 w); lia).
    specialize (H1 (Z.log2 x) ltac:(apply Z.log2_le_pow2; lia)).
    by rewrite Z.bit_log2 in H1.
Qed.

Lemma lxor_width w x y : 0 <= w -> in_width w x -> in_width w y -> in_width w (Z.lxor x y).
Proof.
  intros Hw [Hx Bx]%width_bits [By' By]%width_bits; [|done..]. apply width_bits; [done|]. split.
  - by apply Z.lxor_nonneg.
  - intros n Hn. by rewrite Z.lxor_spec, Bx, By.
Qed.

Lemma land_width w x y : 0 <= w -> in_width w x -> in_width w (Z.land x y).
Proof.
  intros Hw [Hx Bx]%width_bits; [|done]. apply width_bits; [done|]. split.
  - apply Z.land_nonneg. by left.
  - intros n Hn. by rewrite Z.land_spec, Bx.
Qed.

Lemma wrap_idem w x : 0 <= w -> wrap w (wrap w x) = wrap w x.
Proof. intros Hw. apply wrap_small. by apply wrap_range. Qed.

Lemma wrap_add_l w x y : wrap w (wrap w x + y) = wrap w (x + y).
Proof. unfold wrap. by rewrite Zplus_mod_idemp_l. Qed.

Lemma wrap_add_r w x y : wrap w (x + wrap w y) = wrap w (x + y).
Proof. unfold wrap. by rewrite Zplus_mod_idemp_r. Qed.

Lemma wrap_sub_l w x y : wrap w (wrap w x - y) = wrap w (x - y).
Proof. unfold wrap. by rewrite Zminus_mod_idemp_l. Qed.

Lemma wrap_sub_r w x y : wrap w (x - wrap w y) = wrap w (x - y).
Proof. unfold wrap. by rewrite Zminus_mod_idemp_r. Qed.

Lemma land_mask w x : 0 <= w -> Z.land x (2 ^ w - 1) = wrap w x.
Proof.
  intros Hw. replace (2 ^ w - 1) with (Z.ones w) by (rewrite Z.ones_equiv; lia).
  by apply Z.land_ones.
Qed.

(** Reduction to a narrower width absorbs a reduction to a wider one. *)
Lemma wrap_wrap v w x : 0 <= v <= w -> wrap v (wrap w x) = wrap v x.
Proof.
  intros [Hv Hw]. unfold wrap.
  replace w with (v + (w - v)) by lia.
  rewrite Z.pow_add_r by lia.
  rewrite Z.rem_mul_r by (try apply Z.pow_nonzero; lia).
  rewrite Z.mul_comm, Z_mod_plus_full. apply Z.mod_mod. lia.
Qed.

Lemma in_width_0 w : 0 <= w -> in_width w 0.
Proof. intros. unfold in_width. lia. Qed.

Lemma in_width_weaken v w x : 0 <= v <= w -> in_width v x -> in_width w x.
Proof.
  unfold in_width. intros ? [??].
  assert (2 ^ v <= 2 ^ w) by (apply Z.pow_le_mono_r; lia). lia.
Qed.

Lemma field_alt x lo len :
  0 <= lo -> 0 <= len -> field x lo len = (x / 2 ^ lo) mod 2 ^ len.
Proof.
  intros. unfold field. by rewrite Z.land_ones, Z.shiftr_div_pow2 by lia.
Qed.

Lemma field_range x lo len : 0 <= lo -> 0 <= len -> in_width len (field x lo len).
Proof. intros. rewrite field_alt by lia. by apply wrap_range. Qed.

(** Reading back the low and the high part of a packed word. *)
Lemma field_pack_lo a b lo len :
  0 <= lo -> 0 <= len ->
  field (a + b * 2 ^ (lo + len)) lo len = field a lo len.
Proof.
  intros. rewrite !field_alt by lia.
  rewrite Z.pow_add_r by lia.
  replace (a + b * (2 ^ lo * 2 ^ len)) with (a + (b * 2 ^ len) * 2 ^ lo) by ring.
  rewrite Z.div_add by (apply Z.pow_nonzero; lia).
  by rewrite Z.mod_add by (apply Z.pow_nonzero; lia).
Qed.

Lemma field_pack_hi a b lo len :
  0 <= lo -> 0 <= len -> in_width lo a ->
  field (a + b * 2 ^ lo) lo len = wrap len b.
Proof.
  intros ? ? Ha. rewrite field_alt by lia.
  rewrite Z.div_add by (apply Z.pow_nonzero; lia).
  rewrite Z.div_small by exact Ha. done.
Qed.

Lemma field_small x len : 0 <= len -> in_width len x -> field x 0 len = x.
Proof.
  intros ? Hx. rewrite field_alt by lia.
  rewrite Z.pow_0_r, Z.div_1_r. by apply wrap_small.
Qed.

(** Reading back the field that was set, and one beside it. *)
Lemma field_bits x lo len n :
  0 <= lo -> 0 <= len -> 0 <= n ->
  Z.testbit (field x lo len) n = (n <? len) && Z.testbit x (n + lo).
Proof.
  intros. unfold field. rewrite Z.land_spec, Z.shiftr_spec by lia.
  destruct (Z.ltb_spec n len); [rewrite Z.ones_spec_low by lia|rewrite Z.ones_spec_high by lia].
  - by rewrite andb_true_r.
  - by rewrite andb_false_r.
Qed.

Lemma set_field_bits x lo len v n :
  0 <= lo -> 0 <= len -> 0 <= n ->
  Z.testbit (set_field x lo len v) n =
    if (lo <=? n) && (n <? lo + len) then Z.testbit v (n - lo) else Z.testbit x n.
Proof.
  intros. unfold set_field. rewrite Z.lor_spec, Z.ldiff_spec, !Z.shiftl_spec by lia.
  unfold wrap. rewrite <- Z.land_ones, Z.land_spec by lia.
  destruct (Z.leb_spec lo n), (Z.ltb_spec n (lo + len)); cbn.
  - rewrite Z.ones_spec_low by lia. by rewrite andb_false_r, andb_true_r.
  - rewrite Z.ones_spec_high by lia. by rewrite andb_true_r, andb_false_r, orb_false_r.
  - rewrite !(Z.testbit_neg_r _ (n - lo)) by lia. by rewrite andb_true_r, orb_false_r.
  - rewrite !(Z.testbit_neg_r _ (n - lo)) by lia. by rewrite andb_true_r, orb_false_r.
Qed.

Lemma field_set_same x lo len v :
  0 <= lo -> 0 <= len -> in_width len v -> field (set_field x lo len v) lo len = v.
Proof.
  intros Hlo Hlen Hv. apply Z.bits_inj'. intros n Hn.
  rewrite field_bits, set_field_bits by lia. replace (n + lo - lo) with n by lia.
  destruct (Z.ltb_spec n len); cbn.
  - by rewrite (proj2 (Z.leb_le _ _)), (proj2 (Z.ltb_lt _ _)) by lia.
  - rewrite <- (wrap_small len v Hv). unfold wrap. symmetry. by apply Z.mod_pow2_bits_high; lia.
Qed.

Lemma field_set_other x lo len v lo' len' :
  0 <= lo -> 0 <= len -> 0 <= lo' -> 0 <= len' -> lo' + len' <= lo \/ lo + len <= lo' ->
  field (set_field x lo len v) lo' len' = field x lo' len'.
Proof.
  intros Hlo Hlen Hlo' Hlen' Hd. apply Z.bits_inj'. intros n Hn.
  rewrite !field_bits, set_field_bits by lia.
  destruct (Z.ltb_spec n len'); [|done].
  destruct (Z.leb_spec lo (n + lo')), (Z.ltb_spec (n + lo') (lo + len)); cbn; done || lia.
Qed.

(** Bitwise or of two words that share no bit is their sum. *)
Lemma lor_disjoint a b k : 0 <= k -> in_width k a -> Z.lor a (b * 2 ^ k) = a + b * 2 ^ k.
Proof.
  intros Hk Ha.
  assert (Z.land a (b * 2 ^ k) = 0) as Hd.
  { rewrite <- (wrap_small k a Ha). unfold wrap.
    rewrite <- Z.land_ones, <- Z.shiftl_mul_pow2 by lia. apply Z.bits_inj'. intros n Hn.
    rewrite Z.land_spec, Z.land_spec, Z.testbit_0_l.
    destruct (decide (n < k)).
    - rewrite Z.shiftl_spec_low by lia. apply andb_false_r.
    - rewrite Z.ones_spec_high by lia. by rewrite andb_false_r. }
  rewrite <- Z.lxor_lor by done. symmetry. by apply Z.add_nocarry_lxor.
Qed.

Lemma lor_disjoint' a b k : 0 <= k -> in_width k a -> Z.lor (b * 2 ^ k) a = a + b * 2 ^ k.
Proof. rewrite Z.lor_comm. apply lor_disjoint. Qed.

#[export] Hint Resolve wrap_range field_range in_width_0 : word.
#[export] Hint Extern 2 (0 <= _) => lia : word.
#[export] Hint Extern 2 (in_width _ _) => (unfold in_width; lia) : word.

(** ** Effects

    The C and C++ code is stateful and partial.  A computation runs in a state
    [S] and either returns a value and the next state, or does not return:
    - [Abort]: an [assert] fired, or [std::terminate] was called;
    - [Block]: the thread waits for a lock that its holder never gives back;
    - [Fault]: an access outside of the objects the program owns. *)
Inductive outcome (S A : Type) : Type :=
| Ret (a : A) (s : S)
| Abort
| Block
| Fault.
Arguments Ret {S A} a s.
Arguments Abort {S A}.
Arguments Block {S A}.
Arguments Fault {S A}.

Definition M (S A : Type) : Type := S -> outcome S A.

Definition ret {S A} (a : A) : M S A := fun s => Ret a s.

Definition bind {S A B} (m : M S A) (k : A -> M S B) : M S B :=
  fun s =>
    match m s with
    | Ret a s' => k a s'
    | Abort => Abort
    | Block => Block
    | Fault => Fault
    end.

Definition get {S} : M S S := fun s => Ret s s.
Definition gets {S A} (f : S -> A) : M S A := fun s => Ret (f s) s.
Definition modify {S} (f : S -> S) : M S unit := fun s => Ret tt (f s).

(** [assert(b)]; the repository is built without [NDEBUG]. *)
Definition massert {S} (b : bool) : M S unit :=
  fun s => if b then Ret tt s else Abort.

Notation "'let!' p ':=' m 'in' k" := (bind m (fun p => k))
  (at level 10, p pattern, m at level 100, k at level 200,
   format "'[v' 'let!'  p  ':='  m  'in' '/' k ']'") : dagger_scope.
Notation "m ;; k" := (bind m (fun _ => k))
  (at level 100, right associativity, format "'[v' m  ;; '/' k ']'") : dagger_scope.

(** Running a computation on a part of a larger state (a base class of an
    object, a member of a struct). *)
Definition zoom {S T A} (view : T -> S) (upd : S -> T -> T) (m : M S A) : M T A :=
  fun t =>
    match m (view t) with
    | Ret a s' => Ret a (upd s' t)
    | Abort => Abort
    | Block => Block
    | Fault => Fault
    end.

(** [wp m Q s]: from [s], [m] returns, and [Q] holds of its result.
    [wlp m Q s]: if it returns, [Q] holds of its result. *)
Definition wp {S A} (m : M S A) (Q : A -> S -> Prop) (s : S) : Prop :=
  match m s with Ret a s' => Q a s' | _ => False end.

Definition wlp {S A} (m : M S A) (Q : A -> S -> Prop) (s : S) : Prop :=
  match m s with Ret a s' => Q a s' | _ => True end.

Section wp.
Context {S A B : Type}.
Implicit Types (m : M S A) (k : A -> M S B) (s : S).

Lemma wp_ret (Q : A -> S -> Prop) a s : Q a s -> wp (ret a) Q s.
Proof. done. Qed.

Lemma wlp_ret (Q : A -> S -> Prop) a s : Q a s -> wlp (ret a) Q s.
Proof. done. Qed.

Lemma wp_bind m k (Q : B -> S -> Prop) s :
  wp m (fun a s' => wp (k a) Q s') s -> wp (bind m k) Q s.
Proof. unfold wp, bind. by destruct (m s). Qed.

Lemma wp_bind_inv m k (Q : B -> S -> Prop) s :
  wp (bind m k) Q s -> wp m (fun a s' => wp (k a) Q s') s.
Proof. unfold wp, bind. by destruct (m s). Qed.

Lemma wlp_bind m k (Q : B -> S -> Prop) s :
  wlp m (fun a s' => wlp (k a) Q s') s -> wlp (bind m k) Q s.
Proof. unfold wlp, bind. by destruct (m s). Qed.

Lemma wp_ret_bind a k (Q : B -> S -> Prop) s : wp (k a) Q s -> wp (bind (ret a) k) Q s.
Proof. done. Qed.

Lemma wlp_ret_bind a k (Q : B -> S -> Prop) s : wlp (k a) Q s -> wlp (bind (ret a) k) Q s.
Proof. done. Qed.

Lemma wp_mono m (P Q : A -> S -> Prop) s :
  (forall a s', P a s' -> Q a s') -> wp m P s -> wp m Q s.
Proof. unfold wp. destruct (m s); naive_solver. Qed.

Lemma wlp_mono m (P Q : A -> S -> Prop) s :
  (forall a s', P a s' -> Q a s') -> wlp m P s -> wlp m Q s.
Proof. unfold wlp. destruct (m s); naive_solver. Qed.

Lemma wp_wlp m (Q : A -> S -> Prop) s : wp m Q s -> wlp m Q s.
Proof. unfold wp, wlp. destruct (m s); tauto. Qed.

Lemma wp_ret_inv m (Q : A -> S -> Prop) s : wp m Q s -> exists a s', m s = Ret a s' /\ Q a s'.
Proof. unfold wp. destruct (m s); naive_solver. Qed.

Lemma wlp_ret_inv m (Q : A -> S -> Prop) s a s' : m s = Ret a s' -> wlp m Q s -> Q a s'.
Proof. unfold wlp. by intros ->. Qed.
End wp.

(** A member object built in place by [m]: what [m] does not return goes through. *)
Definition build {S Q} (m : M Q unit) (q : Q) : M S Q :=
  fun s => match m q with
           | Ret _ q' => Ret q' s
           | Abort => Abort
           | Block => Block
           | Fault => Fault
           end.

Lemma build_ret {S Q A} (m : M Q unit) q (k : Q -> M S A) s o :
  (exists q', m q = Ret tt q') -> (forall q', k q' s = o) -> bind (build m q) k s = o.
Proof. intros [q' E] Hk. unfold bind, build. by rewrite E. Qed.

Lemma wp_build {S Q A} (m : M Q unit) q (k : Q -> M S A) P s :
  (exists q', m q = Ret tt q') -> (forall q', wp (k q') P s) -> wp (bind (build m q) k) P s.
Proof. intros [q' E] Hk. apply wp_bind. unfold wp at 1, build. by rewrite E. Qed.

Lemma bind_assoc {S A B C} (m : M S A) (k : A -> M S B) (k' : B -> M S C) s :
  bind (bind m k) k' s = bind m (fun a => bind (k a) k') s.
Proof. unfold bind. by destruct (m s). Qed.

Lemma wp_assoc {S A B C} (m : M S A) (k : A -> M S B) (k' : B -> M S C) Q s :
  wp (bind m (fun a => bind (k a) k')) Q s -> wp (bind (bind m k) k') Q s.
Proof. unfold wp. by rewrite bind_assoc. Qed.

Lemma wlp_assoc {S A B C} (m : M S A) (k : A -> M S B) (k' : B -> M S C) Q s :
  wlp (bind m (fun a => bind (k a) k')) Q s -> wlp (bind (bind m k) k') Q s.
Proof. unfold wlp. by rewrite bind_assoc. Qed.

(** A computation preserves [I] when every state it returns in satisfies [I]
    as the state it started in did. *)
Definition preserves {S A} (I : S -> Prop) (m : M S A) : Prop :=
  forall s, I s -> wlp m (fun _ => I) s.

Create HintDb effects.

Section preserves.
Context {S : Type} (I : S -> Prop).

Lemma preserves_ret {A} (a : A) : preserves I (ret a).
Proof. by intros s. Qed.

Lemma preserves_bind {A B} (m : M S A) (k : A -> M S B) :
  preserves I m -> (forall a, preserves I (k a)) -> preserves I (bind m k).
Proof.
  intros Hm Hk s Hs. apply wlp_bind.
  eapply wlp_mono; [| by apply Hm]. intros a s'. apply Hk.
Qed.

Lemma preserves_if {A} (b : bool) (m1 m2 : M S A) :
  preserves I m1 -> preserves I m2 -> preserves I (if b then m1 else m2).
Proof. by destruct b. Qed.

Lemma preserves_massert b : preserves I (massert b).
Proof. intros s. by destruct b. Qed.

Lemma preserves_gets {A} (f : S -> A) : preserves I (gets f).
Proof. by intros s. Qed.

Lemma preserves_modify (f : S -> S) :
  (forall s, I s -> I (f s)) -> preserves I (modify f).
Proof. intros Hf s. apply Hf. Qed.

Lemma preserves_let_pair {A B C} (p : A * B) (m : A -> B -> M S C) :
  (forall a b, preserves I (m a b)) -> preserves I (let '(a, b) := p in m a b).
Proof. destruct p. by intros. Qed.
End preserves.

#[export] Hint Resolve preserves_ret preserves_bind preserves_if preserves_massert
  preserves_gets preserves_modify : effects.

(** Case analysis on the first computation of a sequence that returned. *)
Lemma bind_Ret {S A B} (m : M S A) (k : A -> M S B) s b s'' :
  bind m k s = Ret b s'' -> exists a s', m s = Ret a s' /\ k a s' = Ret b s''.
Proof. unfold bind. destruct (m s); naive_solver. Qed.

(** Tactics of the development. *)
Ltac div_lia := Z.to_euclidean_division_equations; lia.

Ltac inv_bind H :=
  let a := fresh "r" in let s := fresh "s" in let E := fresh "E" in
  apply bind_Ret in H as (a & s & E & H).

(** The first computation of a sequence, by its specification [H] and the hypotheses. *)
Tactic Notation "wp_step" uconstr(H) "as" simple_intropattern(a) simple_intropattern(s)
    simple_intropattern(P) :=
  apply wp_bind; eapply wp_mono; [|eapply H; eassumption]; intros a s; cbn beta; intros P.

Ltac run_wp := unfold wp, wlp, bind, ret, gets, modify, massert, zoom in *; simpl in *.

(** Split every [if] and [match] of the goal, closing the absurd branches. *)
Ltac split_matches :=
  repeat (match goal with
          | |- context [match ?x with _ => _ end] => destruct x eqn:?
          end; simplify_eq; try done).
