(* ===== verification/Wire.v ===== *)
(** * Configuration, addresses and the wire format

    - [cfg]: the compile-time configuration (src/sw/src/config.h);
    - [PhyAddr], [IPv4]: host addresses (src/sw/src/defs.h);
    - [RpcHeaderCtl], [RpcHeader], [RpcPckt]: the packed memory layout of an RPC
      packet (src/sw/src/rpc_header.h), with [encode_pckt]/[decode_pckt] reading
      and writing the 64 bytes the CPU and the NIC exchange. *)

From Stdlib Require Import Ascii.
From S2P Require Import Prelude.

Module cfg.
Definition cl_size_bytes : Z := 64.
Definition enable_hugepages : bool := false.
Definition hugepage_size : Z := 2048 * 1024.
Definition tx_batch_size : Z := 0.
Definition l_tx_queue_size : Z := 3.
Definition l_rx_batch_size : Z := 0.
Definition l_rx_queue_size : Z := 3.
Definition polling_rate : Z := 30.
Definition llc_anti_aliasing_offset : Z := 4 * 1024.

(** The [static_assert]s of config.h. *)
Definition static_asserts : bool :=
  (tx_batch_size <=? Z.shiftl 1 l_tx_queue_size)
  && (l_rx_batch_size <=? 2) && (l_rx_batch_size <=? l_rx_queue_size).
End cfg.

(** ** Addresses *)
Record PhyAddr := {
  b0 : Z; b1 : Z; b2 : Z; b3 : Z; b4 : Z; b5 : Z
}.

(** The scanner of libc's [inet_pton(AF_INET, ...)]: up to three digits without
    a leading zero per octet, four octets, a dot between two octets. *)
Record pton_state := {
  saw_digit : bool; octets : Z; cur : Z; done_octets : list Z
}.

Definition digit_val (c : Ascii.ascii) : option Z :=
  let n := Z.of_nat (Ascii.nat_of_ascii c) in
  if (48 <=? n) && (n <=? 57) then Some (n - 48) else None.

Definition pton_step (c : Ascii.ascii) (st : pton_state) : option pton_state :=
  match digit_val c with
  | Some d =>
      let v := cur st * 10 + d in
      if saw_digit st && (cur st =? 0) then None
      else if 255 <? v then None
      else if saw_digit st then
        Some {| saw_digit := true; octets := octets st; cur := v;
                done_octets := done_octets st |}
      else if octets st =? 4 then None
      else Some {| saw_digit := true; octets := octets st + 1; cur := v;
                   done_octets := done_octets st |}
  | None =>
      if Ascii.eqb c "."%char && saw_digit st then
        if octets st =? 4 then None
        else Some {| saw_digit := false; octets := octets st; cur := 0;
                     done_octets := done_octets st ++ [cur st] |}
      else None
  end.

Fixpoint pton_scan (s : string) (st : pton_state) : option pton_state :=
  match s with
  | EmptyString => Some st
  | String c s' =>
      match pton_step c st with Some st' => pton_scan s' st' | None => None end
  end.

Definition inet_pton (s : string) : option (list Z) :=
  match pton_scan s {| saw_digit := false; octets := 0; cur := 0; done_octets := [] |} with
  | Some st => if octets st =? 4 then Some (done_octets st ++ [cur st]) else None
  | None => None
  end.

(** ** Little-endian byte sequences *)
Fixpoint le_bytes (n : nat) (x : Z) : list Z :=
  match n with
  | O => []
  | S n' => wrap 8 x :: le_bytes n' (Z.shiftr x 8)
  end.

Fixpoint le_val (bs : list Z) : Z :=
  match bs with
  | [] => 0
  | b :: bs' => b + 256 * le_val bs'
  end.

Record IPv4 := { ipv4_ : Z; port_ : Z }.

(** The constructor stores [s_addr], whose memory image is the four octets in
    network order; it ignores the return code of [inet_pton], so on a malformed
    string the field keeps the content [indet] of the uninitialised [in_addr]. *)
Definition mk_IPv4 (indet : Z) (ip_addr : string) (port : Z) : IPv4 :=
  {| ipv4_ := match inet_pton ip_addr with
              | Some os => le_val os
              | None => u32 indet
              end;
     port_ := u16 port |}.

Definition get_addr (a : IPv4) : Z := ipv4_ a.

Definition get_addr_inv (a : IPv4) : Z :=
  u32 (Z.lor (Z.lor (Z.lor (Z.shiftr (ipv4_ a) 24)
                           (Z.shiftl (Z.land (Z.shiftr (ipv4_ a) 16) 255) 8))
                    (Z.shiftl (Z.land (Z.shiftr (ipv4_ a) 8) 255) 16))
             (u32 (Z.shiftl (Z.land (ipv4_ a) 255) 24))).

Definition get_port (a : IPv4) : Z := port_ a.

#[export] Instance IPv4_eq_dec : EqDecision IPv4.
Proof. solve_decision. Defined.

(** ** RPC packets *)
Inductive Direction := rpc_request | rpc_response.

Definition Direction_val (d : Direction) : Z :=
  match d with rpc_request => 0 | rpc_response => 1 end.

Record RpcHeaderCtl := { req_type : Z; update_flag : Z; valid : Z }.

Record RpcHeader := {
  ctl : RpcHeaderCtl;
  rpc_id : Z;
  n_of_frames : Z;
  frame_id : Z;
  fn_id : Z;
  argl : Z;
  c_id : Z
}.

Definition rpc_header_size_bytes : Z := 12.

Record RpcPckt := { hdr : RpcHeader; argv : list Z }.

Definition argv_size : Z := cfg.cl_size_bytes - rpc_header_size_bytes.

#[export] Instance RpcPckt_eq_dec : EqDecision RpcPckt.
Proof.
  assert (EqDecision RpcHeaderCtl) by solve_decision.
  assert (EqDecision RpcHeader) by solve_decision. solve_decision.
Defined.

Definition encode_ctl (c : RpcHeaderCtl) : Z :=
  wrap 1 (req_type c) + 2 * wrap 1 (update_flag c) + 4 * wrap 1 (valid c).

Definition decode_ctl (b : Z) : RpcHeaderCtl :=
  {| req_type := field b 0 1; update_flag := field b 1 1; valid := field b 2 1 |}.

(** The packed struct in memory order. *)
Definition encode_pckt (p : RpcPckt) : list Z :=
  let h := hdr p in
  encode_ctl (ctl h) :: le_bytes 4 (rpc_id h) ++ le_bytes 1 (n_of_frames h)
  ++ le_bytes 1 (frame_id h) ++ le_bytes 2 (fn_id h) ++ le_bytes 2 (argl h)
  ++ le_bytes 1 (c_id h) ++ argv p.

Definition slice (i n : nat) (bs : list Z) : list Z := take n (drop i bs).

Definition decode_pckt (bs : list Z) : RpcPckt :=
  {| hdr := {| ctl := decode_ctl (le_val (slice 0 1 bs));
               rpc_id := le_val (slice 1 4 bs);
               n_of_frames := le_val (slice 5 1 bs);
               frame_id := le_val (slice 6 1 bs);
               fn_id := le_val (slice 7 2 bs);
               argl := le_val (slice 9 2 bs);
               c_id := le_val (slice 11 1 bs) |};
     argv := drop 12 bs |}.

(** Values that fit the declared types. *)
Definition wf_ctl (c : RpcHeaderCtl) : Prop :=
  in_width 1 (req_type c) /\ in_width 1 (update_flag c) /\ in_width 1 (valid c).

Definition wf_header (h : RpcHeader) : Prop :=
  wf_ctl (ctl h) /\ in_width 32 (rpc_id h) /\ in_width 8 (n_of_frames h)
  /\ in_width 8 (frame_id h) /\ in_width 16 (fn_id h) /\ in_width 16 (argl h)
  /\ in_width 8 (c_id h).

Definition wf_pckt (p : RpcPckt) : Prop :=
  wf_header (hdr p) /\ length (argv p) = Z.to_nat argv_size /\ Forall (in_width 8) (argv p).

(** ** Lemmas *)
Lemma length_le_bytes n x : length (le_bytes n x) = n.
Proof. revert x. induction n; intros; simpl; [done|]. by rewrite IHn. Qed.

Lemma le_bytes_width n x : Forall (in_width 8) (le_bytes n x).
Proof. revert x. induction n; intros; simpl; constructor; auto with word. Qed.

Lemma le_val_bytes n x : le_val (le_bytes n x) = wrap (8 * Z.of_nat n) x.
Proof.
  revert x. induction n as [|n IH]; intros x; cbn [le_bytes le_val].
  { unfold wrap. by rewrite Z.mod_1_r. }
  rewrite IH, Z.shiftr_div_pow2 by lia. unfold wrap.
  replace (8 * Z.of_nat (S n)) with (8 + 8 * Z.of_nat n) by lia.
  rewrite Z.pow_add_r by lia. change (2 ^ 8) with 256.
  rewrite (Z.rem_mul_r x) by (try apply Z.pow_nonzero; lia). lia.
Qed.

Lemma le_val_bound bs : Forall (in_width 8) bs -> in_width (8 * Z.of_nat (length bs)) (le_val bs).
Proof.
  induction 1 as [|b bs Hb _ IH]; cbn [le_val length]; [unfold in_width; simpl; lia|].
  unfold in_width in *. replace (8 * Z.of_nat (S (length bs))) with (8 + 8 * Z.of_nat (length bs)) by lia.
  rewrite Z.pow_add_r by lia. change (2 ^ 8) with 256 in *. lia.
Qed.

Lemma le_bytes_val bs : Forall (in_width 8) bs -> le_bytes (length bs) (le_val bs) = bs.
Proof.
  induction 1 as [|b bs Hb _ IH]; cbn [le_val length le_bytes]; [done|].
  rewrite Z.shiftr_div_pow2 by lia. unfold wrap, in_width in *. change (2 ^ 8) with 256 in *.
  rewrite (Z.mul_comm 256), Z.div_add, (Z.div_small b), Z.add_0_l, IH by lia.
  by rewrite Z.mod_add, Z.mod_small by lia.
Qed.

Lemma decode_encode_ctl c : wf_ctl c -> decode_ctl (encode_ctl c) = c.
Proof.
  destruct c as [r u v]. intros (Hr & Hu & Hv). unfold in_width in *. simpl in *.
  assert (r = 0 \/ r = 1) as [-> | ->] by lia;
  assert (u = 0 \/ u = 1) as [-> | ->] by lia;
  assert (v = 0 \/ v = 1) as [-> | ->] by lia; reflexivity.
Qed.

Lemma length_encode_pckt p :
  length (argv p) = Z.to_nat argv_size -> length (encode_pckt p) = 64%nat.
Proof.
  intros H. unfold encode_pckt. cbn [length].
  rewrite !length_app, !length_le_bytes, H. reflexivity.
Qed.

(** The decimal numeral of an octet, as the addresses of the configuration are
    written. *)
Definition digit_char (d : Z) : ascii := ascii_of_nat (Z.to_nat (48 + d)).

Definition octet_string (n : Z) (rest : string) : string :=
  if n <? 10 then String (digit_char n) rest
  else if n <? 100 then
    String (digit_char (n / 10)) (String (digit_char (n mod 10)) rest)
  else
    String (digit_char (n / 100))
      (String (digit_char (n / 10 mod 10)) (String (digit_char (n mod 10)) rest)).

Definition dotted (a b c d : Z) : string :=
  octet_string a (String "." (octet_string b (String "." (octet_string c
    (String "." (octet_string d EmptyString)))))).

Lemma digit_val_char d : 0 <= d < 10 -> digit_val (digit_char d) = Some d.
Proof.
  intros Hd. unfold digit_val, digit_char. rewrite nat_ascii_embedding by lia.
  rewrite Z2Nat.id by lia.
  destruct (48 <=? 48 + d) eqn:?, (48 + d <=? 57) eqn:?; simpl; try lia. f_equal. lia.
Qed.

Definition fresh_octet (o : Z) (acc : list Z) : pton_state :=
  {| saw_digit := false; octets := o; cur := 0; done_octets := acc |}.
Definition read_octet (o n : Z) (acc : list Z) : pton_state :=
  {| saw_digit := true; octets := o; cur := n; done_octets := acc |}.

Lemma pton_first o acc d :
  0 <= d < 10 -> o <> 4 ->
  pton_step (digit_char d) (fresh_octet o acc) = Some (read_octet (o + 1) d acc).
Proof.
  intros Hd Ho. unfold pton_step. rewrite digit_val_char by done.
  cbn [saw_digit cur octets done_octets fresh_octet andb].
  replace (0 * 10 + d) with d by lia.
  destruct (255 <? d) eqn:?; [lia|]. by destruct (Z.eqb_spec o 4).
Qed.

Lemma pton_more o acc v d :
  0 <= d < 10 -> 0 < v -> v * 10 + d <= 255 ->
  pton_step (digit_char d) (read_octet o v acc) = Some (read_octet o (v * 10 + d) acc).
Proof.
  intros Hd Hv Hb. unfold pton_step. rewrite digit_val_char by done. cbn [saw_digit cur octets done_octets read_octet].
  destruct (Z.eqb_spec v 0); [lia|]. cbn [andb].
  destruct (255 <? v * 10 + d) eqn:?; [lia|done].
Qed.

Lemma pton_octet o acc n rest :
  0 <= n <= 255 -> o <> 4 ->
  pton_scan (octet_string n rest) (fresh_octet o acc) = pton_scan rest (read_octet (o + 1) n acc).
Proof.
  intros Hn Ho. unfold octet_string.
  destruct (n <? 10) eqn:?; [|destruct (n <? 100) eqn:?]; cbn [pton_scan].
  - by rewrite pton_first by lia.
  - rewrite pton_first, pton_more by div_lia. do 3 f_equal. div_lia.
  - rewrite pton_first, pton_more, pton_more by div_lia. do 3 f_equal. div_lia.
Qed.

Lemma pton_dot o v acc rest :
  o <> 4 ->
  pton_scan (String "." rest) (read_octet o v acc) = pton_scan rest (fresh_octet o (acc ++ [v])).
Proof.
  intros Ho. cbn [pton_scan]. unfold pton_step.
  change (digit_val ".") with (@None Z). cbn [saw_digit octets read_octet].
  change (Ascii.eqb "." "." && true) with true. by destruct (Z.eqb_spec o 4).
Qed.

Lemma inet_pton_dotted a b c d :
  0 <= a <= 255 -> 0 <= b <= 255 -> 0 <= c <= 255 -> 0 <= d <= 255 ->
  inet_pton (dotted a b c d) = Some [a; b; c; d].
Proof.
  intros. unfold inet_pton, dotted. fold (fresh_octet 0 []).
  rewrite pton_octet, pton_dot, pton_octet, pton_dot, pton_octet, pton_dot, pton_octet by lia.
  reflexivity.
Qed.

(** [get_addr_inv] reverses the bytes of the address. *)
Lemma get_addr_inv_bytes a b c d p :
  in_width 8 a -> in_width 8 b -> in_width 8 c -> in_width 8 d ->
  get_addr_inv {| ipv4_ := le_val [a; b; c; d]; port_ := p |} = le_val [d; c; b; a].
Proof.
  intros Ha Hb Hc Hd. unfold get_addr_inv, in_width in *. cbn [ipv4_].
  change (2 ^ 8) with 256 in *. set (x := le_val [a; b; c; d]).
  assert (x = a + 256 * b + 65536 * c + 16777216 * d) as Hx by (unfold x; cbn; lia).
  change 255 with (Z.ones 8). rewrite !Z.land_ones, !Z.shiftr_div_pow2, !Z.shiftl_mul_pow2 by lia.
  replace (x / 2 ^ 24) with d by (apply (Z.div_unique_pos _ _ _ (a + 256 * b + 65536 * c)); lia).
  replace (x / 2 ^ 16) with (c + 256 * d) by (apply (Z.div_unique_pos _ _ _ (a + 256 * b)); lia).
  replace (x / 2 ^ 8) with (b + 256 * c + 65536 * d) by (apply (Z.div_unique_pos _ _ _ a); lia).
  replace ((c + 256 * d) mod 2 ^ 8) with c by (apply (Z.mod_unique_pos _ _ d); lia).
  replace ((b + 256 * c + 65536 * d) mod 2 ^ 8) with b
    by (apply (Z.mod_unique_pos _ _ (c + 256 * d)); lia).
  replace (x mod 2 ^ 8) with a by (apply (Z.mod_unique_pos _ _ (b + 256 * c + 65536 * d)); lia).
  rewrite (wrap_small 32 (a * 2 ^ 24)) by (unfold in_width; lia).
  rewrite (lor_disjoint d), (lor_disjoint _ b), (lor_disjoint _ a) by (unfold in_width; lia).
  rewrite wrap_small by (unfold in_width; lia). cbn. lia.
Qed.

Lemma decode_encode_hdr p :
  wf_header (hdr p) -> hdr (decode_pckt (encode_pckt p)) = hdr p.
Proof.
  destruct p as [[[r u v] i n f fn al c] av].
  intros (Hctl & Hi & Hn & Hf & Hfn & Hal & Hc). cbn in Hi, Hn, Hf, Hfn, Hal, Hc.
  unfold decode_pckt. cbn [hdr]. f_equal.
  - change (slice 0 1 _) with [encode_ctl {| req_type := r; update_flag := u; valid := v |}].
    cbn [le_val]. rewrite Z.mul_0_r, Z.add_0_r. by apply decode_encode_ctl.
  - change (slice 1 4 _) with (le_bytes 4 i). by rewrite le_val_bytes, wrap_small.
  - change (slice 5 1 _) with (le_bytes 1 n). by rewrite le_val_bytes, wrap_small.
  - change (slice 6 1 _) with (le_bytes 1 f). by rewrite le_val_bytes, wrap_small.
  - change (slice 7 2 _) with (le_bytes 2 fn). by rewrite le_val_bytes, wrap_small.
  - change (slice 9 2 _) with (le_bytes 2 al). by rewrite le_val_bytes, wrap_small.
  - change (slice 11 1 _) with (le_bytes 1 c). by rewrite le_val_bytes, wrap_small.
Qed.


Definition sample_pckt : RpcPckt :=
  {| hdr := {| ctl := {| req_type := 0; update_flag := 1; valid := 1 |};
               rpc_id := 196609; n_of_frames := 1; frame_id := 0; fn_id := 1;
               argl := 20; c_id := 3 |};
     argv := replicate 52 7 |}.


(** A dotted-quad address given to the [IPv4] constructor is parsed to its
    four octets, [get_addr] holds them in network order in memory, and
    [get_addr_inv] is the big-endian value the hardware registers expect;
    applying the inversion to the inverted address gives the address back. *)
Theorem ipv4_addr_inv (indet a b c d port : Z)
    (Ha : 0 <= a <= 255) (Hb : 0 <= b <= 255) (Hc : 0 <= c <= 255) (Hd : 0 <= d <= 255) :
  let ip := mk_IPv4 indet (dotted a b c d) port in
  le_bytes 4 (get_addr ip) = [a; b; c; d]
  /\ get_addr_inv ip = a * 2 ^ 24 + b * 2 ^ 16 + c * 2 ^ 8 + d
  /\ get_addr_inv {| ipv4_ := get_addr_inv ip; port_ := port |} = get_addr ip
  /\ get_port ip = u16 port.
Proof.
  intros ip. assert (ip = {| ipv4_ := le_val [a; b; c; d]; port_ := u16 port |}) as ->.
  { unfold ip, mk_IPv4. by rewrite inet_pton_dotted. }
  assert (forall x, 0 <= x <= 255 -> in_width 8 x) as W by (unfold in_width; lia).
  rewrite !get_addr_inv_bytes by auto. split_and!.
  - apply (le_bytes_val [a; b; c; d]). repeat (apply Forall_cons; split; [by apply W|]).
    by apply Forall_nil.
  - cbn. lia.
  - done.
  - done.
Qed.

Lemma ipv4_addr_inv_witness :
  get_addr_inv (mk_IPv4 0 "192.168.0.1" 0) = 3232235521.
Proof.
  pose proof (ipv4_addr_inv 0 192 168 0 1 0 ltac:(lia) ltac:(lia) ltac:(lia) ltac:(lia)) as H.
  change (dotted 192 168 0 1) with "192.168.0.1"%string in H.
  exact (proj1 (proj2 H)).
Defined.

(** ** Slices of byte strings, also after a write *)
Lemma slice_app_l i n (l l' : list Z) :
  (i + n <= length l)%nat -> slice i n (l ++ l') = slice i n l.
Proof. intros H. unfold slice. rewrite drop_app_le, take_app_le by (rewrite ?length_drop; lia). done. Qed.

Lemma slice_app_r i n (l l' : list Z) :
  (length l <= i)%nat -> slice i n (l ++ l') = slice (i - length l) n l'.
Proof. intros H. unfold slice. by rewrite drop_app_ge. Qed.

Lemma slice_plus i n m (l : list Z) : slice i (n + m) l = slice i n l ++ slice (i + n) m l.
Proof.
  unfold slice. rewrite <- drop_drop. rewrite <- (take_drop n (take (n + m) (drop i l))).
  rewrite take_take, skipn_firstn_comm, Nat.min_l by lia. do 2 f_equal. lia.
Qed.

Lemma slice_length i n (l : list Z) : (i + n <= length l)%nat -> length (slice i n l) = n.
Proof. intros H. unfold slice. rewrite length_take, length_drop. lia. Qed.

(** What a write of [d] at [off] leaves in the array. *)
Definition splice (off : nat) (d l : list Z) : list Z := take off l ++ d ++ drop (off + length d) l.

Section Splice.
Context (off : nat) (d l : list Z).
Hypothesis Hoff : (off + length d <= length l)%nat.

Lemma length_splice : length (splice off d l) = length l.
Proof using Hoff. unfold splice. rewrite !length_app, length_take, length_drop. lia. Qed.

Lemma slice_splice_before i n : (i + n <= off)%nat -> slice i n (splice off d l) = slice i n l.
Proof using Hoff.
  intros H. unfold splice. rewrite slice_app_l by (rewrite length_take; lia).
  unfold slice. rewrite skipn_firstn_comm, take_take. f_equal. lia.
Qed.

Lemma slice_splice_after i n : (off + length d <= i)%nat -> slice i n (splice off d l) = slice i n l.
Proof using Hoff.
  intros H. unfold splice. rewrite app_assoc, slice_app_r by (rewrite length_app, length_take; lia).
  unfold slice. rewrite drop_drop. do 2 f_equal. rewrite length_app, length_take. lia.
Qed.

Lemma slice_splice_same : slice off (length d) (splice off d l) = d.
Proof using Hoff.
  unfold splice. rewrite slice_app_r by (rewrite length_take; lia).
  rewrite length_take, Nat.min_l, Nat.sub_diag by lia. rewrite slice_app_l by lia.
  unfold slice. by rewrite drop_0, take_ge by lia.
Qed.
End Splice.
