(* ===== verification/Queues.v ===== *)
(** * The transmit and receive rings

    [Tx] models [TxQueue] (src/sw/src/tx_queue.h, tx_queue.cc) and [Rx] models
    [RxQueue] (rx_queue.h, rx_queue.cc).  A pointer into the shared memory is its
    address, the null pointer is 0; a heap array of the queue is [None] before
    [init] and the list of its elements afterwards.  The theorems give the slot
    and the polarity of the change bit of the [k]-th access in closed form, and
    that no access leaves the ring. *)

From S2P Require Import Prelude Wire.

(** [1 << l] as the constructors compute it, for [l] below the width of [int]. *)
Definition ring_depth (l_depth : Z) : Z := Z.shiftl 1 l_depth.

(** Array accesses of the rings: out of range is a fault. *)
Definition arr_get {S} (a : list Z) (i : Z) : M S Z :=
  fun s => if i <? 0 then Fault else
    match a !! Z.to_nat i with Some x => Ret x s | None => Fault end.

Lemma arr_get_ok {S} a i x (s : S) :
  0 <= i -> a !! Z.to_nat i = Some x -> arr_get a i s = Ret x s.
Proof. intros Hi Hx. unfold arr_get. destruct (i <? 0) eqn:?; [lia|]. by rewrite Hx. Qed.

Module Tx.
Record TxQueue := {
  tx_flow_buff_ : Z;
  bucket_size_ : Z;
  l_depth_ : Z;
  depth_ : Z;
  tx_q_ : Z;
  tx_q_head_ : Z;
  tx_q_tail_ : Z;
  change_bit_set_ : option (list Z);
  cq_ : Z
}.

Definition TxQueue_default : TxQueue :=
  {| tx_flow_buff_ := 0; bucket_size_ := 0; l_depth_ := 0; depth_ := 0;
     tx_q_ := 0; tx_q_head_ := 0; tx_q_tail_ := 0; change_bit_set_ := None; cq_ := 0 |}.

Definition TxQueue_ctor (tx_flow_buff bucket_size_bytes l_depth : Z) : TxQueue :=
  {| tx_flow_buff_ := tx_flow_buff;
     bucket_size_ := bucket_size_bytes;
     l_depth_ := l_depth;
     depth_ := ring_depth l_depth;
     tx_q_ := tx_flow_buff;
     tx_q_head_ := 0;
     tx_q_tail_ := 0;
     change_bit_set_ := None;
     cq_ := tx_flow_buff + bucket_size_bytes * l_depth |}.

Definition set_bits (o : option (list Z)) (q : TxQueue) : TxQueue :=
  {| tx_flow_buff_ := tx_flow_buff_ q; bucket_size_ := bucket_size_ q;
     l_depth_ := l_depth_ q; depth_ := depth_ q; tx_q_ := tx_q_ q;
     tx_q_head_ := tx_q_head_ q; tx_q_tail_ := tx_q_tail_ q;
     change_bit_set_ := o; cq_ := cq_ q |}.

Definition set_head (h : Z) (q : TxQueue) : TxQueue :=
  {| tx_flow_buff_ := tx_flow_buff_ q; bucket_size_ := bucket_size_ q;
     l_depth_ := l_depth_ q; depth_ := depth_ q; tx_q_ := tx_q_ q;
     tx_q_head_ := h; tx_q_tail_ := tx_q_tail_ q;
     change_bit_set_ := change_bit_set_ q; cq_ := cq_ q |}.

(** [init]: [page_size] is [getpagesize()]; [allocated] says whether
    [aligned_alloc] found memory (writing through its null result faults). *)
Definition init (page_size : Z) (allocated : bool) : M TxQueue unit :=
  massert (page_size =? 4096) ;;
  let! q := get in
  if allocated || (depth_ q =? 0) then
    modify (set_bits (Some (replicate (Z.to_nat (depth_ q)) 1)))
  else fun _ => Fault.

Lemma init_tx_q page_size allocated q u q' :
  init page_size allocated q = Ret u q' -> tx_q_ q' = tx_q_ q.
Proof.
  unfold init, bind, massert, get, modify.
  destruct (_ =? 4096); cbn; [|done]. destruct (_ || _); cbn; [|done]. by intros [= _ <-].
Qed.

(** [get_write_ptr]: the head slot and its change bit; then the bit is flipped
    and the head advances. *)
Definition get_write_ptr : M TxQueue (Z * Z) :=
  let! q := get in
  massert (negb (tx_q_ q =? 0)) ;;
  match change_bit_set_ q with
  | None => fun _ => Abort
  | Some bits =>
      let! change_bit := arr_get bits (tx_q_head_ q) in
      let ptr := tx_q_ q + tx_q_head_ q * bucket_size_ q in
      modify (set_bits (Some (<[Z.to_nat (tx_q_head_ q) := Z.lxor change_bit 1]> bits))) ;;
      let head' := u64 (tx_q_head_ q + 1) in
      modify (set_head (if head' =? depth_ q then 0 else head')) ;;
      ret (ptr, change_bit)
  end.

(** [k] successive calls, with what they returned. *)
Fixpoint write_ptrs (k : nat) : M TxQueue (list (Z * Z)) :=
  match k with
  | O => ret []
  | S k' =>
      let! ps := write_ptrs k' in
      let! p := get_write_ptr in
      ret (ps ++ [p])
  end.

(** ** The ring after [k] calls *)
Definition slot_bit (d : Z) (k i : Z) : Z := (1 + (k + d - 1 - i) / d) mod 2.

Record at_call (base bucket d k : Z) (q : TxQueue) : Prop := {
  at_ptr : tx_q_ q = base;
  at_bucket : bucket_size_ q = bucket;
  at_depth : depth_ q = d;
  at_head : tx_q_head_ q = k mod d;
  at_bits : exists bits, change_bit_set_ q = Some bits
            /\ length bits = Z.to_nat d
            /\ forall i, 0 <= i < d -> bits !! Z.to_nat i = Some (slot_bit d k i)
}.

(** The slot that call [k] uses has been used [k / d] times before. *)
Lemma slot_bit_head d k : 0 < d -> 0 <= k -> slot_bit d k (k mod d) = (1 + k / d) mod 2.
Proof.
  intros Hd Hk. unfold slot_bit. do 2 f_equal.
  symmetry. apply (Z.div_unique_pos _ _ _ (d - 1)); [lia|].
  pose proof (Z.div_mod k d). lia.
Qed.

Lemma slot_bit_flip d k :
  0 < d -> 0 <= k -> slot_bit d (k + 1) (k mod d) = Z.lxor (slot_bit d k (k mod d)) 1.
Proof.
  intros Hd Hk. rewrite slot_bit_head by lia. unfold slot_bit.
  replace ((k + 1 + d - 1 - k mod d) / d) with (k / d + 1).
  2: { apply (Z.div_unique_pos _ _ _ 0); [lia|]. pose proof (Z.div_mod k d). lia. }
  generalize (k / d). intros m.
  assert ((1 + m) mod 2 = 0 \/ (1 + m) mod 2 = 1) as [E|E] by div_lia; rewrite E;
    [change (Z.lxor 0 1) with 1 | change (Z.lxor 1 1) with 0]; div_lia.
Qed.

Lemma slot_bit_other d k i :
  0 < d -> 0 <= k -> 0 <= i < d -> i <> k mod d -> slot_bit d (k + 1) i = slot_bit d k i.
Proof.
  intros Hd Hk Hi Hne. unfold slot_bit. do 2 f_equal.
  pose proof (Z.div_mod k d). pose proof (Z.mod_pos_bound k d).
  destruct (decide (i < k mod d)).
  - transitivity (k / d + 1).
    + symmetry. apply (Z.div_unique_pos _ _ _ (k mod d - i)); lia.
    + apply (Z.div_unique_pos _ _ _ (k mod d - 1 - i)); lia.
  - transitivity (k / d).
    + symmetry. apply (Z.div_unique_pos _ _ _ (k mod d + d - i)); lia.
    + apply (Z.div_unique_pos _ _ _ (k mod d + d - 1 - i)); lia.
Qed.

Lemma next_head d k :
  0 < d < 2 ^ 64 -> 0 <= k ->
  (if u64 (k mod d + 1) =? d then 0 else u64 (k mod d + 1)) = (k + 1) mod d.
Proof.
  intros Hd Hk. pose proof (Z.mod_pos_bound k d). pose proof (Z.div_mod k d).
  rewrite wrap_small by (unfold in_width; lia).
  destruct (Z.eqb_spec (k mod d + 1) d).
  - apply (Z.mod_unique_pos _ _ (k / d + 1)); lia.
  - apply (Z.mod_unique_pos _ _ (k / d)); lia.
Qed.

Section calls.
Context (base bucket d : Z).
Hypothesis Hbase : base <> 0.
Hypothesis Hd : 0 < d < 2 ^ 64.

(** One call: the [k]-th access and the ring afterwards. *)
Lemma get_write_ptr_spec k q :
  0 <= k -> at_call base bucket d k q ->
  exists q', get_write_ptr q = Ret (base + k mod d * bucket, (1 + k / d) mod 2) q'
             /\ at_call base bucket d (k + 1) q'.
Proof.
  intros Hk [Hp Hb Hde Hh (bits & Hbits & Hlen & Hall)].
  pose proof (Z.mod_pos_bound k d ltac:(lia)) as Hm.
  pose proof (Hall (k mod d) Hm) as Hbit. rewrite slot_bit_head in Hbit by lia.
  unfold get_write_ptr, bind, get, ret, modify, massert.
  rewrite Hp, Hbits, Hh, Hb. destruct (Z.eqb_spec base 0); [done|]. cbn [negb].
  rewrite (arr_get_ok _ _ _ _ (proj1 Hm) Hbit).
  eexists. split; [done|]. split; cbn; try done.
  - rewrite Hde. by apply next_head.
  - eexists. split_and!; [done | by rewrite length_insert |]. intros i Hi.
    destruct (decide (i = k mod d)) as [->|Hne].
    + rewrite list_lookup_insert_eq by (rewrite Hlen; lia).
      by rewrite slot_bit_flip, slot_bit_head by lia.
    + rewrite list_lookup_insert_ne by lia. rewrite slot_bit_other by lia. by apply Hall.
Qed.

Lemma write_ptrs_spec q n :
  at_call base bucket d 0 q ->
  exists q', write_ptrs n q
             = Ret (map (fun k => (base + k mod d * bucket, (1 + k / d) mod 2))
                        (seqZ 0 (Z.of_nat n))) q'
             /\ at_call base bucket d (Z.of_nat n) q'.
Proof.
  intros H0. induction n as [|n (q1 & E1 & H1)]; [by exists q|].
  destruct (get_write_ptr_spec (Z.of_nat n) q1 ltac:(lia) H1) as (q2 & E2 & H2).
  exists q2. cbn [write_ptrs]. unfold bind. rewrite E1, E2. split.
  - rewrite Nat2Z.inj_succ. unfold Z.succ.
    rewrite (seqZ_app 0 (Z.of_nat n) 1) by lia. rewrite map_app. done.
  - replace (Z.of_nat (S n)) with (Z.of_nat n + 1) by lia. done.
Qed.
End calls.

Lemma init_at_call buff bucket l :
  0 <= l ->
  exists q, init 4096 true (TxQueue_ctor buff bucket l) = Ret tt q
            /\ at_call buff bucket (ring_depth l) 0 q.
Proof.
  intros Hl. eexists. split; [reflexivity|].
  assert (0 < ring_depth l) as Hpos.
  { unfold ring_depth. rewrite Z.shiftl_1_l. by apply Z.pow_pos_nonneg. }
  split; cbn; try done.
  eexists. split_and!; [done | by rewrite length_replicate |]. intros i Hi.
  rewrite lookup_replicate_2 by lia. f_equal. unfold slot_bit.
  rewrite Z.div_small by lia. done.
Qed.

(** From a freshly initialised transmit queue, [n] calls to
    [get_write_ptr] never fault or fire an assert, and call [k] returns slot
    [k mod depth] of the ring with change bit [1] on even laps and [0] on odd
    laps: consecutive uses of a slot always carry opposite change bits, which is
    what the polling hardware relies on to see an update. *)
Theorem write_ptrs_ring (buff bucket l : Z) (n : nat)
    (Hbuff : buff <> 0) (Hl : 0 <= l < 31) :
  exists q0 q, init 4096 true (TxQueue_ctor buff bucket l) = Ret tt q0
    /\ write_ptrs n q0
       = Ret (map (fun k => (buff + k mod 2 ^ l * bucket, (1 + k / 2 ^ l) mod 2))
                  (seqZ 0 (Z.of_nat n))) q.
Proof.
  destruct (init_at_call buff bucket l ltac:(lia)) as (q0 & E0 & H0).
  unfold ring_depth in H0. rewrite Z.shiftl_1_l in H0.
  assert (0 < 2 ^ l < 2 ^ 64) by (split; [apply Z.pow_pos_nonneg|apply Z.pow_lt_mono_r]; lia).
  destruct (write_ptrs_spec buff bucket (2 ^ l) Hbuff ltac:(done) q0 n H0) as (q & E & _).
  by exists q0, q.
Qed.

Lemma write_ptrs_ring_witness :
  exists q0 q, init 4096 true (TxQueue_ctor 4096 64 3) = Ret tt q0
    /\ write_ptrs 10 q0
       = Ret (map (fun k => (4096 + k mod 2 ^ 3 * 64, (1 + k / 2 ^ 3) mod 2))
                  (seqZ 0 (Z.of_nat 10))) q.
Proof. apply (write_ptrs_ring 4096 64 3 10); lia. Defined.

(** The completion area [cq_] is placed [bucket * l_depth] bytes after the
    start of the ring, which holds [bucket * 2^l_depth] bytes: for every queue it
    lies inside the ring of requests and not behind it. *)
Theorem cq_inside_ring (buff bucket l : Z) (Hb : 0 < bucket) (Hl : 0 <= l < 31) :
  let q := TxQueue_ctor buff bucket l in
  tx_q_ q <= cq_ q < tx_q_ q + bucket_size_ q * depth_ q.
Proof.
  cbn. unfold ring_depth. rewrite Z.shiftl_1_l.
  pose proof (Z.pow_gt_lin_r 2 l). nia.
Qed.

Lemma cq_inside_ring_witness :
  let q := TxQueue_ctor 4096 64 3 in
  tx_q_ q <= cq_ q < tx_q_ q + bucket_size_ q * depth_ q.
Proof. apply (cq_inside_ring 4096 64 3); lia. Defined.
End Tx.

Module Rx.
Record RxQueue := {
  rx_flow_buff_ : Z;
  bucket_size_ : Z;
  depth_ : Z;
  l_depth_ : Z;
  rx_q_ : Z;
  rx_q_tail_ : Z;
  rpc_id_set_ : option (list Z)
}.

Definition RxQueue_default : RxQueue :=
  {| rx_flow_buff_ := 0; bucket_size_ := 0; depth_ := 0; l_depth_ := 0;
     rx_q_ := 0; rx_q_tail_ := 0; rpc_id_set_ := None |}.

Definition RxQueue_ctor (rx_flow_buff bucket_size_bytes l_depth : Z) : RxQueue :=
  {| rx_flow_buff_ := rx_flow_buff; bucket_size_ := bucket_size_bytes;
     depth_ := ring_depth l_depth; l_depth_ := l_depth;
     rx_q_ := rx_flow_buff; rx_q_tail_ := 0; rpc_id_set_ := None |}.

Definition set_ids (o : option (list Z)) (q : RxQueue) : RxQueue :=
  {| rx_flow_buff_ := rx_flow_buff_ q; bucket_size_ := bucket_size_ q;
     depth_ := depth_ q; l_depth_ := l_depth_ q; rx_q_ := rx_q_ q;
     rx_q_tail_ := rx_q_tail_ q; rpc_id_set_ := o |}.

Definition set_tail (t : Z) (q : RxQueue) : RxQueue :=
  {| rx_flow_buff_ := rx_flow_buff_ q; bucket_size_ := bucket_size_ q;
     depth_ := depth_ q; l_depth_ := l_depth_ q; rx_q_ := rx_q_ q;
     rx_q_tail_ := t; rpc_id_set_ := rpc_id_set_ q |}.

(** The id no packet has been seen with yet: [-1] stored in a [uint32_t]. *)
Definition no_rpc_id : Z := u32 (-1).

Definition init (page_size : Z) (allocated : bool) : M RxQueue unit :=
  massert (page_size =? 4096) ;;
  let! q := get in
  if allocated || (depth_ q =? 0) then
    modify (set_ids (Some (replicate (Z.to_nat (depth_ q)) no_rpc_id)))
  else fun _ => Fault.

Lemma init_rx_q page_size allocated q u q' :
  init page_size allocated q = Ret u q' -> rx_q_ q' = rx_q_ q.
Proof.
  unfold init, bind, massert, get, modify.
  destruct (_ =? 4096); cbn; [|done]. destruct (_ || _); cbn; [|done]. by intros [= _ <-].
Qed.

(** [get_read_ptr]: the tail slot and the id of the packet read there last. *)
Definition get_read_ptr : M RxQueue (Z * Z) :=
  let! q := get in
  match rpc_id_set_ q with
  | None => fun _ => Abort
  | Some ids =>
      massert (negb (rx_q_ q =? 0)) ;;
      let! id := arr_get ids (rx_q_tail_ q) in
      ret (rx_q_ q + rx_q_tail_ q * bucket_size_ q, id)
  end.

(** [update_rpc_id]: remember the id at the tail, advance the tail. *)
Definition update_rpc_id (id : Z) : M RxQueue unit :=
  let! q := get in
  match rpc_id_set_ q with
  | None => fun _ => Abort
  | Some ids =>
      massert (negb (rx_q_ q =? 0)) ;;
      arr_get ids (rx_q_tail_ q) ;;
      modify (set_ids (Some (<[Z.to_nat (rx_q_tail_ q) := u32 id]> ids))) ;;
      let tail' := u64 (rx_q_tail_ q + 1) in
      modify (set_tail (if tail' =? depth_ q then 0 else tail'))
  end.

(** ** The ring after the packets with ids [hist] were read *)

(** The id remembered by read number [m], [no_rpc_id] before the first lap. *)
Definition seen_id (hist : list Z) (m : Z) : Z :=
  if m <? 0 then no_rpc_id else default no_rpc_id (hist !! Z.to_nat m).

Record at_read (base bucket d : Z) (hist : list Z) (q : RxQueue) : Prop := {
  ar_ptr : rx_q_ q = base;
  ar_bucket : bucket_size_ q = bucket;
  ar_depth : depth_ q = d;
  ar_tail : rx_q_tail_ q = Z.of_nat (length hist) mod d;
  ar_ids : exists ids, rpc_id_set_ q = Some ids /\ length ids = Z.to_nat d
           /\ forall j, Z.of_nat (length hist) <= j < Z.of_nat (length hist) + d ->
                ids !! Z.to_nat (j mod d) = Some (seen_id hist (j - d))
}.

Lemma seen_id_app hist x m :
  m < Z.of_nat (length hist) -> seen_id (hist ++ [x]) m = seen_id hist m.
Proof.
  intros Hm. unfold seen_id. destruct (m <? 0) eqn:?; [done|].
  by rewrite lookup_app_l by lia.
Qed.

Lemma seen_id_last hist x : seen_id (hist ++ [x]) (Z.of_nat (length hist)) = x.
Proof.
  unfold seen_id. destruct (Z.ltb_spec (Z.of_nat (length hist)) 0); [lia|].
  by rewrite Nat2Z.id, list_lookup_middle.
Qed.

(** Within one lap, slots are distinct. *)
Lemma mod_lap_inj d k i j :
  0 < d -> k <= i < k + d -> k <= j < k + d -> i mod d = j mod d -> i = j.
Proof.
  intros Hd Hi Hj E.
  assert (i - j = d * (i / d - j / d)) as H.
  { pose proof (Z.div_mod i d). pose proof (Z.div_mod j d). lia. }
  generalize dependent (i / d - j / d). intros t H.
  assert (t = 0 \/ 1 <= t \/ t <= -1) as [?|[?|?]] by lia; nia.
Qed.

Section reads.
Context (base bucket d : Z).
Hypothesis Hbase : base <> 0.
Hypothesis Hd : 0 < d < 2 ^ 64.

Lemma get_read_ptr_spec hist q :
  at_read base bucket d hist q ->
  get_read_ptr q = Ret (base + Z.of_nat (length hist) mod d * bucket,
                        seen_id hist (Z.of_nat (length hist) - d)) q.
Proof.
  intros [Hp Hb Hde Ht (ids & Hids & Hlen & Hall)].
  pose proof (Z.mod_pos_bound (Z.of_nat (length hist)) d ltac:(lia)) as Hm.
  unfold get_read_ptr, bind, get, ret, massert. rewrite Hids, Hp, Ht, Hb.
  destruct (Z.eqb_spec base 0); [done|]. cbn [negb].
  rewrite (arr_get_ok _ _ _ _ (proj1 Hm) (Hall (Z.of_nat (length hist)) ltac:(lia))). done.
Qed.

Lemma update_rpc_id_spec hist id q :
  in_width 32 id -> at_read base bucket d hist q ->
  exists q', update_rpc_id id q = Ret tt q' /\ at_read base bucket d (hist ++ [id]) q'.
Proof.
  intros Hid [Hp Hb Hde Ht (ids & Hids & Hlen & Hall)].
  pose proof (Z.mod_pos_bound (Z.of_nat (length hist)) d ltac:(lia)) as Hm.
  unfold update_rpc_id, bind, get, modify, massert. rewrite Hids, Hp, Ht.
  destruct (Z.eqb_spec base 0); [done|]. cbn [negb].
  rewrite (arr_get_ok _ _ _ _ (proj1 Hm) (Hall (Z.of_nat (length hist)) ltac:(lia))).
  rewrite (wrap_small 32 id) by done.
  eexists. split; [done|].
  assert (Z.of_nat (length (hist ++ [id])) = Z.of_nat (length hist) + 1) as Hl.
  { rewrite length_app. cbn. lia. }
  split; cbn; rewrite ?Hl; try done.
  - rewrite Hde. apply Tx.next_head; lia.
  - eexists. split_and!; [done | by rewrite length_insert |]. intros j Hj.
    pose proof (Z.mod_pos_bound j d ltac:(lia)) as Hjm.
    destruct (decide (j = Z.of_nat (length hist) + d)) as [->|Hne].
    + rewrite <- Z.add_mod_idemp_r, Z.mod_same, Z.add_0_r by lia.
      rewrite list_lookup_insert_eq by (rewrite Hlen; lia).
      by rewrite Z.add_simpl_r, seen_id_last.
    + rewrite list_lookup_insert_ne, seen_id_app; [apply Hall; lia|lia|].
      intros E. apply Z2Nat.inj in E; [|lia..].
      apply (mod_lap_inj d (Z.of_nat (length hist))) in E; lia.
Qed.
End reads.

Lemma init_at_read buff bucket l :
  0 <= l ->
  exists q, init 4096 true (RxQueue_ctor buff bucket l) = Ret tt q
            /\ at_read buff bucket (ring_depth l) [] q.
Proof.
  intros Hl. eexists. split; [reflexivity|].
  assert (0 < ring_depth l) as Hpos.
  { unfold ring_depth. rewrite Z.shiftl_1_l. by apply Z.pow_pos_nonneg. }
  split; cbn; try done.
  eexists. split_and!; [done | by rewrite length_replicate |]. intros j Hj.
  pose proof (Z.mod_pos_bound j (ring_depth l)).
  rewrite lookup_replicate_2 by lia. f_equal. unfold seen_id.
  destruct (Z.ltb_spec (j - ring_depth l) 0); [done|lia].
Qed.
End Rx.
