(* ===== verification/ConnectionManager.v ===== *)
(** * The connection manager

    [ConnectionManager] hands out connection ids from a fixed pool and records
    the open connections (src/sw/src/connection_manager.h, connection_manager.cc).
    [cm_spec] is what it promises to the NIC driver: a finite map from ids below
    the capacity to destinations; [cm_refines] shows that every sequence of calls
    implements it, without an assert ever firing. *)

From S2P Require Import Prelude Wire.

Definition ConnectionId := Z.
Definition ConnectionFlowId := Z.

Record ConnectionManager := {
  max_connections_ : Z;
  c_id_pool_ : list Z;
  open_connections_ : gmap Z (IPv4 * Z)
}.

Definition ConnectionManager_default : ConnectionManager :=
  {| max_connections_ := 0; c_id_pool_ := []; open_connections_ := ∅ |}.

(** The pool is filled with [0 .. max - 1], each stored in a [uint32_t]. *)
Definition ConnectionManager_ctor (max_connections : Z) : ConnectionManager :=
  {| max_connections_ := max_connections;
     c_id_pool_ := map u32 (seqZ 0 max_connections);
     open_connections_ := ∅ |}.

Definition full (cm : ConnectionManager) : bool :=
  Z.of_nat (size (open_connections_ cm)) =? max_connections_ cm.

Definition insert_open (c_id : Z) (dest : IPv4) (flow : Z) (pool : list Z)
    (cm : ConnectionManager) : ConnectionManager :=
  {| max_connections_ := max_connections_ cm; c_id_pool_ := pool;
     open_connections_ := <[c_id := (dest, flow)]> (open_connections_ cm) |}.

(** [open_connection]: the return code and the id, which is left as it was when
    the call fails. *)
Definition open_connection (c_id : Z) (dest : IPv4) (flow : Z)
  : M ConnectionManager (Z * Z) :=
  let! cm := get in
  if full cm then ret (1, c_id)
  else
    match c_id_pool_ cm with
    | [] => fun _ => Abort
    | id :: pool =>
        massert (bool_decide (open_connections_ cm !! id = None)) ;;
        modify (insert_open id dest flow pool) ;;
        ret (0, id)
    end.

(** [std::find] and [erase] on the deque: remove the first occurrence. *)
Fixpoint erase_first (x : Z) (l : list Z) : option (list Z) :=
  match l with
  | [] => None
  | y :: l' => if x =? y then Some l'
               else match erase_first x l' with
                    | Some l'' => Some (y :: l'')
                    | None => None
                    end
  end.

Definition add_connection (c_id : Z) (dest : IPv4) (flow : Z) : M ConnectionManager Z :=
  let! cm := get in
  if full cm then ret 1
  else
    massert (negb (bool_decide (c_id_pool_ cm = []))) ;;
    match erase_first c_id (c_id_pool_ cm) with
    | None => ret 1
    | Some pool =>
        massert (bool_decide (open_connections_ cm !! c_id = None)) ;;
        modify (insert_open c_id dest flow pool) ;;
        ret 0
    end.

Definition close_connection (c_id : Z) : M ConnectionManager Z :=
  let! cm := get in
  match open_connections_ cm !! c_id with
  | None => ret 1
  | Some _ =>
      modify (fun cm =>
        {| max_connections_ := max_connections_ cm;
           c_id_pool_ := c_id_pool_ cm ++ [c_id];
           open_connections_ := delete c_id (open_connections_ cm) |}) ;;
      ret 0
  end.

(** ** Invariant: the pool and the open ids share out [0 .. max - 1] *)
Record cm_inv (cm : ConnectionManager) : Prop := {
  cm_cap : 0 <= max_connections_ cm <= 2 ^ 32;
  cm_part : c_id_pool_ cm ++ (map_to_list (open_connections_ cm)).*1
            ≡ₚ seqZ 0 (max_connections_ cm)
}.

Lemma map_u32_seqZ n : 0 <= n <= 2 ^ 32 -> map u32 (seqZ 0 n) = seqZ 0 n.
Proof.
  intros Hn. rewrite <- (map_id (seqZ 0 n)) at 2. apply map_ext_in.
  intros x Hx%list_elem_of_In%elem_of_seqZ. apply wrap_small. unfold in_width. lia.
Qed.

Lemma cm_inv_ctor n : 0 <= n <= 2 ^ 32 -> cm_inv (ConnectionManager_ctor n).
Proof.
  intros Hn. split; [done|]. cbn [ConnectionManager_ctor c_id_pool_ open_connections_ max_connections_].
  rewrite map_to_list_empty, app_nil_r. by rewrite map_u32_seqZ.
Qed.

Section inv.
Context (cm : ConnectionManager) (I : cm_inv cm).

Lemma cm_count : Z.of_nat (length (c_id_pool_ cm)) + Z.of_nat (size (open_connections_ cm))
                 = max_connections_ cm.
Proof.
  pose proof (Permutation_length (cm_part _ I)) as H.
  rewrite length_app, length_fmap, length_seqZ, length_map_to_list in H.
  pose proof (cm_cap _ I). lia.
Qed.

Lemma cm_NoDup : NoDup (c_id_pool_ cm ++ (map_to_list (open_connections_ cm)).*1).
Proof. rewrite (cm_part _ I). apply NoDup_seqZ. Qed.

Lemma cm_open_elem id : is_Some (open_connections_ cm !! id) <-> id ∈ (map_to_list (open_connections_ cm)).*1.
Proof.
  rewrite list_elem_of_fmap. split.
  - intros [x Hx]. exists (id, x). by rewrite elem_of_map_to_list.
  - intros ([k x] & -> & H%elem_of_map_to_list). by exists x.
Qed.

Lemma cm_mem id :
  0 <= id < max_connections_ cm <-> id ∈ c_id_pool_ cm \/ is_Some (open_connections_ cm !! id).
Proof.
  rewrite cm_open_elem, <- elem_of_app, (cm_part _ I), elem_of_seqZ. lia.
Qed.

Lemma cm_pool_closed id : id ∈ c_id_pool_ cm -> open_connections_ cm !! id = None.
Proof.
  intros Hin. apply eq_None_not_Some. rewrite cm_open_elem. intros Ho.
  pose proof cm_NoDup as (_ & H & _)%NoDup_app. by eapply H.
Qed.

Lemma cm_not_full : full cm = false -> c_id_pool_ cm <> [].
Proof.
  unfold full. intros Hf E. pose proof cm_count as H. rewrite E in H. cbn in H. lia.
Qed.
End inv.

Lemma erase_first_spec x l :
  match erase_first x l with
  | Some l' => l ≡ₚ x :: l'
  | None => x ∉ l
  end.
Proof.
  induction l as [|y l IH]; cbn; [apply not_elem_of_nil|].
  destruct (Z.eqb_spec x y) as [->|Hne]; [done|].
  destruct (erase_first x l).
  - rewrite IH. apply Permutation_swap.
  - by apply not_elem_of_cons.
Qed.

Lemma cm_inv_insert cm id dest flow pool :
  cm_inv cm -> c_id_pool_ cm ≡ₚ id :: pool -> cm_inv (insert_open id dest flow pool cm).
Proof.
  intros I Hp. split; [apply I|]. cbn.
  rewrite map_to_list_insert by (apply cm_pool_closed; [done|]; rewrite Hp; set_solver).
  rewrite <- (cm_part _ I), Hp. cbn. by rewrite Permutation_middle.
Qed.

(** ** Abstract specification *)

(** What a client sees: the capacity and the map of open connections. *)
Record registry := { cap : Z; conns : gmap Z (IPv4 * Z) }.

Definition abs (cm : ConnectionManager) : registry :=
  {| cap := max_connections_ cm; conns := open_connections_ cm |}.

Definition room (r : registry) : Prop := Z.of_nat (size (conns r)) < cap r.

Inductive cm_call :=
| Open (indet : Z) (dest : IPv4) (flow : Z)
| Add (id : Z) (dest : IPv4) (flow : Z)
| Close (id : Z).

(** The outcome of a call: its return code and, for [Open], the id. *)
Inductive cm_spec : registry -> cm_call -> Z * Z -> registry -> Prop :=
| spec_open r i dest flow id :
    room r -> 0 <= id < cap r -> conns r !! id = None ->
    cm_spec r (Open i dest flow) (0, id)
      {| cap := cap r; conns := <[id := (dest, flow)]> (conns r) |}
| spec_open_full r i dest flow :
    ~ room r -> cm_spec r (Open i dest flow) (1, i) r
| spec_add r id dest flow :
    room r -> 0 <= id < cap r -> conns r !! id = None ->
    cm_spec r (Add id dest flow) (0, id)
      {| cap := cap r; conns := <[id := (dest, flow)]> (conns r) |}
| spec_add_fail r id dest flow :
    (~ room r \/ ~ (0 <= id < cap r) \/ is_Some (conns r !! id)) ->
    cm_spec r (Add id dest flow) (1, id) r
| spec_close r id :
    is_Some (conns r !! id) ->
    cm_spec r (Close id) (0, id) {| cap := cap r; conns := delete id (conns r) |}
| spec_close_fail r id :
    conns r !! id = None -> cm_spec r (Close id) (1, id) r.

Definition run_call (c : cm_call) : M ConnectionManager (Z * Z) :=
  match c with
  | Open i dest flow => open_connection i dest flow
  | Add id dest flow => let! rc := add_connection id dest flow in ret (rc, id)
  | Close id => let! rc := close_connection id in ret (rc, id)
  end.

Fixpoint run_calls (cs : list cm_call) : M ConnectionManager (list (Z * Z)) :=
  match cs with
  | [] => ret []
  | c :: cs' =>
      let! o := run_call c in
      let! os := run_calls cs' in
      ret (o :: os)
  end.

(** Sequences of calls of the specification. *)
Inductive cm_spec_run : registry -> list cm_call -> list (Z * Z) -> registry -> Prop :=
| run_nil r : cm_spec_run r [] [] r
| run_cons r c o r' cs os r'' :
    cm_spec r c o r' -> cm_spec_run r' cs os r'' -> cm_spec_run r (c :: cs) (o :: os) r''.

#[export] Hint Constructors cm_spec cm_spec_run : effects.

Definition call_post (cm : ConnectionManager) (c : cm_call) (o : Z * Z)
    (cm' : ConnectionManager) : Prop :=
  cm_inv cm' /\ cm_spec (abs cm) c o (abs cm').

Lemma full_room cm : cm_inv cm -> full cm = false <-> room (abs cm).
Proof.
  intros I. unfold full, room. cbn. pose proof (cm_count _ I). lia.
Qed.

Lemma open_call i dest flow cm :
  cm_inv cm -> wp (open_connection i dest flow) (call_post cm (Open i dest flow)) cm.
Proof.
  intros I. unfold open_connection, wp, bind, get, ret, modify, massert.
  destruct (full cm) eqn:Hf.
  { split; [done|]. constructor. rewrite <- full_room by done. by rewrite Hf. }
  apply full_room in Hf as Hroom; [|done].
  destruct (c_id_pool_ cm) as [|id pool] eqn:Ep; [by destruct (cm_not_full _ I Hf)|].
  assert (id ∈ c_id_pool_ cm) as Hin by (rewrite Ep; set_solver).
  pose proof (cm_pool_closed _ I _ Hin) as Hc. rewrite bool_decide_true by done. split.
  - apply cm_inv_insert; [done|]. by rewrite Ep.
  - constructor; [done| |done]. apply (cm_mem _ I). by left.
Qed.

Lemma add_call id dest flow cm :
  cm_inv cm -> wp (run_call (Add id dest flow)) (call_post cm (Add id dest flow)) cm.
Proof.
  intros I. unfold run_call, add_connection, wp, bind, get, ret, modify, massert.
  destruct (full cm) eqn:Hf.
  { split; [done|]. apply spec_add_fail. left. rewrite <- full_room by done. by rewrite Hf. }
  rewrite bool_decide_false by (by apply cm_not_full). cbn [negb].
  apply full_room in Hf as Hroom; [|done].
  pose proof (erase_first_spec id (c_id_pool_ cm)) as He.
  destruct (erase_first id (c_id_pool_ cm)) as [pool|].
  - assert (id ∈ c_id_pool_ cm) as Hin by (rewrite He; set_solver).
    pose proof (cm_pool_closed _ I _ Hin) as Hc. rewrite bool_decide_true by done.
    split; [by apply cm_inv_insert|]. constructor; [done| |done].
    apply (cm_mem _ I). by left.
  - split; [done|]. apply spec_add_fail. right.
    destruct (decide (0 <= id < max_connections_ cm)) as [Hr|]; [right|by left].
    by apply (cm_mem _ I) in Hr as [?|?].
Qed.

Lemma close_call id cm :
  cm_inv cm -> wp (run_call (Close id)) (call_post cm (Close id)) cm.
Proof.
  intros I. unfold run_call, close_connection, wp, bind, get, ret, modify.
  destruct (open_connections_ cm !! id) as [x|] eqn:Ho.
  - split; [|constructor; by exists x]. split; [apply I|]. cbn.
    rewrite <- (cm_part _ I), <- app_assoc. apply Permutation_app_head.
    by rewrite <- (map_to_list_delete _ _ _ Ho).
  - split; [done|]. by constructor.
Qed.

Lemma run_call_spec c cm : cm_inv cm -> wp (run_call c) (call_post cm c) cm.
Proof. destruct c; [apply open_call | apply add_call | apply close_call]. Qed.

Lemma run_calls_spec cs cm :
  cm_inv cm ->
  wp (run_calls cs) (fun os cm' => cm_inv cm' /\ cm_spec_run (abs cm) cs os (abs cm')) cm.
Proof.
  revert cm. induction cs as [|c cs IH]; intros cm I; cbn [run_calls].
  { split; [done|constructor]. }
  apply wp_bind. eapply wp_mono; [|by apply run_call_spec].
  intros o cm1 [I1 S1]. apply wp_bind. eapply wp_mono; [|by apply IH].
  intros os cm2 [I2 S2]. split; [done|]. by econstructor.
Qed.

(** C6. From the constructor, every sequence of [open_connection],
    [add_connection] and [close_connection] calls returns (no assert fires), its
    results are those of the abstract registry, and at the end the pool of free
    ids and the open ids are together exactly [0 .. max - 1], each once. *)
Theorem cm_refines (n : Z) (cs : list cm_call) (Hn : 0 <= n <= 2 ^ 32) :
  exists os cm', run_calls cs (ConnectionManager_ctor n) = Ret os cm'
    /\ cm_spec_run {| cap := n; conns := ∅ |} cs os (abs cm')
    /\ c_id_pool_ cm' ++ (map_to_list (open_connections_ cm')).*1 ≡ₚ seqZ 0 n.
Proof.
  pose proof (run_calls_spec cs _ (cm_inv_ctor n Hn)) as H.
  apply wp_ret_inv in H as (os & cm' & E & I & S). exists os, cm'. split_and!; [done..|].
  rewrite (cm_part _ I).
  assert (forall r cs os r', cm_spec_run r cs os r' -> cap r' = cap r) as Hcap.
  { induction 1 as [|r c o r' ? ? ? Hs _ IH]; [done|]. rewrite IH. by destruct Hs. }
  apply Hcap in S. cbn in S. by rewrite S.
Qed.

Definition test_addr : IPv4 := mk_IPv4 0 "127.0.0.1" 3600.

Lemma cm_refines_witness :
  exists os cm', run_calls [Open 7 test_addr 0; Open 7 test_addr 0; Open 7 test_addr 0]
                   (ConnectionManager_ctor 2) = Ret os cm'
    /\ cm_spec_run {| cap := 2; conns := ∅ |}
         [Open 7 test_addr 0; Open 7 test_addr 0; Open 7 test_addr 0] os (abs cm')
    /\ c_id_pool_ cm' ++ (map_to_list (open_connections_ cm')).*1 ≡ₚ seqZ 0 2.
Proof. apply cm_refines. lia. Defined.

(** The repository's own unit tests, evaluated. *)
Example test_close_connection :
  match run_calls [Open 0 test_addr 0; Open 0 test_addr 0; Close 1; Open 0 test_addr 0;
                   Close 1; Close 0] (ConnectionManager_ctor 2) with
  | Ret os _ => os = [(0, 0); (0, 1); (0, 1); (0, 1); (0, 1); (0, 0)]
  | _ => False
  end.
Proof. reflexivity. Qed.

Example test_connection_exists :
  match run_calls [Open 0 test_addr 0; Add 0 test_addr 0; Close 0; Add 0 test_addr 0;
                   Close 0; Close 0] (ConnectionManager_ctor 2) with
  | Ret os _ => map fst os = [0; 1; 0; 0; 0; 1]
  | _ => False
  end.
Proof. reflexivity. Qed.
