(* ===== verification/Host.v ===== *)
(** * The host platform

    What the driver gets from the outside: the OPAE library (libopae-c) that
    reaches the FPGA, the memory and timing services of the kernel, libuuid and
    safe_string.  They are parameters, collected in the class [Platform]; the
    driver's calls and what the platform answered are recorded in a trace, so
    that theorems can speak of the exact sequence of accesses to the hardware. *)

From S2P Require Import Prelude.

(** OPAE's status codes. *)
Inductive fpga_result :=
| FPGA_OK | FPGA_INVALID_PARAM | FPGA_BUSY | FPGA_EXCEPTION | FPGA_NOT_FOUND
| FPGA_NO_MEMORY | FPGA_NOT_SUPPORTED | FPGA_NO_DRIVER | FPGA_NO_DAEMON
| FPGA_NO_ACCESS | FPGA_RECONF_ERROR.

#[export] Instance fpga_result_eq_dec : EqDecision fpga_result.
Proof. solve_decision. Defined.

Definition is_ok (r : fpga_result) : bool := bool_decide (r = FPGA_OK).

Lemma is_ok_true r : is_ok r = true <-> r = FPGA_OK.
Proof. unfold is_ok. by rewrite bool_decide_eq_true. Qed.

Lemma is_ok_OK : is_ok FPGA_OK = true.
Proof. done. Qed.

(** Calls that leave the program, with their arguments. *)
Inductive io_call :=
| ReadMMIO64 (addr : Z)
| WriteMMIO64 (addr val : Z)
| MapMMIO
| UnmapMMIO
| MmioLoad (off : Z)                (* load from the mapped register file *)
| MmioStore (off val : Z)           (* store to the mapped register file *)
| PrepareBuffer (len addr : Z)
| GetIOAddress (wsid : Z)
| ReleaseBuffer (wsid : Z)
| GetProperties
| PropertiesSetObjectType
| PropertiesSetGUID
| PropertiesSetBus (bus : Z)
| Enumerate
| DestroyProperties
| FpgaOpen
| DestroyToken
| FpgaClose
| Mmap (size : Z)
| Malloc (size : Z)
| Free (ptr : Z)
| SetAffinity (cpu : Z)             (* pthread_setaffinity_np: the returned code *)
| Delay (nsec : Z).                 (* sleep, usleep, nanosleep *)

#[export] Instance io_call_eq_dec : EqDecision io_call.
Proof. solve_decision. Defined.

(** A call and its answer: the status and the value of the out parameter (or
    the returned pointer). *)
Record io_event := { ev_call : io_call; ev_res : fpga_result; ev_val : Z }.

Class Platform (D : Type) := {
  (** the hardware and the kernel, as a state machine driven by the calls *)
  io : io_call -> D -> fpga_result * Z * D;
  (** the bytes of the stack behind an object that is read through a cast to a
      wider type *)
  stack_junk : D -> Z;
  (** an [int] shifted by 32 or more: undefined in C++, an [int] in practice *)
  wide_shl : Z -> Z -> Z;
  getpagesize : Z;
  (** safe_string's comparison: the value it stores in its indicator *)
  strcmp_s : string -> string -> Z;
  (** the 16 bytes of the accelerator's UUID, [None] when it does not parse *)
  uuid_parse_afu : option (list Z)
}.

(** Documented behaviour of those libraries. *)
Class PlatformLaws (D : Type) `{Platform D} := {
  strcmp_s_eq a b : strcmp_s a b = 0 <-> a = b;
  wide_shl_int x n : - 2 ^ 31 <= wide_shl x n < 2 ^ 31;
  uuid_length u : uuid_parse_afu = Some u -> length u = 16%nat /\ Forall (in_width 8) u
}.

(** OPAE's contract for a preallocated buffer: [fpgaPrepareBuffer] accepts a
    non-null, page aligned address and pins the [len] bytes behind it. *)
Class PrepareLaw (D : Type) `{Platform D} :=
  prepare_ok len a d v d' :
    io (PrepareBuffer len a) d = (FPGA_OK, v, d') -> 0 < a /\ a mod len = 0 /\ a + len <= 2 ^ 64.

Record World (D : Type) := mkWorld { dev : D; trace : list io_event }.
Arguments mkWorld {D} dev trace.
Arguments dev {D} w.
Arguments trace {D} w.

(** An object of the program together with the world it runs in. *)
Record sys (N D : Type) := Sys { obj : N; wld : World D }.
Arguments Sys {N D} obj wld.
Arguments obj {N D} s.
Arguments wld {N D} s.

Section calls.
Context {D : Type} `{Platform D}.

Definition do_io (c : io_call) (w : World D) : fpga_result * Z * World D :=
  let '(r, v, d') := io c (dev w) in
  (r, v, mkWorld d' (trace w ++ [{| ev_call := c; ev_res := r; ev_val := v |}])).

Definition call {N} (c : io_call) : M (sys N D) (fpga_result * Z) :=
  fun s => let '(r, v, w') := do_io c (wld s) in Ret (r, v) (Sys (obj s) w').

Definition sleep {N} (seconds : Z) : M (sys N D) unit :=
  call (Delay (seconds * 10 ^ 9)) ;; ret tt.
Definition usleep {N} (usec : Z) : M (sys N D) unit :=
  call (Delay (usec * 1000)) ;; ret tt.

Definition readMMIO64 {N} (addr : Z) : M (sys N D) (fpga_result * Z) := call (ReadMMIO64 addr).
Definition writeMMIO64 {N} (addr v : Z) : M (sys N D) fpga_result :=
  let! r := call (WriteMMIO64 addr v) in ret r.1.

Definition my {N A} (f : N -> A) : M (sys N D) A := gets (fun s => f (obj s)).
Definition update {N} (f : N -> N) : M (sys N D) unit :=
  modify (fun s => Sys (f (obj s)) (wld s)).
Definition junk {N} : M (sys N D) Z := gets (fun s => stack_junk (dev (wld s))).

(** A method of a member (a base class, a field of class type). *)
Definition method {N N' A} (view : N' -> N) (upd : N -> N' -> N') (m : M (sys N D) A)
  : M (sys N' D) A :=
  zoom (fun s => Sys (view (obj s)) (wld s))
       (fun s t => Sys (upd (obj s) (obj t)) (wld s)) m.

(** A member computation that does not touch the world. *)
Definition pure_method {N N' A} (view : N' -> N) (upd : N -> N' -> N') (m : M N A)
  : M (sys N' D) A :=
  zoom (fun s => view (obj s)) (fun n t => Sys (upd n (obj t)) (wld t)) m.

(** [res = f(...); if (res != FPGA_OK) return 1; k] *)
Definition or_fail {N} (m : M (sys N D) fpga_result) (k : M (sys N D) Z) : M (sys N D) Z :=
  let! r := m in if is_ok r then k else ret 1.
End calls.

Notation "'ok!' m ;; k" := (or_fail m k)
  (at level 100, m at level 10, k at level 100, right associativity,
   format "'[v' 'ok!'  m  ;; '/' k ']'") : dagger_scope.

(** [emits m a l]: whatever the platform answers, [m] returns [a], leaves the
    object alone and issues exactly the calls [l], in that order. *)
Definition calls_of {N D} (s : sys N D) : list io_call := map ev_call (trace (wld s)).

Section emits.
Context {D N : Type} `{Platform D}.

Definition emits {A} (m : M (sys N D) A) (a : A) (l : list io_call) : Prop :=
  forall s, exists s', m s = Ret a s' /\ obj s' = obj s /\ calls_of s' = calls_of s ++ l.

Lemma emits_ret {A} (a : A) : emits (ret a) a [].
Proof. intros s. exists s. by rewrite app_nil_r. Qed.

Lemma emits_bind {A B} (m : M (sys N D) A) (k : A -> M (sys N D) B) a b l l' :
  emits m a l -> emits (k a) b l' -> emits (bind m k) b (l ++ l').
Proof.
  intros Hm Hk s. destruct (Hm s) as (s1 & E1 & O1 & C1).
  destruct (Hk s1) as (s2 & E2 & O2 & C2). exists s2.
  unfold bind. rewrite E1, E2, O2, O1, C2, C1, app_assoc. done.
Qed.

(** A call whose answer is not looked at. *)
Lemma emits_call {A} c (k : M (sys N D) A) a l :
  emits k a l -> emits (call c ;; k) a (c :: l).
Proof.
  intros Hk s. unfold bind, call, do_io. destruct (io c (dev (wld s))) as [[r v] d'].
  match goal with |- context [k ?s1] => destruct (Hk s1) as (s2 & -> & O & C) end.
  exists s2. rewrite O, C. unfold calls_of. simpl.
  by rewrite map_app, <- app_assoc.
Qed.

Lemma call_Ret (c : io_call) (s : sys N D) :
  exists r v d', io c (dev (wld s)) = (r, v, d') /\
    call c s = Ret (r, v) (Sys (obj s) (mkWorld d' (trace (wld s) ++
      [{| ev_call := c; ev_res := r; ev_val := v |}]))).
Proof.
  unfold call, do_io. destruct (io c (dev (wld s))) as [[r v] d'].
  by exists r, v, d'.
Qed.
End emits.

#[export] Hint Resolve emits_ret emits_call : effects.

(** [grows s l s']: since [s] the object is unchanged and [l] was recorded. *)
Definition grows {N D} (s : sys N D) (l : list io_event) (s' : sys N D) : Prop :=
  obj s' = obj s /\ trace (wld s') = trace (wld s) ++ l.

Lemma grows_refl {N D} (s : sys N D) : grows s [] s.
Proof. split; [done|]. by rewrite app_nil_r. Qed.

Lemma grows_trans {N D} (s s' s'' : sys N D) l l' :
  grows s l s' -> grows s' l' s'' -> grows s (l ++ l') s''.
Proof. intros [E T] [E' T']. split; [congruence|]. by rewrite T', T, app_assoc. Qed.

#[export] Hint Resolve grows_refl : effects.

Section wp_call.
Context {D N : Type} `{Platform D}.

Lemma wp_call {A} c (k : fpga_result * Z -> M (sys N D) A) Q (s : sys N D) :
  (forall r v s', grows s [{| ev_call := c; ev_res := r; ev_val := v |}] s' ->
     wp (k (r, v)) Q s') ->
  wp (bind (call c) k) Q s.
Proof.
  intros Hk. apply wp_bind. unfold wp at 1.
  destruct (call_Ret c s) as (r & v & d' & _ & ->). by apply Hk.
Qed.

Lemma wp_call1 c (Q : fpga_result * Z -> sys N D -> Prop) (s : sys N D) :
  (forall r v s', grows s [{| ev_call := c; ev_res := r; ev_val := v |}] s' -> Q (r, v) s') ->
  wp (call c) Q s.
Proof.
  intros HQ. unfold wp. destruct (call_Ret c s) as (r & v & d' & _ & ->). by apply HQ.
Qed.

(** The same for a partial postcondition, with the platform's answer. *)
Lemma wlp_call {A} c (k : fpga_result * Z -> M (sys N D) A) Q (s : sys N D) :
  (forall r v s', grows s [{| ev_call := c; ev_res := r; ev_val := v |}] s' ->
     (exists d d', io c d = (r, v, d')) -> wlp (k (r, v)) Q s') ->
  wlp (bind (call c) k) Q s.
Proof.
  intros Hk. apply wlp_bind. unfold wlp at 1.
  destruct (call_Ret c s) as (r & v & d' & E & ->). apply Hk; [done|]. by eexists _, _.
Qed.
Lemma wp_call_val {A} c (k : fpga_result * Z -> M (sys N D) A) (P : Z -> Prop) Q (s : sys N D) :
  (forall d, P (io c d).1.2) ->
  (forall r s', P r.2 -> obj s' = obj s -> wp (k r) Q s') ->
  wp (bind (call c) k) Q s.
Proof.
  intros Hp Hk. apply wp_bind. unfold wp at 1. destruct (call_Ret c s) as (r & v & d' & E & ->).
  apply Hk; [|done]. specialize (Hp (dev (wld s))). by rewrite E in Hp.
Qed.

Lemma bind_call {A} c (k : fpga_result * Z -> M (sys N D) A) (P : Z -> Prop) (s : sys N D) o :
  (forall d, P (io c d).1.2) ->
  (forall r s', P r.2 -> obj s' = obj s -> k r s' = o) ->
  bind (call c) k s = o.
Proof.
  intros Hp Hk. unfold bind. destruct (call_Ret c s) as (r & v & d' & E & ->).
  apply Hk; [|done]. specialize (Hp (dev (wld s))). by rewrite E in Hp.
Qed.

End wp_call.

(** ** A concrete platform

    The [n]-th call is answered by [answer n]; used to run the model. *)
Section scripted.
Variable answer : nat -> io_call -> fpga_result * Z.

Definition int_of (x : Z) : Z := (x + 2 ^ 31) mod 2 ^ 32 - 2 ^ 31.

#[local] Instance scripted : Platform nat := {|
  io c n := let '(r, v) := answer n c in (r, v, S n);
  stack_junk n := Z.of_nat n;
  wide_shl x n := int_of (Z.shiftl x (n mod 32));
  getpagesize := 4096;
  strcmp_s a b := if bool_decide (a = b) then 0 else 1;
  uuid_parse_afu := Some (seqZ 0 16)
|}.

#[local] Instance scripted_laws : PlatformLaws nat.
Proof.
  split.
  - intros a b. cbn. case_bool_decide; split; congruence.
  - intros x n. cbn. unfold int_of.
    pose proof (Z.mod_pos_bound (Z.shiftl x (n mod 32) + 2 ^ 31) (2 ^ 32)). lia.
  - intros u [= <-]. split; [done|]. apply Forall_forall. intros x.
    rewrite elem_of_seqZ. unfold in_width. lia.
Qed.

Definition boot {N} (n : N) : sys N nat := Sys n (mkWorld 0%nat []).
End scripted.

(** Every call succeeds, and the value it gives is [v]. *)
Definition always (v : Z) : nat -> io_call -> fpga_result * Z := fun _ _ => (FPGA_OK, v).
