(* ===== verification/HssiCsrs.v ===== *)
(** * The E40 control and status registers

    The table [e40_csrs] of src/sw/src/network_ctl/fpga_hssi_e40.h, in its order
    and in slices of the header.  The description strings, which are only
    printed, are left out. *)

From S2P Require Import Prelude.

Inductive hssi_reg_perms_t := RW | RO | RWC | RSVD.
Inductive hssi_csr_type_t := TX | RX | PHY | NA.

#[export] Instance hssi_reg_perms_eq_dec : EqDecision hssi_reg_perms_t.
Proof. solve_decision. Defined.
#[export] Instance hssi_csr_type_eq_dec : EqDecision hssi_csr_type_t.
Proof. solve_decision. Defined.

Record hssi_csr := Csr {
  offset : Z;
  csr_type : hssi_csr_type_t;
  width : Z;
  name : string;
  val : Z;
  perms : hssi_reg_perms_t
}.

#[export] Instance hssi_csr_eq_dec : EqDecision hssi_csr.
Proof. solve_decision. Defined.

Definition e40_csrs_0 : list hssi_csr := [
  Csr 0x300 PHY 32 "PHY_REVID" 0x2062015 RO;
  Csr 0x301 PHY 32 "PHY_SCRATCH" 0x0 RW;
  Csr 0x302 PHY 32 "PHY_NAME_0" 0x0 RO;
  Csr 0x303 PHY 32 "PHY_NAME_1" 0x0 RO;
  Csr 0x304 PHY 32 "PHY_NAME_2" 0x0 RO;
  Csr 0x310 PHY 6 "PHY_CONFIG" 0x0 RW;
  Csr 0x313 PHY 10 "PHY_PMA_SLOOP" 0x0 RW;
  Csr 0x314 PHY 3 "PHY_PCS_INDIRECT_ADDR" 0x0 RW;
  Csr 0x315 PHY 10 "PHY_PCS_INDIRECT_DATA" 0x0 RO;
  Csr 0x320 PHY 10 "PHY_TX_PLL_LOCKED" 0x0 RO;
  Csr 0x321 PHY 10 "PHY_EIOFREQ_LOCKED" 0x0 RO;
  Csr 0x322 PHY 3 "PHY_TX_COREPLL_LOCKED" 0x0 RO;
  Csr 0x323 PHY 3 "PHY_FRAME_ERROR" 0x14 RO;
  Csr 0x324 PHY 3 "PHY_SCLR_FRAME_ERROR" 0x1 RW;
  Csr 0x325 PHY 3 "PHY_EIO_SFTRESET" 0x0 RW;
  Csr 0x326 PHY 2 "PHY_RXPCS_STATUS" 0x0 RO;
  Csr 0x340 PHY 32 "PHY_REFCLK_KHZ" 0x0 RO;
  Csr 0x341 PHY 32 "PHY_RXCLK_KHZ" 0x0 RO
].

Definition e40_csrs_1 : list hssi_csr := [
  Csr 0x342 PHY 32 "PHY_TXCLK_KHZ" 0x0 RO;
  Csr 0x343 PHY 32 "PHY_RECCLK_KHZ" 0x0 RO;
  Csr 0x344 PHY 32 "PHY_TXIOCLK_KHZ" 0x0 RO;
  Csr 0x400 NA 32 "TXMAC_REVID" 0x2062015 RO;
  Csr 0x401 NA 32 "TXMAC_SCRATCH" 0x0 RW;
  Csr 0x402 NA 32 "TXMAC_NAME_0" 0x0 RO;
  Csr 0x403 NA 32 "TXMAC_NAME_1" 0x0 RO;
  Csr 0x404 NA 32 "TXMAC_NAME_2" 0x0 RO;
  Csr 0x406 NA 32 "IPG_COL_REM" 0x0 RW;
  Csr 0x407 NA 32 "MAX_TX_SIZE_CONFIG" 0x0 RW;
  Csr 0x500 NA 32 "RXMAC_REVID" 0x2062015 RO;
  Csr 0x501 NA 32 "RXMAC_SCRATCH" 0x0 RW;
  Csr 0x502 NA 32 "RXMAC_NAME_0" 0x0 RO;
  Csr 0x503 NA 32 "RXMAC_NAME_1" 0x0 RO;
  Csr 0x504 NA 32 "RXMAC_NAME_2" 0x0 RO;
  Csr 0x506 NA 16 "MAX_RX_SIZE_CONFIG" 0x0 RW;
  Csr 0x507 NA 32 "MAC_CRC_CONFIG" 0x0 RW;
  Csr 0x50a NA 32 "CFG_PLEN_CHECK" 0x0 RW
].

Definition e40_csrs_2 : list hssi_csr := [
  Csr 0x800 TX 32 "CNTR_TX_FRAGMENTS_LO" 0x0 RO;
  Csr 0x801 TX 32 "CNTR_TX_FRAGMENTS_HI" 0x0 RO;
  Csr 0x802 TX 32 "CNTR_TX_JABBERS_LO" 0x0 RO;
  Csr 0x803 TX 32 "CNTR_TX_JABBERS_HI" 0x0 RO;
  Csr 0x804 TX 32 "CNTR_TX_FCS_LO" 0x0 RO;
  Csr 0x805 TX 32 "CNTR_TX_FCS_HI" 0x0 RO;
  Csr 0x806 TX 32 "CNTR_TX_CRCERR_LO" 0x0 RO;
  Csr 0x807 TX 32 "CNTR_TX_CRCERR_HI" 0x0 RO;
  Csr 0x808 TX 32 "CNTR_TX_MCAST_DATA_ERR_LO" 0x0 RO;
  Csr 0x809 TX 32 "CNTR_TX_MCAST_DATA_ERR_HI" 0x0 RO;
  Csr 0x80a TX 32 "CNTR_TX_BCAST_DATA_ERR_LO" 0x0 RO;
  Csr 0x80b TX 32 "CNTR_TX_BCAST_DATA_ERR_HI" 0x0 RO;
  Csr 0x80c TX 32 "CNTR_TX_UCAST_DATA_ERR_LO" 0x0 RO;
  Csr 0x80d TX 32 "CNTR_TX_UCAST_DATA_ERR_HI" 0x0 RO;
  Csr 0x80e TX 32 "CNTR_TX_MCAST_CTRL_ERR_LO" 0x0 RO;
  Csr 0x80f TX 32 "CNTR_TX_MCAST_CTRL_ERR_HI" 0x0 RO;
  Csr 0x810 TX 32 "CNTR_TX_BCAST_CTRL_ERR_LO" 0x0 RO;
  Csr 0x811 TX 32 "CNTR_TX_BCAST_CTRL_ERR_HI" 0x0 RO
].

Definition e40_csrs_3 : list hssi_csr := [
  Csr 0x812 TX 32 "CNTR_TX_UCAST_CTRL_ERR_LO" 0x0 RO;
  Csr 0x813 TX 32 "CNTR_TX_UCAST_CTRL_ERR_HI" 0x0 RO;
  Csr 0x814 TX 32 "CNTR_TX_PAUSE_ERR_LO" 0x0 RO;
  Csr 0x815 TX 32 "CNTR_TX_PAUSE_ERR_HI" 0x0 RO;
  Csr 0x816 TX 32 "CNTR_TX_64B_LO" 0x0 RO;
  Csr 0x817 TX 32 "CNTR_TX_64B_HI" 0x0 RO;
  Csr 0x818 TX 32 "CNTR_TX_65to127B_LO" 0x0 RO;
  Csr 0x819 TX 32 "CNTR_TX_65to127B_HI" 0x0 RO;
  Csr 0x81a TX 32 "CNTR_TX_128to255B_LO" 0x0 RO;
  Csr 0x81b TX 32 "CNTR_TX_128to255B_LO" 0x0 RO;
  Csr 0x81c TX 32 "CNTR_TX_256to511B_LO" 0x0 RO;
  Csr 0x81d TX 32 "CNTR_TX_256to511B_LO" 0x0 RO;
  Csr 0x81e TX 32 "CNTR_TX_512to1023B_LO" 0x0 RO;
  Csr 0x81f TX 32 "CNTR_TX_512to1023B_HI" 0x0 RO;
  Csr 0x820 TX 32 "CNTR_TX_1024to1518B_LO" 0x0 RO;
  Csr 0x821 TX 32 "CNTR_TX_1024to1518B_HI" 0x0 RO;
  Csr 0x822 TX 32 "CNTR_TX_1519toMAXB_LO" 0x0 RO;
  Csr 0x823 TX 32 "CNTR_TX_1519toMAXB_HI" 0x0 RO
].

Definition e40_csrs_4 : list hssi_csr := [
  Csr 0x824 TX 32 "CNTR_TX_OVERSIZE_LO" 0x0 RO;
  Csr 0x825 TX 32 "CNTR_TX_OVERSIZE_HI" 0x0 RO;
  Csr 0x826 TX 32 "CNTR_TX_MCAST_DATA_OK_LO" 0x0 RO;
  Csr 0x827 TX 32 "CNTR_TX_MCAST_DATA_OK_HI" 0x0 RO;
  Csr 0x828 TX 32 "CNTR_TX_BCAST_DATA_OK_LO" 0x0 RO;
  Csr 0x829 TX 32 "CNTR_TX_BCAST_DATA_OK_HI" 0x0 RO;
  Csr 0x82a TX 32 "CNTR_TX_UCAST_DATA_OK_LO" 0x0 RO;
  Csr 0x82b TX 32 "CNTR_TX_UCAST_DATA_OK_HI" 0x0 RO;
  Csr 0x82c TX 32 "CNTR_TX_MCAST_CTRL_LO" 0x0 RO;
  Csr 0x82d TX 32 "CNTR_TX_MCAST_CTRL_HI" 0x0 RO;
  Csr 0x82e TX 32 "CNTR_TX_BCAST_CTRL_LO" 0x0 RO;
  Csr 0x82f TX 32 "CNTR_TX_BCAST_CTRL_HI" 0x0 RO;
  Csr 0x830 TX 32 "CNTR_TX_UCAST_CTRL_LO" 0x0 RO;
  Csr 0x831 TX 32 "CNTR_TX_UCAST_CTRL_HI" 0x0 RO;
  Csr 0x832 TX 32 "CNTR_TX_PAUSE_LO" 0x0 RO;
  Csr 0x833 TX 32 "CNTR_TX_PAUSE_HI" 0x0 RO;
  Csr 0x834 TX 32 "CNTR_TX_RUNT_LO" 0x0 RO
].

Definition e40_csrs_5 : list hssi_csr := [
  Csr 0x835 TX 32 "CNTR_TX_RUNT_HI" 0x0 RO;
  Csr 0x836 TX 32 "CNTR_TX_ST_LO" 0x0 RO;
  Csr 0x837 TX 32 "CNTR_TX_ST_HI" 0x0 RO;
  Csr 0x840 TX 32 "TXSTAT_REVID" 0x0 RO;
  Csr 0x841 TX 32 "TXSTAT_SCRATCH" 0x0 RW;
  Csr 0x842 TX 32 "TXSTAT_NAME_0" 0x0 RW;
  Csr 0x843 TX 32 "TXSTAT_NAME_1" 0x0 RW;
  Csr 0x844 TX 32 "TXSTAT_NAME_2" 0x0 RW;
  Csr 0x845 TX 32 "CNTR_TX_CONFIG" 0x0 RW;
  Csr 0x846 TX 32 "CNTR_TX_STATUS" 0x0 RO;
  Csr 0x860 TX 32 "TxOctetsOK_LO" 0x0 RO;
  Csr 0x861 TX 32 "TxOctetsOK_HI" 0x0 RO;
  Csr 0x900 RX 32 "CNTR_RX_FRAGMENTS_LO" 0x0 RO;
  Csr 0x901 RX 32 "CNTR_RX_FRAGMENTS_HI" 0x0 RO;
  Csr 0x902 RX 32 "CNTR_RX_JABBERS_LO" 0x0 RO;
  Csr 0x903 RX 32 "CNTR_RX_JABBERS_HI" 0x0 RO;
  Csr 0x904 RX 32 "CNTR_RX_FCS_LO" 0x0 RO;
  Csr 0x905 RX 32 "CNTR_RX_FCS_HI" 0x0 RO
].

Definition e40_csrs_6 : list hssi_csr := [
  Csr 0x906 RX 32 "CNTR_RX_CRCERR_LO" 0x0 RO;
  Csr 0x907 RX 32 "CNTR_RX_CRCERR_HI" 0x0 RO;
  Csr 0x908 RX 32 "CNTR_RX_MCAST_DATA_ERR_LO" 0x0 RO;
  Csr 0x909 RX 32 "CNTR_RX_MCAST_DATA_ERR_HI" 0x0 RO;
  Csr 0x90a RX 32 "CNTR_RX_BCAST_DATA_ERR_LO" 0x0 RO;
  Csr 0x90b RX 32 "CNTR_RX_BCAST_DATA_ERR_HI" 0x0 RO;
  Csr 0x90c RX 32 "CNTR_RX_UCAST_DATA_ERR_LO" 0x0 RO;
  Csr 0x90d RX 32 "CNTR_RX_UCAST_DATA_ERR_HI" 0x0 RO;
  Csr 0x90e RX 32 "CNTR_RX_MCAST_CTRL_ERR_LO" 0x0 RO;
  Csr 0x90f RX 32 "CNTR_RX_MCAST_CTRL_ERR_HI" 0x0 RO;
  Csr 0x910 RX 32 "CNTR_RX_BCAST_CTRL_ERR_LO" 0x0 RO;
  Csr 0x911 RX 32 "CNTR_RX_BCAST_CTRL_ERR_HI" 0x0 RO;
  Csr 0x912 RX 32 "CNTR_RX_UCAST_CTRL_ERR_LO" 0x0 RO;
  Csr 0x913 RX 32 "CNTR_RX_UCAST_CTRL_ERR_HI" 0x0 RO;
  Csr 0x914 RX 32 "CNTR_RX_PAUSE_ERR_LO" 0x0 RO;
  Csr 0x915 RX 32 "CNTR_RX_PAUSE_ERR_HI" 0x0 RO;
  Csr 0x916 RX 32 "CNTR_RX_64B_LO" 0x0 RO;
  Csr 0x917 RX 32 "CNTR_RX_64B_HI" 0x0 RO
].

Definition e40_csrs_7 : list hssi_csr := [
  Csr 0x918 RX 32 "CNTR_RX_65to127B_LO" 0x0 RO;
  Csr 0x919 RX 32 "CNTR_RX_65to127B_HI" 0x0 RO;
  Csr 0x91a RX 32 "CNTR_RX_128to255B_LO" 0x0 RO;
  Csr 0x91b RX 32 "CNTR_RX_128to255B_LO" 0x0 RO;
  Csr 0x91c RX 32 "CNTR_RX_256to511B_LO" 0x0 RO;
  Csr 0x91d RX 32 "CNTR_RX_256to511B_LO" 0x0 RO;
  Csr 0x91e RX 32 "CNTR_RX_512to1023B_LO" 0x0 RO;
  Csr 0x91f RX 32 "CNTR_RX_512to1023B_HI" 0x0 RO;
  Csr 0x920 RX 32 "CNTR_RX_1024to1518B_LO" 0x0 RO;
  Csr 0x921 RX 32 "CNTR_RX_1024to1518B_HI" 0x0 RO;
  Csr 0x922 RX 32 "CNTR_RX_1519toMAXB_LO" 0x0 RO;
  Csr 0x923 RX 32 "CNTR_RX_1519toMAXB_HI" 0x0 RO;
  Csr 0x924 RX 32 "CNTR_RX_OVERSIZE_LO" 0x0 RO;
  Csr 0x925 RX 32 "CNTR_RX_OVERSIZE_HI" 0x0 RO;
  Csr 0x926 RX 32 "CNTR_RX_MCAST_DATA_OK_LO" 0x0 RO;
  Csr 0x927 RX 32 "CNTR_RX_MCAST_DATA_OK_HI" 0x0 RO;
  Csr 0x928 RX 32 "CNTR_RX_BCAST_DATA_OK_LO" 0x0 RO
].

Definition e40_csrs_8 : list hssi_csr := [
  Csr 0x929 RX 32 "CNTR_RX_BCAST_DATA_OK_HI" 0x0 RO;
  Csr 0x92a RX 32 "CNTR_RX_UCAST_DATA_OK_LO" 0x0 RO;
  Csr 0x92b RX 32 "CNTR_RX_UCAST_DATA_OK_HI" 0x0 RO;
  Csr 0x92c RX 32 "CNTR_RX_MCAST_CTRL_LO" 0x0 RO;
  Csr 0x92d RX 32 "CNTR_RX_MCAST_CTRL_HI" 0x0 RO;
  Csr 0x92e RX 32 "CNTR_RX_BCAST_CTRL_LO" 0x0 RO;
  Csr 0x92f RX 32 "CNTR_RX_BCAST_CTRL_HI" 0x0 RO;
  Csr 0x930 RX 32 "CNTR_RX_UCAST_CTRL_LO" 0x0 RO;
  Csr 0x931 RX 32 "CNTR_RX_UCAST_CTRL_HI" 0x0 RO;
  Csr 0x932 RX 32 "CNTR_RX_PAUSE_LO" 0x0 RO;
  Csr 0x933 RX 32 "CNTR_RX_PAUSE_HI" 0x0 RO;
  Csr 0x934 RX 32 "CNTR_RX_RUNT_LO" 0x0 RO;
  Csr 0x935 RX 32 "CNTR_RX_RUNT_HI" 0x0 RO;
  Csr 0x936 RX 32 "CNTR_RX_ST_LO" 0x0 RO;
  Csr 0x937 RX 32 "CNTR_RX_ST_HI" 0x0 RO;
  Csr 0x940 RX 32 "RXSTAT_REVID" 0x0 RO;
  Csr 0x941 RX 32 "RXSTAT_SCRATCH" 0x0 RW
].

Definition e40_csrs_9 : list hssi_csr := [
  Csr 0x942 RX 32 "RXSTAT_NAME_0" 0x0 RW;
  Csr 0x943 RX 32 "RXSTAT_NAME_1" 0x0 RW;
  Csr 0x944 RX 32 "RXSTAT_NAME_2" 0x0 RW;
  Csr 0x945 RX 32 "CNTR_RX_CONFIG" 0x0 RW;
  Csr 0x946 RX 32 "CNTR_RX_STATUS" 0x0 RO;
  Csr 0x960 RX 32 "RXOctetsOK_LO" 0x0 RO;
  Csr 0x961 RX 32 "RXOctetsOK_HI" 0x0 RO;
  Csr 0x3c00 NA 32 "number_of_packets" 0x0 RW;
  Csr 0x3c01 NA 32 "random_length" 0x0 RW;
  Csr 0x3c02 NA 32 "random_payload" 0x0 RW;
  Csr 0x3c03 NA 32 "start" 0x0 RW;
  Csr 0x3c04 NA 32 "stop" 0x0 RW;
  Csr 0x3c05 NA 32 "source_addr0" 0x0 RW;
  Csr 0x3c06 NA 32 "source_addr1" 0x0 RW;
  Csr 0x3c07 NA 32 "destination_addr0" 0x0 RW;
  Csr 0x3c08 NA 32 "destination_addr1" 0x0 RW;
  Csr 0x3c09 NA 32 "packet_tx_count" 0x0 RW;
  Csr 0x3c0a NA 32 "rnd_seed0" 0x0 RW
].

Definition e40_csrs_10 : list hssi_csr := [
  Csr 0x3c0b NA 32 "rnd_seed1" 0x0 RW;
  Csr 0x3c0c NA 32 "rnd_seed2" 0x0 RW;
  Csr 0x3c0d NA 32 "pkt_length" 0x0 RW;
  Csr 0x3d00 NA 32 "mac_da0" 0x0 RW;
  Csr 0x3d01 NA 32 "mac_da1" 0x0 RW;
  Csr 0x3d02 NA 32 "mac_sa0" 0x0 RW;
  Csr 0x3d03 NA 32 "mac_sa1" 0x0 RW;
  Csr 0x3d04 NA 32 "pkt_numb" 0x0 RW;
  Csr 0x3d05 NA 32 "mon_ctrl" 0x0 RW;
  Csr 0x3d06 NA 32 "mon_stat" 0x0 RW;
  Csr 0x3d07 NA 32 "pkt_good" 0x0 RW;
  Csr 0x3d08 NA 32 "pkt_bad" 0x0 RW
].

Definition e40_csrs : list hssi_csr :=
  e40_csrs_0 ++ e40_csrs_1 ++ e40_csrs_2 ++ e40_csrs_3 ++ e40_csrs_4 ++ e40_csrs_5 ++ e40_csrs_6 ++ e40_csrs_7 ++ e40_csrs_8 ++ e40_csrs_9 ++ e40_csrs_10.
