(* ===== verification/Hssi.v ===== *)
(** * The 40G Ethernet (HSSI) controller driver

    src/sw/src/network_ctl: fpga_hssi_common.c (register lookup) and
    fpga_hssi_e40.c (the indirect management port, reset, loopback, counters and
    the traffic generator).  The management registers are memory mapped: each
    volatile store or load is a [MmioStore] or [MmioLoad] of the platform, at the
    address of the field of [struct afu_dfl].  A [fpga_hssi_handle] is [None] when
    it is NULL.  The counter [err_cnt], which is written and never read, and the
    printing are left out. *)

From S2P Require Import Prelude Wire Host HssiCsrs.

(** Byte offsets of the fields of [struct afu_dfl] the driver touches. *)
Definition afu_id_lo : Z := 8.
Definition afu_id_hi : Z := 16.
Definition eth_ctrl_addr : Z := 48.
Definition eth_wr_data : Z := 56.
Definition eth_rd_data : Z := 64.

Definition PR_READ_CMD : Z := Z.shiftl 1 17.
Definition PR_WRITE_CMD : Z := Z.shiftl 1 16.

Inductive pr_mgmt_cmd_e40_t :=
| PR_MGMT_SCRATCH | PR_MGMT_RST | PR_MGMT_STATUS | PR_MGMT_STATUS_WR_DATA
| PR_MGMT_STATUS_RD_DATA | PR_MGMT_PORT_SEL | PR_MGMT_SLOOP | PR_MGMT_LOCK_STATUS
| PR_MGMT_I2C_SEL_WDATA | PR_MGMT_I2C_SEL_RDATA | PR_MGMT_ETH_CTRL
| PR_MGMT_ETH_WR_DATA | PR_MGMT_ETH_RD_DATA | PR_MGMT_ERR_INIT_DONE.

Definition cmd_val (c : pr_mgmt_cmd_e40_t) : Z :=
  match c with
  | PR_MGMT_SCRATCH => 0x0 | PR_MGMT_RST => 0x1 | PR_MGMT_STATUS => 0x2
  | PR_MGMT_STATUS_WR_DATA => 0x3 | PR_MGMT_STATUS_RD_DATA => 0x4
  | PR_MGMT_PORT_SEL => 0x5 | PR_MGMT_SLOOP => 0x6 | PR_MGMT_LOCK_STATUS => 0x7
  | PR_MGMT_I2C_SEL_WDATA => 0x8 | PR_MGMT_I2C_SEL_RDATA => 0x9
  | PR_MGMT_ETH_CTRL => 0xa | PR_MGMT_ETH_WR_DATA => 0xb
  | PR_MGMT_ETH_RD_DATA => 0xc | PR_MGMT_ERR_INIT_DONE => 0xd
  end.

Definition NUM_ETH_CHANNELS : Z := 1.

(** The bit fields of [union pr_mgmt_data_e40]; the union itself is its 64-bit
    word. *)
Definition set_reset_async (w v : Z) : Z := set_field w 0 1 v.
Definition set_reset_status (w v : Z) : Z := set_field w 1 1 v.
Definition set_status_addr (w v : Z) : Z := set_field w 0 16 v.
Definition set_status_wr (w v : Z) : Z := set_field w 16 1 v.
Definition set_status_rd (w v : Z) : Z := set_field w 17 1 v.
Definition set_eth_traff_addr (w v : Z) : Z := set_field w 0 16 v.
Definition set_eth_traff_wr (w v : Z) : Z := set_field w 16 1 v.

(** [struct _fpga_hssi_handle_t]; [self_ptr] is the address of the struct and
    [csrs_ptr] that of the array [csrs]. *)
Record hssi_handle := {
  self_ptr : Z;
  fpga_h : Z;
  csrs_ptr : Z;
  csrs : list hssi_csr;
  dfl : Z
}.

Definition csr_cnt (h : hssi_handle) : Z := Z.of_nat (length (csrs h)).

(** [byte_reverse]: swap the bytes from both ends towards the middle. *)
Fixpoint swap_ends (n i : nat) (g : list Z) : list Z :=
  match n with
  | O => g
  | S n' =>
      match g !! i, g !! (15 - i)%nat with
      | Some a, Some b => swap_ends n' (S i) (<[i := b]> (<[(15 - i)%nat := a]> g))
      | _, _ => g
      end
  end.

Definition byte_reverse (guid : list Z) : list Z := swap_ends 8 0 guid.

Section hssi.
Context {D N : Type} `{Platform D}.
Abbreviation io_ A := (M (sys N D) A).

Definition prMgmtWrite (dfl_ : Z) (cmd : pr_mgmt_cmd_e40_t) (data : Z) : io_ unit :=
  call (MmioStore (dfl_ + eth_wr_data) data) ;;
  call (MmioStore (dfl_ + eth_ctrl_addr) (Z.lor PR_WRITE_CMD (cmd_val cmd))) ;;
  call (MmioStore (dfl_ + eth_ctrl_addr) 0) ;;
  ret tt.

Definition prMgmtRead (dfl_ : Z) (cmd : pr_mgmt_cmd_e40_t) : io_ Z :=
  call (MmioStore (dfl_ + eth_ctrl_addr) (Z.lor PR_READ_CMD (cmd_val cmd))) ;;
  call (Delay 10000) ;;
  let! r := call (MmioLoad (dfl_ + eth_rd_data)) in
  call (MmioStore (dfl_ + eth_ctrl_addr) 0) ;;
  ret (u64 r.2).

(** Register lookup: the status and the register, [None] for NULL. *)
Definition fpgaHssiEnumerateCsr (hssi : option hssi_handle)
  : fpga_result * option (list hssi_csr * Z) :=
  match hssi with
  | None => (FPGA_INVALID_PARAM, None)
  | Some h => (FPGA_OK, Some (csrs h, csr_cnt h))
  end.

Fixpoint find_by_name (nm : string) (l : list hssi_csr) : option hssi_csr :=
  match l with
  | [] => None
  | c :: l' => if strcmp_s nm (name c) =? 0 then Some c else find_by_name nm l'
  end.

Definition fpgaHssiFilterCsrByName (hssi : option hssi_handle) (nm : string)
  : fpga_result * option hssi_csr :=
  match hssi with
  | None => (FPGA_INVALID_PARAM, None)
  | Some h =>
      match find_by_name nm (csrs h) with
      | Some c => (FPGA_OK, Some c)
      | None => (FPGA_NOT_FOUND, None)
      end
  end.

Fixpoint find_by_offset (off : Z) (l : list hssi_csr) : option hssi_csr :=
  match l with
  | [] => None
  | c :: l' => if off =? offset c then Some c else find_by_offset off l'
  end.

Definition fpgaHssiFilterCsrByOffset (hssi : option hssi_handle) (off : Z)
  : fpga_result * option hssi_csr :=
  match hssi with
  | None => (FPGA_INVALID_PARAM, None)
  | Some h =>
      match find_by_offset off (csrs h) with
      | Some c => (FPGA_OK, Some c)
      | None => (FPGA_NOT_FOUND, None)
      end
  end.

(** [fpgaHssiOpen]: the handle is returned with the status; the allocations are
    given back on the error paths. *)
Definition fpgaHssiOpen (fpga : Z) : io_ (fpga_result * option hssi_handle) :=
  if fpga =? 0 then ret (FPGA_INVALID_PARAM, None)
  else
    match uuid_parse_afu with
    | None => ret (FPGA_EXCEPTION, None)
    | Some uuid =>
        let! h := call (Malloc 40) in
        if h.2 =? 0 then ret (FPGA_NO_MEMORY, None)
        else
          let! p := call (Malloc (8 * Z.of_nat (length e40_csrs))) in
          if p.2 =? 0 then
            call (Free h.2) ;; ret (FPGA_NO_MEMORY, None)
          else
            let! m := call MapMMIO in
            if negb (is_ok m.1) then
              call (Free p.2) ;; call (Free h.2) ;; ret (m.1, None)
            else
              let guid := byte_reverse uuid in
              let! lo := call (MmioLoad (m.2 + afu_id_lo)) in
              let fail :=
                call UnmapMMIO ;; call (Free p.2) ;; call (Free h.2) ;;
                ret (FPGA_EXCEPTION, None) in
              if negb (bool_decide (take 8 guid = Wire.le_bytes 8 lo.2)) then fail
              else
                let! hi := call (MmioLoad (m.2 + afu_id_hi)) in
                if negb (bool_decide (drop 8 guid = Wire.le_bytes 8 hi.2)) then fail
                else ret (FPGA_OK, Some {| self_ptr := h.2; fpga_h := fpga; csrs_ptr := p.2;
                                           csrs := e40_csrs; dfl := m.2 |})
    end.

Definition fpgaHssiClose (hssi : option hssi_handle) : io_ fpga_result :=
  match hssi with
  | None => ret FPGA_INVALID_PARAM
  | Some h =>
      call UnmapMMIO ;;
      (if csrs_ptr h =? 0 then ret tt else (call (Free (csrs_ptr h)) ;; ret tt)) ;;
      call (Free (self_ptr h)) ;;
      ret FPGA_OK
  end.

Definition fpgaHssiWriteCsr64 (hssi : option hssi_handle) (csr : option hssi_csr) (v : Z)
  : io_ fpga_result :=
  match hssi, csr with
  | Some h, Some c =>
      prMgmtWrite (dfl h) PR_MGMT_STATUS_WR_DATA v ;;
      prMgmtWrite (dfl h) PR_MGMT_STATUS (set_status_wr (set_status_addr 0 (offset c)) 1) ;;
      ret FPGA_OK
  | _, _ => ret FPGA_INVALID_PARAM
  end.

(** Dereferencing a NULL register faults: only the handle is checked.  [*val] is
    left alone ([None]) on the error path. *)
Definition fpgaHssiReadCsr64 (hssi : option hssi_handle) (csr : option hssi_csr)
  : io_ (fpga_result * option Z) :=
  match hssi, csr with
  | None, _ => ret (FPGA_INVALID_PARAM, None)
  | Some _, None => fun _ => Fault
  | Some h, Some c =>
      prMgmtWrite (dfl h) PR_MGMT_STATUS (set_status_rd (set_status_addr 0 (offset c)) 1) ;;
      let! v := prMgmtRead (dfl h) PR_MGMT_STATUS_RD_DATA in
      ret (FPGA_OK, Some v)
  end.

Definition fpgaHssiReset (hssi : option hssi_handle) : io_ fpga_result :=
  match hssi with
  | None => ret FPGA_INVALID_PARAM
  | Some h =>
      let w := set_reset_status (set_reset_async 0 1) 1 in
      prMgmtWrite (dfl h) PR_MGMT_RST w ;;
      let w := set_reset_status (set_reset_async w 0) 0 in
      prMgmtWrite (dfl h) PR_MGMT_RST w ;;
      ret FPGA_OK
  end.

Definition fpgaHssiCtrlLoopback (hssi : option hssi_handle) (channel_num : Z)
    (loopback_en : bool) : io_ fpga_result :=
  match hssi with
  | None => ret FPGA_INVALID_PARAM
  | Some _ =>
      match (fpgaHssiFilterCsrByName hssi "PHY_PMA_SLOOP").2 with
      | None => ret FPGA_INVALID_PARAM
      | Some csr =>
          fpgaHssiWriteCsr64 hssi (Some csr) (if loopback_en then 0x3ff else 0) ;;
          ret FPGA_OK
      end
  end.

(** The three status queries differ in the register and in the expected value;
    the out parameter is [None] when it is not written. *)
Definition get_status_bit (hssi : option hssi_handle) (nm : string) (expect : Z)
  : io_ (fpga_result * option bool) :=
  match hssi with
  | None => ret (FPGA_INVALID_PARAM, None)
  | Some _ =>
      match (fpgaHssiFilterCsrByName hssi nm).2 with
      | None => ret (FPGA_INVALID_PARAM, None)
      | Some csr =>
          let! r := fpgaHssiReadCsr64 hssi (Some csr) in
          ret (FPGA_OK, option_map (fun v => v =? expect) r.2)
      end
  end.

Definition fpgaHssiGetLoopbackStatus (hssi : option hssi_handle) (channel_num : Z) :=
  get_status_bit hssi "PHY_PMA_SLOOP" 0x3ff.
Definition fpgaHssiGetFreqLockStatus (hssi : option hssi_handle) (channel_num : Z) :=
  get_status_bit hssi "PHY_EIOFREQ_LOCKED" 0xf.
Definition fpgaHssiGetWordLockStatus (hssi : option hssi_handle) (channel_num : Z) :=
  get_status_bit hssi "PHY_TX_PLL_LOCKED" 0xf.

Definition traffic_write (d addr : Z) : io_ unit :=
  prMgmtWrite d PR_MGMT_ETH_CTRL (set_eth_traff_addr (set_eth_traff_wr 0 1) addr).

Definition fpgaHssiSendPacket (hssi : option hssi_handle) (channel_num num_packets : Z)
  : io_ fpga_result :=
  match hssi with
  | None => ret FPGA_INVALID_PARAM
  | Some h =>
      if NUM_ETH_CHANNELS <? channel_num then ret FPGA_INVALID_PARAM
      else
        let wdata v := prMgmtWrite (dfl h) PR_MGMT_ETH_WR_DATA v in
        wdata 0xFFFFFFFF ;; traffic_write (dfl h) 0x0 ;;
        wdata 0xFFFF ;; traffic_write (dfl h) 0x1 ;;
        wdata num_packets ;; traffic_write (dfl h) 0x4 ;;
        wdata 1500 ;; traffic_write (dfl h) 0x5 ;;
        wdata 0 ;; traffic_write (dfl h) 0x6 ;;
        wdata 1 ;; traffic_write (dfl h) 0x7 ;;
        wdata 0 ;; traffic_write (dfl h) 0x7 ;;
        ret FPGA_OK
  end.

Fixpoint read_stats (hssi : option hssi_handle) (ty : hssi_csr_type_t) (l : list hssi_csr)
  : io_ (list (Z * string * option Z)) :=
  match l with
  | [] => ret []
  | c :: l' =>
      if bool_decide (csr_type c = ty) then
        let! r := fpgaHssiReadCsr64 hssi (Some c) in
        let! rest := read_stats hssi ty l' in
        ret ((offset c, name c, r.2) :: rest)
      else read_stats hssi ty l'
  end.

(** The rows of the printed table.  The status of the enumeration is not looked
    at: with a NULL handle the array and its length are uninitialised. *)
Definition fpgaHssiPrintChannelStats (hssi : option hssi_handle) (ty : hssi_csr_type_t)
    (channel_num : Z) : io_ (fpga_result * list (Z * string * option Z)) :=
  match (fpgaHssiEnumerateCsr hssi).2 with
  | None => fun _ => Fault
  | Some (cs, _) =>
      let! rows := read_stats hssi ty cs in
      ret (FPGA_OK, rows)
  end.

Definition fpgaHssiClearChannelStats (hssi : option hssi_handle) (ty : hssi_csr_type_t)
    (channel_num : Z) : io_ fpga_result :=
  let clear nm :=
    match (fpgaHssiFilterCsrByName hssi nm).2 with
    | None => ret FPGA_INVALID_PARAM
    | Some csr => fpgaHssiWriteCsr64 hssi (Some csr) 1 ;; ret FPGA_OK
    end in
  match hssi with
  | None => ret FPGA_INVALID_PARAM
  | Some _ =>
      match ty with
      | TX => clear "CNTR_TX_CONFIG"
      | RX => clear "CNTR_RX_CONFIG"
      | _ => ret FPGA_INVALID_PARAM
      end
  end.
End hssi.

(** ** The management port *)

(** One write through the management port: data, command, release. *)
Definition mgmt_write (d : Z) (cmd : pr_mgmt_cmd_e40_t) (data : Z) : list io_call :=
  [ MmioStore (d + eth_wr_data) data;
    MmioStore (d + eth_ctrl_addr) (Z.lor PR_WRITE_CMD (cmd_val cmd));
    MmioStore (d + eth_ctrl_addr) 0 ].

(** A register write: the data, then the address with the write bit. *)
Definition csr_write (d off v : Z) : list io_call :=
  mgmt_write d PR_MGMT_STATUS_WR_DATA v ++
  mgmt_write d PR_MGMT_STATUS (wrap 16 off + 2 ^ 16).

Lemma status_write_word off : set_status_wr (set_status_addr 0 off) 1 = wrap 16 off + 2 ^ 16.
Proof.
  unfold set_status_wr, set_status_addr, set_field.
  rewrite Z.ldiff_0_l, Z.lor_0_l, Z.shiftl_0_r.
  assert (in_width 16 (wrap 16 off)) as Hw by auto with word.
  rewrite Z.ldiff_land, Z.land_comm.
  replace (Z.shiftl (wrap 1 1) 16) with (1 * 2 ^ 16) by done.
  replace (Z.land _ _) with (wrap 16 off); [by rewrite lor_disjoint; [lia| |] |].
  apply Z.bits_inj'. intros n Hn. rewrite Z.land_spec, Z.lnot_spec by done.
  destruct (decide (n < 16)).
  - by rewrite Z.shiftl_spec_low.
  - rewrite <- (wrap_idem 16 off) by lia. unfold wrap at 1 3.
    rewrite Z.mod_pow2_bits_high by lia. by rewrite andb_false_r.
Qed.

Section port.
Context {D N : Type} `{Platform D}.

Lemma prMgmtWrite_emits d cmd data :
  emits (N := N) (D := D) (prMgmtWrite d cmd data) tt (mgmt_write d cmd data).
Proof. unfold prMgmtWrite, mgmt_write. auto 10 with effects. Qed.

Lemma fpgaHssiWriteCsr64_emits h c v :
  emits (N := N) (D := D) (fpgaHssiWriteCsr64 (Some h) (Some c) v) FPGA_OK
    (csr_write (dfl h) (offset c) v).
Proof.
  unfold fpgaHssiWriteCsr64, csr_write. rewrite status_write_word.
  eapply emits_bind; [apply prMgmtWrite_emits|].
  rewrite <- (app_nil_r (mgmt_write _ PR_MGMT_STATUS _)).
  eapply emits_bind; [apply prMgmtWrite_emits | apply emits_ret].
Qed.
End port.

(** ** Register lookup *)

(** The first register of that name, by equality of names. *)
Fixpoint first_named (nm : string) (l : list hssi_csr) : option hssi_csr :=
  match l with
  | [] => None
  | c :: l' => if String.eqb nm (name c) then Some c else first_named nm l'
  end.

(** The upper halves of the 128-255 and 256-511 byte counters carry the name of
    the lower halves. *)
Definition shadowed : list Z := [0x81B; 0x81D; 0x91B; 0x91D].

Definition lookup_complete (l : list hssi_csr) : bool :=
  forallb (fun c =>
    match first_named (name c) l with
    | Some c' => eqb (offset c' =? offset c) (negb (existsb (Z.eqb (offset c)) shadowed))
    | None => false
    end) l.

(** The table is sorted by offset. *)
Fixpoint ascending (lo : Z) (l : list hssi_csr) : bool :=
  match l with
  | [] => true
  | c :: l' => (lo <? offset c) && ascending (offset c) l'
  end.

Lemma ascending_above l lo c : ascending lo l = true -> c ∈ l -> lo < offset c.
Proof.
  revert lo. induction l as [|d l IH]; intros lo; [by intros _ ?%not_elem_of_nil|].
  simpl. rewrite andb_true_iff, Z.ltb_lt. intros [Hd Hl] [->|Hc]%elem_of_cons; [done|].
  specialize (IH _ Hl Hc). lia.
Qed.

Lemma ascending_find l lo c :
  ascending lo l = true -> c ∈ l -> find_by_offset (offset c) l = Some c.
Proof.
  revert lo. induction l as [|d l IH]; intros lo; [by intros _ ?%not_elem_of_nil|].
  simpl. rewrite andb_true_iff. intros [_ Hl] [->|Hc]%elem_of_cons.
  - by rewrite Z.eqb_refl.
  - pose proof (ascending_above _ _ _ Hl Hc).
    destruct (Z.eqb_spec (offset c) (offset d)); [lia|]. by eapply IH.
Qed.

Lemma first_named_elem nm l c : first_named nm l = Some c -> c ∈ l.
Proof.
  induction l as [|d l IH]; simpl; [done|].
  destruct (String.eqb nm (name d)); intros E; simplify_eq; set_solver.
Qed.

Lemma e40_by_offset c : c ∈ e40_csrs -> find_by_offset (offset c) e40_csrs = Some c.
Proof. apply (ascending_find _ 0). vm_compute. reflexivity. Qed.

Lemma e40_by_name c :
  c ∈ e40_csrs -> first_named (name c) e40_csrs = Some c <-> offset c ∉ shadowed.
Proof.
  intros Hc.
  assert (lookup_complete e40_csrs = true) as Hn by (vm_compute; reflexivity).
  apply forallb_forall with (x := c) in Hn; [|by apply list_elem_of_In].
  destruct (first_named (name c) e40_csrs) as [c'|] eqn:E; [|done].
  apply eqb_prop in Hn. rewrite list_elem_of_In.
  trans (offset c' = offset c).
  - split; [by intros [= ->]|]. intros Eo. f_equal.
    apply first_named_elem, e40_by_offset in E. rewrite Eo, (e40_by_offset c Hc) in E. congruence.
  - rewrite <- Z.eqb_eq, Hn, negb_true_iff, <- not_true_iff_false, existsb_exists.
    setoid_rewrite Z.eqb_eq. split; intros Hx; contradict Hx; [by exists (offset c) | by destruct Hx as (x & Hx & ->)].
Qed.

Section lookup.
Context {D : Type} `{PlatformLaws D}.

Lemma find_by_name_first nm l : find_by_name nm l = first_named nm l.
Proof.
  induction l as [|c l IH]; [done|]. cbn [find_by_name first_named]. rewrite IH.
  destruct (Z.eqb_spec (strcmp_s nm (name c)) 0) as [E|E].
  - apply strcmp_s_eq in E. by rewrite (proj2 (String.eqb_eq _ _) E).
  - destruct (String.eqb_spec nm (name c)) as [->|]; [|done].
    destruct E. by apply strcmp_s_eq.
Qed.

Lemma filter_name nm c h :
  csrs h = e40_csrs -> first_named nm e40_csrs = Some c ->
  fpgaHssiFilterCsrByName (Some h) nm = (FPGA_OK, Some c).
Proof.
  intros Hh Hc. unfold fpgaHssiFilterCsrByName. by rewrite find_by_name_first, Hh, Hc.
Qed.
End lookup.

(** Lookup by name and by offset are complete up to the four shadowed
    registers: every register of the table is found by its offset, and it is
    found by its name exactly when it is not the upper half of a 128-255 or
    256-511 byte counter, whose name in the table is the one of the lower half. *)
Theorem csr_lookup {D} `{PlatformLaws D} (h : hssi_handle) (c : hssi_csr) :
  csrs h = e40_csrs -> c ∈ e40_csrs ->
  fpgaHssiFilterCsrByOffset (Some h) (offset c) = (FPGA_OK, Some c) /\
  (fpgaHssiFilterCsrByName (Some h) (name c) = (FPGA_OK, Some c) <-> offset c ∉ shadowed).
Proof.
  intros Hh Hc. unfold fpgaHssiFilterCsrByOffset, fpgaHssiFilterCsrByName.
  rewrite Hh, find_by_name_first, e40_by_offset, <- e40_by_name by done. split; [done|].
  destruct (first_named _ _); naive_solver.
Qed.

Definition sample_handle : hssi_handle :=
  {| self_ptr := 16; fpga_h := 1; csrs_ptr := 64; csrs := e40_csrs; dfl := 4096 |}.

Lemma csr_lookup_witness :
  fpgaHssiFilterCsrByOffset (Some sample_handle) 0x81B =
    (FPGA_OK, Some (Csr 0x81B TX 32 "CNTR_TX_128to255B_LO" 0x0 RO)) /\
  (@fpgaHssiFilterCsrByName nat (scripted (always 0)) (Some sample_handle)
     "CNTR_TX_128to255B_LO" =
     (FPGA_OK, Some (Csr 0x81B TX 32 "CNTR_TX_128to255B_LO" 0x0 RO)) <-> 0x81B ∉ shadowed).
Proof.
  apply (@csr_lookup nat _ (scripted_laws (always 0)) sample_handle
           (Csr 0x81B TX 32 "CNTR_TX_128to255B_LO" 0x0 RO)); [reflexivity|].
  apply (bool_decide_eq_true_1 _). vm_compute. reflexivity.
Defined.

(** ** Register operations of the driver *)

Section registers.
Context {D N : Type} `{PlatformLaws D}.

Lemma fpgaHssiReset_emits h :
  emits (N := N) (D := D) (fpgaHssiReset (Some h)) FPGA_OK
    (mgmt_write (dfl h) PR_MGMT_RST 3 ++ mgmt_write (dfl h) PR_MGMT_RST 0).
Proof.
  unfold fpgaHssiReset. eapply emits_bind; [apply prMgmtWrite_emits|].
  rewrite <- (app_nil_r (mgmt_write _ _ 0)).
  eapply emits_bind; [apply prMgmtWrite_emits | apply emits_ret].
Qed.

Lemma fpgaHssiCtrlLoopback_emits h ch en :
  csrs h = e40_csrs ->
  emits (N := N) (D := D) (fpgaHssiCtrlLoopback (Some h) ch en) FPGA_OK
    (csr_write (dfl h) 0x313 (if en then 0x3ff else 0)).
Proof.
  intros Hh. unfold fpgaHssiCtrlLoopback.
  rewrite (filter_name _ (Csr 0x313 PHY 10 "PHY_PMA_SLOOP" 0x0 RW)) by done. cbn [snd].
  rewrite <- (app_nil_r (csr_write _ _ _)).
  eapply emits_bind; [apply fpgaHssiWriteCsr64_emits | apply emits_ret].
Qed.

(** The counter configuration register of a direction. *)
Definition cntr_config (ty : hssi_csr_type_t) : option Z :=
  match ty with TX => Some 0x845 | RX => Some 0x945 | _ => None end.

Lemma fpgaHssiClearChannelStats_emits h ty ch :
  csrs h = e40_csrs ->
  match cntr_config ty with
  | Some off =>
      emits (N := N) (D := D) (fpgaHssiClearChannelStats (Some h) ty ch) FPGA_OK
        (csr_write (dfl h) off 1)
  | None =>
      emits (N := N) (D := D) (fpgaHssiClearChannelStats (Some h) ty ch) FPGA_INVALID_PARAM []
  end.
Proof.
  intros Hh. unfold fpgaHssiClearChannelStats. cbv zeta. destruct ty; cbn [cntr_config].
  - rewrite (filter_name _ (Csr 0x845 TX 32 "CNTR_TX_CONFIG" 0x0 RW)) by done. cbn [snd].
    rewrite <- (app_nil_r (csr_write _ _ _)).
    eapply emits_bind; [apply fpgaHssiWriteCsr64_emits | apply emits_ret].
  - rewrite (filter_name _ (Csr 0x945 RX 32 "CNTR_RX_CONFIG" 0x0 RW)) by done. cbn [snd].
    rewrite <- (app_nil_r (csr_write _ _ _)).
    eapply emits_bind; [apply fpgaHssiWriteCsr64_emits | apply emits_ret].
  - apply emits_ret.
  - apply emits_ret.
Qed.
End registers.

(** ** Resources *)

(** What a trace leaves allocated: the pointers of the allocations that are not
    yet freed, latest first, and the number of live mappings of the registers. *)
Record resources := { heap : list Z; maps : Z }.

Fixpoint free_first (p : Z) (l : list Z) : list Z :=
  match l with
  | [] => []
  | q :: l' => if q =? p then l' else q :: free_first p l'
  end.

Definition account (r : resources) (e : io_event) : resources :=
  match ev_call e with
  | Malloc _ =>
      if ev_val e =? 0 then r else {| heap := ev_val e :: heap r; maps := maps r |}
  | Free p => {| heap := free_first p (heap r); maps := maps r |}
  | MapMMIO => if is_ok (ev_res e) then {| heap := heap r; maps := maps r + 1 |} else r
  | UnmapMMIO => {| heap := heap r; maps := maps r - 1 |}
  | _ => r
  end.

Definition resources_of {N D} (s : sys N D) : resources :=
  foldl account {| heap := []; maps := 0 |} (trace (wld s)).

Section open.
Context {D N : Type} `{Platform D}.
Implicit Types s : sys N D.

(** [owns s0 rs s]: since [s0] the object is unchanged, and [rs] is allocated. *)
Definition owns s0 (rs : resources) s : Prop := obj s = obj s0 /\ resources_of s = rs.

Lemma wp_call_owns {A} c (k : fpga_result * Z -> M (sys N D) A) Q s0 rs s :
  owns s0 rs s ->
  (forall r v s', owns s0 (account rs {| ev_call := c; ev_res := r; ev_val := v |}) s' ->
     wp (k (r, v)) Q s') ->
  wp (bind (call c) k) Q s.
Proof.
  intros [Ho Hr] Hk. apply wp_bind. unfold wp at 1.
  destruct (call_Ret c s) as (r & v & d' & _ & ->). apply Hk. split; [done|].
  unfold resources_of in *. simpl. by rewrite foldl_app, Hr.
Qed.

Lemma free_first_hd p l : free_first p (p :: l) = l.
Proof. simpl. by rewrite Z.eqb_refl. Qed.

(** The outcome of [fpgaHssiOpen]: on success the struct and its array are
    allocated and the registers are mapped, on failure nothing is left. *)
Definition open_post (fpga : Z) (rs rs' : resources) (r : fpga_result * option hssi_handle)
  : Prop :=
  match r with
  | (res, None) => res <> FPGA_OK /\ rs' = rs
  | (res, Some h) =>
      res = FPGA_OK /\ fpga_h h = fpga /\ csrs h = e40_csrs /\ csrs_ptr h <> 0 /\
      rs' = {| heap := csrs_ptr h :: self_ptr h :: heap rs; maps := maps rs + 1 |}
  end.
End open.

(** Run the next call and simplify the account. *)
Ltac step_call :=
  eapply wp_call_owns; [eassumption|];
  match goal with H : owns _ _ _ |- _ => clear H end;
  let r := fresh "r" in let v := fresh "v" in let s' := fresh "s" in
  let H := fresh "Hown" in
  intros r v s' H; cbn [account ev_call ev_val ev_res heap maps fst snd] in H |- *;
  rewrite ?free_first_hd, ?Z.add_simpl_r in H.

(** Decide the test at the head of the computation. *)
Ltac step_if :=
  match goal with
  | |- wp (if negb ?b then _ else _) _ _ => destruct b eqn:?; cbn [negb]
  | |- wp (if ?b then _ else _) _ _ => destruct b eqn:?
  end.

Section open_close.
Context {D N : Type} `{Platform D}.
Implicit Types s : sys N D.

Lemma fpgaHssiOpen_spec fpga s :
  wp (fpgaHssiOpen fpga)
    (fun r s' => obj s' = obj s /\ open_post fpga (resources_of s) (resources_of s') r) s.
Proof.
  assert (owns s (resources_of s) s) as Hown by done. revert Hown.
  destruct (resources_of s) as [hp mp] eqn:Ers. intros Hown.
  assert (forall r s', owns s {| heap := hp; maps := mp |} s' -> r <> FPGA_OK ->
    wp (ret (r, None)) (fun r s' => obj s' = obj s /\
      open_post fpga {| heap := hp; maps := mp |} (resources_of s') r) s') as Hfail.
  { by intros r s' [Ho Hr] Hne. }
  unfold fpgaHssiOpen. step_if; [by apply Hfail|].
  destruct uuid_parse_afu as [u|]; [|by apply Hfail].
  step_call. step_if; [by apply Hfail|].
  step_call. step_if; [step_call; by apply Hfail|].
  step_call. step_if.
  - step_call. do 2 (step_if; [|do 3 step_call; by apply Hfail]; try step_call).
    match goal with Hw : owns _ _ _ |- _ => destruct Hw as [Ho Hr] end.
    apply wp_ret. split; [done|]. rewrite Hr. repeat split. by apply Z.eqb_neq.
  - do 2 step_call. apply Hfail; [done|]. by intros ->.
Qed.

(** Closing an open handle gives back what opening it took. *)
Lemma fpgaHssiClose_spec h rs s :
  csrs_ptr h <> 0 ->
  resources_of s = {| heap := csrs_ptr h :: self_ptr h :: heap rs; maps := maps rs + 1 |} ->
  wp (fpgaHssiClose (Some h)) (fun r s' => r = FPGA_OK /\ obj s' = obj s /\ resources_of s' = rs) s.
Proof.
  intros Hp Hrs. assert (owns s (resources_of s) s) as Hown by done. rewrite Hrs in Hown.
  unfold fpgaHssiClose. step_call. rewrite (proj2 (Z.eqb_neq _ 0) Hp).
  apply wp_bind. step_call. apply wp_ret. step_call.
  match goal with Hw : owns _ _ _ |- _ => destruct Hw as [Ho Hr] end.
  apply wp_ret. destruct rs. done.
Qed.
End open_close.

(** Opening the controller leaks nothing: whatever the library answers,
    [fpgaHssiOpen] returns, and when it fails every allocation and the mapping it
    made are given back; when it succeeds, closing the handle gives them back. *)
Theorem hssi_open_balanced {D N} `{Platform D} (fpga : Z) (s : sys N D) :
  wp (fpgaHssiOpen fpga) (fun r s' =>
    match r.2 with
    | None => r.1 <> FPGA_OK /\ resources_of s' = resources_of s
    | Some h =>
        r.1 = FPGA_OK /\
        wp (fpgaHssiClose (Some h))
          (fun rc s'' => rc = FPGA_OK /\ resources_of s'' = resources_of s) s'
    end) s.
Proof.
  eapply wp_mono; [|apply fpgaHssiOpen_spec]. intros [r [h|]] s'; simpl; [|naive_solver].
  intros (_ & -> & _ & _ & Hp & Hrs). split; [done|].
  eapply wp_mono; [|by apply fpgaHssiClose_spec]. naive_solver.
Qed.

(** The traffic generator is programmed in order: broadcast address, number
    of packets, packet size 1500, no delay, then start raised and dropped, with
    every value sent through the management port before its register number;
    channels above the number of channels are refused with no access. *)
Theorem send_packet_calls {D N} `{Platform D} (h : hssi_handle) (channel n : Z) :
  if NUM_ETH_CHANNELS <? channel then
    emits (N := N) (D := D) (fpgaHssiSendPacket (Some h) channel n) FPGA_INVALID_PARAM []
  else
    emits (N := N) (D := D) (fpgaHssiSendPacket (Some h) channel n) FPGA_OK
      (flat_map (fun '(reg, v) =>
         mgmt_write (dfl h) PR_MGMT_ETH_WR_DATA v ++
         mgmt_write (dfl h) PR_MGMT_ETH_CTRL (reg + 2 ^ 16))
       [(0, 0xFFFFFFFF); (1, 0xFFFF); (4, n); (5, 1500); (6, 0); (7, 1); (7, 0)]).
Proof.
  unfold fpgaHssiSendPacket. destruct (_ <? _); [apply emits_ret|].
  cbn [flat_map]. rewrite <- !app_assoc.
  repeat (eapply emits_bind; [apply prMgmtWrite_emits|]). apply emits_ret.
Qed.
