(* ===== verification/NicCcip.v ===== *)
(** * The CCI-P NIC driver

    [NicCCIP], the part of the driver that all the CCI-P nics share
    (src/sw/src/nic_impl/nic_ccip.h, nic_ccip.cc): bringing the hardware up and
    down through its register file, the connection setup protocol, the counters,
    and the allocation of the buffers shared with the FPGA.  Its methods run in
    [M (sys NicCCIP D)]: the object and the world it talks to.  Logging is left
    out.  A [std::mutex] is a flag that tells whether it is held; a [std::thread]
    is a flag that tells whether it is joinable. *)

From S2P Require Import Prelude Wire ConnectionManager Host HssiCsrs Hssi.

(** ** Register map *)
Definition mtu_cls : Z := 1.
Definition mmio_cpu_nic_view : Z := 4.

Definition iRegMemTxAddr : Z := 0.
Definition iRegMemRxAddr : Z := 8.
Definition iRegNicStart : Z := 16.
Definition iRegNumOfFlows : Z := 24.
Definition iRegNicInit : Z := 32.
Definition iRegNicStatus : Z := 40.
Definition iRegCcipRps : Z := 48.
Definition iRegGetPckCnt : Z := 56.
Definition iRegPckCnt : Z := 64.
Definition iRegNicMode : Z := 72.
Definition iRegCcipDmaTrg : Z := 80.
Definition iRegRxQueueSize : Z := 88.
Definition lRegTxBatchSize : Z := 96.
Definition lRegRxBatchSize : Z := 104.
Definition iRegPollingRate : Z := 112.
Definition iRegConnSetupFrame : Z := 120.
Definition iRegConnStatus : Z := 128.
Definition iRegLb : Z := 136.
Definition iRegPhyNetAddr : Z := 144.
Definition iRegIPv4NetAddr : Z := 152.
Definition iRegNetDropCntRead : Z := 160.
Definition iRegNetDropCnt : Z := 168.
Definition iRegTxQueueSize : Z := 176.
Definition iRegDebug_0 : Z := 184.
Definition iMMIOSpaceStart : Z := 256.

Definition iConstNicStart : Z := 1.
Definition iConstNicStop : Z := 0.
Definition iConstNicInit : Z := 1.
Definition iConstCcipMMIO : Z := 0.
Definition iConstCcipPolling : Z := 1.
Definition iConstCcipDma : Z := 2.
Definition iConstCcipQueuePolling : Z := 3.
Definition iPhyNetDisabled : Z := 0.
Definition iPhyNetEnabled : Z := 1.
Definition iNumOfPckCnt : Z := 5.
Definition iNumOfNetworkCnt : Z := 9.

Definition NIC_INIT_DELAY_S : Z := 1.
Definition NIC_INIT_TIMEOUT : nat := 15.
Definition NIC_PERF_DELAY_S : Z := 2.

Definition get_mtu_size_bytes : Z := mtu_cls * cfg.cl_size_bytes.

(** ** Packed register layouts *)
Record NicMode := { ccip_mode : Z; phy_network_mode : Z }.

Definition decode_mode (raw : Z) : NicMode :=
  {| ccip_mode := field raw 0 2; phy_network_mode := field raw 2 1 |}.

Record NicHwStatus := {
  nic_id : Z; ready : Z; running : Z; error : Z;
  err_rpcRxFifoOvf : Z; err_rpcTxFifoOvf : Z; err_ccip : Z; err_rpc : Z
}.

Definition decode_status (raw : Z) : NicHwStatus :=
  {| nic_id := field raw 0 3; ready := field raw 3 1; running := field raw 4 1;
     error := field raw 5 1; err_rpcRxFifoOvf := field raw 6 1;
     err_rpcTxFifoOvf := field raw 7 1; err_ccip := field raw 8 1;
     err_rpc := field raw 9 1 |}.

Definition setUpConnId : Z := 0.
Definition setUpOpen : Z := 1.
Definition setUpDestIPv4 : Z := 2.
Definition setUpDestPort : Z := 3.
Definition setUpClientFlowId : Z := 4.
Definition setUpEnable : Z := 5.

Record ConnSetupFrame := { data : Z; cmd : Z }.

(** The five bytes of the frame, padding bits zero. *)
Definition encode_frame (f : ConnSetupFrame) : Z :=
  Z.lor (u32 (data f)) (Z.shiftl (wrap 3 (cmd f)) 32).

(** The frame read through a [uint64_t] pointer: the three bytes behind it are
    whatever is on the stack. *)
Definition frame_word (f : ConnSetupFrame) (behind : Z) : Z :=
  Z.lor (encode_frame f) (Z.shiftl (wrap 24 behind) 40).

Definition cOK : Z := 0.
Definition cAlreadyOpen : Z := 1.
Definition cIsClosed : Z := 2.
Definition cIdWrong : Z := 3.

Record ConnSetupStatus := { conn_id_ : Z; valid : Z; error_status : Z }.

Definition decode_conn_status (raw : Z) : ConnSetupStatus :=
  {| conn_id_ := field raw 0 32; valid := field raw 32 1; error_status := field raw 33 2 |}.

Definition cClose : Z := 0.
Definition cOpen : Z := 1.

(** ** The object *)
Record NicCCIP := {
  base_nic_addr_ : Z;
  accel_handle_ : Z;
  hssi_h_ : option hssi_handle;
  connected_ : bool;
  initialized_ : bool;
  dp_configured_ : bool;
  started_ : bool;
  master_nic_ : bool;
  phy_network_en_ : bool;
  collect_perf_ : bool;
  perf_thread_ : bool;
  conn_manager_ : ConnectionManager;
  conn_setup_mtx_ : bool;
  conn_setup_hw_mtx_ : bool
}.

(** [indet] is the value of [accel_handle_], which is not initialised. *)
Definition NicCCIP_ctor (indet base_nic_addr num_of_flows : Z) (master_nic : bool) : NicCCIP :=
  {| base_nic_addr_ := base_nic_addr; accel_handle_ := indet; hssi_h_ := None;
     connected_ := false; initialized_ := false; dp_configured_ := false; started_ := false;
     master_nic_ := master_nic; phy_network_en_ := false;
     collect_perf_ := false; perf_thread_ := false;
     conn_manager_ := ConnectionManager_ctor (u64 (num_of_flows + 100));
     conn_setup_mtx_ := false; conn_setup_hw_mtx_ := false |}.

Definition set_accel_handle (v : Z) (n : NicCCIP) : NicCCIP :=
  let 'Build_NicCCIP b _ h c i d s m p cp pt cm l1 l2 := n in
  Build_NicCCIP b v h c i d s m p cp pt cm l1 l2.
Definition set_hssi (v : option hssi_handle) (n : NicCCIP) : NicCCIP :=
  let 'Build_NicCCIP b a _ c i d s m p cp pt cm l1 l2 := n in
  Build_NicCCIP b a v c i d s m p cp pt cm l1 l2.
Definition set_connected (v : bool) (n : NicCCIP) : NicCCIP :=
  let 'Build_NicCCIP b a h _ i d s m p cp pt cm l1 l2 := n in
  Build_NicCCIP b a h v i d s m p cp pt cm l1 l2.
Definition set_initialized (v : bool) (n : NicCCIP) : NicCCIP :=
  let 'Build_NicCCIP b a h c _ d s m p cp pt cm l1 l2 := n in
  Build_NicCCIP b a h c v d s m p cp pt cm l1 l2.
Definition set_dp_configured (v : bool) (n : NicCCIP) : NicCCIP :=
  let 'Build_NicCCIP b a h c i _ s m p cp pt cm l1 l2 := n in
  Build_NicCCIP b a h c i v s m p cp pt cm l1 l2.
Definition set_started (v : bool) (n : NicCCIP) : NicCCIP :=
  let 'Build_NicCCIP b a h c i d _ m p cp pt cm l1 l2 := n in
  Build_NicCCIP b a h c i d v m p cp pt cm l1 l2.
Definition set_phy_network_en (v : bool) (n : NicCCIP) : NicCCIP :=
  let 'Build_NicCCIP b a h c i d s m _ cp pt cm l1 l2 := n in
  Build_NicCCIP b a h c i d s m v cp pt cm l1 l2.
Definition set_collect_perf (v : bool) (n : NicCCIP) : NicCCIP :=
  let 'Build_NicCCIP b a h c i d s m p _ pt cm l1 l2 := n in
  Build_NicCCIP b a h c i d s m p v pt cm l1 l2.
Definition set_perf_thread (v : bool) (n : NicCCIP) : NicCCIP :=
  let 'Build_NicCCIP b a h c i d s m p cp _ cm l1 l2 := n in
  Build_NicCCIP b a h c i d s m p cp v cm l1 l2.
Definition set_conn_manager (v : ConnectionManager) (n : NicCCIP) : NicCCIP :=
  let 'Build_NicCCIP b a h c i d s m p cp pt _ l1 l2 := n in
  Build_NicCCIP b a h c i d s m p cp pt v l1 l2.
Definition set_conn_setup_mtx (v : bool) (n : NicCCIP) : NicCCIP :=
  let 'Build_NicCCIP b a h c i d s m p cp pt cm _ l2 := n in
  Build_NicCCIP b a h c i d s m p cp pt cm v l2.
Definition set_conn_setup_hw_mtx (v : bool) (n : NicCCIP) : NicCCIP :=
  let 'Build_NicCCIP b a h c i d s m p cp pt cm l1 _ := n in
  Build_NicCCIP b a h c i d s m p cp pt cm l1 v.

Record NicPerfMask := {
  performance : bool; status_ : bool; packet_counters : bool;
  network_counters : bool; debug_ports : bool
}.

Section driver.
Context {D : Type} `{Platform D}.

(** [true] when the driver is compiled with [NIC_PHY_NETWORK]. *)
Variable NIC_PHY_NETWORK : bool.

Abbreviation nic A := (M (sys NicCCIP D) A).

Definition massert_my (b : NicCCIP -> bool) : nic unit :=
  let! v := my b in massert v.

(** [std::unique_lock] for the duration of a scope. *)
Definition with_lock {A} (held : NicCCIP -> bool) (set : bool -> NicCCIP -> NicCCIP)
    (m : nic A) : nic A :=
  let! h := my held in
  if h then fun _ => Block
  else update (set true) ;; let! r := m in update (set false) ;; ret r.

Definition read_reg (off : Z) : nic (fpga_result * Z) :=
  let! b := my base_nic_addr_ in readMMIO64 (u64 (b + off)).
Definition write_reg (off v : Z) : nic fpga_result :=
  let! b := my base_nic_addr_ in writeMMIO64 (u64 (b + off)) v.

(** Connecting to the accelerator; the result is the handle, or 0. *)
Definition massert_call (c : io_call) : nic Z :=
  let! r := call c in massert (is_ok r.1) ;; ret r.2.

Definition connect_to_accel (bus : Z) : nic Z :=
  massert_call GetProperties ;;
  massert_call PropertiesSetObjectType ;;
  massert_call PropertiesSetGUID ;;
  (if bus =? -1 then ret tt else (call (PropertiesSetBus bus) ;; ret tt)) ;;
  let! num_matches := massert_call Enumerate in
  massert_call DestroyProperties ;;
  if num_matches <? 1 then ret 0
  else
    let! accel_handle := massert_call FpgaOpen in
    massert_call DestroyToken ;;
    ret accel_handle.

Definition connect_to_nic (bus : Z) : nic Z :=
  massert_my (fun n => negb (connected_ n)) ;;
  let! h := connect_to_accel bus in
  update (set_accel_handle h) ;;
  if h =? 0 then ret 1
  else update (set_connected true) ;; ret 0.

(** The return code and the status, which is [None] when it is not written. *)
Definition get_nic_hw_status : nic (Z * option NicHwStatus) :=
  massert_my connected_ ;;
  let! r := read_reg iRegNicStatus in
  if is_ok r.1 then ret (0, Some (decode_status (u64 r.2))) else ret (1, None).

Definition initialize_phy_network (channel : Z) : nic Z :=
  let! h := my accel_handle_ in
  let! r := fpgaHssiOpen h in
  (match r.2 with Some hd => update (set_hssi (Some hd)) | None => ret tt end) ;;
  massert (is_ok r.1) ;;
  let! hssi := my hssi_h_ in
  match hssi with
  | None => ret 1
  | Some _ =>
      ok! fpgaHssiReset hssi ;;
      ok! fpgaHssiCtrlLoopback hssi channel false ;;
      let! r := fpgaHssiClearChannelStats hssi TX channel in
      massert (is_ok r) ;;
      let! r := fpgaHssiClearChannelStats hssi RX channel in
      massert (is_ok r) ;;
      ret 0
  end.

(** [do { read status; ++wait_iteration; sleep } while (again && wait_iteration <
    NIC_INIT_TIMEOUT)], with [n] iterations left: the last status, or the error
    of the read. *)
Fixpoint wait_hw (again : NicHwStatus -> bool) (n : nat) : nic (Z * option NicHwStatus) :=
  match n with
  | O => fun _ => Fault
  | S n' =>
      let! r := get_nic_hw_status in
      match r with
      | (0, Some st) =>
          sleep NIC_INIT_DELAY_S ;;
          if again st && negb (Nat.eqb n' 0) then wait_hw again n' else ret (0, Some st)
      | (res, _) => ret (res, None)
      end
  end.

(** The status and its continuation; [return res] on an error. *)
Definition with_status (m : nic (Z * option NicHwStatus)) (k : NicHwStatus -> nic Z) : nic Z :=
  let! r := m in
  match r with
  | (_, Some st) => k st
  | (res, None) => ret res
  end.

(** The host's MAC address as the C++ expression computes it: every operand is
    an [int]. *)
Definition phy_addr_word (p : PhyAddr) : Z :=
  u64 (Z.lor (b5 p) (Z.lor (Z.shiftl (b4 p) 8) (Z.lor (Z.shiftl (b3 p) 16)
      (Z.lor (int_of (Z.shiftl (b2 p) 24)) (Z.lor (wide_shl (b1 p) 32) (wide_shl (b0 p) 40)))))).

Definition initialize_nic (host_phy : PhyAddr) (host_ipv4 : IPv4) : nic Z :=
  massert_my connected_ ;;
  massert_my dp_configured_ ;;
  with_status get_nic_hw_status (fun st =>
    massert (ready st =? 0) ;;
    massert (running st =? 0) ;;
    massert (error st =? 0) ;;
    let! rm := read_reg iRegNicMode in
    if negb (is_ok rm.1) then ret 1
    else
      let mode := phy_network_mode (decode_mode (u64 rm.2)) in
      let rest :=
        ok! write_reg iRegPhyNetAddr (phy_addr_word host_phy) ;;
        ok! write_reg iRegIPv4NetAddr (get_addr_inv host_ipv4) ;;
        ok! write_reg iRegNicInit iConstNicInit ;;
        with_status (wait_hw (fun st => ready st =? 0) NIC_INIT_TIMEOUT) (fun st =>
          if ready st =? 0 then ret 1
          else
            massert (ready st =? 1) ;;
            massert (running st =? 0) ;;
            massert (error st =? 0) ;;
            update (set_initialized true) ;;
            ret 0) in
      if NIC_PHY_NETWORK then
        if negb (mode =? iPhyNetEnabled) then ret 1
        else
          let! res := initialize_phy_network 0 in
          if negb (res =? 0) then ret 1
          else update (set_phy_network_en true) ;; rest
      else
        if negb (mode =? iPhyNetDisabled) then ret 1
        else update (set_phy_network_en false) ;; rest).

Definition start_nic : nic Z :=
  massert_my connected_ ;;
  massert_my initialized_ ;;
  massert_my dp_configured_ ;;
  massert_my (fun n => negb (started_ n)) ;;
  with_status get_nic_hw_status (fun st =>
    massert (ready st =? 1) ;;
    massert (running st =? 0) ;;
    massert (error st =? 0) ;;
    ok! write_reg iRegNicStart iConstNicStart ;;
    with_status (wait_hw (fun st => running st =? 0) NIC_INIT_TIMEOUT) (fun st =>
      if running st =? 0 then ret 1
      else
        massert (ready st =? 1) ;;
        massert (running st =? 1) ;;
        massert (error st =? 0) ;;
        update (set_started true) ;;
        ret 0)).

(** Assigning to a joinable [std::thread] calls [std::terminate]. *)
Definition run_perf_thread : nic Z :=
  update (set_collect_perf true) ;;
  massert_my (fun n => negb (perf_thread_ n)) ;;
  update (set_perf_thread true) ;;
  ret 0.

(** Joining a thread that is not joinable throws. *)
Definition join_perf_thread : nic unit :=
  massert_my perf_thread_ ;; update (set_perf_thread false).

Definition stop_nic : nic Z :=
  massert_my started_ ;;
  with_status get_nic_hw_status (fun st =>
    massert (ready st =? 1) ;;
    massert (running st =? 1) ;;
    let! perf := my collect_perf_ in
    (if perf then update (set_collect_perf false) ;; join_perf_thread else ret tt) ;;
    ok! write_reg iRegNicStart iConstNicStop ;;
    with_status (wait_hw (fun st => running st =? 1) NIC_INIT_TIMEOUT) (fun st =>
      if running st =? 1 then ret 1
      else
        massert (ready st =? 1) ;;
        massert (running st =? 0) ;;
        update (set_started false) ;;
        ret 0)).

Definition check_hw_errors : nic Z :=
  with_status get_nic_hw_status (fun st => if negb (error st =? 0) then ret 1 else ret 0).

(** ** Connection setup *)
Definition write_frame (d c : Z) : nic fpga_result :=
  let! behind := junk in
  write_reg iRegConnSetupFrame (frame_word {| data := d; cmd := c |} behind).

Definition acknowledged (c_id : Z) (st : ConnSetupStatus) : bool :=
  (valid st =? 1) && (conn_id_ st =? c_id).

Fixpoint wait_conn (c_id : Z) (n : nat) : nic (option ConnSetupStatus) :=
  match n with
  | O => fun _ => Fault
  | S n' =>
      let! r := read_reg iRegConnStatus in
      if negb (is_ok r.1) then ret None
      else
        let st := decode_conn_status (u64 r.2) in
        sleep NIC_INIT_DELAY_S ;;
        if negb (acknowledged c_id st) && negb (Nat.eqb n' 0) then wait_conn c_id n'
        else ret (Some st)
  end.

(** The answer of the hardware: accepted, refused, or none in time. *)
Definition conn_result (c_id : Z) : nic Z :=
  let! r := wait_conn c_id NIC_INIT_TIMEOUT in
  match r with
  | None => ret 1
  | Some st =>
      if negb (acknowledged c_id st) then ret 1
      else if error_status st =? cOK then ret 0 else ret 1
  end.

Definition register_connection (c_id : Z) (dest_addr : IPv4) (c_flow_id : Z) : nic Z :=
  massert_my connected_ ;;
  with_lock conn_setup_hw_mtx_ set_conn_setup_hw_mtx (
    ok! write_frame c_id setUpConnId ;;
    ok! write_frame cOpen setUpOpen ;;
    ok! write_frame (get_addr dest_addr) setUpDestIPv4 ;;
    ok! write_frame (get_port dest_addr) setUpDestPort ;;
    ok! write_frame c_flow_id setUpClientFlowId ;;
    ok! write_frame 1 setUpEnable ;;
    conn_result c_id).

Definition remove_connection (c_id : Z) : nic Z :=
  massert_my connected_ ;;
  with_lock conn_setup_hw_mtx_ set_conn_setup_hw_mtx (
    ok! write_frame c_id setUpConnId ;;
    ok! write_frame cClose setUpOpen ;;
    ok! write_frame 1 setUpEnable ;;
    conn_result c_id).

Definition cm_method {A} (m : M ConnectionManager A) : nic A :=
  pure_method conn_manager_ set_conn_manager m.

(** The return code and the connection id, a reference parameter. *)
Definition open_connection (c_id : Z) (dest_addr : IPv4) (c_flow_id : Z) : nic (Z * Z) :=
  with_lock conn_setup_mtx_ set_conn_setup_mtx (
    let! r := cm_method (ConnectionManager.open_connection c_id dest_addr c_flow_id) in
    if negb (r.1 =? 0) then ret (1, r.2)
    else
      let! res := register_connection r.2 dest_addr c_flow_id in
      if negb (res =? 0) then ret (1, r.2) else ret (0, r.2)).

Definition add_connection (c_id : Z) (dest_addr : IPv4) (c_flow_id : Z) : nic Z :=
  with_lock conn_setup_mtx_ set_conn_setup_mtx (
    let! r := cm_method (ConnectionManager.add_connection c_id dest_addr c_flow_id) in
    if negb (r =? 0) then ret 1
    else
      let! res := register_connection c_id dest_addr c_flow_id in
      if negb (res =? 0) then ret 1 else ret 0).

Definition close_connection (c_id : Z) : nic Z :=
  with_lock conn_setup_mtx_ set_conn_setup_mtx (
    let! res := remove_connection c_id in
    if negb (res =? 0) then ret 1
    else
      let! r := cm_method (ConnectionManager.close_connection c_id) in
      if negb (r =? 0) then ret 1 else ret 0).

(** The [int] read through a [uint64_t] pointer. *)
Definition set_lb (lb : Z) : nic unit :=
  let! behind := junk in
  write_reg iRegLb (Z.lor (u32 lb) (Z.shiftl (u32 behind) 32)) ;; ret tt.
(** ** Counters *)

(** The tables that are printed. *)
Definition dump_hssi_stat (channel : Z) : nic (list (Z * string * option Z)) :=
  let! h := my hssi_h_ in
  match h with
  | None => ret []
  | Some _ =>
      let! phy := fpgaHssiPrintChannelStats h PHY channel in
      massert (is_ok phy.1) ;;
      let! tx := fpgaHssiPrintChannelStats h TX channel in
      massert (is_ok tx.1) ;;
      let! rx := fpgaHssiPrintChannelStats h RX channel in
      massert (is_ok rx.1) ;;
      ret (phy.2 ++ tx.2 ++ rx.2)
  end.

(** A value that stays 0 when the read fails. *)
Definition read_or_0 (off : Z) : nic Z :=
  let! r := read_reg off in ret (if is_ok r.1 then u64 r.2 else 0).

Definition get_perf : nic Z := massert_my connected_ ;; read_or_0 iRegCcipRps.

(** The status that is printed, [None] when it is uninitialised. *)
Definition get_status : nic (option NicHwStatus) :=
  massert_my connected_ ;;
  let! r := get_nic_hw_status in ret r.2.

(** Select each counter in turn and read it. *)
Fixpoint read_counters (sel out : Z) (ids : list Z) : nic (list Z) :=
  match ids with
  | [] => ret []
  | i :: ids' =>
      write_reg sel i ;;
      usleep 1000 ;;
      let! v := read_or_0 out in
      let! vs := read_counters sel out ids' in
      ret (v :: vs)
  end.

(** The vector that is handed to the callback. *)
Definition get_packet_counters : nic (list Z) :=
  massert_my connected_ ;; read_counters iRegGetPckCnt iRegPckCnt (seqZ 0 iNumOfPckCnt).

Definition get_network_counters : nic (list Z) :=
  massert_my connected_ ;;
  let! en := my phy_network_en_ in
  if en then read_counters iRegNetDropCntRead iRegNetDropCnt (seqZ 0 iNumOfNetworkCnt)
  else ret [].

Definition get_debug_ports : nic Z := read_or_0 iRegDebug_0.

Definition skip_unless {A} (b : bool) (m : nic A) : nic unit :=
  if b then m ;; ret tt else ret tt.

Definition perf_round (mask : NicPerfMask) : nic unit :=
  skip_unless (performance mask) get_perf ;;
  skip_unless (status_ mask) get_status ;;
  skip_unless (packet_counters mask) get_packet_counters ;;
  skip_unless (network_counters mask) get_network_counters ;;
  skip_unless (debug_ports mask) get_debug_ports ;;
  sleep NIC_PERF_DELAY_S.

(** The perf thread; another thread clears [collect_perf_] after [rounds] rounds. *)
Fixpoint nic_perf_loop (rounds : nat) (mask : NicPerfMask) : nic unit :=
  match rounds with
  | O => ret tt
  | S r => perf_round mask ;; nic_perf_loop r mask
  end.

(** ** Shared buffers *)
Definition get_page_size : Z :=
  if cfg.enable_hugepages then cfg.hugepage_size else getpagesize.

Definition round_up_to_pagesize (v : Z) : nic Z :=
  let page_size_bytes := get_page_size in
  let remainder := v mod page_size_bytes in
  if remainder =? 0 then ret v
  else
    let res := u64 (v + page_size_bytes - remainder) in
    massert (res mod page_size_bytes =? 0) ;;
    ret res.

(** [fpgaPrepareBuffer] on each page; the last [wsid] stays. *)
Fixpoint prepare_pages (page_size buf : Z) (pages : list Z) (wsid : Z) : nic (option Z) :=
  match pages with
  | [] => ret (Some wsid)
  | i :: pages' =>
      let! r := call (PrepareBuffer page_size (u64 (buf + i * page_size))) in
      if is_ok r.1 then prepare_pages page_size buf pages' r.2 else ret None
  end.

(** The buffer (0 for [nullptr]), its [wsid] and its address on the device; the
    last two are reference parameters, [wsid0] and [io0] before the call. *)
Definition alloc_buffer (size wsid0 io0 llc_anti_aliasing : Z) : nic (Z * Z * Z) :=
  let! mem_size := round_up_to_pagesize size in
  let page_size := get_page_size in
  let mem_pages := mem_size / page_size in
  if 1 <? mem_pages then ret (0, wsid0, io0)
  else
    let! r := call (Mmap mem_size) in
    let buf := u64 r.2 in
    if buf =? 0 then ret (0, wsid0, io0)
    else
      let! p := prepare_pages page_size buf (seqZ 0 mem_pages) wsid0 in
      match p with
      | None => ret (0, wsid0, io0)
      | Some wsid =>
          let! io := massert_call (GetIOAddress wsid) in
          let aa_offset_bytes := u64 (llc_anti_aliasing * cfg.llc_anti_aliasing_offset) in
          if mem_size <? u64 (size + aa_offset_bytes) then ret (0, wsid, io)
          else ret (u64 (buf + aa_offset_bytes), wsid, u64 (io + aa_offset_bytes))
      end.

(** [~NicCCIP]: destroying a joinable [perf_thread_] calls [std::terminate]. *)
Definition NicCCIP_dtor : nic unit :=
  let! s := my started_ in
  (if s then stop_nic ;; ret tt else ret tt) ;;
  let! h := my hssi_h_ in
  (match h with Some _ => fpgaHssiClose h ;; ret tt | None => ret tt end) ;;
  let! c := my connected_ in
  let! m := my master_nic_ in
  (if c && m then call FpgaClose ;; ret tt else ret tt) ;;
  massert_my (fun n => negb (perf_thread_ n)).
End driver.
