(* ===== verification/NicProtocol.v ===== *)
(** * What the NIC driver tells the hardware

    Theorems on the driver of [NicCcip]: the words it writes (the host's MAC
    address, the connection setup frames), the bounded waits, and the exact
    exchange of a connection setup, for every behaviour of the platform. *)

From S2P Require Import Prelude Wire ConnectionManager Host HssiCsrs Hssi NicCcip.

(** ** Words *)

Definition is_int (x : Z) : Prop := - 2 ^ 31 <= x < 2 ^ 31.

Lemma is_int_shiftr x : is_int x <-> Z.shiftr x 31 = 0 \/ Z.shiftr x 31 = -1.
Proof. unfold is_int. rewrite Z.shiftr_div_pow2 by lia. div_lia. Qed.

Lemma is_int_lor x y : is_int x -> is_int y -> is_int (Z.lor x y).
Proof.
  rewrite !is_int_shiftr, Z.shiftr_lor. by intros [-> | ->] [-> | ->]; simpl; auto.
Qed.

Lemma is_int_shl_byte x n : in_width 8 x -> 0 <= n <= 16 -> is_int (Z.shiftl x n).
Proof.
  intros Hx Hn. unfold is_int, in_width in *. rewrite Z.shiftl_mul_pow2 by lia.
  assert (2 ^ n <= 2 ^ 16) by (apply Z.pow_le_mono_r; lia).
  assert (0 < 2 ^ n) by lia. nia.
Qed.

Lemma is_int_of x : is_int (int_of x).
Proof. unfold is_int, int_of. pose proof (Z.mod_pos_bound (x + 2 ^ 31) (2 ^ 32)). lia. Qed.

Definition wf_phy (p : PhyAddr) : Prop :=
  in_width 8 (b0 p) /\ in_width 8 (b1 p) /\ in_width 8 (b2 p) /\
  in_width 8 (b3 p) /\ in_width 8 (b4 p) /\ in_width 8 (b5 p).

(** The 48-bit MAC address, [b0] in the most significant byte. *)
Definition mac (p : PhyAddr) : Z :=
  b5 p + b4 p * 2 ^ 8 + b3 p * 2 ^ 16 + b2 p * 2 ^ 24 + b1 p * 2 ^ 32 + b0 p * 2 ^ 40.

Section words.
Context {D : Type} `{PlatformLaws D}.

Lemma phy_addr_word_range p :
  wf_phy p -> phy_addr_word p < 2 ^ 31 \/ 2 ^ 64 - 2 ^ 31 <= phy_addr_word p.
Proof.
  intros (?&?&?&?&?&?). unfold phy_addr_word, wrap.
  match goal with |- context [?x mod _] => assert (is_int x) as Hi end.
  { repeat apply is_int_lor; try apply wide_shl_int; try apply is_int_of;
      try (apply is_int_shl_byte; [done|lia]). unfold is_int, in_width in *. lia. }
  revert Hi. unfold is_int. generalize (Z.lor (b5 p)). intros f. div_lia.
Qed.
End words.

(** The MAC address does not reach the hardware: shifted as an [int], the
    address of a host whose first two bytes are not both zero is never the value
    written to [iRegPhyNetAddr], whatever an [int] shift by 32 or 40 gives. *)
Theorem phy_addr_lost {D} `{PlatformLaws D} (p : PhyAddr) :
  wf_phy p -> (b0 p <> 0 \/ b1 p <> 0) -> phy_addr_word p <> mac p.
Proof.
  intros Hp Hne Heq. pose proof (phy_addr_word_range p Hp) as Hr. rewrite Heq in Hr.
  destruct Hp as (?&?&?&?&?&?). unfold mac, in_width in *. lia.
Qed.

(** The address of [RpcThreadedServer::init_nic]. *)
Definition server_phy_addr : PhyAddr :=
  {| b0 := 0x1A; b1 := 0x2B; b2 := 0x3C; b3 := 0x4D; b4 := 0x5E; b5 := 0xFF |}.

Lemma phy_addr_lost_witness :
  @phy_addr_word nat (scripted (always 0)) server_phy_addr <> mac server_phy_addr.
Proof.
  apply (@phy_addr_lost nat _ (scripted_laws (always 0)));
    [unfold wf_phy, in_width; cbn; lia | left; done].
Defined.

(** ** Connection setup frames *)

(** What the hardware decodes from a word written to [iRegConnSetupFrame]. *)
Definition decode_frame (w : Z) : ConnSetupFrame :=
  {| data := field w 0 32; cmd := field w 32 3 |}.

Lemma encode_frame_sum f : encode_frame f = u32 (data f) + wrap 3 (cmd f) * 2 ^ 32.
Proof.
  unfold encode_frame. rewrite Z.shiftl_mul_pow2 by lia.
  apply lor_disjoint; [lia | auto with word].
Qed.

Lemma frame_word_sum f b :
  frame_word f b = u32 (data f) + wrap 3 (cmd f) * 2 ^ 32 + wrap 24 b * 2 ^ 40.
Proof.
  unfold frame_word. rewrite Z.shiftl_mul_pow2, encode_frame_sum by lia.
  apply lor_disjoint; [lia|].
  assert (in_width 32 (u32 (data f))) by auto with word.
  assert (in_width 3 (wrap 3 (cmd f))) by auto with word.
  unfold in_width in *. lia.
Qed.

(** A setup frame survives the over-wide read: whatever three bytes lie
    behind it on the stack, the word written is a 64-bit word, the hardware
    decodes the data and the command from it, and its padding bits are zero. *)
Theorem frame_roundtrip (f : ConnSetupFrame) (behind : Z) :
  in_width 32 (data f) -> in_width 3 (cmd f) ->
  in_width 64 (frame_word f behind) /\
  decode_frame (frame_word f behind) = f /\
  field (frame_word f behind) 35 5 = 0.
Proof.
  intros Hd Hc. rewrite frame_word_sum.
  rewrite (wrap_small 32 (data f)), (wrap_small 3 (cmd f)) by done.
  assert (in_width 24 (wrap 24 behind)) as Hb by auto with word.
  revert Hb. generalize (wrap 24 behind). intros b Hb. destruct f as [d c]. cbn in *.
  unfold decode_frame. rewrite !field_alt by lia. unfold in_width in *.
  split; [lia|]. split; [f_equal|]; div_lia.
Qed.

Lemma frame_roundtrip_witness :
  in_width 64 (frame_word {| data := 7; cmd := setUpEnable |} 0xABCDEF) /\
  decode_frame (frame_word {| data := 7; cmd := setUpEnable |} 0xABCDEF)
    = {| data := 7; cmd := setUpEnable |} /\
  field (frame_word {| data := 7; cmd := setUpEnable |} 0xABCDEF) 35 5 = 0.
Proof. apply frame_roundtrip; unfold in_width, setUpEnable; cbn; lia. Defined.

(** ** The exchange of a connection setup *)

Section calls.
Context {D : Type} `{Platform D}.
Implicit Types s : sys NicCCIP D.

Lemma wp_read_reg {A} off (k : fpga_result * Z -> M (sys NicCCIP D) A) Q s :
  (forall r v s',
     grows s [{| ev_call := ReadMMIO64 (u64 (base_nic_addr_ (obj s) + off));
                 ev_res := r; ev_val := v |}] s' -> wp (k (r, v)) Q s') ->
  wp (bind (read_reg off) k) Q s.
Proof.
  intros Hk. unfold read_reg. apply wp_assoc. apply wp_bind. unfold my, gets, wp at 1.
  by apply wp_call.
Qed.

Lemma wp_write_reg {A} off w (k : fpga_result -> M (sys NicCCIP D) A) Q s :
  (forall r v s',
     grows s [{| ev_call := WriteMMIO64 (u64 (base_nic_addr_ (obj s) + off)) w;
                 ev_res := r; ev_val := v |}] s' -> wp (k r) Q s') ->
  wp (bind (write_reg off w) k) Q s.
Proof.
  intros Hk. unfold write_reg. apply wp_assoc. apply wp_bind. unfold my, gets, wp at 1.
  unfold writeMMIO64. apply wp_assoc, wp_call. intros r v s' Hg.
  apply wp_bind. unfold ret, wp at 1. by eapply Hk.
Qed.

Lemma wp_sleep {A} n (k : unit -> M (sys NicCCIP D) A) Q s :
  (forall r v s', grows s [{| ev_call := Delay (n * 10 ^ 9); ev_res := r; ev_val := v |}] s' ->
     wp (k tt) Q s') ->
  wp (bind (sleep n) k) Q s.
Proof.
  intros Hk. unfold sleep. apply wp_assoc, wp_call. intros r v s' Hg.
  apply wp_bind. unfold ret, wp at 1. by eapply Hk.
Qed.

Lemma wp_massert_my {A} b (k : unit -> M (sys NicCCIP D) A) Q s :
  b (obj s) = true -> wp (k tt) Q s -> wp (bind (massert_my b) k) Q s.
Proof.
  intros Hb Hk. unfold massert_my. apply wp_assoc. apply wp_bind. unfold my, gets, wp at 1.
  apply wp_bind. unfold massert, wp at 1. by rewrite Hb.
Qed.
End calls.

(** The hardware accepted connection [c] in the answer to a status read. *)
Definition accepted (c : Z) (v : Z) : bool :=
  let st := decode_conn_status (u64 v) in
  acknowledged c st && (error_status st =? cOK).

Definition poll_of (base : Z) (e d : io_event) : Prop :=
  ev_call e = ReadMMIO64 (u64 (base + iRegConnStatus)) /\
  ev_call d = Delay (NIC_INIT_DELAY_S * 10 ^ 9).

(** [verdict base c n r l]: polling at most [n] times gave the answers [l], from
    which the driver returns [r]. *)
Inductive verdict (base c : Z) : nat -> Z -> list io_event -> Prop :=
| verdict_error n e :
    ev_call e = ReadMMIO64 (u64 (base + iRegConnStatus)) -> ev_res e <> FPGA_OK ->
    verdict base c (S n) 1 [e]
| verdict_last n r e d :
    poll_of base e d -> ev_res e = FPGA_OK ->
    acknowledged c (decode_conn_status (u64 (ev_val e))) = true \/ n = O ->
    r = (if accepted c (ev_val e) then 0 else 1) ->
    verdict base c (S n) r [e; d]
| verdict_more n e d r l :
    poll_of base e d -> ev_res e = FPGA_OK -> accepted c (ev_val e) = false ->
    verdict base c n r l -> verdict base c (S n) r (e :: d :: l).

(** A frame written to the hardware, and taken. *)
Definition frame_sent (base : Z) (f : ConnSetupFrame) (e : io_event) : Prop :=
  (exists b, ev_call e = WriteMMIO64 (u64 (base + iRegConnSetupFrame)) (frame_word f b)) /\
  ev_res e = FPGA_OK.

(** The setup sends [fs] in order, then polls; it fails early only when a write
    is refused. *)
Inductive exchange (base c : Z) : list ConnSetupFrame -> Z -> list io_event -> Prop :=
| exchange_polls r l :
    verdict base c NIC_INIT_TIMEOUT r l -> exchange base c [] r l
| exchange_sent f fs r e l :
    frame_sent base f e -> exchange base c fs r l -> exchange base c (f :: fs) r (e :: l)
| exchange_refused f fs e :
    ev_res e <> FPGA_OK -> exchange base c (f :: fs) 1 [e].

Section setup.
Context {D : Type} `{Platform D}.
Implicit Types s : sys NicCCIP D.

(** [m] runs to an exchange of the frames [fs]. *)
Definition exchanges (c : Z) (fs : list ConnSetupFrame) (m : M (sys NicCCIP D) Z) : Prop :=
  forall s, wp m (fun r s' => exists l, grows s l s' /\
                    exchange (base_nic_addr_ (obj s)) c fs r l) s.

Lemma conn_answer c v (Q : Z -> sys NicCCIP D -> Prop) s :
  Q (if accepted c v then 0 else 1) s ->
  wp (if negb (acknowledged c (decode_conn_status (u64 v))) then ret 1
      else if error_status (decode_conn_status (u64 v)) =? cOK then ret 0 else ret 1) Q s.
Proof.
  unfold accepted. by destruct (acknowledged _ _), (error_status _ =? _).
Qed.

Lemma wait_conn_verdict c n s :
  wp (let! r := wait_conn c (S n) in
      match r with
      | None => ret 1
      | Some st => if negb (acknowledged c st) then ret 1
                   else if error_status st =? cOK then ret 0 else ret 1
      end)
    (fun r s' => exists l, grows s l s' /\ verdict (base_nic_addr_ (obj s)) c (S n) r l) s.
Proof.
  revert s. induction n as [|n IH]; intros s; cbn [wait_conn]; apply wp_assoc, wp_read_reg;
    intros r v s1 G1; cbn [fst snd]; destruct (is_ok r) eqn:Er; cbn [negb].
  2, 4: eexists; (split; [exact G1|]); apply verdict_error; [done|]; cbn; by intros ->.
  all: apply is_ok_true in Er; subst r; apply wp_assoc, wp_sleep; intros r2 v2 s2 G2;
    pose proof (grows_trans _ _ _ _ _ G1 G2) as G; cbn [app] in G.
  - rewrite andb_false_r. apply wp_bind. unfold ret at 1, wp at 1. apply conn_answer.
    eexists. split; [exact G|]. apply verdict_last; [split; reflexivity|reflexivity|by right|reflexivity].
  - cbn [Nat.eqb negb]. rewrite andb_true_r.
    destruct (acknowledged c (decode_conn_status (u64 v))) eqn:Ea; cbn [negb].
    + apply wp_bind. unfold ret at 1, wp at 1. apply conn_answer. eexists. split; [exact G|].
      apply verdict_last; [split; reflexivity|reflexivity|by left|reflexivity].
    + eapply wp_mono; [|apply IH]. intros r s' (l & Gl & Hl). eexists.
      split; [exact (grows_trans _ _ _ _ _ G Gl)|].
      destruct G as [Ho _]. rewrite Ho in Hl. apply verdict_more; [split; reflexivity|reflexivity| |exact Hl].
      unfold accepted. cbn [ev_val]. by rewrite Ea.
Qed.

Lemma conn_result_exchanges c : exchanges c [] (conn_result c).
Proof.
  intros s. eapply wp_mono; [|apply (wait_conn_verdict c 14)].
  intros r s' (l & Hg & Hv). exists l. split; [done|]. by apply exchange_polls.
Qed.

Lemma write_frame_exchanges c d cm fs k :
  exchanges c fs k ->
  exchanges c ({| data := d; cmd := cm |} :: fs) (or_fail (write_frame d cm) k).
Proof.
  intros Hk s. unfold or_fail, write_frame. apply wp_assoc, wp_bind.
  unfold junk, gets, wp at 1. apply wp_write_reg. intros r v s1 G1.
  destruct (is_ok r) eqn:Er.
  - eapply wp_mono; [|apply Hk]. intros r' s' (l & Gl & Hl). eexists.
    split; [exact (grows_trans _ _ _ _ _ G1 Gl)|]. destruct G1 as [Ho _]. rewrite Ho in Hl.
    apply exchange_sent; [|exact Hl]. split; [by eexists|]. by apply is_ok_true.
  - eexists. split; [exact G1|]. apply exchange_refused. cbn. by intros ->.
Qed.

(** A scope that holds a free lock runs, and frees it. *)
Lemma wp_with_lock {A} held set (m : M (sys NicCCIP D) A) (Q : A -> sys NicCCIP D -> Prop) s :
  held (obj s) = false ->
  wp m (fun a s' => Q a (Sys (set false (obj s')) (wld s'))) (Sys (set true (obj s)) (wld s)) ->
  wp (with_lock held set m) Q s.
Proof.
  intros Hf Hm. unfold with_lock. apply wp_bind. unfold my, gets, wp at 1. rewrite Hf.
  apply wp_bind. unfold update, modify, wp at 1. apply wp_bind.
  eapply wp_mono; [|exact Hm]. done.
Qed.

(** Under the hardware lock, an exchange leaves the object as it was. *)
Lemma locked_exchange c fs m s :
  connected_ (obj s) = true -> conn_setup_hw_mtx_ (obj s) = false -> exchanges c fs m ->
  wp (massert_my connected_ ;; with_lock conn_setup_hw_mtx_ set_conn_setup_hw_mtx m)
    (fun r s' => exists l, grows s l s' /\ exchange (base_nic_addr_ (obj s)) c fs r l) s.
Proof.
  intros Hc Hl Hm. apply wp_massert_my; [done|]. apply wp_with_lock; [done|].
  eapply wp_mono; [|apply Hm]. cbn [obj wld]. intros r s' (l & [Ho Ht] & He). exists l.
  cbn [obj wld] in Ho, Ht. rewrite Ho in *. destruct s as [n w]. cbn in *.
  destruct n; cbn in *; subst. split; [split|]; done.
Qed.
End setup.

Definition register_frames (c : Z) (dest : IPv4) (flow : Z) : list ConnSetupFrame :=
  [ {| data := c; cmd := setUpConnId |}; {| data := cOpen; cmd := setUpOpen |};
    {| data := get_addr dest; cmd := setUpDestIPv4 |};
    {| data := get_port dest; cmd := setUpDestPort |};
    {| data := flow; cmd := setUpClientFlowId |}; {| data := 1; cmd := setUpEnable |} ].

Definition remove_frames (c : Z) : list ConnSetupFrame :=
  [ {| data := c; cmd := setUpConnId |}; {| data := cClose; cmd := setUpOpen |};
    {| data := 1; cmd := setUpEnable |} ].

(** What an exchange that succeeded says: all frames were taken, in order, and the
    last of at most fifteen polls accepted the connection. *)
Definition granted (base c : Z) (fs : list ConnSetupFrame) (l : list io_event) : Prop :=
  exists ws ps e d,
    l = ws ++ ps ++ [e; d] /\ Forall2 (frame_sent base) fs ws /\
    (length ps + 2 <= 2 * NIC_INIT_TIMEOUT)%nat /\ poll_of base e d /\
    ev_res e = FPGA_OK /\ accepted c (ev_val e) = true.

(** What an exchange that failed says: the hardware refused an access, or its last
    answer does not accept the connection. *)
Definition denied (c : Z) (l : list io_event) : Prop :=
  (exists e, e ∈ l /\ ev_res e <> FPGA_OK) \/
  (exists pre e d, l = pre ++ [e; d] /\ accepted c (ev_val e) = false).

Lemma verdict_cases base c n r l :
  verdict base c n r l ->
  (r = 0 /\ exists ps e d, l = ps ++ [e; d] /\ (length ps + 2 <= 2 * n)%nat /\
     poll_of base e d /\ ev_res e = FPGA_OK /\ accepted c (ev_val e) = true) \/
  (r = 1 /\ denied c l).
Proof.
  induction 1 as [n e Hc Hr|n r e d Hp Hr Ha ->|n e d r l Hp Hr Ha Hv IH].
  - right. split; [done|]. left. exists e. set_solver.
  - destruct (accepted c (ev_val e)) eqn:E; [left|right]; (split; [done|]).
    + exists [], e, d. simpl. repeat split; try done; try apply Hp. lia.
    + right. by exists [], e, d.
  - destruct IH as [(-> & ps & e' & d' & -> & Hn & Hpoll & Hr' & Ha')|[-> Hd]]; [left|right].
    + split; [done|]. exists (e :: d :: ps), e', d'. simpl.
      repeat split; try done; try apply Hpoll. lia.
    + split; [done|]. destruct Hd as [(e' & Hin & He')|(pre & e' & d' & -> & Ha')].
      * left. exists e'. set_solver.
      * right. by exists (e :: d :: pre), e', d'.
Qed.

Lemma exchange_cases base c fs r l :
  exchange base c fs r l -> (r = 0 /\ granted base c fs l) \/ (r = 1 /\ denied c l).
Proof.
  induction 1 as [r l Hv|f fs r e l Hf He IH|f fs e He].
  - apply verdict_cases in Hv as [(-> & ps & e & d & -> & Hn & Hp)|[-> Hd]]; [left|by right].
    split; [done|]. exists [], ps, e, d. by split; [|split].
  - destruct IH as [(-> & ws & ps & e' & d' & -> & Hws & Hrest)|[-> Hd]]; [left|right].
    + split; [done|]. exists (e :: ws), ps, e', d'. split; [done|]. split; [by constructor|done].
    + split; [done|]. destruct Hd as [(e' & Hin & He')|(pre & e' & d' & -> & Ha')].
      * left. exists e'. set_solver.
      * right. by exists (e :: pre), e', d'.
  - right. split; [done|]. left. exists e. set_solver.
Qed.

Section connections.
Context {D : Type} `{Platform D}.
Implicit Types s : sys NicCCIP D.

Lemma register_exchange c dest flow s :
  connected_ (obj s) = true -> conn_setup_hw_mtx_ (obj s) = false ->
  wp (register_connection c dest flow)
    (fun r s' => exists l, grows s l s' /\
       exchange (base_nic_addr_ (obj s)) c (register_frames c dest flow) r l) s.
Proof.
  intros Hc Hl. apply locked_exchange; [done..|].
  repeat apply write_frame_exchanges. apply conn_result_exchanges.
Qed.

Lemma remove_exchange c s :
  connected_ (obj s) = true -> conn_setup_hw_mtx_ (obj s) = false ->
  wp (remove_connection c)
    (fun r s' => exists l, grows s l s' /\
       exchange (base_nic_addr_ (obj s)) c (remove_frames c) r l) s.
Proof.
  intros Hc Hl. apply locked_exchange; [done..|].
  repeat apply write_frame_exchanges. apply conn_result_exchanges.
Qed.

(** The driver is connected and no thread is in a connection setup. *)
Record setup_ready (n : NicCCIP) : Prop := {
  sr_connected : connected_ n = true;
  sr_mtx : conn_setup_mtx_ n = false;
  sr_hw_mtx : conn_setup_hw_mtx_ n = false;
  sr_cm : cm_inv (conn_manager_ n)
}.

Lemma wp_cm_method {A} (m : M ConnectionManager A) (Q : A -> sys NicCCIP D -> Prop) s :
  wp m (fun a cm => Q a (Sys (set_conn_manager cm (obj s)) (wld s))) (conn_manager_ (obj s)) ->
  wp (cm_method m) Q s.
Proof.
  unfold cm_method, pure_method, zoom, wp. by destruct (m (conn_manager_ (obj s))).
Qed.

(** [moved s cm l s']: since [s] only the connection manager changed, to [cm], and
    [l] was recorded. *)
Definition moved s (cm : ConnectionManager) (l : list io_event) s' : Prop :=
  obj s' = set_conn_manager cm (obj s) /\ trace (wld s') = trace (wld s) ++ l /\ cm_inv cm.

(** Taking and freeing the setup lock around an operation on the manager. *)
Lemma locked_setup {A} (m : M (sys NicCCIP D) A) (R : A -> ConnectionManager -> list io_event -> Prop) s :
  setup_ready (obj s) ->
  (forall s1, setup_ready (set_conn_setup_mtx false (obj s1)) ->
     conn_manager_ (obj s1) = conn_manager_ (obj s) ->
     base_nic_addr_ (obj s1) = base_nic_addr_ (obj s) ->
     wp m (fun a s' => exists cm l, moved s1 cm l s' /\ R a cm l) s1) ->
  wp (with_lock conn_setup_mtx_ set_conn_setup_mtx m)
    (fun a s' => exists cm l, moved s cm l s' /\ R a cm l) s.
Proof.
  intros [Hc Hm Hh Hcm] H1. apply wp_with_lock; [done|].
  destruct s as [n w]. destruct n. cbn in *. subst.
  eapply wp_mono; [|apply H1; [by split|done|done]].
  intros a [n' w'] (cm & l & (Ho & Ht & Hi) & Hr). cbn in *. subst n'.
  exists cm, l. split; [by split | done].
Qed.

(** [exchange] on a state whose manager may have changed before. *)
Lemma moved_grows s cm l s' :
  cm_inv cm -> grows (Sys (set_conn_manager cm (obj s)) (wld s)) l s' -> moved s cm l s'.
Proof. by intros Hi [Ho Ht]. Qed.

Lemma cm_spec_rc r call rc id r' : cm_spec r call (rc, id) r' -> rc = 0 \/ rc = 1.
Proof. inversion 1; auto. Qed.

Lemma base_set_cm cm n : base_nic_addr_ (set_conn_manager cm n) = base_nic_addr_ n.
Proof. by destruct n. Qed.
Lemma connected_set_cm cm n : connected_ (set_conn_manager cm n) = connected_ n.
Proof. by destruct n. Qed.
Lemma hw_mtx_set_cm cm n : conn_setup_hw_mtx_ (set_conn_manager cm n) = conn_setup_hw_mtx_ n.
Proof. by destruct n. Qed.
Lemma set_cm_id n : set_conn_manager (conn_manager_ n) n = n.
Proof. by destruct n. Qed.
Lemma ready_lock n b :
  setup_ready (set_conn_setup_mtx b n) ->
  connected_ n = true /\ conn_setup_hw_mtx_ n = false /\ cm_inv (conn_manager_ n).
Proof. destruct n. by intros []. Qed.
End connections.

Section connection_api.
Context {D : Type} `{Platform D}.
Implicit Types s : sys NicCCIP D.

(** C20. Opening a connection, for every behaviour of the hardware: the driver
    returns.  When the pool of ids is exhausted it fails and touches nothing.
    Otherwise the manager opens a fresh id, the six setup frames are sent in order
    and the status is polled at most fifteen times; 0 is returned exactly when the
    hardware accepted the connection, and 1 when it refused or did not answer.  In
    that last case too the manager keeps the connection open. *)
Theorem open_connection_exchange s (c : Z) (dest : IPv4) (flow : Z) :
  setup_ready (obj s) ->
  wp (open_connection c dest flow) (fun '(rc, id) s' => exists cm l, moved s cm l s' /\
    ((rc = 1 /\ l = [] /\ cm_spec (abs (conn_manager_ (obj s))) (Open c dest flow) (1, id) (abs cm))
     \/ (cm_spec (abs (conn_manager_ (obj s))) (Open c dest flow) (0, id) (abs cm) /\
         ((rc = 0 /\ granted (base_nic_addr_ (obj s)) id (register_frames id dest flow) l)
          \/ (rc = 1 /\ denied id l))))) s.
Proof.
  intros Hs. eapply wp_mono; [|apply (locked_setup _ (fun r cm l =>
    (r.1 = 1 /\ l = [] /\ cm_spec (abs (conn_manager_ (obj s))) (Open c dest flow) (1, r.2) (abs cm))
     \/ (cm_spec (abs (conn_manager_ (obj s))) (Open c dest flow) (0, r.2) (abs cm) /\
         ((r.1 = 0 /\ granted (base_nic_addr_ (obj s)) r.2 (register_frames r.2 dest flow) l)
          \/ (r.1 = 1 /\ denied r.2 l)))) s Hs)].
  { by intros [rc id] s'. }
  intros s1 (Hc & Hh & Hi)%ready_lock Hcm Hb. apply wp_bind, wp_cm_method.
  eapply wp_mono; [|by apply open_call].
  intros [rc id] cm [Hi' Hsp]. rewrite Hcm in Hsp. destruct (cm_spec_rc _ _ _ _ _ Hsp) as [-> | ->]; cbn [fst snd Z.eqb negb].
  - apply wp_bind. eapply wp_mono;
      [|apply register_exchange; cbn [obj]; by rewrite ?connected_set_cm, ?hw_mtx_set_cm].
    cbn [obj]. intros r s2 (l & Hg & He). rewrite base_set_cm, Hb in He.
    apply exchange_cases in He as [[-> Hgr]|[-> Hd]]; exists cm, l;
      (split; [by apply moved_grows|]); right; by eauto.
  - exists cm, []. split; [by split; rewrite ?app_nil_r|]. by left.
Qed.

(** Closing a connection, for every behaviour of the hardware: the driver
    returns, and the manager forgets the connection only after the hardware took
    the three frames of the removal and acknowledged it; when the hardware refuses
    or does not answer, the connection stays open in the manager. *)
Theorem close_connection_exchange s (c : Z) :
  setup_ready (obj s) ->
  wp (close_connection c) (fun rc s' => exists cm l, moved s cm l s' /\
    ((granted (base_nic_addr_ (obj s)) c (remove_frames c) l /\
      cm_spec (abs (conn_manager_ (obj s))) (Close c) (rc, c) (abs cm))
     \/ (rc = 1 /\ denied c l /\ cm = conn_manager_ (obj s)))) s.
Proof.
  intros Hs. eapply wp_mono; [|apply (locked_setup _ (fun rc cm l =>
    (granted (base_nic_addr_ (obj s)) c (remove_frames c) l /\
      cm_spec (abs (conn_manager_ (obj s))) (Close c) (rc, c) (abs cm))
     \/ (rc = 1 /\ denied c l /\ cm = conn_manager_ (obj s))) s Hs)]; [done|].
  intros s1 (Hc & Hh & Hi)%ready_lock Hcm Hb. apply wp_bind.
  eapply wp_mono; [|by apply remove_exchange].
  intros r s2 (l & [Ho Ht] & He). rewrite Hb in He.
  apply exchange_cases in He as [[-> Hg]|[-> Hd]]; cbn [Z.eqb negb].
  - apply wp_bind, wp_cm_method. pose proof (close_call c (conn_manager_ (obj s2))) as Hcl.
    rewrite Ho in Hcl |- *. specialize (Hcl Hi). apply wp_bind_inv in Hcl.
    eapply wp_mono; [|exact Hcl]. intros rc cm [Hi' Hsp]. rewrite Hcm in Hsp.
    destruct (cm_spec_rc _ _ _ _ _ Hsp) as [-> | ->]; cbn [Z.eqb negb];
      exists cm, l; (split; [by split|]); by left.
  - exists (conn_manager_ (obj s1)), l. rewrite Hcm. split; [|by right].
    split; [|split; [done|by rewrite <- Hcm]]. by rewrite Ho, <- Hcm, set_cm_id.
Qed.
End connection_api.

(** A driver connected to a device that refuses every register write. *)
Definition refusing : nat -> io_call -> fpga_result * Z :=
  fun _ c => match c with WriteMMIO64 _ _ => (FPGA_BUSY, 0) | _ => (FPGA_OK, 0) end.

Definition connected_nic : NicCCIP := set_connected true (NicCCIP_ctor 0 0x30000 4 true).

Lemma connected_nic_ready : setup_ready connected_nic.
Proof. split; [done..|]. apply cm_inv_ctor. by vm_compute. Qed.

(** The refused connection is open in the manager. *)
Lemma open_connection_exchange_witness :
  exists id s', open_connection (H := scripted refusing) 77 test_addr 2 (boot connected_nic)
                  = Ret (1, id) s' /\
    open_connections_ (conn_manager_ (obj s')) !! id = Some (test_addr, 2).
Proof.
  pose proof (open_connection_exchange (H := scripted refusing) (boot connected_nic)
                77 test_addr 2 connected_nic_ready) as Hw.
  apply wp_ret_inv in Hw as ([rc id] & s' & E & cm & l & (Ho & _) & Hcase).
  exists id, s'.
  assert (rc = 1) as -> by (vm_compute in E; congruence).
  split; [exact E|]. rewrite Ho. cbn.
  destruct Hcase as [(_ & _ & Hs)|(Hs & _)]; inversion Hs as [? ? ? ? ? ? ? ? E1| | | | |]; subst.
  - exfalso. match goal with Hn : ~ room _ |- _ => apply Hn end. by vm_compute.
  - destruct cm. cbn in *. subst. apply lookup_insert_eq.
Defined.

(** A device that acknowledges connection 0. *)
Definition accepting : nat -> io_call -> fpga_result * Z := always (2 ^ 32).

Definition nic_with_connection : NicCCIP :=
  set_conn_manager (insert_open 0 test_addr 2 (seqZ 1 103) (ConnectionManager_ctor 104))
    connected_nic.

Lemma nic_with_connection_ready : setup_ready nic_with_connection.
Proof.
  split; [done..|]. apply cm_inv_insert; [apply cm_inv_ctor; lia|]. by vm_compute.
Qed.

Lemma close_connection_exchange_witness :
  exists s', close_connection (H := scripted accepting) 0 (boot nic_with_connection) = Ret 0 s' /\
    open_connections_ (conn_manager_ (obj s')) !! 0 = None.
Proof.
  pose proof (close_connection_exchange (H := scripted accepting) (boot nic_with_connection)
                0 nic_with_connection_ready) as Hw.
  apply wp_ret_inv in Hw as (rc & s' & E & cm & l & (Ho & _) & Hcase). exists s'.
  assert (rc = 0) as -> by (vm_compute in E; congruence).
  split; [exact E|]. destruct Hcase as [(_ & Hs)|(? & _)]; [|done].
  rewrite Ho. inversion Hs; subst. destruct cm. cbn in *. subst. apply lookup_delete_eq.
Defined.
