(* ===== verification/NicModes.v ===== *)
(** * The three CPU-NIC interfaces

    [NicPollingCCIP], [NicDmaCCIP] and [NicMmioCCIP] (src/sw/src/nic_impl:
    nic_ccip_polling, nic_ccip_dma, nic_ccip_mmio) extend [NicCCIP] with a data
    plane: the buffers shared with the FPGA and the registers that tell the
    hardware where they are.  A derived object has its base as a field; [lift] runs
    a method of the base on it. *)

From S2P Require Import Prelude Wire ConnectionManager Host HssiCsrs Hssi NicCcip.

Definition CL (x : Z) : Z := x * cfg.cl_size_bytes.

(** ** Derived classes *)
Class Derived (N : Type) := {
  base : N -> NicCCIP;
  set_base : NicCCIP -> N -> N
}.

Class DerivedLaws (N : Type) `{Derived N} := {
  base_set b (n : N) : base (set_base b n) = b;
  set_base_base (n : N) : set_base (base n) n = n;
  set_base_twice b b' (n : N) : set_base b (set_base b' n) = set_base b n
}.

Definition lift {N D A} `{Derived N} (m : M (sys NicCCIP D) A) : M (sys N D) A :=
  method base set_base m.

(** The ring buffers of the polling and DMA nics, which have the same fields. *)
Record RingBuffers := {
  num_of_flows_ : Z;
  wsid_ : Z;
  buf_pa_ : Z;
  buf_ : Z;
  tx_offset_bytes_ : Z;
  rx_offset_bytes_ : Z;
  tx_buff_size_bytes_ : Z;
  rx_buff_size_bytes_ : Z;
  tx_queue_size_bytes_ : Z;
  rx_queue_size_bytes_ : Z
}.

(** [wsid_] and [buf_pa_] are not initialised. *)
Definition RingBuffers_ctor (indet num_of_flows : Z) : RingBuffers :=
  {| num_of_flows_ := num_of_flows; wsid_ := indet; buf_pa_ := indet; buf_ := 0;
     tx_offset_bytes_ := 0; rx_offset_bytes_ := 0; tx_buff_size_bytes_ := 0;
     rx_buff_size_bytes_ := 0; tx_queue_size_bytes_ := 0; rx_queue_size_bytes_ := 0 |}.

Definition set_sizes (l_tx l_rx : Z) (b : RingBuffers) : RingBuffers :=
  let txq := u64 (get_mtu_size_bytes * Z.shiftl 1 l_tx) in
  let rxq := u64 (get_mtu_size_bytes * Z.shiftl 1 l_rx) in
  {| num_of_flows_ := num_of_flows_ b; wsid_ := wsid_ b; buf_pa_ := buf_pa_ b; buf_ := buf_ b;
     tx_offset_bytes_ := tx_offset_bytes_ b; rx_offset_bytes_ := rx_offset_bytes_ b;
     tx_buff_size_bytes_ := u64 (num_of_flows_ b * txq);
     rx_buff_size_bytes_ := u64 (num_of_flows_ b * rxq);
     tx_queue_size_bytes_ := txq; rx_queue_size_bytes_ := rxq |}.

Definition set_buffer (buf wsid pa : Z) (b : RingBuffers) : RingBuffers :=
  {| num_of_flows_ := num_of_flows_ b; wsid_ := wsid; buf_pa_ := pa; buf_ := buf;
     tx_offset_bytes_ := tx_offset_bytes_ b; rx_offset_bytes_ := rx_offset_bytes_ b;
     tx_buff_size_bytes_ := tx_buff_size_bytes_ b; rx_buff_size_bytes_ := rx_buff_size_bytes_ b;
     tx_queue_size_bytes_ := tx_queue_size_bytes_ b;
     rx_queue_size_bytes_ := rx_queue_size_bytes_ b |}.

Definition set_offsets (b : RingBuffers) : RingBuffers :=
  {| num_of_flows_ := num_of_flows_ b; wsid_ := wsid_ b; buf_pa_ := buf_pa_ b; buf_ := buf_ b;
     tx_offset_bytes_ := 0; rx_offset_bytes_ := u64 (0 + tx_buff_size_bytes_ b);
     tx_buff_size_bytes_ := tx_buff_size_bytes_ b; rx_buff_size_bytes_ := rx_buff_size_bytes_ b;
     tx_queue_size_bytes_ := tx_queue_size_bytes_ b;
     rx_queue_size_bytes_ := rx_queue_size_bytes_ b |}.

Definition ring_tx_flow_buffer (b : RingBuffers) (flow : Z) : Z :=
  u64 (buf_ b + tx_offset_bytes_ b + flow * tx_queue_size_bytes_ b).
Definition ring_rx_flow_buffer (b : RingBuffers) (flow : Z) : Z :=
  u64 (buf_ b + rx_offset_bytes_ b + flow * rx_queue_size_bytes_ b).
Definition ring_tx_buff_end (b : RingBuffers) : Z :=
  u64 (buf_ b + tx_offset_bytes_ b + tx_buff_size_bytes_ b).
Definition ring_rx_buff_end (b : RingBuffers) : Z :=
  u64 (buf_ b + rx_offset_bytes_ b + rx_buff_size_bytes_ b).

(** Registers written in order; the first refusal ends the sequence. *)
Fixpoint write_regs {D N} `{Platform D} `{Derived N} (ws : list (Z * Z))
    (k : M (sys N D) Z) : M (sys N D) Z :=
  match ws with
  | [] => k
  | (off, v) :: ws' => ok! lift (write_reg off v) ;; write_regs ws' k
  end.

Section modes.
Context {D : Type} `{Platform D}.

(** The [l_tx_queue_size] and [l_rx_queue_size] of the build; [cfg] has the ones of
    the repository. *)
Context (l_tx_queue_size l_rx_queue_size : Z).

(** [start] and [stop] are the same in the three classes. *)
Definition mode_start {N} `{Derived N} : M (sys N D) Z :=
  lift (massert_my dp_configured_ ;; massert_my initialized_ ;; start_nic).
Definition mode_stop {N} `{Derived N} : M (sys N D) Z :=
  lift (massert_my dp_configured_ ;; massert_my initialized_ ;; stop_nic).

(** The derived destructor releases the buffer, then the base's runs. *)
Definition release_and_destroy {N} `{Derived N} (wsid : N -> Z) : M (sys N D) unit :=
  let! dp := my (fun n => dp_configured_ (base n)) in
  let! w := my wsid in
  (if dp then call (ReleaseBuffer w) ;; ret tt else ret tt) ;;
  lift NicCCIP_dtor.

(** The allocation that polling and DMA share; [k] runs on success. *)
Definition alloc_rings {N} `{Derived N} (rings : N -> RingBuffers)
    (set_rings : RingBuffers -> N -> N) (llc_anti_aliasing : Z) (k : M (sys N D) Z)
  : M (sys N D) Z :=
  update (fun n => set_rings (set_sizes l_tx_queue_size l_rx_queue_size (rings n)) n) ;;
  let! b := my rings in
  let! r := lift (alloc_buffer (u64 (tx_buff_size_bytes_ b + rx_buff_size_bytes_ b))
                    (wsid_ b) (buf_pa_ b) llc_anti_aliasing) in
  let '(buf, wsid, pa) := r in
  update (fun n => set_rings (set_buffer buf wsid pa (rings n)) n) ;;
  if buf =? 0 then ret 1
  else update (fun n => set_rings (set_offsets (rings n)) n) ;; k.

(** [NicMode] of the hardware; [k] gets the interface it was built for. *)
Definition read_ccip_mode {N} `{Derived N} (k : Z -> M (sys N D) Z) : M (sys N D) Z :=
  lift (massert_my connected_) ;;
  lift (massert_my (fun n => negb (dp_configured_ n))) ;;
  let! r := lift (read_reg iRegNicMode) in
  if negb (is_ok r.1) then ret 1 else k (ccip_mode (decode_mode (u64 r.2))).

Definition configured {N} `{Derived N} : M (sys N D) Z :=
  lift (update (set_dp_configured true)) ;; ret 0.
End modes.

(** ** Queue polling *)
Module Polling.
Record NicPollingCCIP := { base_ : NicCCIP; rings_ : RingBuffers }.

Definition set_rings (r : RingBuffers) (n : NicPollingCCIP) : NicPollingCCIP :=
  {| base_ := base_ n; rings_ := r |}.

#[global] Instance derived : Derived NicPollingCCIP := {|
  base := base_;
  set_base b n := {| base_ := b; rings_ := rings_ n |}
|}.

#[global] Instance derived_laws : DerivedLaws NicPollingCCIP.
Proof. split; by intros; destruct n. Qed.

Definition ctor (indet base_nic_addr num_of_flows : Z) (master_nic : bool) : NicPollingCCIP :=
  {| base_ := NicCCIP_ctor indet base_nic_addr num_of_flows master_nic;
     rings_ := RingBuffers_ctor indet num_of_flows |}.

Section polling.
Context {D : Type} `{Platform D} (l_tx_queue_size l_rx_queue_size : Z).
Abbreviation nic A := (M (sys NicPollingCCIP D) A).

(** The register writes of the configuration. *)
Definition config_writes (b : RingBuffers) : list (Z * Z) :=
  [ (iRegMemTxAddr, u64 (buf_pa_ b / CL 1 + tx_offset_bytes_ b / CL 1));
    (iRegMemRxAddr, u64 (buf_pa_ b / CL 1 + rx_offset_bytes_ b / CL 1));
    (iRegNumOfFlows, num_of_flows_ b);
    (iRegRxQueueSize, tx_queue_size_bytes_ b / CL 1);
    (iRegTxQueueSize, rx_queue_size_bytes_ b / CL 1);
    (iRegPollingRate, cfg.polling_rate);
    (lRegTxBatchSize, cfg.l_rx_batch_size) ].

(** A hardware of another mode is reported, and not refused. *)
Definition configure_data_plane (llc_anti_aliasing : Z) : nic Z :=
  read_ccip_mode (fun _ =>
    alloc_rings l_tx_queue_size l_rx_queue_size rings_ set_rings llc_anti_aliasing (
      let! b := my rings_ in
      write_regs (config_writes b) configured)).

Definition start : nic Z := mode_start.
Definition stop : nic Z := mode_stop.
Definition dtor : nic unit := release_and_destroy (fun n => wsid_ (rings_ n)).
Definition notify_nic_of_new_dma (flow bucket : Z) : nic Z := ret 0.
End polling.

Definition get_tx_flow_buffer (n : NicPollingCCIP) := ring_tx_flow_buffer (rings_ n).
Definition get_rx_flow_buffer (n : NicPollingCCIP) := ring_rx_flow_buffer (rings_ n).
Definition get_tx_buff_end (n : NicPollingCCIP) := ring_tx_buff_end (rings_ n).
Definition get_rx_buff_end (n : NicPollingCCIP) := ring_rx_buff_end (rings_ n).
End Polling.

(** ** DMA *)
Module Dma.
Record NicDmaCCIP := {
  base_ : NicCCIP;
  rings_ : RingBuffers;
  dma_notification_lock_ : bool
}.

Definition set_rings (r : RingBuffers) (n : NicDmaCCIP) : NicDmaCCIP :=
  {| base_ := base_ n; rings_ := r; dma_notification_lock_ := dma_notification_lock_ n |}.
Definition set_lock (b : bool) (n : NicDmaCCIP) : NicDmaCCIP :=
  {| base_ := base_ n; rings_ := rings_ n; dma_notification_lock_ := b |}.

#[global] Instance derived : Derived NicDmaCCIP := {|
  base := base_;
  set_base b n := {| base_ := b; rings_ := rings_ n;
                     dma_notification_lock_ := dma_notification_lock_ n |}
|}.

#[global] Instance derived_laws : DerivedLaws NicDmaCCIP.
Proof. split; by intros; destruct n. Qed.

Definition ctor (indet base_nic_addr num_of_flows : Z) (master_nic : bool) : NicDmaCCIP :=
  {| base_ := NicCCIP_ctor indet base_nic_addr num_of_flows master_nic;
     rings_ := RingBuffers_ctor indet num_of_flows; dma_notification_lock_ := false |}.

Section dma.
Context {D : Type} `{Platform D} (l_tx_queue_size l_rx_queue_size : Z).
Abbreviation nic A := (M (sys NicDmaCCIP D) A).

Definition config_writes (b : RingBuffers) : list (Z * Z) :=
  [ (iRegMemTxAddr, u64 (buf_pa_ b / CL 1 + tx_offset_bytes_ b / CL 1));
    (iRegMemRxAddr, u64 (buf_pa_ b / CL 1 + rx_offset_bytes_ b / CL 1));
    (iRegNumOfFlows, num_of_flows_ b);
    (lRegRxBatchSize, cfg.tx_batch_size);
    (lRegTxBatchSize, cfg.l_rx_batch_size) ].

Definition configure_data_plane (llc_anti_aliasing : Z) : nic Z :=
  read_ccip_mode (fun mode =>
    if negb (mode =? iConstCcipDma) then ret 1
    else
      alloc_rings l_tx_queue_size l_rx_queue_size rings_ set_rings llc_anti_aliasing (
        let! b := my rings_ in
        write_regs (config_writes b) configured)).

(** The lock is not given back when the write is refused. *)
Definition notify_nic_of_new_dma (flow bucket : Z) : nic Z :=
  let! b := my rings_ in
  massert (flow <? num_of_flows_ b) ;;
  massert (bucket <? tx_queue_size_bytes_ b) ;;
  let! held := my dma_notification_lock_ in
  if held then fun _ => Block
  else
    update (set_lock true) ;;
    let! res := lift (write_reg iRegCcipDmaTrg (u64 (flow + bucket))) in
    if negb (is_ok res) then ret 1
    else update (set_lock false) ;; ret 0.

Definition start : nic Z := mode_start.
Definition stop : nic Z := mode_stop.
Definition dtor : nic unit := release_and_destroy (fun n => wsid_ (rings_ n)).
End dma.

Definition get_tx_flow_buffer (n : NicDmaCCIP) := ring_tx_flow_buffer (rings_ n).
Definition get_rx_flow_buffer (n : NicDmaCCIP) := ring_rx_flow_buffer (rings_ n).
Definition get_tx_buff_end (n : NicDmaCCIP) := ring_tx_buff_end (rings_ n).
Definition get_rx_buff_end (n : NicDmaCCIP) := ring_rx_buff_end (rings_ n).
End Dma.

(** ** MMIO *)
Module Mmio.
Record NicMmioCCIP := {
  base_ : NicCCIP;
  num_of_flows_ : Z;
  buf_ : Z;
  wsid_ : Z;
  buf_pa_ : Z;
  rx_cl_offset_ : Z;
  tx_mmio_buf_ : Z;
  tx_cl_offset_ : Z;
  rx_queue_size_bytes_ : Z
}.

#[global] Instance derived : Derived NicMmioCCIP := {|
  base := base_;
  set_base b n := {| base_ := b; num_of_flows_ := num_of_flows_ n; buf_ := buf_ n;
    wsid_ := wsid_ n; buf_pa_ := buf_pa_ n; rx_cl_offset_ := rx_cl_offset_ n;
    tx_mmio_buf_ := tx_mmio_buf_ n; tx_cl_offset_ := tx_cl_offset_ n;
    rx_queue_size_bytes_ := rx_queue_size_bytes_ n |}
|}.

#[global] Instance derived_laws : DerivedLaws NicMmioCCIP.
Proof. split; by intros; destruct n. Qed.

(** The fields the constructor leaves alone are [indet]. *)
Definition ctor (indet base_nic_addr num_of_flows : Z) (master_nic : bool) : NicMmioCCIP :=
  {| base_ := NicCCIP_ctor indet base_nic_addr num_of_flows master_nic;
     num_of_flows_ := num_of_flows; buf_ := 0; wsid_ := indet; buf_pa_ := indet;
     rx_cl_offset_ := 0; tx_mmio_buf_ := indet; tx_cl_offset_ := 0;
     rx_queue_size_bytes_ := indet |}.

Definition set_rx_queue_size (v : Z) (n : NicMmioCCIP) : NicMmioCCIP :=
  let 'Build_NicMmioCCIP b f bf w pa ro tm to _ := n in Build_NicMmioCCIP b f bf w pa ro tm to v.
Definition set_buffer (buf wsid pa : Z) (n : NicMmioCCIP) : NicMmioCCIP :=
  let 'Build_NicMmioCCIP b f _ _ _ ro tm to rq := n in Build_NicMmioCCIP b f buf wsid pa ro tm to rq.
Definition set_rx_cl_offset (v : Z) (n : NicMmioCCIP) : NicMmioCCIP :=
  let 'Build_NicMmioCCIP b f bf w pa _ tm to rq := n in Build_NicMmioCCIP b f bf w pa v tm to rq.
Definition set_tx_mmio_buf (v : Z) (n : NicMmioCCIP) : NicMmioCCIP :=
  let 'Build_NicMmioCCIP b f bf w pa ro _ to rq := n in Build_NicMmioCCIP b f bf w pa ro v to rq.
Definition set_tx_cl_offset (v : Z) (n : NicMmioCCIP) : NicMmioCCIP :=
  let 'Build_NicMmioCCIP b f bf w pa ro tm _ rq := n in Build_NicMmioCCIP b f bf w pa ro tm v rq.

Section mmio.
Context {D : Type} `{Platform D} (l_tx_queue_size l_rx_queue_size : Z).
Abbreviation nic A := (M (sys NicMmioCCIP D) A).

Definition configure_data_plane (llc_anti_aliasing : Z) : nic Z :=
  read_ccip_mode (fun mode =>
    if negb (mode =? iConstCcipMMIO) then ret 1
    else
      update (set_rx_queue_size (u64 (get_mtu_size_bytes * Z.shiftl 1 l_rx_queue_size))) ;;
      let! n := my (fun n => n) in
      let! r := lift (alloc_buffer (u64 (num_of_flows_ n * rx_queue_size_bytes_ n))
                        (wsid_ n) (buf_pa_ n) llc_anti_aliasing) in
      let '(buf, wsid, pa) := r in
      update (set_buffer buf wsid pa) ;;
      if buf =? 0 then ret 1
      else
        update (set_rx_cl_offset 0) ;;
        let! n := my (fun n => n) in
        ok! lift (write_reg iRegMemRxAddr (u64 (buf_pa_ n / CL 1 + rx_cl_offset_ n))) ;;
        ok! lift (write_reg lRegTxBatchSize cfg.l_rx_batch_size) ;;
        massert (l_tx_queue_size =? 0) ;;
        let! m := call MapMMIO in
        if negb (is_ok m.1) then ret 1
        else
          update (set_tx_mmio_buf m.2) ;;
          if m.2 =? 0 then ret 1
          else
            update (set_tx_cl_offset (u64 (base_nic_addr_ (base_ n) + iMMIOSpaceStart))) ;;
            let! n := my (fun n => n) in
            ok! lift (write_reg iRegMemTxAddr (tx_cl_offset_ n / mmio_cpu_nic_view)) ;;
            ok! lift (write_reg iRegNumOfFlows (num_of_flows_ n)) ;;
            configured).

Definition start : nic Z := mode_start.
Definition stop : nic Z := mode_stop.
Definition dtor : nic unit := release_and_destroy wsid_.
Definition notify_nic_of_new_dma (flow bucket : Z) : nic Z := ret 0.
End mmio.

Definition get_tx_flow_buffer (n : NicMmioCCIP) (flow : Z) : Z :=
  u64 (tx_mmio_buf_ n + tx_cl_offset_ n + CL flow).
Definition get_rx_flow_buffer (n : NicMmioCCIP) (flow : Z) : Z :=
  u64 (buf_ n + CL (rx_cl_offset_ n) + CL flow).
Definition get_tx_buff_end (n : NicMmioCCIP) : Z :=
  u64 (tx_mmio_buf_ n + tx_cl_offset_ n + CL (num_of_flows_ n)).
Definition get_rx_buff_end (n : NicMmioCCIP) : Z := 0.
End Mmio.
