(* ===== verification/NicBuffers.v ===== *)
(** * Buffers shared with the FPGA

    What [alloc_buffer] and the [configure_data_plane]s of the three interfaces
    guarantee: the rings of the flows are disjoint, they lie in the page that was
    pinned for the FPGA, and the hardware is told the same layout. *)

From S2P Require Import Prelude Wire ConnectionManager Host HssiCsrs Hssi NicCcip NicProtocol.
From S2P Require Import NicModes.

Section alloc.
Context {D : Type} `{Platform D}.
Implicit Types s : sys NicCCIP D.

Lemma round_up_spec v s :
  0 < get_page_size -> 0 <= v -> v + get_page_size <= 2 ^ 64 ->
  wp (round_up_to_pagesize v) (fun r s' => s' = s /\
    r mod get_page_size = 0 /\ v <= r < v + get_page_size) s.
Proof.
  intros Hp Hv Hm. unfold round_up_to_pagesize.
  pose proof (Z.mod_pos_bound v get_page_size Hp) as Hr.
  destruct (Z.eqb_spec (v mod get_page_size) 0) as [E|E].
  { apply wp_ret. repeat split; lia. }
  rewrite wrap_small by (unfold in_width; lia).
  assert ((v + get_page_size - v mod get_page_size) mod get_page_size = 0) as Hz.
  { rewrite (Z.div_mod v get_page_size) at 1 by lia.
    replace (_ - _) with ((v / get_page_size + 1) * get_page_size) by ring.
    apply Z.mod_mul. lia. }
  rewrite Hz. apply wp_bind. unfold massert, wp at 1. apply wp_ret. repeat split; [done|lia..].
Qed.

(** The page behind a buffer: mapped, pinned for the FPGA, and large enough. *)
Definition owned (size llc buf wsid pa : Z) (l : list io_event) : Prop :=
  exists ptr page io_page res,
    page = u64 ptr /\
    l = [ {| ev_call := Mmap get_page_size; ev_res := res; ev_val := ptr |};
          {| ev_call := PrepareBuffer get_page_size page; ev_res := FPGA_OK; ev_val := wsid |};
          {| ev_call := GetIOAddress wsid; ev_res := FPGA_OK; ev_val := io_page |} ] /\
    0 < page /\ page mod get_page_size = 0 /\ page + get_page_size <= 2 ^ 64 /\
    size + llc * cfg.llc_anti_aliasing_offset <= get_page_size /\
    buf = page + llc * cfg.llc_anti_aliasing_offset /\
    pa = u64 (io_page + llc * cfg.llc_anti_aliasing_offset).

Lemma single_page size mem :
  0 < get_page_size -> mem mod get_page_size = 0 -> 0 < size <= mem ->
  mem / get_page_size <= 1 -> mem = get_page_size.
Proof.
  intros Hp Hm Hs Hq. assert (get_page_size <> 0) as Hne by lia.
  pose proof (Z.div_mod mem _ Hne) as E.
  rewrite Hm, Z.add_0_r in E. set (q := mem / get_page_size) in *.
  assert (q = 1) as ->; [|lia]. destruct (Z.le_gt_cases q 0); nia.
Qed.

Lemma null_buffer (P : sys NicCCIP D -> Z -> Z -> Z -> Prop) s s' wsid pa :
  obj s' = obj s ->
  wlp (ret (0, wsid, pa)) (fun '(buf, wsid, pa) s' =>
    obj s' = obj s /\ (buf <> 0 -> P s' buf wsid pa)) s'.
Proof. intros. by split. Qed.

Lemma alloc_buffer_spec `{!PrepareLaw D} s size wsid0 io0 llc :
  0 < get_page_size <= 2 ^ 32 -> 0 < size <= 2 ^ 63 -> 0 <= llc < 2 ^ 32 ->
  wlp (alloc_buffer size wsid0 io0 llc) (fun '(buf, wsid, pa) s' =>
    obj s' = obj s /\
    (buf <> 0 -> exists l, grows s l s' /\ owned size llc buf wsid pa l)) s.
Proof.
  intros Hp Hs Hl. unfold alloc_buffer. apply wlp_bind, wp_wlp.
  eapply wp_mono; [|apply round_up_spec; lia]. intros mem s1 (-> & Hm & Hr).
  destruct (Z.ltb_spec 1 (mem / get_page_size)) as [|Hq]; [by apply null_buffer|].
  apply (single_page size) in Hq; [subst mem|lia..].
  rewrite Z.div_same by lia. change (seqZ 0 1) with [0].
  apply wlp_call. intros rm ptr s1 G1 _. cbn [snd].
  set (page := u64 ptr). assert (in_width 64 page) as Hw by (unfold page; auto with word).
  destruct (Z.eqb_spec page 0) as [|Hpage]; [by apply null_buffer, G1|].
  cbn [prepare_pages]. rewrite Z.mul_0_l, Z.add_0_r, (wrap_small 64 page) by done.
  apply wlp_assoc, wlp_call.
  intros rp wsid s2 G2 (d & d' & Hio). pose proof (grows_trans _ _ _ _ _ G1 G2) as G12.
  cbn [fst snd]. destruct (is_ok rp) eqn:Erp; [|apply wlp_ret_bind; by apply null_buffer, G12].
  apply is_ok_true in Erp as ->. apply prepare_ok in Hio as (Hpos & Hal & Hend).
  apply wlp_ret_bind. unfold massert_call. apply wlp_assoc, wlp_call.
  intros ri io_page s3 G3 _. pose proof (grows_trans _ _ _ _ _ G12 G3) as G. cbn [app] in G.
  apply wlp_assoc. cbn [fst snd]. apply wlp_bind. unfold massert, wlp at 1.
  destruct (is_ok ri) eqn:Eri; [|done]. apply is_ok_true in Eri as ->.
  apply wlp_ret_bind.
  assert (0 <= llc * cfg.llc_anti_aliasing_offset <= 2 ^ 44) by (unfold cfg.llc_anti_aliasing_offset; lia).
  rewrite (wrap_small 64 (llc * _)) by (unfold in_width; lia).
  rewrite (wrap_small 64 (size + _)) by (unfold in_width; lia).
  destruct (Z.ltb_spec get_page_size (size + llc * cfg.llc_anti_aliasing_offset)) as [|Hfit];
    [by apply null_buffer, G|].
  rewrite (wrap_small 64 (page + _)) by (unfold in_width; lia).
  split; [apply G|]. intros _. eexists. split; [exact G|].
  exists ptr, page, io_page, rm. by repeat (split; [done|]).
Qed.
End alloc.

(** ** Methods of the base on a derived object *)
Section lifted.
Context {D N : Type} `{Platform D} `{!Derived N, !DerivedLaws N}.
Implicit Types s : sys N D.

Definition base_sys s : sys NicCCIP D := Sys (base (obj s)) (wld s).

Lemma wlp_lift {A} (m : M (sys NicCCIP D) A) (Q : A -> sys N D -> Prop) s :
  wlp m (fun a t => Q a (Sys (set_base (obj t) (obj s)) (wld t))) (base_sys s) ->
  wlp (lift m) Q s.
Proof.
  unfold lift, method, zoom, wlp, base_sys. cbn. by destruct (m _).
Qed.

Lemma wp_lift {A} (m : M (sys NicCCIP D) A) (Q : A -> sys N D -> Prop) s :
  wp m (fun a t => Q a (Sys (set_base (obj t) (obj s)) (wld t))) (base_sys s) ->
  wp (lift m) Q s.
Proof.
  unfold lift, method, zoom, wp, base_sys. cbn. by destruct (m _).
Qed.

(** A base method that leaves its object alone leaves the derived one alone. *)
Lemma grows_lift s l t :
  grows (base_sys s) l t -> grows s l (Sys (set_base (obj t) (obj s)) (wld t)).
Proof. intros [Ho Ht]. split; [|done]. cbn. rewrite Ho. apply set_base_base. Qed.

(** The registers [ws] written in this order, each accepted. *)
Definition written (addr : Z) (w : Z * Z) (e : io_event) : Prop :=
  ev_call e = WriteMMIO64 (u64 (addr + w.1)) w.2 /\ ev_res e = FPGA_OK.

Lemma write_regs_spec ws k (P : sys N D -> Prop) s :
  (forall s' l, grows s l s' -> Forall2 (written (base_nic_addr_ (base (obj s)))) ws l ->
     wlp k (fun r s'' => r = 0 -> P s'') s') ->
  wlp (write_regs ws k) (fun r s' => r = 0 -> P s') s.
Proof.
  revert s. induction ws as [|[off v] ws IH]; intros s Hk; cbn [write_regs].
  { apply (Hk s []); [apply grows_refl|constructor]. }
  unfold or_fail. apply wlp_bind, wlp_lift, wp_wlp.
  unfold write_reg. apply wp_bind. unfold my, gets, wp at 1.
  unfold writeMMIO64. apply wp_call. intros r x t G%grows_lift. apply wp_ret. cbn [fst].
  destruct (is_ok r) eqn:Er; [|by apply wlp_ret]. apply is_ok_true in Er as ->.
  apply IH. intros s' l G' Hw. pose proof (grows_trans _ _ _ _ _ G G') as Gt.
  eapply Hk; [exact Gt|]. destruct G as [Ho _]. rewrite Ho in Hw. by constructor.
Qed.
End lifted.

(** ** Layout of the rings *)

(** Every flow has its own transmit and its own receive ring, in the page. *)
Record laid_out (page page_size : Z) (b : RingBuffers) : Prop := {
  in_page f :
    0 <= f < num_of_flows_ b ->
    page <= ring_tx_flow_buffer b f /\
    ring_tx_flow_buffer b f + tx_queue_size_bytes_ b <= page + page_size /\
    page <= ring_rx_flow_buffer b f /\
    ring_rx_flow_buffer b f + rx_queue_size_bytes_ b <= page + page_size;
  flows_apart f g :
    0 <= f < g -> g < num_of_flows_ b ->
    ring_tx_flow_buffer b f + tx_queue_size_bytes_ b <= ring_tx_flow_buffer b g /\
    ring_rx_flow_buffer b f + rx_queue_size_bytes_ b <= ring_rx_flow_buffer b g;
  tx_rx_apart f g :
    0 <= f < num_of_flows_ b -> 0 <= g < num_of_flows_ b ->
    ring_tx_flow_buffer b f + tx_queue_size_bytes_ b <= ring_rx_flow_buffer b g
}.

Lemma rings_laid_out page ps b :
  0 <= page -> page + ps <= 2 ^ 64 -> page <= buf_ b ->
  0 < tx_queue_size_bytes_ b -> 0 < rx_queue_size_bytes_ b ->
  tx_offset_bytes_ b = 0 ->
  rx_offset_bytes_ b = num_of_flows_ b * tx_queue_size_bytes_ b ->
  buf_ b + num_of_flows_ b * (tx_queue_size_bytes_ b + rx_queue_size_bytes_ b) <= page + ps ->
  laid_out page ps b.
Proof.
  intros Hpg Hend Hbuf Htx Hrx Ho Hr Hfit.
  set (n := num_of_flows_ b) in *. set (tq := tx_queue_size_bytes_ b) in *.
  set (rq := rx_queue_size_bytes_ b) in *.
  assert (forall f, 0 <= f < n -> 0 <= f * tq /\ f * tq + tq <= n * tq /\
                                0 <= f * rq /\ f * rq + rq <= n * rq) as Hb by (intros; nia).
  assert (forall f, 0 <= f < n -> ring_tx_flow_buffer b f = buf_ b + f * tq /\
                                ring_rx_flow_buffer b f = buf_ b + n * tq + f * rq) as Hat.
  { intros f Hf. specialize (Hb f Hf). unfold ring_tx_flow_buffer, ring_rx_flow_buffer.
    rewrite Ho, Hr, Z.add_0_r. fold tq rq. rewrite !wrap_small by (unfold in_width; lia). done. }
  split; fold n tq rq.
  - intros f Hf. destruct (Hat f Hf) as [-> ->]. specialize (Hb f Hf). lia.
  - intros f g Hfg Hg. destruct (Hat f) as [-> ->]; [lia|]. destruct (Hat g) as [-> ->]; [lia|]. nia.
  - intros f g Hf Hg. destruct (Hat f Hf) as [-> _]. destruct (Hat g Hg) as [_ ->].
    pose proof (Hb f Hf). pose proof (Hb g Hg). lia.
Qed.

(** A derived object whose rings are a field of its own. *)
Class HasRings (N : Type) `{Derived N} (rings : N -> RingBuffers)
    (set_rings : RingBuffers -> N -> N) := {
  rings_set r n : rings (set_rings r n) = r;
  base_set_rings r n : base (set_rings r n) = base n;
  rings_set_base b n : rings (set_base b n) = rings n
}.

#[export] Instance polling_rings : HasRings Polling.NicPollingCCIP Polling.rings_ Polling.set_rings.
Proof. done. Qed.
#[export] Instance dma_rings : HasRings Dma.NicDmaCCIP Dma.rings_ Dma.set_rings.
Proof. done. Qed.

Section rings.
Context {D N : Type} `{Platform D, !PrepareLaw D} `{!Derived N, !DerivedLaws N}.
Context (rings : N -> RingBuffers) (set_rings : RingBuffers -> N -> N)
        `{!HasRings N rings set_rings}.
Context (l_tx l_rx : Z) (Htx : 0 <= l_tx <= 16) (Hrx : 0 <= l_rx <= 16).
Context (Hps : 0 < get_page_size <= 2 ^ 32).
Implicit Types s : sys N D.

Definition queue_bytes (l : Z) : Z := cfg.cl_size_bytes * 2 ^ l.

Lemma queue_bytes_bound l : 0 <= l <= 16 -> 0 < queue_bytes l <= 2 ^ 22.
Proof.
  intros Hl. unfold queue_bytes, cfg.cl_size_bytes.
  assert (2 ^ l <= 2 ^ 16) by (apply Z.pow_le_mono_r; lia). lia.
Qed.

Lemma queue_bytes_eq l :
  0 <= l <= 16 -> u64 (get_mtu_size_bytes * Z.shiftl 1 l) = queue_bytes l.
Proof.
  intros Hl. rewrite Z.shiftl_mul_pow2, Z.mul_1_l by lia.
  change (get_mtu_size_bytes * 2 ^ l) with (queue_bytes l).
  pose proof (queue_bytes_bound l Hl). apply wrap_small. unfold in_width. lia.
Qed.

Lemma set_sizes_eq b :
  0 < num_of_flows_ b <= 2 ^ 32 ->
  let b' := set_sizes l_tx l_rx b in
  tx_queue_size_bytes_ b' = queue_bytes l_tx /\ rx_queue_size_bytes_ b' = queue_bytes l_rx /\
  tx_buff_size_bytes_ b' = num_of_flows_ b * queue_bytes l_tx /\
  rx_buff_size_bytes_ b' = num_of_flows_ b * queue_bytes l_rx.
Proof using Htx Hrx.
  intros Hn b'. unfold b', set_sizes.
  cbn [tx_queue_size_bytes_ rx_queue_size_bytes_ tx_buff_size_bytes_ rx_buff_size_bytes_].
  pose proof (queue_bytes_bound l_tx Htx). pose proof (queue_bytes_bound l_rx Hrx).
  rewrite !queue_bytes_eq, !wrap_small by (try done; unfold in_width; nia). done.
Qed.

(** What [alloc_rings] leaves in the object. *)
Record rings_ready (n : Z) (page : Z) (b : RingBuffers) : Prop := {
  rr_flows : num_of_flows_ b = n;
  rr_tx : tx_queue_size_bytes_ b = queue_bytes l_tx;
  rr_rx : rx_queue_size_bytes_ b = queue_bytes l_rx;
  rr_layout : laid_out page get_page_size b;
  rr_page : page mod get_page_size = 0;
  rr_fit : n * (queue_bytes l_tx + queue_bytes l_rx) <= get_page_size
}.

Lemma rings_ready_intro b page aa wsid pa :
  0 < num_of_flows_ b <= 2 ^ 32 -> 0 <= aa ->
  0 < page -> page mod get_page_size = 0 -> page + get_page_size <= 2 ^ 64 ->
  num_of_flows_ b * queue_bytes l_tx + num_of_flows_ b * queue_bytes l_rx + aa <= get_page_size ->
  rings_ready (num_of_flows_ b) page
    (set_offsets (set_buffer (page + aa) wsid pa (set_sizes l_tx l_rx b))).
Proof using Htx Hrx Hps.
  intros Hn Haa Hp0 Hal Hend Hfit.
  destruct (set_sizes_eq b Hn) as (Etq & Erq & Etb & Erb).
  pose proof (queue_bytes_bound l_tx Htx). pose proof (queue_bytes_bound l_rx Hrx).
  assert (0 <= num_of_flows_ b * queue_bytes l_tx) by nia.
  assert (0 <= num_of_flows_ b * queue_bytes l_rx) by nia.
  set (b1 := set_sizes l_tx l_rx b) in *. change (num_of_flows_ b1) with (num_of_flows_ b).
  split; cbn [set_offsets set_buffer num_of_flows_ tx_queue_size_bytes_ rx_queue_size_bytes_];
    try done; [|lia].
  apply rings_laid_out; cbn [set_offsets set_buffer num_of_flows_ tx_queue_size_bytes_
    rx_queue_size_bytes_ buf_ tx_offset_bytes_ rx_offset_bytes_]; rewrite ?Etq, ?Erq, ?Etb; try lia.
  - rewrite Z.add_0_l. cbn [set_buffer tx_buff_size_bytes_]. rewrite Etb.
    rewrite wrap_small by (unfold in_width; lia). done.
  - change (num_of_flows_ b1) with (num_of_flows_ b). lia.
Qed.

Lemma alloc_rings_spec llc k (P : sys N D -> Prop) s :
  0 < num_of_flows_ (rings (obj s)) <= 2 ^ 32 -> 0 <= llc < 2 ^ 32 ->
  (forall s' page l,
     base (obj s') = base (obj s) -> trace (wld s') = trace (wld s) ++ l ->
     rings_ready (num_of_flows_ (rings (obj s))) page (rings (obj s')) ->
     wlp k (fun r s'' => r = 0 -> P s'') s') ->
  wlp (alloc_rings l_tx l_rx rings set_rings llc k) (fun r s' => r = 0 -> P s') s.
Proof using All.
  intros Hn Hl Hk. unfold alloc_rings.
  apply wlp_bind. unfold update at 1, modify, wlp at 1.
  apply wlp_bind. unfold my, gets, wlp at 1. cbn [obj]. rewrite rings_set.
  set (b := rings (obj s)) in *.
  pose proof (set_sizes_eq b Hn) as (Etq & Erq & Etb & Erb).
  pose proof (queue_bytes_bound l_tx Htx). pose proof (queue_bytes_bound l_rx Hrx).
  set (b1 := set_sizes l_tx l_rx b) in *. rewrite Etb, Erb.
  rewrite wrap_small by (unfold in_width; nia).
  apply wlp_bind, wlp_lift. eapply wlp_mono; [|apply alloc_buffer_spec; [done|nia|done]].
  intros [[buf wsid] pa] t [Ho Hbuf]. cbn [obj wld base_sys] in *.
  apply wlp_bind. unfold update at 1, modify, wlp at 1. cbn [obj wld].
  destruct (Z.eqb_spec buf 0) as [|Hne]; [by apply wlp_ret|].
  destruct (Hbuf Hne) as (l & [_ Ht] & ptr & page & io & res & _ & _ & Hp0 & Hal & Hend & Hfit & -> & _).
  apply wlp_bind. unfold update at 1, modify, wlp at 1. cbn [obj wld].
  apply (Hk _ page l); cbn [obj wld]; rewrite ?base_set_rings, ?rings_set, ?rings_set_base.
  - rewrite base_set, Ho, base_set_rings. done.
  - by rewrite Ht.
  - rewrite rings_set. apply rings_ready_intro; try done.
    unfold cfg.llc_anti_aliasing_offset. lia.
Qed.
End rings.

Section configure.
Context {D N : Type} `{Platform D, !PrepareLaw D} `{!Derived N, !DerivedLaws N}.
Context (rings : N -> RingBuffers) (set_rings : RingBuffers -> N -> N)
        `{!HasRings N rings set_rings}.
Context (l_tx l_rx : Z) (Htx : 0 <= l_tx <= 16) (Hrx : 0 <= l_rx <= 16).
Context (Hps : 0 < get_page_size <= 2 ^ 32).
Implicit Types s : sys N D.

(** The data plane is configured: the rings are laid out in a page, and the last
    accesses told the hardware the layout. *)
Definition dp_ready (writes : RingBuffers -> list (Z * Z)) s s' : Prop :=
  dp_configured_ (base (obj s')) = true /\
  exists page l ws,
    rings_ready l_tx l_rx (num_of_flows_ (rings (obj s))) page (rings (obj s')) /\
    trace (wld s') = trace (wld s) ++ l ++ ws /\
    Forall2 (written (base_nic_addr_ (base (obj s)))) (writes (rings (obj s'))) ws.

Lemma read_ccip_mode_spec k (P : sys N D -> Prop) s :
  (forall s' l mode, grows s l s' -> wlp (k mode) (fun r s'' => r = 0 -> P s'') s') ->
  wlp (read_ccip_mode k) (fun r s' => r = 0 -> P s') s.
Proof using DerivedLaws0.
  intros Hk. unfold read_ccip_mode.
  assert (forall (b : NicCCIP -> bool) m,
    wlp m (fun r s' => r = 0 -> P s') s ->
    wlp (lift (massert_my b) ;; m) (fun r s' => r = 0 -> P s') s) as Hassert.
  { intros b m Hm. apply wlp_bind, wlp_lift. unfold massert_my, bind, my, gets, massert, wlp at 1.
    cbn. destruct (b _); [|done]. destruct s as [n w]. cbn. by rewrite set_base_base. }
  do 2 apply Hassert. apply wlp_bind, wlp_lift, wp_wlp. unfold read_reg.
  apply wp_bind. unfold my, gets, wp at 1. unfold readMMIO64.
  apply wp_call1. intros r v t G%grows_lift. cbn [fst snd].
  destruct (is_ok r); cbn [negb]; [by eapply Hk | by apply wlp_ret].
Qed.

Lemma configured_spec (P : sys N D -> Prop) s :
  P (Sys (set_base (set_dp_configured true (base (obj s))) (obj s)) (wld s)) ->
  wlp configured (fun r s' => r = 0 -> P s') s.
Proof. intros HP _. exact HP. Qed.

Lemma configure_rings writes llc s :
  0 < num_of_flows_ (rings (obj s)) <= 2 ^ 32 -> 0 <= llc < 2 ^ 32 ->
  wlp (alloc_rings l_tx l_rx rings set_rings llc (
         let! b := my rings in write_regs (writes b) configured))
    (fun r s' => r = 0 -> dp_ready writes s s') s.
Proof using All.
  intros Hn Hl. apply alloc_rings_spec; [done..|].
  intros s1 page l Hb Ht Hr. apply wlp_bind. unfold my, gets, wlp at 1.
  apply write_regs_spec. intros s2 ws [Ho Hw] Hws. apply configured_spec. rewrite Hb in Hws.
  split; cbn [obj wld]; [rewrite base_set; by destruct (base (obj s2))|].
  exists page, l, ws. rewrite rings_set_base, Ho, Hw, Ht, app_assoc. done.
Qed.
End configure.

Lemma polling_configure_spec {D} `{Platform D, !PrepareLaw D} (l_tx l_rx llc : Z)
    (s : sys Polling.NicPollingCCIP D) :
  0 <= l_tx <= 16 -> 0 <= l_rx <= 16 -> 0 < get_page_size <= 2 ^ 32 ->
  0 < num_of_flows_ (Polling.rings_ (obj s)) <= 2 ^ 32 -> 0 <= llc < 2 ^ 32 ->
  wlp (Polling.configure_data_plane l_tx l_rx llc)
    (fun r s' => r = 0 -> dp_ready Polling.rings_ l_tx l_rx Polling.config_writes s s') s.
Proof.
  intros Htx Hrx Hps Hn Hl. apply read_ccip_mode_spec. intros s1 l mode [Ho Ht].
  eapply wlp_mono; [|apply (configure_rings Polling.rings_ Polling.set_rings); rewrite ?Ho; done].
  intros r s2 Hr H0. destruct (Hr H0) as (Hd & page & l1 & ws & Hrr & Htr & Hws).
  rewrite Ho in *. split; [done|]. exists page, (l ++ l1), ws. by rewrite Htr, Ht, !app_assoc.
Qed.


(** A platform that answers every call and hands out the page at 0x10000. *)
Definition one_page : nat -> io_call -> fpga_result * Z :=
  fun _ c =>
    match c with
    | PrepareBuffer len a =>
        if (0 <? a) && (a mod len =? 0) && (a + len <=? 2 ^ 64) then (FPGA_OK, 5)
        else (FPGA_INVALID_PARAM, 0)
    | Mmap _ => (FPGA_OK, 0x10000)
    | _ => (FPGA_OK, 3)
    end.

Lemma one_page_prepare : @PrepareLaw nat (scripted one_page).
Proof.
  intros len a d v d'. cbn.
  destruct (0 <? a) eqn:E1, (a mod len =? 0) eqn:E2, (a + len <=? 2 ^ 64) eqn:E3; cbn; try done.
  intros _. lia.
Qed.

Definition polling_nic : Polling.NicPollingCCIP :=
  Polling.set_rings (RingBuffers_ctor 0 4)
    {| Polling.base_ := connected_nic; Polling.rings_ := RingBuffers_ctor 0 4 |}.


(** ** DMA notifications *)

(** A refused DMA notification takes the lock with it: the notification of a
    valid flow and bucket returns; when the hardware accepts it the lock is free
    again, and when the hardware refuses it every later notification of a valid
    flow and bucket waits for ever. *)
Theorem dma_notification_lock {D} `{Platform D} (s : sys Dma.NicDmaCCIP D) (flow bucket : Z) :
  let valid f b := f < num_of_flows_ (Dma.rings_ (obj s)) /\
                   b < tx_queue_size_bytes_ (Dma.rings_ (obj s)) in
  valid flow bucket -> Dma.dma_notification_lock_ (obj s) = false ->
  wp (Dma.notify_nic_of_new_dma flow bucket) (fun r s' =>
    (r = 0 /\ obj s' = obj s) \/
    (r = 1 /\ forall f b, valid f b -> Dma.notify_nic_of_new_dma f b s' = Block)) s.
Proof.
  intros valid [Hf Hb] Hl. destruct s as [[bs rg lk] w]. cbn in Hf, Hb, Hl. subst lk.
  assert (forall f b, valid f b -> forall w',
    Dma.notify_nic_of_new_dma f b
      (Sys {| Dma.base_ := bs; Dma.rings_ := rg; Dma.dma_notification_lock_ := true |} w') = Block)
    as Hblock.
  { intros f b [Hf' Hb'] w'. unfold Dma.notify_nic_of_new_dma, bind, my, gets, massert. cbn in *.
    by rewrite (proj2 (Z.ltb_lt _ _) Hf'), (proj2 (Z.ltb_lt _ _) Hb'). }
  unfold Dma.notify_nic_of_new_dma. apply wp_bind. unfold my at 1, gets, wp at 1. cbn [obj Dma.rings_].
  apply wp_bind. unfold massert at 1, wp at 1. rewrite (proj2 (Z.ltb_lt _ _) Hf).
  apply wp_bind. unfold massert at 1, wp at 1. rewrite (proj2 (Z.ltb_lt _ _) Hb).
  apply wp_bind. unfold my at 1, gets, wp at 1. cbn [obj Dma.dma_notification_lock_].
  apply wp_bind. unfold update at 1, modify, wp at 1. apply wp_bind, wp_lift.
  unfold write_reg. apply wp_bind. unfold my, gets, wp at 1. unfold writeMMIO64.
  apply wp_call. intros r v t [Ho _]. apply wp_ret. cbn [fst]. cbn in Ho. rewrite Ho.
  destruct (is_ok r); cbn [negb]; [left | right]; (split; [done|]); [done|].
  intros f b Hv. by apply Hblock.
Qed.

Definition dma_nic : Dma.NicDmaCCIP :=
  {| Dma.base_ := connected_nic; Dma.rings_ := set_sizes 3 3 (RingBuffers_ctor 0 4);
     Dma.dma_notification_lock_ := false |}.

(** The second notification after a refused one. *)
Lemma dma_notification_lock_witness :
  exists s', Dma.notify_nic_of_new_dma (H := scripted refusing) 1 2 (boot dma_nic) = Ret 1 s' /\
    Dma.notify_nic_of_new_dma (H := scripted refusing) 0 0 s' = Block.
Proof.
  pose proof (dma_notification_lock (H := scripted refusing) (boot dma_nic) 1 2) as Hw.
  cbv zeta in Hw. specialize (Hw (conj eq_refl eq_refl) eq_refl).
  apply wp_ret_inv in Hw as (r & s' & E & [[-> _]|[-> Hb]]).
  - vm_compute in E. congruence.
  - exists s'. split; [exact E|]. apply Hb. split; reflexivity.
Defined.

(** ** MMIO receive rings *)

(** Whatever a base method does, it leaves the fields of the derived object. *)
Lemma wlp_lift_any {D N A B} `{Platform D} `{!Derived N} (m : M (sys NicCCIP D) A)
    (k : A -> M (sys N D) B) Q (s : sys N D) :
  (forall a b w, wlp (k a) Q (Sys (set_base b (obj s)) w)) -> wlp (bind (lift m) k) Q s.
Proof.
  intros Hk. apply wlp_bind, wlp_lift. unfold wlp at 1. by destruct (m _).
Qed.

(** What a successful configuration leaves in the two fields. *)
Definition mmio_fields (l_rx : Z) {D} (s : sys Mmio.NicMmioCCIP D) : Prop :=
  Mmio.rx_cl_offset_ (obj s) = 0 /\
  Mmio.rx_queue_size_bytes_ (obj s) = u64 (get_mtu_size_bytes * Z.shiftl 1 l_rx).

Lemma mmio_configure_fields {D} `{Platform D} l_tx l_rx llc (s : sys Mmio.NicMmioCCIP D) :
  wlp (Mmio.configure_data_plane l_tx l_rx llc) (fun r s' => r = 0 -> mmio_fields l_rx s') s.
Proof.
  assert (forall s1 (m : M (sys NicCCIP D) fpga_result) k,
    mmio_fields l_rx s1 ->
    (forall s2, mmio_fields l_rx s2 -> wlp k (fun r s' => r = 0 -> mmio_fields l_rx s') s2) ->
    wlp (or_fail (lift m) k) (fun r s' => r = 0 -> mmio_fields l_rx s') s1) as Hok.
  { intros s1 m k Hs1 Hk. apply wlp_lift_any. intros r b w.
    destruct (is_ok r); [by apply Hk | by apply wlp_ret]. }
  unfold Mmio.configure_data_plane. apply read_ccip_mode_spec. intros s0 l mode _.
  destruct (negb _); [by apply wlp_ret|].
  apply wlp_bind. unfold update at 1, modify, wlp at 1. apply wlp_bind.
  unfold my at 1, gets, wlp at 1. apply wlp_lift_any. intros [[buf wsid] pa] b w.
  apply wlp_bind. unfold update at 1, modify, wlp at 1.
  destruct (buf =? 0); [by apply wlp_ret|].
  apply wlp_bind. unfold update at 1, modify, wlp at 1. apply wlp_bind.
  unfold my at 1, gets, wlp at 1.
  apply Hok; [destruct s0 as [[]]; by split|]. intros s1 H1. apply Hok; [done|]. intros s2 H2.
  apply wlp_bind. unfold massert, wlp at 1. destruct (l_tx =? 0); [|done].
  apply wlp_call. intros r v s3 [Ho3 _] _. destruct (negb _); [by apply wlp_ret|].
  apply wlp_bind. unfold update at 1, modify, wlp at 1.
  destruct (_ =? 0); [by apply wlp_ret|].
  apply wlp_bind. unfold update at 1, modify, wlp at 1. apply wlp_bind.
  unfold my at 1, gets, wlp at 1.
  apply Hok; [unfold mmio_fields in *; cbn; rewrite Ho3; by destruct (obj s2)|].
  intros s4 H4. apply Hok; [done|]. intros s5 H5. by apply configured_spec.
Qed.

(** In MMIO mode the receive rings of neighbouring flows overlap: their starts
    are one cache line apart, while each is given [2 ^ l_rx] cache lines, so that for
    [l_rx >= 1] the ring of the next flow starts inside the ring of this one. *)
Theorem mmio_rx_rings_overlap {D} `{Platform D} (l_tx l_rx llc f : Z)
    (s s' : sys Mmio.NicMmioCCIP D) :
  1 <= l_rx <= 16 ->
  Mmio.configure_data_plane l_tx l_rx llc s = Ret 0 s' ->
  0 <= f -> Mmio.buf_ (obj s') + CL (f + 1) < 2 ^ 64 -> 0 <= Mmio.buf_ (obj s') ->
  Mmio.get_rx_flow_buffer (obj s') f < Mmio.get_rx_flow_buffer (obj s') (f + 1)
    < Mmio.get_rx_flow_buffer (obj s') f + Mmio.rx_queue_size_bytes_ (obj s').
Proof.
  intros Hl E Hf Hend Hbuf.
  destruct (wlp_ret_inv _ _ _ _ _ E (mmio_configure_fields l_tx l_rx llc s) eq_refl) as [Ho Hq].
  rewrite Hq, queue_bytes_eq by lia. unfold Mmio.get_rx_flow_buffer. rewrite Ho.
  unfold CL, queue_bytes, cfg.cl_size_bytes in *.
  assert (2 ^ 1 <= 2 ^ l_rx) by (apply Z.pow_le_mono_r; lia).
  rewrite !wrap_small by (unfold in_width; lia). lia.
Qed.

(** A device of the MMIO kind. *)
Definition mmio_device : nat -> io_call -> fpga_result * Z :=
  fun n c =>
    match c with
    | ReadMMIO64 _ => (FPGA_OK, 0)
    | _ => one_page n c
    end.

Definition mmio_nic : Mmio.NicMmioCCIP :=
  set_base connected_nic (Mmio.ctor 0 0x30000 4 true).

(** Flow 1 starts 64 bytes into the 512 bytes of flow 0. *)
Lemma mmio_rx_rings_overlap_witness :
  exists s', Mmio.configure_data_plane (H := scripted mmio_device) 0 3 0 (boot mmio_nic) = Ret 0 s' /\
    Mmio.get_rx_flow_buffer (obj s') 0 < Mmio.get_rx_flow_buffer (obj s') 1
      < Mmio.get_rx_flow_buffer (obj s') 0 + Mmio.rx_queue_size_bytes_ (obj s').
Proof.
  eexists. split; [vm_compute; reflexivity|].
  eapply (mmio_rx_rings_overlap (H := scripted mmio_device) 0 3 0 0 (boot mmio_nic));
    [lia|vm_compute; reflexivity|lia|by vm_compute|by vm_compute].
Defined.
