(* ===== verification/NicLifecycle.v ===== *)
(** * The life cycle of a NIC

    - an invariant of the driver's object (the order of the bring-up stages, the
      perf thread, the locks, the connection manager) that every method of the API
      preserves, for the three interfaces and for every behaviour of the hardware;
    - [NicLaws], the interface that the owners of a NIC are proved against, and its
      three instances. *)

From stdpp Require Import relations.
From S2P Require Import Prelude Wire ConnectionManager Host HssiCsrs Hssi NicCcip NicProtocol.
From S2P Require Import NicModes NicBuffers.

(** ** Invariant *)
Record nic_inv (n : NicCCIP) : Prop := {
  started_initialized : started_ n = true -> initialized_ n = true;
  initialized_configured : initialized_ n = true -> dp_configured_ n = true;
  configured_connected : dp_configured_ n = true -> connected_ n = true;
  hssi_connected : hssi_h_ n <> None -> connected_ n = true;
  perf_joinable : collect_perf_ n = perf_thread_ n;
  manager_inv : cm_inv (conn_manager_ n)
}.

Definition locks (n : NicCCIP) : bool * bool := (conn_setup_mtx_ n, conn_setup_hw_mtx_ n).

(** Method [m] takes objects of [P] to objects of [Q]. *)
Definition keeps {D A} (P Q : NicCCIP -> Prop) (m : M (sys NicCCIP D) A) : Prop :=
  forall s, P (obj s) -> wlp m (fun _ s' => Q (obj s')) s.

(** A method that only talks to the hardware. *)
Definition constant {D A} (m : M (sys NicCCIP D) A) : Prop :=
  forall s, wlp m (fun _ s' => obj s' = obj s) s.

Section rules.
Context {D : Type} `{Platform D}.
Implicit Types P Q R : NicCCIP -> Prop.

Lemma constant_ret {A} (a : A) : constant (D := D) (ret a).
Proof. by intros s. Qed.

Lemma constant_bind {A B} (m : M (sys NicCCIP D) A) (k : A -> M (sys NicCCIP D) B) :
  constant m -> (forall a, constant (k a)) -> constant (bind m k).
Proof.
  intros Hm Hk s. apply wlp_bind. eapply wlp_mono; [|apply Hm]. intros a s' Ho.
  eapply wlp_mono; [|apply Hk]. by intros b s'' ->.
Qed.

Lemma constant_if {A} (b : bool) (m1 m2 : M (sys NicCCIP D) A) :
  constant m1 -> constant m2 -> constant (if b then m1 else m2).
Proof. by destruct b. Qed.

Lemma constant_call c : constant (D := D) (call c).
Proof. intros s. unfold wlp. by destruct (call_Ret c s) as (r & v & d' & _ & ->). Qed.

Lemma constant_gets {A} (f : sys NicCCIP D -> A) : constant (gets f).
Proof. by intros s. Qed.

Lemma constant_massert b : constant (D := D) (massert b).
Proof. intros s. by destruct b. Qed.

Lemma keeps_constant {A} P (m : M (sys NicCCIP D) A) : constant m -> keeps P P m.
Proof. intros Hm s Hs. eapply wlp_mono; [|apply Hm]. by intros a s' ->. Qed.

Lemma keeps_bind {A B} P Q R (m : M (sys NicCCIP D) A) (k : A -> M (sys NicCCIP D) B) :
  keeps P R m -> (forall a, keeps R Q (k a)) -> keeps P Q (bind m k).
Proof.
  intros Hm Hk s Hs. apply wlp_bind. eapply wlp_mono; [|by apply Hm].
  intros a s' Ho. by apply Hk.
Qed.

(** After a method that only talks to the hardware. *)
Lemma keeps_then {A B} P Q (m : M (sys NicCCIP D) A) (k : A -> M (sys NicCCIP D) B) :
  constant m -> (forall a, keeps P Q (k a)) -> keeps P Q (bind m k).
Proof. intros Hm. apply keeps_bind. by apply keeps_constant. Qed.

Lemma keeps_if {A} P Q (b : bool) (m1 m2 : M (sys NicCCIP D) A) :
  keeps P Q m1 -> keeps P Q m2 -> keeps P Q (if b then m1 else m2).
Proof. by destruct b. Qed.

Lemma keeps_ret {A} P Q (a : A) : (forall n, P n -> Q n) -> keeps (D := D) P Q (ret a).
Proof. intros HPQ s. apply HPQ. Qed.

Lemma keeps_update P Q f : (forall n, P n -> Q (f n)) -> keeps (D := D) P Q (update f).
Proof. intros Hf s. apply Hf. Qed.

Lemma keeps_assert {A} P Q b (k : unit -> M (sys NicCCIP D) A) :
  keeps (fun n => P n /\ b n = true) Q (k tt) -> keeps P Q (bind (massert_my b) k).
Proof.
  intros Hk s Hs. unfold massert_my. apply wlp_assoc, wlp_bind. unfold my, gets, wlp at 1.
  apply wlp_bind. unfold massert, wlp at 1. destruct (b (obj s)) eqn:Hb; [|done]. by apply Hk.
Qed.

Lemma keeps_or_fail P Q (m : M (sys NicCCIP D) fpga_result) k :
  (forall n, P n -> Q n) -> constant m -> keeps P Q k -> keeps P Q (or_fail m k).
Proof.
  intros HPQ Hm Hk. apply keeps_then; [done|]. intros r.
  apply keeps_if; [done | by apply keeps_ret].
Qed.

Lemma keeps_with_status P Q m (k : NicHwStatus -> M (sys NicCCIP D) Z) :
  (forall n, P n -> Q n) -> constant m -> (forall st, keeps P Q (k st)) ->
  keeps P Q (with_status m k).
Proof.
  intros HPQ Hm Hk. apply keeps_then; [done|]. intros [res [st|]]; [apply Hk | by apply keeps_ret].
Qed.
End rules.

#[export] Hint Resolve constant_ret constant_bind constant_if constant_call constant_gets
  constant_massert : effects.

Section constants.
Context {D : Type} `{Platform D}.

Lemma constant_or_fail (m : M (sys NicCCIP D) fpga_result) k :
  constant m -> constant k -> constant (or_fail m k).
Proof. intros. unfold or_fail. auto with effects. Qed.

Lemma constant_massert_my b : constant (D := D) (massert_my b).
Proof. unfold massert_my, my. auto with effects. Qed.

Lemma constant_massert_call c : constant (D := D) (massert_call c).
Proof. unfold massert_call. auto with effects. Qed.

Lemma constant_read_reg off : constant (D := D) (read_reg off).
Proof. unfold read_reg, readMMIO64, my. auto with effects. Qed.

Lemma constant_write_reg off v : constant (D := D) (write_reg off v).
Proof. unfold write_reg, writeMMIO64, my. auto with effects. Qed.

Lemma constant_sleep n : constant (D := D) (sleep n).
Proof. unfold sleep. auto with effects. Qed.

#[local] Hint Resolve constant_or_fail constant_massert_my constant_massert_call
  constant_read_reg constant_write_reg constant_sleep : effects.

Lemma constant_hw_status : constant (D := D) get_nic_hw_status.
Proof. unfold get_nic_hw_status. auto 10 with effects. Qed.

Lemma constant_wait_hw again n : constant (D := D) (wait_hw again n).
Proof.
  induction n as [|n IH]; [done|]. cbn [wait_hw].
  apply constant_bind; [apply constant_hw_status|]. intros [res [st|]].
  - destruct res; auto 10 with effects.
  - destruct res; auto with effects.
Qed.

Lemma constant_write_frame d c : constant (D := D) (write_frame d c).
Proof. unfold write_frame, junk. auto with effects. Qed.

Lemma constant_wait_conn c n : constant (D := D) (wait_conn c n).
Proof. induction n as [|n IH]; [done|]. cbn [wait_conn]. auto 10 with effects. Qed.

Lemma constant_conn_result c : constant (D := D) (conn_result c).
Proof.
  unfold conn_result. apply constant_bind; [apply constant_wait_conn|].
  intros [st|]; auto with effects.
Qed.
End constants.

#[export] Hint Resolve constant_or_fail constant_massert_my constant_massert_call
  constant_read_reg constant_write_reg constant_sleep constant_hw_status constant_wait_hw
  constant_write_frame constant_conn_result : effects.

(** ** The HSSI driver does not touch the object *)
Section hssi.
Context {D : Type} `{Platform D}.

Lemma constant_prMgmtWrite d c v : constant (D := D) (prMgmtWrite d c v).
Proof. unfold prMgmtWrite. auto 10 with effects. Qed.

#[local] Hint Resolve constant_prMgmtWrite : effects.

Lemma constant_WriteCsr64 h c v : constant (D := D) (fpgaHssiWriteCsr64 h c v).
Proof. unfold fpgaHssiWriteCsr64. destruct h, c; auto with effects. Qed.

#[local] Hint Resolve constant_WriteCsr64 : effects.

Lemma constant_Reset h : constant (D := D) (fpgaHssiReset h).
Proof. unfold fpgaHssiReset. destruct h; auto with effects. Qed.

Lemma constant_CtrlLoopback h ch en : constant (D := D) (fpgaHssiCtrlLoopback h ch en).
Proof. unfold fpgaHssiCtrlLoopback. destruct h; [destruct (snd _)|]; auto with effects. Qed.

Lemma constant_ClearChannelStats h ty ch : constant (D := D) (fpgaHssiClearChannelStats h ty ch).
Proof.
  unfold fpgaHssiClearChannelStats. destruct h, ty; cbv zeta; auto with effects;
    destruct (snd _); auto with effects.
Qed.

Lemma constant_Open fpga : constant (D := D) (fpgaHssiOpen fpga).
Proof.
  intros s. apply wp_wlp. eapply wp_mono; [|apply fpgaHssiOpen_spec]. by intros r s' [? _].
Qed.

Lemma constant_Close h : constant (D := D) (fpgaHssiClose h).
Proof. unfold fpgaHssiClose. destruct h; auto 10 with effects. Qed.
End hssi.

#[export] Hint Resolve constant_Reset constant_CtrlLoopback constant_ClearChannelStats
  constant_Open constant_Close : effects.

(** ** The methods of the base class *)

(** The invariant with the state of the two locks. *)
Definition inv (l : bool * bool) (n : NicCCIP) : Prop := nic_inv n /\ locks n = l.

(** Setting a field of an object that satisfies the invariant. *)
Ltac set_field_inv :=
  let n := fresh "n" in
  intros n; destruct n; unfold inv, locks; cbn; intros;
  repeat match goal with
         | Hx : _ /\ _ |- _ => destruct Hx
         | Hx : nic_inv _ |- _ => destruct Hx; cbn in *
         end; simplify_eq; cbn in *;
  repeat match goal with
         | |- _ /\ _ => split
         | |- nic_inv _ => constructor
         end; cbn in *; first [done | tauto | congruence].

Section methods.
Context {D : Type} `{Platform D} (phy : bool).

Lemma constant_connect_to_accel bus : constant (D := D) (connect_to_accel bus).
Proof. unfold connect_to_accel. auto 20 with effects. Qed.

Lemma connect_keeps bus l : keeps (D := D) (inv l) (inv l) (connect_to_nic bus).
Proof.
  unfold connect_to_nic. apply keeps_assert, keeps_then; [apply constant_connect_to_accel|].
  intros h. eapply keeps_bind; [apply (keeps_update _ (inv l)); set_field_inv|]. intros _.
  apply keeps_if; [by apply keeps_ret|].
  eapply keeps_bind; [apply (keeps_update _ (inv l)); set_field_inv|].
  intros _. by apply keeps_ret.
Qed.

(** The object at the stages of the bring-up. *)
Definition stage (l : bool * bool) (n : NicCCIP) : Prop :=
  inv l n /\ connected_ n = true /\ dp_configured_ n = true.

Lemma stage_inv l n : stage l n -> inv l n.
Proof. by intros [? _]. Qed.

Lemma phy_network_keeps ch l :
  keeps (D := D) (stage l) (stage l) (initialize_phy_network ch).
Proof.
  unfold initialize_phy_network, my. apply keeps_then; [auto with effects|]. intros h.
  apply keeps_then; [auto with effects|]. intros r. eapply keeps_bind.
  { instantiate (1 := stage l). destruct r.2; [|by apply keeps_ret].
    apply keeps_update. unfold stage. set_field_inv. }
  intros _. apply keeps_then; [auto with effects|]. intros _.
  apply keeps_then; [auto with effects|]. intros hssi. apply keeps_constant.
  destruct hssi; auto 20 with effects.
Qed.

Lemma keeps_pre {A} (P P' Q : NicCCIP -> Prop) (m : M (sys NicCCIP D) A) :
  (forall n, P' n -> P n) -> keeps P Q m -> keeps P' Q m.
Proof. intros HP Hm s Hs. by apply Hm, HP. Qed.

Lemma initialize_keeps p ip l : keeps (D := D) (inv l) (inv l) (initialize_nic phy p ip).
Proof.
  unfold initialize_nic. do 2 apply keeps_assert.
  apply (keeps_pre (stage l)); [unfold stage; naive_solver|].
  apply keeps_with_status; [apply stage_inv | auto with effects |]. intros st.
  do 3 (apply keeps_then; [auto with effects|]; intros _).
  apply keeps_then; [auto with effects|]. intros rm.
  apply keeps_if; [apply keeps_ret, stage_inv|]. cbv zeta.
  match goal with |- context [_ ;; ?k] => assert (keeps (stage l) (inv l) k) as Hrest end.
  { do 3 (apply keeps_or_fail; [apply stage_inv | auto with effects |]).
    apply keeps_with_status; [apply stage_inv | auto with effects |]. intros st'.
    apply keeps_if; [apply keeps_ret, stage_inv|].
    do 3 (apply keeps_then; [auto with effects|]; intros _).
    eapply keeps_bind; [apply (keeps_update _ (inv l)); unfold stage; set_field_inv|].
    intros _. by apply keeps_ret. }
  destruct phy; (apply keeps_if; [apply keeps_ret, stage_inv|]).
  - eapply keeps_bind; [apply phy_network_keeps|]. intros r.
    apply keeps_if; [apply keeps_ret, stage_inv|].
    eapply keeps_bind; [|intros _; exact Hrest]. apply keeps_update. unfold stage. set_field_inv.
  - eapply keeps_bind; [|intros _; exact Hrest]. apply keeps_update. unfold stage. set_field_inv.
Qed.

Lemma start_keeps l : keeps (D := D) (inv l) (inv l) start_nic.
Proof.
  unfold start_nic. do 4 apply keeps_assert.
  apply (keeps_pre (fun n => inv l n /\ initialized_ n = true)); [naive_solver|].
  apply keeps_with_status; [naive_solver | auto with effects |]. intros st.
  do 3 (apply keeps_then; [auto with effects|]; intros _).
  apply keeps_or_fail; [naive_solver | auto with effects |].
  apply keeps_with_status; [naive_solver | auto with effects |]. intros st'.
  apply keeps_if; [apply keeps_ret; naive_solver|].
  do 3 (apply keeps_then; [auto with effects|]; intros _).
  eapply keeps_bind; [apply (keeps_update _ (inv l)); set_field_inv|].
  intros _. by apply keeps_ret.
Qed.

Lemma run_perf_keeps l : keeps (D := D) (inv l) (inv l) run_perf_thread.
Proof.
  intros [n w] [Hi Hl]. destruct n, Hi. unfold run_perf_thread, massert_my, bind, update, modify,
    my, gets, massert, ret, wlp. cbn in *.
  destruct perf_thread_; cbn; [done|]. unfold inv, locks. cbn. split; [|done]. by split.
Qed.

(** Stopping the perf thread keeps its flag and the thread in step. *)
Lemma stop_perf_keeps l (k : M (sys NicCCIP D) Z) :
  keeps (inv l) (inv l) k ->
  keeps (inv l) (inv l)
    (let! perf := my collect_perf_ in
     (if perf then update (set_collect_perf false) ;; join_perf_thread else ret tt) ;; k).
Proof.
  intros Hk [n w] [Hi Hl]. apply wlp_bind. unfold my at 1, gets, wlp at 1. cbn [obj].
  destruct (collect_perf_ n) eqn:Hp; apply wlp_bind; [|by apply wlp_ret, Hk].
  destruct n, Hi. unfold join_perf_thread, massert_my, bind, update, modify, my, gets, massert,
    wlp at 1. cbn in *. subst. cbn. apply Hk. unfold inv, locks. cbn. split; [|done]. by split.
Qed.

Lemma stop_keeps l : keeps (D := D) (inv l) (inv l) stop_nic.
Proof.
  unfold stop_nic. apply keeps_assert. apply (keeps_pre (inv l)); [naive_solver|].
  apply keeps_with_status; [done | auto with effects |]. intros st.
  do 2 (apply keeps_then; [auto with effects|]; intros _).
  apply stop_perf_keeps, keeps_or_fail; [done | auto with effects |].
  apply keeps_with_status; [done | auto with effects |]. intros st'.
  apply keeps_if; [by apply keeps_ret|].
  do 2 (apply keeps_then; [auto with effects|]; intros _).
  eapply keeps_bind; [apply (keeps_update _ (inv l)); set_field_inv|].
  intros _. by apply keeps_ret.
Qed.

(** A scope under one of the two locks. *)
Lemma setup_lock_keeps {A} b (m : M (sys NicCCIP D) A) :
  keeps (inv (true, b)) (inv (true, b)) m ->
  keeps (inv (false, b)) (inv (false, b)) (with_lock conn_setup_mtx_ set_conn_setup_mtx m).
Proof.
  intros Hm s [Hi Hl]. unfold with_lock. apply wlp_bind. unfold my, gets, wlp at 1.
  destruct (conn_setup_mtx_ (obj s)); [done|]. apply wlp_bind.
  unfold update at 1, modify, wlp at 1. apply wlp_bind.
  eapply wlp_mono; [|apply Hm; revert Hl; destruct s as [n w]; revert Hi; cbn; revert n; set_field_inv].
  intros a [n' w'] Hs'. unfold update, modify, bind, ret, wlp. cbn [obj] in *.
  clear - Hs'. revert n' Hs'. set_field_inv.
Qed.

Lemma hw_lock_keeps {A} b (m : M (sys NicCCIP D) A) :
  constant m ->
  keeps (inv (b, false)) (inv (b, false)) (with_lock conn_setup_hw_mtx_ set_conn_setup_hw_mtx m).
Proof.
  intros Hm s [Hi Hl]. unfold with_lock. apply wlp_bind. unfold my, gets, wlp at 1.
  destruct (conn_setup_hw_mtx_ (obj s)); [done|]. apply wlp_bind.
  unfold update at 1, modify, wlp at 1. apply wlp_bind.
  eapply wlp_mono; [|apply Hm]. intros a s' Ho.
  unfold update, modify, bind, ret, wlp. cbn. rewrite Ho. cbn.
  clear Ho. revert Hl. destruct s as [n w]. revert Hi. cbn. revert n. set_field_inv.
Qed.

Lemma register_keeps b c dest flow :
  keeps (D := D) (inv (b, false)) (inv (b, false)) (register_connection c dest flow).
Proof.
  unfold register_connection. apply keeps_then; [auto with effects|]. intros _.
  apply hw_lock_keeps. auto 10 with effects.
Qed.

Lemma remove_keeps b c : keeps (D := D) (inv (b, false)) (inv (b, false)) (remove_connection c).
Proof.
  unfold remove_connection. apply keeps_then; [auto with effects|]. intros _.
  apply hw_lock_keeps. auto 10 with effects.
Qed.

(** A call of the connection manager, through its interface. *)
Lemma cm_keeps l c : keeps (D := D) (inv l) (inv l) (cm_method (run_call c)).
Proof.
  intros s [Hi Hl]. apply wp_wlp, wp_cm_method.
  eapply wp_mono; [|apply run_call_spec, Hi]. intros o cm [Hcm _]. cbn [obj].
  destruct s as [n w]. cbn [obj] in *. revert n Hi Hl. set_field_inv.
Qed.

Lemma cm_method_bind {A B} (m : M ConnectionManager A) (k : A -> M ConnectionManager B) l :
  keeps (D := D) (inv l) (inv l) (cm_method (bind m k)) ->
  (forall a cm, exists b, k a cm = Ret b cm) ->
  keeps (D := D) (inv l) (inv l) (cm_method m).
Proof.
  intros Hb Hk s Hs. specialize (Hb s Hs). revert Hb.
  unfold wlp, cm_method, pure_method, zoom, bind. destruct (m _) as [a cm| | |]; try done.
  destruct (Hk a cm) as [b ->]. done.
Qed.

Lemma open_keeps c dest flow :
  keeps (D := D) (inv (false, false)) (inv (false, false)) (open_connection c dest flow).
Proof.
  unfold open_connection. apply setup_lock_keeps.
  eapply keeps_bind; [apply (cm_keeps _ (Open c dest flow))|]. intros [rc id].
  apply keeps_if; [by apply keeps_ret|]. eapply keeps_bind; [apply register_keeps|].
  intros r. apply keeps_if; by apply keeps_ret.
Qed.

Lemma add_keeps c dest flow :
  keeps (D := D) (inv (false, false)) (inv (false, false)) (add_connection c dest flow).
Proof.
  unfold add_connection. apply setup_lock_keeps. eapply keeps_bind.
  { eapply cm_method_bind; [apply (cm_keeps _ (Add c dest flow))|]. by eexists. }
  intros rc. apply keeps_if; [by apply keeps_ret|]. eapply keeps_bind; [apply register_keeps|].
  intros r. apply keeps_if; by apply keeps_ret.
Qed.

Lemma close_keeps c :
  keeps (D := D) (inv (false, false)) (inv (false, false)) (close_connection c).
Proof.
  unfold close_connection. apply setup_lock_keeps. eapply keeps_bind; [apply remove_keeps|].
  intros r. apply keeps_if; [by apply keeps_ret|]. eapply keeps_bind.
  { eapply cm_method_bind; [apply (cm_keeps _ (Close c))|]. by eexists. }
  intros rc. apply keeps_if; by apply keeps_ret.
Qed.

Lemma set_lb_keeps l lb : keeps (D := D) (inv l) (inv l) (set_lb lb).
Proof. apply keeps_constant. unfold set_lb, junk. auto with effects. Qed.

Lemma constant_read_or_0 off : constant (D := D) (read_or_0 off).
Proof. unfold read_or_0. auto with effects. Qed.

Lemma constant_read_counters sel out ids : constant (D := D) (read_counters sel out ids).
Proof.
  induction ids as [|i ids IH]; cbn [read_counters]; [auto with effects|].
  unfold usleep. auto 10 using constant_read_or_0 with effects.
Qed.

Lemma constant_perf_round mask : constant (D := D) (perf_round mask).
Proof.
  unfold perf_round, skip_unless, get_perf, get_status, get_packet_counters,
    get_network_counters, get_debug_ports, my.
  repeat (apply constant_bind; [|intros]);
    auto 10 using constant_read_or_0, constant_read_counters with effects.
Qed.

Lemma check_errors_keeps l : keeps (D := D) (inv l) (inv l) check_hw_errors.
Proof.
  unfold check_hw_errors. apply keeps_with_status; [done | auto with effects |].
  intros st. apply keeps_if; by apply keeps_ret.
Qed.
End methods.

(** ** The interface of a NIC *)

(** What the derived classes add to the base (src/sw/src/nic.h): the data plane. *)
Class Nic (N D : Type) `{Platform D} `{Derived N} := {
  nic_ctor : Z -> Z -> Z -> bool -> N;
  nic_dtor : M (sys N D) unit;
  configure_data_plane : Z -> M (sys N D) Z;
  notify_nic_of_new_dma : Z -> Z -> M (sys N D) Z;
  tx_flow_buffer : N -> Z -> Z;
  rx_flow_buffer : N -> Z -> Z
}.

(** Method [m] of a derived object takes bases of [P] to bases of [Q]. *)
Definition keeps_base {N D A} `{Derived N} (P Q : NicCCIP -> Prop) (m : M (sys N D) A) : Prop :=
  forall s, P (base (obj s)) -> wlp m (fun _ s' => Q (base (obj s'))) s.

(** Its promise to the rest of the driver. *)
Class NicLaws (N D : Type) `{Nic N D} := {
  ctor_base indet addr flows master :
    base (nic_ctor indet addr flows master) = NicCCIP_ctor indet addr flows master;
  configure_keeps llc l : keeps_base (inv l) (inv l) (configure_data_plane llc);
  notify_keeps flow bucket l : keeps_base (inv l) (inv l) (notify_nic_of_new_dma flow bucket);
  flow_buffers_own b n :
    tx_flow_buffer (set_base b n) = tx_flow_buffer n /\
    rx_flow_buffer (set_base b n) = rx_flow_buffer n
}.

Section derived.
Context {N D : Type} `{Platform D} `{!Derived N, !DerivedLaws N}.
Implicit Types P Q R : NicCCIP -> Prop.

Lemma lift_keeps {A} P Q (m : M (sys NicCCIP D) A) : keeps P Q m -> keeps_base (N := N) P Q (lift m).
Proof.
  intros Hm s Hs. apply wlp_lift. eapply wlp_mono; [|by apply Hm].
  intros a t Ht. cbn [obj]. by rewrite base_set.
Qed.

Lemma kb_bind {A B} P Q R (m : M (sys N D) A) (k : A -> M (sys N D) B) :
  keeps_base P R m -> (forall a, keeps_base R Q (k a)) -> keeps_base P Q (bind m k).
Proof.
  intros Hm Hk s Hs. apply wlp_bind. eapply wlp_mono; [|by apply Hm].
  intros a s' Hs'. by apply Hk.
Qed.

Lemma kb_lift {A B} P Q R (m : M (sys NicCCIP D) A) (k : A -> M (sys N D) B) :
  keeps P R m -> (forall a, keeps_base R Q (k a)) -> keeps_base P Q (bind (lift m) k).
Proof. intros Hm. apply kb_bind. by apply lift_keeps. Qed.

Lemma kb_const {A B} P Q (m : M (sys NicCCIP D) A) (k : A -> M (sys N D) B) :
  constant m -> (forall a, keeps_base P Q (k a)) -> keeps_base P Q (bind (lift m) k).
Proof. intros Hm. apply kb_lift. by apply keeps_constant. Qed.

Lemma kb_ret {A} P Q (a : A) : (forall n, P n -> Q n) -> keeps_base (N := N) (D := D) P Q (ret a).
Proof. intros HPQ s. apply HPQ. Qed.

Lemma kb_if {A} P Q (b : bool) (m1 m2 : M (sys N D) A) :
  keeps_base P Q m1 -> keeps_base P Q m2 -> keeps_base P Q (if b then m1 else m2).
Proof. by destruct b. Qed.

Lemma kb_my {A B} P Q (f : N -> A) (k : A -> M (sys N D) B) :
  (forall a, keeps_base P Q (k a)) -> keeps_base P Q (bind (my f) k).
Proof. intros Hk s Hs. apply wlp_bind. by apply Hk. Qed.

(** Updating the fields of the derived class. *)
Lemma kb_update {B} P Q (f : N -> N) (k : unit -> M (sys N D) B) :
  (forall n, base (f n) = base n) -> keeps_base P Q (k tt) -> keeps_base P Q (bind (update f) k).
Proof.
  intros Hf Hk s Hs. apply wlp_bind. unfold update, modify, wlp at 1. apply Hk. cbn [obj].
  by rewrite Hf.
Qed.

Lemma kb_call {B} P Q c (k : fpga_result * Z -> M (sys N D) B) :
  (forall a, keeps_base P Q (k a)) -> keeps_base P Q (bind (call c) k).
Proof.
  intros Hk s Hs. apply wlp_call. intros r v s' [Ho _] _. apply Hk. by rewrite Ho.
Qed.

Lemma kb_massert {B} P Q b (k : unit -> M (sys N D) B) :
  keeps_base P Q (k tt) -> keeps_base P Q (bind (massert b) k).
Proof. intros Hk s Hs. apply wlp_bind. unfold massert, wlp at 1. destruct b; [by apply Hk|done]. Qed.

Lemma kb_or_fail P Q (m : M (sys NicCCIP D) fpga_result) (k : M (sys N D) Z) :
  (forall n, P n -> Q n) -> constant m -> keeps_base P Q k -> keeps_base P Q (or_fail (lift m) k).
Proof.
  intros HPQ Hm Hk. apply kb_const; [done|]. intros r. apply kb_if; [done|by apply kb_ret].
Qed.

(** The object while its data plane is configured. *)
Definition configuring (l : bool * bool) (n : NicCCIP) : Prop := inv l n /\ connected_ n = true.

Lemma configuring_inv l n : configuring l n -> inv l n.
Proof. by intros [? _]. Qed.

Lemma configured_keeps l : keeps_base (N := N) (D := D) (configuring l) (inv l) configured.
Proof.
  unfold configured. apply (kb_lift _ _ (inv l)); [|intros _; by apply kb_ret].
  apply keeps_update. unfold configuring. set_field_inv.
Qed.

Lemma read_ccip_mode_keeps l (k : Z -> M (sys N D) Z) :
  (forall mode, keeps_base (configuring l) (inv l) (k mode)) ->
  keeps_base (inv l) (inv l) (read_ccip_mode k).
Proof.
  intros Hk. unfold read_ccip_mode. eapply kb_lift.
  { intros s Hs. instantiate (1 := configuring l). unfold massert_my, bind, my, gets, massert, wlp.
    cbn. destruct (connected_ (obj s)) eqn:E; [by split|done]. }
  intros _. apply kb_const; [auto with effects|]. intros _.
  apply kb_const; [auto with effects|]. intros r.
  apply kb_if; [apply kb_ret, configuring_inv | apply Hk].
Qed.

Lemma write_regs_keeps l ws (k : M (sys N D) Z) :
  keeps_base (configuring l) (inv l) k -> keeps_base (configuring l) (inv l) (write_regs ws k).
Proof.
  intros Hk. induction ws as [|[off v] ws IH]; cbn [write_regs]; [done|].
  apply kb_or_fail; [apply configuring_inv | auto with effects | done].
Qed.
End derived.

Section alloc.
Context {D : Type} `{Platform D}.

Lemma constant_round_up v : constant (D := D) (round_up_to_pagesize v).
Proof. unfold round_up_to_pagesize. auto 10 with effects. Qed.

Lemma constant_prepare_pages ps buf pages w : constant (D := D) (prepare_pages ps buf pages w).
Proof.
  revert w. induction pages as [|i pages IH]; intros w; cbn [prepare_pages]; auto with effects.
Qed.

Lemma constant_alloc_buffer size w io0 llc : constant (D := D) (alloc_buffer size w io0 llc).
Proof.
  unfold alloc_buffer. apply constant_bind; [apply constant_round_up|]. intros mem.
  apply constant_if; [auto with effects|]. apply constant_bind; [auto with effects|]. intros r.
  apply constant_if; [auto with effects|]. apply constant_bind; [apply constant_prepare_pages|].
  intros [wsid|]; auto 10 with effects.
Qed.
End alloc.

Section instances.
Context {D : Type} `{Platform D} (l_tx l_rx : Z).

Lemma alloc_rings_keeps {N} `{!Derived N, !DerivedLaws N} (rings : N -> RingBuffers)
    (set_rings : RingBuffers -> N -> N) `{!HasRings N rings set_rings} llc l (k : M (sys N D) Z) :
  keeps_base (configuring l) (inv l) k ->
  keeps_base (configuring l) (inv l) (alloc_rings l_tx l_rx rings set_rings llc k).
Proof.
  intros Hk. unfold alloc_rings. apply kb_update; [intros; apply base_set_rings|].
  apply kb_my. intros b. apply kb_const; [apply constant_alloc_buffer|]. intros [[buf wsid] pa].
  apply kb_update; [intros; apply base_set_rings|].
  apply kb_if; [apply kb_ret, configuring_inv|].
  apply kb_update; [intros; apply base_set_rings|]. done.
Qed.

#[global] Instance polling_ops : Nic Polling.NicPollingCCIP D := {|
  nic_ctor := Polling.ctor;
  nic_dtor := Polling.dtor;
  configure_data_plane := Polling.configure_data_plane l_tx l_rx;
  notify_nic_of_new_dma := Polling.notify_nic_of_new_dma;
  tx_flow_buffer := Polling.get_tx_flow_buffer;
  rx_flow_buffer := Polling.get_rx_flow_buffer
|}.

#[global] Instance polling_laws : NicLaws Polling.NicPollingCCIP D.
Proof.
  split; [done| |intros; by apply kb_ret|done].
  intros llc l. apply read_ccip_mode_keeps. intros mode. apply alloc_rings_keeps; [apply _|].
  apply kb_my. intros b. apply write_regs_keeps, configured_keeps.
Qed.

#[global] Instance dma_ops : Nic Dma.NicDmaCCIP D := {|
  nic_ctor := Dma.ctor;
  nic_dtor := Dma.dtor;
  configure_data_plane := Dma.configure_data_plane l_tx l_rx;
  notify_nic_of_new_dma := Dma.notify_nic_of_new_dma;
  tx_flow_buffer := Dma.get_tx_flow_buffer;
  rx_flow_buffer := Dma.get_rx_flow_buffer
|}.

#[global] Instance dma_laws : NicLaws Dma.NicDmaCCIP D.
Proof.
  split; [done|..|done].
  - intros llc l. apply read_ccip_mode_keeps. intros mode.
    apply kb_if; [apply kb_ret, configuring_inv|]. apply alloc_rings_keeps; [apply _|].
    apply kb_my. intros b. apply write_regs_keeps, configured_keeps.
  - intros flow bucket l. cbn. unfold Dma.notify_nic_of_new_dma. apply kb_my. intros b.
    do 2 apply kb_massert. apply kb_my. intros [|]; [done|].
    apply kb_update; [done|]. apply kb_const; [auto with effects|]. intros r.
    apply kb_if; [by apply kb_ret|]. apply kb_update; [done|]. by apply kb_ret.
Qed.

#[global] Instance mmio_ops : Nic Mmio.NicMmioCCIP D := {|
  nic_ctor := Mmio.ctor;
  nic_dtor := Mmio.dtor;
  configure_data_plane := Mmio.configure_data_plane l_tx l_rx;
  notify_nic_of_new_dma := Mmio.notify_nic_of_new_dma;
  tx_flow_buffer := Mmio.get_tx_flow_buffer;
  rx_flow_buffer := Mmio.get_rx_flow_buffer
|}.

#[global] Instance mmio_laws : NicLaws Mmio.NicMmioCCIP D.
Proof.
  split; [done| |intros; by apply kb_ret|done].
  intros llc l. apply read_ccip_mode_keeps. intros mode.
  assert (forall n, configuring l n -> inv l n) as Hci by apply configuring_inv.
  apply kb_if; [by apply kb_ret|]. apply kb_update; [by intros []|]. apply kb_my. intros n.
  apply kb_const; [apply constant_alloc_buffer|]. intros [[buf wsid] pa].
  apply kb_update; [by intros []|]. apply kb_if; [by apply kb_ret|].
  apply kb_update; [by intros []|]. apply kb_my. intros n1.
  do 2 (apply kb_or_fail; [done | auto with effects |]). apply kb_massert, kb_call. intros m.
  apply kb_if; [by apply kb_ret|]. apply kb_update; [by intros []|].
  apply kb_if; [by apply kb_ret|]. apply kb_update; [by intros []|]. apply kb_my. intros n2.
  do 2 (apply kb_or_fail; [done | auto with effects |]). apply configured_keeps.
Qed.
End instances.

(** ** Histories of a NIC *)
Inductive api :=
| Connect (bus : Z)
| Configure (llc_anti_aliasing : Z)
| Initialize (host_phy : PhyAddr) (host_ipv4 : IPv4)
| Start
| Stop
| RunPerf
| PerfRound (mask : NicPerfMask)
| CheckErrors
| OpenConnection (c_id : Z) (dest : IPv4) (flow : Z)
| AddConnection (c_id : Z) (dest : IPv4) (flow : Z)
| CloseConnection (c_id : Z)
| SetLb (lb : Z)
| Notify (flow bucket : Z).

Section history.
Context {N D : Type} `{Nic N D} `{!DerivedLaws N} (phy : bool).

Definition run_api (a : api) : M (sys N D) unit :=
  let do_ {A} (m : M (sys N D) A) := m ;; ret tt in
  match a with
  | Connect bus => do_ (lift (connect_to_nic bus))
  | Configure llc => do_ (configure_data_plane llc)
  | Initialize p ip => do_ (lift (initialize_nic phy p ip))
  | Start => do_ mode_start
  | Stop => do_ mode_stop
  | RunPerf => do_ (lift run_perf_thread)
  | PerfRound mask => do_ (lift (perf_round mask))
  | CheckErrors => do_ (lift check_hw_errors)
  | OpenConnection c dest flow => do_ (lift (open_connection c dest flow))
  | AddConnection c dest flow => do_ (lift (add_connection c dest flow))
  | CloseConnection c => do_ (lift (close_connection c))
  | SetLb lb => do_ (lift (set_lb lb))
  | Notify flow bucket => do_ (notify_nic_of_new_dma flow bucket)
  end.

(** One call of the API that returns. *)
Definition api_step (s s' : sys N D) : Prop := exists a, run_api a s = Ret tt s'.

Lemma mode_start_keeps l : keeps_base (N := N) (D := D) (inv l) (inv l) mode_start.
Proof.
  apply lift_keeps. do 2 (apply keeps_then; [auto with effects|]; intros _). apply start_keeps.
Qed.

Lemma mode_stop_keeps l : keeps_base (N := N) (D := D) (inv l) (inv l) mode_stop.
Proof.
  apply lift_keeps. do 2 (apply keeps_then; [auto with effects|]; intros _). apply stop_keeps.
Qed.

Lemma run_api_keeps `{!NicLaws N D} a :
  keeps_base (N := N) (D := D) (inv (false, false)) (inv (false, false)) (run_api a).
Proof.
  destruct a; (eapply kb_bind; [|intros; by apply kb_ret]).
  - apply lift_keeps, connect_keeps.
  - apply configure_keeps.
  - apply lift_keeps, initialize_keeps.
  - apply mode_start_keeps.
  - apply mode_stop_keeps.
  - apply lift_keeps, run_perf_keeps.
  - apply lift_keeps, keeps_constant, constant_perf_round.
  - apply lift_keeps, check_errors_keeps.
  - apply lift_keeps, open_keeps.
  - apply lift_keeps, add_keeps.
  - apply lift_keeps, close_keeps.
  - apply lift_keeps, set_lb_keeps.
  - apply notify_keeps.
Qed.
End history.

(** C21. The stages of a NIC stay in order: after any sequence of API calls that
    return, from the constructor, for any of the three interfaces and any behaviour
    of the hardware, a started nic is initialised, an initialised one has its data
    plane configured and a configured one is connected; the flag and the thread of
    the perf loop agree, both setup locks are free, and the connection manager's
    free and open ids partition its capacity. *)
Theorem nic_lifecycle {N D} `{NicLaws N D} `{!DerivedLaws N} (phy : bool)
    (indet addr flows : Z) (master : bool) (s0 s : sys N D) :
  base (obj s0) = NicCCIP_ctor indet addr flows master -> 0 <= flows -> flows + 100 <= 2 ^ 32 ->
  rtc (api_step phy) s0 s ->
  nic_inv (base (obj s)) /\ locks (base (obj s)) = (false, false).
Proof.
  intros Hb Hf Hm Hr. assert (inv (false, false) (base (obj s0))) as Hi.
  { rewrite Hb. split; [|done]. split; try done. cbn [NicCCIP_ctor conn_manager_].
    rewrite wrap_small by (unfold in_width; lia). apply cm_inv_ctor. lia. }
  clear Hb. induction Hr as [s|s1 s2 s3 [a Ha] _ IH]; [done|].
  apply IH. apply (wlp_ret_inv _ _ _ _ _ Ha (run_api_keeps phy a s1 Hi)).
Qed.

(** Connecting and configuring a polling nic of four flows. *)
Lemma nic_lifecycle_witness :
  exists s : sys Polling.NicPollingCCIP nat,
    dp_configured_ (base (obj s)) = true /\
    nic_inv (base (obj s)) /\ locks (base (obj s)) = (false, false).
Proof.
  pose (s0 := boot (Polling.ctor 0 0x30000 4 true)).
  assert (exists s, rtc (api_step (H1 := @polling_ops nat (scripted one_page) 3 3) false) s0 s /\
            dp_configured_ (base (obj s)) = true) as (s & Hr & Hd).
  { eexists. split.
    - eapply rtc_l; [exists (Connect 0); vm_compute; reflexivity|].
      eapply rtc_l; [exists (Configure 0); vm_compute; reflexivity|]. apply rtc_refl.
    - reflexivity. }
  exists s. split; [exact Hd|].
  eapply (@nic_lifecycle _ nat (scripted one_page) _ _ (polling_laws 3 3) _ false 0 0x30000 4 true s0);
    [reflexivity|lia|lia|exact Hr].
Defined.
