(* ===== verification/NicLiveness.v ===== *)
(** * Bring-up succeeds on hardware that follows its contract

    [NicHardware] states what the driver relies on of the FPGA's register file: the
    status register shows the stage the hardware is in, and each command moves it to
    the next stage within the time the driver waits.  Against that contract the three
    phases of the life of a nic ([initialize_nic], [start_nic], [stop_nic]) return 0
    and no assert fires. *)

From S2P Require Import Prelude Wire ConnectionManager Host HssiCsrs Hssi NicCcip NicProtocol.
From S2P Require Import NicLifecycle.

(** The stages of the hardware, with the seconds left of a transition. *)
Inductive hw_stage := Idle | Initialising (k : nat) | Ready | Starting (k : nat) | Running
  | Stopping (k : nat).

(** One second passes. *)
Definition tick (h : hw_stage) : hw_stage :=
  match h with
  | Initialising (S k) => Initialising k
  | Initialising O => Ready
  | Starting (S k) => Starting k
  | Starting O => Running
  | Stopping (S k) => Stopping k
  | Stopping O => Ready
  | _ => h
  end.

(** The bits of the status register: ready and running. *)
Definition shows (h : hw_stage) : Z * Z :=
  match h with
  | Idle | Initialising _ => (0, 0)
  | Ready | Starting _ => (1, 0)
  | Running | Stopping _ => (1, 1)
  end.

(** A transition that the driver's wait can see: fourteen sleeps lie between the
    first and the last of its fifteen polls. *)
Definition in_time (k : nat) : Prop := (k < 14)%nat.

Class NicHardware (D : Type) `{Platform D} (addr : Z) := {
  stage_of : D -> hw_stage;
  status_read d :
    exists v d', io (ReadMMIO64 (u64 (addr + iRegNicStatus))) d = (FPGA_OK, v, d') /\
      stage_of d' = stage_of d /\ error (decode_status (u64 v)) = 0 /\
      shows (stage_of d) = (ready (decode_status (u64 v)), running (decode_status (u64 v)));
  mode_read d :
    exists v d', io (ReadMMIO64 (u64 (addr + iRegNicMode))) d = (FPGA_OK, v, d') /\
      stage_of d' = stage_of d /\ phy_network_mode (decode_mode (u64 v)) = iPhyNetDisabled;
  addresses_written off w d :
    off = iRegPhyNetAddr \/ off = iRegIPv4NetAddr ->
    exists v d', io (WriteMMIO64 (u64 (addr + off)) w) d = (FPGA_OK, v, d') /\
      stage_of d' = stage_of d;
  init_written d :
    stage_of d = Idle ->
    exists v d' k, io (WriteMMIO64 (u64 (addr + iRegNicInit)) iConstNicInit) d = (FPGA_OK, v, d') /\
      stage_of d' = Initialising k /\ in_time k;
  start_written d :
    stage_of d = Ready ->
    exists v d' k, io (WriteMMIO64 (u64 (addr + iRegNicStart)) iConstNicStart) d = (FPGA_OK, v, d') /\
      stage_of d' = Starting k /\ in_time k;
  stop_written d :
    stage_of d = Running ->
    exists v d' k, io (WriteMMIO64 (u64 (addr + iRegNicStart)) iConstNicStop) d = (FPGA_OK, v, d') /\
      stage_of d' = Stopping k /\ in_time k;
  second_passes d :
    exists r v d', io (Delay (1 * 10 ^ 9)) d = (r, v, d') /\ stage_of d' = tick (stage_of d)
}.

Section liveness.
Context {D : Type} `{Platform D} (addr : Z) `{!NicHardware D addr}.
Implicit Types s : sys NicCCIP D.

Definition hw s : hw_stage := stage_of (dev (wld s)).

(** The driver's object [n] on hardware in stage [h]. *)
Definition at_stage (n : NicCCIP) (h : hw_stage) s : Prop := obj s = n /\ hw s = h.

Lemma wp_io {A} c r v d' (k : fpga_result * Z -> M (sys NicCCIP D) A) Q s :
  io c (dev (wld s)) = (r, v, d') ->
  (forall t, wp (k (r, v)) Q (Sys (obj s) (mkWorld d' t))) ->
  wp (bind (call c) k) Q s.
Proof.
  intros E Hk. apply wp_bind. unfold wp at 1, call, do_io. rewrite E. apply Hk.
Qed.

Lemma wp_write {A} off w v d' (k : fpga_result -> M (sys NicCCIP D) A) Q n h s :
  base_nic_addr_ n = addr -> obj s = n ->
  io (WriteMMIO64 (u64 (addr + off)) w) (dev (wld s)) = (FPGA_OK, v, d') ->
  stage_of d' = h ->
  (forall s', at_stage n h s' -> wp (k FPGA_OK) Q s') ->
  wp (bind (write_reg off w) k) Q s.
Proof.
  intros Ha Ho E Hh Hk. unfold write_reg. apply wp_assoc, wp_bind.
  unfold my, gets, wp at 1. rewrite Ho, Ha. unfold writeMMIO64. apply wp_assoc.
  eapply wp_io; [exact E|]. intros t. apply wp_ret_bind. by apply Hk.
Qed.

Lemma wp_ok_write off w v d' k Q n h s :
  base_nic_addr_ n = addr -> obj s = n ->
  io (WriteMMIO64 (u64 (addr + off)) w) (dev (wld s)) = (FPGA_OK, v, d') ->
  stage_of d' = h ->
  (forall s', at_stage n h s' -> wp k Q s') ->
  wp (or_fail (write_reg off w) k) Q s.
Proof. intros. by eapply wp_write. Qed.

Lemma wp_hw_status {A} n h (k : Z * option NicHwStatus -> M (sys NicCCIP D) A) Q s :
  base_nic_addr_ n = addr -> connected_ n = true -> at_stage n h s ->
  (forall s' st, at_stage n h s' -> error st = 0 -> (ready st, running st) = shows h ->
     wp (k (0, Some st)) Q s') ->
  wp (bind get_nic_hw_status k) Q s.
Proof.
  intros Ha Hc [Ho Hh] Hk. unfold get_nic_hw_status. apply wp_assoc, wp_massert_my; [by rewrite Ho|].
  apply wp_assoc. unfold read_reg. apply wp_assoc, wp_bind. unfold my, gets, wp at 1.
  rewrite Ho, Ha. destruct (status_read (dev (wld s))) as (v & d' & E & Hd & He & Hs).
  eapply wp_io; [exact E|]. intros t. cbn [fst snd is_ok]. rewrite is_ok_OK.
  apply wp_ret_bind. apply Hk; [|done|].
  - split; [done|]. unfold hw in *. cbn. congruence.
  - rewrite <- Hs. unfold hw in Hh. by rewrite Hh.
Qed.

Lemma wp_second {A} n h (k : unit -> M (sys NicCCIP D) A) Q s :
  at_stage n h s -> (forall s', at_stage n (tick h) s' -> wp (k tt) Q s') ->
  wp (bind (sleep NIC_INIT_DELAY_S) k) Q s.
Proof.
  intros [Ho Hh] Hk. unfold sleep, NIC_INIT_DELAY_S. apply wp_assoc.
  destruct (second_passes (dev (wld s))) as (r & v & d' & E & Hd).
  eapply wp_io; [exact E|]. intros t. apply wp_ret_bind. apply Hk.
  split; [done|]. unfold hw in *. cbn. congruence.
Qed.

(** A wait ends at the stage the hardware is moving to: [moving k] shows that the
    transition is under way, [final] that it is over. *)
Lemma wait_ends n again (moving : nat -> hw_stage) final m k s :
  base_nic_addr_ n = addr -> connected_ n = true ->
  (forall j, tick (moving (S j)) = moving j) -> tick (moving O) = final -> tick final = final ->
  (forall j st, (ready st, running st) = shows (moving j) -> again st = true) ->
  (forall st, (ready st, running st) = shows final -> again st = false) ->
  (k + 1 < m)%nat -> at_stage n (moving k) s ->
  wp (wait_hw again m) (fun r s' => exists st, r = (0, Some st) /\ at_stage n final s' /\
        error st = 0 /\ (ready st, running st) = shows final) s.
Proof.
  intros Ha Hc Hstep Hlast Hfin Hmov Hend. revert m s. induction k as [|k IH]; intros m s Hm Hs.
  all: destruct m as [|m]; [lia|]; cbn [wait_hw]; eapply wp_hw_status; [done..|];
    intros s1 st Hs1 He Hsh; eapply wp_second; [exact Hs1|]; intros s2 Hs2;
    rewrite (Hmov _ _ Hsh); destruct m as [|m]; [lia|]; cbn [Nat.eqb negb andb].
  - rewrite Hlast in Hs2. cbn [wait_hw]. eapply wp_hw_status; [done..|].
    intros s3 st3 Hs3 He3 Hsh3. eapply wp_second; [exact Hs3|]. intros s4 Hs4.
    rewrite (Hend _ Hsh3). cbn [andb]. apply wp_ret. rewrite Hfin in Hs4. by exists st3.
  - rewrite Hstep in Hs2. apply IH; [lia|done].
Qed.

Lemma wp_status n h (k : NicHwStatus -> M (sys NicCCIP D) Z) Q s :
  base_nic_addr_ n = addr -> connected_ n = true -> at_stage n h s ->
  (forall s' st, at_stage n h s' -> error st = 0 -> (ready st, running st) = shows h ->
     wp (k st) Q s') ->
  wp (with_status get_nic_hw_status k) Q s.
Proof. intros. by eapply wp_hw_status. Qed.

(** A wait followed by its continuation. *)
Lemma wp_wait n again (moving : nat -> hw_stage) final k (c : NicHwStatus -> M (sys NicCCIP D) Z) Q s :
  base_nic_addr_ n = addr -> connected_ n = true ->
  (forall j, tick (moving (S j)) = moving j) -> tick (moving O) = final -> tick final = final ->
  (forall j st, (ready st, running st) = shows (moving j) -> again st = true) ->
  (forall st, (ready st, running st) = shows final -> again st = false) ->
  in_time k -> at_stage n (moving k) s ->
  (forall s' st, at_stage n final s' -> error st = 0 -> (ready st, running st) = shows final ->
     wp (c st) Q s') ->
  wp (with_status (wait_hw again NIC_INIT_TIMEOUT) c) Q s.
Proof.
  intros. unfold with_status. apply wp_bind.
  eapply wp_mono; [|eapply wait_ends with (moving := moving) (final := final) (k := k); try done;
                    unfold in_time, NIC_INIT_TIMEOUT in *; lia].
  intros r s' (st & -> & Hs' & He & Hsh). auto.
Qed.

Lemma wp_massert {A} b (k : unit -> M (sys NicCCIP D) A) Q s :
  b = true -> wp (k tt) Q s -> wp (bind (massert b) k) Q s.
Proof. by intros ->. Qed.

Lemma wp_update {A} f (k : unit -> M (sys NicCCIP D) A) Q n h s :
  at_stage n h s -> (forall s', at_stage (f n) h s' -> wp (k tt) Q s') ->
  wp (bind (update f) k) Q s.
Proof.
  intros [Ho Hh] Hk. apply wp_bind. unfold update, modify, wp at 1. apply Hk.
  split; [cbn; congruence | exact Hh].
Qed.

Lemma initialize_live n p ip s :
  base_nic_addr_ n = addr -> connected_ n = true -> dp_configured_ n = true ->
  at_stage n Idle s ->
  wp (initialize_nic false p ip)
    (fun r s' => r = 0 /\ at_stage (set_initialized true (set_phy_network_en false n)) Ready s') s.
Proof.
  intros Ha Hc Hd Hs. unfold initialize_nic.
  apply wp_massert_my; [by destruct Hs as [-> _]|]. apply wp_massert_my; [by destruct Hs as [-> _]|].
  eapply wp_status; [done..|]. intros s1 st Hs1 He [= Hr Hn]. rewrite Hr, Hn, He.
  do 3 (apply wp_massert; [done|]).
  unfold read_reg. apply wp_assoc, wp_bind. unfold my, gets, wp at 1.
  destruct Hs1 as [Ho1 Hh1]. rewrite Ho1, Ha.
  destruct (mode_read (dev (wld s1))) as (v & d' & E & Hd' & Hm).
  eapply wp_io; [exact E|]. intros t. cbn [fst snd]. rewrite is_ok_OK, Hm. cbn [negb Z.eqb iPhyNetDisabled].
  eapply (wp_update _ _ _ n Idle); [split; cbn; unfold hw in *; cbn; congruence|]. intros s2 [Ho2 Hh2].
  set (n2 := set_phy_network_en false n) in *.
  assert (base_nic_addr_ n2 = addr) as Ha2 by (unfold n2; by destruct n).
  assert (connected_ n2 = true) as Hc2 by (unfold n2; by destruct n).
  destruct (addresses_written iRegPhyNetAddr (phy_addr_word p) (dev (wld s2))) as (v3 & d3 & E3 & H3); [by left|].
  eapply wp_ok_write; [done|done|exact E3|rewrite H3; exact Hh2|]. intros s3 [Ho3 Hh3].
  destruct (addresses_written iRegIPv4NetAddr (get_addr_inv ip) (dev (wld s3))) as (v4 & d4 & E4 & H4); [by right|].
  eapply wp_ok_write; [done|done|exact E4|rewrite H4; exact Hh3|]. intros s4 [Ho4 Hh4].
  destruct (init_written (dev (wld s4)) Hh4) as (v5 & d5 & k & E5 & H5 & Hk).
  eapply wp_ok_write; [done|done|exact E5|exact H5|]. intros s5 Hs5.
  eapply (wp_wait n2 _ Initialising Ready k); try done.
  { intros j st' [= -> _]. done. }
  { intros st' [= -> _]. done. }
  intros s6 st' Hs6 He' [= Hr' Hn']. rewrite Hr', Hn', He'. cbn [Z.eqb].
  do 3 (apply wp_massert; [done|]). eapply wp_update; [exact Hs6|]. intros s7 Hs7. by apply wp_ret.
Qed.

Lemma start_live n s :
  base_nic_addr_ n = addr -> connected_ n = true -> initialized_ n = true ->
  dp_configured_ n = true -> started_ n = false -> at_stage n Ready s ->
  wp start_nic (fun r s' => r = 0 /\ at_stage (set_started true n) Running s') s.
Proof.
  intros Ha Hc Hi Hd Hst Hs. unfold start_nic.
  do 4 (apply wp_massert_my; [destruct Hs as [-> _]; by rewrite ?Hst|]).
  eapply wp_status; [done..|]. intros s1 st Hs1 He [= Hr Hn]. rewrite Hr, Hn, He.
  do 3 (apply wp_massert; [done|]). destruct Hs1 as [Ho1 Hh1].
  destruct (start_written (dev (wld s1)) Hh1) as (v2 & d2 & k & E2 & H2 & Hk).
  eapply wp_ok_write; [done|done|exact E2|exact H2|]. intros s2 Hs2.
  eapply (wp_wait n _ Starting Running k); try done.
  { intros j st' [= _ ->]. done. }
  { intros st' [= _ ->]. done. }
  intros s3 st' Hs3 He' [= Hr' Hn']. rewrite Hr', Hn', He'. cbn [Z.eqb].
  do 3 (apply wp_massert; [done|]). eapply wp_update; [exact Hs3|]. intros s4 Hs4. by apply wp_ret.
Qed.

Lemma stop_live n s :
  base_nic_addr_ n = addr -> connected_ n = true -> started_ n = true ->
  collect_perf_ n = false -> at_stage n Running s ->
  wp stop_nic (fun r s' => r = 0 /\ at_stage (set_started false n) Ready s') s.
Proof.
  intros Ha Hc Hst Hp Hs. unfold stop_nic. apply wp_massert_my; [by destruct Hs as [-> _]|].
  eapply wp_status; [done..|]. intros s1 st Hs1 He [= Hr Hn]. rewrite Hr, Hn.
  do 2 (apply wp_massert; [done|]). destruct Hs1 as [Ho1 Hh1].
  apply wp_bind. unfold my, gets, wp at 1. rewrite Ho1, Hp. apply wp_ret_bind.
  destruct (stop_written (dev (wld s1)) Hh1) as (v2 & d2 & k & E2 & H2 & Hk).
  eapply wp_ok_write; [done|done|exact E2|exact H2|]. intros s2 Hs2.
  eapply (wp_wait n _ Stopping Ready k); try done.
  { intros j st' [= _ ->]. done. }
  { intros st' [= _ ->]. done. }
  intros s3 st' Hs3 He' [= Hr' Hn']. rewrite Hr', Hn'. cbn [Z.eqb].
  do 2 (apply wp_massert; [done|]). eapply wp_update; [exact Hs3|]. intros s4 Hs4. by apply wp_ret.
Qed.
End liveness.

(** C23. Bring-up and shut-down succeed: on hardware that is idle and follows its
    register contract, a connected nic whose data plane is configured initialises,
    starts and stops; every call returns 0 (no assert fires, no wait times out), the
    flags follow, and the hardware ends ready. *)
Theorem bring_up_succeeds {D} `{Platform D} (addr : Z) `{!NicHardware D addr}
    (n : NicCCIP) (p : PhyAddr) (ip : IPv4) (s : sys NicCCIP D) :
  base_nic_addr_ n = addr -> connected_ n = true -> dp_configured_ n = true ->
  started_ n = false -> collect_perf_ n = false -> obj s = n -> stage_of (dev (wld s)) = Idle ->
  wp (let! r1 := initialize_nic false p ip in
      let! r2 := start_nic in
      let! n2 := my (fun n => n) in
      let! r3 := stop_nic in ret (r1, r2, started_ n2, r3))
    (fun r s' => r = (0, 0, true, 0) /\ stage_of (dev (wld s')) = Ready /\
                 started_ (obj s') = false /\ initialized_ (obj s') = true) s.
Proof.
  intros Ha Hc Hd Hst Hp Ho Hh.
  apply wp_bind. eapply wp_mono; [|by apply (initialize_live addr n p ip)].
  intros r1 s1 [-> Hs1]. apply wp_bind. destruct n. cbn in *. subst.
  eapply wp_mono; [|eapply (start_live addr); [..|exact Hs1]; done]. intros r2 s2 [-> [Ho2 Hh2]]. apply wp_bind.
  unfold my at 1, gets, wp at 1. apply wp_bind.
  eapply wp_mono; [|eapply (stop_live addr); [..|exact (conj Ho2 Hh2)]; done]. intros r3 s3 [-> [Ho3 Hh3]].
  apply wp_ret. rewrite Ho3, Ho2. done.
Qed.

(** ** A device that follows the contract

    Each transition takes two seconds. *)
Definition stage_word (h : hw_stage) : Z := (shows h).1 * 2 ^ 3 + (shows h).2 * 2 ^ 4.

Definition model_io (c : io_call) (h : hw_stage) : fpga_result * Z * hw_stage :=
  match c with
  | ReadMMIO64 a => (FPGA_OK, if a =? iRegNicStatus then stage_word h else 0, h)
  | WriteMMIO64 a v =>
      (FPGA_OK, 0,
       if (a =? iRegNicInit) && (v =? iConstNicInit) then Initialising 2
       else if (a =? iRegNicStart) && (v =? iConstNicStart) then Starting 2
       else if (a =? iRegNicStart) && (v =? iConstNicStop) then Stopping 2
       else h)
  | Delay _ => (FPGA_OK, 0, tick h)
  | _ => (FPGA_OK, 1, h)
  end.

#[local] Instance model_platform : Platform hw_stage := {|
  io := model_io;
  stack_junk _ := 0;
  wide_shl x n := 0;
  getpagesize := 4096;
  strcmp_s a b := if bool_decide (a = b) then 0 else 1;
  uuid_parse_afu := None
|}.

#[local] Instance model_hardware : NicHardware hw_stage 0.
Proof.
  refine {| stage_of := fun h => h |}.
  - intros h. exists (stage_word h), h. split; [reflexivity|]. by destruct h.
  - intros h. exists 0, h. done.
  - intros off w h [-> | ->]; by exists 0, h.
  - intros h _. eexists _, _, 2%nat. split; [reflexivity|]. split; [done|]. unfold in_time. lia.
  - intros h _. eexists _, _, 2%nat. split; [reflexivity|]. split; [done|]. unfold in_time. lia.
  - intros h _. eexists _, _, 2%nat. split; [reflexivity|]. split; [done|]. unfold in_time. lia.
  - intros h. by exists FPGA_OK, 0, (tick h).
Defined.

Definition configured_nic : NicCCIP :=
  set_dp_configured true (set_connected true (NicCCIP_ctor 0 0 4 true)).

Lemma bring_up_succeeds_witness :
  exists s', (let! r1 := initialize_nic false server_phy_addr test_addr in
              let! r2 := start_nic in
              let! n2 := my (fun n => n) in
              let! r3 := stop_nic in ret (r1, r2, started_ n2, r3))
               (Sys configured_nic (mkWorld Idle [])) = Ret (0, 0, true, 0) s' /\
    dev (wld s') = Ready.
Proof.
  pose proof (bring_up_succeeds 0 configured_nic server_phy_addr test_addr
                (Sys configured_nic (mkWorld Idle []))
                eq_refl eq_refl eq_refl eq_refl eq_refl eq_refl eq_refl) as Hw.
  apply wp_ret_inv in Hw as (r & s' & E & -> & Hd & _). exists s'. split; [exact E | exact Hd].
Defined.
