(* ===== verification/NicOwner.v ===== *)
(** * Owners of a NIC

    The threaded server and the client pool (src/sw/src/rpc_threaded_server.cc,
    rpc_client_pool.h) own a NIC through a [std::unique_ptr<Nic>] and bring it up in
    the same four steps.  This file has what they share: calls through the pointer,
    its replacement, the bring-up, and the rings that a polling NIC has after it. *)

From S2P Require Import Prelude Wire Queues ConnectionManager Host HssiCsrs Hssi NicCcip.
From S2P Require Import NicProtocol NicModes NicBuffers NicLifecycle.

(** An object of type [O] with a [nic_] member. *)
Class NicOwner (O N : Type) := {
  nic_ : O -> option N;
  set_nic : option N -> O -> O;
  nic_set n o : nic_ (set_nic n o) = n;
  set_nic_twice n n' o : set_nic n (set_nic n' o) = set_nic n o
}.

Section owner.
Context {O N D : Type} `{NicOwner O N} `{Nic N D}.
Abbreviation io_ A := (M (sys O D) A).

(** [nic_->m(...)]; the null pointer faults. *)
Definition on_nic {A} (m : M (sys N D) A) : io_ A :=
  fun s =>
    match nic_ (obj s) with
    | None => Fault
    | Some n =>
        zoom (fun s => Sys n (wld s)) (fun t s => Sys (set_nic (Some (obj t)) (obj s)) (wld t)) m s
    end.

(** [nic_ = std::unique_ptr<Nic>(...)]: the nic held before is destroyed. *)
Definition replace_nic (n : N) : io_ unit :=
  let! old := my nic_ in
  (match old with Some _ => on_nic nic_dtor | None => ret tt end) ;;
  update (set_nic (Some n)).

(** The end of an owner: its nic, when it has one, is destroyed. *)
Definition drop_nic : io_ unit :=
  let! n := my nic_ in
  match n with Some _ => on_nic nic_dtor | None => ret tt end.

(** [return res] unless the step returned 0. *)
Definition or_return (m : io_ Z) (k : io_ Z) : io_ Z :=
  let! r := m in if negb (r =? 0) then ret r else k.

(** The steps of [init_nic]: (1) create the nic [n], (2) connect, (3) configure the
    data plane, (4) initialise the hardware with the addresses of this host. *)
Definition bring_up (NIC_PHY_NETWORK : bool) (n : N) (bus llc_anti_aliasing : Z)
    (phy_addr : PhyAddr) (ipv4_addr : IPv4) : io_ Z :=
  replace_nic n ;;
  or_return (on_nic (lift (connect_to_nic bus))) (
  or_return (on_nic (configure_data_plane llc_anti_aliasing)) (
  or_return (on_nic (lift (initialize_nic NIC_PHY_NETWORK phy_addr ipv4_addr))) (
  ret 0))).

(** A property of the owner that does not look at its nic. *)
Definition nic_free (P : O -> Prop) : Prop := forall n o, P o -> P (set_nic n o).

Lemma on_nic_preserves {A} P (m : M (sys N D) A) :
  nic_free P -> preserves (S := sys O D) (fun s => P (obj s)) (on_nic m).
Proof.
  intros HP s Hs. unfold wlp, on_nic, zoom. destruct (nic_ (obj s)); [|done].
  destruct (m _); [|done..]. by apply HP.
Qed.

Lemma bring_up_preserves P phy n bus llc a ip :
  nic_free P -> preserves (S := sys O D) (fun s => P (obj s)) (bring_up phy n bus llc a ip).
Proof.
  intros HP. pose proof (fun A m => on_nic_preserves (A := A) P m HP) as Hon.
  assert (preserves (S := sys O D) (fun s => P (obj s)) (update (set_nic (Some n)))) as Hup
    by (apply preserves_modify; intros s Hs; by apply HP).
  unfold bring_up, replace_nic, or_return, my.
  apply preserves_bind.
  { apply preserves_bind; [apply preserves_gets|]. intros [old|]; auto with effects. }
  intros _. auto 10 with effects.
Qed.

(** What a method of the base class can change of the owner. *)
Lemma on_base_preserves {A} P (m : M (sys NicCCIP D) A) :
  (forall o n b, nic_ o = Some n -> P o -> P (set_nic (Some (set_base b n)) o)) ->
  preserves (S := sys O D) (fun s => P (obj s)) (on_nic (lift m)).
Proof.
  intros HP s Hs. unfold wlp, on_nic, lift, method, zoom. cbn.
  destruct (nic_ (obj s)) as [n|] eqn:En; [|done]. destruct (m _); [|done..]. by apply HP.
Qed.

Lemma wlp_on_nic {A} (m : M (sys N D) A) (Q : A -> sys O D -> Prop) s n :
  nic_ (obj s) = Some n ->
  wlp m (fun a t => Q a (Sys (set_nic (Some (obj t)) (obj s)) (wld t))) (Sys n (wld s)) ->
  wlp (on_nic m) Q s.
Proof. intros Hn Hw. unfold wlp, on_nic, zoom in *. rewrite Hn. by destruct (m _). Qed.

Lemma wlp_on_base {A} (m : M (sys NicCCIP D) A) (Q : A -> sys O D -> Prop) s n :
  nic_ (obj s) = Some n ->
  (forall a b w, Q a (Sys (set_nic (Some (set_base b n)) (obj s)) w)) ->
  wlp (on_nic (lift m)) Q s.
Proof.
  intros Hn HQ. eapply wlp_on_nic; [done|]. apply wlp_lift. unfold wlp.
  destruct (m _); try done. apply HQ.
Qed.

Lemma wlp_or_return (m k : io_ Z) (Q : Z -> sys O D -> Prop) s :
  wlp m (fun r s' => r = 0 -> wlp k (fun r s'' => r = 0 -> Q r s'') s') s ->
  wlp (or_return m k) (fun r s' => r = 0 -> Q r s') s.
Proof.
  intros Hm. unfold or_return. apply wlp_bind. eapply wlp_mono; [|exact Hm].
  intros r s' Hk. cbn. destruct (Z.eqb_spec r 0) as [->|Hr]; [by apply Hk|]. by apply wlp_ret.
Qed.
End owner.

(** ** The rings of a polling NIC that was brought up *)
Section polling_owner.
Context {O D : Type} `{NicOwner O Polling.NicPollingCCIP} `{Platform D, !PrepareLaw D}.
Context (l_tx l_rx : Z) (Htx : 0 <= l_tx <= 16) (Hrx : 0 <= l_rx <= 16).
Context (Hps : 0 < get_page_size <= 2 ^ 32).

#[local] Instance polling_nic_ops : Nic Polling.NicPollingCCIP D := polling_ops l_tx l_rx.
#[local] Instance polling_nic_laws : NicLaws Polling.NicPollingCCIP D := polling_laws l_tx l_rx.

Lemma bring_up_rings phy n bus llc a ip (s : sys O D) :
  nic_ (obj s) = None -> 0 <= llc < 2 ^ 32 -> 0 < num_of_flows_ (Polling.rings_ n) <= 2 ^ 32 ->
  wlp (bring_up phy n bus llc a ip)
    (fun r s' => r = 0 -> exists n' page,
       obj s' = set_nic (Some n') (obj s) /\
       rings_ready l_tx l_rx (num_of_flows_ (Polling.rings_ n)) page (Polling.rings_ n')) s.
Proof using Htx Hrx Hps PrepareLaw0.
  intros Hn Hllc Hfl. unfold bring_up, replace_nic.
  apply wlp_assoc, wlp_bind. unfold my, gets, wlp at 1. rewrite Hn.
  apply wlp_assoc, wlp_ret_bind, wlp_bind. unfold update, modify, wlp at 1.
  apply wlp_or_return. eapply wlp_on_base; [apply nic_set|]. intros r1 b1 w1 _.
  apply wlp_or_return. eapply wlp_on_nic; [apply nic_set|].
  eapply wlp_mono; [|by apply (polling_configure_spec l_tx l_rx)].
  intros r2 s2 Hdp H2. destruct (Hdp H2) as (_ & page & l & ws & Hrr & _).
  apply wlp_or_return. eapply wlp_on_base; [apply nic_set|]. intros r3 b3 w3 _. apply wlp_ret.
  intros _. eexists _, page. cbn [obj]. by rewrite !set_nic_twice.
Qed.
End polling_owner.

(** Two flows: their four rings lie in the page, none overlaps another. *)
Definition rings_apart {D} `{Platform D} (l_tx l_rx page tx rx tx' rx' : Z) : Prop :=
  page <= tx /\ tx + queue_bytes l_tx <= tx' /\
  tx' + queue_bytes l_tx <= rx /\ rx + queue_bytes l_rx <= rx' /\
  rx' + queue_bytes l_rx <= page + get_page_size.

Lemma rings_ready_apart {D} `{Platform D} l_tx l_rx n page b i j :
  rings_ready l_tx l_rx n page b -> 0 <= i < j /\ j < n ->
  rings_apart l_tx l_rx page (ring_tx_flow_buffer b i) (ring_rx_flow_buffer b i)
    (ring_tx_flow_buffer b j) (ring_rx_flow_buffer b j).
Proof.
  intros [Hfl Etx Erx [Hin Hap Htr] _ _] Hij. rewrite Hfl, Etx, Erx in *. unfold rings_apart.
  pose proof (Hin i ltac:(lia)). pose proof (Hin j ltac:(lia)).
  pose proof (Hap i j ltac:(lia) ltac:(lia)). pose proof (Htr j i ltac:(lia) ltac:(lia)). tauto.
Qed.

(** A board that comes up in polling mode: it reports ready from its 22nd call on. *)
Definition polling_board : nat -> io_call -> fpga_result * Z :=
  fun k c =>
    match c with
    | PrepareBuffer _ _ | Mmap _ => one_page k c
    | ReadMMIO64 _ => (FPGA_OK, if (k <? 21)%nat then 1 else 9)
    | SetAffinity _ => (FPGA_OK, 0)
    | _ => (FPGA_OK, 3)
    end.

Lemma board_prepare : @PrepareLaw nat (scripted polling_board).
Proof. intros len a d v d' Hio. by apply (one_page_prepare len a d v d'). Qed.
