(* ===== verification/CompletionQueue.v ===== *)
(** * Receiving packets: the polling loop and the completion queue

    - [pull]: the polling loop that [CompletionQueue::_PullListen] and
      [RpcServerThread::_PullListen] have in common, one shared memory access per
      step, so that the hardware can write between any two of them;
    - [CompletionQueue] (src/sw/src/completion_queue.h, completion_queue.cc) with its
      polling thread and the application thread that pops responses;
    - [step]: the interleaving of the hardware, the polling thread and the
      application thread.

    The shared memory maps the address of a ring slot to the packet in it. *)

From stdpp Require Import relations.
From S2P Require Import Prelude Wire Queues.

(** ** Shared memory *)
Definition zero_pckt : RpcPckt :=
  {| hdr := {| ctl := {| req_type := 0; update_flag := 0; valid := 0 |}; rpc_id := 0;
               n_of_frames := 0; frame_id := 0; fn_id := 0; argl := 0; c_id := 0 |};
     argv := replicate (Z.to_nat argv_size) 0 |}.

Abbreviation memory := (gmap Z RpcPckt).
Definition load (m : memory) (a : Z) : RpcPckt := default zero_pckt (m !! a).

(** ** The polling loop *)

(** Where the polling thread is: at the head of its loop; in the wait for a slot, at
    the test of [valid] or of [rpc_id]; about to call [update_rpc_id]; about to copy
    the packet; or out of the loop. *)
Inductive pull_pc :=
| Head
| TestValid (ptr rx_rpc_id : Z)
| TestId (ptr rx_rpc_id : Z)
| Update (ptr : Z)
| Copy (ptr : Z)
| Exited.

Record puller := { rx_queue_ : Rx.RxQueue; pc : pull_pc }.

Definition on_rx {A} (m : M Rx.RxQueue A) : M puller A :=
  zoom rx_queue_ (fun q p => {| rx_queue_ := q; pc := pc p |}) m.

Definition goto (l : pull_pc) : M puller unit :=
  modify (fun p => {| rx_queue_ := rx_queue_ p; pc := l |}).

(** One access of the loop; [Some p] when a packet was copied out of its slot. *)
Definition pull (stop_signal : bool) (m : memory) : M puller (option RpcPckt) :=
  let! p := get in
  match pc p with
  | Head =>
      if stop_signal then goto Exited ;; ret None
      else
        let! r := on_rx Rx.get_read_ptr in
        goto (TestValid r.1 r.2) ;; ret None
  | TestValid ptr id =>
      (if valid (ctl (hdr (load m ptr))) =? 0 then
         goto (if stop_signal then Head else TestValid ptr id)
       else goto (TestId ptr id)) ;;
      ret None
  | TestId ptr id =>
      (if rpc_id (hdr (load m ptr)) =? id then
         goto (if stop_signal then Head else TestValid ptr id)
       else goto (if stop_signal then Head else Update ptr)) ;;
      ret None
  | Update ptr =>
      on_rx (Rx.update_rpc_id (rpc_id (hdr (load m ptr)))) ;;
      goto (Copy ptr) ;; ret None
  | Copy ptr => goto Head ;; ret (Some (load m ptr))
  | Exited => ret None
  end.

(** ** The link between the hardware and the polling thread *)
Record link := {
  mem : memory;
  pol : puller;
  stop_signal_ : bool;
  sent : list RpcPckt;
  got : list RpcPckt
}.

Section link.
(** The ring: its address, the size of a slot and the number of slots. *)
Context (base bucket d : Z).

Definition slot (k : Z) : Z := base + k mod d * bucket.

(** What the receiver needs of the [n]-th packet of a flow: it is marked valid, and
    its id differs from the id that was last seen in its slot. *)
Definition fresh_pckt (before : list RpcPckt) (p : RpcPckt) : Prop :=
  valid (ctl (hdr p)) = 1 /\ in_width 32 (rpc_id (hdr p)) /\
  rpc_id (hdr p) <> Rx.seen_id (map (fun p => rpc_id (hdr p)) before)
                               (Z.of_nat (length before) - d).

Inductive link_step : link -> link -> Prop :=
(** The hardware writes the next packet; a slot is reused only after the packet in it
    was copied. *)
| nic_writes s p :
    fresh_pckt (sent s) p ->
    Z.of_nat (length (sent s)) < Z.of_nat (length (got s)) + d ->
    link_step s {| mem := <[slot (Z.of_nat (length (sent s))) := p]> (mem s); pol := pol s;
                   stop_signal_ := stop_signal_ s; sent := sent s ++ [p]; got := got s |}
(** The polling thread makes an access. *)
| thread_pulls s o pol' :
    pull (stop_signal_ s) (mem s) (pol s) = Ret o pol' ->
    link_step s {| mem := mem s; pol := pol'; stop_signal_ := stop_signal_ s; sent := sent s;
                   got := got s ++ option_list o |}
(** Another thread asks it to stop. *)
| stop_requested s :
    link_step s {| mem := mem s; pol := pol s; stop_signal_ := true; sent := sent s;
                   got := got s |}.

Definition link_init (q : Rx.RxQueue) : link :=
  {| mem := ∅; pol := {| rx_queue_ := q; pc := Head |}; stop_signal_ := false;
     sent := []; got := [] |}.
End link.

(** ** Delivery *)
Definition ids (l : list RpcPckt) : list Z := map (fun p => rpc_id (hdr p)) l.

Lemma length_ids l : length (ids l) = length l.
Proof. apply length_map. Qed.

(** Packets whose id the polling thread has recorded: those it copied, and the one it
    is about to copy. *)
Definition taken (s : link) : nat :=
  length (got s) + match pc (pol s) with Copy _ => 1 | _ => 0 end.

Section delivery.
Context (base bucket d : Z) (Hbase : base <> 0) (Hd : 0 < d < 2 ^ 64) (Hbucket : bucket <> 0).
Abbreviation slot := (slot base bucket d).
Abbreviation zlen l := (Z.of_nat (length l)).

(** What the polling thread knows at each point of its loop. *)
Definition pc_inv (sent : list RpcPckt) (k : nat) (l : pull_pc) : Prop :=
  let last := Rx.seen_id (ids (take k sent)) (Z.of_nat k - d) in
  match l with
  | TestValid ptr id => ptr = slot (Z.of_nat k) /\ id = last
  | TestId ptr id =>
      ptr = slot (Z.of_nat k) /\ id = last /\ (Z.of_nat k < zlen sent \/ d <= Z.of_nat k)
  | Update ptr => ptr = slot (Z.of_nat k) /\ Z.of_nat k < zlen sent
  | Copy ptr => ptr = slot (Z.of_nat k - 1)
  | Head | Exited => True
  end.

Record link_inv (s : link) : Prop := {
  li_taken : (taken s <= length (sent s))%nat;
  li_got : got s = take (length (got s)) (sent s);
  li_room : zlen (sent s) <= zlen (got s) + d;
  li_rx : Rx.at_read base bucket d (ids (take (taken s) (sent s))) (rx_queue_ (pol s));
  li_pc : pc_inv (sent s) (taken s) (pc (pol s));
  li_mem j p : sent s !! j = Some p -> zlen (sent s) - d <= Z.of_nat j ->
    load (mem s) (slot (Z.of_nat j)) = p;
  li_unused j : zlen (sent s) <= j < d -> valid (ctl (hdr (load (mem s) (slot j)))) = 0;
  li_fresh j p : sent s !! j = Some p -> fresh_pckt d (take j (sent s)) p
}.

Lemma slot_inj k i j :
  k <= i < k + d -> k <= j < k + d -> slot i = slot j -> i = j.
Proof using Hd Hbucket.
  intros Hi Hj E. unfold CompletionQueue.slot in E.
  apply (Rx.mod_lap_inj d k); [lia..|]. nia.
Qed.

Lemma load_insert_eq (m : memory) a p : load (<[a := p]> m) a = p.
Proof. unfold load. by rewrite lookup_insert_eq. Qed.
Lemma load_insert_ne (m : memory) a b p : a <> b -> load (<[a := p]> m) b = load m b.
Proof. intros Hne. unfold load. by rewrite lookup_insert_ne. Qed.

(** The id the thread compares with: the packet one lap earlier. *)
Lemma seen_earlier (sent : list RpcPckt) (k : nat) p :
  (k <= length sent)%nat -> d <= Z.of_nat k -> sent !! (k - Z.to_nat d)%nat = Some p ->
  Rx.seen_id (ids (take k sent)) (Z.of_nat k - d) = rpc_id (hdr p).
Proof using Hd.
  intros Hk Hdk Hp. unfold Rx.seen_id. destruct (Z.ltb_spec (Z.of_nat k - d) 0); [lia|].
  unfold ids. rewrite list_lookup_fmap, lookup_take_lt by lia.
  replace (Z.to_nat (Z.of_nat k - d)) with (k - Z.to_nat d)%nat by lia. by rewrite Hp.
Qed.

Lemma link_inv_init q :
  Rx.at_read base bucket d [] q -> link_inv (link_init q).
Proof using Hd.
  intros Hq. split; cbn; try done; lia.
Qed.

Lemma nic_writes_inv s p :
  fresh_pckt d (sent s) p -> zlen (sent s) < zlen (got s) + d -> link_inv s ->
  link_inv {| mem := <[slot (zlen (sent s)) := p]> (mem s); pol := pol s;
              stop_signal_ := stop_signal_ s; sent := sent s ++ [p]; got := got s |}.
Proof using Hd Hbucket.
  intros Hf Hroom [Ht Hg Hr Hrx Hpc Hm Hu Hfr].
  assert (length (got s) <= length (sent s))%nat as Hgl by (unfold taken in Ht; lia).
  assert (zlen (sent s ++ [p]) = zlen (sent s) + 1) as Hl by (rewrite length_app; cbn; lia).
  assert (take (taken s) (sent s ++ [p]) = take (taken s) (sent s)) as Htake
    by (rewrite take_app_le by lia; done).
  split; unfold taken in *; cbn in *; rewrite ?Hl.
  - rewrite length_app. cbn. lia.
  - rewrite take_app_le by lia. done.
  - lia.
  - by rewrite Htake.
  - unfold pc_inv in *. rewrite Htake, Hl. destruct (pc (pol s)); naive_solver lia.
  - intros j q Hj Hw. apply lookup_app_Some in Hj as [Hj|[Hj Hq]].
    + apply lookup_lt_Some in Hj as Hlt. rewrite load_insert_ne; [apply Hm; [done|lia]|].
      intros E. apply (slot_inj (zlen (sent s) - d + 1)) in E; lia.
    + apply list_lookup_singleton_Some in Hq as [Hj0 ->].
      replace (Z.of_nat j) with (zlen (sent s)) by lia. apply load_insert_eq.
  - intros j Hj. rewrite load_insert_ne; [apply Hu; lia|].
    intros E. apply (slot_inj 0) in E; lia.
  - intros j q Hj. apply lookup_app_Some in Hj as [Hj|[Hj Hq]].
    + apply lookup_lt_Some in Hj as Hlt. rewrite take_app_le by lia. by apply Hfr.
    + apply list_lookup_singleton_Some in Hq as [Hj0 ->].
      rewrite take_app_le, take_ge by lia. done.
Qed.

(** Packet [k] is in its slot as long as it is not copied. *)
Lemma packet_in_slot s k :
  link_inv s -> (length (got s) <= k < length (sent s))%nat ->
  sent s !! k = Some (load (mem s) (slot (Z.of_nat k))).
Proof.
  intros I Hk. destruct (lookup_lt_is_Some_2 (sent s) k) as [p Hp]; [lia|].
  rewrite Hp. f_equal. symmetry. eapply li_mem; [done..|]. pose proof (li_room _ I). lia.
Qed.

(** When a slot shows a valid packet with another id, it is the next packet. *)
Lemma next_packet s :
  link_inv s -> taken s = length (got s) ->
  Z.of_nat (taken s) < zlen (sent s) \/ d <= Z.of_nat (taken s) ->
  rpc_id (hdr (load (mem s) (slot (Z.of_nat (taken s)))))
    <> Rx.seen_id (ids (take (taken s) (sent s))) (Z.of_nat (taken s) - d) ->
  Z.of_nat (taken s) < zlen (sent s).
Proof using Hd.
  intros I Ht [?|Hk] Hne; [done|]. destruct (Z.lt_ge_cases (Z.of_nat (taken s)) (zlen (sent s))) as [|Hge];
    [done|]. exfalso. pose proof (li_taken _ I).
  set (k := taken s) in *. assert (k = length (sent s)) as Ek by lia.
  destruct (lookup_lt_is_Some_2 (sent s) (k - Z.to_nat d)) as [p Hp]; [lia|].
  apply Hne. rewrite (seen_earlier _ _ p) by done.
  replace (slot (Z.of_nat k)) with (slot (Z.of_nat (k - Z.to_nat d))).
  - erewrite li_mem; [done|done|done|lia].
  - unfold CompletionQueue.slot. do 2 f_equal.
    replace (Z.of_nat (k - Z.to_nat d)) with (Z.of_nat k + (-1) * d) by lia.
    by rewrite Z.mod_add by lia.
Qed.

(** The next packet, once sent, passes both tests. *)
Lemma next_ready s :
  link_inv s -> taken s = length (got s) -> Z.of_nat (taken s) < zlen (sent s) ->
  valid (ctl (hdr (load (mem s) (slot (Z.of_nat (taken s)))))) = 1 /\
  in_width 32 (rpc_id (hdr (load (mem s) (slot (Z.of_nat (taken s)))))) /\
  rpc_id (hdr (load (mem s) (slot (Z.of_nat (taken s)))))
    <> Rx.seen_id (ids (take (taken s) (sent s))) (Z.of_nat (taken s) - d).
Proof.
  intros I Ht Hk. pose proof (packet_in_slot s (taken s) I) as Hp.
  apply (li_fresh _ I) in Hp as (Hv & Hw & Hne); [|lia].
  split; [done|]. split; [done|].
  assert (zlen (take (taken s) (sent s)) = Z.of_nat (taken s)) as Hl
    by (rewrite length_take_le by lia; done).
  by rewrite Hl in Hne.
Qed.

(** Moving the program counter within the loop. *)
Lemma goto_inv s l o :
  link_inv s -> taken s = length (got s) ->
  match l with Copy _ => False | _ => True end ->
  pc_inv (sent s) (taken s) l -> o = None ->
  link_inv {| mem := mem s; pol := {| rx_queue_ := rx_queue_ (pol s); pc := l |};
              stop_signal_ := stop_signal_ s; sent := sent s; got := got s ++ option_list o |}.
Proof.
  intros [Ht Hg Hr Hrx Hpc Hm Hu Hfr] Hk Hl Hpl ->. cbn. rewrite app_nil_r.
  match goal with |- link_inv ?s' => assert (taken s' = taken s) as Et end.
  { rewrite Hk. unfold taken. cbn. destruct l; try done; lia. }
  split; rewrite ?Et; try done.
Qed.

Lemma taken_not_copy s :
  match pc (pol s) with Copy _ => False | _ => True end -> taken s = length (got s).
Proof. unfold taken. destruct (pc (pol s)); naive_solver lia. Qed.

Definition after (s : link) (o : option RpcPckt) (pol' : puller) : link :=
  {| mem := mem s; pol := pol'; stop_signal_ := stop_signal_ s; sent := sent s;
     got := got s ++ option_list o |}.

Lemma zlen_taken s : link_inv s -> zlen (ids (take (taken s) (sent s))) = Z.of_nat (taken s).
Proof. intros I. pose proof (li_taken _ I). rewrite length_ids, length_take_le by lia. done. Qed.

(** [update_rpc_id] moves packet [taken s] from the waited for to the taken ones. *)
Lemma update_inv s ptr :
  link_inv s -> pc (pol s) = Update ptr ->
  exists q', Rx.update_rpc_id (rpc_id (hdr (load (mem s) ptr))) (rx_queue_ (pol s)) = Ret tt q' /\
    link_inv (after s None {| rx_queue_ := q'; pc := Copy ptr |}).
Proof using Hbase Hd.
  intros I Hpc. assert (taken s = length (got s)) as Ht by (apply taken_not_copy; by rewrite Hpc).
  pose proof (li_pc _ I) as Hp. rewrite Hpc in Hp. destruct Hp as [-> Hlt].
  destruct (next_ready s I Ht Hlt) as (_ & Hw & _).
  destruct (Rx.update_rpc_id_spec _ _ _ Hbase Hd _ _ _ Hw (li_rx _ I)) as (q' & E & Hq').
  exists q'. split; [done|].
  pose proof (packet_in_slot s (taken s) I ltac:(lia)) as Hin.
  assert (taken (after s None {| rx_queue_ := q'; pc := Copy (slot (Z.of_nat (taken s))) |})
          = S (taken s)) as Et.
  { rewrite Ht. unfold taken, after. cbn. rewrite app_nil_r. lia. }
  destruct I as [Htl Hg Hr Hrx _ Hm Hu Hfr].
  split; rewrite ?Et; cbn; rewrite ?app_nil_r; try done; [lia| |f_equal; lia].
  rewrite (take_S_r _ _ _ Hin). unfold ids. rewrite map_app. exact Hq'.
Qed.

(** Copying packet [taken s - 1] delivers it. *)
Lemma copy_inv s ptr :
  link_inv s -> pc (pol s) = Copy ptr ->
  link_inv (after s (Some (load (mem s) ptr)) {| rx_queue_ := rx_queue_ (pol s); pc := Head |}).
Proof.
  intros I Hpc. assert (taken s = S (length (got s))) as Ht by (unfold taken; rewrite Hpc; lia).
  pose proof (li_pc _ I) as Hp. rewrite Hpc in Hp. unfold pc_inv in Hp.
  pose proof (li_taken _ I) as Htl.
  pose proof (packet_in_slot s (length (got s)) I ltac:(lia)) as Hin.
  replace (slot (Z.of_nat (length (got s)))) with ptr in Hin by (rewrite Hp, Ht; f_equal; lia).
  set (x := load (mem s) ptr) in *.
  assert (taken (after s (Some x) {| rx_queue_ := rx_queue_ (pol s); pc := Head |}) = taken s) as Et.
  { rewrite Ht. unfold taken, after. cbn. rewrite length_app. cbn. lia. }
  destruct I as [_ Hg Hr Hrx _ Hm Hu Hfr].
  split; rewrite ?Et; cbn; rewrite ?length_app; cbn; try done; try lia.
  rewrite Nat.add_1_r, (take_S_r _ _ _ Hin). by rewrite <- Hg.
Qed.

Lemma pull_inv s :
  link_inv s ->
  exists o pol', pull (stop_signal_ s) (mem s) (pol s) = Ret o pol' /\ link_inv (after s o pol').
Proof using All.
  intros I. unfold pull, bind, get, goto, modify, ret, on_rx, zoom.
  pose proof (li_pc _ I) as Hp.
  destruct (pc (pol s)) as [|ptr id|ptr id|ptr|ptr|] eqn:Hpc.
  - assert (taken s = length (got s)) as Ht by (apply taken_not_copy; by rewrite Hpc).
    destruct (stop_signal_ s); [by do 2 eexists; split; [done|]; apply goto_inv|].
    rewrite (Rx.get_read_ptr_spec _ _ _ Hbase Hd _ _ (li_rx _ I)).
    do 2 eexists. split; [done|]. apply goto_inv; try done. cbn. by rewrite (zlen_taken s I).
  - assert (taken s = length (got s)) as Ht by (apply taken_not_copy; by rewrite Hpc).
    destruct Hp as [-> ->].
    destruct (Z.eqb_spec (valid (ctl (hdr (load (mem s) (slot (Z.of_nat (taken s))))))) 0) as [E|E];
      (do 2 eexists; split; [done|]; apply goto_inv; try done); [by destruct (stop_signal_ s)..|].
    cbn. split; [done|]. split; [done|].
    destruct (Z.lt_ge_cases (Z.of_nat (taken s)) (zlen (sent s))); [by left|right].
    destruct (Z.lt_ge_cases (Z.of_nat (taken s)) d); [|done].
    destruct E. apply (li_unused _ I). lia.
  - assert (taken s = length (got s)) as Ht by (apply taken_not_copy; by rewrite Hpc).
    destruct Hp as (-> & -> & Hor).
    destruct (Z.eqb_spec (rpc_id (hdr (load (mem s) (slot (Z.of_nat (taken s))))))
                (Rx.seen_id (ids (take (taken s) (sent s))) (Z.of_nat (taken s) - d))) as [E|E];
      (do 2 eexists; split; [done|]; apply goto_inv; try done); [by destruct (stop_signal_ s)..|].
    destruct (stop_signal_ s); [done|]. cbn. split; [done|]. by apply next_packet.
  - destruct (update_inv s ptr I Hpc) as (q' & -> & Hq'). by do 2 eexists.
  - do 2 eexists. split; [done|]. by apply copy_inv.
  - do 2 eexists. split; [done|]. unfold after. cbn. rewrite app_nil_r. by destruct s.
Qed.

Lemma link_step_inv s s' : link_step base bucket d s s' -> link_inv s -> link_inv s'.
Proof using All.
  intros [s1 p Hf Hr|s1 o pol' E|s1] I.
  - by apply nic_writes_inv.
  - destruct (pull_inv s1 I) as (o2 & pol2 & E2 & I2). rewrite E in E2. by simplify_eq.
  - by destruct I.
Qed.

Lemma link_steps_inv s s' : rtc (link_step base bucket d) s s' -> link_inv s -> link_inv s'.
Proof using All. induction 1; [done|]. intros I. by eauto using link_step_inv. Qed.

(** Running the polling thread alone for [n] accesses. *)
Fixpoint pulls (n : nat) (s : link) : link :=
  match n with
  | O => s
  | S n' =>
      match pull (stop_signal_ s) (mem s) (pol s) with
      | Ret o pol' => pulls n' (after s o pol')
      | _ => s
      end
  end.

(** Five accesses take the next packet out of a non-empty ring. *)
Lemma pulls_next s :
  link_inv s -> stop_signal_ s = false -> pc (pol s) = Head ->
  (length (got s) < length (sent s))%nat ->
  got (pulls 5 s) = take (S (length (got s))) (sent s).
Proof using All.
  intros I Hs Hpc Hlt. assert (taken s = length (got s)) as Ht by (apply taken_not_copy; by rewrite Hpc).
  destruct (next_ready s I Ht ltac:(lia)) as (Hv & Hw & Hne).
  pose proof (packet_in_slot s (taken s) I ltac:(lia)) as Hin.
  destruct (Rx.update_rpc_id_spec _ _ _ Hbase Hd _ _ _ Hw (li_rx _ I)) as (q' & E & _).
  unfold pulls, pull, bind, get, goto, modify, ret, on_rx, zoom, after.
  rewrite Hpc, Hs, (Rx.get_read_ptr_spec _ _ _ Hbase Hd _ _ (li_rx _ I)).
  rewrite (zlen_taken s I). fold (slot (Z.of_nat (taken s))). cbn -[Rx.update_rpc_id load CompletionQueue.slot Rx.seen_id ids take].
  rewrite Hv. cbn -[Rx.update_rpc_id load CompletionQueue.slot Rx.seen_id ids take]. destruct (Z.eqb_spec (rpc_id (hdr (load (mem s) (slot (Z.of_nat (taken s))))))
    (Rx.seen_id (ids (take (taken s) (sent s))) (Z.of_nat (taken s) - d))); [done|]. cbn -[Rx.update_rpc_id load CompletionQueue.slot Rx.seen_id ids take].
  rewrite E. cbn -[Rx.update_rpc_id load CompletionQueue.slot Rx.seen_id ids take]. rewrite !app_nil_r, <- Ht, (take_S_r _ _ _ Hin), Ht, <- (li_got _ I). done.
Qed.
End delivery.


(** A response with the given id. *)
Definition response (id : Z) : RpcPckt :=
  {| hdr := {| ctl := {| req_type := 1; update_flag := 0; valid := 1 |}; rpc_id := id;
               n_of_frames := 1; frame_id := 0; fn_id := 0; argl := 0; c_id := 0 |};
     argv := replicate (Z.to_nat argv_size) 0 |}.

Definition sample_rx : Rx.RxQueue :=
  Rx.set_ids (Some (replicate 8 Rx.no_rpc_id)) (Rx.RxQueue_ctor 4096 64 3).

(** The link after the hardware wrote one response. *)
Definition sample_link : link :=
  {| mem := <[slot 4096 64 (2 ^ 3) 0 := response 7]> ∅; pol := pol (link_init sample_rx);
     stop_signal_ := false; sent := [response 7]; got := [] |}.

Lemma sample_link_reached : rtc (link_step 4096 64 (2 ^ 3)) (link_init sample_rx) sample_link.
Proof.
  eapply rtc_l; [|apply rtc_refl].
  apply (nic_writes 4096 64 (2 ^ 3) (link_init sample_rx) (response 7)); [|done].
  split; [done|]. split; [unfold in_width; cbn; lia|by vm_compute].
Qed.


(** ** The completion queue *)
Record CompletionQueue := {
  rpc_client_id_ : Z;
  cq_rx_queue_ : Rx.RxQueue;
  thread_ : bool;
  cq_stop_signal_ : bool;
  cq_ : list RpcPckt
}.

Definition CompletionQueue_default : CompletionQueue :=
  {| rpc_client_id_ := 0; cq_rx_queue_ := Rx.RxQueue_default; thread_ := false;
     cq_stop_signal_ := false; cq_ := [] |}.

(** [page_size] and [allocated] are those of the queue's [init]. *)
Definition CompletionQueue_ctor {S} (page_size : Z) (allocated : bool)
    (rpc_client_id rx_buff mtu_size_bytes l_rx_queue_size : Z) : M S CompletionQueue :=
  let! q := build (Rx.init page_size allocated)
              (Rx.RxQueue_ctor rx_buff mtu_size_bytes l_rx_queue_size) in
  ret {| rpc_client_id_ := rpc_client_id; cq_rx_queue_ := q; thread_ := false;
         cq_stop_signal_ := false; cq_ := [] |}.

Definition set_thread (t stop : bool) (c : CompletionQueue) : CompletionQueue :=
  {| rpc_client_id_ := rpc_client_id_ c; cq_rx_queue_ := cq_rx_queue_ c; thread_ := t;
     cq_stop_signal_ := stop; cq_ := cq_ c |}.

Definition set_cq (l : list RpcPckt) (c : CompletionQueue) : CompletionQueue :=
  {| rpc_client_id_ := rpc_client_id_ c; cq_rx_queue_ := cq_rx_queue_ c; thread_ := thread_ c;
     cq_stop_signal_ := cq_stop_signal_ c; cq_ := l |}.

(** [bind] starts the polling thread; assigning over a joinable one terminates. *)
Definition cq_bind : M CompletionQueue unit :=
  let! c := get in
  massert (negb (thread_ c)) ;; modify (set_thread true false).

(** [unbind] asks the polling thread to stop and joins it. *)
Definition cq_unbind : M CompletionQueue unit :=
  let! c := get in
  modify (set_thread (thread_ c) true) ;;
  massert (thread_ c) ;;
  modify (set_thread false true).

Definition get_number_of_completed_requests (c : CompletionQueue) : Z :=
  Z.of_nat (length (cq_ c)).

(** What the polling thread does with a packet, under [cq_lock_]. *)
Definition push_response (p : RpcPckt) (c : CompletionQueue) : CompletionQueue :=
  set_cq (cq_ c ++ [p]) c.

(** [pop_response] in its two parts: [back()] before the lock is taken, [pop_back()]
    under it; both are undefined on an empty queue. *)
Definition read_back : M CompletionQueue RpcPckt :=
  fun c => match last (cq_ c) with Some p => Ret p c | None => Fault end.
Definition pop_back : M CompletionQueue unit :=
  fun c => match cq_ c with
           | [] => Fault
           | _ => Ret tt (set_cq (take (length (cq_ c) - 1) (cq_ c)) c)
           end.
Definition pop_response : M CompletionQueue RpcPckt :=
  let! res := read_back in pop_back ;; ret res.

Definition clear_queue : M CompletionQueue unit := modify (set_cq []).

(** ** The polling thread and the application *)
Record cq_system := {
  cqueue : CompletionQueue;
  received : list RpcPckt;          (* everything the polling thread appended *)
  popped : list RpcPckt;            (* what [pop_response] has returned *)
  popping : option RpcPckt          (* between [back()] and [pop_back()] *)
}.

Definition cq_start (c : CompletionQueue) : cq_system :=
  {| cqueue := c; received := []; popped := []; popping := None |}.

(** [atomic] says whether the lock also covers [back()]; it does not in the code. *)
Inductive cq_step (atomic : bool) : cq_system -> cq_system -> Prop :=
| thread_appends s p :
    (atomic = true -> popping s = None) ->
    cq_step atomic s {| cqueue := push_response p (cqueue s); received := received s ++ [p];
                        popped := popped s; popping := popping s |}
| app_reads_back s res c' :
    popping s = None -> read_back (cqueue s) = Ret res c' ->
    cq_step atomic s {| cqueue := c'; received := received s; popped := popped s;
                        popping := Some res |}
| app_pops_back s res c' :
    popping s = Some res -> pop_back (cqueue s) = Ret tt c' ->
    cq_step atomic s {| cqueue := c'; received := received s; popped := popped s ++ [res];
                        popping := None |}.

(** Every response is still queued, or was handed to the application, once. *)
Definition conserved (s : cq_system) : Prop :=
  popped s ++ cq_ (cqueue s) ≡ₚ received s.

Lemma last_take {A} (l : list A) x :
  last l = Some x -> l = take (length l - 1) l ++ [x].
Proof.
  intros [l' ->]%last_Some. rewrite length_app. cbn.
  rewrite Nat.add_sub, take_app_length. done.
Qed.

Lemma cq_step_conserved s s' :
  cq_step true s s' ->
  conserved s -> (forall r, popping s = Some r -> last (cq_ (cqueue s)) = Some r) ->
  conserved s' /\ (forall r, popping s' = Some r -> last (cq_ (cqueue s')) = Some r).
Proof.
  unfold conserved. intros [s1 p Hnone|s1 res c' Hn E|s1 res c' Hp E] Hc Hpop; cbn in *.
  - split; [by rewrite app_assoc, Hc|]. by rewrite Hnone.
  - unfold read_back in E. destruct (last (cq_ (cqueue s1))) eqn:El; simplify_eq.
    split; [done|]. by intros r [= <-].
  - specialize (Hpop _ Hp). unfold pop_back in E. apply last_take in Hpop as Eq.
    destruct (cq_ (cqueue s1)) as [|y l] eqn:El; [done|]. simplify_eq. cbn [cq_ set_cq].
    split; [|done]. rewrite <- Hc, <- app_assoc. apply Permutation_app_head.
    rewrite Eq at 2. by rewrite Permutation_app_comm.
Qed.

(** If [back()] were read under the lock, no response would be lost or handed
    out twice: after any interleaving of the polling thread and the application, the
    responses that [pop_response] returned and those still queued are together
    exactly the responses that were received. *)
Theorem pop_response_atomic (c : CompletionQueue) (s : cq_system) :
  cq_ c = [] -> rtc (cq_step true) (cq_start c) s ->
  popped s ++ cq_ (cqueue s) ≡ₚ received s.
Proof.
  intros Hc Hr. refine (proj1 (rtc_ind_r (fun s =>
    conserved s /\ (forall r, popping s = Some r -> last (cq_ (cqueue s)) = Some r)) _ _ _ s Hr)).
  - split; [|done]. unfold conserved. cbn. by rewrite Hc.
  - intros s1 s2 _ Hs [H1 H2]. by eapply cq_step_conserved.
Qed.

Definition empty_cq : CompletionQueue :=
  set_thread true false CompletionQueue_default.

Lemma pop_response_atomic_witness :
  exists s, rtc (cq_step true) (cq_start empty_cq) s /\ popped s = [response 1] /\
    popped s ++ cq_ (cqueue s) ≡ₚ received s.
Proof.
  pose (s1 := {| cqueue := push_response (response 1) empty_cq; received := [response 1];
                 popped := []; popping := None |}).
  pose (s2 := {| cqueue := cqueue s1; received := [response 1];
                 popped := []; popping := Some (response 1) |}).
  pose (s3 := {| cqueue := set_cq [] (cqueue s1); received := [response 1];
                 popped := [response 1]; popping := None |}).
  assert (rtc (cq_step true) (cq_start empty_cq) s3) as Hr.
  { eapply (rtc_l _ _ s1); [by apply (thread_appends true (cq_start empty_cq) (response 1))|].
    eapply (rtc_l _ _ s2); [by apply (app_reads_back true s1 (response 1))|].
    eapply (rtc_l _ _ s3); [by apply (app_pops_back true s2 (response 1))|]. apply rtc_refl. }
  exists s3. split; [exact Hr|]. split; [reflexivity|].
  apply (pop_response_atomic empty_cq s3); [reflexivity|exact Hr].
Defined.

