(* ===== verification/RpcServer.v ===== *)
(** * The RPC server

    - [RpcServerThread] (src/sw/src/rpc_server_thread.h, rpc_server_thread.cc): a
      dispatch thread with the rings of one NIC flow; [serve] is one access of its
      [_PullListen] loop, [srv_step] its interleaving with the hardware;
    - [RpcThreadedServer] (rpc_threaded_server.h, rpc_threaded_server.cc): the NIC and
      the threads that share it.

    The NIC is any implementation of the interface [Nic]; the server's handler, which
    the code generator emits, is a parameter. *)

From stdpp Require Import relations.
From S2P Require Import Prelude Wire Queues ConnectionManager Host HssiCsrs Hssi NicCcip.
From S2P Require Import NicProtocol NicModes NicBuffers NicLifecycle NicOwner CompletionQueue.

(** ** A server thread *)
Record RpcServerThread := {
  thread_id_ : Z;
  nic_flow_id_ : Z;
  tx_queue_ : Tx.TxQueue;
  rx_queue_ : Rx.RxQueue;
  thread_ : bool;
  stop_signal_ : bool
}.

Definition set_thread (joinable stop : bool) (t : RpcServerThread) : RpcServerThread :=
  {| thread_id_ := thread_id_ t; nic_flow_id_ := nic_flow_id_ t; tx_queue_ := tx_queue_ t;
     rx_queue_ := rx_queue_ t; thread_ := joinable; stop_signal_ := stop |}.

Section thread.
Context {N D : Type} `{Nic N D} {S : Type}.
Context (l_tx l_rx : Z).

(** The constructor; [nic] is the nic it points to.  [stop] is the value of
    [stop_signal_], which is not initialised. *)
Definition RpcServerThread_ctor (stop : bool) (nic : N) (nic_flow_id thread_id : Z)
  : M (sys S D) RpcServerThread :=
  let! a := call (Malloc (ring_depth l_tx)) in
  let! tx := build (Tx.init getpagesize (negb (a.2 =? 0)))
               (Tx.TxQueue_ctor (tx_flow_buffer nic nic_flow_id) get_mtu_size_bytes l_tx) in
  let! b := call (Malloc (4 * ring_depth l_rx)) in
  let! rx := build (Rx.init getpagesize (negb (b.2 =? 0)))
               (Rx.RxQueue_ctor (rx_flow_buffer nic nic_flow_id) get_mtu_size_bytes l_rx) in
  ret {| thread_id_ := u16 thread_id; nic_flow_id_ := nic_flow_id; tx_queue_ := tx;
         rx_queue_ := rx; thread_ := false; stop_signal_ := stop |}.

(** [start_listening]: the return code and the thread, which runs even when it could
    not be pinned. *)
Definition start_listening (pin_cpu : Z) (t : RpcServerThread)
  : M (sys S D) (Z * RpcServerThread) :=
  massert (negb (thread_ t)) ;;
  let t' := set_thread true false t in
  if pin_cpu =? -1 then ret (0, t')
  else
    let! rc := call (SetAffinity pin_cpu) in
    ret (if rc.2 =? 0 then 0 else 1, t').

(** The connections of a thread always go to flow 0. *)
Definition thread_register_connection (c_id : Z) (server_addr : IPv4) : M (sys N D) Z :=
  lift (NicCcip.add_connection c_id server_addr 0).
Definition thread_remove_connection (c_id : Z) : M (sys N D) Z :=
  lift (NicCcip.close_connection c_id).

(** [stop_listening]: set the signal and join. *)
Definition stop_listening (t : RpcServerThread) : M (sys S D) RpcServerThread :=
  massert (thread_ t) ;; ret (set_thread false true t).

(** Destroying a thread object that is still joinable terminates the program. *)
Definition RpcServerThread_dtor (t : RpcServerThread) : M (sys S D) unit :=
  massert (negb (thread_ t)).
End thread.

(** ** The dispatch loop *)
Definition batch_size : Z := Z.shiftl 1 cfg.l_rx_batch_size.

Record dispatcher := {
  disp_pol : puller;
  disp_tx : Tx.TxQueue;
  batch : list RpcPckt
}.

Section dispatch.
(** [server_callback_->operator()]: the handler of a request, which writes its
    response to the transmit queue. *)
Context (callback : Z -> RpcPckt -> M Tx.TxQueue unit).

Fixpoint run_callbacks (thread_id : Z) (ps : list RpcPckt) : M Tx.TxQueue unit :=
  match ps with
  | [] => ret tt
  | p :: ps' => callback thread_id p ;; run_callbacks thread_id ps'
  end.

(** One access of [_PullListen]: the packet taken out of the ring, and the requests
    that were handed to the handler.  A stop request is looked at before the
    handlers run. *)
Definition serve (thread_id : Z) (stop : bool) (m : memory)
  : M dispatcher (option RpcPckt * list RpcPckt) :=
  let! o := zoom disp_pol (fun p t => {| disp_pol := p; disp_tx := disp_tx t; batch := batch t |})
              (pull stop m) in
  match o with
  | None => ret (None, [])
  | Some p =>
      let! t := get in
      let b := batch t ++ [p] in
      if Z.of_nat (length b) <? batch_size then
        modify (fun t => {| disp_pol := disp_pol t; disp_tx := disp_tx t; batch := b |}) ;;
        ret (Some p, [])
      else
        modify (fun t => {| disp_pol := disp_pol t; disp_tx := disp_tx t; batch := [] |}) ;;
        if stop then ret (Some p, [])
        else
          zoom disp_tx (fun q t => {| disp_pol := disp_pol t; disp_tx := q; batch := batch t |})
            (run_callbacks thread_id b) ;;
          ret (Some p, b)
  end.

(** The thread and the hardware: [link_of] is the receiving side of the state. *)
Record server := {
  link_of : link;
  srv_tx : Tx.TxQueue;
  srv_batch : list RpcPckt;
  handled : list RpcPckt
}.

Context (base bucket d thread_id : Z).

Definition set_link (s : server) (l : link) : server :=
  {| link_of := l; srv_tx := srv_tx s; srv_batch := srv_batch s; handled := handled s |}.

Inductive srv_step : server -> server -> Prop :=
| request_arrives s p :
    fresh_pckt d (sent (link_of s)) p ->
    Z.of_nat (length (sent (link_of s))) < Z.of_nat (length (got (link_of s))) + d ->
    srv_step s (set_link s
      {| mem := <[slot base bucket d (Z.of_nat (length (sent (link_of s)))) := p]> (mem (link_of s));
         pol := pol (link_of s); CompletionQueue.stop_signal_ := CompletionQueue.stop_signal_ (link_of s);
         sent := sent (link_of s) ++ [p]; got := got (link_of s) |})
| thread_serves s o hs t' :
    serve thread_id (CompletionQueue.stop_signal_ (link_of s)) (mem (link_of s))
      {| disp_pol := pol (link_of s); disp_tx := srv_tx s; batch := srv_batch s |} = Ret (o, hs) t' ->
    srv_step s {| link_of := after (link_of s) o (disp_pol t'); srv_tx := disp_tx t';
                  srv_batch := batch t'; handled := handled s ++ hs |}.

Definition srv_init (q : Rx.RxQueue) (tx : Tx.TxQueue) : server :=
  {| link_of := link_init q; srv_tx := tx; srv_batch := []; handled := [] |}.

(** The receiving side of a server step is a step of the link. *)
Lemma srv_step_link s s' :
  srv_step s s' -> link_step base bucket d (link_of s) (link_of s') /\
    CompletionQueue.stop_signal_ (link_of s') = CompletionQueue.stop_signal_ (link_of s).
Proof.
  intros [s1 p Hf Hr|s1 o hs t' E]; (split; [|done]).
  - by apply (nic_writes base bucket d (link_of s1) p).
  - apply thread_pulls. unfold serve in E.
    apply bind_Ret in E as (o' & t1 & E1 & E2). revert E1. unfold zoom. cbn [disp_pol].
    destruct (pull _ _ _) as [o2 p2| | |] eqn:Ep; intros E1; simplify_eq.
    assert (disp_pol t' = p2 /\ o = o') as [-> ->]; [|reflexivity].
    destruct o' as [p|]; [|by injection E2 as <- _ <-].
    revert E2. unfold bind, get, modify, ret, zoom. cbn.
    destruct (_ <? _); [by intros [= <- _ <-]|].
    destruct (CompletionQueue.stop_signal_ _); [by intros [= <- _ <-]|].
    destruct (run_callbacks _ _ _); by intros [= <- _ <-].
Qed.

(** Without a stop request, everything received is handled or in the current batch. *)
Lemma srv_step_handled s s' :
  srv_step s s' -> CompletionQueue.stop_signal_ (link_of s) = false ->
  handled s ++ srv_batch s = got (link_of s) ->
  handled s' ++ srv_batch s' = got (link_of s').
Proof.
  intros [s1 p Hf Hr|s1 o hs t' E] Hs Hinv; [done|]. cbn. unfold serve in E. rewrite Hs in E.
  apply bind_Ret in E as (o' & t1 & E1 & E2). revert E1. unfold zoom. cbn [disp_pol].
  destruct (pull _ _ _) as [o2 p2| | |] eqn:Ep; intros E1; simplify_eq.
  destruct o' as [p|]; cbn in E2.
  - revert E2. unfold bind, get, modify, ret, zoom. cbn.
    destruct (_ <? _); [|destruct (run_callbacks _ _ _)]; intros [= <- <- <-]; cbn;
      by rewrite app_nil_r, app_assoc, Hinv.
  - injection E2 as <- <- <-. cbn. by rewrite !app_nil_r.
Qed.
End dispatch.

Lemma srv_step_batch callback base bucket d tid s s' :
  srv_step callback base bucket d tid s s' -> srv_batch s = [] -> srv_batch s' = [].
Proof.
  intros [s1 p Hf Hr|s1 o hs t' E] Hb; [done|]. cbn. unfold serve in E. rewrite Hb in E.
  apply bind_Ret in E as (o' & t1 & E1 & E2). revert E1. unfold zoom. cbn [disp_pol].
  destruct (pull _ _ _) as [o2 p2| | |]; intros E1; simplify_eq.
  destruct o' as [p|]; [|by injection E2 as <- <- <-].
  inv_bind E2. injection E as <- <-. cbn [batch app] in E2.
  change (Z.of_nat (length [p]) <? batch_size) with false in E2. cbv iota in E2.
  inv_bind E2. injection E as _ <-.
  destruct (CompletionQueue.stop_signal_ _); [by injection E2 as _ _ <-|].
  inv_bind E2. injection E2 as _ _ <-. revert E. unfold zoom. cbn [disp_tx].
  destruct (run_callbacks _ _ _ _); intros E; by simplify_eq.
Qed.


(** An echo handler that answers each request in the next transmit slot. *)
Definition echo : Z -> RpcPckt -> M Tx.TxQueue unit :=
  fun _ _ => Tx.get_write_ptr ;; ret tt.

Definition sample_tx : Tx.TxQueue :=
  Tx.set_bits (Some (replicate 8 1)) (Tx.TxQueue_ctor 8192 64 3).


(** ** The threaded server *)
Record RpcThreadedServer (N : Type) := {
  max_num_of_threads_ : Z;
  base_nic_addr_ : Z;
  srv_nic : option N;
  threads_ : list RpcServerThread;
  thread_cnt_ : Z;
  mtx_ : bool;
  nic_is_started_ : bool
}.
Arguments max_num_of_threads_ {N} r.
Arguments base_nic_addr_ {N} r.
Arguments srv_nic {N} r.
Arguments threads_ {N} r.
Arguments thread_cnt_ {N} r.
Arguments mtx_ {N} r.
Arguments nic_is_started_ {N} r.

Definition rx_tx_anti_aliasing : Z := if cfg.enable_hugepages then 1 else 0.

Section server.
Context {N D : Type} `{Nic N D} (l_tx l_rx : Z) (NIC_PHY_NETWORK : bool).
Abbreviation srv := (RpcThreadedServer N).
Abbreviation io_ A := (M (sys srv D) A).

Definition RpcThreadedServer_ctor (base_nic_addr max_num_of_threads : Z) : srv :=
  {| max_num_of_threads_ := max_num_of_threads; base_nic_addr_ := base_nic_addr; srv_nic := None;
     threads_ := []; thread_cnt_ := 0; mtx_ := false; nic_is_started_ := false |}.

Definition set_srv_nic (n : option N) (s : srv) : srv :=
  {| max_num_of_threads_ := max_num_of_threads_ s; base_nic_addr_ := base_nic_addr_ s; srv_nic := n;
     threads_ := threads_ s; thread_cnt_ := thread_cnt_ s; mtx_ := mtx_ s;
     nic_is_started_ := nic_is_started_ s |}.
Definition set_threads (ts : list RpcServerThread) (cnt : Z) (s : srv) : srv :=
  {| max_num_of_threads_ := max_num_of_threads_ s; base_nic_addr_ := base_nic_addr_ s;
     srv_nic := srv_nic s; threads_ := ts; thread_cnt_ := cnt; mtx_ := mtx_ s;
     nic_is_started_ := nic_is_started_ s |}.
Definition set_mtx (b : bool) (s : srv) : srv :=
  {| max_num_of_threads_ := max_num_of_threads_ s; base_nic_addr_ := base_nic_addr_ s;
     srv_nic := srv_nic s; threads_ := threads_ s; thread_cnt_ := thread_cnt_ s; mtx_ := b;
     nic_is_started_ := nic_is_started_ s |}.
Definition set_nic_is_started (b : bool) (s : srv) : srv :=
  {| max_num_of_threads_ := max_num_of_threads_ s; base_nic_addr_ := base_nic_addr_ s;
     srv_nic := srv_nic s; threads_ := threads_ s; thread_cnt_ := thread_cnt_ s; mtx_ := mtx_ s;
     nic_is_started_ := b |}.

#[global] Program Instance server_owner : NicOwner srv N := {|
  nic_ := srv_nic;
  set_nic := set_srv_nic
|}.
Solve All Obligations with done.

Definition init_nic (indet bus : Z) : io_ Z :=
  let! s := my (fun s => s) in
  bring_up NIC_PHY_NETWORK (nic_ctor indet (base_nic_addr_ s) (max_num_of_threads_ s) true) bus
    rx_tx_anti_aliasing server_phy_addr (mk_IPv4 indet "192.168.0.2" 0).

Definition start_nic : io_ Z :=
  let! res := on_nic mode_start in
  if negb (res =? 0) then ret res
  else update (set_nic_is_started true) ;; ret 0.

Definition stop_nic : io_ Z :=
  let! res := on_nic mode_stop in
  if negb (res =? 0) then ret res
  else update (set_nic_is_started false) ;; ret 0.

Definition check_hw_errors : io_ Z := on_nic (lift NicCcip.check_hw_errors).

(** A scope under [mtx_]. *)
Definition with_mtx {A} (m : io_ A) : io_ A :=
  let! h := my mtx_ in
  if h then fun _ => Block
  else update (set_mtx true) ;; let! r := m in update (set_mtx false) ;; ret r.

Definition run_new_listening_thread (stop : bool) (pin_cpu : Z) : io_ Z :=
  with_mtx (
    let! s := my (fun s => s) in
    if thread_cnt_ s <? max_num_of_threads_ s then
      match nic_ s with
      | None => fun _ => Fault
      | Some n =>
          let! t := RpcServerThread_ctor l_tx l_rx stop n (thread_cnt_ s) (thread_cnt_ s) in
          let! r := start_listening pin_cpu t in
          if negb (r.1 =? 0) then RpcServerThread_dtor r.2 ;; ret 1
          else
            update (fun s => set_threads (threads_ s ++ [r.2]) (u64 (thread_cnt_ s + 1)) s) ;;
            ret 0
      end
    else ret 1).

Fixpoint stop_threads (ts : list RpcServerThread) : io_ (list RpcServerThread) :=
  match ts with
  | [] => ret []
  | t :: ts' =>
      let! t' := stop_listening t in
      let! rest := stop_threads ts' in
      ret (t' :: rest)
  end.

Fixpoint destroy_threads (ts : list RpcServerThread) : io_ unit :=
  match ts with
  | [] => ret tt
  | t :: ts' => RpcServerThread_dtor t ;; destroy_threads ts'
  end.

Definition stop_all_listening_threads : io_ Z :=
  let! ts := my threads_ in
  let! ts' := stop_threads ts in
  destroy_threads ts' ;;
  update (set_threads [] 0) ;;
  ret 0.

Definition connect (client_addr : IPv4) (c_id c_flow_id : Z) : io_ Z :=
  on_nic (lift (NicCcip.add_connection c_id client_addr c_flow_id)).
Definition disconnect (c_id : Z) : io_ Z := on_nic (lift (NicCcip.close_connection c_id)).
Definition run_perf_thread : io_ Z := on_nic (lift NicCcip.run_perf_thread).
Definition set_lb (lb : Z) : io_ unit := on_nic (lift (NicCcip.set_lb lb)).

(** The destructor, then the members: the threads and the nic. *)
Definition RpcThreadedServer_dtor : io_ unit :=
  let! ts := my threads_ in
  (match ts with [] => ret tt | _ => stop_all_listening_threads ;; ret tt end) ;;
  let! st := my nic_is_started_ in
  (if st then stop_nic ;; ret tt else ret tt) ;;
  let! ts := my threads_ in
  destroy_threads ts ;;
  drop_nic.
End server.

(** ** Threads and flows *)
Section threads.
Context {N D : Type} `{NicLaws N D} (l_tx l_rx : Z) (phy : bool).
Context (max : Z) (Hmax : in_width 64 max).
Abbreviation srv := (RpcThreadedServer N).

(** The rings of flow [i] are at [TF i] and [RF i]: thread [i] runs on flow [i], over
    these rings.  There are as many threads as counted, at most the maximum. *)
Record threads_inv (TF RF : Z -> Z) (s : srv) : Prop := {
  ti_nic n : nic_ s = Some n -> tx_flow_buffer n = TF /\ rx_flow_buffer n = RF;
  ti_count : thread_cnt_ s = Z.of_nat (length (threads_ s));
  ti_max : thread_cnt_ s <= max;
  ti_range : max_num_of_threads_ s = max;
  ti_thread i t :
    threads_ s !! i = Some t ->
    nic_flow_id_ t = Z.of_nat i /\ thread_ t = true /\
    Tx.tx_q_ (tx_queue_ t) = TF (Z.of_nat i) /\ Rx.rx_q_ (rx_queue_ t) = RF (Z.of_nat i)
}.

(** No threads: any nic will do. *)
Record idle (s : srv) : Prop := {
  idle_threads : threads_ s = [];
  idle_count : thread_cnt_ s = 0;
  idle_range : max_num_of_threads_ s = max
}.

Lemma idle_inv s : idle s -> exists TF RF, threads_inv TF RF s.
Proof.
  intros [Ht Hc Hr].
  exists (fun i => match nic_ s with Some n => tx_flow_buffer n i | None => 0 end),
         (fun i => match nic_ s with Some n => rx_flow_buffer n i | None => 0 end).
  split; rewrite ?Ht, ?Hc; try done.
  - by intros n ->.
  - apply Hmax.
Qed.

Section fixed.
Context (TF RF : Z -> Z).
Abbreviation keep := (preserves (S := sys srv D) (fun s => threads_inv TF RF (obj s))).

Lemma on_base_keep {A} (m : M (sys NicCCIP D) A) : keep (on_nic (lift m)).
Proof.
  apply on_base_preserves. intros s n b Hn [Hi Hc Hm Hr Hf]. split; cbn; try done.
  intros n' [= <-]. destruct (flow_buffers_own (D := D) b n) as [-> ->]. by apply Hi.
Qed.

Lemma update_keep f :
  (forall s, threads_inv TF RF s -> threads_inv TF RF (f s)) -> keep (update f).
Proof. intros Hf. apply preserves_modify. intros s. apply Hf. Qed.

Lemma set_mtx_inv b s : threads_inv TF RF s -> threads_inv TF RF (set_mtx b s).
Proof. by intros []. Qed.
Lemma set_started_inv b s : threads_inv TF RF s -> threads_inv TF RF (set_nic_is_started b s).
Proof. by intros []. Qed.
Lemma clear_inv s : threads_inv TF RF s -> threads_inv TF RF (set_threads [] 0 s).
Proof. intros [Hn Hc Hm Hr Hf]. split; cbn; try done. unfold in_width in *. lia. Qed.

#[local] Hint Resolve on_base_keep update_keep set_mtx_inv set_started_inv clear_inv : effects.

Lemma add_thread_inv s t :
  threads_inv TF RF s -> thread_cnt_ s < max_num_of_threads_ s ->
  nic_flow_id_ t = thread_cnt_ s -> thread_ t = true ->
  Tx.tx_q_ (tx_queue_ t) = TF (thread_cnt_ s) -> Rx.rx_q_ (rx_queue_ t) = RF (thread_cnt_ s) ->
  threads_inv TF RF (set_threads (threads_ s ++ [t]) (u64 (thread_cnt_ s + 1)) s).
Proof.
  intros [Hn Hc Hm Hr Hf] Hlt Ht Hj Htx Hrx.
  assert (u64 (thread_cnt_ s + 1) = thread_cnt_ s + 1) as E
    by (apply wrap_small; unfold in_width in *; lia).
  split; cbn; rewrite ?E, ?length_app; cbn; try lia; try done.
  intros i t' [Hi|[Hi Ht']]%lookup_app_Some; [by apply Hf|].
  apply list_lookup_singleton_Some in Ht' as [? <-].
  replace (Z.of_nat i) with (thread_cnt_ s) by lia. done.
Qed.

(** A thread gets the rings of the flow it is built for. *)
Lemma ctor_thread stop n flow tid s :
  wlp (RpcServerThread_ctor (S := srv) l_tx l_rx stop n flow tid)
    (fun t s' => obj s' = obj s /\ nic_flow_id_ t = flow /\
       Tx.tx_q_ (tx_queue_ t) = tx_flow_buffer n flow /\
       Rx.rx_q_ (rx_queue_ t) = rx_flow_buffer n flow) s.
Proof.
  unfold RpcServerThread_ctor. apply wlp_call. intros ra a s1 [O1 _] _.
  apply wlp_bind. unfold wlp at 1, build at 1. destruct (Tx.init _ _ _) as [[] tx| | |] eqn:Et; try done.
  apply wlp_call. intros rb b s2 [O2 _] _.
  apply wlp_bind. unfold wlp at 1, build at 1. destruct (Rx.init _ _ _) as [[] rx| | |] eqn:Er; try done.
  apply wlp_ret. cbn. rewrite O2, O1. do 2 (split; [done|]).
  by rewrite (Tx.init_tx_q _ _ _ _ _ Et), (Rx.init_rx_q _ _ _ _ _ Er).
Qed.

Lemma start_listening_spec pin t s :
  wlp (start_listening (D := D) (S := srv) pin t)
    (fun r s' => obj s' = obj s /\ r.2 = set_thread true false t) s.
Proof.
  unfold start_listening. apply wlp_bind. unfold massert, wlp at 1.
  destruct (negb (thread_ t)); [|done]. destruct (pin =? -1); [by apply wlp_ret|].
  apply wlp_call. intros r v s1 [O1 _] _. by apply wlp_ret.
Qed.

Lemma run_new_keep stop pin :
  keep (run_new_listening_thread (N := N) (D := D) l_tx l_rx stop pin).
Proof.
  unfold run_new_listening_thread, with_mtx, my. apply preserves_bind; [auto with effects|].
  intros [|]; [done|]. apply preserves_bind; [auto with effects|]. intros _.
  apply preserves_bind; [|intros; auto 10 with effects].
  intros s Hs. apply wlp_bind. unfold gets, wlp at 1.
  destruct (Z.ltb_spec (thread_cnt_ (obj s)) (max_num_of_threads_ (obj s))); [|by apply wlp_ret].
  destruct (nic_ (obj s)) as [n|] eqn:En; [|done].
  destruct (ti_nic _ _ _ Hs n En) as [ET ER].
  apply wlp_bind. eapply wlp_mono; [|apply ctor_thread]. intros t s1 (O1 & Hfl & Ht & Hr).
  rewrite ET in Ht. rewrite ER in Hr.
  apply wlp_bind. eapply wlp_mono; [|apply start_listening_spec]. intros [rc t'] s2 (O2 & Ht').
  cbn in *. subst t'. destruct (negb (rc =? 0)).
  - apply wlp_bind. unfold RpcServerThread_dtor, massert, wlp at 1. cbn. done.
  - apply wlp_bind. unfold update, modify, wlp at 1. apply wlp_ret. cbn.
    rewrite O2, O1. by apply add_thread_inv.
Qed.

Lemma stop_threads_keep ts : keep (stop_threads ts).
Proof.
  induction ts as [|t ts IH]; cbn [stop_threads]; unfold stop_listening; auto 10 with effects.
Qed.
Lemma destroy_threads_keep ts : keep (destroy_threads ts).
Proof.
  induction ts as [|t ts IH]; cbn [destroy_threads]; unfold RpcServerThread_dtor;
    auto 10 with effects.
Qed.

Lemma stop_all_keep : keep stop_all_listening_threads.
Proof.
  unfold stop_all_listening_threads, my.
  auto 20 using stop_threads_keep, destroy_threads_keep with effects.
Qed.

Lemma start_nic_keep : keep start_nic.
Proof. unfold start_nic, mode_start. auto 10 with effects. Qed.
Lemma stop_nic_keep : keep stop_nic.
Proof. unfold stop_nic, mode_stop. auto 10 with effects. Qed.
End fixed.

(** [init_nic] on an idle server leaves it idle. *)
Lemma init_nic_idle indet bus :
  preserves (S := sys srv D) (fun s => idle (obj s)) (init_nic phy indet bus).
Proof.
  unfold init_nic, my. apply preserves_bind; [auto with effects|]. intros s.
  apply bring_up_preserves. by intros n o [].
Qed.

(** A use of an initialised server: one call of its interface. *)
Inductive srv_call : Type :=
| StartNic
| StopNic
| CheckHwErrors
| RunNewListeningThread (stop : bool) (pin_cpu : Z)
| StopAllListeningThreads
| Connect (client_addr : IPv4) (c_id c_flow_id : Z)
| Disconnect (c_id : Z)
| RunPerfThread
| SetLb (lb : Z).

Definition run_srv (c : srv_call) : M (sys srv D) unit :=
  match c with
  | StartNic => start_nic ;; ret tt
  | StopNic => stop_nic ;; ret tt
  | CheckHwErrors => check_hw_errors ;; ret tt
  | RunNewListeningThread stop pin => run_new_listening_thread l_tx l_rx stop pin ;; ret tt
  | StopAllListeningThreads => stop_all_listening_threads ;; ret tt
  | Connect a c f => connect a c f ;; ret tt
  | Disconnect c => disconnect c ;; ret tt
  | RunPerfThread => run_perf_thread ;; ret tt
  | SetLb lb => set_lb lb
  end.

Definition srv_use (s s' : sys srv D) : Prop := exists c, run_srv c s = Ret tt s'.

(** A server is initialised only while it has no threads. *)
Inductive srv_api (s s' : sys srv D) : Prop :=
| api_use : srv_use s s' -> srv_api s s'
| api_init indet bus r :
    threads_ (obj s) = [] -> init_nic phy indet bus s = Ret r s' -> srv_api s s'.

Lemma srv_use_keep TF RF s s' :
  srv_use s s' -> threads_inv TF RF (obj s) -> threads_inv TF RF (obj s').
Proof.
  intros [c E]. revert s s' E. assert (preserves (fun s => threads_inv TF RF (obj s)) (run_srv c)) as Hp;
    [|by intros s s' E Hs; apply (wlp_ret_inv _ _ _ _ _ E (Hp s Hs))].
  destruct c; cbn [run_srv]; unfold check_hw_errors, connect, disconnect, run_perf_thread, set_lb;
    repeat (apply preserves_bind; [|intros; apply preserves_ret]);
    auto using on_base_keep, start_nic_keep, stop_nic_keep, run_new_keep, stop_all_keep.
Qed.

Lemma srv_api_keep s s' :
  srv_api s s' -> (exists TF RF, threads_inv TF RF (obj s)) ->
  exists TF RF, threads_inv TF RF (obj s').
Proof.
  intros [Hu|indet bus r Ht E] (TF & RF & Hs).
  - exists TF, RF. by eapply srv_use_keep.
  - assert (idle (obj s)) as Hi by (destruct Hs as [_ Hc _ Hr _]; by split; rewrite ?Hc, ?Ht).
    apply idle_inv. apply (wlp_ret_inv _ _ _ _ _ E (init_nic_idle indet bus s Hi)).
Qed.

(** Whatever a program does with a server, thread [i] of the server runs on flow
    [i] of the nic, over the two rings the nic has for this flow, so that no two
    threads share a flow; there are never more threads than the nic has flows. *)
Theorem server_threads (base_nic_addr : Z) (w : World D) (s : sys srv D) :
  rtc srv_api (Sys (RpcThreadedServer_ctor base_nic_addr max) w) s ->
  Z.of_nat (length (threads_ (obj s))) = thread_cnt_ (obj s) /\
  thread_cnt_ (obj s) <= max /\
  forall i t n, threads_ (obj s) !! i = Some t -> nic_ (obj s) = Some n ->
    nic_flow_id_ t = Z.of_nat i /\ thread_ t = true /\
    Tx.tx_q_ (tx_queue_ t) = tx_flow_buffer n (Z.of_nat i) /\
    Rx.rx_q_ (rx_queue_ t) = rx_flow_buffer n (Z.of_nat i).
Proof.
  intros Hr. assert (exists TF RF, threads_inv TF RF (obj s)) as (TF & RF & [Hn Hc Hx _ Ht]).
  { revert s Hr. refine (rtc_ind_r _ _ _ _); [by apply idle_inv|].
    intros s1 s2 _ Hs. by apply srv_api_keep. }
  split; [done|]. split; [done|]. intros i t n Hi Hni.
  destruct (Hn n Hni) as [-> ->]. by apply Ht.
Qed.
End threads.

Definition board_server : sys (RpcThreadedServer Polling.NicPollingCCIP) nat :=
  boot (RpcThreadedServer_ctor 0x20000 4).

Definition board_ops : @Nic Polling.NicPollingCCIP nat (scripted polling_board) _ :=
  @polling_ops nat (scripted polling_board) 3 3.

(** The server is initialised and gets two threads, the second one pinned to CPU 2. *)
Lemma server_threads_witness :
  exists s, rtc (srv_api (H1 := board_ops) 3 3 false) board_server s /\
    nic_flow_id_ <$> threads_ (obj s) = [0; 1] /\
    Z.of_nat (length (threads_ (obj s))) = thread_cnt_ (obj s) /\ thread_cnt_ (obj s) <= 4.
Proof.
  assert (exists s, rtc (srv_api (H1 := board_ops) 3 3 false) board_server s /\
            nic_flow_id_ <$> threads_ (obj s) = [0; 1]) as (s & Hr & Hf).
  { eexists. split.
    - eapply rtc_l; [eapply (api_init _ _ _ _ _ 0 0); [done|vm_compute; reflexivity]|].
      eapply rtc_l; [apply api_use; exists (RunNewListeningThread false (-1)); vm_compute; reflexivity|].
      eapply rtc_l; [apply api_use; exists (RunNewListeningThread false 2); vm_compute; reflexivity|].
      apply rtc_refl.
    - reflexivity. }
  exists s. split; [exact Hr|]. split; [exact Hf|].
  destruct (server_threads (H2 := @polling_laws nat (scripted polling_board) 3 3) 3 3 false 4
              ltac:(unfold in_width; lia) 0x20000 (mkWorld 0%nat []) s Hr) as (Hc & Hm & _).
  split; [exact Hc|exact Hm].
Defined.

(** ** The rings of a polling server *)
Section polling_server.
Context {D : Type} `{Platform D, !PrepareLaw D} (l_tx l_rx : Z) (phy : bool).
Context (Htx : 0 <= l_tx <= 16) (Hrx : 0 <= l_rx <= 16) (Hps : 0 < get_page_size <= 2 ^ 32).
Abbreviation psrv := (sys (RpcThreadedServer Polling.NicPollingCCIP) D).
#[local] Instance polling_server_ops : Nic Polling.NicPollingCCIP D := polling_nic_ops l_tx l_rx.
#[local] Instance polling_server_laws : NicLaws Polling.NicPollingCCIP D := polling_nic_laws l_tx l_rx.

Lemma init_nic_rings indet bus base_nic_addr max w :
  0 < max <= 2 ^ 32 ->
  wlp (init_nic phy indet bus)
    (fun r s => r = 0 -> exists n page,
       nic_ (obj s) = Some n /\ rings_ready l_tx l_rx max page (Polling.rings_ n) /\
       idle max (obj s))
    (Sys (RpcThreadedServer_ctor base_nic_addr max) w : psrv).
Proof using Htx Hrx Hps PrepareLaw0.
  intros Hm. unfold init_nic. apply wlp_bind. unfold my, gets, wlp at 1. cbn [obj].
  eapply wlp_mono; [|by apply (bring_up_rings l_tx l_rx)].
  intros r s Hs H0. destruct (Hs H0) as (n & page & -> & Hr). by exists n, page.
Qed.

(** C24. After a polling server has been initialised, the rings of its threads are
    pairwise disjoint, have the configured size, and lie in one page, whatever the
    program does with the server and however many threads it starts and stops. *)
Theorem polling_server_rings (indet bus base_nic_addr max : Z) (w : World D) (s0 s : psrv) :
  0 < max <= 2 ^ 32 ->
  init_nic phy indet bus (Sys (RpcThreadedServer_ctor base_nic_addr max) w) = Ret 0 s0 ->
  rtc (srv_use l_tx l_rx) s0 s ->
  exists page, page mod get_page_size = 0 /\
    forall i j t u, (i < j)%nat -> threads_ (obj s) !! i = Some t -> threads_ (obj s) !! j = Some u ->
      rings_apart l_tx l_rx page (Tx.tx_q_ (tx_queue_ t)) (Rx.rx_q_ (rx_queue_ t))
        (Tx.tx_q_ (tx_queue_ u)) (Rx.rx_q_ (rx_queue_ u)).
Proof using Htx Hrx Hps PrepareLaw0.
  intros Hm E Hr.
  destruct (wlp_ret_inv _ _ _ _ _ E (init_nic_rings indet bus base_nic_addr max w Hm) eq_refl)
    as (n & page & Hn & Hrr & [Ht0 Hc0 Hmx]).
  exists page. split; [by destruct Hrr|].
  assert (threads_inv max (tx_flow_buffer n) (rx_flow_buffer n) (obj s)) as [_ Hc Hle _ Ht].
  { assert (threads_inv max (tx_flow_buffer n) (rx_flow_buffer n) (obj s0)) as H0.
    { split; rewrite ?Hn, ?Ht0, ?Hc0; try done; [|lia]. by intros n' [= ->]. }
    clear - H0 Hr Hm. induction Hr as [|s1 s2 s3 Hu _ IH]; [done|].
    apply IH. eapply srv_use_keep; [unfold in_width; lia|done..]. }
  intros i j t u Hij Hi Hj.
  destruct (Ht i t Hi) as (_ & _ & -> & ->). destruct (Ht j u Hj) as (_ & _ & -> & ->).
  pose proof (lookup_lt_Some _ _ _ Hj). apply (rings_ready_apart _ _ _ _ _ _ _ Hrr). lia.
Qed.
End polling_server.

Abbreviation pops := (polling_server_ops (H := scripted polling_board) 3 3).
Abbreviation fresh_server := (Sys (RpcThreadedServer_ctor 0x20000 4) (mkWorld 0%nat [])).

(** Two threads of a server with four flows: a page of 4096 bytes holds their rings. *)
Lemma polling_server_rings_witness :
  exists s0 s t u,
    init_nic (H1 := pops) false 0 0 fresh_server = Ret 0 s0 /\
    rtc (srv_use (H1 := pops) 3 3) s0 s /\
    threads_ (obj s) = [t; u] /\
    exists page, page mod 4096 = 0 /\
      rings_apart (H := scripted polling_board) 3 3 page (Tx.tx_q_ (tx_queue_ t))
        (Rx.rx_q_ (rx_queue_ t)) (Tx.tx_q_ (tx_queue_ u)) (Rx.rx_q_ (rx_queue_ u)).
Proof.
  assert (exists s0 s t u,
    init_nic (H1 := pops) false 0 0 fresh_server = Ret 0 s0 /\
    rtc (srv_use (H1 := pops) 3 3) s0 s /\ threads_ (obj s) = [t; u])
    as (s0 & s & t & u & E & Hr & Ht).
  { do 4 eexists. split; [vm_compute; reflexivity|]. split.
    - eapply rtc_l; [exists (RunNewListeningThread false (-1)); vm_compute; reflexivity|].
      eapply rtc_l; [exists (RunNewListeningThread false 2); vm_compute; reflexivity|]. apply rtc_refl.
    - reflexivity. }
  exists s0, s, t, u. split; [exact E|]. split; [exact Hr|]. split; [exact Ht|].
  destruct (polling_server_rings (H := scripted polling_board) (PrepareLaw0 := board_prepare) 3 3 false
              ltac:(lia) ltac:(lia) ltac:(vm_compute; split; congruence) 0 0 0x20000 4
              (mkWorld 0%nat []) s0 s ltac:(lia) E Hr) as (page & Hp & Ha).
  exists page. split; [exact Hp|]. apply (Ha 0%nat 1%nat); [lia|by rewrite Ht..].
Defined.

(** ** A thread that cannot be pinned *)
Section pin.
Context {N D : Type} `{Nic N D} (l_tx l_rx : Z).

Lemma ctor_built (stop : bool) (n : N) flow tid {S A} (k : RpcServerThread -> M (sys S D) A)
    (s : sys S D) o :
  getpagesize = 4096 -> (forall len d, (io (Malloc len) d).1.2 <> 0) ->
  (forall t s', thread_ t = false -> obj s' = obj s -> k t s' = o) ->
  bind (RpcServerThread_ctor l_tx l_rx stop n flow tid) k s = o.
Proof.
  intros Hp Hmal Hk. unfold RpcServerThread_ctor. rewrite Hp, bind_assoc.
  apply (bind_call _ _ (fun v => v <> 0)); [by intros; apply Hmal|]. intros ra s1 Ha O1.
  rewrite (proj2 (Z.eqb_neq _ _) Ha), bind_assoc. apply build_ret; [by eexists|]. intros tx.
  rewrite bind_assoc.
  apply (bind_call _ _ (fun v => v <> 0)); [by intros; apply Hmal|]. intros rb s2 Hb O2.
  rewrite (proj2 (Z.eqb_neq _ _) Hb), bind_assoc. apply build_ret; [by eexists|]. intros rx.
  apply Hk; [done|]. by rewrite O2, O1.
Qed.

(** When a new listening thread cannot be pinned to its CPU, the call does not
    return the error code 1 it has for this: the thread object is destroyed while its
    [std::thread] is running, which terminates the program. *)
Theorem pin_failure_terminates (stop : bool) (pin_cpu : Z) (n : N)
    (s : sys (RpcThreadedServer N) D) :
  getpagesize = 4096 ->
  (forall len d, (io (Malloc len) d).1.2 <> 0) ->
  (forall cpu d, (io (SetAffinity cpu) d).1.2 <> 0) ->
  mtx_ (obj s) = false -> nic_ (obj s) = Some n ->
  thread_cnt_ (obj s) < max_num_of_threads_ (obj s) -> pin_cpu <> -1 ->
  run_new_listening_thread l_tx l_rx stop pin_cpu s = Abort.
Proof.
  intros Hp Hmal Hset Hmtx Hn Hlt Hpin.
  unfold run_new_listening_thread, with_mtx, my. unfold gets at 1, bind at 1. rewrite Hmtx.
  unfold update at 1, modify, bind at 1. rewrite bind_assoc. unfold gets at 1, bind at 1.
  cbn [obj thread_cnt_ max_num_of_threads_ nic_ server_owner srv_nic set_mtx]. cbn in Hn. rewrite Hn, (proj2 (Z.ltb_lt _ _) Hlt).
  rewrite bind_assoc. apply ctor_built; [done..|]. intros t s1 Ht _.
  rewrite bind_assoc. unfold start_listening. rewrite Ht, (proj2 (Z.eqb_neq _ _) Hpin).
  rewrite bind_assoc. unfold massert at 1, bind at 1. cbn [negb]. rewrite bind_assoc.
  apply (bind_call _ _ (fun v => v <> 0)); [by intros; apply Hset|]. intros r s2 Hr _.
  by rewrite (proj2 (Z.eqb_neq _ _) Hr).
Qed.
End pin.

(** CPU 64 of a machine that has fewer. *)
Definition no_such_cpu : nat -> io_call -> fpga_result * Z :=
  fun _ c => match c with SetAffinity _ => (FPGA_OK, 22) | _ => (FPGA_OK, 3) end.

Definition one_flow_server : RpcThreadedServer Polling.NicPollingCCIP :=
  set_srv_nic (Some (Polling.ctor 0 0x20000 1 true)) (RpcThreadedServer_ctor 0x20000 1).

Lemma pin_failure_terminates_witness :
  run_new_listening_thread (H1 := @polling_ops nat (scripted no_such_cpu) 3 3) 3 3 false 64
    (boot one_flow_server) = Abort.
Proof.
  apply (pin_failure_terminates (H1 := @polling_ops nat (scripted no_such_cpu) 3 3) 3 3 false 64
           (Polling.ctor 0 0x20000 1 true) (boot one_flow_server));
    [reflexivity|discriminate|discriminate|reflexivity|reflexivity|reflexivity|discriminate].
Defined.
