(* ===== verification/RpcClient.v ===== *)
(** * The RPC client

    - [RpcClientNonBlock_Base] (src/sw/src/rpc_client_nonblocking_base.h and .cc): the
      part of a client stub that talks to the hardware, with the transmit ring of one
      NIC flow and a completion queue over its receive ring;
    - [RpcClientPool] (rpc_client_pool.h): the NIC and the clients that share it.

    The stubs that the code generator derives from the base class are not modelled: a
    pool has clients of the base class. *)

From stdpp Require Import relations.
From S2P Require Import Prelude Wire Queues ConnectionManager Host HssiCsrs Hssi NicCcip.
From S2P Require Import NicProtocol NicModes NicBuffers NicLifecycle NicOwner CompletionQueue.

(** ** A client *)
Record RpcClient := {
  client_id_ : Z;
  nic_flow_id_ : Z;
  tx_queue_ : Tx.TxQueue;
  rpc_id_cnt_ : Z;
  c_id_ : Z;
  cq : CompletionQueue
}.

Definition set_c_id (c_id : Z) (c : RpcClient) : RpcClient :=
  {| client_id_ := client_id_ c; nic_flow_id_ := nic_flow_id_ c; tx_queue_ := tx_queue_ c;
     rpc_id_cnt_ := rpc_id_cnt_ c; c_id_ := c_id; cq := cq c |}.

Section client.
Context {N D : Type} `{Nic N D} {S : Type} `{NicOwner S N}.
Context (NIC_CCIP_MMIO : bool) (l_tx l_rx : Z).

(** The constructor; [indet] is the value of [c_id_], which is not initialised.  The
    completion queue starts to listen at once. *)
Definition RpcClient_ctor (indet : Z) (nic : N) (nic_flow_id client_id : Z)
  : M (sys S D) RpcClient :=
  (if NIC_CCIP_MMIO then massert (l_tx =? 0) else ret tt) ;;
  let! a := call (Malloc (ring_depth l_tx)) in
  let! tx := build (Tx.init getpagesize (negb (a.2 =? 0)))
               (Tx.TxQueue_ctor (tx_flow_buffer nic nic_flow_id) get_mtu_size_bytes l_tx) in
  let! b := call (Malloc (4 * ring_depth l_rx)) in
  let! q := CompletionQueue_ctor getpagesize (negb (b.2 =? 0)) nic_flow_id
              (rx_flow_buffer nic nic_flow_id) get_mtu_size_bytes l_rx in
  let! q := build cq_bind q in
  ret {| client_id_ := u16 client_id; nic_flow_id_ := nic_flow_id; tx_queue_ := tx;
         rpc_id_cnt_ := 0; c_id_ := indet; cq := q |}.

Definition RpcClient_dtor (c : RpcClient) : M (sys S D) unit := build cq_unbind (cq c) ;; ret tt.

Definition connect (server_addr : IPv4) (c_id : Z) (c : RpcClient) : M (sys S D) (Z * RpcClient) :=
  let c' := set_c_id c_id c in
  let! r := on_nic (lift (NicCcip.add_connection (c_id_ c') server_addr (u16 (nic_flow_id_ c')))) in
  ret (r, c').

Definition disconnect (c : RpcClient) : M (sys S D) Z :=
  on_nic (lift (NicCcip.close_connection (c_id_ c))).
End client.

(** ** The pool *)
Record RpcClientPool (N : Type) := {
  max_pool_size_ : Z;
  base_nic_addr_ : Z;
  pool_nic : option N;
  rpc_client_pool : list RpcClient;
  rpc_client_cnt_ : Z;
  mtx_ : bool;
  nic_is_started_ : bool
}.
Arguments max_pool_size_ {N} r.
Arguments base_nic_addr_ {N} r.
Arguments pool_nic {N} r.
Arguments rpc_client_pool {N} r.
Arguments rpc_client_cnt_ {N} r.
Arguments mtx_ {N} r.
Arguments nic_is_started_ {N} r.

Definition client_phy_addr : PhyAddr :=
  {| b0 := 0x1A; b1 := 0x2B; b2 := 0x3C; b3 := 0x4D; b4 := 0x5E; b5 := 0x6D |}.

Section pool.
Context {N D : Type} `{Nic N D} (ASE_SIMULATION NIC_PHY_NETWORK NIC_CCIP_MMIO : bool) (l_tx l_rx : Z).
Abbreviation pool := (RpcClientPool N).
Abbreviation io_ A := (M (sys pool D) A).

Definition RpcClientPool_ctor (base_nic_addr max_pool_size : Z) : pool :=
  {| max_pool_size_ := max_pool_size; base_nic_addr_ := base_nic_addr; pool_nic := None;
     rpc_client_pool := []; rpc_client_cnt_ := 0; mtx_ := false; nic_is_started_ := false |}.

Definition set_pool_nic (n : option N) (p : pool) : pool :=
  {| max_pool_size_ := max_pool_size_ p; base_nic_addr_ := base_nic_addr_ p; pool_nic := n;
     rpc_client_pool := rpc_client_pool p; rpc_client_cnt_ := rpc_client_cnt_ p; mtx_ := mtx_ p;
     nic_is_started_ := nic_is_started_ p |}.
Definition set_clients (cs : list RpcClient) (cnt : Z) (p : pool) : pool :=
  {| max_pool_size_ := max_pool_size_ p; base_nic_addr_ := base_nic_addr_ p;
     pool_nic := pool_nic p; rpc_client_pool := cs; rpc_client_cnt_ := cnt; mtx_ := mtx_ p;
     nic_is_started_ := nic_is_started_ p |}.
Definition set_mtx (b : bool) (p : pool) : pool :=
  {| max_pool_size_ := max_pool_size_ p; base_nic_addr_ := base_nic_addr_ p;
     pool_nic := pool_nic p; rpc_client_pool := rpc_client_pool p;
     rpc_client_cnt_ := rpc_client_cnt_ p; mtx_ := b; nic_is_started_ := nic_is_started_ p |}.
Definition set_nic_is_started (b : bool) (p : pool) : pool :=
  {| max_pool_size_ := max_pool_size_ p; base_nic_addr_ := base_nic_addr_ p;
     pool_nic := pool_nic p; rpc_client_pool := rpc_client_pool p;
     rpc_client_cnt_ := rpc_client_cnt_ p; mtx_ := mtx_ p; nic_is_started_ := b |}.

#[global] Program Instance pool_owner : NicOwner pool N := {|
  nic_ := pool_nic;
  set_nic := set_pool_nic
|}.
Solve All Obligations with done.

(** Under the simulator the pool's nic is a slave of the server's. *)
Definition init_nic (indet bus : Z) : io_ Z :=
  let! p := my (fun p => p) in
  bring_up NIC_PHY_NETWORK
    (nic_ctor indet (base_nic_addr_ p) (max_pool_size_ p) (negb ASE_SIMULATION)) bus 0
    client_phy_addr (mk_IPv4 indet "192.168.0.1" 0).

Definition start_nic : io_ Z :=
  let! res := on_nic mode_start in
  if negb (res =? 0) then ret res
  else update (set_nic_is_started true) ;; ret 0.

Definition stop_nic : io_ Z :=
  let! res := on_nic mode_stop in
  if negb (res =? 0) then ret res
  else update (set_nic_is_started false) ;; ret 0.

Definition check_hw_errors : io_ Z := on_nic (lift NicCcip.check_hw_errors).
Definition run_perf_thread : io_ Z := on_nic (lift NicCcip.run_perf_thread).

(** [pop]: the position of the new client, or the null pointer. *)
Definition pop (indet : Z) : io_ (option nat) :=
  let! h := my mtx_ in
  if h then fun _ => Block
  else
    update (set_mtx true) ;;
    let! p := my (fun p => p) in
    let! r :=
      if rpc_client_cnt_ p <? max_pool_size_ p then
        match nic_ p with
        | None => fun _ => Fault
        | Some n =>
            let! c := RpcClient_ctor NIC_CCIP_MMIO l_tx l_rx indet n (rpc_client_cnt_ p)
                        (rpc_client_cnt_ p) in
            update (fun p => set_clients (rpc_client_pool p ++ [c]) (u64 (rpc_client_cnt_ p + 1)) p) ;;
            ret (Some (length (rpc_client_pool p)))
        end
      else ret None in
    update (set_mtx false) ;;
    ret r.

(** A call through the pointer that [pop] returned. *)
Definition pool_connect (i : nat) (server_addr : IPv4) (c_id : Z) : io_ Z :=
  let! cs := my rpc_client_pool in
  match cs !! i with
  | None => fun _ => Fault
  | Some c =>
      let! r := connect server_addr c_id c in
      update (fun p => set_clients (<[i := r.2]> (rpc_client_pool p)) (rpc_client_cnt_ p) p) ;;
      ret r.1
  end.

Definition pool_disconnect (i : nat) : io_ Z :=
  let! cs := my rpc_client_pool in
  match cs !! i with None => fun _ => Fault | Some c => disconnect c end.

Fixpoint destroy_clients (cs : list RpcClient) : io_ unit :=
  match cs with
  | [] => ret tt
  | c :: cs' => RpcClient_dtor c ;; destroy_clients cs'
  end.

(** The destructor, then the members: the clients and the nic. *)
Definition RpcClientPool_dtor : io_ unit :=
  let! st := my nic_is_started_ in
  (if st then stop_nic ;; ret tt else ret tt) ;;
  let! cs := my rpc_client_pool in
  destroy_clients cs ;;
  drop_nic.
End pool.

(** ** Clients and flows *)
Section clients.
Context {N D : Type} `{NicLaws N D} (ASE phy mmio : bool) (l_tx l_rx : Z).
Context (max : Z) (Hmax : in_width 64 max).
Abbreviation pool := (RpcClientPool N).

(** A client of flow [i] whose rings are at [TF i] and [RF i]; its completion queue
    has the client's identifier and listens. *)
Record client_on (TF RF : Z -> Z) (i : Z) (c : RpcClient) : Prop := {
  co_flow : nic_flow_id_ c = i;
  co_id : client_id_ c = u16 i;
  co_tx : Tx.tx_q_ (tx_queue_ c) = TF i;
  co_rx : Rx.rx_q_ (cq_rx_queue_ (cq c)) = RF i;
  co_cq : rpc_client_id_ (cq c) = i;
  co_bound : thread_ (cq c) = true
}.

Record clients_inv (TF RF : Z -> Z) (p : pool) : Prop := {
  ci_nic n : nic_ p = Some n -> tx_flow_buffer n = TF /\ rx_flow_buffer n = RF;
  ci_count : rpc_client_cnt_ p = Z.of_nat (length (rpc_client_pool p));
  ci_max : rpc_client_cnt_ p <= max;
  ci_range : max_pool_size_ p = max;
  ci_client i c : rpc_client_pool p !! i = Some c -> client_on TF RF (Z.of_nat i) c
}.

Record empty_pool (p : pool) : Prop := {
  ep_clients : rpc_client_pool p = [];
  ep_count : rpc_client_cnt_ p = 0;
  ep_range : max_pool_size_ p = max
}.

Lemma empty_pool_inv p : empty_pool p -> exists TF RF, clients_inv TF RF p.
Proof.
  intros [Ht Hc Hr].
  exists (fun i => match nic_ p with Some n => tx_flow_buffer n i | None => 0 end),
         (fun i => match nic_ p with Some n => rx_flow_buffer n i | None => 0 end).
  split; rewrite ?Ht, ?Hc; try done; [by intros n ->|apply Hmax].
Qed.

(** The constructor binds the client to the rings of its flow. *)
Lemma ctor_client indet n flow id s :
  wlp (RpcClient_ctor (S := pool) mmio l_tx l_rx indet n flow id)
    (fun c s' => obj s' = obj s /\
       (id = flow -> client_on (tx_flow_buffer n) (rx_flow_buffer n) flow c)) s.
Proof.
  unfold RpcClient_ctor, CompletionQueue_ctor. apply wlp_bind. unfold wlp at 1.
  assert (forall A (k : unit -> M (sys pool D) A) Q, wlp (k tt) Q s ->
    match (if mmio then massert (l_tx =? 0) else ret tt) s with
    | Ret a s' => wlp (k a) Q s' | _ => True end) as Ha.
  { intros A k Q Hk. unfold massert. by destruct mmio, (l_tx =? 0). }
  apply (Ha _ (fun _ => _)). clear Ha. apply wlp_call. intros ra a s1 [O1 _] _.
  apply wlp_bind. unfold wlp at 1, build at 1. destruct (Tx.init _ _ _) as [u tx| | |] eqn:Et; try done.
  apply wlp_call. intros rb b s2 [O2 _] _. apply wlp_assoc.
  apply wlp_bind. unfold wlp at 1, build at 1. destruct (Rx.init _ _ _) as [v rx| | |] eqn:Er; try done.
  apply wlp_ret_bind, wlp_bind. unfold wlp at 1, build at 1. cbn. apply wlp_ret.
  rewrite O2, O1. split; [done|]. intros ->.
  split; cbn; try done; [by rewrite (Tx.init_tx_q _ _ _ _ _ Et)|by rewrite (Rx.init_rx_q _ _ _ _ _ Er)].
Qed.

Section fixed.
Context (TF RF : Z -> Z).
Abbreviation keep := (preserves (S := sys pool D) (fun s => clients_inv TF RF (obj s))).

Lemma pool_base_keep {A} (m : M (sys NicCCIP D) A) : keep (on_nic (lift m)).
Proof.
  apply on_base_preserves. intros s n b Hn [Hi Hc Hm Hr Hf]. split; cbn; try done.
  intros n' [= <-]. destruct (flow_buffers_own (D := D) b n) as [-> ->]. by apply Hi.
Qed.

Lemma pool_update_keep f :
  (forall p, clients_inv TF RF p -> clients_inv TF RF (f p)) -> keep (update f).
Proof. intros Hf. apply preserves_modify. intros s. apply Hf. Qed.

Lemma pool_mtx_inv b p : clients_inv TF RF p -> clients_inv TF RF (set_mtx b p).
Proof. by intros []. Qed.
Lemma pool_started_inv b p : clients_inv TF RF p -> clients_inv TF RF (set_nic_is_started b p).
Proof. by intros []. Qed.

#[local] Hint Resolve pool_base_keep pool_update_keep pool_mtx_inv pool_started_inv : effects.

Lemma add_client_inv p c :
  clients_inv TF RF p -> rpc_client_cnt_ p < max_pool_size_ p ->
  client_on TF RF (rpc_client_cnt_ p) c ->
  clients_inv TF RF (set_clients (rpc_client_pool p ++ [c]) (u64 (rpc_client_cnt_ p + 1)) p).
Proof.
  intros [Hn Hc Hm Hr Hf] Hlt Ho.
  assert (u64 (rpc_client_cnt_ p + 1) = rpc_client_cnt_ p + 1) as E
    by (apply wrap_small; unfold in_width in *; lia).
  split; cbn; rewrite ?E, ?length_app; cbn; try lia; try done.
  intros i c' [Hi|[Hi Hc']]%lookup_app_Some; [by apply Hf|].
  apply list_lookup_singleton_Some in Hc' as [? <-].
  replace (Z.of_nat i) with (rpc_client_cnt_ p) by lia. done.
Qed.

Lemma pop_keep indet : keep (pop mmio l_tx l_rx indet).
Proof.
  unfold pop, my. apply preserves_bind; [auto with effects|]. intros [|]; [done|].
  apply preserves_bind; [auto with effects|]. intros _.
  intros s Hs. apply wlp_bind. unfold gets, wlp at 1. revert s Hs.
  assert (keep (let! p := gets obj in
    if rpc_client_cnt_ p <? max_pool_size_ p then
      match nic_ p with
      | None => fun _ => Fault
      | Some n =>
          let! c := RpcClient_ctor mmio l_tx l_rx indet n (rpc_client_cnt_ p) (rpc_client_cnt_ p) in
          update (fun p => set_clients (rpc_client_pool p ++ [c]) (u64 (rpc_client_cnt_ p + 1)) p) ;;
          ret (Some (length (rpc_client_pool p)))
      end
    else ret None)) as Hb.
  { intros s Hs. apply wlp_bind. unfold gets, wlp at 1.
    destruct (Z.ltb_spec (rpc_client_cnt_ (obj s)) (max_pool_size_ (obj s))); [|by apply wlp_ret].
    destruct (nic_ (obj s)) as [n|] eqn:En; [|done].
    destruct (ci_nic _ _ _ Hs n En) as [ET ER].
    apply wlp_bind. eapply wlp_mono; [|apply ctor_client]. intros c s1 [O1 Hc].
    apply wlp_bind. unfold update, modify, wlp at 1. apply wlp_ret. cbn. rewrite O1.
    apply add_client_inv; [done..|]. rewrite <- ET, <- ER. by apply Hc. }
  intros s Hs. apply wlp_bind. eapply wlp_mono; [|exact (Hb s Hs)].
  intros r s' Hs'. revert s' Hs'. apply preserves_bind; auto with effects.
Qed.

Lemma pool_start_keep : keep start_nic.
Proof. unfold start_nic, mode_start. auto 10 with effects. Qed.
Lemma pool_stop_keep : keep stop_nic.
Proof. unfold stop_nic, mode_stop. auto 10 with effects. Qed.

Lemma set_client_inv i c p :
  clients_inv TF RF p -> client_on TF RF (Z.of_nat i) c ->
  clients_inv TF RF (set_clients (<[i := c]> (rpc_client_pool p)) (rpc_client_cnt_ p) p).
Proof.
  intros [Hn Hc Hm Hr Hf] Ho. split; cbn; rewrite ?length_insert; try done.
  intros j c' [(<- & <- & _)|[_ Hj]]%list_lookup_insert_Some; [done|by apply Hf].
Qed.

Lemma connect_keep i a c_id : keep (pool_connect i a c_id).
Proof.
  intros s Hs. unfold pool_connect, my, connect. apply wlp_bind. unfold gets, wlp at 1.
  destruct (rpc_client_pool (obj s) !! i) as [c|] eqn:Ei; [|done].
  apply wlp_assoc, wlp_bind. eapply wlp_mono; [|exact (pool_base_keep _ s Hs)]. intros r s1 Hs1.
  apply wlp_ret_bind, wlp_bind. unfold update, modify, wlp at 1. apply wlp_ret. cbn.
  apply set_client_inv; [done|]. by destruct (ci_client _ _ _ Hs i c Ei).
Qed.

Lemma disconnect_keep i : keep (pool_disconnect i).
Proof.
  unfold pool_disconnect, my, disconnect. apply preserves_bind; [auto with effects|].
  intros cs. destruct (cs !! i); [auto with effects|done].
Qed.
End fixed.

Lemma init_nic_empty indet bus :
  preserves (S := sys pool D) (fun s => empty_pool (obj s)) (init_nic ASE phy indet bus).
Proof.
  unfold init_nic, my. apply preserves_bind; [auto with effects|]. intros s.
  apply bring_up_preserves. by intros n o [].
Qed.

(** A use of an initialised pool. *)
Inductive pool_call : Type :=
| StartNic
| StopNic
| CheckHwErrors
| RunPerfThread
| Pop (indet : Z)
| ClientConnect (i : nat) (server_addr : IPv4) (c_id : Z)
| ClientDisconnect (i : nat).

Definition run_pool (c : pool_call) : M (sys pool D) unit :=
  match c with
  | StartNic => start_nic ;; ret tt
  | StopNic => stop_nic ;; ret tt
  | CheckHwErrors => check_hw_errors ;; ret tt
  | RunPerfThread => run_perf_thread ;; ret tt
  | Pop indet => pop mmio l_tx l_rx indet ;; ret tt
  | ClientConnect i a c => pool_connect i a c ;; ret tt
  | ClientDisconnect i => pool_disconnect i ;; ret tt
  end.

Definition pool_use (s s' : sys pool D) : Prop := exists c, run_pool c s = Ret tt s'.

(** A pool is initialised only while it has no clients. *)
Inductive pool_api (s s' : sys pool D) : Prop :=
| pool_used : pool_use s s' -> pool_api s s'
| pool_init indet bus r :
    rpc_client_pool (obj s) = [] -> init_nic ASE phy indet bus s = Ret r s' -> pool_api s s'.

Lemma pool_use_keep TF RF s s' :
  pool_use s s' -> clients_inv TF RF (obj s) -> clients_inv TF RF (obj s').
Proof.
  intros [c E]. revert s s' E. assert (preserves (fun s => clients_inv TF RF (obj s)) (run_pool c)) as Hp;
    [|by intros s s' E Hs; apply (wlp_ret_inv _ _ _ _ _ E (Hp s Hs))].
  destruct c; cbn [run_pool]; unfold check_hw_errors, run_perf_thread;
    (apply preserves_bind; [|intros; apply preserves_ret]);
    auto using pool_base_keep, pool_start_keep, pool_stop_keep, pop_keep, connect_keep, disconnect_keep.
Qed.

Lemma pool_api_keep s s' :
  pool_api s s' -> (exists TF RF, clients_inv TF RF (obj s)) ->
  exists TF RF, clients_inv TF RF (obj s').
Proof.
  intros [Hu|indet bus r Ht E] (TF & RF & Hs).
  - exists TF, RF. by eapply pool_use_keep.
  - assert (empty_pool (obj s)) as Hi by (destruct Hs as [_ Hc _ Hr _]; by split; rewrite ?Hc, ?Ht).
    apply empty_pool_inv. apply (wlp_ret_inv _ _ _ _ _ E (init_nic_empty indet bus s Hi)).
Qed.

(** Whatever a program does with a pool, client [i] sends on flow [i] of the nic
    and its completion queue listens on the same flow, over the two rings the nic has
    for it; there are never more clients than flows. *)
Theorem pool_clients (base_nic_addr : Z) (w : World D) (s : sys pool D) :
  rtc pool_api (Sys (RpcClientPool_ctor base_nic_addr max) w) s ->
  Z.of_nat (length (rpc_client_pool (obj s))) = rpc_client_cnt_ (obj s) /\
  rpc_client_cnt_ (obj s) <= max /\
  forall i c n, rpc_client_pool (obj s) !! i = Some c -> nic_ (obj s) = Some n ->
    client_on (tx_flow_buffer n) (rx_flow_buffer n) (Z.of_nat i) c.
Proof.
  intros Hr. assert (exists TF RF, clients_inv TF RF (obj s)) as (TF & RF & [Hn Hc Hx _ Ht]).
  { revert s Hr. refine (rtc_ind_r _ _ _ _); [by apply empty_pool_inv|].
    intros s1 s2 _ Hs. by apply pool_api_keep. }
  split; [done|]. split; [done|]. intros i c n Hi Hni.
  destruct (Hn n Hni) as [-> ->]. by apply Ht.
Qed.
End clients.

Definition board_pool_ops : @Nic Polling.NicPollingCCIP nat (scripted polling_board) _ :=
  @polling_ops nat (scripted polling_board) 3 3.

(** The pool is initialised and gives two clients. *)
Lemma pool_clients_witness :
  exists s c, rtc (pool_api (H1 := board_pool_ops) false false false 3 3)
                (boot (RpcClientPool_ctor 0x20000 4)) s /\
    rpc_client_pool (obj s) !! 1%nat = Some c /\
    Tx.tx_q_ (tx_queue_ c) = 0x10000 + 512 /\ nic_flow_id_ c = 1.
Proof.
  assert (exists s c n, rtc (pool_api (H1 := board_pool_ops) false false false 3 3)
            (boot (RpcClientPool_ctor 0x20000 4)) s /\
            rpc_client_pool (obj s) !! 1%nat = Some c /\ nic_ (obj s) = Some n /\
            tx_flow_buffer (Nic := board_pool_ops) n 1 = 0x10000 + 512) as (s & c & n & Hr & Hc & Hn & Ht).
  { do 3 eexists. split.
    - eapply rtc_l; [eapply (pool_init _ _ _ _ _ _ _ 0 0); [done|vm_compute; reflexivity]|].
      do 2 (eapply rtc_l; [apply pool_used; exists (Pop 0); vm_compute; reflexivity|]).
      apply rtc_refl.
    - split; [reflexivity|]. split; reflexivity. }
  destruct (pool_clients (H2 := @polling_laws nat (scripted polling_board) 3 3) false false false 3 3 4
              ltac:(unfold in_width; lia) 0x20000 (mkWorld 0%nat []) s Hr) as (_ & _ & Ho).
  destruct (Ho 1%nat c n Hc Hn) as [Hf _ Htx _ _ _].
  exists s, c. split; [exact Hr|]. split; [exact Hc|]. split; [exact (eq_trans Htx Ht)|exact Hf].
Defined.

(** ** The rings of a polling pool *)
Section polling_pool.
Context {D : Type} `{Platform D, !PrepareLaw D} (ASE phy mmio : bool) (l_tx l_rx : Z).
Context (Htx : 0 <= l_tx <= 16) (Hrx : 0 <= l_rx <= 16) (Hps : 0 < get_page_size <= 2 ^ 32).
Abbreviation ppool := (sys (RpcClientPool Polling.NicPollingCCIP) D).
#[local] Instance polling_pool_ops : Nic Polling.NicPollingCCIP D := polling_nic_ops l_tx l_rx.
#[local] Instance polling_pool_laws : NicLaws Polling.NicPollingCCIP D := polling_nic_laws l_tx l_rx.

Lemma pool_init_rings indet bus base_nic_addr max w :
  0 < max <= 2 ^ 32 ->
  wlp (init_nic ASE phy indet bus)
    (fun r s => r = 0 -> exists n page,
       nic_ (obj s) = Some n /\ rings_ready l_tx l_rx max page (Polling.rings_ n) /\
       empty_pool max (obj s))
    (Sys (RpcClientPool_ctor base_nic_addr max) w : ppool).
Proof using Htx Hrx Hps PrepareLaw0.
  intros Hm. unfold init_nic. apply wlp_bind. unfold my, gets, wlp at 1. cbn [obj].
  eapply wlp_mono; [|by apply (bring_up_rings l_tx l_rx)].
  intros r s Hs H0. destruct (Hs H0) as (n & page & -> & Hr). by exists n, page.
Qed.

(** After a polling pool has been initialised, the rings of its clients are
    pairwise disjoint, have the configured size, and lie in one page, whatever the
    program does with the pool and however many clients it takes from it. *)
Theorem polling_pool_rings (indet bus base_nic_addr max : Z) (w : World D) (s0 s : ppool) :
  0 < max <= 2 ^ 32 ->
  init_nic ASE phy indet bus (Sys (RpcClientPool_ctor base_nic_addr max) w) = Ret 0 s0 ->
  rtc (pool_use mmio l_tx l_rx) s0 s ->
  exists page, page mod get_page_size = 0 /\
    forall i j c d, (i < j)%nat ->
      rpc_client_pool (obj s) !! i = Some c -> rpc_client_pool (obj s) !! j = Some d ->
      rings_apart l_tx l_rx page (Tx.tx_q_ (tx_queue_ c)) (Rx.rx_q_ (cq_rx_queue_ (cq c)))
        (Tx.tx_q_ (tx_queue_ d)) (Rx.rx_q_ (cq_rx_queue_ (cq d))).
Proof using Htx Hrx Hps PrepareLaw0.
  intros Hm E Hr.
  destruct (wlp_ret_inv _ _ _ _ _ E (pool_init_rings indet bus base_nic_addr max w Hm) eq_refl)
    as (n & page & Hn & Hrr & [Ht0 Hc0 Hmx]).
  exists page. split; [by destruct Hrr|].
  assert (clients_inv max (tx_flow_buffer n) (rx_flow_buffer n) (obj s)) as [_ Hc Hle _ Ht].
  { assert (clients_inv max (tx_flow_buffer n) (rx_flow_buffer n) (obj s0)) as H0.
    { split; rewrite ?Hn, ?Ht0, ?Hc0; try done; [|lia]. by intros n' [= ->]. }
    clear - H0 Hr Hm. induction Hr as [|s1 s2 s3 Hu _ IH]; [done|].
    apply IH. eapply pool_use_keep; [unfold in_width; lia|done..]. }
  intros i j c d Hij Hi Hj.
  destruct (Ht i c Hi) as [_ _ -> -> _ _]. destruct (Ht j d Hj) as [_ _ -> -> _ _].
  pose proof (lookup_lt_Some _ _ _ Hj). apply (rings_ready_apart _ _ _ _ _ _ _ Hrr). lia.
Qed.
End polling_pool.

Abbreviation pops := (polling_pool_ops (H := scripted polling_board) 3 3).
Abbreviation fresh_pool := (Sys (RpcClientPool_ctor 0x20000 4) (mkWorld 0%nat [])).

(** Two clients, of four that the pool can have. *)
Lemma polling_pool_rings_witness :
  exists s0 s c d,
    init_nic (H1 := pops) false false 0 0 fresh_pool = Ret 0 s0 /\
    rtc (pool_use (H1 := pops) false 3 3) s0 s /\
    rpc_client_pool (obj s) = [c; d] /\
    exists page, page mod 4096 = 0 /\
      rings_apart (H := scripted polling_board) 3 3 page
        (Tx.tx_q_ (tx_queue_ c)) (Rx.rx_q_ (cq_rx_queue_ (cq c)))
        (Tx.tx_q_ (tx_queue_ d)) (Rx.rx_q_ (cq_rx_queue_ (cq d))).
Proof.
  assert (exists s0 s c d,
    init_nic (H1 := pops) false false 0 0 fresh_pool = Ret 0 s0 /\
    rtc (pool_use (H1 := pops) false 3 3) s0 s /\ rpc_client_pool (obj s) = [c; d])
    as (s0 & s & c & d & E & Hr & Ht).
  { do 4 eexists. split; [vm_compute; reflexivity|]. split.
    - do 2 (eapply rtc_l; [exists (Pop 0); vm_compute; reflexivity|]). apply rtc_refl.
    - reflexivity. }
  exists s0, s, c, d. split; [exact E|]. split; [exact Hr|]. split; [exact Ht|].
  destruct (polling_pool_rings (H := scripted polling_board) (PrepareLaw0 := board_prepare)
              false false false 3 3
              ltac:(lia) ltac:(lia) ltac:(vm_compute; split; congruence) 0 0 0x20000 4
              (mkWorld 0%nat []) s0 s ltac:(lia) E Hr) as (page & Hp & Ha).
  exists page. split; [exact Hp|]. apply (Ha 0%nat 1%nat); [lia|by rewrite Ht..].
Defined.

(** ** Capacity *)
Section capacity.
Context {N D : Type} `{Nic N D} (mmio : bool) (l_tx l_rx : Z).

Lemma ctor_returns indet (n : N) flow id (s : sys (RpcClientPool N) D) :
  getpagesize = 4096 -> (forall len d, (io (Malloc len) d).1.2 <> 0) -> (mmio = true -> l_tx = 0) ->
  wp (RpcClient_ctor mmio l_tx l_rx indet n flow id) (fun _ s' => obj s' = obj s) s.
Proof.
  intros Hp Hmal Hmm. unfold RpcClient_ctor, CompletionQueue_ctor. rewrite Hp. apply wp_bind.
  assert (wp (if mmio then massert (l_tx =? 0) else ret tt) (fun _ s' => s' = s) s) as Ha.
  { unfold wp, massert. destruct mmio; [by rewrite Hmm|done]. }
  eapply wp_mono; [|exact Ha]. intros _ s0 ->.
  apply (wp_call_val _ _ (fun v => v <> 0)); [by intros; apply Hmal|]. intros ra s1 Hra O1.
  rewrite (proj2 (Z.eqb_neq _ _) Hra). apply wp_build; [by eexists|]. intros tx.
  apply (wp_call_val _ _ (fun v => v <> 0)); [by intros; apply Hmal|]. intros rb s2 Hrb O2.
  rewrite (proj2 (Z.eqb_neq _ _) Hrb). apply wp_assoc, wp_build; [by eexists|]. intros rx.
  apply wp_ret_bind, wp_build; [by eexists|]. intros q. apply wp_ret. by rewrite O2, O1.
Qed.

(** A pool gives out a new client as long as it has fewer than its maximum, and
    the null pointer from then on, leaving the pool as it was; the lock is free again
    in both cases. *)
Theorem pop_capacity (indet : Z) (n : N) (s : sys (RpcClientPool N) D) :
  getpagesize = 4096 -> (forall len d, (io (Malloc len) d).1.2 <> 0) ->
  (mmio = true -> l_tx = 0) ->
  mtx_ (obj s) = false -> nic_ (obj s) = Some n ->
  exists r s', pop mmio l_tx l_rx indet s = Ret r s' /\
    if rpc_client_cnt_ (obj s) <? max_pool_size_ (obj s)
    then r = Some (length (rpc_client_pool (obj s))) /\ exists c,
         obj s' = set_clients (rpc_client_pool (obj s) ++ [c]) (u64 (rpc_client_cnt_ (obj s) + 1)) (obj s)
    else r = None /\ obj s' = obj s /\ wld s' = wld s.
Proof.
  intros Hp Hmal Hmm Hmtx Hn. apply wp_ret_inv. destruct s as [p w]; cbn [obj] in *.
  assert (forall b, set_mtx false (set_mtx b p) = p) as Hfree by (intros b; destruct p; cbn in *; by subst).
  unfold pop. apply wp_bind. unfold my, gets, wp at 1. cbn [obj]. rewrite Hmtx.
  do 2 (apply wp_bind; unfold update, modify, wp at 1; cbn [obj wld]).
  apply wp_bind. cbn [rpc_client_cnt_ max_pool_size_ set_mtx].
  destruct (rpc_client_cnt_ p <? max_pool_size_ p).
  - cbn in Hn |- *. rewrite Hn. apply wp_bind. eapply wp_mono; [|by apply ctor_returns].
    intros c s1 O1. apply wp_bind. unfold wp at 1.
    cbn. split; [done|]. exists c. cbn. rewrite O1. cbn. by destruct p; cbn in *; subst.
  - cbn. by rewrite Hfree.
Qed.
End capacity.

Definition pool_of_one : RpcClientPool Polling.NicPollingCCIP :=
  set_pool_nic (Some (Polling.ctor 0 0x20000 1 true)) (RpcClientPool_ctor 0x20000 1).

(** A pool of one has no second client. *)
Lemma pop_capacity_witness :
  exists s1 s2, pop (H1 := board_pool_ops) false 3 3 0 (boot pool_of_one) = Ret (Some 0%nat) s1 /\
    pop (H1 := board_pool_ops) false 3 3 0 s1 = Ret None s2.
Proof.
  eexists. eassert (pop (H1 := board_pool_ops) false 3 3 0 (boot pool_of_one) = Ret (Some 0%nat) _) as E
    by (vm_compute; reflexivity).
  match type of E with _ = Ret _ ?s1 =>
    destruct (pop_capacity (H1 := board_pool_ops) false 3 3 0 (Polling.ctor 0 0x20000 1 true) s1)
      as (r & s2 & E2 & Hr & _)
  end; [reflexivity|discriminate|discriminate|reflexivity|reflexivity|].
  exists s2. split; [exact E|]. rewrite <- Hr. exact E2.
Defined.
