(* ===== verification/RpcStub.v ===== *)
(** * Generated stubs

    How a packet gets into a transmit ring: src/sw/codegen/dagger_write.tmpl in its version
    for the polling NIC, and the functions that rpc_gen.py puts around it, the client's
    stub and the server's callback.  The template writes the fields of the packet one after
    the other into shared memory, where the hardware may read the line at any time: a
    packet is the list of its stores.  The arguments are copied byte by byte. *)

From S2P Require Import Prelude Queues Host NicCcip CompletionQueue RpcClient Wire.

Definition store := RpcPckt -> RpcPckt.

(** ** Stores to the line of a packet *)
Definition set_hdr (f : RpcHeader -> RpcHeader) (p : RpcPckt) : RpcPckt := {| hdr := f (hdr p); argv := argv p |}.
Definition set_ctl (f : RpcHeaderCtl -> RpcHeaderCtl) : store :=
  set_hdr (fun h => {| ctl := f (ctl h); rpc_id := rpc_id h; n_of_frames := n_of_frames h; frame_id := frame_id h;
                       fn_id := fn_id h; argl := argl h; c_id := c_id h |}).
Definition put_c_id (x : Z) : store :=
  set_hdr (fun h => {| ctl := ctl h; rpc_id := rpc_id h; n_of_frames := n_of_frames h; frame_id := frame_id h;
                       fn_id := fn_id h; argl := argl h; c_id := u8 x |}).
Definition put_rpc_id (x : Z) : store :=
  set_hdr (fun h => {| ctl := ctl h; rpc_id := u32 x; n_of_frames := n_of_frames h; frame_id := frame_id h;
                       fn_id := fn_id h; argl := argl h; c_id := c_id h |}).
Definition put_n_of_frames (x : Z) : store :=
  set_hdr (fun h => {| ctl := ctl h; rpc_id := rpc_id h; n_of_frames := u8 x; frame_id := frame_id h;
                       fn_id := fn_id h; argl := argl h; c_id := c_id h |}).
Definition put_frame_id (x : Z) : store :=
  set_hdr (fun h => {| ctl := ctl h; rpc_id := rpc_id h; n_of_frames := n_of_frames h; frame_id := u8 x;
                       fn_id := fn_id h; argl := argl h; c_id := c_id h |}).
Definition put_fn_id (x : Z) : store :=
  set_hdr (fun h => {| ctl := ctl h; rpc_id := rpc_id h; n_of_frames := n_of_frames h; frame_id := frame_id h;
                       fn_id := u16 x; argl := argl h; c_id := c_id h |}).
Definition put_argl (x : Z) : store :=
  set_hdr (fun h => {| ctl := ctl h; rpc_id := rpc_id h; n_of_frames := n_of_frames h; frame_id := frame_id h;
                       fn_id := fn_id h; argl := u16 x; c_id := c_id h |}).
Definition put_req_type (x : Z) : store :=
  set_ctl (fun c => {| req_type := wrap 1 x; update_flag := update_flag c; valid := valid c |}).
Definition put_update_flag (x : Z) : store :=
  set_ctl (fun c => {| req_type := req_type c; update_flag := wrap 1 x; valid := valid c |}).
Definition put_valid (x : Z) : store :=
  set_ctl (fun c => {| req_type := req_type c; update_flag := update_flag c; valid := wrap 1 x |}).
Definition put_arg (j : nat) (b : Z) : store := fun p => {| hdr := hdr p; argv := <[j := u8 b]> (argv p) |}.

(** ** The template *)
Definition put_header (conn_id id fn argl : Z) (ty : Direction) : list store :=
  [put_c_id conn_id; put_rpc_id id; put_n_of_frames 1; put_frame_id 0; put_fn_id fn; put_argl argl; put_req_type (Direction_val ty)].

Definition put_data (data : list Z) : list store := imap put_arg data.

Definition dagger_write (conn_id id fn argl : Z) (ty : Direction) (change_bit : Z) (data : list Z) : list store :=
  put_header conn_id id fn argl ty ++ [put_update_flag change_bit] ++ put_data data ++ [put_valid 1].

Definition run_stores (l : list store) (p : RpcPckt) : RpcPckt := fold_left (fun p f => f p) l p.

(** ** Client *)
Definition set_tx_queue (q : Tx.TxQueue) (c : RpcClient) : RpcClient :=
  {| client_id_ := client_id_ c; nic_flow_id_ := nic_flow_id_ c; tx_queue_ := q; rpc_id_cnt_ := rpc_id_cnt_ c;
     c_id_ := c_id_ c; cq := cq c |}.
Definition set_rpc_id_cnt (n : Z) (c : RpcClient) : RpcClient :=
  {| client_id_ := client_id_ c; nic_flow_id_ := nic_flow_id_ c; tx_queue_ := tx_queue_ c; rpc_id_cnt_ := n;
     c_id_ := c_id_ c; cq := cq c |}.

(** The remote function number [fn] with the bytes of its arguments: the slot, and what is
    stored to it.  Arguments that do not fit the packet are written behind the slot. *)
Definition client_stub (tx_buff_end fn : Z) (args : list Z) : M RpcClient (Z * list store) :=
  let! (tx_ptr, change_bit) := zoom tx_queue_ set_tx_queue Tx.get_write_ptr in
  massert (tx_ptr <? tx_buff_end) ;;
  massert (tx_ptr mod get_mtu_size_bytes =? 0) ;;
  let! c := get in
  if argv_size <? Z.of_nat (length args) then fun _ => Fault
  else
    let id := Z.lor (client_id_ c) (u32 (Z.shiftl (rpc_id_cnt_ c) 16)) in
    modify (set_rpc_id_cnt (u16 (rpc_id_cnt_ c + 1))) ;;
    ret (tx_ptr, dagger_write (c_id_ c) id fn (Z.of_nat (length args)) rpc_request change_bit args).

(** ** Server *)

(** [functions] are those of the service, at least one, as the server registered them; a
    function fails or gives the bytes of its result.  The number of the function in the
    response is always 1. *)
Definition server_callback (functions : list (list Z -> option (list Z))) (rpc_in : RpcPckt) : M Tx.TxQueue (option (Z * list store)) :=
  match functions !! Z.to_nat (fn_id (hdr rpc_in)) with
  | None => ret None
  | Some f =>
      match f (argv rpc_in) with
      | None => ret None
      | Some data =>
          let! (tx_ptr, change_bit) := Tx.get_write_ptr in
          if argv_size <? Z.of_nat (length data) then fun _ => Fault
          else ret (Some (tx_ptr, dagger_write (c_id (hdr rpc_in)) (rpc_id (hdr rpc_in)) 1 (Z.of_nat (length data)) rpc_response change_bit data))
      end
  end.
