(* ===== verification/MicaUtil.v ===== *)
(** * MICA: utilities

    The helpers of src/sw/apps/mica/mica/util.h that the key-value store uses: rounding,
    the next power of two, the copy and comparison of 8-byte words, and the random
    number generator.

    Memory is modelled in 64-bit words: the store keeps every object at a multiple of 8
    bytes and copies whole words.  A buffer that a caller passes with a length of [n]
    bytes is the list of the words that [n] bytes touch, so that the bytes behind the
    length are part of the model. *)

From S2P Require Import Prelude Wire.

(** [MEHCACHED_ROUNDUP8] and its siblings, on [size_t]. *)
Definition roundup (unit x : Z) : Z := Z.land (u64 (x + (unit - 1))) (2 ^ 64 - unit).
Definition MEHCACHED_ROUNDUP8 (x : Z) : Z := roundup 8 x.
Definition MEHCACHED_ROUNDUP64 (x : Z) : Z := roundup 64 x.
Definition MEHCACHED_ROUNDUP4K (x : Z) : Z := roundup 4096 x.
Definition MEHCACHED_ROUNDUP1M (x : Z) : Z := roundup 1048576 x.
Definition MEHCACHED_ROUNDUP2M (x : Z) : Z := roundup 2097152 x.

(** Words in a buffer of [length] bytes. *)
Definition words_of (length : Z) : nat := Z.to_nat (Z.shiftr (MEHCACHED_ROUNDUP8 length) 3).

(** The loop of [mehcached_next_power_of_two], at shift [s]; a shift by 64 is undefined. *)
Fixpoint power_loop {S} (fuel : nat) (s v : Z) : M S Z :=
  match fuel with
  | O => fun _ => Fault
  | Datatypes.S fuel' => if Z.shiftl 1 s <? v then power_loop fuel' (s + 1) v else ret (Z.shiftl 1 s)
  end.
Definition mehcached_next_power_of_two {S} (v : Z) : M S Z := power_loop 64 0 v.

(** [mehcached_memcpy8]: [dest] after the copy. *)
Definition mehcached_memcpy8 (dest src : list Z) (length : Z) : list Z :=
  match words_of length with
  | 0%nat => dest
  | 1%nat => <[0%nat := src !!! 0%nat]> dest
  | 2%nat => <[1%nat := src !!! 1%nat]> (<[0%nat := src !!! 0%nat]> dest)
  | 3%nat => <[2%nat := src !!! 2%nat]> (<[1%nat := src !!! 1%nat]> (<[0%nat := src !!! 0%nat]> dest))
  | 4%nat => <[3%nat := src !!! 3%nat]>
           (<[2%nat := src !!! 2%nat]> (<[1%nat := src !!! 1%nat]> (<[0%nat := src !!! 0%nat]> dest)))
  | n => take n src ++ drop n dest
  end.

(** [mehcached_memcmp8]: true when equal. *)
Definition mehcached_memcmp8 (dest src : list Z) (length : Z) : bool :=
  let ne i := negb (dest !!! i =? src !!! i) in
  match words_of length with
  | 0%nat => true
  | 1%nat => if ne 0%nat then false else true
  | 2%nat => if ne 0%nat then false else if ne 1%nat then false else true
  | 3%nat => if ne 0%nat then false else if ne 1%nat then false else if ne 2%nat then false else true
  | 4%nat => if ne 0%nat then false else if ne 1%nat then false else if ne 2%nat then false
           else if ne 3%nat then false else true
  | n => bool_decide (take n dest = take n src)
  end.

(** [mehcached_rand]: the new state and the number drawn. *)
Definition mehcached_rand (state : Z) : Z * Z :=
  let s := Z.land (u64 (u64 (state * 0x5deece66d) + 0xb)) (Z.shiftl 1 48 - 1) in
  (s, u32 (Z.shiftr s (48 - 32))).

(** ** Rounding *)
Lemma roundup_eq k x :
  0 <= k <= 32 -> 0 <= x -> x + (2 ^ k - 1) < 2 ^ 64 ->
  roundup (2 ^ k) x = (x + (2 ^ k - 1)) / 2 ^ k * 2 ^ k.
Proof.
  intros Hk Hx Hb. pose proof (Z.pow_pos_nonneg 2 k). unfold roundup.
  rewrite wrap_small by (unfold in_width; lia).
  set (y := x + (2 ^ k - 1)) in *.
  apply Z.bits_inj'. intros n Hn. rewrite Z.land_spec, <- Z.shiftl_mul_pow2, Z.shiftl_spec by lia.
  rewrite <- Z.shiftr_div_pow2 by lia.
  replace (2 ^ 64 - 2 ^ k) with (Z.shiftl (Z.ones (64 - k)) k)
    by (rewrite Z.shiftl_mul_pow2, Z.ones_equiv by lia;
        replace (2 ^ 64) with (2 ^ (64 - k) * 2 ^ k) by (rewrite <- Z.pow_add_r by lia; f_equal; lia); lia).
  rewrite Z.shiftl_spec by lia. destruct (Z.ltb_spec n k) as [Hnk|Hnk].
  - rewrite !(Z.testbit_neg_r _ (n - k)) by lia. by rewrite andb_false_r.
  - rewrite Z.shiftr_spec by lia. replace (n - k + k) with n by lia.
    destruct (Z.ltb_spec n 64) as [H64|H64].
    + rewrite Z.ones_spec_low by lia. by rewrite andb_true_r.
    + replace (Z.testbit y n) with false; [done|]. symmetry.
      destruct (Z.eq_dec y 0) as [->|Hy]; [by rewrite Z.bits_0|].
      apply Z.bits_above_log2; [lia|]. apply Z.log2_lt_pow2; [lia|].
      eapply Z.lt_le_trans; [exact Hb|]. apply Z.pow_le_mono_r; lia.
Qed.

Lemma roundup8_eq x : 0 <= x -> x + 7 < 2 ^ 64 -> MEHCACHED_ROUNDUP8 x = (x + 7) / 8 * 8.
Proof. intros. apply (roundup_eq 3); lia. Qed.

Lemma words_of_eq x : 0 <= x -> x + 7 < 2 ^ 64 -> Z.of_nat (words_of x) = (x + 7) / 8.
Proof.
  intros Hx Hb. unfold words_of. rewrite roundup8_eq, Z.shiftr_div_pow2 by lia.
  change (2 ^ 3) with 8. rewrite Z.div_mul by lia. rewrite Z2Nat.id; [done|]. apply Z.div_pos; lia.
Qed.

(** ** The next power of two *)
Lemma power_loop_spec {S} (fuel : nat) (k v : Z) (s : S) :
  0 <= k -> v <= 2 ^ (k + Z.of_nat fuel - 1) -> (0 < fuel)%nat -> (k = 0 \/ 2 ^ (k - 1) < v) ->
  exists j, k <= j /\ power_loop fuel k v s = Ret (2 ^ j) s /\ v <= 2 ^ j /\ (j = 0 \/ 2 ^ (j - 1) < v).
Proof.
  revert k. induction fuel as [|fuel IH]; intros k Hk Hv Hf Hlow; [lia|]. cbn [power_loop].
  rewrite Z.shiftl_1_l. destruct (Z.ltb_spec (2 ^ k) v) as [Hlt|Hge].
  - destruct (decide (fuel = 0%nat)) as [->|Hn0].
    { replace (k + Z.of_nat 1 - 1) with k in Hv by lia. lia. }
    destruct (IH (k + 1)) as (j & Hj & Hr); [lia| |lia|right; by replace (k + 1 - 1) with k by lia|].
    { replace (k + 1 + Z.of_nat fuel - 1) with (k + Z.of_nat (Datatypes.S fuel) - 1) by lia. done. }
    exists j. split; [lia|done].
  - exists k. by split.
Qed.

(** [mehcached_next_power_of_two] gives the least power of two that is not below
    its argument, for every argument that has one in 64 bits. *)
Theorem next_power_of_two_least {S} (v : Z) (s : S) :
  0 <= v <= 2 ^ 63 ->
  exists j, 0 <= j <= 63 /\ mehcached_next_power_of_two v s = Ret (2 ^ j) s /\ v <= 2 ^ j /\
    forall i, 0 <= i -> v <= 2 ^ i -> j <= i.
Proof.
  intros Hv. destruct (power_loop_spec 64 0 v s) as (j & Hj & E & Hup & Hlow); [lia..| |lia|by left|].
  { change (0 + Z.of_nat 64 - 1) with 63. lia. }
  assert (forall i, 0 <= i -> v <= 2 ^ i -> j <= i) as Hmin.
  { intros i Hi Hvi. destruct Hlow as [->|Hlow]; [lia|].
    assert (2 ^ (j - 1) < 2 ^ i) as Hp by lia. apply Z.pow_lt_mono_r_iff in Hp; lia. }
  exists j. split; [|done]. split; [lia|]. apply Hmin; lia.
Qed.

Lemma next_power_of_two_least_witness :
  exists j, mehcached_next_power_of_two 2097153 tt = Ret (2 ^ j) tt /\ 2097153 <= 2 ^ j.
Proof.
  destruct (next_power_of_two_least 2097153 tt ltac:(lia)) as (j & _ & E & Hv & _).
  exists j. split; [exact E|exact Hv].
Defined.

(** ** Word-wise copy and comparison *)
Definition memcpy_ref (dest src : list Z) (n : nat) : list Z := take n src ++ drop n dest.

Lemma word_ops (dest src : list Z) (len : Z) :
  (words_of len <= length dest)%nat -> (words_of len <= length src)%nat ->
  mehcached_memcpy8 dest src len = memcpy_ref dest src (words_of len) /\
  mehcached_memcmp8 dest src len = bool_decide (take (words_of len) dest = take (words_of len) src).
Proof.
  intros Hd Hs. unfold mehcached_memcpy8, mehcached_memcmp8, memcpy_ref.
  assert (forall (x y : Z) (l k : list Z) (b : bool),
    b = bool_decide (l = k) ->
    (if negb (x =? y) then false else b) = bool_decide (x :: l = y :: k)) as Hc.
  { intros x y l k b ->. destruct (Z.eqb_spec x y) as [->|Hn]; cbn.
    - apply bool_decide_ext. split; [by intros ->|by intros [= ->]].
    - symmetry. apply bool_decide_eq_false. by intros [= ? ?]. }
  destruct (words_of len) as [|[|[|[|[|n]]]]]; (split; [|]);
    try (by rewrite ?take_0; rewrite ?bool_decide_eq_true_2); try done;
    repeat (destruct dest as [|? dest]; cbn in Hd; [lia|]);
    repeat (destruct src as [|? src]; cbn in Hs; [lia|]); cbn; rewrite ?take_0, ?drop_0; try done;
    repeat (apply Hc); by rewrite bool_decide_eq_true_2.
Qed.

(** The unrolled copies and comparisons do what [memcpy] and [memcmp] do on the
    rounded-up length, for every length. *)
Theorem word_ops_reference (dest src : list Z) (len : Z) :
  (words_of len <= length dest)%nat -> (words_of len <= length src)%nat ->
  mehcached_memcpy8 dest src len = memcpy_ref dest src (words_of len) /\
  mehcached_memcmp8 dest src len = bool_decide (take (words_of len) dest = take (words_of len) src).
Proof. apply word_ops. Qed.

Lemma word_ops_reference_witness :
  mehcached_memcmp8 [1; 2; 3; 4; 5] [1; 2; 3; 4; 6] 33 = false.
Proof.
  destruct (word_ops_reference [1; 2; 3; 4; 5] [1; 2; 3; 4; 6] 33) as [_ ->];
    [vm_compute; lia|vm_compute; lia|reflexivity].
Defined.

(** ** Bytes and words *)
Fixpoint to_words (n : nat) (bs : list Z) : list Z :=
  match n with
  | O => []
  | Datatypes.S n' => le_val (take 8 bs) :: to_words n' (drop 8 bs)
  end.

Definition bytes (bs : list Z) : Prop := Forall (in_width 8) bs.

Lemma length_to_words n bs : length (to_words n bs) = n.
Proof. revert bs. induction n as [|n IH]; intros bs; cbn; [done|by rewrite IH]. Qed.

Lemma le_val_inj b1 b2 :
  bytes b1 -> bytes b2 -> length b1 = length b2 -> le_val b1 = le_val b2 -> b1 = b2.
Proof.
  intros H1 H2 Hl E. rewrite <- (le_bytes_val b1 H1), <- (le_bytes_val b2 H2). by rewrite E, Hl.
Qed.

Lemma to_words_inj n b1 b2 :
  bytes b1 -> bytes b2 -> length b1 = (8 * n)%nat -> length b2 = (8 * n)%nat ->
  to_words n b1 = to_words n b2 -> b1 = b2.
Proof.
  revert b1 b2. induction n as [|n IH]; intros b1 b2 H1 H2 L1 L2 E.
  { apply nil_length_inv in L1, L2. congruence. }
  cbn in E. injection E as Ew Er.
  rewrite <- (take_drop 8 b1), <- (take_drop 8 b2). f_equal.
  - apply le_val_inj; [by apply Forall_take..| |done]. rewrite !length_take. lia.
  - apply IH; [by apply Forall_drop..| | |done]; rewrite length_drop; lia.
Qed.

(** A comparison looks at the bytes behind the key: two buffers compare equal
    exactly when all their bytes are, up to the next multiple of 8, so that buffers
    that hold the same key but differ in a byte behind it compare different. *)
Theorem memcmp8_padding (b1 b2 : list Z) (len : Z) :
  bytes b1 -> bytes b2 ->
  length b1 = (8 * words_of len)%nat -> length b2 = (8 * words_of len)%nat ->
  mehcached_memcmp8 (to_words (words_of len) b1) (to_words (words_of len) b2) len = true <->
  b1 = b2.
Proof.
  intros H1 H2 L1 L2.
  destruct (word_ops (to_words (words_of len) b1) (to_words (words_of len) b2) len) as [_ ->];
    [by rewrite length_to_words..|].
  rewrite !take_ge by (by rewrite length_to_words). rewrite bool_decide_eq_true.
  split; [by apply to_words_inj|by intros ->].
Qed.

(** The key "ab" with two different bytes behind it. *)
Lemma memcmp8_padding_witness :
  mehcached_memcmp8 (to_words 1 [97; 98; 0; 0; 0; 0; 0; 0]) (to_words 1 [97; 98; 0; 7; 0; 0; 0; 0]) 2
    <> true.
Proof.
  intros E.
  apply (memcmp8_padding [97; 98; 0; 0; 0; 0; 0; 0] [97; 98; 0; 7; 0; 0; 0; 0] 2) in E;
    [discriminate| | |reflexivity|reflexivity];
    repeat (constructor; [unfold in_width; lia|]); constructor.
Defined.
