(* ===== verification/MicaPool.v ===== *)
(** * MICA: the log-structured pool

    The allocator of src/sw/apps/mica/mica/alloc_pool.h and alloc_pool.c: a circular log
    with 64-bit [head] and [tail]; an allocation appends at the tail and drops items at
    the head until there is room.  The build is the one of config.h: no
    MEHCACHED_CONCURRENT (locking is empty), MEHCACHED_ALLOC_POOL, and
    MEHCACHED_SINGLE_ALLOC (48-bit item offsets).

    The pool's memory is a map from word numbers to 64-bit words.  The source maps the
    first MEHCACHED_MINIMUM_POOL_SIZE bytes again behind the pool, so that an item that
    crosses the end goes on at the start: word numbers are taken modulo the pool. *)

From S2P Require Import Prelude Wire MicaUtil.

Definition MEHCACHED_ITEM_OFFSET_MASK : Z := Z.shiftl 1 48 - 1.
Definition MEHCACHED_MINIMUM_POOL_SIZE : Z := 2097152.

Record mehcached_pool := {
  concurrent_access_mode : Z;
  pool_lock : Z;
  pool_data : gmap Z Z;
  pool_size : Z;
  pool_mask : Z;
  pool_head : Z;
  pool_tail : Z
}.

Definition set_pool_data (d : gmap Z Z) (p : mehcached_pool) : mehcached_pool :=
  {| concurrent_access_mode := concurrent_access_mode p; pool_lock := pool_lock p; pool_data := d;
     pool_size := pool_size p; pool_mask := pool_mask p; pool_head := pool_head p;
     pool_tail := pool_tail p |}.
Definition set_pool_ends (h t : Z) (p : mehcached_pool) : mehcached_pool :=
  {| concurrent_access_mode := concurrent_access_mode p; pool_lock := pool_lock p;
     pool_data := pool_data p; pool_size := pool_size p; pool_mask := pool_mask p;
     pool_head := h; pool_tail := t |}.

(** ** Memory *)

(** [mehcached_pool_item]: the number of word [i] of the item at [pool_offset]. *)
Definition mehcached_pool_item (p : mehcached_pool) (pool_offset i : Z) : Z :=
  (Z.shiftr (Z.land pool_offset (pool_mask p)) 3 + i) mod (pool_size p / 8).

Definition load_word (p : mehcached_pool) (off i : Z) : Z :=
  default 0 (pool_data p !! mehcached_pool_item p off i).
Definition store_word (off i v : Z) (p : mehcached_pool) : mehcached_pool :=
  set_pool_data (<[mehcached_pool_item p off i := v]> (pool_data p)) p.

Fixpoint load_words (p : mehcached_pool) (off i : Z) (n : nat) : list Z :=
  match n with
  | O => []
  | Datatypes.S n' => load_word p off i :: load_words p off (i + 1) n'
  end.
Fixpoint store_words (off i : Z) (ws : list Z) (p : mehcached_pool) : mehcached_pool :=
  match ws with
  | [] => p
  | w :: ws' => store_words off (i + 1) ws' (store_word off i w p)
  end.

(** ** Operations *)

(** [mapped]: the shared memory could be reserved and mapped; [d] is what it holds. *)
Definition mehcached_shm_adjust_size (size : Z) : Z := MEHCACHED_ROUNDUP2M size.

Definition mehcached_pool_init {S} (mapped : bool) (d : gmap Z Z) (size : Z)
    (concurrent_alloc_read concurrent_alloc_write : bool) : M S mehcached_pool :=
  let size := if size <? MEHCACHED_MINIMUM_POOL_SIZE then MEHCACHED_MINIMUM_POOL_SIZE else size in
  let size := mehcached_shm_adjust_size size in
  let! size := mehcached_next_power_of_two size in
  massert (size <=? Z.shiftr MEHCACHED_ITEM_OFFSET_MASK 1) ;;
  massert (size =? mehcached_shm_adjust_size size) ;;
  massert mapped ;;
  ret {| concurrent_access_mode :=
           if negb concurrent_alloc_read then 0 else if negb concurrent_alloc_write then 1 else 2;
         pool_lock := 0; pool_data := d; pool_size := size; pool_mask := u64 (size - 1);
         pool_head := 0; pool_tail := 0 |}.

Definition mehcached_pool_reset : M mehcached_pool unit := modify (set_pool_ends 0 0).

Definition mehcached_pool_lock : M mehcached_pool unit := ret tt.
Definition mehcached_pool_unlock : M mehcached_pool unit := ret tt.

Definition mehcached_pool_check_invariants : M mehcached_pool unit :=
  let! p := get in
  massert (u64 (pool_tail p - pool_head p) <=? pool_size p).

Definition mehcached_pool_pop_head : M mehcached_pool unit :=
  let! p := get in
  modify (set_pool_ends (u64 (pool_head p + load_word p (pool_head p) 0)) (pool_tail p)) ;;
  mehcached_pool_check_invariants.

(** [while (v > head + size) pop_head()]; every item takes a word at least. *)
Fixpoint make_room (fuel : nat) (v : Z) : M mehcached_pool unit :=
  match fuel with
  | O => fun _ => Block
  | Datatypes.S fuel' =>
      let! p := get in
      if u64 (pool_head p + pool_size p) <? v then mehcached_pool_pop_head ;; make_room fuel' v
      else ret tt
  end.

Definition mehcached_pool_push_tail (item_size : Z) : M mehcached_pool Z :=
  massert (item_size =? MEHCACHED_ROUNDUP8 item_size) ;;
  let! p := get in
  massert (item_size <=? pool_size p) ;;
  let item_offset := pool_tail p in
  let v := u64 (item_offset + item_size) in
  make_room (Datatypes.S (Z.to_nat (pool_size p / 8))) v ;;
  modify (store_word item_offset 0 item_size) ;;
  modify (fun p => set_pool_ends (pool_head p) (u64 (pool_tail p + item_size)) p) ;;
  mehcached_pool_check_invariants ;;
  ret (Z.land item_offset MEHCACHED_ITEM_OFFSET_MASK).

Definition mehcached_pool_allocate (item_size : Z) : M mehcached_pool Z :=
  mehcached_pool_push_tail item_size.

Definition mehcached_pool_is_valid (p : mehcached_pool) (pool_offset : Z) : bool :=
  Z.land (u64 (pool_tail p - pool_offset)) MEHCACHED_ITEM_OFFSET_MASK <=? pool_size p.

(** ** The log *)

(** Word [a] of the endless log that the pool is a window of. *)
Definition log_word (p : mehcached_pool) (a : Z) : Z :=
  default 0 (pool_data p !! (a mod (pool_size p / 8))).

(** Items of sizes [l] lie back to back from offset [o] to [e]. *)
Fixpoint log_from (p : mehcached_pool) (o : Z) (l : list Z) (e : Z) : Prop :=
  match l with
  | [] => o = e
  | s :: l' => 8 <= s /\ s mod 8 = 0 /\ log_word p (o / 8) = s /\ log_from p (o + s) l' e
  end.

Definition total (l : list Z) : Z := foldr Z.add 0 l.

(** The item of size [s] at offset [o] is one of the items [l] that start at [h]. *)
Definition logged (h : Z) (l : list Z) (o s : Z) : Prop :=
  exists l1 l2, l = l1 ++ s :: l2 /\ o = h + total l1.

Record pool_inv (K : Z) (p : mehcached_pool) (l : list Z) : Prop := {
  pi_K : 3 <= K <= 46;
  pi_size : pool_size p = 2 ^ K;
  pi_mask : pool_mask p = 2 ^ K - 1;
  pi_head : 0 <= pool_head p /\ pool_head p mod 8 = 0;
  pi_tail : pool_head p <= pool_tail p < 2 ^ 63 /\ pool_tail p mod 8 = 0;
  pi_room : pool_tail p - pool_head p <= 2 ^ K;
  pi_log : log_from p (pool_head p) l (pool_tail p)
}.

Section pool.
Context (K : Z).
Implicit Types (p : mehcached_pool) (l : list Z).

Lemma total_app l1 l2 : total (l1 ++ l2) = total l1 + total l2.
Proof. induction l1 as [|x l1 IH]; cbn; [done|]. unfold total in *. lia. Qed.

Lemma words_of_pool p l : pool_inv K p l -> pool_size p / 8 = 2 ^ (K - 3).
Proof.
  intros [HK -> _ _ _ _ _]. replace (2 ^ K) with (2 ^ (K - 3) * 2 ^ 3)
    by (rewrite <- Z.pow_add_r by lia; f_equal; lia).
  apply Z.div_mul. lia.
Qed.

(** An item's words are consecutive words of the log. *)
Lemma item_word p o i :
  3 <= K -> pool_mask p = 2 ^ K - 1 -> pool_size p = 2 ^ K -> o mod 8 = 0 ->
  mehcached_pool_item p o i = (o / 8 + i) mod (pool_size p / 8).
Proof.
  intros HK Hm Hs Ho. unfold mehcached_pool_item. rewrite Hm, Hs, land_mask by lia. unfold wrap.
  rewrite Z.shiftr_div_pow2 by lia. change (2 ^ 3) with 8.
  assert (2 ^ K = 8 * 2 ^ (K - 3)) as ->
    by (change 8 with (2 ^ 3); rewrite <- Z.pow_add_r by lia; f_equal; lia).
  pose proof (Z.pow_pos_nonneg 2 (K - 3)). set (W := 2 ^ (K - 3)) in *.
  assert (8 * W / 8 = W) as -> by (rewrite Z.mul_comm; apply Z.div_mul; lia).
  assert (o mod (8 * W) / 8 = (o / 8) mod W) as ->.
  { rewrite Z.rem_mul_r, Ho, Z.add_0_l by lia. rewrite Z.mul_comm. apply Z.div_mul. lia. }
  apply Zplus_mod_idemp_l.
Qed.

Lemma item_masked p o i :
  3 <= K <= 48 -> pool_mask p = 2 ^ K - 1 ->
  mehcached_pool_item p (Z.land o MEHCACHED_ITEM_OFFSET_MASK) i = mehcached_pool_item p o i.
Proof.
  intros HK Hm. unfold mehcached_pool_item, MEHCACHED_ITEM_OFFSET_MASK. rewrite Hm.
  change (Z.shiftl 1 48 - 1) with (2 ^ 48 - 1). rewrite !land_mask by lia.
  by rewrite wrap_wrap by lia.
Qed.

Lemma load_log p o i :
  3 <= K -> pool_mask p = 2 ^ K - 1 -> pool_size p = 2 ^ K -> o mod 8 = 0 ->
  load_word p o i = log_word p (o / 8 + i).
Proof. intros. unfold load_word, log_word. by rewrite item_word. Qed.

Lemma log_store p o i v a :
  3 <= K -> pool_mask p = 2 ^ K - 1 -> pool_size p = 2 ^ K -> o mod 8 = 0 ->
  log_word (store_word o i v p) a =
    if a mod 2 ^ (K - 3) =? (o / 8 + i) mod 2 ^ (K - 3) then v else log_word p a.
Proof.
  intros HK Hm Hs Ho. unfold log_word, store_word. cbn [set_pool_data pool_data pool_size].
  rewrite item_word by done. rewrite Hs.
  replace (2 ^ K) with (2 ^ (K - 3) * 2 ^ 3) by (rewrite <- Z.pow_add_r by lia; f_equal; lia).
  change (2 ^ 3) with 8. rewrite Z.div_mul by lia.
  destruct (Z.eqb_spec (a mod 2 ^ (K - 3)) ((o / 8 + i) mod 2 ^ (K - 3))) as [->|Hn].
  - by rewrite lookup_insert_eq.
  - by rewrite lookup_insert_ne.
Qed.

(** Words of the log closer than the pool is long are different words of the pool. *)
Lemma window_inj a b W : 0 < W -> Z.abs (a - b) < W -> a mod W = b mod W -> a = b.
Proof.
  intros HW Hab E. assert ((a - b) mod W = 0) as H0 by (rewrite Zminus_mod, E, Z.sub_diag; done).
  apply Z.mod_divide in H0 as [k Hk]; [|lia]. assert (k = 0) by nia. lia.
Qed.

Lemma log_from_total p o l e : log_from p o l e -> e = o + total l /\ 8 * Z.of_nat (length l) <= total l.
Proof.
  revert o. induction l as [|s l IH]; intros o; cbn [log_from total foldr length].
  { intros ->. unfold total. cbn. lia. }
  intros (H8 & _ & _ & Hl). destruct (IH _ Hl). unfold total in *. lia.
Qed.

Lemma log_from_app p o l1 l2 e :
  log_from p o (l1 ++ l2) e <-> log_from p o l1 (o + total l1) /\ log_from p (o + total l1) l2 e.
Proof.
  revert o. induction l1 as [|s l1 IH]; intros o; cbn [log_from app].
  { unfold total. cbn. rewrite Z.add_0_r. tauto. }
  rewrite IH. unfold total. cbn. rewrite Z.add_assoc. tauto.
Qed.

(** Only the words of the headers matter. *)
Lemma log_from_ext p p' o l e :
  (forall a s, logged o l a s -> log_word p' (a / 8) = log_word p (a / 8)) ->
  log_from p o l e -> log_from p' o l e.
Proof.
  revert o. induction l as [|s l IH]; intros o Hw; cbn [log_from]; [done|].
  intros (H8 & Hm & Hs & Hl). split; [done|]. split; [done|]. split.
  - rewrite (Hw o s); [done|]. exists [], l. split; [done|]. unfold total. cbn. lia.
  - apply IH; [|done]. intros a s' (l1 & l2 & -> & ->). apply (Hw _ s').
    exists (s :: l1), l2. split; [done|]. unfold total. cbn. lia.
Qed.

Lemma logged_bounds p l o s :
  log_from p (pool_head p) l (pool_tail p) -> logged (pool_head p) l o s ->
  pool_head p <= o /\ o + s <= pool_tail p /\ 8 <= s /\ s mod 8 = 0 /\ log_word p (o / 8) = s.
Proof.
  intros Hl (l1 & l2 & -> & ->). apply log_from_app in Hl as [H1 (H8 & Hm & Hs & H2)].
  apply log_from_total in H1 as [_ H1]. apply log_from_total in H2 as [E2 H2].
  unfold total in *. split; [lia|]. split; [lia|]. done.
Qed.

Lemma logged_aligned p l o s :
  pool_head p mod 8 = 0 -> log_from p (pool_head p) l (pool_tail p) ->
  logged (pool_head p) l o s -> o mod 8 = 0.
Proof.
  intros H0 Hl (l1 & l2 & -> & ->). apply log_from_app in Hl as [H1 _].
  revert H1. generalize (pool_head p + total l1) at 1 as e. revert H0. generalize (pool_head p) as h.
  induction l1 as [|s1 l1 IH]; intros h H0 e; cbn [log_from].
  { intros _. unfold total. cbn. by rewrite Z.add_0_r. }
  intros (_ & Hm & _ & Hl). unfold total in *. cbn. rewrite Z.add_assoc. apply (IH _ ltac:(by rewrite Zplus_mod, H0, Hm) e Hl).
Qed.

(** Two items of the log are the same or do not overlap. *)
Lemma logged_apart p l o s o' s' :
  log_from p (pool_head p) l (pool_tail p) ->
  logged (pool_head p) l o s -> logged (pool_head p) l o' s' ->
  (o = o' /\ s = s') \/ o + s <= o' \/ o' + s' <= o.
Proof.
  generalize (pool_head p) as h. intros h Hl (l1 & l2 & -> & ->) (k1 & k2 & E' & ->).
  revert h Hl k1 E'. induction l1 as [|x l1 IH]; intros h Hl [|y k1] E'; cbn in E'.
  - injection E' as -> ->. by left.
  - injection E' as <- ->. apply (log_from_app _ _ (s :: k1)) in Hl as [Hk _].
    destruct Hk as (_ & _ & _ & Hk). apply log_from_total in Hk. unfold total in *. cbn in *. lia.
  - injection E' as -> E'. apply (log_from_app _ _ (s' :: l1)) in Hl as [Hk _].
    destruct Hk as (_ & _ & _ & Hk). apply log_from_total in Hk. unfold total in *. cbn in *. lia.
  - injection E' as <- E'. destruct Hl as (_ & _ & _ & Hl).
    destruct (IH (h + x) Hl k1 E'); unfold total in *; cbn in *; lia.
Qed.

Lemma log_word_ends p h e a : log_word (set_pool_ends h e p) a = log_word p a.
Proof. done. Qed.

Lemma log_from_ends p h e o l e' : log_from (set_pool_ends h e p) o l e' <-> log_from p o l e'.
Proof. split; apply log_from_ext; done. Qed.

Lemma pool_inv_pop p s l :
  pool_inv K p (s :: l) ->
  pool_inv K (set_pool_ends (pool_head p + s) (pool_tail p) p) l /\
  u64 (pool_head p + load_word p (pool_head p) 0) = pool_head p + s.
Proof.
  intros [HK Hs Hm [Hh0 Hh8] [Ht Ht8] Hr (H8 & Hs8 & Hw & Hl)].
  destruct (log_from_total _ _ _ _ Hl) as [E Hn].
  assert (2 ^ K <= 2 ^ 46) by (apply Z.pow_le_mono_r; lia).
  rewrite load_log, Z.add_0_r, Hw by (done || lia). split; [|apply wrap_small; unfold in_width; lia].
  split; cbn; try done; try lia.
  - split; [lia|]. by rewrite Zplus_mod, Hh8, Hs8.
  - by apply log_from_ends.
Qed.

Lemma make_room_spec fuel v p l :
  pool_inv K p l -> (length l < fuel)%nat -> pool_tail p <= v <= pool_tail p + 2 ^ K ->
  wp (make_room fuel v)
    (fun _ p' => exists l1 l2, l = l1 ++ l2 /\
       p' = set_pool_ends (pool_head p + total l1) (pool_tail p) p /\
       v <= pool_head p' + 2 ^ K /\ pool_inv K p' l2 /\
       forall o s, logged (pool_head p) l1 o s -> 2 ^ K < v - o) p.
Proof.
  revert p l. induction fuel as [|fuel IH]; intros p l I Hf Hv; [lia|]. cbn [make_room].
  pose proof I as [HK Hs Hm Hh Ht Hr Hl].
  assert (2 ^ K <= 2 ^ 46) by (apply Z.pow_le_mono_r; lia).
  apply wp_bind. unfold get, wp at 1. rewrite Hs, wrap_small by (unfold in_width; lia).
  destruct (Z.ltb_spec (pool_head p + 2 ^ K) v) as [Hlt|Hge].
  - destruct l as [|s l]; [cbn in Hl; lia|]. destruct (pool_inv_pop p s l I) as [I' Eh].
    apply wp_bind. unfold mehcached_pool_pop_head. apply wp_bind. unfold get, wp at 1.
    apply wp_bind. unfold modify, wp at 1. rewrite Eh.
    set (p1 := set_pool_ends (pool_head p + s) (pool_tail p) p) in *.
    unfold mehcached_pool_check_invariants. apply wp_bind. unfold get, wp at 1, massert.
    pose proof I' as [_ Hs1 _ Hh1 Ht1 Hr1 _]. unfold wp at 1.
    rewrite wrap_small, Hs1, (proj2 (Z.leb_le _ _)) by (unfold in_width; lia).
    eapply wp_mono; [|apply (IH p1 l); [done|cbn in Hf; lia|done]].
    intros _ p' (l1 & l2 & -> & -> & Hfit & Hinv & Hout). exists (s :: l1), l2.
    split; [done|]. split; [unfold p1, total; cbn; by rewrite Z.add_assoc|]. split; [done|].
    split; [done|]. intros o s' ([|x k1] & k2 & E & ->).
    + unfold total. cbn. lia.
    + injection E as <- ->. unfold total in *. cbn. rewrite Z.add_assoc.
      apply (Hout _ s'). exists k1, k2. done.
  - apply wp_ret. exists [], l. unfold total. cbn. rewrite Z.add_0_r.
    assert (set_pool_ends (pool_head p) (pool_tail p) p = p) as -> by (by destruct p).
    split; [done|]. split; [done|]. split; [done|]. split; [done|].
    intros o s (l1 & l2 & E & _). by destruct l1.
Qed.

(** A store to word [b] of the log leaves the other words of a window around it. *)
Lemma log_store_other p o i v a :
  3 <= K -> pool_mask p = 2 ^ K - 1 -> pool_size p = 2 ^ K -> o mod 8 = 0 ->
  Z.abs (a - (o / 8 + i)) < 2 ^ (K - 3) -> a <> o / 8 + i ->
  log_word (store_word o i v p) a = log_word p a.
Proof.
  intros HK Hm Hs Ho Hab Hne. rewrite log_store by done.
  destruct (Z.eqb_spec (a mod 2 ^ (K - 3)) ((o / 8 + i) mod 2 ^ (K - 3))) as [E|]; [|done].
  destruct Hne. apply (window_inj _ _ (2 ^ (K - 3))); [apply Z.pow_pos_nonneg; lia|done..].
Qed.

Lemma pow_words : 3 <= K -> 2 ^ K = 8 * 2 ^ (K - 3).
Proof. intros. change 8 with (2 ^ 3). rewrite <- Z.pow_add_r by lia. f_equal. lia. Qed.

Lemma pool_inv_append p l s :
  pool_inv K p l -> 8 <= s -> s mod 8 = 0 -> pool_tail p + s < 2 ^ 63 ->
  pool_tail p + s <= pool_head p + 2 ^ K ->
  let p' := set_pool_ends (pool_head p) (pool_tail p + s) (store_word (pool_tail p) 0 s p) in
  pool_inv K p' (l ++ [s]) /\
  forall a, Z.abs (a - pool_tail p / 8) < 2 ^ (K - 3) -> a <> pool_tail p / 8 ->
    log_word p' a = log_word p a.
Proof.
  intros [HK Hs Hm Hh Ht Hr Hl] H8 Hs8 Hb Hfit p'. pose proof (pow_words ltac:(lia)) as EK.
  assert (forall a, Z.abs (a - pool_tail p / 8) < 2 ^ (K - 3) -> a <> pool_tail p / 8 ->
            log_word p' a = log_word p a) as Hw.
  { intros a Ha Hn. unfold p'. rewrite log_word_ends.
    apply log_store_other; rewrite ?Z.add_0_r; try done; lia. }
  split; [|done]. split; cbn; try done; try lia.
  - split; [lia|]. destruct Ht as [_ Ht]. by rewrite Zplus_mod, Ht, Hs8.
  - destruct (log_from_total _ _ _ _ Hl) as [E _].
    apply log_from_app. rewrite <- E. split.
    + apply (log_from_ext p); [|done]. intros o so Ho.
      pose proof (logged_bounds _ _ _ _ Hl Ho). pose proof (logged_aligned _ _ _ _ (proj2 Hh) Hl Ho).
      apply Hw; div_lia.
    + cbn. split; [lia|]. split; [done|]. split; [|done].
      unfold p'. rewrite log_word_ends, log_store by (done || lia).
      by rewrite Z.add_0_r, Z.eqb_refl.
Qed.

Lemma push_tail_spec p l s :
  pool_inv K p l -> 8 <= s <= 2 ^ K -> s mod 8 = 0 -> pool_tail p + s < 2 ^ 63 ->
  wp (mehcached_pool_push_tail s)
    (fun off p' => off = pool_tail p mod 2 ^ 48 /\ exists l1 l2, l = l1 ++ l2 /\
       pool_inv K p' (l2 ++ [s]) /\ pool_head p' = pool_head p + total l1 /\
       pool_tail p' = pool_tail p + s /\
       (forall o so, logged (pool_head p) l1 o so -> 2 ^ K < pool_tail p' - o) /\
       (forall a, Z.abs (a - pool_tail p / 8) < 2 ^ (K - 3) -> a <> pool_tail p / 8 ->
          log_word p' a = log_word p a)) p.
Proof.
  intros I Hs Hs8 Hb. pose proof I as [HK Hsz Hm Hh Ht Hr Hl].
  assert (2 ^ K <= 2 ^ 46) by (apply Z.pow_le_mono_r; lia).
  unfold mehcached_pool_push_tail. apply wp_bind. unfold massert at 1, wp at 1.
  assert (s = MEHCACHED_ROUNDUP8 s) as Er by (rewrite roundup8_eq by lia; div_lia).
  rewrite <- Er, Z.eqb_refl. apply wp_bind. unfold get, wp at 1. apply wp_bind.
  unfold massert at 1, wp at 1. rewrite Hsz, (proj2 (Z.leb_le _ _)) by lia.
  rewrite wrap_small by (unfold in_width; lia). apply wp_bind.
  eapply wp_mono; [|apply (make_room_spec _ _ p l I)].
  - intros _ p1 (l1 & l2 & -> & -> & Hfit & I2 & Hout).
    set (p1 := set_pool_ends _ _ p) in *.
    destruct (pool_inv_append p1 l2 s I2) as [I3 Hw]; [lia|done|done|exact Hfit|].
    apply wp_bind. unfold modify at 1, wp at 1. apply wp_bind. unfold modify, wp at 1.
    cbn [store_word set_pool_data pool_head pool_tail]. rewrite wrap_small by (unfold in_width; cbn; lia).
    unfold mehcached_pool_check_invariants. apply wp_bind, wp_bind. unfold get, massert, wp at 1.
    pose proof I3 as [_ Hs3 _ Hh3 Ht3 Hr3 _]. unfold wp at 1.
    change (set_pool_ends (pool_head p1) (pool_tail p1 + s) (store_word (pool_tail p) 0 s p1)) with
      (set_pool_ends (pool_head p1) (pool_tail p1 + s) (store_word (pool_tail p1) 0 s p1)).
    set (p3 := set_pool_ends _ _ _) in *.
    rewrite wrap_small, Hs3, (proj2 (Z.leb_le _ _)) by (unfold in_width; lia).
    apply wp_ret. split.
    { unfold MEHCACHED_ITEM_OFFSET_MASK. change (Z.shiftl 1 48 - 1) with (2 ^ 48 - 1).
      by rewrite land_mask by lia. }
    exists l1, l2. repeat split; try done; apply I3.
  - destruct (log_from_total _ _ _ _ Hl) as [E Hn]. rewrite pow_words by lia.
    rewrite (Z.mul_comm 8), Z.div_mul by lia. pose proof (pow_words ltac:(lia)). lia.
  - lia.
Qed.

Lemma logged_app h l1 l2 o s :
  logged h (l1 ++ l2) o s <-> logged h l1 o s \/ logged (h + total l1) l2 o s.
Proof.
  split.
  - intros (k1 & k2 & E & ->). apply app_eq_app in E as [k [[-> E]|[-> E]]].
    + destruct k as [|x k]; cbn in E.
      * right. exists [], k2. rewrite app_nil_r in *. split; [done|]. unfold total. cbn. lia.
      * injection E as <- ->. left. by exists k1, k.
    + right. exists k, k2. split; [done|]. rewrite total_app. lia.
  - intros [(k1 & k2 & -> & ->)|(k1 & k2 & -> & ->)].
    + exists k1, (k2 ++ l2). by rewrite <- app_assoc.
    + exists (l1 ++ k1), k2. rewrite <- app_assoc. split; [done|]. rewrite total_app. lia.
Qed.

Lemma logged_one h x o s : logged h [x] o s <-> o = h /\ s = x.
Proof.
  split.
  - intros ([|y k1] & k2 & E & ->); [|by destruct k1]. injection E as -> _. unfold total. cbn. lia.
  - intros [-> ->]. exists [], []. split; [done|]. unfold total. cbn. lia.
Qed.

(** An allocation keeps the items that are still within the pool's length of the new
    tail, and adds one. *)
Lemma push_tail_logged p s p' l1 l2 o so :
  pool_inv K p (l1 ++ l2) -> pool_inv K p' (l2 ++ [s]) ->
  pool_head p' = pool_head p + total l1 -> pool_tail p' = pool_tail p + s ->
  (forall o so, logged (pool_head p) l1 o so -> 2 ^ K < pool_tail p' - o) ->
  logged (pool_head p') (l2 ++ [s]) o so <->
    (logged (pool_head p) (l1 ++ l2) o so /\ pool_tail p' - o <= 2 ^ K) \/ (o = pool_tail p /\ so = s).
Proof.
  intros I I' Eh Et Hout. destruct (log_from_total _ _ _ _ (pi_log _ _ _ I)) as [El _].
  pose proof (pi_room _ _ _ I') as Hr. rewrite total_app in El.
  rewrite !logged_app, logged_one, Eh. rewrite <- Z.add_assoc, <- El. split.
  - intros [Ho|Ho]; [|by right]. left. split; [by right|].
    assert (logged (pool_head p') (l2 ++ [s]) o so) as Ho' by (apply logged_app; left; by rewrite Eh).
    pose proof (logged_bounds _ _ _ _ (pi_log _ _ _ I') Ho'). lia.
  - intros [[[Ho|Ho] Hle]|Ho]; [|by left|by right]. specialize (Hout o so Ho). lia.
Qed.
End pool.

(** Allocation is first-in first-out: it always returns, the new item is at the
    tail, and the log afterwards holds the new item and exactly those old items that
    start within the pool's length of the new tail. *)
Theorem pool_allocate_fifo (K : Z) (p : mehcached_pool) (l : list Z) (s : Z) :
  pool_inv K p l -> 8 <= s <= 2 ^ K -> s mod 8 = 0 -> pool_tail p + s < 2 ^ 63 ->
  exists p' l', mehcached_pool_allocate s p = Ret (pool_tail p mod 2 ^ 48) p' /\
    pool_inv K p' l' /\ pool_tail p' = pool_tail p + s /\
    forall o so, logged (pool_head p') l' o so <->
      (logged (pool_head p) l o so /\ pool_tail p' - o <= 2 ^ K) \/ (o = pool_tail p /\ so = s).
Proof.
  intros I Hs Hs8 Hb.
  destruct (wp_ret_inv _ _ _ (push_tail_spec K p l s I Hs Hs8 Hb))
    as (off & p' & E & -> & l1 & l2 & -> & I' & Eh & Et & Hout & _).
  exists p', (l2 ++ [s]). split; [exact E|]. split; [done|]. split; [done|].
  intros o so. by apply push_tail_logged.
Qed.

Definition small_pool : mehcached_pool :=
  {| concurrent_access_mode := 0; pool_lock := 0; pool_data := ∅; pool_size := 64; pool_mask := 63;
     pool_head := 0; pool_tail := 0 |}.

Lemma small_pool_inv : pool_inv 6 small_pool [].
Proof. split; cbn; lia || done. Qed.

(** A pool of 64 bytes, empty: an item of 24 bytes goes to offset 0. *)
Lemma pool_allocate_fifo_witness :
  exists p' l', mehcached_pool_allocate 24 small_pool = Ret 0 p' /\ logged (pool_head p') l' 0 24.
Proof.
  destruct (pool_allocate_fifo 6 small_pool [] 24 small_pool_inv ltac:(lia) eq_refl ltac:(cbn; lia))
    as (p' & l' & E & _ & _ & Hl).
  exists p', l'. split; [exact E|]. apply Hl. right. split; reflexivity.
Defined.

Lemma is_valid_eq (p : mehcached_pool) (o : Z) :
  0 <= o <= pool_tail p -> pool_tail p < 2 ^ 64 -> pool_tail p - o < 2 ^ 48 ->
  mehcached_pool_is_valid p (o mod 2 ^ 48) = (pool_tail p - o <=? pool_size p).
Proof.
  intros Ho Ht Hd. unfold mehcached_pool_is_valid, MEHCACHED_ITEM_OFFSET_MASK.
  change (Z.shiftl 1 48 - 1) with (2 ^ 48 - 1). rewrite land_mask, wrap_wrap by lia.
  unfold wrap. rewrite Zminus_mod_idemp_r, Z.mod_small by lia. done.
Qed.

(** The validity test is exact as long as no more than 2^48 bytes were appended
    since the item: an offset is valid exactly when its item starts within the pool's
    length of the tail, that is when its item is still in the log. *)
Theorem pool_is_valid_exact (K : Z) (p : mehcached_pool) (l : list Z) (o : Z) :
  pool_inv K p l -> 0 <= o <= pool_tail p -> pool_tail p - o < 2 ^ 48 ->
  mehcached_pool_is_valid p (o mod 2 ^ 48) = true <-> pool_tail p - o <= pool_size p.
Proof.
  intros I Ho Hd. pose proof (pi_tail _ _ _ I). rewrite is_valid_eq by lia. apply Z.leb_le.
Qed.

Lemma pool_is_valid_exact_witness : mehcached_pool_is_valid small_pool (0 mod 2 ^ 48) = true.
Proof. apply (pool_is_valid_exact 6 small_pool [] 0 small_pool_inv); cbn; lia. Defined.
