(* ===== verification/MicaTable.v ===== *)
(** * MICA: the hash table

    The table of src/sw/apps/mica/mica/table.h and table.c, as mica_server.cc builds it
    (config.h): one pool, eviction (15 items per bucket, no extra buckets), no
    concurrency (locks and versions are empty), no statistics, asserts enabled.

    A bucket is its vector of items, each a 16-bit tag and a 48-bit pool offset, 0 when
    empty; buckets that were never written are not in the map.  An item in the pool is
    its size (word 0), the lengths of key and value and the expiry time (word 1), the
    hash of the key (word 2), the key and the value (from word 3), each padded to words. *)

From S2P Require Import Prelude Wire MicaUtil MicaPool.

Definition MEHCACHED_MAX_KEY_LENGTH : Z := 255.
Definition MEHCACHED_MAX_VALUE_LENGTH : Z := 1048575.
Definition MEHCACHED_ITEMS_PER_BUCKET : nat := 15.

Definition MEHCACHED_TAG_MASK : Z := Z.shiftl 1 16 - 1.
Definition MEHCACHED_TAG (item_vec : Z) : Z := Z.shiftr item_vec 48.
Definition MEHCACHED_ITEM_OFFSET (item_vec : Z) : Z := Z.land item_vec MEHCACHED_ITEM_OFFSET_MASK.
Definition MEHCACHED_ITEM_VEC (tag item_offset : Z) : Z := Z.lor (Z.shiftl tag 48) item_offset.

Definition MEHCACHED_KEY_MASK : Z := Z.shiftl 1 8 - 1.
Definition MEHCACHED_KEY_LENGTH (kv_length_vec : Z) : Z := Z.shiftr kv_length_vec 24.
Definition MEHCACHED_VALUE_MASK : Z := Z.shiftl 1 24 - 1.
Definition MEHCACHED_VALUE_LENGTH (kv_length_vec : Z) : Z := Z.land kv_length_vec MEHCACHED_VALUE_MASK.
Definition MEHCACHED_KV_LENGTH_VEC (key_length value_length : Z) : Z :=
  Z.lor (u32 (Z.shiftl (u32 key_length) 24)) (u32 value_length).

(** ** Items *)
Definition sizeof_item : Z := 24.

Definition kv_length_vec (p : mehcached_pool) (off : Z) : Z := field (load_word p off 1) 0 32.
Definition expire_time (p : mehcached_pool) (off : Z) : Z := field (load_word p off 1) 32 32.
Definition key_hash_of (p : mehcached_pool) (off : Z) : Z := load_word p off 2.

Definition set_kv_length_vec (off v : Z) (p : mehcached_pool) : mehcached_pool :=
  store_word off 1 (set_field (load_word p off 1) 0 32 v) p.
Definition set_expire_time (off v : Z) (p : mehcached_pool) : mehcached_pool :=
  store_word off 1 (set_field (load_word p off 1) 32 32 v) p.

(** [item->data + ROUNDUP8(key_length)], as a word of the item. *)
Definition value_word (key_length : Z) : Z := 3 + Z.shiftr (MEHCACHED_ROUNDUP8 key_length) 3.

(** [mehcached_memcpy8] into an item. *)
Definition copy_in (off i : Z) (src : list Z) (length : Z) (p : mehcached_pool) : mehcached_pool :=
  store_words off i (mehcached_memcpy8 (load_words p off i (words_of length)) src length) p.

(** [mehcached_memcpy8] out of an item. *)
Definition copy_out (p : mehcached_pool) (off i length : Z) : list Z :=
  load_words p off i (words_of length).

Definition mehcached_set_item (off key_hash : Z) (key : list Z) (key_length : Z) (value : list Z)
    (value_length expire : Z) : M mehcached_pool unit :=
  massert (key_length <=? MEHCACHED_KEY_MASK) ;;
  massert (value_length <=? MEHCACHED_VALUE_MASK) ;;
  modify (set_kv_length_vec off (MEHCACHED_KV_LENGTH_VEC key_length value_length)) ;;
  modify (store_word off 2 key_hash) ;;
  modify (set_expire_time off expire) ;;
  modify (copy_in off 3 key key_length) ;;
  modify (copy_in off (value_word key_length) value value_length).

Definition mehcached_set_item_value (off : Z) (value : list Z) (value_length expire : Z)
  : M mehcached_pool unit :=
  massert (value_length <=? MEHCACHED_VALUE_MASK) ;;
  let! p := get in
  let key_length := MEHCACHED_KEY_LENGTH (kv_length_vec p off) in
  modify (set_kv_length_vec off (MEHCACHED_KV_LENGTH_VEC key_length value_length)) ;;
  modify (set_expire_time off expire) ;;
  modify (copy_in off (value_word key_length) value value_length).

Definition mehcached_compare_keys (key1 : list Z) (key1_len : Z) (key2 : list Z) (key2_len : Z) : bool :=
  (key1_len =? key2_len) && mehcached_memcmp8 key1 key2 key1_len.

(** ** The table *)
Record mehcached_table := {
  alloc : mehcached_pool;
  mth_threshold : Z;
  buckets : gmap Z (list Z);
  num_buckets : Z;
  num_buckets_mask : Z;
  rshift : Z
}.

Definition set_alloc (a : mehcached_pool) (t : mehcached_table) : mehcached_table :=
  {| alloc := a; mth_threshold := mth_threshold t; buckets := buckets t;
     num_buckets := num_buckets t; num_buckets_mask := num_buckets_mask t; rshift := rshift t |}.
Definition set_buckets (b : gmap Z (list Z)) (t : mehcached_table) : mehcached_table :=
  {| alloc := alloc t; mth_threshold := mth_threshold t; buckets := b;
     num_buckets := num_buckets t; num_buckets_mask := num_buckets_mask t; rshift := rshift t |}.

Definition bucket (t : mehcached_table) (b : Z) : list Z :=
  default (replicate MEHCACHED_ITEMS_PER_BUCKET 0) (buckets t !! b).
Definition item_vec (t : mehcached_table) (b : Z) (i : nat) : Z := bucket t b !!! i.
Definition set_item_vec (b : Z) (i : nat) (v : Z) (t : mehcached_table) : mehcached_table :=
  set_buckets (<[b := <[i := v]> (bucket t b)]> (buckets t)) t.

Definition in_pool {A} (m : M mehcached_pool A) : M mehcached_table A := zoom alloc set_alloc m.

Definition mehcached_calc_bucket_index (t : mehcached_table) (key_hash : Z) : Z :=
  Z.land (u32 (Z.shiftr key_hash 16)) (num_buckets_mask t).

Definition mehcached_calc_tag (key_hash : Z) : Z :=
  let tag := u16 (Z.land key_hash MEHCACHED_TAG_MASK) in
  if tag =? 0 then 1 else tag.

(** The first index at which [f] holds; [None] is MEHCACHED_ITEMS_PER_BUCKET. *)
Fixpoint first_index (f : Z -> bool) (l : list Z) : option nat :=
  match l with
  | [] => None
  | x :: l' => if f x then Some 0%nat else Datatypes.S <$> first_index f l'
  end.

(** What [mehcached_find_item_index] looks for; the item may be one that was
    overwritten, which is left to the callers. *)
Definition item_matches (p : mehcached_pool) (key_hash tag : Z) (key : list Z) (key_length : Z)
    (vec : Z) : bool :=
  let off := MEHCACHED_ITEM_OFFSET vec in
  let klen := MEHCACHED_KEY_LENGTH (kv_length_vec p off) in
  (MEHCACHED_TAG vec =? tag) && (key_hash_of p off =? key_hash) &&
  mehcached_compare_keys (copy_out p off 3 klen) klen key key_length.

Definition mehcached_find_item_index (t : mehcached_table) (b key_hash tag : Z) (key : list Z)
    (key_length : Z) : option nat :=
  first_index (item_matches (alloc t) key_hash tag key key_length) (bucket t b).

Definition mehcached_find_same_tag (t : mehcached_table) (b tag : Z) : option nat :=
  first_index (fun vec => MEHCACHED_TAG vec =? tag) (bucket t b).

(** The loop of [mehcached_find_empty_or_oldest] from index [i] on, with the item found
    so far and its distance. *)
Fixpoint empty_or_oldest (t : mehcached_table) (l : list Z) (i oldest : nat) (distance : Z) : nat :=
  match l with
  | [] => oldest
  | vec :: l' =>
      if vec =? 0 then i
      else
        let d := Z.land (u64 (pool_tail (alloc t) - MEHCACHED_ITEM_OFFSET vec))
                   MEHCACHED_ITEM_OFFSET_MASK in
        if d <? distance then empty_or_oldest t l' (Datatypes.S i) i d
        else empty_or_oldest t l' (Datatypes.S i) oldest distance
  end.
Definition mehcached_find_empty_or_oldest (t : mehcached_table) (b : Z) : nat :=
  empty_or_oldest t (bucket t b) 0 0 (u64 (-1)).

(** ** Cleanup *)
Definition clean_items (p : mehcached_pool) (l : list Z) : list Z :=
  map (fun vec => if vec =? 0 then vec
                  else if negb (mehcached_pool_is_valid p (MEHCACHED_ITEM_OFFSET vec)) then 0 else vec) l.

Definition clean_bucket (b : Z) (t : mehcached_table) : mehcached_table :=
  set_buckets (<[b := clean_items (alloc t) (bucket t b)]> (buckets t)) t.

(** [while (bucket_index != bucket_index_end)]; the fuel is the number of buckets
    between the two. *)
Fixpoint cleanup_loop (fuel : nat) (b e : Z) : M mehcached_table unit :=
  if b =? e then ret tt
  else
    match fuel with
    | O => fun _ => Block
    | Datatypes.S fuel' =>
        modify (clean_bucket b) ;;
        let! t := get in
        cleanup_loop fuel' (Z.land (u64 (b + 1)) (num_buckets_mask t)) e
    end.

Definition mehcached_cleanup_bucket (old_tail new_tail : Z) : M mehcached_table unit :=
  let! t := get in
  let b := Z.land (Z.shiftr old_tail (rshift t)) (num_buckets_mask t) in
  let e := Z.land (Z.shiftr new_tail (rshift t)) (num_buckets_mask t) in
  cleanup_loop (Z.to_nat (Z.land (u64 (e - b)) (num_buckets_mask t))) b e.

Definition mehcached_cleanup_all : M mehcached_table unit :=
  let! t := get in
  mehcached_cleanup_bucket 0 (Z.shiftl 1 (rshift t)) ;;
  mehcached_cleanup_bucket (Z.shiftl 1 (rshift t)) 0.

(** ** Operations *)
Definition item_size_for (key_length value_length : Z) : Z :=
  u32 (sizeof_item + MEHCACHED_ROUNDUP8 key_length + MEHCACHED_ROUNDUP8 value_length).

(** The move-to-head at the end of [mehcached_get]: the item [vec] at index [i] is
    copied to the tail, its size word included. *)
Definition move_to_head (b : Z) (i : nat) (vec item_size : Z) : M mehcached_table unit :=
  let off := MEHCACHED_ITEM_OFFSET vec in
  let! new_off := in_pool (mehcached_pool_allocate item_size) in
  let! t := get in
  let new_tail := pool_tail (alloc t) in
  (if mehcached_pool_is_valid (alloc t) off then
     in_pool (modify (fun p => copy_in new_off 0 (copy_out p off 0 item_size) item_size p)) ;;
     modify (set_item_vec b i (MEHCACHED_ITEM_VEC (MEHCACHED_TAG vec) new_off))
   else ret tt) ;;
  mehcached_cleanup_bucket new_off new_tail.

(** [mehcached_get]: the length of the value, its words and its expiry time, if the key
    was found. *)
Definition mehcached_get (key_hash : Z) (key : list Z) (key_length in_out_value_length : Z)
    (readonly : bool) : M mehcached_table (option (Z * list Z * Z)) :=
  massert (key_length <=? MEHCACHED_MAX_KEY_LENGTH) ;;
  let! t := get in
  let b := mehcached_calc_bucket_index t key_hash in
  let tag := mehcached_calc_tag key_hash in
  match mehcached_find_item_index t b key_hash tag key key_length with
  | None => ret None
  | Some i =>
      let vec := item_vec t b i in
      let off := MEHCACHED_ITEM_OFFSET vec in
      let p := alloc t in
      let expire := expire_time p off in
      let klen := Z.min (MEHCACHED_KEY_LENGTH (kv_length_vec p off)) MEHCACHED_MAX_KEY_LENGTH in
      let vlen := Z.min (MEHCACHED_VALUE_LENGTH (kv_length_vec p off)) MEHCACHED_MAX_VALUE_LENGTH in
      let item_size := item_size_for klen vlen in
      let vlen := if in_out_value_length <? vlen then in_out_value_length else vlen in
      let out_value := copy_out p off (value_word klen) vlen in
      if negb (mehcached_pool_is_valid p off) then
        (if readonly then ret tt
         else if negb (vec =? 0) then modify (set_item_vec b i 0) else ret tt) ;;
        ret None
      else
        massert (vlen <=? 1500) ;;
        (if negb readonly then
           if mth_threshold t <? Z.land (u64 (pool_tail p - off)) (pool_mask p)
           then move_to_head b i vec item_size else ret tt
         else ret tt) ;;
        massert (vlen <=? 1500) ;;
        ret (Some (vlen, out_value, expire))
  end.

Definition mehcached_test (key_hash : Z) (key : list Z) (key_length : Z) : M mehcached_table bool :=
  massert (key_length <=? MEHCACHED_MAX_KEY_LENGTH) ;;
  let! t := get in
  let b := mehcached_calc_bucket_index t key_hash in
  let tag := mehcached_calc_tag key_hash in
  ret (match mehcached_find_item_index t b key_hash tag key key_length with
       | Some _ => true
       | None => false
       end).

(** The end of [mehcached_set]: a new item for index [i] of bucket [b]. *)
Definition set_new_item (b : Z) (i : nat) (tag key_hash : Z) (key : list Z) (key_length : Z)
    (value : list Z) (value_length expire new_item_size : Z) : M mehcached_table bool :=
  let! new_off := in_pool (mehcached_pool_allocate new_item_size) in
  let! t := get in
  let new_tail := pool_tail (alloc t) in
  in_pool (mehcached_set_item new_off key_hash key key_length value value_length expire) ;;
  modify (set_item_vec b i (MEHCACHED_ITEM_VEC tag new_off)) ;;
  mehcached_cleanup_bucket new_off new_tail ;;
  ret true.

Definition mehcached_set (key_hash : Z) (key : list Z) (key_length : Z) (value : list Z)
    (value_length expire : Z) (overwrite : bool) : M mehcached_table bool :=
  massert (key_length <=? MEHCACHED_MAX_KEY_LENGTH) ;;
  massert (value_length <=? MEHCACHED_MAX_VALUE_LENGTH) ;;
  let! t := get in
  let b := mehcached_calc_bucket_index t key_hash in
  let tag := mehcached_calc_tag key_hash in
  let new_item_size := item_size_for key_length value_length in
  let put i := set_new_item b i tag key_hash key key_length value value_length expire new_item_size in
  match mehcached_find_item_index t b key_hash tag key key_length with
  | Some i =>
      if negb overwrite then ret false
      else
        let off := MEHCACHED_ITEM_OFFSET (item_vec t b i) in
        if mehcached_pool_is_valid (alloc t) off &&
           (new_item_size <=? load_word (alloc t) off 0)
        then in_pool (mehcached_set_item_value off value value_length expire) ;; ret true
        else put i
  | None =>
      match mehcached_find_same_tag t b tag with
      | Some i => put i
      | None => put (mehcached_find_empty_or_oldest t b)
      end
  end.

Definition mehcached_delete (key_hash : Z) (key : list Z) (key_length : Z) : M mehcached_table bool :=
  massert (key_length <=? MEHCACHED_MAX_KEY_LENGTH) ;;
  let! t := get in
  let b := mehcached_calc_bucket_index t key_hash in
  let tag := mehcached_calc_tag key_hash in
  match mehcached_find_item_index t b key_hash tag key key_length with
  | None => ret false
  | Some i => modify (set_item_vec b i 0) ;; ret true
  end.

(** [mehcached_increment]: the new value, if the key was found. *)
Definition mehcached_increment (key_hash : Z) (key : list Z) (key_length increment expire : Z)
  : M mehcached_table (option Z) :=
  massert (key_length <=? MEHCACHED_MAX_KEY_LENGTH) ;;
  let! t := get in
  let b := mehcached_calc_bucket_index t key_hash in
  let tag := mehcached_calc_tag key_hash in
  match mehcached_find_item_index t b key_hash tag key key_length with
  | None => ret None
  | Some i =>
      let off := MEHCACHED_ITEM_OFFSET (item_vec t b i) in
      let p := alloc t in
      if negb (mehcached_pool_is_valid p off) then ret None
      else if negb (MEHCACHED_VALUE_LENGTH (kv_length_vec p off) =? 8) then ret None
      else
        let old_value := copy_out p off (value_word key_length) 8 !!! 0%nat in
        let new_value := u64 (old_value + increment) in
        in_pool (modify (copy_in off (value_word key_length) [new_value] 8)) ;;
        in_pool (modify (set_expire_time off expire)) ;;
        ret (Some new_value)
  end.

(** ** Set-up *)
Definition mehcached_table_reset : M mehcached_table unit :=
  modify (set_buckets ∅) ;; in_pool mehcached_pool_reset.

(** [while (((MEHCACHED_ITEM_OFFSET_MASK + 1) >> 1 >> rshift) > num_buckets) rshift++] *)
Fixpoint rshift_loop (fuel : nat) (r num_buckets : Z) : Z :=
  match fuel with
  | O => r
  | Datatypes.S fuel' =>
      if num_buckets <? Z.shiftr (Z.shiftr (MEHCACHED_ITEM_OFFSET_MASK + 1) 1) r
      then rshift_loop fuel' (r + 1) num_buckets else r
  end.

(** The conversion of [size * mth_threshold] to an integer, for the two thresholds that
    table.h names, 1.0 and 0.0. *)
Definition MEHCACHED_MTH_THRESHOLD_FIFO (size : Z) : Z := size.
Definition MEHCACHED_MTH_THRESHOLD_LRU (size : Z) : Z := 0.

(** [mth size] is the conversion of [size * mth_threshold] to an integer; [d] is the
    content of the pool's memory. *)
Definition mehcached_table_init {S} (mapped : bool) (d : gmap Z Z) (mth : Z -> Z)
    (num_buckets num_pools pool_size : Z)
    (concurrent_table_read concurrent_alloc_write : bool) : M S mehcached_table :=
  massert (0 <? num_buckets) ;;
  massert (0 <? num_pools) ;;
  massert (num_pools <=? 16) ;;
  massert (num_pools =? 1) ;;
  let! nb := power_loop 64 0 num_buckets in
  massert (nb <=? Z.shiftl 1 32) ;;
  massert mapped ;;
  let! a := mehcached_pool_init mapped d pool_size concurrent_table_read concurrent_alloc_write in
  let t := {| alloc := a; mth_threshold := mth (MicaPool.pool_size a); buckets := ∅;
              num_buckets := u32 nb; num_buckets_mask := u32 (u32 nb - 1);
              rshift := rshift_loop 48 0 (u32 nb) |} in
  build mehcached_table_reset t.
