(* ===== verification/MicaStore.v ===== *)
(** * MICA: items in the pool

    What the item writes of MicaTable do to the pool's memory.  Inside a window of the
    pool's length the memory is an array of words; the item at offset [o] with room for
    [s] bytes holds the value [v] for the key [k] ([item_at]); writing an item or its
    value leaves the words of every other item alone ([wrote]).  A key is its hash, its
    length and its words; a value its length, words and expiry time. *)

From S2P Require Import Prelude Wire MicaUtil MicaPool MicaTable.

(** ** Words of the log *)
Fixpoint log_words (p : mehcached_pool) (a : Z) (n : nat) : list Z :=
  match n with
  | O => []
  | Datatypes.S n' => log_word p a :: log_words p (a + 1) n'
  end.

Lemma log_words_ext p p' a n :
  (forall x, a <= x < a + Z.of_nat n -> log_word p' x = log_word p x) ->
  log_words p' a n = log_words p a n.
Proof.
  revert a. induction n as [|n IH]; intros a Hx; cbn; [done|]. rewrite Hx, IH; [done| |lia].
  intros x Hx'. apply Hx. lia.
Qed.

Lemma length_log_words p a n : length (log_words p a n) = n.
Proof. revert a. induction n as [|n IH]; intros a; cbn; [done|by rewrite IH]. Qed.

(** Same shape, other content. *)
Record same_frame (p p' : mehcached_pool) : Prop := {
  sf_size : pool_size p' = pool_size p;
  sf_mask : pool_mask p' = pool_mask p;
  sf_head : pool_head p' = pool_head p;
  sf_tail : pool_tail p' = pool_tail p
}.

Lemma same_frame_refl p : same_frame p p.
Proof. done. Qed.
Lemma same_frame_trans p q r : same_frame p q -> same_frame q r -> same_frame p r.
Proof. intros [] []. split; congruence. Qed.

Section memory.
Context (K : Z) (HK : 3 <= K <= 46).
Implicit Types p : mehcached_pool.

Definition frame p : Prop := pool_mask p = 2 ^ K - 1 /\ pool_size p = 2 ^ K.

Lemma frame_store p o i v : frame p -> frame (store_word o i v p).
Proof. done. Qed.

(** Stores inside a window of the pool's length act like stores to an array. *)
Lemma log_store_win w0 p o i v a :
  frame p -> o mod 8 = 0 -> w0 <= o / 8 + i < w0 + 2 ^ (K - 3) -> w0 <= a < w0 + 2 ^ (K - 3) ->
  log_word (store_word o i v p) a = if a =? o / 8 + i then v else log_word p a.
Proof using HK.
  intros [Hm Hs] Ho Hb Ha. destruct (Z.eqb_spec a (o / 8 + i)) as [->|Hn].
  - rewrite (log_store K) by (done || lia). by rewrite Z.eqb_refl.
  - apply (log_store_other K); done || lia.
Qed.

Lemma log_stores_win w0 ws p o i a :
  frame p -> o mod 8 = 0 -> w0 <= o / 8 + i -> o / 8 + i + Z.of_nat (length ws) <= w0 + 2 ^ (K - 3) ->
  w0 <= a < w0 + 2 ^ (K - 3) ->
  log_word (store_words o i ws p) a =
    if (o / 8 + i <=? a) && (a <? o / 8 + i + Z.of_nat (length ws))
    then ws !!! Z.to_nat (a - (o / 8 + i)) else log_word p a.
Proof using HK.
  revert i p. induction ws as [|w ws IH]; intros i p Hf Ho Hlo Hhi Ha; cbn [store_words length] in *.
  - destruct (Z.leb_spec (o / 8 + i) a), (Z.ltb_spec a (o / 8 + i + Z.of_nat 0)); cbn; done || lia.
  - rewrite IH by (done || lia). rewrite (log_store_win w0) by (done || lia).
    destruct (Z.leb_spec (o / 8 + (i + 1)) a), (Z.ltb_spec a (o / 8 + (i + 1) + Z.of_nat (length ws))),
      (Z.leb_spec (o / 8 + i) a), (Z.ltb_spec a (o / 8 + i + Z.of_nat (Datatypes.S (length ws)))),
      (Z.eqb_spec a (o / 8 + i)); cbn; try lia; try done.
    + replace (Z.to_nat (a - (o / 8 + i))) with (Datatypes.S (Z.to_nat (a - (o / 8 + (i + 1))))) by lia.
      done.
    + by replace (Z.to_nat (a - (o / 8 + i))) with 0%nat by lia.
Qed.

Lemma store_words_frame ws o i p : same_frame p (store_words o i ws p).
Proof.
  revert i p. induction ws as [|w ws IH]; intros i p; cbn; [done|].
  eapply same_frame_trans; [|apply IH]. done.
Qed.

Lemma log_words_stored w0 ws p o i :
  frame p -> o mod 8 = 0 -> w0 <= o / 8 + i -> o / 8 + i + Z.of_nat (length ws) <= w0 + 2 ^ (K - 3) ->
  log_words (store_words o i ws p) (o / 8 + i) (length ws) = ws.
Proof using HK.
  intros Hf Ho Hlo Hhi.
  assert (forall n k, (k + n = length ws)%nat ->
    log_words (store_words o i ws p) (o / 8 + i + Z.of_nat k) n = drop k ws) as Hd.
  { induction n as [|n IH]; intros k Hk; cbn [log_words].
    - rewrite drop_ge by lia. done.
    - rewrite (log_stores_win w0) by (done || lia).
      destruct (Z.leb_spec (o / 8 + i) (o / 8 + i + Z.of_nat k)),
        (Z.ltb_spec (o / 8 + i + Z.of_nat k) (o / 8 + i + Z.of_nat (length ws))); cbn; try lia.
      replace (o / 8 + i + Z.of_nat k + 1) with (o / 8 + i + Z.of_nat (Datatypes.S k)) by lia.
      rewrite IH by lia. replace (Z.to_nat (o / 8 + i + Z.of_nat k - (o / 8 + i))) with k by lia.
      symmetry. apply drop_S. apply list_lookup_lookup_total_lt. lia. }
  rewrite <- (drop_0 ws) at 3. rewrite <- (Hd (length ws) 0%nat) by lia. by rewrite Z.add_0_r.
Qed.

(** Loads, at an offset and at its low 48 bits. *)
Lemma load_masked p o i : frame p -> o mod 8 = 0 -> load_word p (o mod 2 ^ 48) i = log_word p (o / 8 + i).
Proof using HK.
  intros [Hm Hs] Ho. change (o mod 2 ^ 48) with (wrap 48 o). rewrite <- land_mask by lia.
  change (2 ^ 48 - 1) with MEHCACHED_ITEM_OFFSET_MASK. unfold load_word.
  rewrite (item_masked K) by (done || lia). by apply (load_log K); lia || done.
Qed.

Lemma loads_masked p o i n :
  frame p -> o mod 8 = 0 -> load_words p (o mod 2 ^ 48) i n = log_words p (o / 8 + i) n.
Proof using HK.
  intros Hf Ho. revert i. induction n as [|n IH]; intros i; cbn; [done|].
  rewrite load_masked, IH by done. by rewrite Z.add_assoc.
Qed.

Lemma store_masked p o i v : frame p -> store_word (o mod 2 ^ 48) i v p = store_word o i v p.
Proof using HK.
  intros [Hm Hs]. unfold store_word. change (o mod 2 ^ 48) with (wrap 48 o).
  rewrite <- land_mask by lia. change (2 ^ 48 - 1) with MEHCACHED_ITEM_OFFSET_MASK.
  by rewrite (item_masked K) by (done || lia).
Qed.

Lemma stores_masked ws p o i : frame p -> store_words (o mod 2 ^ 48) i ws p = store_words o i ws p.
Proof using HK.
  revert i p. induction ws as [|w ws IH]; intros i p Hf; cbn; [done|].
  by rewrite store_masked, IH.
Qed.

(** [copy_in] stores the words of the source. *)
Lemma copy_in_masked p o i src len :
  frame p -> o mod 8 = 0 -> (words_of len <= length src)%nat ->
  copy_in (o mod 2 ^ 48) i src len p = store_words o i (take (words_of len) src) p.
Proof using HK.
  intros Hf Ho Hs. unfold copy_in. rewrite loads_masked, stores_masked by done.
  destruct (word_ops (log_words p (o / 8 + i) (words_of len)) src len) as [-> _];
    [by rewrite length_log_words|done|].
  unfold memcpy_ref. rewrite drop_ge by (by rewrite length_log_words). by rewrite app_nil_r.
Qed.
End memory.

(** ** Keys, values and items *)
Abbreviation kv_key := (Z * Z * list Z)%type.
Abbreviation kv_val := (Z * list Z * Z)%type.

Definition wf_key (k : kv_key) : Prop :=
  let '(h, n, ws) := k in in_width 64 h /\ 0 <= n <= 255 /\ length ws = words_of n.
Definition wf_val (v : kv_val) : Prop :=
  let '(n, ws, e) := v in 0 <= n <= 1048575 /\ length ws = words_of n /\ in_width 32 e.

Definition item_bytes (kn vn : Z) : Z := 24 + 8 * Z.of_nat (words_of kn) + 8 * Z.of_nat (words_of vn).

(** The item at offset [o] of the log, with room for [s] bytes, holds [v] for [k]. *)
Record item_at (p : mehcached_pool) (o s : Z) (k : kv_key) (v : kv_val) : Prop := {
  ia_key : wf_key k;
  ia_val : wf_val v;
  ia_kv : field (log_word p (o / 8 + 1)) 0 32 = MEHCACHED_KV_LENGTH_VEC k.1.2 v.1.1;
  ia_expire : field (log_word p (o / 8 + 1)) 32 32 = v.2;
  ia_hash : log_word p (o / 8 + 2) = k.1.1;
  ia_kwords : log_words p (o / 8 + 3) (words_of k.1.2) = k.2;
  ia_vwords : log_words p (o / 8 + value_word k.1.2) (words_of v.1.1) = v.1.2;
  ia_fits : item_bytes k.1.2 v.1.1 <= s
}.

Lemma words_bound n x : 0 <= n <= x -> x <= 1048575 -> Z.of_nat (words_of n) <= (x + 7) / 8.
Proof. intros. rewrite words_of_eq by lia. apply Z.div_le_mono; lia. Qed.

Lemma value_word_eq n : 0 <= n <= 1048575 -> value_word n = 3 + Z.of_nat (words_of n).
Proof.
  intros. unfold value_word, words_of. rewrite Z2Nat.id; [done|].
  rewrite roundup8_eq by lia. apply Z.shiftr_nonneg. apply Z.mul_nonneg_nonneg; [apply Z.div_pos|]; lia.
Qed.

Lemma item_bytes_bound kn vn :
  0 <= kn <= 255 -> 0 <= vn <= 1048575 ->
  24 <= item_bytes kn vn <= 1048856 /\ item_bytes kn vn mod 8 = 0.
Proof.
  intros. unfold item_bytes. pose proof (words_bound kn 255). pose proof (words_bound vn 1048575).
  split; [|div_lia]. change ((255 + 7) / 8) with 32 in *. change ((1048575 + 7) / 8) with 131072 in *. lia.
Qed.

Lemma item_size_eq kn vn :
  0 <= kn <= 255 -> 0 <= vn <= 1048575 -> item_size_for kn vn = item_bytes kn vn.
Proof.
  intros Hk Hv. pose proof (item_bytes_bound kn vn Hk Hv). unfold item_size_for, sizeof_item.
  rewrite !roundup8_eq by lia. rewrite wrap_small; unfold item_bytes in *; rewrite !words_of_eq in * by lia;
    [lia|unfold in_width; lia].
Qed.

Lemma kv_length_vec_eq kn vn :
  0 <= kn <= 255 -> 0 <= vn <= 1048575 -> MEHCACHED_KV_LENGTH_VEC kn vn = vn + kn * 2 ^ 24.
Proof.
  intros. unfold MEHCACHED_KV_LENGTH_VEC. rewrite !(wrap_small 32) by
    (rewrite ?Z.shiftl_mul_pow2 by lia; rewrite ?wrap_small; unfold in_width; lia).
  rewrite Z.shiftl_mul_pow2 by lia. apply lor_disjoint'; [lia|unfold in_width; lia].
Qed.

Lemma kv_lengths kn vn :
  0 <= kn <= 255 -> 0 <= vn <= 1048575 ->
  in_width 32 (MEHCACHED_KV_LENGTH_VEC kn vn) /\
  MEHCACHED_KEY_LENGTH (MEHCACHED_KV_LENGTH_VEC kn vn) = kn /\
  MEHCACHED_VALUE_LENGTH (MEHCACHED_KV_LENGTH_VEC kn vn) = vn.
Proof.
  intros. rewrite kv_length_vec_eq by done. unfold MEHCACHED_KEY_LENGTH, MEHCACHED_VALUE_LENGTH.
  split; [unfold in_width; lia|]. split.
  - rewrite Z.shiftr_div_pow2 by lia. rewrite Z.div_add, Z.div_small by lia. lia.
  - unfold MEHCACHED_VALUE_MASK. change (Z.shiftl 1 24 - 1) with (2 ^ 24 - 1).
    rewrite land_mask by lia. unfold wrap. rewrite Z.mod_add by lia. apply Z.mod_small. lia.
Qed.

Lemma item_at_ext p p' o s k v :
  (forall a, o / 8 < a < o / 8 + s / 8 -> log_word p' a = log_word p a) ->
  item_at p o s k v -> item_at p' o s k v.
Proof.
  intros Hw [Hk Hv Hkv He Hh Hkw Hvw Hf]. destruct k as [[h kn] kw], v as [[vn vw] e]. cbn in *.
  pose proof Hk as (_ & Hkn & _). pose proof Hv as (Hvn & _ & _). unfold item_bytes in Hf.
  rewrite value_word_eq in Hvw by lia.
  assert (3 + Z.of_nat (words_of kn) + Z.of_nat (words_of vn) <= s / 8) by div_lia.
  split; cbn; try done; try (rewrite Hw by lia; done).
  - rewrite (log_words_ext p); [done|]. intros x Hx. apply Hw. lia.
  - rewrite value_word_eq by lia. rewrite (log_words_ext p); [done|]. intros x Hx. apply Hw. lia.
Qed.

(** ** Writing an item *)
Section write.
Context (K : Z) (HK : 3 <= K <= 46) (w0 : Z).
Implicit Types p : mehcached_pool.

(** Memory [p'] differs from [p], in the window, only inside the item at [o], behind its
    first word. *)
Record wrote (p p' : mehcached_pool) (o s : Z) : Prop := {
  wr_frame : same_frame p p';
  wr_other a : w0 <= a < w0 + 2 ^ (K - 3) -> ~ (o / 8 < a < o / 8 + s / 8) ->
    log_word p' a = log_word p a
}.

Definition in_window (o s : Z) : Prop :=
  o mod 8 = 0 /\ s mod 8 = 0 /\ w0 <= o / 8 /\ o / 8 + s / 8 <= w0 + 2 ^ (K - 3).

Lemma wrote_trans p q r o s : wrote p q o s -> wrote q r o s -> wrote p r o s.
Proof.
  intros [F1 H1] [F2 H2]. split; [by eapply same_frame_trans|]. intros a Ha Hn. by rewrite H2, H1.
Qed.

Lemma frame_wrote p p' o s : frame K p -> wrote p p' o s -> frame K p'.
Proof. intros [Hm Hs] [[Es Em _ _] _]. split; congruence. Qed.

Lemma store_wrote p o s i v :
  frame K p -> in_window o s -> 0 < i < s / 8 -> wrote p (store_word o i v p) o s.
Proof using HK.
  intros Hf (Ho & Hs & Hlo & Hhi) Hi. split; [done|]. intros a Ha Hn.
  rewrite (log_store_win K HK w0) by (done || lia).
  destruct (Z.eqb_spec a (o / 8 + i)); [lia|done].
Qed.

Lemma stores_wrote p o s i ws :
  frame K p -> in_window o s -> 0 < i -> i + Z.of_nat (length ws) <= s / 8 ->
  wrote p (store_words o i ws p) o s.
Proof using HK.
  intros Hf (Ho & Hs & Hlo & Hhi) Hi Hl. split; [apply store_words_frame|]. intros a Ha Hn.
  rewrite (log_stores_win K HK w0) by (done || lia).
  destruct (Z.leb_spec (o / 8 + i) a), (Z.ltb_spec a (o / 8 + i + Z.of_nat (length ws))); cbn; done || lia.
Qed.

(** The two halves of word 1. *)
Lemma set_kv_eq p o x :
  frame K p -> o mod 8 = 0 ->
  set_kv_length_vec (o mod 2 ^ 48) x p = store_word o 1 (set_field (log_word p (o / 8 + 1)) 0 32 x) p.
Proof using HK. intros. unfold set_kv_length_vec. by rewrite (load_masked K), (store_masked K). Qed.

Lemma set_expire_eq p o x :
  frame K p -> o mod 8 = 0 ->
  set_expire_time (o mod 2 ^ 48) x p = store_word o 1 (set_field (log_word p (o / 8 + 1)) 32 32 x) p.
Proof using HK. intros. unfold set_expire_time. by rewrite (load_masked K), (store_masked K). Qed.

Lemma log_store_eq p o s i v :
  frame K p -> in_window o s -> 0 <= i < s / 8 -> log_word (store_word o i v p) (o / 8 + i) = v.
Proof using HK.
  intros Hf (Ho & Hs & Hlo & Hhi) Hi. rewrite (log_store_win K HK w0) by (done || lia).
  by rewrite Z.eqb_refl.
Qed.

Lemma log_store_ne p o s i v j :
  frame K p -> in_window o s -> 0 <= i < s / 8 -> 0 <= j < s / 8 -> i <> j ->
  log_word (store_word o i v p) (o / 8 + j) = log_word p (o / 8 + j).
Proof using HK.
  intros Hf (Ho & Hs & Hlo & Hhi) Hi Hj Hn. rewrite (log_store_win K HK w0) by (done || lia).
  destruct (Z.eqb_spec (o / 8 + j) (o / 8 + i)); [lia|done].
Qed.

Lemma log_stores_ne p o s i ws j :
  frame K p -> in_window o s -> 0 <= i -> i + Z.of_nat (length ws) <= s / 8 -> 0 <= j < s / 8 ->
  j < i \/ i + Z.of_nat (length ws) <= j ->
  log_word (store_words o i ws p) (o / 8 + j) = log_word p (o / 8 + j).
Proof using HK.
  intros Hf (Ho & Hs & Hlo & Hhi) Hi Hl Hj Hn. rewrite (log_stores_win K HK w0) by (done || lia).
  destruct (Z.leb_spec (o / 8 + i) (o / 8 + j)),
    (Z.ltb_spec (o / 8 + j) (o / 8 + i + Z.of_nat (length ws))); cbn; done || lia.
Qed.

Lemma log_words_ne p o s i ws j n :
  frame K p -> in_window o s -> 0 <= i -> i + Z.of_nat (length ws) <= s / 8 ->
  0 <= j -> j + Z.of_nat n <= s / 8 -> j + Z.of_nat n <= i \/ i + Z.of_nat (length ws) <= j ->
  log_words (store_words o i ws p) (o / 8 + j) n = log_words p (o / 8 + j) n.
Proof using HK.
  intros Hf Hw Hi Hl Hj Hn Hd. apply log_words_ext. intros x Hx.
  replace x with (o / 8 + (x - o / 8)) by lia. apply (log_stores_ne p o s); done || lia.
Qed.

Lemma set_item_spec p o s k v :
  frame K p -> in_window o s -> wf_key k -> wf_val v -> item_bytes k.1.2 v.1.1 <= s ->
  wp (mehcached_set_item (o mod 2 ^ 48) k.1.1 k.2 k.1.2 v.1.2 v.1.1 v.2)
    (fun _ p' => item_at p' o s k v /\ wrote p p' o s) p.
Proof using HK.
  destruct k as [[h kn] kw], v as [[vn vw] e]. cbn [fst snd].
  intros Hf Hw Hk Hv Hfit. pose proof Hk as (Hh & Hkn & Hkl). pose proof Hv as (Hvn & Hvl & He).
  pose proof Hw as (Ho & Hs8 & _). destruct (kv_lengths kn vn) as (Hkv & _); [lia..|].
  unfold item_bytes in Hfit.
  assert (3 + Z.of_nat (words_of kn) + Z.of_nat (words_of vn) <= s / 8) as Hs by div_lia.
  unfold mehcached_set_item. apply wp_bind. unfold massert at 1, wp at 1.
  rewrite (proj2 (Z.leb_le kn _)) by (change MEHCACHED_KEY_MASK with 255; lia). apply wp_bind. unfold massert at 1, wp at 1.
  rewrite (proj2 (Z.leb_le vn _)) by (change MEHCACHED_VALUE_MASK with 16777215; lia).
  do 4 (apply wp_bind; unfold modify at 1, wp at 1). unfold modify, wp at 1.
  rewrite set_kv_eq by done. set (p1 := store_word o 1 _ p).
  assert (frame K p1) as F1 by done. rewrite (store_masked K HK) by done.
  set (p2 := store_word o 2 h p1). assert (frame K p2) as F2 by done. rewrite set_expire_eq by done.
  set (p3 := store_word o 1 _ p2). assert (frame K p3) as F3 by done.
  rewrite (copy_in_masked K HK p3) by (done || lia). rewrite (take_ge kw) by lia.
  assert (wrote p3 (store_words o 3 kw p3) o s) as W4 by (apply stores_wrote; done || lia).
  set (p4 := store_words o 3 kw p3) in *. assert (frame K p4) as F4 by (by eapply frame_wrote).
  rewrite (copy_in_masked K HK p4) by (done || lia). rewrite (take_ge vw) by lia.
  assert (wrote p4 (store_words o (value_word kn) vw p4) o s) as W5
    by (apply stores_wrote; rewrite ?value_word_eq; done || lia).
  split.
  - split; cbn; rewrite ?value_word_eq by lia; try done.
    + rewrite (log_stores_ne p4 o s) by (done || lia). unfold p4.
      rewrite (log_stores_ne p3 o s) by (done || lia). unfold p3.
      rewrite (log_store_eq p2 o s), field_set_other by (done || lia). unfold p2.
      rewrite (log_store_ne p1 o s) by (done || lia). unfold p1.
      rewrite (log_store_eq p o s) by (done || lia). by apply field_set_same.
    + rewrite (log_stores_ne p4 o s) by (done || lia). unfold p4.
      rewrite (log_stores_ne p3 o s) by (done || lia). unfold p3.
      rewrite (log_store_eq p2 o s) by (done || lia). by apply field_set_same.
    + rewrite (log_stores_ne p4 o s) by (done || lia). unfold p4.
      rewrite (log_stores_ne p3 o s) by (done || lia). unfold p3.
      rewrite (log_store_ne p2 o s) by (done || lia). by apply (log_store_eq p1 o s); done || lia.
    + rewrite (log_words_ne p4 o s) by (done || lia). unfold p4. rewrite <- Hkl.
      by apply (log_words_stored K HK (o / 8)); done || (destruct Hw; lia).
    + rewrite <- Hvl. apply (log_words_stored K HK w0); done || (destruct Hw; lia).
  - eapply wrote_trans; [|exact W5]. eapply wrote_trans; [|exact W4].
    eapply wrote_trans; [|by apply store_wrote; done || lia].
    eapply wrote_trans; [|by apply store_wrote; done || lia]. by apply store_wrote; done || lia.
Qed.

(** Reading an item. *)
Lemma log_words_take p a n m : (m <= n)%nat -> log_words p a m = take m (log_words p a n).
Proof.
  revert a n. induction m as [|m IH]; intros a n Hm; [by rewrite take_0|].
  destruct n as [|n]; [lia|]. cbn. by rewrite (IH _ n) by lia.
Qed.

Lemma words_of_mono a b : 0 <= a <= b -> b <= 1048575 -> (words_of a <= words_of b)%nat.
Proof.
  intros. apply Nat2Z.inj_le. rewrite !words_of_eq by lia. apply Z.div_le_mono; lia.
Qed.

Lemma item_reads p o s k v :
  frame K p -> o mod 8 = 0 -> item_at p o s k v ->
  kv_length_vec p (o mod 2 ^ 48) = MEHCACHED_KV_LENGTH_VEC k.1.2 v.1.1 /\
  expire_time p (o mod 2 ^ 48) = v.2 /\ key_hash_of p (o mod 2 ^ 48) = k.1.1 /\
  copy_out p (o mod 2 ^ 48) 3 k.1.2 = k.2 /\
  forall n, 0 <= n <= v.1.1 ->
    copy_out p (o mod 2 ^ 48) (value_word k.1.2) n = take (words_of n) v.1.2.
Proof using HK.
  intros Hf Ho [Hk Hv Hkv He Hh Hkw Hvw _].
  unfold kv_length_vec, expire_time, key_hash_of, copy_out.
  rewrite !(load_masked K HK), !(loads_masked K HK) by done. do 4 (split; [done|]).
  destruct k as [[h kn] kw], v as [[vn vw] e]. cbn in *. destruct Hv as (Hvn & _).
  intros n Hn. rewrite (loads_masked K HK) by done.
  rewrite (log_words_take p _ (words_of vn)) by (apply words_of_mono; lia). by rewrite Hvw.
Qed.

(** Overwriting the value of an item in place. *)
Lemma set_item_value_spec p o s k v0 v :
  frame K p -> in_window o s -> item_at p o s k v0 -> wf_val v -> item_bytes k.1.2 v.1.1 <= s ->
  wp (mehcached_set_item_value (o mod 2 ^ 48) v.1.2 v.1.1 v.2)
    (fun _ p' => item_at p' o s k v /\ wrote p p' o s) p.
Proof using HK.
  intros Hf Hw Hi Hv Hfit. pose proof Hw as (Ho & Hs8 & _).
  destruct (item_reads p o s k v0 Hf Ho Hi) as (Ekv & _). destruct Hi as [Hk Hv0 _ _ Hhash Hkw _ _].
  destruct k as [[h kn] kw], v as [[vn vw] e], v0 as [[vn0 vw0] e0]. cbn [fst snd] in *.
  pose proof Hk as (Hh & Hkn & Hkl). pose proof Hv as (Hvn & Hvl & He). destruct Hv0 as (Hvn0 & _).
  destruct (kv_lengths kn vn0) as (_ & Ekn & _); [lia..|].
  destruct (kv_lengths kn vn) as (Hkv & _); [lia..|]. unfold item_bytes in Hfit.
  assert (3 + Z.of_nat (words_of kn) + Z.of_nat (words_of vn) <= s / 8) as Hs by div_lia.
  unfold mehcached_set_item_value. apply wp_bind. unfold massert at 1, wp at 1.
  rewrite (proj2 (Z.leb_le vn _)) by (change MEHCACHED_VALUE_MASK with 16777215; lia).
  apply wp_bind. unfold get, wp at 1. rewrite Ekv, Ekn.
  do 2 (apply wp_bind; unfold modify at 1, wp at 1). unfold modify, wp at 1.
  rewrite set_kv_eq by done. set (p1 := store_word o 1 _ p). assert (frame K p1) as F1 by done.
  rewrite set_expire_eq by done. set (p2 := store_word o 1 _ p1). assert (frame K p2) as F2 by done.
  rewrite (copy_in_masked K HK p2) by (done || lia). rewrite (take_ge vw) by lia.
  rewrite value_word_eq by lia. set (vi := 3 + Z.of_nat (words_of kn)) in *.
  assert (wrote p p2 o s) as W2
    by (eapply wrote_trans; [|by apply store_wrote; done || lia]; by apply store_wrote; done || lia).
  split; [|eapply wrote_trans; [exact W2|]; apply stores_wrote; done || lia].
  split; cbn; rewrite ?value_word_eq by lia; fold vi; try done.
  - rewrite (log_stores_ne p2 o s) by (done || lia). unfold p2.
    rewrite (log_store_eq p1 o s), field_set_other by (done || lia). unfold p1.
    rewrite (log_store_eq p o s) by (done || lia). by apply field_set_same.
  - rewrite (log_stores_ne p2 o s) by (done || lia). unfold p2.
    rewrite (log_store_eq p1 o s) by (done || lia). by apply field_set_same.
  - rewrite (log_stores_ne p2 o s) by (done || lia). unfold p2, p1.
    by rewrite !(log_store_ne _ o s) by (done || lia).
  - rewrite (log_words_ne p2 o s) by (done || lia). rewrite <- Hkw.
    apply log_words_ext. intros x Hx. replace x with (o / 8 + (x - o / 8)) by lia. unfold p2, p1.
    by rewrite !(log_store_ne _ o s) by (done || lia).
  - rewrite <- Hvl. apply (log_words_stored K HK w0); done || (destruct Hw; lia).
Qed.

(** [mehcached_increment]'s two writes. *)
Lemma increment_spec p o s k w e0 w' e :
  frame K p -> in_window o s -> item_at p o s k (8, [w], e0) -> in_width 32 e ->
  let p' := set_expire_time (o mod 2 ^ 48) e (copy_in (o mod 2 ^ 48) (value_word k.1.2) [w'] 8 p) in
  item_at p' o s k (8, [w'], e) /\ wrote p p' o s.
Proof using HK.
  intros Hf Hw Hi He. pose proof Hw as (Ho & Hs8 & _). destruct Hi as [Hk Hv0 Hkv _ Hhash Hkw _ Hfit].
  destruct k as [[h kn] kw]. cbn [fst snd] in *. pose proof Hk as (Hh & Hkn & Hkl).
  unfold item_bytes in Hfit. change (words_of 8) with 1%nat in *. pose proof (value_word_eq kn ltac:(lia)) as Ev.
  assert (3 + Z.of_nat (words_of kn) + 1 <= s / 8) as Hs by div_lia.
  rewrite (copy_in_masked K HK p) by (done || (cbn; lia)). change (take (words_of 8) [w']) with [w'].
  cbn [store_words]. rewrite Ev. set (vi := 3 + Z.of_nat (words_of kn)) in *.
  set (p1 := store_word o vi w' p). assert (frame K p1) as F1 by done. rewrite set_expire_eq by done.
  split; [|eapply wrote_trans; [|by apply store_wrote; done || lia]; apply store_wrote; done || lia].
  split; cbn; rewrite ?Ev; try done.
  - rewrite (log_store_eq p1 o s), field_set_other by (done || lia). unfold p1.
    by rewrite (log_store_ne p o s) by (done || lia).
  - rewrite (log_store_eq p1 o s) by (done || lia). by apply field_set_same.
  - unfold p1. by rewrite !(log_store_ne _ o s) by (done || lia).
  - rewrite <- Hkw. apply log_words_ext. intros x Hx. replace x with (o / 8 + (x - o / 8)) by lia.
    unfold p1. by rewrite !(log_store_ne _ o s) by (done || lia).
  - change (words_of 8) with 1%nat. cbn. f_equal. rewrite (log_store_ne p1 o s) by (done || lia). unfold p1.
    by rewrite (log_store_eq p o s) by (done || lia).
Qed.
End write.
