(* ===== verification/MicaCache.v ===== *)
(** * MICA: the store is a cache

    The table of MicaTable against a map from keys to values: what a lookup returns is
    what was last stored under the key, for the first-in first-out setting of
    mica_server.cc (no item is moved to the head of the log).

    The invariant says of every item of every bucket that its offset is less than 2^48
    bytes behind the tail, so that validity can be tested on 48-bit offsets, and that an
    item that is still in the log belongs to the bucket and holds the value of its key.
    The first part is what the cleanup after every allocation is for: [T] counts the
    buckets cleaned so far, one for each [2 ^ rshift] bytes of the tail. *)

From S2P Require Import Prelude Wire MicaUtil MicaPool MicaTable MicaStore.

(** ** Searching a bucket *)
Lemma first_index_Some f l i : first_index f l = Some i -> exists x, l !! i = Some x /\ f x = true.
Proof.
  revert i. induction l as [|y l IH]; intros i; cbn; [done|]. destruct (f y) eqn:E.
  - intros [= <-]. by exists y.
  - destruct (first_index f l) as [j|]; [|done]. intros [= <-]. apply IH. done.
Qed.

Lemma first_index_None f l : first_index f l = None -> forall i x, l !! i = Some x -> f x = false.
Proof.
  induction l as [|y l IH]; cbn; [done|]. destruct (f y) eqn:E; [done|].
  destruct (first_index f l); [done|]. intros _ [|i] x; cbn; [by intros [= <-]|by apply IH].
Qed.

Lemma vec_parts tag o :
  1 <= tag < 2 ^ 16 ->
  MEHCACHED_TAG (MEHCACHED_ITEM_VEC tag (o mod 2 ^ 48)) = tag /\
  MEHCACHED_ITEM_OFFSET (MEHCACHED_ITEM_VEC tag (o mod 2 ^ 48)) = o mod 2 ^ 48 /\
  MEHCACHED_ITEM_VEC tag (o mod 2 ^ 48) <> 0.
Proof.
  intros Ht. pose proof (Z.mod_pos_bound o (2 ^ 48) ltac:(lia)) as Ho.
  unfold MEHCACHED_TAG, MEHCACHED_ITEM_OFFSET, MEHCACHED_ITEM_VEC, MEHCACHED_ITEM_OFFSET_MASK.
  rewrite Z.shiftl_mul_pow2, lor_disjoint' by (done || lia). split; [|split].
  - rewrite Z.shiftr_div_pow2, Z.div_add, Z.div_small by lia. lia.
  - change (Z.shiftl 1 48 - 1) with (2 ^ 48 - 1). rewrite land_mask by lia. unfold wrap.
    rewrite Z.mod_add by lia. by rewrite Z.mod_mod by lia.
  - lia.
Qed.

Definition key_tag (k : kv_key) : Z := mehcached_calc_tag k.1.1.

Lemma key_tag_bounds k : 1 <= key_tag k < 2 ^ 16.
Proof.
  unfold key_tag, mehcached_calc_tag. set (x := u16 _). assert (in_width 16 x) as Hx by (apply wrap_range; lia).
  unfold in_width in Hx. destruct (Z.eqb_spec x 0); lia.
Qed.

Lemma bucket_set_item_vec b i v t b' :
  bucket (set_item_vec b i v t) b' = if decide (b' = b) then <[i := v]> (bucket t b) else bucket t b'.
Proof.
  unfold bucket at 1, set_item_vec. cbn. destruct (decide (b' = b)) as [->|Hn].
  - by rewrite lookup_insert_eq.
  - by rewrite lookup_insert_ne.
Qed.

Lemma bucket_clean b t b' :
  bucket (clean_bucket b t) b' =
    if decide (b' = b) then clean_items (alloc t) (bucket t b) else bucket t b'.
Proof.
  unfold bucket at 1, clean_bucket. cbn. destruct (decide (b' = b)) as [->|Hn].
  - by rewrite lookup_insert_eq.
  - by rewrite lookup_insert_ne.
Qed.

Section cache.
Context (K B : Z) (HK : 21 <= K <= 46) (HB : 1 <= B <= 31).
Implicit Types (p : mehcached_pool) (t : mehcached_table) (l : list Z) (k : kv_key) (v : kv_val)
  (m : gmap kv_key kv_val).

Definition key_bucket k : Z := Z.land (u32 (Z.shiftr k.1.1 16)) (2 ^ B - 1).

(** The log holds [v] for [k] at offset [o]. *)
Definition holds p l o s k v : Prop := logged (pool_head p) l o s /\ item_at p o s k v.

(** The item [x] of bucket [b]. *)
Record slot p l m T b x tag o : Prop := {
  sl_vec : x = MEHCACHED_ITEM_VEC tag (o mod 2 ^ 48);
  sl_tag : 1 <= tag < 2 ^ 16;
  sl_bucket : 0 <= b < 2 ^ B;
  sl_off : o mod 8 = 0 /\ 0 <= o < pool_tail p;
  sl_dist : pool_tail p - o < 2 ^ 48;
  sl_phase q : 0 <= q < T -> q mod 2 ^ B = b -> (q + 1) * 2 ^ (47 - B) <= o + 2 ^ K;
  sl_item : pool_tail p - o <= 2 ^ K ->
    exists s k v, holds p l o s k v /\ key_bucket k = b /\ key_tag k = tag /\ m !! k = Some v
}.

Record cache_inv T m t l : Prop := {
  ci_pool : pool_inv K (alloc t) l;
  ci_mask : num_buckets_mask t = 2 ^ B - 1;
  ci_rshift : rshift t = 47 - B;
  ci_mth : 2 ^ K - 1 <= mth_threshold t;
  ci_len b : length (bucket t b) = MEHCACHED_ITEMS_PER_BUCKET;
  ci_tags b i j x y : bucket t b !! i = Some x -> bucket t b !! j = Some y -> x <> 0 -> y <> 0 ->
    MEHCACHED_TAG x = MEHCACHED_TAG y -> i = j;
  ci_slot b i x : bucket t b !! i = Some x -> x <> 0 ->
    exists tag o, slot (alloc t) l m T b x tag o
}.

(** [k] is in the table. *)
Definition present t l k : Prop :=
  exists i tag o s v, bucket t (key_bucket k) !! i = Some (MEHCACHED_ITEM_VEC tag (o mod 2 ^ 48)) /\
    1 <= tag < 2 ^ 16 /\ key_tag k = tag /\ pool_tail (alloc t) - o <= 2 ^ K /\
    holds (alloc t) l o s k v.

Lemma pool_frame p l : pool_inv K p l -> frame K p.
Proof. by intros [_ ? ? _ _ _ _]. Qed.

Lemma pow_K : 2 ^ 21 <= 2 ^ K <= 2 ^ 46.
Proof using HK. split; apply Z.pow_le_mono_r; lia. Qed.

Lemma pow_B : 2 <= 2 ^ B /\ 0 < 2 ^ (47 - B) /\ 2 ^ B * 2 ^ (47 - B) = 2 ^ 47.
Proof using HB.
  split; [|split].
  - change 2 with (2 ^ 1) at 1. apply Z.pow_le_mono_r; lia.
  - apply Z.pow_pos_nonneg; lia.
  - rewrite <- Z.pow_add_r by lia. f_equal. lia.
Qed.

(** Two descriptions of the same item. *)
Lemma item_at_inj p o s k v s' k' v' :
  frame K p -> o mod 8 = 0 -> item_at p o s k v -> item_at p o s' k' v' -> k = k'.
Proof using HK.
  intros Hf Ho I I'. destruct (item_reads K ltac:(lia) p o s k v Hf Ho I) as (E1 & _ & E2 & E3 & _).
  destruct (item_reads K ltac:(lia) p o s' k' v' Hf Ho I') as (E1' & _ & E2' & E3' & _).
  destruct I as [Hk Hv _ _ _ _ _ _], I' as [Hk' Hv' _ _ _ _ _ _].
  destruct k as [[h kn] kw], v as [[vn vw] e], k' as [[h' kn'] kw'], v' as [[vn' vw'] e']. cbn in *.
  destruct Hk as (_ & Hkn & _), Hv as (Hvn & _), Hk' as (_ & Hkn' & _), Hv' as (Hvn' & _).
  destruct (kv_lengths kn vn) as (_ & L & _); [lia..|].
  destruct (kv_lengths kn' vn') as (_ & L' & _); [lia..|]. congruence.
Qed.

(** Items of the table that hold the same key are the same item. *)
Lemma slot_key_unique T m t l b b' i j x x' tag tag' o o' s s' k v v' :
  cache_inv T m t l -> bucket t b !! i = Some x -> bucket t b' !! j = Some x' ->
  slot (alloc t) l m T b x tag o -> slot (alloc t) l m T b' x' tag' o' ->
  key_bucket k = b -> key_bucket k = b' -> key_tag k = tag -> key_tag k = tag' ->
  holds (alloc t) l o s k v -> holds (alloc t) l o' s' k v' -> i = j /\ o = o'.
Proof using HK.
  intros I Hi Hj S S' <- <- <- <- [Lo _] [Lo' _]. pose proof I as [P _ _ _ _ Htag _].
  pose proof (vec_parts _ o (sl_tag _ _ _ _ _ _ _ _ S)) as (T1 & O1 & N1).
  pose proof (vec_parts _ o' (sl_tag _ _ _ _ _ _ _ _ S)) as (T2 & O2 & N2).
  rewrite (sl_vec _ _ _ _ _ _ _ _ S) in Hi. rewrite (sl_vec _ _ _ _ _ _ _ _ S') in Hj.
  assert (i = j) as <- by (eapply Htag; [exact Hi|exact Hj|done..|congruence]).
  split; [done|]. rewrite Hi in Hj. injection Hj as E.
  assert (o mod 2 ^ 48 = o' mod 2 ^ 48) as Em by congruence.
  pose proof (logged_bounds _ _ _ _ (pi_log _ _ _ P) Lo).
  pose proof (logged_bounds _ _ _ _ (pi_log _ _ _ P) Lo').
  pose proof (pi_room _ _ _ P). pose proof pow_K.
  apply (window_inj _ _ (2 ^ 48)); [lia|lia|done].
Qed.

(** Fewer items. *)
Lemma cache_inv_drop T m t l t' :
  cache_inv T m t l -> alloc t' = alloc t -> num_buckets_mask t' = num_buckets_mask t ->
  rshift t' = rshift t -> mth_threshold t' = mth_threshold t ->
  (forall b, length (bucket t' b) = length (bucket t b)) ->
  (forall b i x, bucket t' b !! i = Some x -> x <> 0 -> bucket t b !! i = Some x) ->
  cache_inv T m t' l.
Proof.
  intros [P Hm Hr Hmth Hl Htag Hs] Ea Em Er Emth El Hsub.
  split; rewrite ?Ea, ?Em, ?Er, ?Emth; try done.
  - intros b. by rewrite El.
  - intros b i j x y Hi Hj Hx Hy. apply (Htag b i j x y); auto.
  - intros b i x Hi Hx. apply (Hs b i x); auto.
Qed.

Lemma clear_item T m t l b i : cache_inv T m t l -> cache_inv T m (set_item_vec b i 0 t) l.
Proof.
  intros I. eapply (cache_inv_drop T m t); try done.
  - intros b'. rewrite bucket_set_item_vec. destruct (decide (b' = b)) as [->|]; [|done].
    apply length_insert.
  - intros b' j x. rewrite bucket_set_item_vec. destruct (decide (b' = b)) as [->|]; [|done].
    destruct (decide (j = i)) as [->|Hn]; [|by rewrite list_lookup_insert_ne].
    intros Hx Hx0. apply list_lookup_insert_Some in Hx as [(_ & <- & _)|[Hne _]]; done.
Qed.

(** Another map, equal on the keys of the table. *)
Lemma cache_inv_map T m m' t l :
  cache_inv T m t l ->
  (forall b i x tag o s k v, bucket t b !! i = Some x -> slot (alloc t) l m T b x tag o ->
     pool_tail (alloc t) - o <= 2 ^ K -> holds (alloc t) l o s k v ->
     key_bucket k = b -> key_tag k = tag -> m !! k = Some v -> m' !! k = Some v) ->
  cache_inv T m' t l.
Proof.
  intros [P Hm Hr Hmth Hl Htag Hs] Hk. split; try done. intros b i x Hi Hx.
  destruct (Hs b i x Hi Hx) as (tag & o & S). exists tag, o. pose proof S as [S1 S2 Sb S3 S4 S5 S6].
  split; try done. intros Hlive. destruct (S6 Hlive) as (s & k & v & Hh & Eb & Et & Em).
  exists s, k, v. do 3 (split; [done|]). by eapply (Hk b i x tag o s k v).
Qed.

(** The test of [mehcached_find_item_index] on an item that is in the log. *)
Lemma item_matches_live T p l m b x tag o s k v k' :
  pool_inv K p l -> slot p l m T b x tag o -> holds p l o s k v -> wf_key k' ->
  item_matches p k'.1.1 (key_tag k') k'.2 k'.1.2 x = true <-> key_tag k' = tag /\ k = k'.
Proof using HK.
  intros P [-> Ht _ [Ho _] _ _ _] [_ Hi] Hk'. destruct (vec_parts tag o Ht) as (Et & Eo & _).
  unfold item_matches, mehcached_compare_keys. rewrite Et, Eo.
  destruct (item_reads K ltac:(lia) p o s k v (pool_frame _ _ P) Ho Hi) as (E1 & _ & E2 & E3 & _).
  destruct Hi as [Hk Hv _ _ _ _ _ _]. destruct k as [[h kn] kw], v as [[vn vw] e], k' as [[h' kn'] kw'].
  cbn in *. destruct Hk as (_ & Hkn & Hkl), Hv as (Hvn & _), Hk' as (_ & Hkn' & Hkl').
  destruct (kv_lengths kn vn) as (_ & L & _); [lia..|]. rewrite E1, L, E2, E3.
  rewrite !andb_true_iff, !Z.eqb_eq. split.
  - intros [[<- ->] [<- Hc]]. split; [done|]. f_equal. revert Hc.
    destruct (word_ops kw kw' kn) as [_ ->]; [lia..|]. rewrite !take_ge by lia.
    by intros ?%bool_decide_eq_true.
  - intros [<- [= -> -> ->]]. do 2 (split; [done|]).
    destruct (word_ops kw' kw' kn') as [_ ->]; [lia..|]. by rewrite bool_decide_eq_true_2.
Qed.

Lemma calc_bucket T m t l k :
  cache_inv T m t l -> mehcached_calc_bucket_index t k.1.1 = key_bucket k.
Proof. intros I. unfold mehcached_calc_bucket_index, key_bucket. by rewrite (ci_mask _ _ _ _ I). Qed.

(** [mehcached_find_item_index] finds a key that is in the table, and what it finds is
    that key or an item that is no longer in the log. *)
Lemma find_Some T m t l k i :
  cache_inv T m t l -> wf_key k ->
  mehcached_find_item_index t (key_bucket k) k.1.1 (key_tag k) k.2 k.1.2 = Some i ->
  exists o, bucket t (key_bucket k) !! i = Some (MEHCACHED_ITEM_VEC (key_tag k) (o mod 2 ^ 48)) /\
    slot (alloc t) l m T (key_bucket k) (MEHCACHED_ITEM_VEC (key_tag k) (o mod 2 ^ 48)) (key_tag k) o /\
    (pool_tail (alloc t) - o <= 2 ^ K -> exists s v, holds (alloc t) l o s k v /\ m !! k = Some v).
Proof using HK HB.
  intros I Hk E. apply first_index_Some in E as (x & Hi & Hx).
  pose proof (key_tag_bounds k) as Ht. assert (MEHCACHED_TAG x = key_tag k) as Etag.
  { unfold item_matches in Hx. rewrite !andb_true_iff, Z.eqb_eq in Hx. tauto. }
  assert (x <> 0) as Hx0 by (intros ->; change (MEHCACHED_TAG 0) with 0 in Etag; lia).
  destruct (ci_slot _ _ _ _ I _ i x Hi Hx0) as (tag & o & S). pose proof S as [-> Ht' _ _ _ _ Hitem].
  destruct (vec_parts tag o Ht') as (Et & _). assert (tag = key_tag k) as -> by congruence.
  exists o. split; [done|]. split; [done|]. intros Hlive.
  destruct (Hitem Hlive) as (s & k1 & v & Hh & _ & _ & Em).
  apply (item_matches_live T _ _ _ _ _ _ _ _ _ _ _ (ci_pool _ _ _ _ I) S Hh Hk) in Hx as [_ ->].
  by exists s, v.
Qed.

Lemma find_None T m t l k :
  cache_inv T m t l -> wf_key k ->
  mehcached_find_item_index t (key_bucket k) k.1.1 (key_tag k) k.2 k.1.2 = None ->
  forall i x tag o s k' v, bucket t (key_bucket k) !! i = Some x ->
    slot (alloc t) l m T (key_bucket k) x tag o -> holds (alloc t) l o s k' v ->
    key_tag k' = tag -> k' <> k.
Proof using HK.
  intros I Hk E i x tag o s k' v Hi S Hh Et ->.
  assert (item_matches (alloc t) k.1.1 (key_tag k) k.2 k.1.2 x = true) as Hx
    by (by apply (item_matches_live T _ _ _ _ _ _ _ _ _ _ _ (ci_pool _ _ _ _ I) S Hh Hk)).
  pose proof (first_index_None _ _ E i x Hi). congruence.
Qed.

Lemma find_present T m t l k :
  cache_inv T m t l -> wf_key k -> present t l k ->
  exists i o, mehcached_find_item_index t (key_bucket k) k.1.1 (key_tag k) k.2 k.1.2 = Some i /\
    bucket t (key_bucket k) !! i = Some (MEHCACHED_ITEM_VEC (key_tag k) (o mod 2 ^ 48)) /\
    0 <= o < pool_tail (alloc t) /\ pool_tail (alloc t) - o <= 2 ^ K.
Proof using HK HB.
  intros I Hk (i & tag & o & s & v & Hi & Ht & Etag & Hlive & Hh).
  destruct (vec_parts tag o Ht) as (Et & Eo & Hx0).
  destruct (ci_slot _ _ _ _ I _ i _ Hi Hx0) as (tag' & o' & S).
  pose proof S as [Ev Ht' _ Ho' Hd' _ _]. destruct (vec_parts tag' o' Ht') as (Et' & Eo' & _).
  assert (tag' = tag) as -> by congruence. pose proof (ci_pool _ _ _ _ I) as P.
  pose proof (logged_bounds _ _ _ _ (pi_log _ _ _ P) (proj1 Hh)) as Hb. pose proof (pi_head _ _ _ P).
  pose proof pow_K. assert (o = o') as <- by (apply (window_inj _ _ (2 ^ 48)); [lia|lia|congruence]).
  destruct (mehcached_find_item_index _ _ _ _ _ _) as [j|] eqn:E.
  - destruct (find_Some T m t l k j I Hk E) as (o' & Hj & S' & _). subst tag.
    destruct (vec_parts _ o' Ht) as (Et'' & Eo'' & Hx0').
    assert (i = j) as <- by (eapply (ci_tags _ _ _ _ I); [exact Hi|exact Hj|done..|congruence]).
    exists i, o. split; [done|]. split; [done|]. lia.
  - exfalso. by apply (find_None T m t l k I Hk E i _ _ _ s k v Hi S Hh).
Qed.

(** The validity test on an item of the table. *)
Lemma slot_valid T p l m b x tag o :
  pool_inv K p l -> slot p l m T b x tag o ->
  mehcached_pool_is_valid p (o mod 2 ^ 48) = (pool_tail p - o <=? 2 ^ K).
Proof.
  intros P [_ _ _ [_ Ho] Hd _ _]. rewrite <- (pi_size _ _ _ P). pose proof (pi_tail _ _ _ P).
  apply is_valid_eq; lia.
Qed.

(** What a caller with a buffer of [buf] bytes sees of a value. *)
Definition view v (buf : Z) : kv_val :=
  (Z.min v.1.1 buf, take (words_of (Z.min v.1.1 buf)) v.1.2, v.2).

Lemma present_live T m t l k i o :
  cache_inv T m t l -> wf_key k -> present t l k ->
  mehcached_find_item_index t (key_bucket k) k.1.1 (key_tag k) k.2 k.1.2 = Some i ->
  bucket t (key_bucket k) !! i = Some (MEHCACHED_ITEM_VEC (key_tag k) (o mod 2 ^ 48)) ->
  slot (alloc t) l m T (key_bucket k) (MEHCACHED_ITEM_VEC (key_tag k) (o mod 2 ^ 48)) (key_tag k) o ->
  pool_tail (alloc t) - o <= 2 ^ K.
Proof using HK HB.
  intros I Hk Hp E Hi S. destruct (find_present T m t l k I Hk Hp) as (j & o' & E' & Hj & Ho' & Hle).
  assert (j = i) as -> by congruence. rewrite Hi in Hj. injection Hj as Ev.
  destruct (vec_parts _ o (key_tag_bounds k)) as (_ & Eo & _).
  destruct (vec_parts _ o' (key_tag_bounds k)) as (_ & Eo' & _). rewrite Ev in Eo.
  pose proof (sl_dist _ _ _ _ _ _ _ _ S). pose proof (sl_off _ _ _ _ _ _ _ _ S). pose proof pow_K.
  assert (o = o') as -> by (apply (window_inj _ _ (2 ^ 48)); [lia|lia|congruence]). lia.
Qed.

(** What [mehcached_get] reads of an item that is in the log. *)
Lemma get_reads p l o s k v buf :
  pool_inv K p l -> o mod 8 = 0 -> holds p l o s k v -> 0 <= buf ->
  let klen := Z.min (MEHCACHED_KEY_LENGTH (kv_length_vec p (o mod 2 ^ 48))) MEHCACHED_MAX_KEY_LENGTH in
  let vlen := Z.min (MEHCACHED_VALUE_LENGTH (kv_length_vec p (o mod 2 ^ 48))) MEHCACHED_MAX_VALUE_LENGTH in
  let n := if buf <? vlen then buf else vlen in
  n = Z.min v.1.1 buf /\
  (n, copy_out p (o mod 2 ^ 48) (value_word klen) n, expire_time p (o mod 2 ^ 48)) = view v buf.
Proof using HK.
  intros P Ho [_ Hi] Hbuf.
  destruct (item_reads K ltac:(lia) _ o s k v (pool_frame _ _ P) Ho Hi) as (-> & -> & _ & _ & E5).
  destruct Hi as [Hk Hv _ _ _ _ _ _]. unfold view. destruct k as [[h kn] kw], v as [[vn vw] e].
  cbn [fst snd] in *. destruct Hk as (_ & Hkn & _), Hv as (Hvn & _).
  destruct (kv_lengths kn vn) as (_ & -> & ->); [lia..|].
  change MEHCACHED_MAX_KEY_LENGTH with 255. change MEHCACHED_MAX_VALUE_LENGTH with 1048575.
  rewrite (Z.min_l kn), (Z.min_l vn 1048575) by lia.
  assert ((if buf <? vn then buf else vn) = Z.min vn buf) as -> by (destruct (Z.ltb_spec buf vn); lia).
  split; [done|]. cbv zeta. by rewrite E5 by lia.
Qed.

Lemma key_length_ok k : wf_key k -> (k.1.2 <=? MEHCACHED_MAX_KEY_LENGTH) = true.
Proof. destruct k as [[h kn] kw]. intros (_ & ? & _). apply Z.leb_le. cbn. unfold MEHCACHED_MAX_KEY_LENGTH. lia. Qed.

(** With the first-in first-out threshold no item is moved. *)
Lemma never_moved T m t l x :
  cache_inv T m t l -> (mth_threshold t <? Z.land (u64 x) (pool_mask (alloc t))) = false.
Proof using HK.
  intros I. apply Z.ltb_ge. rewrite (pi_mask _ _ _ (ci_pool _ _ _ _ I)), land_mask by lia.
  pose proof (ci_mth _ _ _ _ I). assert (in_width K (wrap K (u64 x))) as Hw by (apply wrap_range; lia).
  unfold in_width in Hw. lia.
Qed.

Lemma get_spec T m t l k buf readonly :
  cache_inv T m t l -> wf_key k -> 0 <= buf <= 1500 ->
  wp (mehcached_get k.1.1 k.2 k.1.2 buf readonly)
    (fun r t' => cache_inv T m t' l /\ alloc t' = alloc t /\ (present t l k -> r <> None) /\
       (r = None \/ exists v, m !! k = Some v /\ r = Some (view v buf))) t.
Proof using HK HB.
  intros I Hk Hbuf. unfold mehcached_get. apply wp_bind. unfold massert at 1, wp at 1.
  rewrite key_length_ok by done. apply wp_bind. unfold get, wp at 1. rewrite (calc_bucket T m t l) by done.
  change (mehcached_calc_tag k.1.1) with (key_tag k).
  destruct (mehcached_find_item_index _ _ _ _ _ _) as [i|] eqn:E.
  2:{ apply wp_ret. split; [done|]. split; [done|]. split; [|by left].
      intros Hp. destruct (find_present T m t l k I Hk Hp) as (? & ? & ? & _). congruence. }
  destruct (find_Some T m t l k i I Hk E) as (o & Hi & S & Hlive).
  assert (item_vec t (key_bucket k) i = MEHCACHED_ITEM_VEC (key_tag k) (o mod 2 ^ 48)) as ->
    by (by apply list_lookup_total_correct).
  destruct (vec_parts _ o (key_tag_bounds k)) as (_ & -> & Hx0).
  pose proof (ci_pool _ _ _ _ I) as P. rewrite (slot_valid T _ l m _ _ _ o P S).
  rewrite (never_moved T m t l) by done. destruct (Z.leb_spec (pool_tail (alloc t) - o) (2 ^ K)) as [Hle|Hgt]; cbn [negb].
  - destruct (Hlive Hle) as (s & v & Hh & Em).
    destruct (get_reads _ l o s k v buf P (proj1 (sl_off _ _ _ _ _ _ _ _ S)) Hh ltac:(lia)) as [En Ev].
    rewrite Ev, En. apply wp_bind. unfold massert at 1, wp at 1. rewrite (proj2 (Z.leb_le _ 1500)) by lia.
    apply wp_bind. assert ((if negb readonly then ret tt else ret tt) = @ret mehcached_table _ tt) as ->
      by (by destruct readonly).
    apply wp_ret, wp_bind. unfold massert at 1, wp at 1. apply wp_ret.
    split; [done|]. split; [done|]. split; [done|]. right. by exists v.
  - apply wp_bind. rewrite (proj2 (Z.eqb_neq _ 0)) by done. cbn [negb].
    assert (present t l k -> False) as Hnp
      by (intros Hp; pose proof (present_live T m t l k i o I Hk Hp E Hi S); lia).
    destruct readonly; (apply wp_ret || unfold modify, wp at 1); apply wp_ret;
      (split; [done || by apply clear_item|]; split; [done|]; split; [done|by left]).
Qed.

(** ** Writing into an item of the log *)
Lemma logged_window p l o s :
  pool_inv K p l -> logged (pool_head p) l o s -> in_window K (pool_head p / 8) o s /\ 1 <= s / 8.
Proof using HK.
  intros P Ho. pose proof (logged_bounds _ _ _ _ (pi_log _ _ _ P) Ho) as (H1 & H2 & H3 & H4 & _).
  pose proof (logged_aligned _ _ _ _ (proj2 (pi_head _ _ _ P)) (pi_log _ _ _ P) Ho) as Ho8.
  pose proof (pi_room _ _ _ P) as Hr. destruct (pi_head _ _ _ P) as [_ Hh8].
  rewrite (pow_words K) in Hr by lia. set (W := 2 ^ (K - 3)) in *.
  unfold in_window. fold W. split; [|div_lia]. do 2 (split; [done|]). split; div_lia.
Qed.

Lemma logged_words_apart p l o s o' s' a :
  pool_inv K p l -> logged (pool_head p) l o s -> logged (pool_head p) l o' s' -> o <> o' ->
  o' / 8 <= a < o' / 8 + s' / 8 ->
  pool_head p / 8 <= a < pool_head p / 8 + 2 ^ (K - 3) /\ ~ (o / 8 <= a < o / 8 + s / 8).
Proof using HK.
  intros P Ho Ho' Hne Ha. destruct (logged_window p l o s P Ho) as [(A1 & A2 & A3 & A4) _].
  destruct (logged_window p l o' s' P Ho') as [(B1 & B2 & B3 & B4) _]. split; [lia|].
  destruct (logged_apart p l o s o' s' (pi_log _ _ _ P) Ho Ho') as [[? _]|Hd]; [done|].
  assert (o / 8 + s / 8 <= o' / 8 \/ o' / 8 + s' / 8 <= o / 8) by div_lia. lia.
Qed.

Lemma pool_inv_wrote p p' l o s :
  pool_inv K p l -> logged (pool_head p) l o s -> wrote K (pool_head p / 8) p p' o s -> pool_inv K p' l.
Proof using HK.
  intros P Ho [[Es Em Eh Et] Hw]. pose proof P as [H1 H2 H3 H4 H5 H6 H7].
  split; rewrite ?Es, ?Em, ?Eh, ?Et; try done. apply (log_from_ext p); [|done].
  intros a sa La. destruct (logged_window p l a sa P La) as [(A1 & A2 & A3 & A4) A5].
  destruct (decide (a = o)) as [->|Hne]; [apply Hw; lia|].
  destruct (logged_words_apart p l o s a sa (a / 8) P Ho La) as [B1 B2]; [done|lia|]. apply Hw; lia.
Qed.

Lemma item_wrote p p' l o s o' s' k v :
  pool_inv K p l -> logged (pool_head p) l o s -> logged (pool_head p) l o' s' -> o <> o' ->
  wrote K (pool_head p / 8) p p' o s -> item_at p o' s' k v -> item_at p' o' s' k v.
Proof using HK.
  intros P Ho Ho' Hne [_ Hw]. apply item_at_ext. intros a Ha.
  destruct (logged_words_apart p l o s o' s' a P Ho Ho' Hne) as [H1 H2]; [lia|]. apply Hw; lia.
Qed.

Lemma write_in_place T m t l k v0 v o s i x p' :
  cache_inv T m t l -> bucket t (key_bucket k) !! i = Some x ->
  slot (alloc t) l m T (key_bucket k) x (key_tag k) o -> holds (alloc t) l o s k v0 ->
  item_at p' o s k v -> wrote K (pool_head (alloc t) / 8) (alloc t) p' o s ->
  cache_inv T (<[k := v]> m) (set_alloc p' t) l.
Proof using HK.
  intros I Hi S Hh Hnew W. pose proof I as [P Hm Hr Hmth Hl Htag Hs]. pose proof W as [[Es Em Eh Et] _].
  split; try done; [by eapply pool_inv_wrote; [exact P|apply Hh|]|].
  intros b j y Hj Hy0. destruct (Hs b j y Hj Hy0) as (tag & o' & S'). exists tag, o'.
  pose proof S' as [S1 S2 Sb S3 S4 S5 S6]. split; cbn; rewrite ?Et; try done. intros Hlive.
  destruct (S6 Hlive) as (s' & k' & v' & Hh' & Eb & Etag & Em').
  destruct (decide (o' = o)) as [->|Hne].
  - assert (k' = k) as -> by (eapply (item_at_inj (alloc t) o);
      [by eapply pool_frame|apply S3|apply Hh'|apply Hh]).
    exists s, k, v. split; [|by rewrite lookup_insert_eq]. split; [|done]. cbn. rewrite Eh. apply Hh.
  - exists s', k', v'. split.
    { split; cbn; [rewrite Eh; apply Hh'|].
      eapply (item_wrote (alloc t) p' l o s); [done|apply Hh|apply Hh'|done..|apply Hh']. }
    do 2 (split; [done|]). rewrite lookup_insert_ne; [done|]. intros ->. apply Hne.
    by destruct (slot_key_unique T m t l _ _ _ _ _ _ _ _ _ _ _ _ k' _ _ I Hj Hi S' S Eb eq_refl Etag eq_refl Hh' Hh).
Qed.

Lemma present_write t l k v0 v o s i tag p' :
  pool_inv K (alloc t) l -> holds (alloc t) l o s k v0 -> item_at p' o s k v ->
  wrote K (pool_head (alloc t) / 8) (alloc t) p' o s ->
  bucket t (key_bucket k) !! i = Some (MEHCACHED_ITEM_VEC tag (o mod 2 ^ 48)) ->
  key_tag k = tag -> pool_tail (alloc t) - o <= 2 ^ K -> present (set_alloc p' t) l k.
Proof.
  intros P Hh Hnew [[_ _ Eh Et] _] Hi <- Hlive. exists i, (key_tag k), o, s, v.
  split; [done|]. split; [apply key_tag_bounds|]. split; [done|]. cbn. rewrite Et. split; [done|].
  split; cbn; [rewrite Eh; apply Hh|done].
Qed.

(** ** Deletion *)
Lemma delete_spec T m t l k :
  cache_inv T m t l -> wf_key k ->
  wp (mehcached_delete k.1.1 k.2 k.1.2)
    (fun r t' => cache_inv T (delete k m) t' l /\ alloc t' = alloc t /\ (present t l k -> r = true)) t.
Proof using HK HB.
  intros I Hk. unfold mehcached_delete. apply wp_bind. unfold massert at 1, wp at 1.
  rewrite key_length_ok by done. apply wp_bind. unfold get, wp at 1. rewrite (calc_bucket T m t l) by done.
  change (mehcached_calc_tag k.1.1) with (key_tag k).
  destruct (mehcached_find_item_index _ _ _ _ _ _) as [i|] eqn:E.
  - destruct (find_Some T m t l k i I Hk E) as (o & Hi & S & _). apply wp_bind. unfold modify, wp at 1.
    apply wp_ret. split; [|done]. apply (cache_inv_map T m); [by apply clear_item|].
    intros b j x tag o' s k' v Hj S' _ Hh Eb Et Em. rewrite lookup_delete_ne; [done|]. intros <-.
    rewrite bucket_set_item_vec in Hj. rewrite Eb, decide_True in Hj by done. subst b tag.
    destruct (vec_parts _ o (key_tag_bounds k)) as (T1 & _ & N1), (vec_parts _ o' (key_tag_bounds k)) as (T2 & _ & N2).
    rewrite (sl_vec _ _ _ _ _ _ _ _ S') in Hj.
    apply list_lookup_insert_Some in Hj as [(_ & ? & _)|[Hne Hj]]; [congruence|].
    apply Hne. eapply (ci_tags _ _ _ _ I); [exact Hi|exact Hj|done..|congruence].
  - apply wp_ret. split; [|split; [done|]].
    + apply (cache_inv_map T m); [done|]. intros b j x tag o' s k' v Hj S' _ Hh Eb Et Em.
      rewrite lookup_delete_ne; [done|]. intros <-. subst b.
      by apply (find_None T m t l k I Hk E j x tag o' s k v Hj S' Hh Et).
    + intros Hp. destruct (find_present T m t l k I Hk Hp) as (? & ? & ? & _). congruence.
Qed.

Lemma test_spec T m t l k :
  cache_inv T m t l -> wf_key k ->
  wp (mehcached_test k.1.1 k.2 k.1.2) (fun r t' => t' = t /\ (present t l k -> r = true)) t.
Proof using HK HB.
  intros I Hk. unfold mehcached_test. apply wp_bind. unfold massert at 1, wp at 1.
  rewrite key_length_ok by done. apply wp_bind. unfold get, wp at 1. rewrite (calc_bucket T m t l) by done.
  change (mehcached_calc_tag k.1.1) with (key_tag k). apply wp_ret. split; [done|]. intros Hp.
  by destruct (find_present T m t l k I Hk Hp) as (i & o & -> & _).
Qed.

(** ** Increment *)
Lemma increment_reads p l o s k v :
  pool_inv K p l -> o mod 8 = 0 -> holds p l o s k v ->
  MEHCACHED_VALUE_LENGTH (kv_length_vec p (o mod 2 ^ 48)) = v.1.1 /\
  (v.1.1 = 8 -> exists w, v = (8, [w], v.2) /\
     copy_out p (o mod 2 ^ 48) (value_word k.1.2) 8 !!! 0%nat = w).
Proof using HK.
  intros P Ho [_ Hi].
  destruct (item_reads K ltac:(lia) _ o s k v (pool_frame _ _ P) Ho Hi) as (-> & _ & _ & _ & E5).
  destruct Hi as [Hk Hv _ _ _ _ _ _]. destruct k as [[h kn] kw], v as [[vn vw] e].
  cbn [fst snd] in *. destruct Hk as (_ & Hkn & _), Hv as (Hvn & Hvl & _).
  destruct (kv_lengths kn vn) as (_ & _ & ->); [lia..|]. split; [done|]. intros ->.
  rewrite E5 by lia. change (words_of 8) with 1%nat in *.
  destruct vw as [|w [|? ?]]; [done| |done]. by exists w.
Qed.

Lemma increment_table_spec T m t l k inc e :
  cache_inv T m t l -> wf_key k -> in_width 32 e ->
  wp (mehcached_increment k.1.1 k.2 k.1.2 inc e)
    (fun r t' => pool_tail (alloc t') = pool_tail (alloc t) /\
       ((r = None /\ cache_inv T m t' l) \/
        exists w e0, m !! k = Some (8, [w], e0) /\ r = Some (u64 (w + inc)) /\
          cache_inv T (<[k := (8, [u64 (w + inc)], e)]> m) t' l)) t.
Proof using HK HB.
  intros I Hk He. unfold mehcached_increment. apply wp_bind. unfold massert at 1, wp at 1.
  rewrite key_length_ok by done. apply wp_bind. unfold get, wp at 1. rewrite (calc_bucket T m t l) by done.
  change (mehcached_calc_tag k.1.1) with (key_tag k).
  destruct (mehcached_find_item_index _ _ _ _ _ _) as [i|] eqn:E; [|apply wp_ret; tauto].
  destruct (find_Some T m t l k i I Hk E) as (o & Hi & S & Hlive).
  assert (item_vec t (key_bucket k) i = MEHCACHED_ITEM_VEC (key_tag k) (o mod 2 ^ 48)) as ->
    by (by apply list_lookup_total_correct).
  destruct (vec_parts _ o (key_tag_bounds k)) as (_ & -> & _).
  pose proof (ci_pool _ _ _ _ I) as P. rewrite (slot_valid T _ l m _ _ _ o P S).
  destruct (Z.leb_spec (pool_tail (alloc t) - o) (2 ^ K)) as [Hle|Hgt]; cbn [negb]; [|apply wp_ret; tauto].
  destruct (Hlive Hle) as (s & v & Hh & Em). pose proof (sl_off _ _ _ _ _ _ _ _ S) as [Ho _].
  destruct (increment_reads _ l o s k v P Ho Hh) as [-> Hr].
  destruct (Z.eqb_spec v.1.1 8) as [E8|]; cbn [negb]; [|apply wp_ret; tauto].
  destruct (Hr E8) as (w & Ev & ->). rewrite Ev in Hh, Em.
  destruct (increment_spec K ltac:(lia) (pool_head (alloc t) / 8) (alloc t) o s k w v.2 (u64 (w + inc)) e
    (pool_frame _ _ P) (proj1 (logged_window _ l o s P (proj1 Hh))) (proj2 Hh) He) as [Hnew W].
  apply wp_bind. unfold in_pool at 1, zoom, modify, wp at 1. apply wp_bind.
  unfold in_pool, zoom, modify, wp at 1. apply wp_ret. split; [apply W|]. right.
  exists w, v.2. split; [done|]. split; [done|]. cbn [set_alloc alloc].
  exact (write_in_place T m t l k _ _ o s i _ _ I Hi S Hh Hnew W).
Qed.

(** ** Cleanup *)
Lemma clean_items_lookup p l i x :
  clean_items p l !! i = Some x -> x <> 0 ->
  l !! i = Some x /\ mehcached_pool_is_valid p (MEHCACHED_ITEM_OFFSET x) = true.
Proof.
  unfold clean_items. rewrite list_lookup_fmap. destruct (l !! i) as [y|]; cbn; [|done].
  destruct (Z.eqb_spec y 0) as [->|]; [by intros [= <-]|].
  destruct (mehcached_pool_is_valid p (MEHCACHED_ITEM_OFFSET y)) eqn:E; cbn; intros [= <-]; done.
Qed.

Lemma clean_items_valid p l i x :
  l !! i = Some x -> mehcached_pool_is_valid p (MEHCACHED_ITEM_OFFSET x) = true ->
  clean_items p l !! i = Some x.
Proof. unfold clean_items. rewrite list_lookup_fmap. intros -> E. cbn. rewrite E. by destruct (x =? 0). Qed.

(** Cleaning bucket [T] once the tail is past it. *)
Lemma clean_step T m t l :
  cache_inv T m t l -> 0 <= T -> (T + 1) * 2 ^ (47 - B) <= pool_tail (alloc t) ->
  cache_inv (T + 1) m (clean_bucket (T mod 2 ^ B) t) l.
Proof.
  intros I HT Hpast. set (t' := clean_bucket _ t).
  assert (cache_inv T m t' l) as I'.
  { eapply (cache_inv_drop T m t); try done; intros b; unfold t'; rewrite bucket_clean.
    - destruct (decide _) as [->|]; [apply length_map|done].
    - intros i x. destruct (decide _) as [->|]; [|done]. intros Hx Hx0. by apply clean_items_lookup in Hx as []. }
  pose proof I' as [P Hm Hr Hmth Hl Htag Hs]. split; try done. intros b i x Hi Hx0.
  destruct (Hs b i x Hi Hx0) as (tag & o & S). exists tag, o. pose proof S as [S1 S2 Sb S3 S4 S5 S6].
  split; try done. intros q Hq Hqb. destruct (decide (q = T)) as [->|Hne]; [|apply S5; [lia|done]].
  unfold t' in Hi. rewrite bucket_clean, decide_True in Hi by done.
  apply clean_items_lookup in Hi as [_ Hv]; [|done]. change (alloc t) with (alloc t') in Hv, Hpast.
  rewrite S1 in Hv. destruct (vec_parts tag o S2) as (_ & Eo & _). rewrite Eo in Hv.
  rewrite (slot_valid T _ l m b x tag o P S) in Hv. apply Z.leb_le in Hv. lia.
Qed.

Lemma present_clean T m t l k b : cache_inv T m t l -> present t l k -> present (clean_bucket b t) l k.
Proof using HK HB.
  intros I (i & tag & o & s & v & Hi & Ht & Et & Hlive & Hh). exists i, tag, o, s, v.
  split; [|done]. rewrite bucket_clean. destruct (decide (key_bucket k = b)) as [<-|]; [|done].
  apply clean_items_valid; [done|]. destruct (vec_parts tag o Ht) as (_ & -> & _).
  pose proof (ci_pool _ _ _ _ I) as P. pose proof (logged_bounds _ _ _ _ (pi_log _ _ _ P) (proj1 Hh)).
  pose proof (pi_head _ _ _ P). pose proof (pi_tail _ _ _ P). pose proof pow_K.
  rewrite is_valid_eq, (pi_size _ _ _ P) by lia. by apply Z.leb_le.
Qed.

Lemma cleanup_loop_spec n T m t l :
  cache_inv T m t l -> 0 <= T -> (T + Z.of_nat n) * 2 ^ (47 - B) <= pool_tail (alloc t) ->
  Z.of_nat n < 2 ^ B ->
  wp (cleanup_loop n (T mod 2 ^ B) ((T + Z.of_nat n) mod 2 ^ B))
    (fun _ t' => cache_inv (T + Z.of_nat n) m t' l /\ alloc t' = alloc t /\
       forall k, present t l k -> present t' l k) t.
Proof using HK HB.
  revert T t. induction n as [|n IH]; intros T t I HT Hpast Hn; cbn [cleanup_loop].
  { rewrite Z.add_0_r, Z.eqb_refl. by apply wp_ret. }
  destruct pow_B as (HB2 & Hr0 & HBr).
  destruct (Z.eqb_spec (T mod 2 ^ B) ((T + Z.of_nat (Datatypes.S n)) mod 2 ^ B)) as [E|_].
  { apply window_inj in E; lia. }
  assert (cache_inv (T + 1) m (clean_bucket (T mod 2 ^ B) t) l) as I1.
  { apply clean_step; [done|done|]. eapply Z.le_trans; [|exact Hpast].
    apply Z.mul_le_mono_nonneg_r; lia. }
  apply wp_bind. unfold modify, wp at 1. apply wp_bind. unfold get, wp at 1.
  rewrite (ci_mask _ _ _ _ I1), land_mask by lia.
  rewrite wrap_wrap by lia. unfold wrap. rewrite Zplus_mod_idemp_l.
  replace (T + Z.of_nat (Datatypes.S n)) with (T + 1 + Z.of_nat n) in * by lia.
  eapply wp_mono; [|apply (IH (T + 1)); [done|lia|done|lia]].
  intros _ t' (I' & Ea & Hp). split; [done|]. split; [done|]. intros k Hk.
  apply Hp. by apply (present_clean T m).
Qed.

(** The bucket that a tail stands for, from its low 48 bits. *)
Lemma tail_bucket x : ((x mod 2 ^ 48) / 2 ^ (47 - B)) mod 2 ^ B = (x / 2 ^ (47 - B)) mod 2 ^ B.
Proof using HB.
  destruct pow_B as (HB2 & Hr0 & HBr). rewrite (Z.div_mod x (2 ^ 48)) at 2 by lia.
  replace (2 ^ 48 * (x / 2 ^ 48) + x mod 2 ^ 48) with
    (x mod 2 ^ 48 + x / 2 ^ 48 * 2 * 2 ^ B * 2 ^ (47 - B))
    by (rewrite <- (Z.mul_assoc (_ * 2)), HBr; lia).
  by rewrite Z.div_add, Z.mod_add by lia.
Qed.

Lemma cleanup_bucket_spec tail0 m t l :
  let T := tail0 / 2 ^ (47 - B) in
  let T' := pool_tail (alloc t) / 2 ^ (47 - B) in
  cache_inv T m t l -> 0 <= tail0 <= pool_tail (alloc t) -> T' - T < 2 ^ B ->
  wp (mehcached_cleanup_bucket (tail0 mod 2 ^ 48) (pool_tail (alloc t)))
    (fun _ t' => cache_inv T' m t' l /\ alloc t' = alloc t /\
       forall k, present t l k -> present t' l k) t.
Proof using HK HB.
  intros T T' I Ht HTT. destruct pow_B as (HB2 & Hr0 & HBr).
  assert (0 <= T <= T') as HT by (split; [apply Z.div_pos; lia|apply Z.div_le_mono; lia]).
  unfold mehcached_cleanup_bucket. apply wp_bind. unfold get, wp at 1.
  rewrite (ci_rshift _ _ _ _ I), (ci_mask _ _ _ _ I), !land_mask, !Z.shiftr_div_pow2 by lia.
  rewrite wrap_wrap by lia. unfold wrap. rewrite tail_bucket. fold T T'.
  rewrite <- Zminus_mod, (Z.mod_small (T' - T)) by lia.
  replace (T' mod 2 ^ B) with ((T + Z.of_nat (Z.to_nat (T' - T))) mod 2 ^ B) by (f_equal; lia).
  eapply wp_mono; [|apply (cleanup_loop_spec (Z.to_nat (T' - T)) T m t l I)]; [|lia| |lia].
  - intros ? t'. cbn beta. replace (T + Z.of_nat (Z.to_nat (T' - T))) with T' by lia. done.
  - replace (T + Z.of_nat (Z.to_nat (T' - T))) with T' by lia. unfold T'.
    rewrite Z.mul_comm. by apply Z.mul_div_le.
Qed.

(** ** Insertion *)

(** After a cleanup no item is more than 2^47 bytes and the pool behind. *)
Lemma stable_dist m t l b x tag o :
  let T := pool_tail (alloc t) / 2 ^ (47 - B) in
  cache_inv T m t l -> slot (alloc t) l m T b x tag o ->
  pool_tail (alloc t) - o < 2 ^ 47 + 2 ^ K.
Proof using HK HB.
  intros T I S. pose proof (sl_bucket _ _ _ _ _ _ _ _ S) as Hb. destruct pow_B as (HB2 & Hr0 & HBr).
  pose proof (sl_off _ _ _ _ _ _ _ _ S) as [_ Ho]. set (tl := pool_tail (alloc t)) in *.
  pose proof (Z.mul_succ_div_gt tl (2 ^ (47 - B)) Hr0) as Hgt. fold T in Hgt.
  set (R := 2 ^ (47 - B)) in *. destruct (Z.lt_ge_cases T (2 ^ B)) as [Hlt|Hge]; [nia|].
  set (q := T - 1 - (T - 1 - b) mod 2 ^ B). pose proof (Z.mod_pos_bound (T - 1 - b) (2 ^ B) ltac:(lia)).
  assert (q mod 2 ^ B = b) as Eq.
  { unfold q. rewrite Zminus_mod_idemp_r. replace (T - 1 - (T - 1 - b)) with b by lia.
    apply Z.mod_small. lia. }
  pose proof (sl_phase _ _ _ _ _ _ _ _ S q ltac:(lia) Eq) as Hp. fold R in Hp. nia.
Qed.

Lemma key_bucket_bounds k : 0 <= key_bucket k < 2 ^ B.
Proof using HB. unfold key_bucket. rewrite land_mask by lia. apply wrap_range. lia. Qed.

(** [p] is the pool before an allocation of [s] bytes, [p1] after it, and [p2] after the
    new item was written. *)
Section append.
Context p p1 p2 (l1 l2 : list Z) (s : Z) k v.
Context (P : pool_inv K p (l1 ++ l2)) (P1 : pool_inv K p1 (l2 ++ [s])).
Context (Eh : pool_head p1 = pool_head p + total l1) (Et : pool_tail p1 = pool_tail p + s).
Context (Hout : forall o so, logged (pool_head p) l1 o so -> 2 ^ K < pool_tail p1 - o).
Context (Hsame : forall a, Z.abs (a - pool_tail p / 8) < 2 ^ (K - 3) -> a <> pool_tail p / 8 ->
          log_word p1 a = log_word p a).
Context (Hnew : item_at p2 (pool_tail p) s k v) (W : wrote K (pool_head p1 / 8) p1 p2 (pool_tail p) s).

Lemma append_logged o so :
  logged (pool_head p2) (l2 ++ [s]) o so <->
    (logged (pool_head p) (l1 ++ l2) o so /\ pool_tail p1 - o <= 2 ^ K) \/ (o = pool_tail p /\ so = s).
Proof using P P1 Eh Et Hout W.
  rewrite (sf_head _ _ (wr_frame _ _ _ _ _ _ W)). by apply (push_tail_logged K).
Qed.

Lemma append_new : holds p2 (l2 ++ [s]) (pool_tail p) s k v.
Proof using P P1 Eh Et Hout W Hnew. split; [|done]. apply append_logged. by right. Qed.

Lemma append_pool : pool_inv K p2 (l2 ++ [s]).
Proof using HK P P1 Eh Et Hout W.
  eapply (pool_inv_wrote p1); [done| |done]. rewrite <- (sf_head _ _ (wr_frame _ _ _ _ _ _ W)).
  apply append_logged. by right.
Qed.

Lemma append_kept o so k' v' :
  pool_tail p1 - o <= 2 ^ K -> holds p (l1 ++ l2) o so k' v' -> holds p2 (l2 ++ [s]) o so k' v'.
Proof using HK P P1 Eh Et Hout Hsame W.
  intros Hlive [Lo Hi].
  assert (logged (pool_head p2) (l2 ++ [s]) o so) as Lo2 by (apply append_logged; by left).
  split; [done|]. pose proof (sf_head _ _ (wr_frame _ _ _ _ _ _ W)) as Eh2. rewrite Eh2 in Lo2.
  pose proof (logged_bounds _ _ _ _ (pi_log _ _ _ P) Lo) as (H1 & H2 & H3 & H4 & _).
  destruct (logged_window p (l1 ++ l2) o so P Lo) as [(A1 & _ & A3 & A4) _].
  destruct (pi_tail _ _ _ P) as [_ Ht8]. pose proof (pow_words K ltac:(lia)) as EK.
  assert (logged (pool_head p2) (l2 ++ [s]) (pool_tail p) s) as Lt by (apply append_logged; by right).
  rewrite Eh2 in Lt. pose proof (logged_bounds _ _ _ _ (pi_log _ _ _ P1) Lt) as (_ & _ & Hs8 & _).
  eapply (item_wrote p1 p2 _ (pool_tail p) s); [exact P1|exact Lt|exact Lo2|lia|done|].
  revert Hi. apply item_at_ext. intros a Ha.
  set (X := 2 ^ (K - 3)) in *. assert (o / 8 + so / 8 <= pool_tail p / 8) by div_lia.
  assert (pool_tail p / 8 - o / 8 <= X) by div_lia. apply Hsame; lia.
Qed.

Lemma append_slot_new m T :
  s <= 2 ^ 21 -> T * 2 ^ (47 - B) <= pool_tail p ->
  slot p2 (l2 ++ [s]) (<[k := v]> m) T (key_bucket k)
    (MEHCACHED_ITEM_VEC (key_tag k) (pool_tail p mod 2 ^ 48)) (key_tag k) (pool_tail p).
Proof using HK HB P P1 Eh Et Hout Hnew W.
  intros Hs HT. pose proof append_new as Hh. pose proof (sf_tail _ _ (wr_frame _ _ _ _ _ _ W)) as Et2.
  pose proof pow_K. pose proof pow_B as (_ & Hr0 & _).
  pose proof (pi_tail _ _ _ P) as [Htl Ht8]. pose proof (pi_head _ _ _ P).
  destruct (logged_bounds _ _ _ _ (pi_log _ _ _ append_pool) (proj1 Hh)) as (_ & _ & Hs8 & _).
  split; [done|apply key_tag_bounds|apply key_bucket_bounds|lia|lia| |].
  - intros q Hq _. nia.
  - intros _. exists s, k, v. by rewrite lookup_insert_eq.
Qed.

Lemma append_slot_kept m T b y tag o :
  s <= 2 ^ 21 -> slot p (l1 ++ l2) m T b y tag o -> pool_tail p - o < 2 ^ 47 + 2 ^ K ->
  ~ (key_bucket k = b /\ key_tag k = tag) ->
  slot p2 (l2 ++ [s]) (<[k := v]> m) T b y tag o.
Proof using HK HB P P1 Eh Et Hout Hsame Hnew W.
  intros Hs S Hd Hk. pose proof S as [S1 S2 Sb S3 S4 S5 S6].
  pose proof (sf_tail _ _ (wr_frame _ _ _ _ _ _ W)) as Et2. pose proof pow_K.
  destruct (logged_bounds _ _ _ _ (pi_log _ _ _ append_pool) (proj1 append_new)) as (_ & _ & Hs8 & _).
  split; try done; [lia|lia|]. rewrite Et2, Et. intros Hlive.
  destruct (S6 ltac:(lia)) as (so & k' & v' & Hh & Eb & Etag & Em). exists so, k', v'.
  split; [apply append_kept; [lia|done]|]. do 2 (split; [done|]).
  rewrite lookup_insert_ne; [done|]. intros <-. by apply Hk.
Qed.
End append.

(** No other item of the bucket has the tag of [k]. *)
Definition others_differ t k i : Prop :=
  forall j y, bucket t (key_bucket k) !! j = Some y -> j <> i -> y <> 0 -> MEHCACHED_TAG y <> key_tag k.

Lemma put_cases b0 i x t b j y :
  bucket (set_item_vec b0 i x t) b !! j = Some y ->
  (b = b0 /\ j = i /\ y = x) \/ (bucket t b !! j = Some y /\ (b = b0 -> j <> i)).
Proof.
  rewrite bucket_set_item_vec. destruct (decide (b = b0)) as [->|]; [|by right].
  intros [(<- & <- & _)|[Hne Hy]]%list_lookup_insert_Some; [by left|right]. split; [done|congruence].
Qed.

Lemma append_item m t p1 p2 l1 l2 s k v i :
  let p := alloc t in let T := pool_tail p / 2 ^ (47 - B) in
  let t' := set_item_vec (key_bucket k) i (MEHCACHED_ITEM_VEC (key_tag k) (pool_tail p mod 2 ^ 48))
              (set_alloc p2 t) in
  cache_inv T m t (l1 ++ l2) -> (i < MEHCACHED_ITEMS_PER_BUCKET)%nat -> others_differ t k i ->
  s <= 2 ^ 21 -> pool_inv K p1 (l2 ++ [s]) -> pool_head p1 = pool_head p + total l1 ->
  pool_tail p1 = pool_tail p + s ->
  (forall o so, logged (pool_head p) l1 o so -> 2 ^ K < pool_tail p1 - o) ->
  (forall a, Z.abs (a - pool_tail p / 8) < 2 ^ (K - 3) -> a <> pool_tail p / 8 ->
     log_word p1 a = log_word p a) ->
  item_at p2 (pool_tail p) s k v -> wrote K (pool_head p1 / 8) p1 p2 (pool_tail p) s ->
  cache_inv T (<[k := v]> m) t' (l2 ++ [s]) /\ present t' (l2 ++ [s]) k.
Proof using HK HB.
  intros p T t' I Hi Hoth Hs P1 Eh Et Hout Hsame Hnew W. pose proof I as [P Hm Hr Hmth Hl Htag Hslot].
  destruct (vec_parts _ (pool_tail p) (key_tag_bounds k)) as (Etag & _ & Hx0). pose proof pow_K.
  pose proof (append_new p p1 p2 l1 l2 s k v P P1 Eh Et Hout Hnew W) as Hh. split.
  - split; try done.
    + exact (append_pool p p1 p2 l1 l2 s P P1 Eh Et Hout W).
    + intros b. unfold t'. rewrite bucket_set_item_vec. destruct (decide _) as [->|]; [|apply Hl].
      rewrite length_insert. apply Hl.
    + intros b j j' x y [(-> & -> & ->)|[Hj Hne]]%put_cases [(E & -> & ->)|[Hj' Hne']]%put_cases Hx Hy Exy.
      * done.
      * destruct (Hoth j' y Hj'); [auto|done|congruence].
      * destruct (Hoth j x); [by rewrite <- E|auto|done|congruence].
      * by apply (Htag b j j' x y).
    + intros b j y [(-> & -> & ->)|[Hj Hne]]%put_cases Hy.
      * exists (key_tag k), (pool_tail p). apply (append_slot_new p p1 p2 l1 l2 s k v); try done.
        unfold T. rewrite Z.mul_comm. apply Z.mul_div_le, pow_B.
      * destruct (Hslot b j y Hj Hy) as (tag & o & S). exists tag, o.
        apply (append_slot_kept p p1 p2 l1 l2 s k v); try done; [by eapply stable_dist|].
        intros [<- <-]. apply (Hoth j y Hj); [auto|done|].
        rewrite (sl_vec _ _ _ _ _ _ _ _ S). apply vec_parts, key_tag_bounds.
  - exists i, (key_tag k), (pool_tail p), s, v. split; [|split; [apply key_tag_bounds|]].
    + unfold t'. rewrite bucket_set_item_vec, decide_True by done. apply list_lookup_insert_eq.
      change (bucket (set_alloc p2 t)) with (bucket t). by rewrite Hl.
    + split; [done|]. split; [|done]. cbn. rewrite (sf_tail _ _ (wr_frame _ _ _ _ _ _ W)). lia.
Qed.

Lemma wp_in_pool {A} (c : M mehcached_pool A) Q t :
  wp c (fun a p' => Q a (set_alloc p' t)) (alloc t) -> wp (in_pool c) Q t.
Proof. unfold wp, in_pool, zoom. by destruct (c (alloc t)). Qed.

(** Between calls every bucket up to the tail has been cleaned. *)
Definition stable m t l : Prop := cache_inv (pool_tail (alloc t) / 2 ^ (47 - B)) m t l.

Lemma few_buckets x s :
  0 <= s <= 2 ^ 21 -> (x + s) / 2 ^ (47 - B) - x / 2 ^ (47 - B) < 2 ^ B.
Proof using HB.
  intros Hs. destruct pow_B as (HB2 & Hr0 & HBr). pose proof (Z.mul_succ_div_gt x (2 ^ (47 - B)) Hr0).
  pose proof (Z.mul_div_le (x + s) (2 ^ (47 - B)) Hr0). set (R := 2 ^ (47 - B)) in *. nia.
Qed.

Lemma set_new_item_spec m t l k v i :
  stable m t l -> wf_key k -> wf_val v -> (i < MEHCACHED_ITEMS_PER_BUCKET)%nat -> others_differ t k i ->
  pool_tail (alloc t) + 2 ^ 21 < 2 ^ 63 ->
  wp (set_new_item (key_bucket k) i (key_tag k) k.1.1 k.2 k.1.2 v.1.2 v.1.1 v.2
        (item_size_for k.1.2 v.1.1))
    (fun r t' => r = true /\ exists l', stable (<[k := v]> m) t' l' /\ present t' l' k /\
       pool_tail (alloc t) <= pool_tail (alloc t') <= pool_tail (alloc t) + 2 ^ 21) t.
Proof using HK HB.
  intros I Hk Hv Hi Hoth Hb. pose proof (ci_pool _ _ _ _ I) as P. pose proof pow_K.
  assert (0 <= k.1.2 <= 255) as Hkn by (destruct k as [[? ?] ?]; apply Hk).
  assert (0 <= v.1.1 <= 1048575) as Hvn by (destruct v as [[? ?] ?]; apply Hv).
  rewrite item_size_eq by done. destruct (item_bytes_bound k.1.2 v.1.1 Hkn Hvn) as [Hs Hs8].
  set (s := item_bytes k.1.2 v.1.1) in *. unfold set_new_item. apply wp_bind, wp_in_pool.
  eapply wp_mono; [|apply (push_tail_spec K _ l s P); [lia|done|lia]].
  intros off p1 (-> & l1 & l2 & -> & P1 & Eh & Et & Hout & Hsame).
  apply wp_bind. unfold get, wp at 1. apply wp_bind, wp_in_pool. cbn [set_alloc alloc].
  assert (logged (pool_head p1) (l2 ++ [s]) (pool_tail (alloc t)) s) as Lt
    by (apply (push_tail_logged K (alloc t) s p1 l1 l2); try done; by right).
  eapply wp_mono; [|apply (set_item_spec K ltac:(lia) (pool_head p1 / 8) p1 (pool_tail (alloc t)) s k v);
    [by eapply pool_frame|by apply (logged_window p1 (l2 ++ [s]))|done|done|done]].
  intros _ p2 [Hnew W]. apply wp_bind. unfold modify, wp at 1.
  destruct (append_item m t p1 p2 l1 l2 s k v i I Hi Hoth ltac:(lia) P1 Eh Et Hout Hsame Hnew W) as [I2 Hp].
  set (t2 := set_item_vec _ _ _ (set_alloc p2 t)) in *.
  change (set_item_vec _ _ _ _) with t2. apply wp_bind.
  assert (pool_tail p1 = pool_tail (alloc t2)) as Et2 by (symmetry; apply (wr_frame _ _ _ _ _ _ W)).
  rewrite Et2. assert (pool_tail (alloc t2) = pool_tail (alloc t) + s) as Et3 by congruence.
  pose proof (pi_head _ _ _ P). pose proof (pi_tail _ _ _ P).
  eapply wp_mono; [|apply (cleanup_bucket_spec _ (<[k := v]> m) t2 (l2 ++ [s]) I2); [lia|]].
  - intros _ t3 (I3 & Ea & Hkeep). apply wp_ret. split; [done|]. exists (l2 ++ [s]). unfold stable.
    rewrite Ea. split; [done|]. split; [by apply Hkeep|]. lia.
  - rewrite Et3. apply few_buckets. lia.
Qed.

(** ** Choosing the place of a new item *)
Lemma empty_or_oldest_bound t vs i oldest d :
  (empty_or_oldest t vs i oldest d < i + length vs)%nat \/ empty_or_oldest t vs i oldest d = oldest.
Proof.
  revert i oldest d. induction vs as [|x vs IH]; intros i oldest d; cbn [empty_or_oldest length]; [by right|].
  destruct (x =? 0); [left; lia|]. destruct (_ <? d).
  - destruct (IH (Datatypes.S i) i (Z.land (u64 (pool_tail (alloc t) - MEHCACHED_ITEM_OFFSET x))
      MEHCACHED_ITEM_OFFSET_MASK)) as [?| ->]; left; lia.
  - destruct (IH (Datatypes.S i) oldest d) as [?| ->]; [left; lia|by right].
Qed.

Lemma others_tag T m t l k i x :
  cache_inv T m t l -> bucket t (key_bucket k) !! i = Some x -> MEHCACHED_TAG x = key_tag k ->
  (i < MEHCACHED_ITEMS_PER_BUCKET)%nat /\ others_differ t k i.
Proof.
  intros I Hi Ex. pose proof (key_tag_bounds k) as Hb. split.
  - rewrite <- (ci_len _ _ _ _ I (key_bucket k)). by eapply lookup_lt_Some.
  - intros j y Hj Hne Hy Ey. apply Hne. eapply (ci_tags _ _ _ _ I); [exact Hj|exact Hi|done| |congruence].
    intros ->. change (MEHCACHED_TAG 0) with 0 in Ex. lia.
Qed.

Lemma others_none T m t l k :
  cache_inv T m t l -> mehcached_find_same_tag t (key_bucket k) (key_tag k) = None ->
  (mehcached_find_empty_or_oldest t (key_bucket k) < MEHCACHED_ITEMS_PER_BUCKET)%nat /\
  forall i, others_differ t k i.
Proof.
  intros I E. split.
  - unfold mehcached_find_empty_or_oldest. pose proof (ci_len _ _ _ _ I (key_bucket k)) as El.
    destruct (empty_or_oldest_bound t (bucket t (key_bucket k)) 0 0 (u64 (-1))) as [Hb| ->];
      [by rewrite El in Hb|unfold MEHCACHED_ITEMS_PER_BUCKET; lia].
  - intros i j y Hj _ _ Ey. pose proof (first_index_None _ _ E j y Hj) as Hf. cbn in Hf.
    apply Z.eqb_neq in Hf. congruence.
Qed.

(** Replacing the value of an item that has room for it. *)
Lemma overwrite_spec m t l k v0 v o s i x :
  stable m t l -> wf_val v -> bucket t (key_bucket k) !! i = Some x ->
  slot (alloc t) l m (pool_tail (alloc t) / 2 ^ (47 - B)) (key_bucket k) x (key_tag k) o ->
  holds (alloc t) l o s k v0 -> item_bytes k.1.2 v.1.1 <= s -> pool_tail (alloc t) - o <= 2 ^ K ->
  wp (in_pool (mehcached_set_item_value (o mod 2 ^ 48) v.1.2 v.1.1 v.2))
    (fun _ t' => stable (<[k := v]> m) t' l /\ present t' l k /\
       pool_tail (alloc t') = pool_tail (alloc t)) t.
Proof using HK.
  intros I Hv Hi S Hh Hfit Hlive. pose proof (ci_pool _ _ _ _ I) as P. apply wp_in_pool.
  eapply wp_mono; [|apply (set_item_value_spec K ltac:(lia) (pool_head (alloc t) / 8) (alloc t) o s k v0 v);
    [by eapply pool_frame|apply (logged_window (alloc t) l); [done|apply Hh]|apply Hh|done|done]].
  intros _ p' [Hnew W]. pose proof (sf_tail _ _ (wr_frame _ _ _ _ _ _ W)) as Et.
  split; [|split; [|done]].
  - unfold stable. cbn [set_alloc alloc]. rewrite Et. by eapply write_in_place.
  - eapply present_write; try done. by rewrite <- (sl_vec _ _ _ _ _ _ _ _ S).
Qed.

Lemma set_spec m t l k v overwrite :
  stable m t l -> wf_key k -> wf_val v -> pool_tail (alloc t) + 2 ^ 21 < 2 ^ 63 ->
  wp (mehcached_set k.1.1 k.2 k.1.2 v.1.2 v.1.1 v.2 overwrite)
    (fun r t' => pool_tail (alloc t) <= pool_tail (alloc t') <= pool_tail (alloc t) + 2 ^ 21 /\
       ((overwrite = false /\ r = false /\ stable m t' l) \/
        (r = true /\ exists l', stable (<[k := v]> m) t' l' /\ present t' l' k))) t.
Proof using HK HB.
  intros I Hk Hv Hb. unfold mehcached_set. apply wp_bind. unfold massert at 1, wp at 1.
  rewrite key_length_ok by done. apply wp_bind. unfold massert at 1, wp at 1.
  assert (0 <= k.1.2 <= 255 /\ 0 <= v.1.1 <= 1048575) as [Hkn Hvn]
    by (destruct k as [[? ?] ?], v as [[? ?] ?]; split; [apply Hk|apply Hv]).
  rewrite (proj2 (Z.leb_le v.1.1 _)) by (change MEHCACHED_MAX_VALUE_LENGTH with 1048575; lia).
  apply wp_bind. unfold get, wp at 1. rewrite (calc_bucket _ m t l) by exact I.
  change (mehcached_calc_tag k.1.1) with (key_tag k). pose proof (ci_pool _ _ _ _ I) as P.
  assert (forall i, (i < MEHCACHED_ITEMS_PER_BUCKET)%nat /\ others_differ t k i ->
    wp (set_new_item (key_bucket k) i (key_tag k) k.1.1 k.2 k.1.2 v.1.2 v.1.1 v.2 (item_size_for k.1.2 v.1.1))
      (fun r t' => pool_tail (alloc t) <= pool_tail (alloc t') <= pool_tail (alloc t) + 2 ^ 21 /\
       ((overwrite = false /\ r = false /\ stable m t' l) \/
        (r = true /\ exists l', stable (<[k := v]> m) t' l' /\ present t' l' k))) t) as Hput.
  { intros i [Hi Ho]. eapply wp_mono; [|by apply (set_new_item_spec m t l k v i)].
    intros r t' (-> & l' & Hst & Hp & Ht). split; [done|]. right. split; [done|]. by exists l'. }
  destruct (mehcached_find_item_index _ _ _ _ _ _) as [i|] eqn:E.
  - destruct (find_Some _ m t l k i I Hk E) as (o & Hi & S & Hlive).
    destruct (vec_parts _ o (key_tag_bounds k)) as (Etag & Eo & _).
    destruct overwrite; cbn [negb]; [|apply wp_ret; split; [lia|by left]].
    assert (item_vec t (key_bucket k) i = MEHCACHED_ITEM_VEC (key_tag k) (o mod 2 ^ 48)) as ->
      by (by apply list_lookup_total_correct).
    rewrite Eo, (slot_valid _ _ l m _ _ _ o P S).
    destruct (Z.leb_spec (pool_tail (alloc t) - o) (2 ^ K)) as [Hle|]; cbn [andb];
      [|by apply Hput, (others_tag _ m t l k i _ I Hi)].
    destruct (Hlive Hle) as (s & v0 & Hh & _).
    rewrite (load_masked K ltac:(lia)) by (apply S || by eapply pool_frame). rewrite Z.add_0_r.
    destruct (logged_bounds _ _ _ _ (pi_log _ _ _ P) (proj1 Hh)) as (_ & _ & _ & _ & ->).
    rewrite item_size_eq in * by done.
    destruct (Z.leb_spec (item_bytes k.1.2 v.1.1) s) as [Hfit|]; [|by apply Hput, (others_tag _ m t l k i _ I Hi)].
    apply wp_bind. eapply wp_mono; [|by eapply (overwrite_spec m t l k v0 v o s i)].
    intros _ t' (I' & Hp & Et). apply wp_ret. split; [lia|]. right. split; [done|]. by exists l.
  - destruct (mehcached_find_same_tag t (key_bucket k) (key_tag k)) as [i|] eqn:E2.
    + apply Hput. apply first_index_Some in E2 as (x & Hi & Ex%Z.eqb_eq). by apply (others_tag _ m t l k i x I).
    + apply Hput. destruct (others_none _ m t l k I E2) as [H1 H2]. by split.
Qed.
End cache.
