(* ===== verification/MicaRun.v ===== *)
(** * MICA: sequences of calls

    A store as mica_server.cc sets it up, and what a sequence of calls on it returns,
    against a map from keys to values ([kv_step]): every call returns, and a lookup
    misses or returns the value last stored under its key.  Then two places where the
    store does not do what it is for: a table with move-to-head, and the choice of the
    item to evict. *)

From S2P Require Import Prelude Wire MicaUtil MicaPool MicaTable MicaStore MicaCache.

(** ** Set-up *)
Lemma rshift_loop_spec fuel r B :
  0 <= r <= 47 - B -> 0 <= B -> 47 - B - r < Z.of_nat fuel -> rshift_loop fuel r (2 ^ B) = 47 - B.
Proof.
  revert r. induction fuel as [|fuel IH]; intros r Hr HB Hf; [lia|]. cbn [rshift_loop].
  change (Z.shiftr (MEHCACHED_ITEM_OFFSET_MASK + 1) 1) with (2 ^ 47).
  rewrite Z.shiftr_div_pow2, <- Z.pow_sub_r by lia.
  destruct (decide (r = 47 - B)) as [->|Hne].
  - replace (47 - (47 - B)) with B by lia. by rewrite Z.ltb_irrefl.
  - rewrite (proj2 (Z.ltb_lt _ _)) by (apply Z.pow_lt_mono_r; lia). apply IH; lia.
Qed.

Lemma roundup2M_eq x : 0 <= x <= 2 ^ 46 -> MEHCACHED_ROUNDUP2M x = (x + 2097151) / 2097152 * 2097152.
Proof. intros. apply (roundup_eq 21); lia. Qed.

(** The pool that [mehcached_pool_init] makes. *)
Lemma pool_init_spec {S} d size cr cw (s : S) :
  0 <= size <= 2 ^ 46 ->
  exists K a, 21 <= K <= 46 /\ mehcached_pool_init true d size cr cw s = Ret a s /\
    pool_size a = 2 ^ K /\ pool_mask a = 2 ^ K - 1.
Proof.
  intros Hs. unfold mehcached_pool_init, mehcached_shm_adjust_size, MEHCACHED_MINIMUM_POOL_SIZE.
  set (x := if size <? 2097152 then 2097152 else size).
  assert (2097152 <= x <= 2 ^ 46) as Hx by (unfold x; destruct (Z.ltb_spec size 2097152); lia).
  rewrite roundup2M_eq by lia. set (y := (x + 2097151) / 2097152 * 2097152).
  assert (2 ^ 21 <= y <= 2 ^ 46) as Hy by (unfold y; div_lia).
  destruct (power_loop_spec 64 0 y s) as (j & Hj & E & Hup & Hlow); [lia| |lia|by left|].
  { change (0 + Z.of_nat 64 - 1) with 63. lia. }
  assert (21 <= j <= 46) as HK.
  { split.
    - apply (Z.pow_le_mono_r_iff 2); lia.
    - destruct Hlow as [->|Hlow]; [lia|]. assert (2 ^ (j - 1) < 2 ^ 46) as Hp by lia.
      apply Z.pow_lt_mono_r_iff in Hp; lia. }
  assert (2 ^ 21 <= 2 ^ j <= 2 ^ 46) as Hj2 by (split; apply Z.pow_le_mono_r; lia).
  assert (2 ^ j = 2 ^ (j - 21) * 2097152) as Ej
    by (change 2097152 with (2 ^ 21); rewrite <- Z.pow_add_r by lia; f_equal; lia).
  unfold bind at 1, mehcached_next_power_of_two. rewrite E.
  unfold bind, massert, ret. change (Z.shiftr MEHCACHED_ITEM_OFFSET_MASK 1) with (2 ^ 47 - 1).
  rewrite (proj2 (Z.leb_le _ _)) by lia. rewrite roundup2M_eq by lia.
  rewrite (proj2 (Z.eqb_eq _ _)) by div_lia.
  eexists j, _. split; [done|]. split; [reflexivity|]. split; [done|]. cbn.
  apply wrap_small. unfold in_width. lia.
Qed.

Lemma table_init_spec {S} d num_buckets size cr cw (s : S) :
  2 <= num_buckets <= 2 ^ 31 -> 0 <= size <= 2 ^ 46 ->
  exists K B t, 21 <= K <= 46 /\ 1 <= B <= 31 /\
    mehcached_table_init true d MEHCACHED_MTH_THRESHOLD_FIFO num_buckets 1 size cr cw s = Ret t s /\
    stable K B ∅ t [] /\ pool_tail (alloc t) = 0.
Proof.
  intros Hn Hs. destruct (pool_init_spec d size cr cw s Hs) as (K & a & HK & Ea & Esz & Em).
  destruct (power_loop_spec 64 0 num_buckets s) as (B & HB0 & Eb & Hup & Hlow); [lia| |lia|by left|].
  { change (0 + Z.of_nat 64 - 1) with 63. lia. }
  assert (1 <= B <= 31) as HB.
  { split; [destruct (decide (B = 0)) as [->|]; lia|]. destruct Hlow as [->|Hlow]; [lia|].
    assert (2 ^ (B - 1) < 2 ^ 31) as Hp by lia. apply Z.pow_lt_mono_r_iff in Hp; lia. }
  assert (2 ^ 1 <= 2 ^ B <= 2 ^ 31) as HB2 by (split; apply Z.pow_le_mono_r; lia).
  assert (2 ^ 21 <= 2 ^ K <= 2 ^ 46) as HK2 by (split; apply Z.pow_le_mono_r; lia).
  unfold mehcached_table_init. unfold bind at 1, massert at 1. rewrite (proj2 (Z.ltb_lt _ _)) by lia.
  do 3 (unfold bind at 1, massert at 1; cbn [Z.ltb Z.leb Z.eqb Z.compare Pos.compare Pos.compare_cont]).
  unfold bind at 1. change (1 =? 1)%positive with true. cbn iota beta. rewrite Eb. unfold bind at 1, massert at 1. change (Z.shiftl 1 32) with (2 ^ 32).
  rewrite (proj2 (Z.leb_le _ _)) by lia. unfold bind at 1, massert at 1. unfold bind at 1. rewrite Ea.
  rewrite (wrap_small 32 (2 ^ B)), wrap_small by (unfold in_width; lia).
  rewrite rshift_loop_spec by lia. eexists K, B, _. split; [done|]. split; [done|].
  split; [reflexivity|]. split; [|done]. split; try done.
  - split; cbn; try done; lia.
  - cbn. unfold MEHCACHED_MTH_THRESHOLD_FIFO. lia.
  - intros b i j x y Hi _ Hx. apply lookup_replicate in Hi as [-> _]. done.
  - intros b i x Hi Hx. apply lookup_replicate in Hi as [-> _]. done.
Qed.

(** ** Calls *)
Inductive kv_call :=
| CSet (k : kv_key) (v : kv_val) (overwrite : bool)
| CGet (k : kv_key) (buf : Z) (readonly : bool)
| CTest (k : kv_key)
| CDelete (k : kv_key)
| CIncrement (k : kv_key) (increment expire : Z).

Inductive kv_result :=
| RDone (b : bool)
| RValue (v : option kv_val)
| RCount (n : option Z).

Definition run_call (c : kv_call) : M mehcached_table kv_result :=
  match c with
  | CSet k v ow => let! b := mehcached_set k.1.1 k.2 k.1.2 v.1.2 v.1.1 v.2 ow in ret (RDone b)
  | CGet k buf ro => let! r := mehcached_get k.1.1 k.2 k.1.2 buf ro in ret (RValue r)
  | CTest k => let! b := mehcached_test k.1.1 k.2 k.1.2 in ret (RDone b)
  | CDelete k => let! b := mehcached_delete k.1.1 k.2 k.1.2 in ret (RDone b)
  | CIncrement k inc e => let! r := mehcached_increment k.1.1 k.2 k.1.2 inc e in ret (RCount r)
  end.

Fixpoint run_calls (cs : list kv_call) : M mehcached_table (list kv_result) :=
  match cs with
  | [] => ret []
  | c :: cs' => let! r := run_call c in let! rs := run_calls cs' in ret (r :: rs)
  end.

(** Keys of at most 255 and values of at most 1048575 bytes; buffers of at most 1500
    bytes, which [mehcached_get] asserts. *)
Definition wf_call (c : kv_call) : Prop :=
  match c with
  | CSet k v _ => wf_key k /\ wf_val v
  | CGet k buf _ => wf_key k /\ 0 <= buf <= 1500
  | CTest k | CDelete k => wf_key k
  | CIncrement k _ e => wf_key k /\ in_width 32 e
  end.

(** What a cache may do: a lookup may miss, and never returns anything but the value
    last stored. *)
Inductive kv_step (m : gmap kv_key kv_val) : kv_call -> kv_result -> gmap kv_key kv_val -> Prop :=
| step_set k v ow : kv_step m (CSet k v ow) (RDone true) (<[k := v]> m)
| step_kept k v : kv_step m (CSet k v false) (RDone false) m
| step_miss k buf ro : kv_step m (CGet k buf ro) (RValue None) m
| step_hit k buf ro v : m !! k = Some v -> kv_step m (CGet k buf ro) (RValue (Some (view v buf))) m
| step_test k b : kv_step m (CTest k) (RDone b) m
| step_delete k b : kv_step m (CDelete k) (RDone b) (delete k m)
| step_uncounted k inc e : kv_step m (CIncrement k inc e) (RCount None) m
| step_counted k inc e w e0 : m !! k = Some (8, [w], e0) ->
    kv_step m (CIncrement k inc e) (RCount (Some (u64 (w + inc)))) (<[k := (8, [u64 (w + inc)], e)]> m).

Inductive kv_steps : gmap kv_key kv_val -> list kv_call -> list kv_result -> gmap kv_key kv_val -> Prop :=
| steps_nil m : kv_steps m [] [] m
| steps_cons m c r m' cs rs m'' :
    kv_step m c r m' -> kv_steps m' cs rs m'' -> kv_steps m (c :: cs) (r :: rs) m''.

Section calls.
Context (K B : Z) (HK : 21 <= K <= 46) (HB : 1 <= B <= 31).

Lemma kv_call_spec m t l c :
  stable K B m t l -> wf_call c -> pool_tail (alloc t) + 2 ^ 21 < 2 ^ 63 ->
  wp (run_call c) (fun r t' => exists m' l', kv_step m c r m' /\ stable K B m' t' l' /\
    pool_tail (alloc t') <= pool_tail (alloc t) + 2 ^ 21) t.
Proof using HK HB.
  intros I Hc Hb. destruct c as [k v ow|k buf ro|k|k|k inc e]; cbn [run_call wf_call] in *; apply wp_bind.
  - eapply wp_mono; [|apply (set_spec K B HK HB m t l k v ow I); [apply Hc..|done]].
    intros r t' [Ht [(-> & -> & I')|(-> & l' & I' & _)]]; apply wp_ret.
    + exists m, l. split; [constructor|]. split; [done|lia].
    + exists (<[k := v]> m), l'. split; [constructor|]. split; [done|lia].
  - eapply wp_mono; [|apply (get_spec K B HK HB _ m t l k buf ro I); apply Hc].
    intros r t' (I' & Ea & _ & Hr). apply wp_ret. exists m, l. unfold stable. rewrite Ea.
    split; [|split; [done|lia]]. destruct Hr as [->|(v & Em & ->)]; by constructor.
  - eapply wp_mono; [|by apply (test_spec K B HK HB _ m t l k I)].
    intros r t' [-> _]. apply wp_ret. exists m, l. split; [constructor|]. split; [done|lia].
  - eapply wp_mono; [|by apply (delete_spec K B HK HB _ m t l k I)].
    intros r t' (I' & Ea & _). apply wp_ret. exists (delete k m), l. unfold stable. rewrite Ea.
    split; [constructor|]. split; [done|lia].
  - eapply wp_mono; [|apply (increment_table_spec K B HK HB _ m t l k inc e I); apply Hc].
    intros r t' [Et [[-> I']|(w & e0 & Em & -> & I')]]; apply wp_ret; unfold stable; rewrite Et.
    + exists m, l. split; [constructor|]. split; [done|lia].
    + exists (<[k := (8, [u64 (w + inc)], e)]> m), l. split; [by econstructor|]. split; [done|lia].
Qed.

Lemma kv_calls_spec m t l cs :
  stable K B m t l -> Forall wf_call cs ->
  pool_tail (alloc t) + Z.of_nat (length cs) * 2 ^ 21 < 2 ^ 63 ->
  wp (run_calls cs) (fun rs t' => exists m' l', kv_steps m cs rs m' /\ stable K B m' t' l' /\
    pool_tail (alloc t') <= pool_tail (alloc t) + Z.of_nat (length cs) * 2 ^ 21) t.
Proof using HK HB.
  intros I Hc. revert m t l I. induction Hc as [|c cs Hc _ IH]; intros m t l I Hb; cbn [run_calls].
  { apply wp_ret. exists m, l. split; [constructor|]. split; [done|]. cbn. lia. }
  cbn [length] in *. apply wp_bind. eapply wp_mono; [|apply (kv_call_spec m t l c I Hc); lia].
  intros r t1 (m1 & l1 & Hs & I1 & Ht1). apply wp_bind.
  eapply wp_mono; [|apply (IH m1 t1 l1 I1); lia].
  intros rs t2 (m2 & l2 & Hss & I2 & Ht2). apply wp_ret. exists m2, l2.
  split; [by econstructor|]. split; [done|lia].
Qed.

(** Storing, then looking up. *)
Lemma set_get_spec m t l k v buf ro :
  stable K B m t l -> wf_key k -> wf_val v -> 0 <= buf <= 1500 ->
  pool_tail (alloc t) + 2 ^ 21 < 2 ^ 63 ->
  wp (run_calls [CSet k v true; CTest k; CGet k buf ro])
    (fun rs _ => rs = [RDone true; RDone true; RValue (Some (view v buf))]) t.
Proof using HK HB.
  intros I Hk Hv Hbuf Hb. cbn [run_calls run_call]. apply wp_bind, wp_bind.
  eapply wp_mono; [|by apply (set_spec K B HK HB m t l k v true I)].
  intros r t1 [_ [(? & _)|(-> & l1 & I1 & Hp)]]; [done|]. apply wp_ret, wp_bind, wp_bind, wp_bind.
  eapply wp_mono; [|by apply (test_spec K B HK HB _ _ t1 l1 k I1)].
  intros r t2 [-> Hr]. rewrite (Hr Hp). apply wp_ret, wp_bind, wp_bind, wp_bind.
  eapply wp_mono; [|by apply (get_spec K B HK HB _ _ t1 l1 k buf ro I1)].
  intros r3 t3 (_ & _ & Hn & [->|(v' & Em & ->)]); [by destruct Hn|].
  rewrite lookup_insert_eq in Em. injection Em as <-. done.
Qed.
End calls.

(** C11. The store is a cache.  Set up in first-in first-out mode, with any memory
    content, any number of buckets from 2 to 2^31 and any pool size up to 2^46, it runs
    every sequence of calls to its end, up to 2^41 of them, and the results are those of
    a map that may forget: a lookup misses or returns exactly the value last stored
    under its key, cut to the caller's buffer, and a counter counts from it. *)
Theorem store_is_cache (d : gmap Z Z) (num_buckets size : Z) (cr cw : bool) (cs : list kv_call) :
  2 <= num_buckets <= 2 ^ 31 -> 0 <= size <= 2 ^ 46 ->
  Forall wf_call cs -> Z.of_nat (length cs) < 2 ^ 41 ->
  exists t rs t' m,
    mehcached_table_init true d MEHCACHED_MTH_THRESHOLD_FIFO num_buckets 1 size cr cw tt = Ret t tt /\
    run_calls cs t = Ret rs t' /\ kv_steps ∅ cs rs m.
Proof.
  intros Hn Hs Hc Hl.
  destruct (table_init_spec d num_buckets size cr cw tt Hn Hs) as (K & B & t & HK & HB & E & I & Et).
  destruct (wp_ret_inv _ _ _ (kv_calls_spec K B HK HB ∅ t [] cs I Hc ltac:(lia)))
    as (rs & t' & Er & m & l & Hk & _).
  by exists t, rs, t', m.
Qed.

Definition key_1 : kv_key := (0x10001, 8, [11]).
Definition key_2 : kv_key := (0x10002, 8, [22]).

Lemma wf_keys : wf_key key_1 /\ wf_key key_2.
Proof. repeat split; vm_compute; congruence. Qed.

(** A counter that starts at 5, is incremented and read. *)
Lemma store_is_cache_witness :
  exists t rs t' m,
    mehcached_table_init true ∅ MEHCACHED_MTH_THRESHOLD_FIFO 2 1 100 false false tt = Ret t tt /\
    run_calls [CSet key_1 (8, [5], 0) true; CIncrement key_1 1 0; CGet key_1 8 false] t = Ret rs t' /\
    rs = [RDone true; RCount (Some 6); RValue (Some (8, [6], 0))] /\
    kv_steps ∅ [CSet key_1 (8, [5], 0) true; CIncrement key_1 1 0; CGet key_1 8 false] rs m.
Proof.
  destruct (store_is_cache ∅ 2 100 false false
    [CSet key_1 (8, [5], 0) true; CIncrement key_1 1 0; CGet key_1 8 false])
    as (t & rs & t' & m & E & Er & Hk); [lia|lia| |vm_compute; done|].
  - destruct wf_keys as [H1 _]. repeat constructor; try apply H1; unfold in_width; lia.
  - exists t, rs, t', m. split; [exact E|]. split; [exact Er|]. split; [|exact Hk].
    revert Er. injection E as <-. vm_compute. by intros [= <- _].
Defined.

(** A value that was just stored is found: whatever calls came before, a store is
    followed by a positive test and by a lookup that returns the value. *)
Theorem stored_is_found (d : gmap Z Z) (num_buckets size : Z) (cr cw : bool) (cs : list kv_call)
    (k : kv_key) (v : kv_val) (buf : Z) (ro : bool) :
  2 <= num_buckets <= 2 ^ 31 -> 0 <= size <= 2 ^ 46 ->
  Forall wf_call cs -> Z.of_nat (length cs) < 2 ^ 41 - 1 -> wf_key k -> wf_val v -> 0 <= buf <= 1500 ->
  exists t rs t1 t2,
    mehcached_table_init true d MEHCACHED_MTH_THRESHOLD_FIFO num_buckets 1 size cr cw tt = Ret t tt /\
    run_calls cs t = Ret rs t1 /\
    run_calls [CSet k v true; CTest k; CGet k buf ro] t1 =
      Ret [RDone true; RDone true; RValue (Some (view v buf))] t2.
Proof.
  intros Hn Hs Hc Hl Hk Hv Hb.
  destruct (table_init_spec d num_buckets size cr cw tt Hn Hs) as (K & B & t & HK & HB & E & I & Et).
  destruct (wp_ret_inv _ _ _ (kv_calls_spec K B HK HB ∅ t [] cs I Hc ltac:(lia)))
    as (rs & t1 & Er & m & l & _ & I1 & Ht1).
  destruct (wp_ret_inv _ _ _ (set_get_spec K B HK HB m t1 l k v buf ro I1 Hk Hv Hb ltac:(lia)))
    as (rs2 & t2 & Er2 & ->).
  by exists t, rs, t1, t2.
Qed.

Lemma stored_is_found_witness :
  exists t t2, mehcached_table_init true ∅ MEHCACHED_MTH_THRESHOLD_FIFO 2 1 100 false false tt = Ret t tt /\
    run_calls [CSet key_1 (8, [5], 0) true; CTest key_1; CGet key_1 8 true] t =
      Ret [RDone true; RDone true; RValue (Some (8, [5], 0))] t2.
Proof.
  destruct (stored_is_found ∅ 2 100 false false [] key_1 (8, [5], 0) 8 true)
    as (t & rs & t1 & t2 & E & Er & Er2);
    [lia|lia|constructor|vm_compute; done|apply wf_keys|unfold wf_val, in_width; repeat split; lia|lia|].
  injection Er as _ <-. exists t, t2. split; [exact E|exact Er2].
Defined.

(** ** Move-to-head *)

Lemma kv_steps_inv m c cs r rs m' :
  kv_steps m (c :: cs) (r :: rs) m' -> exists m1, kv_step m c r m1 /\ kv_steps m1 cs rs m'.
Proof. intros H. inversion H; subst. by eexists. Qed.

Lemma kv_set_inv m k v r m' : kv_step m (CSet k v true) r m' -> m' = <[k := v]> m.
Proof. intros H. by inversion H. Qed.

Lemma kv_get_inv m k buf ro r m' :
  kv_step m (CGet k buf ro) (RValue r) m' ->
  m' = m /\ forall x, r = Some x -> exists v, m !! k = Some v /\ x = view v buf.
Proof. intros H. inversion H; subst; (split; [done|]); [done|]. intros x [= <-]. eauto. Qed.

(** A value of 64 bytes replaced by one of 8 and moved, another key stored behind it,
    and the first value written back. *)
Definition overflow_calls : list kv_call :=
  let big := (64, [0; 40; MEHCACHED_KV_LENGTH_VEC 8 8; 0x10002; 22; 66; 0; 0], 0) in
  [CSet key_1 big true; CSet key_1 (8, [5], 0) true; CGet key_1 8 false;
   CSet key_2 (8, [7], 0) true; CSet key_1 big true; CGet key_2 8 false].

(** C27. With the least-recently-used threshold the store is not a cache: moving an item
    to the head of the log copies the size of the place it had, not of the place it
    gets, so that a later store of a longer value runs over the item behind.  Here the
    lookup of the second key returns 66, which was never stored under it. *)
Theorem move_to_head_overflows :
  exists t rs t',
    mehcached_table_init true ∅ MEHCACHED_MTH_THRESHOLD_LRU 2 1 100 false false tt = Ret t tt /\
    Forall wf_call overflow_calls /\ run_calls overflow_calls t = Ret rs t' /\
    last rs = Some (RValue (Some (8, [66], 0))) /\ forall m, ~ kv_steps ∅ overflow_calls rs m.
Proof.
  eexists _, _, _. split; [vm_compute; reflexivity|]. split.
  { destruct wf_keys as [H1 H2]. repeat constructor; try apply H1; try apply H2; unfold in_width; cbn; lia. }
  split; [vm_compute; reflexivity|]. split; [reflexivity|]. intros m Hs. unfold overflow_calls in Hs.
  repeat match goal with
    | H : kv_steps _ (_ :: _) _ _ |- _ => apply kv_steps_inv in H as (? & ? & H)
    | H : kv_step _ (CSet _ _ _) _ _ |- _ => apply kv_set_inv in H as ->
    | H : kv_step _ (CGet _ _ _) _ _ |- _ => apply kv_get_inv in H as [-> H]
    end.
  match goal with H : forall x, Some (8, [66], 0) = Some x -> _ |- _ =>
    destruct (H _ eq_refl) as (v & Em & Ev) end.
  rewrite lookup_insert_ne, lookup_insert_eq in Em by done. injection Em as <-. discriminate Ev.
Qed.

(** ** Eviction *)

(** How far behind the tail an item of a bucket starts. *)
Definition item_distance (t : mehcached_table) (vec : Z) : Z :=
  Z.land (u64 (pool_tail (alloc t) - MEHCACHED_ITEM_OFFSET vec)) MEHCACHED_ITEM_OFFSET_MASK.

Lemma item_distance_bound t vec : item_distance t vec < 2 ^ 64 - 1.
Proof.
  unfold item_distance, MEHCACHED_ITEM_OFFSET_MASK. change (Z.shiftl 1 48 - 1) with (2 ^ 48 - 1).
  rewrite land_mask by lia. pose proof (wrap_range 48 (u64 (pool_tail (alloc t) - MEHCACHED_ITEM_OFFSET vec))) as H.
  unfold in_width in H. lia.
Qed.

(** The loop over the rest [l] of a bucket without empty places, after [seen]. *)
Lemma empty_or_oldest_min t l seen oldest d :
  (forall x, x ∈ l -> x <> 0) ->
  (forall y, y ∈ seen -> d <= item_distance t y) ->
  (exists x, seen !! oldest = Some x /\ item_distance t x = d) ->
  exists x, (seen ++ l) !! empty_or_oldest t l (length seen) oldest d = Some x /\
    forall y, y ∈ seen ++ l -> item_distance t x <= item_distance t y.
Proof.
  revert seen oldest d. induction l as [|vec l IH]; intros seen oldest d Hne Hmin (x & Hx & Ex);
    cbn [empty_or_oldest].
  { rewrite app_nil_r. exists x. by rewrite Ex. }
  rewrite (proj2 (Z.eqb_neq vec 0)) by (apply Hne; left). fold (item_distance t vec).
  assert (Datatypes.S (length seen) = length (seen ++ [vec])) as -> by (rewrite length_app; cbn; lia).
  replace (seen ++ vec :: l) with ((seen ++ [vec]) ++ l) by (by rewrite <- app_assoc).
  destruct (Z.ltb_spec (item_distance t vec) d) as [Hlt|Hge]; apply IH.
  - intros y Hy. apply Hne. by right.
  - intros y [Hy|<-%list_elem_of_singleton]%elem_of_app; [|done]. specialize (Hmin y Hy). lia.
  - exists vec. split; [|done]. rewrite lookup_app_r, Nat.sub_diag by done. done.
  - intros y Hy. apply Hne. by right.
  - intros y [Hy| ->%list_elem_of_singleton]%elem_of_app; [by apply Hmin|done].
  - exists x. split; [by apply lookup_app_l_Some|done].
Qed.

(** The item evicted from a full bucket is the newest: the place that
    [mehcached_find_empty_or_oldest] returns is that of an item nearest to the tail. *)
Theorem full_bucket_evicts_newest (t : mehcached_table) (b : Z) :
  bucket t b <> [] -> (forall x, x ∈ bucket t b -> x <> 0) ->
  exists x, bucket t b !! mehcached_find_empty_or_oldest t b = Some x /\
    forall y, y ∈ bucket t b -> item_distance t x <= item_distance t y.
Proof.
  unfold mehcached_find_empty_or_oldest. destruct (bucket t b) as [|x l]; [done|]. intros _ Hne.
  cbn [empty_or_oldest]. rewrite (proj2 (Z.eqb_neq x 0)) by (apply Hne; left). fold (item_distance t x).
  change (u64 (-1)) with (2 ^ 64 - 1). rewrite (proj2 (Z.ltb_lt _ _)) by apply item_distance_bound.
  apply (empty_or_oldest_min t l [x]).
  - intros y Hy. apply Hne. by right.
  - by intros y ->%list_elem_of_singleton.
  - by exists x.
Qed.

(** A bucket with items at offsets 0 and 64 of a log of 128 bytes. *)
Lemma full_bucket_evicts_newest_witness :
  let t := {| alloc := set_pool_ends 0 128 small_pool; mth_threshold := 64;
              buckets := {[ 0 := [MEHCACHED_ITEM_VEC 1 0; MEHCACHED_ITEM_VEC 2 64] ]};
              num_buckets := 2; num_buckets_mask := 1; rshift := 46 |} in
  exists x, bucket t 0 !! mehcached_find_empty_or_oldest t 0 = Some x /\
    item_distance t x = 64 /\
    forall y, y ∈ bucket t 0 -> item_distance t x <= item_distance t y.
Proof.
  intros t. destruct (full_bucket_evicts_newest t 0) as (x & Hx & Hmin).
  - vm_compute. discriminate.
  - change (bucket t 0) with [MEHCACHED_ITEM_VEC 1 0; MEHCACHED_ITEM_VEC 2 64].
    intros x. rewrite !elem_of_cons, elem_of_nil. intros [->|[->|[]]]; vm_compute; discriminate.
  - exists x. split; [exact Hx|]. split; [|exact Hmin]. vm_compute in Hx. injection Hx as <-. reflexivity.
Defined.
