(* ===== verification/MicaServer.v ===== *)
(** * The MICA server's handlers

    src/sw/apps/mica/mica_server.cc: the remote procedures [set] and [get] over the store.
    Keys and values are the character arrays of the requests of kvs.dproto, which end where
    the first zero is.  [get] copies into an array on the stack that is not initialised: its
    content is an argument.  The status is the text that the handler prints. *)

From S2P Require Import Prelude Wire MicaUtil MicaPool MicaTable MicaStore MicaCache MicaRun MicaHash.

(** ** Strings *)
Fixpoint cstring (bs : list Z) : list Z :=
  match bs with
  | [] => []
  | b :: bs' => if b =? 0 then [] else b :: cstring bs'
  end.

(** Without a zero in the array [strlen] reads beyond it. *)
Definition strlen {S} (bs : list Z) : M S Z :=
  if bool_decide (0 ∈ bs) then ret (Z.of_nat (length (cstring bs))) else fun _ => Fault.

(** [sprintf] with a format and no arguments, 37 being the percent sign. *)
Fixpoint format (s : list Z) : option (list Z) :=
  match s with
  | [] => Some []
  | b :: s' =>
      if b =? 37 then
        match s' with
        | b' :: s'' => if b' =? 37 then cons 37 <$> format s'' else None
        | [] => None
        end
      else cons b <$> format s'
  end.

Definition sprintf {S} (room : Z) (fmt : list Z) : M S (list Z) :=
  if negb (bool_decide (0 ∈ fmt)) then fun _ => Fault
  else match format (cstring fmt) with
       | Some s => if Z.of_nat (length s) <? room then ret s else fun _ => Fault
       | None => fun _ => Fault
       end.

(** ** Messages *)
Definition key_size : nat := 16.
Definition value_size : nat := 32.

Record SetRequest := { set_timestamp : Z; set_key : list Z; set_value : list Z }.
Inductive set_status := OK | ERROR.
Record SetResponse := { set_timestamp_out : Z; status : set_status }.
Record GetRequest := { get_timestamp : Z; get_key : list Z }.
Record GetResponse := { get_timestamp_out : Z; value : list Z }.

Definition of_words (ws : list Z) : list Z := ws ≫= le_bytes 8.

Definition set (args : SetRequest) : M mehcached_table SetResponse :=
  let! key_length := strlen (set_key args) in
  let! value_length := strlen (set_value args) in
  let key_hash := hash (take (Z.to_nat key_length) (set_key args)) in
  let! done := mehcached_set key_hash (to_words (words_of key_length) (set_key args)) key_length
                 (to_words (words_of value_length) (set_value args)) value_length 0 true in
  ret {| set_timestamp_out := set_timestamp args; status := if done then OK else ERROR |}.

(** [stack] is what the 64 bytes of the local array hold. *)
Definition get (stack : list Z) (args : GetRequest) : M mehcached_table GetResponse :=
  let! key_length := strlen (get_key args) in
  let key_hash := hash (take (Z.to_nat key_length) (get_key args)) in
  let! r := mehcached_get key_hash (to_words (words_of key_length) (get_key args)) key_length 64 false in
  match r with
  | None => ret {| get_timestamp_out := get_timestamp args; value := [] |}
  | Some (_, out, _) =>
      let! s := sprintf (Z.of_nat value_size) (of_words out ++ drop (8 * length out) stack) in
      ret {| get_timestamp_out := get_timestamp args; value := s |}
  end.

(** ** Requests *)
Inductive request := Set_ (a : SetRequest) | Get_ (a : GetRequest) (stack : list Z).
Inductive response := Set_done (r : SetResponse) | Get_done (r : GetResponse).

Definition handle (q : request) : M mehcached_table response :=
  match q with
  | Set_ a => let! r := set a in ret (Set_done r)
  | Get_ a stack => let! r := get stack a in ret (Get_done r)
  end.

Fixpoint serve (qs : list request) : M mehcached_table (list response) :=
  match qs with
  | [] => ret []
  | q :: qs' => let! r := handle q in let! rs := serve qs' in ret (r :: rs)
  end.

(** The keys and values of the store. *)
Definition key_of (key : list Z) : kv_key :=
  let n := Z.of_nat (length (cstring key)) in (hash (cstring key), n, to_words (words_of n) key).
Definition val_of (v : list Z) : kv_val :=
  let n := Z.of_nat (length (cstring v)) in (n, to_words (words_of n) v, 0).

Definition text (n : nat) (bs : list Z) : Prop := length bs = n /\ bytes bs /\ 0 ∈ bs.

Lemma cstring_take bs : take (length (cstring bs)) bs = cstring bs.
Proof. induction bs as [|b bs IH]; cbn; [done|]. destruct (b =? 0); cbn; [done|]. by rewrite IH. Qed.

Lemma cstring_length n bs : text n bs -> (length (cstring bs) < n)%nat.
Proof.
  intros (<- & _ & H0). induction bs as [|b bs IH]; [by apply not_elem_of_nil in H0|]. cbn.
  destruct (Z.eqb_spec b 0) as [->|Hb]; cbn; [lia|]. apply elem_of_cons in H0 as [<-|H0]; [done|]. specialize (IH H0). lia.
Qed.

Lemma strlen_text {S} n bs (s : S) : text n bs -> strlen bs s = Ret (Z.of_nat (length (cstring bs))) s.
Proof. intros (_ & _ & H0). unfold strlen. by rewrite bool_decide_eq_true_2. Qed.

(** What is behind the zero does not matter. *)
Lemma cstring_app bs rest : 0 ∈ bs -> cstring (bs ++ rest) = cstring bs.
Proof.
  induction bs as [|b bs IH]; intros H0; [by apply not_elem_of_nil in H0|]. cbn. destruct (Z.eqb_spec b 0); [done|].
  apply elem_of_cons in H0 as [<-|H0]; [done|]. by rewrite IH.
Qed.

Lemma cstring_zero bs n : (length (cstring bs) < n)%nat -> 0 ∈ bs -> 0 ∈ take n bs /\ cstring (take n bs) = cstring bs.
Proof.
  revert n. induction bs as [|b bs IH]; intros n Hn H0; [by apply not_elem_of_nil in H0|]. cbn in *. destruct n as [|n]; [lia|]. cbn.
  destruct (Z.eqb_spec b 0) as [->|Hb]; [split; [by left|done]|]. cbn in Hn. apply elem_of_cons in H0 as [<-|H0]; [done|].
  destruct (IH n ltac:(lia) H0) as [? ->]. split; [by right|done].
Qed.

Lemma of_to_words n bs : bytes bs -> (8 * n <= length bs)%nat -> of_words (to_words n bs) = take (8 * n) bs.
Proof.
  revert bs. induction n as [|n IH]; intros bs Hb Hl; [done|]. cbn [to_words]. unfold of_words. rewrite bind_cons. fold (of_words (to_words n (drop 8 bs))).
  rewrite IH; [|by apply Forall_drop|rewrite length_drop; lia].
  assert (length (take 8 bs) = 8%nat) as L by (rewrite length_take; lia). rewrite <- L at 1. rewrite le_bytes_val by by apply Forall_take.
  replace (8 * S n)%nat with (8 + 8 * n)%nat by lia. by rewrite <- take_take_drop.
Qed.

Lemma format_plain s : 37 ∉ s -> format s = Some s.
Proof.
  induction s as [|b s IH]; intros Hn; [done|]. apply not_elem_of_cons in Hn as [Hb Hn]. cbn.
  rewrite (proj2 (Z.eqb_neq b 37)) by congruence. by rewrite IH.
Qed.

Lemma wf_key_of k : text key_size k -> wf_key (key_of k).
Proof.
  intros Ht. pose proof (cstring_length _ _ Ht). unfold key_size in *. split; [apply hash_width|]. split; [lia|apply length_to_words].
Qed.

Lemma wf_val_of v : text value_size v -> wf_val (val_of v).
Proof.
  intros Ht. pose proof (cstring_length _ _ Ht). unfold value_size in *. split; [lia|]. split; [apply length_to_words|done].
Qed.

(** A value that [get] can print: without percent signs, and not filling its words. *)
Definition printable (v : list Z) : Prop :=
  text value_size v /\ (37 ∉ cstring v) /\ (length (cstring v) mod 8 <> 0)%nat.

Lemma words_printable v :
  printable v -> let w := words_of (Z.of_nat (length (cstring v))) in (length (cstring v) < 8 * w /\ 8 * w <= value_size)%nat.
Proof.
  intros (Ht & _ & Hm) w. pose proof (cstring_length _ _ Ht) as Hn. unfold value_size in *.
  pose proof (words_of_eq (Z.of_nat (length (cstring v))) ltac:(lia) ltac:(lia)) as Hw. fold w in Hw.
  assert (Z.of_nat (length (cstring v)) mod 8 <> 0) by (change 8 with (Z.of_nat 8); rewrite <- Nat2Z.inj_mod; lia).
  pose proof (Z.div_mod (Z.of_nat (length (cstring v))) 8 ltac:(lia)). pose proof (Z.mod_pos_bound (Z.of_nat (length (cstring v))) 8 ltac:(lia)).
  div_lia.
Qed.

(** ** One request *)
Lemma printed v stack (t : mehcached_table) :
  printable v -> let out := (view (val_of v) 64).1.2 in
  sprintf (Z.of_nat value_size) (of_words out ++ drop (8 * length out) stack) t = Ret (cstring v) t.
Proof.
  intros Hp out. pose proof (words_printable v Hp) as Hw. destruct Hp as ((Hl & Hb & H0) & Hpc & Hm). cbn zeta in Hw.
  assert (out = to_words (words_of (Z.of_nat (length (cstring v)))) v) as ->.
  { subst out. unfold view, val_of. cbn [fst snd]. unfold value_size in *. rewrite Z.min_l by lia. apply take_ge. by rewrite length_to_words. }
  rewrite of_to_words by (done || lia). destruct (cstring_zero v (8 * words_of (Z.of_nat (length (cstring v)))) ltac:(lia) H0) as [Hz Hc].
  unfold sprintf. rewrite bool_decide_eq_true_2 by (apply elem_of_app; by left). cbn [negb]. rewrite cstring_app, Hc, format_plain by done.
  rewrite (proj2 (Z.ltb_lt _ _)) by (unfold value_size in *; lia). done.
Qed.

Definition request_ok (q : request) : Prop :=
  match q with
  | Set_ a => text key_size (set_key a) /\ printable (set_value a)
  | Get_ a _ => text key_size (get_key a)
  end.

(** What a cache of strings answers. *)
Inductive answer (m : gmap kv_key (list Z)) : request -> response -> gmap kv_key (list Z) -> Prop :=
| answer_set a :
    answer m (Set_ a) (Set_done {| set_timestamp_out := set_timestamp a; status := OK |}) (<[key_of (set_key a) := set_value a]> m)
| answer_miss a stack : answer m (Get_ a stack) (Get_done {| get_timestamp_out := get_timestamp a; value := [] |}) m
| answer_hit a stack v :
    m !! key_of (get_key a) = Some v ->
    answer m (Get_ a stack) (Get_done {| get_timestamp_out := get_timestamp a; value := cstring v |}) m.

Inductive answers : gmap kv_key (list Z) -> list request -> list response -> Prop :=
| answers_nil m : answers m [] []
| answers_cons m q r m' qs rs : answer m q r m' -> answers m' qs rs -> answers m (q :: qs) (r :: rs).

Section state.
Context (K B : Z) (HK : 21 <= K <= 46) (HB : 1 <= B <= 31).

Definition holds (m : gmap kv_key (list Z)) (t : mehcached_table) : Prop :=
  (exists l, stable K B (val_of <$> m) t l) /\ map_Forall (fun _ v => printable v) m.

Lemma set_wp a Q (t : mehcached_table) :
  text key_size (set_key a) -> text value_size (set_value a) ->
  let k := key_of (set_key a) in let v := val_of (set_value a) in
  wp (mehcached_set k.1.1 k.2 k.1.2 v.1.2 v.1.1 v.2 true)
    (fun done => Q {| set_timestamp_out := set_timestamp a; status := if done then OK else ERROR |}) t ->
  wp (set a) Q t.
Proof.
  intros Hk Hv k v Hw. unfold wp, set, bind at 1. rewrite (strlen_text key_size) by done. unfold bind at 1. rewrite (strlen_text value_size) by done.
  rewrite Nat2Z.id, cstring_take. by apply (wp_bind (mehcached_set _ _ _ _ _ _ _)).
Qed.

Lemma get_wp stack a Q (t : mehcached_table) :
  text key_size (get_key a) ->
  let k := key_of (get_key a) in
  wp (mehcached_get k.1.1 k.2 k.1.2 64 false)
    (fun r t' => match r with
                 | None => Q {| get_timestamp_out := get_timestamp a; value := [] |} t'
                 | Some (_, out, _) =>
                     wp (sprintf (Z.of_nat value_size) (of_words out ++ drop (8 * length out) stack))
                       (fun s => Q {| get_timestamp_out := get_timestamp a; value := s |}) t'
                 end) t ->
  wp (get stack a) Q t.
Proof.
  intros Hk k Hw. unfold wp, get, bind at 1. rewrite (strlen_text key_size) by done. rewrite Nat2Z.id, cstring_take.
  apply (wp_bind (mehcached_get _ _ _ _ _)). eapply wp_mono; [|exact Hw]. intros r t' Hr. destruct r as [[[n out] e]|]; [by apply wp_bind|done].
Qed.

Lemma handle_spec m t q :
  holds m t -> request_ok q -> pool_tail (alloc t) + 2 ^ 21 < 2 ^ 63 ->
  wp (handle q) (fun r t' => exists m', answer m q r m' /\ holds m' t' /\ pool_tail (alloc t') <= pool_tail (alloc t) + 2 ^ 21) t.
Proof using All.
  intros [[l I] Hp] Hq Hb. destruct q as [a|a stack]; cbn [handle request_ok] in *; apply wp_bind.
  - destruct Hq as [Hk Hv]. pose proof (proj1 Hv) as Ht. apply set_wp; [done|done|].
    eapply wp_mono; [|apply (set_spec K B HK HB _ t l _ _ true I); [by apply wf_key_of|by apply wf_val_of|done]].
    intros r t' [Hr [(? & _)|(-> & l' & I' & _)]]; [done|]. apply wp_ret. eexists. split; [constructor|]. split; [|lia]. split.
    + exists l'. by rewrite fmap_insert.
    + by apply map_Forall_insert_2.
  - apply get_wp; [done|]. eapply wp_mono; [|apply (get_spec K B HK HB _ _ t l (key_of (get_key a)) 64 false I); [by apply wf_key_of|lia]].
    intros r t' (I' & Ea & _ & Hr). assert (holds m t') as Hh by (split; [exists l; unfold stable; by rewrite Ea|done]).
    destruct Hr as [->|(v & Em & ->)].
    + apply wp_ret. exists m. split; [constructor|]. split; [done|]. rewrite Ea. lia.
    + rewrite lookup_fmap, fmap_Some in Em. destruct Em as (w & Em & ->). pose proof (printed w stack t' (Hp _ _ Em)) as Hpr.
      destruct (view (val_of w) 64) as [[n out] e]. unfold wp at 1. cbn [fst snd] in Hpr. rewrite Hpr. apply wp_ret.
      exists m. split; [by constructor|]. split; [done|]. rewrite Ea. lia.
Qed.

Lemma requests_spec m t qs :
  holds m t -> Forall request_ok qs -> pool_tail (alloc t) + Z.of_nat (length qs) * 2 ^ 21 < 2 ^ 63 ->
  wp (serve qs) (fun rs t' => answers m qs rs /\ (exists m', holds m' t') /\
    pool_tail (alloc t') <= pool_tail (alloc t) + Z.of_nat (length qs) * 2 ^ 21) t.
Proof using All.
  revert m t. induction qs as [|q qs IH]; intros m t Hh Hq Hb; cbn [serve].
  { apply wp_ret. split; [constructor|]. split; [by exists m|cbn; lia]. }
  apply Forall_cons in Hq as [Hq Hqs]. cbn [length] in *. apply wp_bind. eapply wp_mono; [|apply (handle_spec m t q Hh Hq); lia].
  intros r t1 (m1 & Ha & Hh1 & Ht1). apply wp_bind. eapply wp_mono; [|apply (IH m1 t1 Hh1 Hqs); lia].
  intros rs t2 (Has & Hh2 & Ht2). apply wp_ret. split; [by econstructor|]. split; [done|lia].
Qed.

(** A value that fills its words is printed with what follows on the stack. *)
Definition unterminated (v stack : list Z) : Prop :=
  text value_size v /\ (length (cstring v) mod 8 = 0)%nat /\ (length (cstring v) <= length stack)%nat /\
  (0 ∈ drop (length (cstring v)) stack) /\ (37 ∉ cstring v) /\ (37 ∉ cstring (drop (length (cstring v)) stack)) /\
  (length (cstring v) + length (cstring (drop (length (cstring v)) stack)) < value_size)%nat.

Lemma cstring_full bs rest : cstring (cstring bs ++ rest) = cstring bs ++ cstring rest.
Proof. induction bs as [|b bs IH]; cbn; [done|]. destruct (b =? 0) eqn:E; cbn; [done|]. by rewrite E, IH. Qed.

Lemma printed_unterminated v stack (t : mehcached_table) :
  unterminated v stack -> let out := (view (val_of v) 64).1.2 in
  sprintf (Z.of_nat value_size) (of_words out ++ drop (8 * length out) stack) t =
    Ret (cstring v ++ cstring (drop (length (cstring v)) stack)) t.
Proof.
  intros ((Hl & Hb & H0) & Hm & Hs & Hz & Hp & Hps & Hr) out. pose proof (cstring_length value_size v (conj Hl (conj Hb H0))) as Hn.
  unfold value_size in *. set (n := length (cstring v)) in *.
  assert (8 * words_of (Z.of_nat n) = n)%nat as Hw.
  { pose proof (words_of_eq (Z.of_nat n) ltac:(lia) ltac:(lia)) as Hw. assert (Z.of_nat n mod 8 = 0) by (change 8 with (Z.of_nat 8); rewrite <- Nat2Z.inj_mod; lia).
    div_lia. }
  assert (out = to_words (words_of (Z.of_nat n)) v) as ->.
  { subst out. unfold view, val_of. cbn [fst snd]. fold n. rewrite Z.min_l by lia. apply take_ge. by rewrite length_to_words. }
  rewrite of_to_words, length_to_words, Hw by (done || lia). unfold n at 1. rewrite cstring_take.
  unfold sprintf. rewrite bool_decide_eq_true_2 by (apply elem_of_app; by right). cbn [negb]. rewrite cstring_full, format_plain.
  - rewrite (proj2 (Z.ltb_lt _ _)); [done|]. rewrite length_app. fold n. lia.
  - rewrite elem_of_app. tauto.
Qed.

Lemma leak_spec m t a b stack :
  holds m t -> pool_tail (alloc t) + 2 ^ 21 < 2 ^ 63 -> text key_size (set_key a) -> get_key b = set_key a -> unterminated (set_value a) stack ->
  wp (serve [Set_ a; Get_ b stack])
    (fun rs _ => rs = [Set_done {| set_timestamp_out := set_timestamp a; status := OK |};
       Get_done {| get_timestamp_out := get_timestamp b;
                   value := cstring (set_value a) ++ cstring (drop (length (cstring (set_value a))) stack) |}]) t.
Proof using All.
  intros [[l I] _] Hb Hk Hkey Hu. pose proof (proj1 Hu) as Ht. cbn [serve handle]. apply wp_bind, wp_bind, set_wp; [done|done|].
  eapply wp_mono; [|apply (set_spec K B HK HB _ t l _ _ true I); [by apply wf_key_of|by apply wf_val_of|done]].
  intros r t1 [_ [(? & _)|(-> & l1 & I1 & Hpr)]]; [done|]. apply wp_ret, wp_bind, wp_bind, wp_bind, get_wp; [by rewrite Hkey|]. rewrite Hkey.
  eapply wp_mono; [|apply (get_spec K B HK HB _ _ t1 l1 (key_of (set_key a)) 64 false I1); [by apply wf_key_of|lia]].
  intros r t2 (_ & _ & Hn & [->|(w & Em & ->)]); [by destruct Hn|]. rewrite lookup_insert_eq in Em. injection Em as <-.
  pose proof (printed_unterminated (set_value a) stack t2 Hu) as Hq. destruct (view (val_of (set_value a)) 64) as [[n out] e].
  unfold wp at 1. cbn [fst snd] in Hq. rewrite Hq. by apply wp_ret, wp_ret, wp_ret.
Qed.
End state.

Lemma init_holds d nb size cr cw :
  2 <= nb <= 2 ^ 31 -> 0 <= size <= 2 ^ 46 ->
  exists K B t, 21 <= K <= 46 /\ 1 <= B <= 31 /\ holds K B ∅ t /\ pool_tail (alloc t) = 0 /\
    mehcached_table_init true d MEHCACHED_MTH_THRESHOLD_FIFO nb 1 size cr cw tt = Ret t tt.
Proof.
  intros Hn Hs. destruct (table_init_spec d nb size cr cw tt Hn Hs) as (K & B & t & HK & HB & E & I & Et). exists K, B, t.
  split; [done|]. split; [done|]. split; [|done]. split; [|done]. exists []. by rewrite fmap_empty.
Qed.


(** C35. The terminator of a string is not stored.  When the length of a value is a multiple of 8,
    a get answers with the value and the bytes that follow on the server's stack. *)
Theorem get_leaks_stack d nb size cr cw qs a b stack :
  2 <= nb <= 2 ^ 31 -> 0 <= size <= 2 ^ 46 -> Forall request_ok qs -> Z.of_nat (length qs) < 2 ^ 41 - 1 ->
  text key_size (set_key a) -> get_key b = set_key a -> unterminated (set_value a) stack ->
  exists t rs t1 t2, mehcached_table_init true d MEHCACHED_MTH_THRESHOLD_FIFO nb 1 size cr cw tt = Ret t tt /\
    serve qs t = Ret rs t1 /\
    serve [Set_ a; Get_ b stack] t1 =
      Ret [Set_done {| set_timestamp_out := set_timestamp a; status := OK |};
           Get_done {| get_timestamp_out := get_timestamp b;
                       value := cstring (set_value a) ++ cstring (drop (length (cstring (set_value a))) stack) |}] t2.
Proof.
  intros Hn Hs Hq Hl Hk Hkey Hu. destruct (init_holds d nb size cr cw Hn Hs) as (K & B & t & HK & HB & Hh & Et & E).
  destruct (wp_ret_inv _ _ _ (requests_spec K B HK HB ∅ t qs Hh Hq ltac:(lia))) as (rs & t1 & Er & _ & (m1 & Hh1) & Ht1).
  destruct (wp_ret_inv _ _ _ (leak_spec K B HK HB m1 t1 a b stack Hh1 ltac:(lia) Hk Hkey Hu)) as (rs2 & t2 & Er2 & ->). by exists t, rs, t1, t2.
Qed.

(** ** Examples *)
Definition array (n : nat) (s : list Z) : list Z := s ++ replicate (n - length s) 0.

Lemma text_array n s : Forall (in_width 8) s -> (length s < n)%nat -> text n (array n s).
Proof.
  intros Hs Hl. unfold array. split_and!.
  - rewrite length_app, length_replicate. lia.
  - apply Forall_app. split; [done|]. by apply Forall_replicate.
  - apply elem_of_app. right. apply elem_of_replicate. split; [done|lia].
Qed.

Definition set_abc : SetRequest := {| set_timestamp := 1; set_key := array 16 [107; 49]; set_value := array 32 [97; 98; 99] |}.
Definition set_8 : SetRequest := {| set_timestamp := 3; set_key := array 16 [107; 49]; set_value := array 32 [97; 98; 99; 100; 101; 102; 103; 104] |}.
Definition get_k1 : GetRequest := {| get_timestamp := 2; get_key := array 16 [107; 49] |}.
Definition used_stack : list Z := array 64 (replicate 10 120).

Lemma sample_requests_ok : Forall request_ok [Set_ set_abc; Get_ get_k1 used_stack].
Proof.
  assert (text key_size (array 16 [107; 49])) as Hk by (apply text_array; [repeat constructor; unfold in_width; lia|cbn; lia]).
  constructor; [|by constructor]. split; [exact Hk|]. split; [apply text_array; [repeat constructor; unfold in_width; lia|cbn; lia]|].
  split; [|done]. apply (bool_decide_unpack _). by vm_compute.
Qed.


(** Eight characters are stored; two more come back. *)
Lemma get_leaks_stack_witness :
  exists t rs t1 t2, mehcached_table_init true ∅ MEHCACHED_MTH_THRESHOLD_FIFO 2 1 100 false false tt = Ret t tt /\
    serve [] t = Ret rs t1 /\
    serve [Set_ set_8; Get_ get_k1 used_stack] t1 =
      Ret [Set_done {| set_timestamp_out := 3; status := OK |};
           Get_done {| get_timestamp_out := 2; value := [97; 98; 99; 100; 101; 102; 103; 104; 120; 120] |}] t2.
Proof.
  apply (get_leaks_stack ∅ 2 100 false false [] set_8 get_k1 used_stack); [lia|lia|constructor|cbn; lia| |done|].
  - apply text_array; [repeat constructor; unfold in_width; lia|cbn; lia].
  - split; [apply text_array; [repeat constructor; unfold in_width; lia|cbn; lia]|].
    split; [done|]. split; [cbn; lia|]. split; [apply (bool_decide_unpack _); by vm_compute|].
    split; [apply (bool_decide_unpack _); by vm_compute|]. split; [apply (bool_decide_unpack _); by vm_compute|vm_compute; lia].
Defined.
