(* ===== verification/McText.v ===== *)
(** * memcached: numbers and text

    src/sw/apps/memcached/memcached: itoa_ljust.c (integers to decimal) and util.c (the
    checked conversions from text, URI encoding, byte swapping, and the careful copies
    and comparisons).  A C string is the list of its bytes before the terminating NUL; a
    function that writes text returns the bytes it wrote, without the NUL.  [strtoull]
    and its siblings are those of the C library, in the C locale, with 64-bit [long]. *)

From Stdlib Require Import Ascii String.
From S2P Require Import Prelude Wire.

Definition bytes_of (s : string) : list Z :=
  map (fun c => Z.of_nat (nat_of_ascii c)) (list_ascii_of_string s).

(** ** itoa_ljust.c *)
Definition lut : list Z := bytes_of
  "00010203040506070809101112131415161718192021222324252627282930313233343536373839404142434445464748495051525354555657585960616263646566676869707172737475767778798081828384858687888990919293949596979899".

Definition out2 (d : Z) : list Z := [lut !!! Z.to_nat (2 * d); lut !!! Z.to_nat (2 * d + 1)].
Definition out1 (c : Z) : list Z := [c].

(** The new [d], what was written, and the new [n]. *)
Definition digits (u k d n : Z) : Z * list Z * Z :=
  if u <? u32 (k * 10) then (u / k, out1 (48 + u / k), n - 1) else (d, [], n).

(** The [switch], each case falling through to the next; the product [d * 100000000] is
    one of [int]s, taken modulo 2^32.  [n] is between 1 and 10 at every call. *)
Definition itoa (u d n : Z) : list Z :=
  let '(d, p) := if 10 <=? n then (u / 100000000, out2 (u / 100000000)) else (d, []) in
  let u := if 9 <=? n then u32 (u - d * 100000000) else u in
  let '(d, p) := if 8 <=? n then (u / 1000000, p ++ out2 (u / 1000000)) else (d, p) in
  let u := if 7 <=? n then u32 (u - d * 1000000) else u in
  let '(d, p) := if 6 <=? n then (u / 10000, p ++ out2 (u / 10000)) else (d, p) in
  let u := if 5 <=? n then u32 (u - d * 10000) else u in
  let '(d, p) := if 4 <=? n then (u / 100, p ++ out2 (u / 100)) else (d, p) in
  let u := if 3 <=? n then u32 (u - d * 100) else u in
  if 2 <=? n then p ++ out2 (u / 1) else p.

Definition itoa_u32 (u : Z) : list Z :=
  let '(d, p, n) :=
    if 100000000 <=? u then digits u 100000000 0 10
    else if u <? 100 then digits u 1 0 2
    else if u <? 10000 then digits u 100 0 4
    else if u <? 1000000 then digits u 10000 0 6
    else digits u 1000000 0 8 in
  p ++ itoa u d n.

Definition itoa_32 (i : Z) : list Z :=
  if i <? 0 then 45 :: itoa_u32 (u32 (- u32 i)) else itoa_u32 (u32 i).

(** The recursion divides by 10^9 until the number fits 32 bits, twice at most. *)
Fixpoint itoa_u64_rec (fuel : nat) (u : Z) : list Z :=
  if u32 u =? u then itoa_u32 (u32 u)
  else
    match fuel with
    | O => []
    | S fuel' =>
        let upper := u / 1000000000 in
        let p := itoa_u64_rec fuel' upper in
        let lower := u32 (u64 (u - upper * 1000000000)) in
        let d := lower / 100000000 in
        (p ++ out1 (48 + d)) ++ itoa lower d 9
    end.
Definition itoa_u64 (u : Z) : list Z := itoa_u64_rec 2 u.

Definition itoa_64 (i : Z) : list Z :=
  if i <? 0 then 45 :: itoa_u64 (u64 (- u64 i)) else itoa_u64 (u64 i).

(** ** The C library's conversions *)
Definition isspace (c : Z) : bool := (c =? 32) || ((9 <=? c) && (c <=? 13)).

Definition digit_of (base c : Z) : option Z :=
  let d := if (48 <=? c) && (c <=? 57) then c - 48
           else if (97 <=? c) && (c <=? 122) then c - 87
           else if (65 <=? c) && (c <=? 90) then c - 55
           else base in
  if d <? base then Some d else None.

(** The value of the longest sequence of digits at the start, and its length. *)
Fixpoint scan_digits (base : Z) (s : list Z) (acc : Z) : Z * nat :=
  match s with
  | [] => (acc, O)
  | c :: s' =>
      match digit_of base c with
      | Some d => let '(v, n) := scan_digits base s' (acc * base + d) in (v, S n)
      | None => (acc, O)
      end
  end.

Fixpoint skip_spaces (s : list Z) : nat :=
  match s with
  | c :: s' => if isspace c then S (skip_spaces s') else O
  | [] => O
  end.

(** Sign, magnitude, and the position behind the number; 0 when there is none. *)
Definition scan_number (base : Z) (s : list Z) : bool * Z * nat :=
  let n0 := skip_spaces s in
  let s1 := drop n0 s in
  let '(neg, n1) := match s1 with
                    | c :: _ => if c =? 45 then (true, S n0) else if c =? 43 then (false, S n0) else (false, n0)
                    | [] => (false, n0)
                    end in
  let s2 := drop n1 s in
  let hex := match s2 with
             | z :: x :: h :: _ =>
                 (base =? 16) && (z =? 48) && ((x =? 120) || (x =? 88)) &&
                 match digit_of 16 h with Some _ => true | None => false end
             | _ => false
             end in
  let n2 := if hex then (n1 + 2)%nat else n1 in
  let '(v, n) := scan_digits base (drop n2 s) 0 in
  if (n =? 0)%nat then (false, 0, O) else (neg, v, (n2 + n)%nat).

(** The result, whether [errno] is ERANGE, and the index of [endptr]. *)
Definition strtoull (base : Z) (s : list Z) : Z * bool * nat :=
  let '(neg, v, e) := scan_number base s in
  if 2 ^ 64 <=? v then (2 ^ 64 - 1, true, e)
  else (u64 (if neg then - v else v), false, e).

Definition strtoll (base : Z) (s : list Z) : Z * bool * nat :=
  let '(neg, v, e) := scan_number base s in
  let x := if neg then - v else v in
  if x <? - 2 ^ 63 then (- 2 ^ 63, true, e)
  else if 2 ^ 63 <=? x then (2 ^ 63 - 1, true, e)
  else (x, false, e).

(** ** util.c *)

(** [*endptr] *)
Definition char_at (s : list Z) (n : nat) : Z := default 0 (s !! n).

Definition strchr (s : list Z) (c : Z) : bool := existsb (Z.eqb c) s.

(** The number stored, if the function returns true; on false 0 is stored. *)
Definition safe_unsigned (base : Z) (s : list Z) : option Z :=
  let '(ull, erange, e) := strtoull base s in
  if erange || (e =? 0)%nat then None
  else if isspace (char_at s e) || ((char_at s e =? 0) && negb (e =? 0)%nat) then
    if (2 ^ 63 <=? ull) && strchr s 45 then None else Some ull
  else None.

Definition safe_strtoull (s : list Z) : option Z := safe_unsigned 10 s.
Definition safe_strtoull_hex (s : list Z) : option Z := safe_unsigned 16 s.
Definition safe_strtoul (s : list Z) : option Z := u32 <$> safe_unsigned 10 s.

Definition safe_signed (s : list Z) : option Z :=
  let '(ll, erange, e) := strtoll 10 s in
  if erange || (e =? 0)%nat then None
  else if isspace (char_at s e) || ((char_at s e =? 0) && negb (e =? 0)%nat) then Some ll
  else None.

Definition safe_strtoll (s : list Z) : option Z := safe_signed s.

Definition safe_strtol (s : list Z) : option Z := i32 <$> safe_signed s.

Definition isalnum (c : Z) : bool :=
  ((48 <=? c) && (c <=? 57)) || ((65 <=? c) && (c <=? 90)) || ((97 <=? c) && (c <=? 122)).

Definition hex_digit (d : Z) : Z := if d <? 10 then 48 + d else 55 + d.

(** What [uriencode_init] puts into [uriencode_map]. *)
Definition uriencode_map (c : Z) : option (list Z) :=
  if isalnum c || (c =? 45) || (c =? 46) || (c =? 95) || (c =? 126) then None
  else Some [37; hex_digit (c / 16); hex_digit (c mod 16)].

(** The loop of [uriencode]; [dst] is what was written so far. *)
Fixpoint uriencode_loop (src dst : list Z) (dstlen : Z) : bool * list Z :=
  match src with
  | [] => (true, dst ++ [0])
  | c :: src' =>
      if dstlen <? Z.of_nat (length dst) + 4 then (false, dst)
      else
        match uriencode_map c with
        | Some e => uriencode_loop src' (dst ++ e) dstlen
        | None => uriencode_loop src' (dst ++ [c]) dstlen
        end
  end.
Definition uriencode (src : list Z) (dstlen : Z) : bool * list Z := uriencode_loop src [] dstlen.

(** The bytes copied; [src] is a C string, its NUL the default of [char_at]. *)
Fixpoint copy_loop (src : list Z) (room : Z) : list Z :=
  match src with
  | c :: src' => if (0 <? room) && negb (c =? 0) then c :: copy_loop src' (room - 1) else []
  | [] => []
  end.
Definition safe_strcpy (src : list Z) (dstmax : Z) : bool * list Z :=
  let dst := copy_loop src (u64 (dstmax - 1)) in
  (char_at src (length dst) =? 0, dst ++ [0]).

Fixpoint xor_all (a b : list Z) (delta : Z) : Z :=
  match a, b with
  | x :: a', y :: b' => xor_all a' b' (Z.lor delta (Z.lxor x y))
  | _, _ => delta
  end.
Definition safe_memcmp (a b : list Z) (len : nat) : bool := xor_all (take len a) (take len b) 0 =? 0.

(** [mc_swap64] on a little-endian machine. *)
Fixpoint swap_loop (n : nat) (rv x : Z) : Z :=
  match n with
  | O => rv
  | S n' => swap_loop n' (Z.lor (u64 (Z.shiftl rv 8)) (Z.land x 255)) (Z.shiftr x 8)
  end.
Definition mc_swap64 (x : Z) : Z := swap_loop 8 0 x.
Definition ntohll (x : Z) : Z := mc_swap64 x.
Definition htonll (x : Z) : Z := mc_swap64 x.

(** ** Decimal notation *)

(** The [n] low digits of [u]. *)
Fixpoint dec_pad (n : nat) (u : Z) : list Z :=
  match n with
  | O => []
  | S n' => dec_pad n' (u / 10) ++ [48 + u mod 10]
  end.

Fixpoint dec_rec (n : nat) (u : Z) : list Z :=
  match n with
  | O => [48 + u]
  | S n' => if u <? 10 then [48 + u] else dec_rec n' (u / 10) ++ [48 + u mod 10]
  end.

(** The decimal notation of [u], without leading zeros. *)
Definition decimal (u : Z) : list Z := dec_rec (Z.to_nat (Z.log2 u + 1)) u.

Definition decimal_signed (i : Z) : list Z := if i <? 0 then 45 :: decimal (- i) else decimal i.

Lemma dec_rec_fuel n m u :
  0 <= u < 2 ^ Z.of_nat n -> (n <= m)%nat -> dec_rec m u = dec_rec n u.
Proof.
  revert m u. induction n as [|n IH]; intros m u Hu Hm.
  - replace u with 0 by lia. by destruct m.
  - destruct m as [|m]; [lia|]. simpl. case_match; [done|].
    rewrite (IH m); [done| |lia].
    rewrite Nat2Z.inj_succ, Z.pow_succ_r in Hu by lia. div_lia.
Qed.

Lemma log2_fuel u : 0 <= u -> 0 <= u < 2 ^ Z.of_nat (Z.to_nat (Z.log2 u + 1)).
Proof.
  intros Hu. pose proof (Z.log2_nonneg u). rewrite Z2Nat.id by lia.
  destruct (decide (u = 0)) as [->|]; [done|]. pose proof (Z.log2_spec u). lia.
Qed.

Lemma decimal_eq u :
  0 <= u -> decimal u = if u <? 10 then [48 + u] else decimal (u / 10) ++ [48 + u mod 10].
Proof.
  intros Hu. unfold decimal. pose proof (log2_fuel u Hu) as Hf.
  rewrite <- (dec_rec_fuel _ (S (Z.to_nat (Z.log2 u + 1))) u Hf) by lia.
  cbn [dec_rec]. case_match; [done|]. f_equal.
  apply dec_rec_fuel; [apply log2_fuel; div_lia|].
  pose proof (Z.log2_le_mono (u / 10) u ltac:(div_lia)). lia.
Qed.

Lemma mod_mul_ten u k :
  0 < k -> u mod (10 * k) / 10 = (u / 10) mod k /\ (u mod (10 * k)) mod 10 = u mod 10.
Proof.
  intros Hk. rewrite Z.rem_mul_r by lia. pose proof (Z.mod_pos_bound u 10 ltac:(lia)).
  set (q := (u / 10) mod k). div_lia.
Qed.

Lemma dec_pad_app n m u :
  0 <= u -> dec_pad (n + m) u = dec_pad n (u / 10 ^ Z.of_nat m) ++ dec_pad m (u mod 10 ^ Z.of_nat m).
Proof.
  revert u. induction m as [|m IH]; intros u Hu.
  - rewrite Nat.add_0_r, app_nil_r, Z.div_1_r. done.
  - rewrite Nat.add_succ_r. cbn [dec_pad]. rewrite IH by div_lia.
    rewrite Nat2Z.inj_succ, Z.pow_succ_r by lia.
    set (k := 10 ^ Z.of_nat m). assert (0 < k) by (apply Z.pow_pos_nonneg; lia).
    rewrite Z.div_div, <- app_assoc by lia.
    destruct (mod_mul_ten u k) as [-> ->]; done.
Qed.

Lemma decimal_pad n u :
  10 ^ Z.of_nat n <= u < 10 ^ Z.of_nat (S n) -> decimal u = dec_pad (S n) u.
Proof.
  revert u. induction n as [|n IH]; intros u Hu.
  - change (1 <= u < 10) in Hu. rewrite decimal_eq by lia. simpl.
    rewrite Z.mod_small by lia. case_match; [done|lia].
  - rewrite !Nat2Z.inj_succ, !Z.pow_succ_r in Hu by lia.
    assert (0 < 10 ^ Z.of_nat n) by (apply Z.pow_pos_nonneg; lia).
    rewrite decimal_eq by lia. case_match; [lia|].
    rewrite (IH (u / 10)); [done|]. rewrite Nat2Z.inj_succ, Z.pow_succ_r by lia. div_lia.
Qed.

Lemma decimal_app m u :
  0 < u / 10 ^ Z.of_nat m ->
  decimal u = decimal (u / 10 ^ Z.of_nat m) ++ dec_pad m (u mod 10 ^ Z.of_nat m).
Proof.
  revert u. induction m as [|m IH]; intros u Hu.
  - rewrite Z.div_1_r, app_nil_r. done.
  - rewrite Nat2Z.inj_succ, Z.pow_succ_r in * by lia.
    set (k := 10 ^ Z.of_nat m) in *. assert (0 < k) by (apply Z.pow_pos_nonneg; lia).
    rewrite <- Z.div_div in * by lia.
    pose proof (Z.mul_div_le (u / 10) k ltac:(done)). assert (1 <= u / 10) by nia.
    assert (10 <= u) by div_lia.
    rewrite (decimal_eq u) by lia. case_match; [lia|].
    rewrite (IH (u / 10)) by done. cbn [dec_pad]. rewrite <- app_assoc.
    destruct (mod_mul_ten u k) as [-> ->]; done.
Qed.

(** ** [itoa] prints decimal notation *)
Lemma out2_pad d : 0 <= d < 100 -> out2 d = dec_pad 2 d.
Proof.
  intros Hd. assert (Forall (fun d => out2 d = dec_pad 2 d) (seqZ 0 100)) as H
    by (apply (bool_decide_unpack _); vm_compute; exact I).
  rewrite Forall_forall in H. apply H, elem_of_seqZ. lia.
Qed.

(** Two more digits, and the number left behind them. *)
Lemma out2_step n u :
  0 <= u < 100 * 10 ^ Z.of_nat n ->
  dec_pad (2 + n) u = out2 (u / 10 ^ Z.of_nat n) ++ dec_pad n (u mod 10 ^ Z.of_nat n).
Proof.
  intros Hu. assert (0 < 10 ^ Z.of_nat n) by (apply Z.pow_pos_nonneg; lia).
  rewrite dec_pad_app, out2_pad by first [lia | split; [apply Z.div_pos; lia | apply Z.div_lt_upper_bound; lia]].
  done.
Qed.

(** A subtraction of the leading digits leaves the remainder. *)
Lemma sub_leading u k : in_width 32 u -> 0 < k -> u32 (u - u / k * k) = u mod k.
Proof.
  intros Hu Hk. replace (u - u / k * k) with (u mod k) by (rewrite Z.mod_eq by lia; lia).
  apply wrap_small. pose proof (Z.mod_pos_bound u k Hk).
  pose proof (Z.mod_le u k). unfold in_width in *. lia.
Qed.

(** One case of the [switch] and the fall through, for the even and the odd cases. *)
Lemma itoa_even k u d :
  (k < 5)%nat ->
  itoa u d (2 * Z.of_nat k + 2) =
  out2 (u / 10 ^ Z.of_nat (2 * k)) ++ itoa u (u / 10 ^ Z.of_nat (2 * k)) (2 * Z.of_nat k + 1).
Proof.
  intros Hk. do 5 (destruct k as [|k]; [unfold itoa; cbn -[u32 out2 Z.div];
    rewrite ?app_nil_r, <- ?app_assoc; reflexivity|]). lia.
Qed.

Lemma itoa_odd k u d :
  (k < 4)%nat ->
  itoa u d (2 * Z.of_nat k + 3) =
  itoa (u32 (u - d * 10 ^ Z.of_nat (2 * S k))) d (2 * Z.of_nat k + 2).
Proof. intros Hk. do 4 (destruct k as [|k]; [reflexivity|]). lia. Qed.

(** With an even [n] all digits are written; with an odd one those behind [d]. *)
Lemma itoa_pad k :
  (k < 5)%nat ->
  (forall u d, in_width 32 u -> u < 10 ^ Z.of_nat (2 * S k) ->
     itoa u d (2 * Z.of_nat k + 2) = dec_pad (2 * S k) u) /\
  (forall u, in_width 32 u ->
     itoa u (u / 10 ^ Z.of_nat (2 * k)) (2 * Z.of_nat k + 1) =
     dec_pad (2 * k) (u mod 10 ^ Z.of_nat (2 * k))).
Proof.
  intros Hk.
  assert (forall u, in_width 32 u ->
     itoa u (u / 10 ^ Z.of_nat (2 * k)) (2 * Z.of_nat k + 1) =
     dec_pad (2 * k) (u mod 10 ^ Z.of_nat (2 * k))) as Hodd.
  2: { split; [|done]. intros u d Hu Hlt. rewrite itoa_even, Hodd by done.
       replace (2 * S k)%nat with (2 + 2 * k)%nat in * by lia. symmetry. apply out2_step.
       rewrite Nat2Z.inj_add, Z.pow_add_r in Hlt by lia. unfold in_width in Hu. lia. }
  induction k as [|k IH]; intros u Hu; [reflexivity|].
  replace (2 * Z.of_nat (S k) + 1) with (2 * Z.of_nat k + 3) by lia.
  assert (0 < 10 ^ Z.of_nat (2 * S k)) as Hp by (apply Z.pow_pos_nonneg; lia).
  rewrite itoa_odd, sub_leading by (done || lia).
  pose proof (Z.mod_pos_bound u _ Hp) as Hm. pose proof (Z.mod_le u _ ltac:(apply Hu) Hp).
  set (v := u mod 10 ^ Z.of_nat (2 * S k)) in *.
  assert (in_width 32 v) by (unfold in_width in *; lia).
  rewrite itoa_even, IH by (done || lia).
  replace (2 * S k)%nat with (2 + 2 * k)%nat in * by lia. symmetry. apply out2_step.
  rewrite Nat2Z.inj_add, Z.pow_add_r in Hm by lia. lia.
Qed.

(** The leading digits [itoa_u32] decides on, with [k] pairs of digits behind. *)
Lemma itoa_u32_case k u :
  (k < 5)%nat -> in_width 32 u -> 10 ^ Z.of_nat (2 * k) <= u \/ k = 0%nat ->
  u < 10 ^ Z.of_nat (2 * S k) ->
  (let '(d, p, n) := digits u (10 ^ Z.of_nat (2 * k)) 0 (2 * Z.of_nat k + 2) in p ++ itoa u d n)
  = decimal u.
Proof.
  intros Hk Hu Hlo Hhi. destruct (itoa_pad k Hk) as [He Ho].
  assert (0 < 10 ^ Z.of_nat (2 * k)) as Hp by (apply Z.pow_pos_nonneg; lia).
  replace (2 * S k)%nat with (S (S (2 * k))) in * by lia.
  assert (u < 10 * 10 ^ Z.of_nat (2 * k) \/ 10 ^ Z.of_nat (S (2 * k)) <= u) as Hc
    by (rewrite Nat2Z.inj_succ, Z.pow_succ_r by lia; lia).
  unfold digits. destruct Hc as [Hc|Hc].
  - assert (u32 (10 ^ Z.of_nat (2 * k) * 10) = 10 ^ Z.of_nat (2 * k) * 10) as ->
      by (do 5 (destruct k as [|k]; [reflexivity|]); lia).
    destruct (Z.ltb_spec u (10 ^ Z.of_nat (2 * k) * 10)); [|lia].
    replace (2 * Z.of_nat k + 2 - 1) with (2 * Z.of_nat k + 1) by lia. rewrite Ho by done.
    destruct Hlo as [Hlo| ->].
    + assert (0 < u / 10 ^ Z.of_nat (2 * k)) by (apply Z.div_str_pos; lia).
      rewrite (decimal_app (2 * k) u) by done. f_equal.
      rewrite decimal_eq by lia. rewrite (proj2 (Z.ltb_lt _ _)); [done|].
      apply Z.div_lt_upper_bound; lia.
    + cbn in *. rewrite Z.div_1_r in *. unfold in_width in Hu. rewrite decimal_eq by lia.
      case_match; [done|lia].
  - destruct (Z.ltb_spec u (u32 (10 ^ Z.of_nat (2 * k) * 10))) as [Hw|Hw].
    { pose proof (Z.mod_le (10 ^ Z.of_nat (2 * k) * 10) (2 ^ 32) ltac:(lia) ltac:(lia)).
      rewrite Nat2Z.inj_succ, Z.pow_succ_r in Hc by lia. unfold wrap in Hw. lia. }
    cbn [app]. rewrite He by done. symmetry. by apply decimal_pad.
Qed.

Lemma itoa_u32_decimal u : in_width 32 u -> itoa_u32 u = decimal u.
Proof.
  intros Hu. unfold itoa_u32. pose proof Hu as [Hu0 Hu1].
  destruct (Z.leb_spec 100000000 u); [apply (itoa_u32_case 4); (done || lia)|].
  destruct (Z.ltb_spec u 100); [apply (itoa_u32_case 0); (done || lia)|].
  destruct (Z.ltb_spec u 10000); [apply (itoa_u32_case 1); (done || lia)|].
  destruct (Z.ltb_spec u 1000000); [apply (itoa_u32_case 2)|apply (itoa_u32_case 3)]; (done || lia).
Qed.

(** The digits [itoa_u64] writes behind those of the quotient. *)
Lemma itoa_lower v :
  0 <= v < 1000000000 -> out1 (48 + v / 100000000) ++ itoa v (v / 100000000) 9 = dec_pad 9 v.
Proof.
  intros Hv. destruct (itoa_pad 4 ltac:(lia)) as [_ Ho]. specialize (Ho v ltac:(unfold in_width; lia)).
  change (2 * Z.of_nat 4 + 1) with 9 in Ho. change (10 ^ Z.of_nat (2 * 4)) with 100000000 in Ho.
  rewrite Ho. change (dec_pad 9 v) with (dec_pad (1 + 8) v). rewrite dec_pad_app by lia. change (10 ^ Z.of_nat 8) with 100000000.
  cbn [dec_pad]. rewrite (Z.mod_small (v / 100000000)) by div_lia. done.
Qed.

Lemma itoa_u64_rec_decimal fuel u :
  0 <= u < 2 ^ 32 * 1000000000 ^ Z.of_nat fuel -> u < 2 ^ 64 -> itoa_u64_rec fuel u = decimal u.
Proof.
  revert u. induction fuel as [|fuel IH]; intros u Hu H64; cbn [itoa_u64_rec].
  all: destruct (Z.eqb_spec (u32 u) u) as [E|E];
    [rewrite E; apply itoa_u32_decimal; rewrite <- E; by apply wrap_range|].
  { destruct E. apply wrap_small. unfold in_width. lia. }
  assert (2 ^ 32 <= u) by (destruct (decide (u < 2 ^ 32)); [destruct E; apply wrap_small; unfold in_width|]; lia).
  rewrite Nat2Z.inj_succ, Z.pow_succ_r in Hu by lia.
  rewrite IH by (set (k := 1000000000 ^ Z.of_nat fuel) in *; div_lia).
  replace (u - u / 1000000000 * 1000000000) with (u mod 1000000000) by div_lia.
  rewrite (wrap_small 64), (wrap_small 32) by (unfold in_width; div_lia).
  rewrite <- app_assoc, itoa_lower by div_lia.
  rewrite (decimal_app 9 u); [done|]. change (10 ^ Z.of_nat 9) with 1000000000. div_lia.
Qed.

Lemma itoa_u64_decimal u : in_width 64 u -> itoa_u64 u = decimal u.
Proof. unfold in_width. intros Hu. apply itoa_u64_rec_decimal; lia. Qed.

Lemma itoa_64_decimal i : - 2 ^ 63 <= i < 2 ^ 63 -> itoa_64 i = decimal_signed i.
Proof.
  intros Hi. unfold itoa_64, decimal_signed. destruct (Z.ltb_spec i 0).
  - f_equal. assert (u64 (- u64 i) = - i) as -> by (unfold wrap; div_lia).
    apply itoa_u64_decimal. unfold in_width. lia.
  - rewrite wrap_small by (unfold in_width; lia). apply itoa_u64_decimal. unfold in_width. lia.
Qed.

(** ** Reading decimal notation *)
Lemma digit_of_char d : 0 <= d < 10 -> digit_of 10 (48 + d) = Some d.
Proof.
  intros Hd. unfold digit_of. replace (48 + d - 48) with d by lia.
  repeat (case_match; try lia); done.
Qed.

Lemma dec_rec_scan n u t acc :
  0 <= u < 2 ^ Z.of_nat n ->
  scan_digits 10 (dec_rec n u ++ t) acc =
  let '(v, k) := scan_digits 10 t (acc * 10 ^ Z.of_nat (length (dec_rec n u)) + u) in
  (v, (length (dec_rec n u) + k)%nat).
Proof.
  revert u t acc. induction n as [|n IH]; intros u t acc Hu; cbn [dec_rec].
  { replace u with 0 by lia. cbn [app scan_digits length]. by rewrite (digit_of_char 0) by lia. }
  destruct (Z.ltb_spec u 10).
  { cbn [app scan_digits length]. by rewrite digit_of_char by lia. }
  rewrite Nat2Z.inj_succ, Z.pow_succ_r in Hu by lia.
  rewrite <- app_assoc, IH by div_lia. cbn [app scan_digits].
  rewrite digit_of_char by div_lia. rewrite length_app. cbn [length].
  rewrite Nat2Z.inj_add, Z.pow_add_r by lia. change (10 ^ Z.of_nat 1) with 10.
  replace ((acc * 10 ^ Z.of_nat (length (dec_rec n (u / 10))) + u / 10) * 10 + u mod 10)
    with (acc * (10 ^ Z.of_nat (length (dec_rec n (u / 10))) * 10) + u)
    by (pose proof (Z.div_mod u 10 ltac:(lia)); lia).
  destruct (scan_digits 10 t _) as [v k]. f_equal. lia.
Qed.

Lemma decimal_scan u : 0 <= u -> scan_digits 10 (decimal u) 0 = (u, length (decimal u)).
Proof.
  intros Hu. rewrite <- (app_nil_r (decimal u)) at 1. unfold decimal at 1.
  rewrite dec_rec_scan by by apply log2_fuel. fold (decimal u). cbn. by rewrite Nat.add_0_r.
Qed.

Lemma dec_rec_head n u :
  0 <= u < 2 ^ Z.of_nat n -> exists c t, dec_rec n u = c :: t /\ 48 <= c <= 57.
Proof.
  revert u. induction n as [|n IH]; intros u Hu; cbn [dec_rec].
  { exists (48 + u), []. split; [done|lia]. }
  destruct (Z.ltb_spec u 10); [exists (48 + u), []; split; [done|lia]|].
  rewrite Nat2Z.inj_succ, Z.pow_succ_r in Hu by lia.
  destruct (IH (u / 10)) as (c & t & -> & Hc); [div_lia|]. by exists c, (t ++ [48 + u mod 10]).
Qed.

(** A decimal number, behind a minus sign or not, is read to its end. *)
Lemma scan_decimal u (neg : bool) :
  0 <= u ->
  scan_number 10 ((if neg then [45] else []) ++ decimal u) =
  (neg, u, length ((if neg then [45] else []) ++ decimal u)).
Proof.
  intros Hu. destruct (dec_rec_head _ _ (log2_fuel u Hu)) as (c & t & E & Hc).
  fold (decimal u) in E. pose proof (decimal_scan u Hu) as Hs. rewrite E in *.
  unfold scan_number. destruct neg; cbn -[scan_digits].
  - destruct t as [|? [|??]]; cbn -[scan_digits]; rewrite Hs; done.
  - unfold isspace. rewrite (proj2 (Z.eqb_neq c 32)), (proj2 (Z.leb_gt c 13)), andb_false_r by lia.
    cbn -[scan_digits]. rewrite (proj2 (Z.eqb_neq c 45)), (proj2 (Z.eqb_neq c 43)) by lia.
    destruct t as [|? [|??]]; cbn -[scan_digits]; rewrite Hs; done.
Qed.

Lemma dec_rec_no_sign n u : 0 <= u < 2 ^ Z.of_nat n -> strchr (dec_rec n u) 45 = false.
Proof.
  unfold strchr. revert u. induction n as [|n IH]; intros u Hu; cbn [dec_rec].
  { by replace u with 0 by lia. }
  destruct (Z.ltb_spec u 10); [cbn [existsb]; lia|].
  rewrite Nat2Z.inj_succ, Z.pow_succ_r in Hu by lia.
  rewrite existsb_app, IH by div_lia. cbn [existsb orb].
  pose proof (Z.mod_pos_bound u 10 ltac:(lia)). lia.
Qed.

Lemma char_at_end s : char_at s (length s) = 0.
Proof. unfold char_at. by rewrite lookup_ge_None_2. Qed.

Lemma safe_strtoull_decimal u : in_width 64 u -> safe_strtoull (decimal u) = Some u.
Proof.
  intros [Hu0 Hu1]. unfold safe_strtoull, safe_unsigned, strtoull.
  pose proof (scan_decimal u false Hu0) as E. cbn [app] in E. rewrite E.
  rewrite (proj2 (Z.leb_gt (2 ^ 64) u)), char_at_end by lia.
  destruct (dec_rec_head _ _ (log2_fuel u Hu0)) as (c & t & Ec & _). fold (decimal u) in Ec.
  unfold decimal at 3. rewrite dec_rec_no_sign, andb_false_r by by apply log2_fuel.
  rewrite wrap_small by done. rewrite Ec. done.
Qed.

Lemma safe_strtoll_decimal i :
  - 2 ^ 63 <= i < 2 ^ 63 -> safe_strtoll (decimal_signed i) = Some i.
Proof.
  intros Hi. unfold safe_strtoll, safe_signed, strtoll.
  assert (decimal_signed i = (if i <? 0 then [45] else []) ++ decimal (Z.abs i)) as ->.
  { unfold decimal_signed. destruct (Z.ltb_spec i 0).
    - by rewrite Z.abs_neq by lia.
    - by rewrite Z.abs_eq by lia. }
  rewrite scan_decimal by lia.
  replace (if i <? 0 then - Z.abs i else Z.abs i) with i by (destruct (Z.ltb_spec i 0); lia).
  rewrite (proj2 (Z.ltb_ge _ _)), (proj2 (Z.leb_gt _ _)), char_at_end by lia.
  destruct (dec_rec_head _ _ (log2_fuel (Z.abs i) ltac:(lia))) as (c & t & Ec & _).
  fold (decimal (Z.abs i)) in Ec. rewrite Ec. by destruct (i <? 0).
Qed.

(** [itoa_u64] and [itoa_64] print the decimal notation of every 64-bit number, unsigned
    and signed, and [safe_strtoull] and [safe_strtoll] read it back to the same number. *)
Theorem itoa_roundtrip (u i : Z) (Hu : in_width 64 u) (Hi : - 2 ^ 63 <= i < 2 ^ 63) :
  itoa_u64 u = decimal u /\ safe_strtoull (itoa_u64 u) = Some u /\
  itoa_64 i = decimal_signed i /\ safe_strtoll (itoa_64 i) = Some i.
Proof.
  rewrite itoa_u64_decimal, itoa_64_decimal by done.
  auto using safe_strtoull_decimal, safe_strtoll_decimal.
Qed.

Lemma itoa_roundtrip_witness :
  itoa_u64 18446744073709551615 = bytes_of "18446744073709551615" /\
  safe_strtoull (itoa_u64 18446744073709551615) = Some 18446744073709551615 /\
  safe_strtoll (itoa_64 (-42)) = Some (-42).
Proof.
  destruct (itoa_roundtrip 18446744073709551615 (-42)) as (H1 & H2 & _ & H4);
    [unfold in_width; lia|lia|]. split; [rewrite H1; vm_compute; reflexivity|exact (conj H2 H4)].
Defined.

(** ** The other routines of util.c *)

(** What [uriencode] writes for one byte. *)
Definition uri_bytes (c : Z) : list Z := default [c] (uriencode_map c).

Lemma uri_bytes_length c : (1 <= length (uri_bytes c) <= 3)%nat.
Proof. unfold uri_bytes, uriencode_map. case_match; simpl; lia. Qed.

Lemma uriencode_loop_step c src dst dstlen :
  uriencode_loop (c :: src) dst dstlen =
  if dstlen <? Z.of_nat (length dst) + 4 then (false, dst)
  else uriencode_loop src (dst ++ uri_bytes c) dstlen.
Proof. cbn [uriencode_loop]. unfold uri_bytes. by destruct (uriencode_map c). Qed.

Lemma uriencode_loop_spec src dst dstlen :
  Z.of_nat (length dst) < dstlen ->
  let '(ok, out) := uriencode_loop src dst dstlen in
  Z.of_nat (length out) <= dstlen /\
  (ok = true -> out = dst ++ (src ≫= uri_bytes) ++ [0]) /\
  (Z.of_nat (length dst) + Z.of_nat (length (src ≫= uri_bytes)) + 3 <= dstlen -> ok = true).
Proof.
  revert dst. induction src as [|c src IH]; intros dst Hd.
  { cbn. rewrite length_app. cbn. split_and!; [lia|done|done]. }
  rewrite uriencode_loop_step. pose proof (uri_bytes_length c) as Hc.
  destruct (Z.ltb_spec dstlen (Z.of_nat (length dst) + 4)).
  - split_and!; [lia|done|]. cbn [mbind list_bind]. rewrite length_app. lia.
  - specialize (IH (dst ++ uri_bytes c)). rewrite length_app in IH.
    destruct (uriencode_loop src _ dstlen) as [ok out].
    destruct IH as (H1 & H2 & H3); [lia|]. split_and!; [done| |].
    + intros E. rewrite H2 by done. cbn. by rewrite <- !app_assoc.
    + cbn. rewrite length_app. intros. apply H3. lia.
Qed.

(** A byte and the text of its code determine each other: no code of a byte is a prefix
    of another's, so encoded text can be read back. *)
Definition is_prefix (a b : list Z) : bool := bool_decide (take (length a) b = a).

Lemma uri_bytes_prefix_free x y :
  in_width 8 x -> in_width 8 y -> is_prefix (uri_bytes x) (uri_bytes y) = true -> x = y.
Proof.
  intros Hx Hy Hp. unfold in_width in *.
  assert (forallb (fun c => forallb (fun c' => (c =? c') || negb (is_prefix (uri_bytes c) (uri_bytes c')))
                            (seqZ 0 256)) (seqZ 0 256) = true) as F by (vm_compute; reflexivity).
  rewrite forallb_forall in F.
  specialize (F x). rewrite <- list_elem_of_In, elem_of_seqZ, forallb_forall in F.
  specialize (F ltac:(lia) y). rewrite <- list_elem_of_In, elem_of_seqZ in F.
  specialize (F ltac:(lia)). rewrite Hp, orb_false_r in F. lia.
Qed.

Lemma uri_bytes_app_inj c c' s s' :
  in_width 8 c -> in_width 8 c' -> uri_bytes c ++ s = uri_bytes c' ++ s' -> c = c' /\ s = s'.
Proof.
  intros Hc Hc' E.
  enough (c = c') as -> by (split; [done|by apply (app_inv_head (uri_bytes c'))]).
  destruct (le_dec (length (uri_bytes c)) (length (uri_bytes c'))).
  - apply uri_bytes_prefix_free; [done..|]. unfold is_prefix. apply bool_decide_eq_true.
    apply (f_equal (take (length (uri_bytes c)))) in E.
    rewrite take_app_length, take_app_le in E by lia. done.
  - symmetry. apply uri_bytes_prefix_free; [done..|]. unfold is_prefix. apply bool_decide_eq_true.
    apply (f_equal (take (length (uri_bytes c')))) in E.
    rewrite take_app_length, take_app_le in E by lia. done.
Qed.

Lemma uri_text_inj s s' :
  Forall (in_width 8) s -> Forall (in_width 8) s' ->
  s ≫= uri_bytes = s' ≫= uri_bytes -> s = s'.
Proof.
  revert s'. induction s as [|c s IH]; intros [|c' s'] Hs Hs' E; cbn in E.
  - done.
  - pose proof (uri_bytes_length c') as Hl. destruct (uri_bytes c'); [simpl in Hl; lia|done].
  - pose proof (uri_bytes_length c) as Hl. destruct (uri_bytes c); [simpl in Hl; lia|done].
  - inversion Hs; inversion Hs'; subst.
    apply uri_bytes_app_inj in E as [-> E]; [|done..]. f_equal. by apply IH.
Qed.

(** [uriencode] never writes past a non-empty buffer; it succeeds when three bytes are
    free behind the encoded text; and two keys with the same encoding are the same key. *)
Theorem uriencode_safe (key key' : list Z) (dstlen dstlen' : Z)
    (Hk : Forall (in_width 8) key) (Hk' : Forall (in_width 8) key')
    (Hd : 0 < dstlen) (Hd' : 0 < dstlen') :
  Z.of_nat (length (uriencode key dstlen).2) <= dstlen /\
  (Z.of_nat (length (key ≫= uri_bytes)) + 3 <= dstlen -> (uriencode key dstlen).1 = true) /\
  ((uriencode key dstlen).1 = true -> uriencode key dstlen = uriencode key' dstlen' -> key = key').
Proof.
  pose proof (uriencode_loop_spec key [] dstlen Hd) as H.
  pose proof (uriencode_loop_spec key' [] dstlen' Hd') as H'. unfold uriencode.
  destruct (uriencode_loop key [] dstlen) as [ok out], (uriencode_loop key' [] dstlen') as [ok' out'].
  destruct H as (H1 & H2 & H3), H' as (_ & H2' & _). cbn [fst snd] in *.
  split_and!; [done|intros; apply H3; simpl; lia|].
  intros -> [= <- ->]. rewrite H2 in H2' by done. specialize (H2' eq_refl).
  cbn in H2'. apply app_inv_tail in H2'. by apply uri_text_inj.
Qed.

Lemma uriencode_safe_witness :
  (uriencode (bytes_of "a key/1") 16).1 = true /\
  (uriencode (bytes_of "a key/1") 16 = uriencode (bytes_of "a key/2") 16 ->
   bytes_of "a key/1" = bytes_of "a key/2").
Proof.
  assert (forall s, forallb (fun c => (0 <=? c) && (c <? 256)) s = true -> Forall (in_width 8) s) as W.
  { intros s. rewrite forallb_forall, Forall_forall. intros H x Hx%list_elem_of_In.
    specialize (H x Hx). unfold in_width. lia. }
  destruct (uriencode_safe (bytes_of "a key/1") (bytes_of "a key/2") 16 16) as (_ & H2 & H3);
    [apply W; reflexivity|apply W; reflexivity|lia|lia|].
  split; [apply H2; vm_compute; discriminate|apply H3; vm_compute; reflexivity].
Defined.

(** The 32-bit conversion keeps the low half of a number that does not fit, and an
    unsigned conversion accepts a minus sign when the negated number is below 2^63. *)
Theorem safe_strtoul_accepts (u : Z) (Hu : in_width 64 u) :
  safe_strtoul (decimal u) = Some (u32 u) /\
  (2 ^ 63 < u -> safe_strtoull (45 :: decimal u) = Some (2 ^ 64 - u)).
Proof.
  split; [unfold safe_strtoul; fold (safe_strtoull (decimal u)); by rewrite safe_strtoull_decimal|].
  destruct Hu as [Hu0 Hu1]. intros Hb. unfold safe_strtoull, safe_unsigned, strtoull.
  pose proof (scan_decimal u true Hu0) as E. cbn [app] in E. rewrite E.
  rewrite (proj2 (Z.leb_gt (2 ^ 64) u)), char_at_end by lia.
  assert (u64 (- u) = 2 ^ 64 - u) as -> by (unfold wrap; div_lia).
  rewrite (proj2 (Z.leb_gt (2 ^ 63) (2 ^ 64 - u))) by lia. done.
Qed.

Lemma safe_strtoul_accepts_witness :
  safe_strtoul (decimal 4294967297) = Some 1 /\
  safe_strtoull (45 :: decimal 18446744073709551615) = Some 1.
Proof.
  split.
  - apply (safe_strtoul_accepts 4294967297). unfold in_width. lia.
  - apply (safe_strtoul_accepts 18446744073709551615); [unfold in_width; lia|lia].
Defined.

(** [mc_swap64] reverses the eight bytes. *)
Lemma le_val_snoc bs b : le_val (bs ++ [b]) = le_val bs + 2 ^ (8 * Z.of_nat (length bs)) * b.
Proof.
  induction bs as [|c bs IH]; cbn [app le_val length]; [change (2 ^ _) with 1; lia|].
  rewrite IH, Nat2Z.inj_succ. replace (8 * Z.succ _) with (8 + 8 * Z.of_nat (length bs)) by lia.
  rewrite Z.pow_add_r by lia. lia.
Qed.

Lemma swap_loop_spec n rv x :
  (n <= 8)%nat -> in_width (64 - 8 * Z.of_nat n) rv ->
  swap_loop n rv x = rv * 2 ^ (8 * Z.of_nat n) + le_val (rev (le_bytes n x)).
Proof.
  revert rv x. induction n as [|n IH]; intros rv x Hn [H0 H1]; cbn [swap_loop le_bytes rev]; [simpl; lia|].
  rewrite Nat2Z.inj_succ in *. pose proof (wrap_range 8 x ltac:(lia)) as Hb.
  assert (2 ^ (64 - 8 * Z.of_nat n) = 2 ^ (64 - 8 * Z.succ (Z.of_nat n)) * 2 ^ 8) as Hp
    by (rewrite <- Z.pow_add_r by lia; f_equal; lia).
  assert (2 ^ (64 - 8 * Z.of_nat n) <= 2 ^ 64) by (apply Z.pow_le_mono_r; lia).
  assert (Z.lor (u64 (Z.shiftl rv 8)) (Z.land x 255) = rv * 2 ^ 8 + wrap 8 x) as ->.
  { rewrite Z.shiftl_mul_pow2 by lia. change 255 with (2 ^ 8 - 1). rewrite land_mask by lia.
    rewrite wrap_small by (unfold in_width; lia). rewrite lor_disjoint' by (done || lia). lia. }
  unfold in_width in Hb. rewrite IH by (unfold in_width; lia).
  rewrite le_val_snoc, length_rev, length_le_bytes.
  replace (8 * Z.succ (Z.of_nat n)) with (8 + 8 * Z.of_nat n) by lia. rewrite Z.pow_add_r by lia. lia.
Qed.

Lemma mc_swap64_rev x : mc_swap64 x = le_val (rev (le_bytes 8 x)).
Proof. unfold mc_swap64. rewrite swap_loop_spec; [lia|lia|done]. Qed.

(** Converting to network order and back is the identity on 64-bit numbers. *)
Lemma ntohll_htonll x : in_width 64 x -> ntohll (htonll x) = x.
Proof.
  intros Hx. unfold ntohll, htonll. rewrite !mc_swap64_rev.
  set (bs := rev (le_bytes 8 x)).
  assert (length bs = 8%nat) as Hl by (unfold bs; by rewrite length_rev, length_le_bytes).
  rewrite <- Hl, le_bytes_val by (apply Forall_rev, le_bytes_width).
  unfold bs. rewrite rev_involutive, le_val_bytes. by apply wrap_small.
Qed.

(** ** Copying and comparing *)
Lemma xor_all_0 a b delta :
  length a = length b -> xor_all a b delta = 0 <-> delta = 0 /\ a = b.
Proof.
  revert b delta. induction a as [|x a IH]; intros [|y b] delta Hl; try done; cbn [xor_all].
  - naive_solver.
  - rewrite IH by (simpl in Hl; lia). rewrite Z.lor_eq_0_iff, Z.lxor_eq_0_iff. naive_solver.
Qed.

(** [safe_memcmp] is equality of the first [len] bytes. *)
Lemma safe_memcmp_spec a b len :
  (len <= length a)%nat -> (len <= length b)%nat ->
  safe_memcmp a b len = true <-> take len a = take len b.
Proof.
  intros Ha Hb. unfold safe_memcmp. rewrite Z.eqb_eq, xor_all_0 by (rewrite !length_take; lia).
  naive_solver.
Qed.

Lemma copy_loop_take src room :
  Forall (fun c => c <> 0) src -> copy_loop src room = take (Z.to_nat room) src.
Proof.
  intros Hs. revert room. induction Hs as [|c src Hc _ IH]; intros room; cbn [copy_loop].
  - by rewrite take_nil.
  - rewrite (proj2 (Z.eqb_neq c 0) Hc), andb_true_r. destruct (Z.ltb_spec 0 room).
    + rewrite IH. replace (Z.to_nat room) with (S (Z.to_nat (room - 1))) by lia. done.
    + by replace (Z.to_nat room) with O by lia.
Qed.

(** [safe_strcpy] writes a terminated string that fits the buffer, and reports whether
    the source was copied whole. *)
Lemma safe_strcpy_spec src dstmax :
  Forall (fun c => c <> 0) src -> 0 < dstmax < 2 ^ 64 ->
  let '(whole, dst) := safe_strcpy src dstmax in
  dst = take (Z.to_nat (dstmax - 1)) src ++ [0] /\ Z.of_nat (length dst) <= dstmax /\
  (whole = true <-> Z.of_nat (length src) < dstmax).
Proof.
  intros Hs Hd. unfold safe_strcpy. rewrite copy_loop_take, wrap_small by (done || unfold in_width; lia).
  split_and!; [done|rewrite length_app, length_take; simpl; lia|].
  rewrite Z.eqb_eq, length_take. unfold char_at. destruct (decide (Z.of_nat (length src) < dstmax)).
  - split; [done|]. intros _. by rewrite lookup_ge_None_2 by lia.
  - split; [|lia]. destruct (src !! _) as [c|] eqn:E; [|apply lookup_ge_None in E; lia].
    apply Forall_lookup_1 with (2 := E) in Hs. simpl. lia.
Qed.
