(* ===== verification/McHash.v ===== *)
(** * memcached: the hash functions of keys

    src/sw/apps/memcached/memcached: jenkins_hash.c (the little-endian routine, built
    without VALGRIND), murmur3_hash.c and hash.c.  A key is given as the memory from its
    first byte on, [k], which goes on behind the key: the routines read whole words, and
    [length] says how many bytes belong to the key.  [jenkins_hash] also depends on the
    two low bits of the key's address, [align]. *)

From S2P Require Import Prelude Wire.

Definition byte_at (k : list Z) (i : nat) : Z := default 0 (k !! i).
Definition half_at (k : list Z) (i : nat) : Z := le_val (slice (2 * i) 2 k).
Definition word_at (k : list Z) (i : nat) : Z := le_val (slice (4 * i) 4 k).

(** [x += y], [x -= y], [x * y] and [x << r] on [uint32_t]. *)
Definition add32 (x y : Z) : Z := u32 (x + y).
Definition sub32 (x y : Z) : Z := u32 (x - y).
Definition mul32 (x y : Z) : Z := u32 (x * y).
Definition shl32 (x r : Z) : Z := u32 (Z.shiftl x r).

(** ** jenkins_hash.c *)
Module Jenkins.

Definition rot (x k : Z) : Z := Z.lxor (shl32 x k) (Z.shiftr x (32 - k)).

Definition state : Type := Z * Z * Z.

Definition mix (s : state) : state :=
  let '(a, b, c) := s in
  let a := sub32 a c in let a := Z.lxor a (rot c 4) in let c := add32 c b in
  let b := sub32 b a in let b := Z.lxor b (rot a 6) in let a := add32 a c in
  let c := sub32 c b in let c := Z.lxor c (rot b 8) in let b := add32 b a in
  let a := sub32 a c in let a := Z.lxor a (rot c 16) in let c := add32 c b in
  let b := sub32 b a in let b := Z.lxor b (rot a 19) in let a := add32 a c in
  let c := sub32 c b in let c := Z.lxor c (rot b 4) in let b := add32 b a in
  (a, b, c).

Definition final (s : state) : state :=
  let '(a, b, c) := s in
  let c := Z.lxor c b in let c := sub32 c (rot b 14) in
  let a := Z.lxor a c in let a := sub32 a (rot c 11) in
  let b := Z.lxor b a in let b := sub32 b (rot a 25) in
  let c := Z.lxor c b in let c := sub32 c (rot b 16) in
  let a := Z.lxor a c in let a := sub32 a (rot c 4) in
  let b := Z.lxor b a in let b := sub32 b (rot a 14) in
  let c := Z.lxor c b in let c := sub32 c (rot b 24) in
  (a, b, c).

(** *** The three ways to read a block of twelve bytes *)
Definition block32 (k : list Z) (s : state) : state :=
  let '(a, b, c) := s in
  (add32 a (word_at k 0), add32 b (word_at k 1), add32 c (word_at k 2)).

Definition pair16 (k : list Z) (i : nat) : Z := u32 (half_at k i + shl32 (half_at k (S i)) 16).

Definition block16 (k : list Z) (s : state) : state :=
  let '(a, b, c) := s in
  (add32 a (pair16 k 0), add32 b (pair16 k 2), add32 c (pair16 k 4)).

Definition add_bytes (k : list Z) (i : nat) (x : Z) : Z :=
  let x := add32 x (byte_at k i) in
  let x := add32 x (shl32 (byte_at k (i + 1)) 8) in
  let x := add32 x (shl32 (byte_at k (i + 2)) 16) in
  add32 x (shl32 (byte_at k (i + 3)) 24).

Definition block8 (k : list Z) (s : state) : state :=
  let '(a, b, c) := s in (add_bytes k 0 a, add_bytes k 4 b, add_bytes k 8 c).

(** *** The last block; [None] is the return of [c] for an empty one *)
Definition last32 (length : nat) (k : list Z) (s : state) : option state :=
  let '(a, b, c) := s in
  let k0 := word_at k 0 in let k1 := word_at k 1 in let k2 := word_at k 2 in
  match length with
  | 12 => Some (add32 a k0, add32 b k1, add32 c k2)
  | 11 => Some (add32 a k0, add32 b k1, add32 c (Z.land k2 0xffffff))
  | 10 => Some (add32 a k0, add32 b k1, add32 c (Z.land k2 0xffff))
  | 9 => Some (add32 a k0, add32 b k1, add32 c (Z.land k2 0xff))
  | 8 => Some (add32 a k0, add32 b k1, c)
  | 7 => Some (add32 a k0, add32 b (Z.land k1 0xffffff), c)
  | 6 => Some (add32 a k0, add32 b (Z.land k1 0xffff), c)
  | 5 => Some (add32 a k0, add32 b (Z.land k1 0xff), c)
  | 4 => Some (add32 a k0, b, c)
  | 3 => Some (add32 a (Z.land k0 0xffffff), b, c)
  | 2 => Some (add32 a (Z.land k0 0xffff), b, c)
  | 1 => Some (add32 a (Z.land k0 0xff), b, c)
  | 0 => None
  | _ => Some (a, b, c)
  end%nat.

Definition last16 (length : nat) (k : list Z) (s : state) : option state :=
  let '(a, b, c) := s in
  let a' := add32 a (pair16 k 0) in
  let b' := add32 b (pair16 k 2) in
  match length with
  | 12 => Some (a', b', add32 c (pair16 k 4))
  | 11 => Some (a', b', add32 (add32 c (shl32 (byte_at k 10) 16)) (half_at k 4))
  | 10 => Some (a', b', add32 c (half_at k 4))
  | 9 => Some (a', b', add32 c (byte_at k 8))
  | 8 => Some (a', b', c)
  | 7 => Some (a', add32 (add32 b (shl32 (byte_at k 6) 16)) (half_at k 2), c)
  | 6 => Some (a', add32 b (half_at k 2), c)
  | 5 => Some (a', add32 b (byte_at k 4), c)
  | 4 => Some (a', b, c)
  | 3 => Some (add32 (add32 a (shl32 (byte_at k 2) 16)) (half_at k 0), b, c)
  | 2 => Some (add32 a (half_at k 0), b, c)
  | 1 => Some (add32 a (byte_at k 0), b, c)
  | 0 => None
  | _ => Some (a, b, c)
  end%nat.

(** Every case falls through to the smaller ones. *)
Definition last8 (length : nat) (k : list Z) (s : state) : option state :=
  let '(a, b, c) := s in
  let fall (n : nat) (x y : Z) := if (n <=? length)%nat then add32 x y else x in
  if (length =? 0)%nat then None
  else
    let c := fall 12%nat c (shl32 (byte_at k 11) 24) in
    let c := fall 11%nat c (shl32 (byte_at k 10) 16) in
    let c := fall 10%nat c (shl32 (byte_at k 9) 8) in
    let c := fall 9%nat c (byte_at k 8) in
    let b := fall 8%nat b (shl32 (byte_at k 7) 24) in
    let b := fall 7%nat b (shl32 (byte_at k 6) 16) in
    let b := fall 6%nat b (shl32 (byte_at k 5) 8) in
    let b := fall 5%nat b (byte_at k 4) in
    let a := fall 4%nat a (shl32 (byte_at k 3) 24) in
    let a := fall 3%nat a (shl32 (byte_at k 2) 16) in
    let a := fall 2%nat a (shl32 (byte_at k 1) 8) in
    let a := fall 1%nat a (byte_at k 0) in
    Some (a, b, c).

(** The loop [while (length > 12)] and the last block.  Each round takes twelve bytes
    off, so [length] rounds are enough. *)
Fixpoint rounds (block : list Z -> state -> state) (last : nat -> list Z -> state -> option state)
    (fuel length : nat) (k : list Z) (s : state) : Z :=
  match fuel with
  | S fuel' =>
      if (12 <? length)%nat then rounds block last fuel' (length - 12) (drop 12 k) (mix (block k s))
      else
        match last length k s with
        | Some s' => (final s').2
        | None => s.2
        end
  | O => s.2
  end.

Definition jenkins_hash (align : Z) (k : list Z) (length : nat) : Z :=
  let i := u32 (0xdeadbeef + u32 (Z.of_nat length) + 0) in
  let s := (i, i, i) in
  if Z.land align 3 =? 0 then rounds block32 last32 (S length) length k s
  else if Z.land align 1 =? 0 then rounds block16 last16 (S length) length k s
  else rounds block8 last8 (S length) length k s.

End Jenkins.

(** ** murmur3_hash.c *)
Module Murmur.

Definition rotl32 (x r : Z) : Z := Z.lor (shl32 x r) (Z.shiftr x (32 - r)).

Definition fmix32 (h : Z) : Z :=
  let h := Z.lxor h (Z.shiftr h 16) in
  let h := mul32 h 0x85ebca6b in
  let h := Z.lxor h (Z.shiftr h 13) in
  let h := mul32 h 0xc2b2ae35 in
  Z.lxor h (Z.shiftr h 16).

Definition c1 : Z := 0xcc9e2d51.
Definition c2 : Z := 0x1b873593.

Definition scramble (k1 : Z) : Z := mul32 (rotl32 (mul32 k1 c1) 15) c2.

(** The loop over the blocks, [nblocks] of them left from [k] on. *)
Fixpoint body (nblocks : nat) (k : list Z) (h1 : Z) : Z :=
  match nblocks with
  | O => h1
  | S n =>
      let h1 := Z.lxor h1 (scramble (word_at k 0)) in
      let h1 := rotl32 h1 13 in
      body n (drop 4 k) (u32 (h1 * 5 + 0xe6546b64))
  end.

Definition tail (length : nat) (tl : list Z) (h1 : Z) : Z :=
  let r := (length mod 4)%nat in
  let k1 := 0 in
  let k1 := if (3 <=? r)%nat then Z.lxor k1 (Z.shiftl (byte_at tl 2) 16) else k1 in
  let k1 := if (2 <=? r)%nat then Z.lxor k1 (Z.shiftl (byte_at tl 1) 8) else k1 in
  if (1 <=? r)%nat then Z.lxor h1 (scramble (Z.lxor k1 (byte_at tl 0))) else h1.

Definition MurmurHash3_x86_32 (k : list Z) (length : nat) : Z :=
  let nblocks := (length / 4)%nat in
  let h1 := body nblocks k 0 in
  let h1 := tail length (drop (nblocks * 4) k) h1 in
  fmix32 (u32 (Z.lxor h1 (Z.of_nat length))).

End Murmur.

(** ** hash.c *)
Inductive hashfunc_type := JENKINS_HASH | MURMUR3_HASH.

(** The function [hash] is set to. *)
Definition hash_init (type : hashfunc_type) (align : Z) (k : list Z) (length : nat) : Z :=
  match type with
  | JENKINS_HASH => Jenkins.jenkins_hash align k length
  | MURMUR3_HASH => Murmur.MurmurHash3_x86_32 k length
  end.

(** ** Words of 32 bits *)
Lemma add32_add32 x y z : add32 (add32 x y) z = add32 x (y + z).
Proof. unfold add32. by rewrite wrap_add_l, Z.add_assoc. Qed.

Lemma add32_wrap x y : add32 x (u32 y) = add32 x y.
Proof. apply wrap_add_r. Qed.

Lemma add32_comm x y : add32 x y = add32 y x.
Proof. unfold add32. f_equal. lia. Qed.

Lemma add32_width x y : in_width 32 (add32 x y).
Proof. by apply wrap_range. Qed.

Lemma sub32_width x y : in_width 32 (sub32 x y).
Proof. by apply wrap_range. Qed.

Lemma add32_sub32 x y : in_width 32 x -> add32 (sub32 x y) y = x.
Proof.
  intros Hx. unfold add32, sub32. rewrite wrap_add_l. replace (x - y + y) with x by lia.
  by apply wrap_small.
Qed.

Lemma sub32_add32 x y : in_width 32 x -> sub32 (add32 x y) y = x.
Proof.
  intros Hx. unfold add32, sub32. rewrite wrap_sub_l. replace (x + y - y) with x by lia.
  by apply wrap_small.
Qed.

Lemma lxor_cancel x y : Z.lxor (Z.lxor x y) y = x.
Proof. by rewrite Z.lxor_assoc, Z.lxor_nilpotent, Z.lxor_0_r. Qed.

Lemma shiftr_width w x r : 0 <= w -> 0 <= r -> in_width w x -> in_width w (Z.shiftr x r).
Proof.
  intros Hw Hr [Hx Bx]%width_bits; [|done]. apply width_bits; [done|]. split.
  - by apply Z.shiftr_nonneg.
  - intros n Hn. rewrite Z.shiftr_spec by lia. apply Bx. lia.
Qed.

Lemma rot_width x k : 0 <= k <= 32 -> in_width 32 x -> in_width 32 (Jenkins.rot x k).
Proof. intros Hk Hx. apply lxor_width; [done|by apply wrap_range|]. apply shiftr_width; (done || lia). Qed.

Create HintDb words.
#[export] Hint Resolve add32_width sub32_width : words.
#[export] Hint Extern 1 (in_width 32 (Z.lxor _ _)) => apply lxor_width; [lia| |] : words.
#[export] Hint Extern 1 (in_width 32 (Jenkins.rot _ _)) => apply rot_width; [lia|] : words.

(** ** Mixing loses nothing *)
Module Jenkins_reversible.
Import Jenkins.

Definition wf_state (s : state) : Prop :=
  in_width 32 s.1.1 /\ in_width 32 s.1.2 /\ in_width 32 s.2.

(** One line of [mix], the variables handed on in the roles they have in the next. *)
Definition line (k : Z) (s : state) : state :=
  let '(x, y, z) := s in (y, add32 z y, Z.lxor (sub32 x z) (rot z k)).

Definition unline (k : Z) (s : state) : state :=
  let '(y, z', x') := s in
  let z := sub32 z' y in (add32 (Z.lxor x' (rot z k)) z, y, z).

(** [mix] run backwards. *)
Definition unmix (s : state) : state :=
  unline 4 (unline 6 (unline 8 (unline 16 (unline 19 (unline 4 s))))).

Lemma mix_lines s : mix s = line 4 (line 19 (line 16 (line 8 (line 6 (line 4 s))))).
Proof. by destruct s as [[a b] c]. Qed.

Lemma line_wf k s : 0 <= k <= 32 -> wf_state s -> wf_state (line k s).
Proof.
  destruct s as [[x y] z]. intros Hk (Hx & Hy & Hz). unfold wf_state, line. cbn [fst snd] in *.
  auto 10 with words.
Qed.

Lemma unline_line k s : wf_state s -> unline k (line k s) = s.
Proof.
  destruct s as [[x y] z]. intros (Hx & Hy & Hz). cbn [fst snd] in *. unfold line, unline.
  by rewrite sub32_add32, lxor_cancel, add32_sub32.
Qed.

Lemma mix_wf s : wf_state s -> wf_state (mix s).
Proof. intros Hs. rewrite mix_lines. by repeat (apply line_wf; [lia|]). Qed.

Lemma unmix_mix s : wf_state s -> unmix (mix s) = s.
Proof.
  intros Hs. rewrite mix_lines. unfold unmix.
  rewrite !unline_line by (repeat (apply line_wf; [lia|]); done). done.
Qed.

Lemma final_width s : in_width 32 (final s).2.
Proof. destruct s as [[a b] c]. apply sub32_width. Qed.
End Jenkins_reversible.

Module Murmur_reversible.
Import Murmur.

Definition unfmix32 (h : Z) : Z :=
  let h := Z.lxor h (Z.shiftr h 16) in
  let h := mul32 h 0x7ed1b41d in
  let h := Z.lxor (Z.lxor h (Z.shiftr h 13)) (Z.shiftr h 26) in
  let h := mul32 h 0xa5cb9243 in
  Z.lxor h (Z.shiftr h 16).

Lemma xorshift_16 x :
  in_width 32 x ->
  let y := Z.lxor x (Z.shiftr x 16) in Z.lxor y (Z.shiftr y 16) = x.
Proof.
  intros [_ Hb]%width_bits; [|done]. cbv zeta. apply Z.bits_inj'. intros n Hn.
  rewrite !Z.lxor_spec, !Z.shiftr_spec, Z.lxor_spec, Z.shiftr_spec, (Hb (n + 16 + 16)) by lia.
  by destruct (Z.testbit x n), (Z.testbit x (n + 16)).
Qed.

Lemma xorshift_13 x :
  in_width 32 x ->
  let y := Z.lxor x (Z.shiftr x 13) in Z.lxor (Z.lxor y (Z.shiftr y 13)) (Z.shiftr y 26) = x.
Proof.
  intros [_ Hb]%width_bits; [|done]. cbv zeta. apply Z.bits_inj'. intros n Hn.
  rewrite !Z.lxor_spec, !Z.shiftr_spec, !Z.lxor_spec, !Z.shiftr_spec by lia.
  rewrite (Hb (n + 26 + 13)) by lia. replace (n + 13 + 13) with (n + 26) by lia.
  by destruct (Z.testbit x n), (Z.testbit x (n + 13)), (Z.testbit x (n + 26)).
Qed.

Lemma mul32_inverse m m' h : u32 (m * m') = 1 -> in_width 32 h -> mul32 (mul32 h m) m' = h.
Proof.
  intros Hm Hh. unfold mul32, wrap in *. rewrite Z.mul_mod_idemp_l by done.
  rewrite <- Z.mul_assoc, <- Z.mul_mod_idemp_r, Hm, Z.mul_1_r by done. by apply wrap_small.
Qed.

Lemma mul32_width h m : in_width 32 (mul32 h m).
Proof. by apply wrap_range. Qed.

Lemma xorshift_width h r : 0 <= r -> in_width 32 h -> in_width 32 (Z.lxor h (Z.shiftr h r)).
Proof. intros. apply lxor_width; [done..|]. by apply shiftr_width. Qed.

Lemma fmix32_width h : in_width 32 (fmix32 h).
Proof. apply xorshift_width; [done|]. apply mul32_width. Qed.

Lemma unfmix32_fmix32 h : in_width 32 h -> unfmix32 (fmix32 h) = h.
Proof.
  intros Hh. unfold fmix32, unfmix32. cbv zeta.
  rewrite xorshift_16 by apply mul32_width.
  rewrite mul32_inverse by (done || (apply xorshift_width; [done|apply mul32_width])).
  rewrite xorshift_13 by apply mul32_width.
  rewrite mul32_inverse by (done || (by apply xorshift_width)). by apply xorshift_16.
Qed.
End Murmur_reversible.

(** ** What the reads of a key depend on *)
Lemma le_val_take n m l :
  le_val (take (n + m) l) = le_val (take n l) + 2 ^ (8 * Z.of_nat n) * le_val (take m (drop n l)).
Proof.
  revert l. induction n as [|n IH]; intros l; cbn [Nat.add]; [rewrite drop_0; simpl le_val; lia|].
  destruct l as [|b l]; cbn [take drop le_val]; [rewrite take_nil; simpl; lia|].
  rewrite IH, Nat2Z.inj_succ. replace (8 * Z.succ _) with (8 + 8 * Z.of_nat n) by lia.
  rewrite Z.pow_add_r by lia. lia.
Qed.

Section Reads.
Context (k : list Z).
Hypothesis Hk : Forall (in_width 8) k.

(** The value of the [m] bytes from index [i] on. *)
Definition val_at (i m : nat) : Z := le_val (slice i m k).

Lemma val_at_split i m n : val_at i (m + n) = val_at i m + 2 ^ (8 * Z.of_nat m) * val_at (i + m) n.
Proof. unfold val_at, slice. by rewrite le_val_take, drop_drop. Qed.

Lemma val_at_0 i : val_at i 0 = 0.
Proof. done. Qed.

Lemma byte_at_val i : byte_at k i = val_at i 1.
Proof.
  unfold byte_at, val_at, slice. destruct (k !! i) as [b|] eqn:E.
  - rewrite (drop_S _ _ _ E). simpl. lia.
  - rewrite drop_ge by (by apply lookup_ge_None). done.
Qed.

Lemma val_at_width i m : in_width (8 * Z.of_nat m) (val_at i m).
Proof using Hk.
  assert (Forall (in_width 8) (slice i m k)) as Hf by by apply Forall_take, Forall_drop.
  apply le_val_bound in Hf. revert Hf. apply in_width_weaken. unfold slice. rewrite length_take. lia.
Qed.

Lemma val_at_mask i m n :
  (m <= n)%nat -> Z.land (val_at i n) (2 ^ (8 * Z.of_nat m) - 1) = val_at i m.
Proof using Hk.
  intros Hm. rewrite land_mask by lia. replace n with (m + (n - m))%nat by lia.
  rewrite val_at_split. unfold wrap. rewrite Z.mul_comm, Z.mod_add by (apply Z.pow_nonzero; lia).
  apply Z.mod_small, val_at_width.
Qed.

Lemma val_at_trunc i m n : le_val (slice i m (take n k)) = val_at i (m `min` (n - i)).
Proof. unfold val_at, slice. by rewrite skipn_firstn_comm, take_take. Qed.
End Reads.

Module Jenkins_reads.
Import Jenkins Jenkins_reversible.

(** The last block read as a block of the key's remaining bytes alone. *)
Definition last_ref (length : nat) (k : list Z) (s : state) : option state :=
  if (length =? 0)%nat then None else Some (block32 (take length k) s).

(** The hash of a key, with no regard to where it is in memory. *)
Definition jenkins_ref (key : list Z) : Z :=
  let i := u32 (0xdeadbeef + u32 (Z.of_nat (length key)) + 0) in
  rounds block32 last_ref (S (length key)) (length key) key (i, i, i).

Lemma add32_0 x : in_width 32 x -> add32 x 0 = x.
Proof. intros Hx. unfold add32. rewrite Z.add_0_r. by apply wrap_small. Qed.

Lemma add32_shl x y r : 0 <= r -> add32 x (shl32 y r) = add32 x (2 ^ r * y).
Proof. intros Hr. unfold shl32. rewrite Z.shiftl_mul_pow2, add32_wrap by done. f_equal. lia. Qed.

Section Blocks.
Context (k : list Z).
Hypothesis Hk : Forall (in_width 8) k.

Lemma word_at_val i : word_at k i = val_at k (4 * i) 4.
Proof. done. Qed.

Lemma half_at_val i : half_at k i = val_at k (2 * i) 2.
Proof. done. Qed.

Lemma add_pair16 x i : add32 x (pair16 k i) = add32 x (val_at k (2 * i) 4).
Proof.
  unfold pair16. rewrite add32_wrap, <- add32_add32, add32_shl, add32_add32 by lia.
  change 4%nat with (2 + 2)%nat. rewrite val_at_split, !half_at_val.
  replace (2 * S i)%nat with (2 * i + 2)%nat by lia. done.
Qed.

(** The values of the bytes of a word, in terms of those of its parts. *)
Lemma val_at_2 i : val_at k i 2 = val_at k i 1 + 2 ^ 8 * val_at k (i + 1) 1.
Proof. apply (val_at_split k i 1 1). Qed.

Lemma val_at_3 i : val_at k i 3 = val_at k i 2 + 2 ^ 16 * val_at k (i + 2) 1.
Proof. apply (val_at_split k i 2 1). Qed.

Lemma val_at_4 i : val_at k i 4 = val_at k i 3 + 2 ^ 24 * val_at k (i + 3) 1.
Proof. apply (val_at_split k i 3 1). Qed.

Lemma add_bytes_val i x : add_bytes k i x = add32 x (val_at k i 4).
Proof.
  unfold add_bytes. rewrite !add32_shl, !add32_add32, !byte_at_val by lia.
  f_equal. rewrite val_at_4, val_at_3, val_at_2. lia.
Qed.

Lemma block16_eq s : block16 k s = block32 k s.
Proof. destruct s as [[a b] c]. unfold block16, block32. by rewrite !add_pair16, !word_at_val. Qed.

Lemma block8_eq s : block8 k s = block32 k s.
Proof. destruct s as [[a b] c]. unfold block8, block32. by rewrite !add_bytes_val, !word_at_val. Qed.

(** What [last_ref] adds, by the values of the parts of the last block. *)
Lemma last_ref_val n a b c :
  (0 < n)%nat ->
  last_ref n k (a, b, c) =
  Some (add32 a (val_at k 0 (4 `min` n)), add32 b (val_at k 4 (4 `min` (n - 4))),
        add32 c (val_at k 8 (4 `min` (n - 8)))).
Proof.
  intros Hn. unfold last_ref. rewrite (proj2 (Nat.eqb_neq n 0)) by lia. unfold block32, word_at.
  rewrite !val_at_trunc. by rewrite Nat.sub_0_r.
Qed.

Ltac last_case :=
  rewrite ?last_ref_val by lia; unfold last32, last16, last8; cbn -[add32 shl32 val_at byte_at half_at word_at pair16];
  rewrite ?word_at_val, ?half_at_val, ?add_pair16, ?byte_at_val, ?add32_shl, ?add32_add32 by lia;
  cbn [Nat.mul Nat.add Nat.min Nat.sub]; rewrite ?val_at_0, ?add32_0 by done.

(** Equal states, up to the order in which the parts of a word are added. *)
Ltac sums :=
  cbn [Nat.add];
  repeat match goal with
         | |- Some _ = Some _ => apply (f_equal Some)
         | |- (_, _) = (_, _) => apply (f_equal2 pair)
         | |- ?x = ?x => reflexivity
         | |- add32 _ _ = add32 _ _ => apply (f_equal2 add32); [reflexivity|lia]
         end.

Lemma last32_eq n s : (n <= 12)%nat -> wf_state s -> last32 n k s = last_ref n k s.
Proof using Hk.
  destruct s as [[a b] c]. intros Hn (Ha & Hb & Hc). cbn [fst snd] in *.
  pose proof (fun i => val_at_mask k Hk i 1 4 ltac:(lia)) as M1.
  pose proof (fun i => val_at_mask k Hk i 2 4 ltac:(lia)) as M2.
  pose proof (fun i => val_at_mask k Hk i 3 4 ltac:(lia)) as M3.
  cbn [Z.of_nat Pos.of_succ_nat Pos.succ] in M1, M2, M3.
  change (2 ^ (8 * 1) - 1) with 0xff in M1. change (2 ^ (8 * 2) - 1) with 0xffff in M2.
  change (2 ^ (8 * 3) - 1) with 0xffffff in M3.
  do 13 (destruct n as [|n]; [first [reflexivity | last_case; rewrite ?M1, ?M2, ?M3; reflexivity]|]). lia.
Qed.

Lemma last16_eq n s : (n <= 12)%nat -> wf_state s -> last16 n k s = last_ref n k s.
Proof.
  destruct s as [[a b] c]. intros Hn (Ha & Hb & Hc). cbn [fst snd] in *.
  do 13 (destruct n as [|n]; [first [reflexivity | last_case; rewrite ?val_at_3; sums]|]). lia.
Qed.

Lemma last8_eq n s : (n <= 12)%nat -> wf_state s -> last8 n k s = last_ref n k s.
Proof.
  destruct s as [[a b] c]. intros Hn (Ha & Hb & Hc). cbn [fst snd] in *.
  do 13 (destruct n as [|n]; [first [reflexivity | last_case;
    rewrite ?val_at_4, ?val_at_3, ?val_at_2; sums]|]). lia.
Qed.
End Blocks.

Lemma block32_wf k s : wf_state s -> wf_state (block32 k s).
Proof. destruct s as [[a b] c]. intros _. unfold wf_state. cbn. auto with words. Qed.

(** More fuel than bytes changes nothing: the loop ends by its own test. *)
Lemma rounds_fuel block last f f' n k s :
  (n < f)%nat -> (n < f')%nat -> rounds block last f n k s = rounds block last f' n k s.
Proof.
  revert f' n k s. induction f as [|f IH]; intros [|f'] n k s Hf Hf'; [lia..|]. cbn [rounds].
  destruct (Nat.ltb_spec 12 n); [|done]. apply IH; lia.
Qed.

Lemma rounds_ref block last fuel n k s :
  (forall k s, Forall (in_width 8) k -> block k s = block32 k s) ->
  (forall n k s, Forall (in_width 8) k -> (n <= 12)%nat -> wf_state s -> last n k s = last_ref n k s) ->
  Forall (in_width 8) k -> wf_state s ->
  rounds block last fuel n k s = rounds block32 last_ref fuel n (take n k) s.
Proof.
  intros Hb Hl. revert n k s. induction fuel as [|fuel IH]; intros n k s Hk Hs; [done|]. cbn [rounds].
  destruct (Nat.ltb_spec 12 n).
  - rewrite Hb by done. replace (block32 (take n k) s) with (block32 k s).
    + rewrite skipn_firstn_comm. apply IH; [by apply Forall_drop|]. by apply mix_wf, block32_wf.
    + destruct s as [[a b] c]. unfold block32, word_at. rewrite !val_at_trunc. unfold val_at.
      by rewrite !Nat.min_l by lia.
  - rewrite Hl by (done || lia). unfold last_ref. rewrite take_take, Nat.min_id. done.
Qed.

Lemma rounds_width fuel n k s : wf_state s -> in_width 32 (rounds block32 last_ref fuel n k s).
Proof.
  revert n k s. induction fuel as [|fuel IH]; intros n k s Hs; cbn [rounds]; [apply Hs|].
  case_match; [by apply IH, mix_wf, block32_wf|]. case_match; [apply final_width|apply Hs].
Qed.

Lemma start_wf i : wf_state (u32 i, u32 i, u32 i).
Proof. unfold wf_state. cbn [fst snd]. split_and!; by apply wrap_range. Qed.

Lemma jenkins_hash_ref align key rest :
  Forall (in_width 8) (key ++ rest) ->
  jenkins_hash align (key ++ rest) (length key) = jenkins_ref key.
Proof.
  intros Hk. unfold jenkins_hash, jenkins_ref. set (i := u32 (_ + 0)).
  assert (wf_state (i, i, i)) as Hi by apply start_wf.
  repeat case_match; rewrite rounds_ref, ?take_app_length; auto.
  all: intros; first [by apply last32_eq | by apply last16_eq | by apply last8_eq
                     | by apply block16_eq | by apply block8_eq].
Qed.
End Jenkins_reads.

Module Murmur_reads.
Import Murmur.

Lemma byte_at_app key rest i : (i < length key)%nat -> byte_at (key ++ rest) i = byte_at key i.
Proof. intros Hi. unfold byte_at. by rewrite lookup_app_l. Qed.

Lemma body_app n key rest h :
  (4 * n <= length key)%nat -> body n (key ++ rest) h = body n key h.
Proof.
  revert key h. induction n as [|n IH]; intros key h Hn; [done|]. cbn [body].
  rewrite drop_app_le, IH by (rewrite ?length_drop; lia).
  unfold word_at, slice. cbn [Nat.mul]. by rewrite !drop_0, take_app_le by lia.
Qed.

Lemma murmur_app key rest :
  MurmurHash3_x86_32 (key ++ rest) (length key) = MurmurHash3_x86_32 key (length key).
Proof.
  pose proof (Nat.div_mod_eq (length key) 4) as Hd. unfold MurmurHash3_x86_32.
  rewrite body_app, drop_app_le by lia. do 2 f_equal. unfold tail.
  assert (length (drop (length key / 4 * 4) key) = length key mod 4)%nat as Hl by (rewrite length_drop; lia).
  repeat case_match; try done; rewrite ?Nat.leb_le in *; by rewrite ?byte_at_app by lia.
Qed.
End Murmur_reads.

(** The hash of a key depends on its bytes alone.  Both hash functions give a 32-bit
    number that is the same wherever the key is in memory (the Jenkins hash reads words,
    half words or bytes by the address) and whatever lies behind it (the word reads go
    past the key's end), so a stored copy of a key hashes like the request's. *)
Theorem hash_of_key (type : hashfunc_type) (align align' : Z) (key rest rest' : list Z)
    (Hk : Forall (in_width 8) (key ++ rest)) (Hk' : Forall (in_width 8) (key ++ rest')) :
  hash_init type align (key ++ rest) (length key) = hash_init type align' (key ++ rest') (length key) /\
  in_width 32 (hash_init type align (key ++ rest) (length key)).
Proof.
  destruct type; cbn [hash_init].
  - rewrite !Jenkins_reads.jenkins_hash_ref by done. split; [done|].
    apply Jenkins_reads.rounds_width, Jenkins_reads.start_wf.
  - rewrite !Murmur_reads.murmur_app. split; [done|]. apply Murmur_reversible.fmix32_width.
Qed.

Lemma hash_of_key_witness :
  hash_init JENKINS_HASH 0 ([102; 111; 111] ++ [7]) 3 = hash_init JENKINS_HASH 3 ([102; 111; 111] ++ []) 3 /\
  in_width 32 (hash_init JENKINS_HASH 0 ([102; 111; 111] ++ [7]) 3).
Proof.
  apply (hash_of_key JENKINS_HASH 0 3 [102; 111; 111] [7] []);
    apply (bool_decide_unpack (Forall (fun b => 0 <= b < 256) _)); vm_compute; exact I.
Defined.

(** Mixing three words and finishing a hash are reversible, as the comments in the source
    say of [mix]: no two inputs are mapped to the same output. *)
Theorem mixing_reversible (s t : Jenkins.state) (h h' : Z)
    (Hs : Jenkins_reversible.wf_state s) (Ht : Jenkins_reversible.wf_state t)
    (Hh : in_width 32 h) (Hh' : in_width 32 h') :
  (Jenkins.mix s = Jenkins.mix t -> s = t) /\
  (Murmur.fmix32 h = Murmur.fmix32 h' -> h = h').
Proof.
  split; intros E.
  - rewrite <- (Jenkins_reversible.unmix_mix s), E by done. by apply Jenkins_reversible.unmix_mix.
  - rewrite <- (Murmur_reversible.unfmix32_fmix32 h), E by done. by apply Murmur_reversible.unfmix32_fmix32.
Qed.

Lemma mixing_reversible_witness :
  bool_decide (Jenkins.mix (1, 2, 3) = Jenkins.mix (1, 2, 4)) = false.
Proof.
  apply bool_decide_eq_false_2. intros E.
  apply (mixing_reversible (1, 2, 3) (1, 2, 4) 5 5) in E; [discriminate E|..];
    unfold Jenkins_reversible.wf_state, in_width; cbn [fst snd]; lia.
Defined.
