(* ===== verification/McBip.v ===== *)
(** * memcached: the bip buffer

    src/sw/apps/memcached/memcached/bipbuffer.c and bipbuffer.h: a byte queue in one
    array, which hands out its contents as contiguous pieces.  Region A runs from
    [a_start] to [a_end]; when the space behind it is the smaller one, new bytes go to
    region B, from the start of the array to [b_end], which becomes A when A is empty.
    The logger, the crawler and the LRU bump buffers pass their records through it.  A
    pointer into the buffer is its offset in [data]; NULL is [None]. *)

From S2P Require Import Prelude Wire.

Record bipbuf_t := {
  size : Z;
  a_start : Z;
  a_end : Z;
  b_end : Z;
  b_inuse : Z;
  data : list Z;
}.

Definition bipbuf_unused (me : bipbuf_t) : Z :=
  if b_inuse me =? 1 then i32 (u32 (a_start me - b_end me))
  else i32 (u64 (size me - a_end me)).

Definition bipbuf_size (me : bipbuf_t) : Z := i32 (size me).

Definition bipbuf_used (me : bipbuf_t) : Z := i32 (u32 (a_end me - a_start me + b_end me)).

(** [mem] is what [malloc] left in the array. *)
Definition bipbuf_init (mem : list Z) (sz : Z) : bipbuf_t :=
  {| size := sz; a_start := 0; a_end := 0; b_end := 0; b_inuse := 0; data := mem |}.

Definition bipbuf_is_empty (me : bipbuf_t) : bool := a_start me =? a_end me.

Definition set_b_inuse (b : Z) (me : bipbuf_t) : bipbuf_t :=
  {| size := size me; a_start := a_start me; a_end := a_end me; b_end := b_end me;
     b_inuse := b; data := data me |}.

Definition check_for_switch_to_b (me : bipbuf_t) : bipbuf_t :=
  if u64 (size me - a_end me) <? u32 (a_start me - b_end me) then set_b_inuse 1 me else me.

Definition bipbuf_request (me : bipbuf_t) (sz : Z) : option Z :=
  if bipbuf_unused me <? sz then None
  else if b_inuse me =? 1 then Some (b_end me) else Some (a_end me).

(** [me->b_end += size] or [me->a_end += size], by the region in use. *)
Definition advance (me : bipbuf_t) (sz : Z) : bipbuf_t :=
  if b_inuse me =? 1 then
    {| size := size me; a_start := a_start me; a_end := a_end me; b_end := u32 (b_end me + sz);
       b_inuse := b_inuse me; data := data me |}
  else
    {| size := size me; a_start := a_start me; a_end := u32 (a_end me + sz); b_end := b_end me;
       b_inuse := b_inuse me; data := data me |}.

Definition bipbuf_push (me : bipbuf_t) (sz : Z) : Z * bipbuf_t :=
  if bipbuf_unused me <? sz then (0, me) else (sz, check_for_switch_to_b (advance me sz)).

(** [memcpy] to an offset of the array, [None] when it leaves the array. *)
Definition write_at (me : bipbuf_t) (off : Z) (d : list Z) : option bipbuf_t :=
  if (0 <=? off) && (off + Z.of_nat (length d) <=? Z.of_nat (length (data me))) then
    Some {| size := size me; a_start := a_start me; a_end := a_end me; b_end := b_end me;
            b_inuse := b_inuse me;
            data := take (Z.to_nat off) (data me) ++ d ++ drop (Z.to_nat off + length d) (data me) |}
  else None.

Definition bipbuf_offer (me : bipbuf_t) (d : list Z) : option (Z * bipbuf_t) :=
  let sz := Z.of_nat (length d) in
  if bipbuf_unused me <? sz then Some (0, me)
  else
    match write_at me (if b_inuse me =? 1 then b_end me else a_end me) d with
    | Some me' => Some (sz, check_for_switch_to_b (advance me' sz))
    | None => None
    end.

Definition bipbuf_peek (me : bipbuf_t) (sz : Z) : option Z :=
  if size me <? u32 (a_start me + sz) then None
  else if bipbuf_is_empty me then None
  else Some (a_start me).

(** The offset and the size of what can be read at once. *)
Definition bipbuf_peek_all (me : bipbuf_t) : option (Z * Z) :=
  if bipbuf_is_empty me then None else Some (a_start me, u32 (a_end me - a_start me)).

Definition bipbuf_poll (me : bipbuf_t) (sz : Z) : option Z * bipbuf_t :=
  if bipbuf_is_empty me then (None, me)
  else if size me <? u32 (a_start me + sz) then (None, me)
  else
    let start := u32 (a_start me + sz) in
    let me' :=
      if start =? a_end me then
        if b_inuse me =? 1 then
          {| size := size me; a_start := 0; a_end := b_end me; b_end := 0; b_inuse := 0; data := data me |}
        else
          {| size := size me; a_start := 0; a_end := 0; b_end := b_end me; b_inuse := b_inuse me;
             data := data me |}
      else
        {| size := size me; a_start := start; a_end := a_end me; b_end := b_end me;
           b_inuse := b_inuse me; data := data me |} in
    (Some (a_start me), check_for_switch_to_b me').

(** [bipbuf_new]: the array [malloc] returned, NULL as [None]. *)
Definition bipbuf_new (malloc : Z -> option (list Z)) (sz : Z) : option bipbuf_t :=
  match malloc sz with
  | Some mem => Some (bipbuf_init mem sz)
  | None => None
  end.

(** ** The queue a buffer stands for *)
Definition region (me : bipbuf_t) (from to : Z) : list Z :=
  slice (Z.to_nat from) (Z.to_nat (to - from)) (data me).

Definition contents (me : bipbuf_t) : list Z :=
  region me (a_start me) (a_end me) ++ region me 0 (b_end me).

(** The regions are inside the array, B ends before A starts, and A is not empty while
    B is in use. *)
Record wf (me : bipbuf_t) : Prop := {
  wf_size : 0 <= size me < 2 ^ 31;
  wf_data : Z.of_nat (length (data me)) = size me;
  wf_a : 0 <= a_start me <= a_end me;
  wf_a_end : a_end me <= size me;
  wf_b : 0 <= b_end me <= a_start me;
  wf_inuse : b_inuse me = 0 /\ b_end me = 0 \/ b_inuse me = 1 /\ a_start me < a_end me;
  wf_empty : a_start me = a_end me -> a_start me = 0;
}.

(** ** The operations on a well-formed buffer *)
Lemma unused_val me :
  wf me -> bipbuf_unused me = if b_inuse me =? 1 then a_start me - b_end me else size me - a_end me.
Proof.
  intros []. unfold bipbuf_unused.
  case_match; rewrite wrap_small, swrap_small by (unfold in_width; lia); done.
Qed.

(** Turning on region B changes neither the contents nor the invariant. *)
Lemma switch_contents me : contents (check_for_switch_to_b me) = contents me.
Proof. unfold check_for_switch_to_b. by case_match. Qed.

Lemma switch_wf me : wf me -> wf (check_for_switch_to_b me).
Proof.
  intros W. pose proof W as []. unfold check_for_switch_to_b.
  rewrite !wrap_small by (unfold in_width; lia). case_match; [|done].
  constructor; cbn; try done. right. split; [done|].
  destruct (decide (a_start me = a_end me)); lia.
Qed.

(** The buffer after an accepted write. *)
Definition stored (me : bipbuf_t) (d : list Z) : bipbuf_t :=
  let off := if b_inuse me =? 1 then b_end me else a_end me in
  let sz := Z.of_nat (length d) in
  check_for_switch_to_b (advance
    {| size := size me; a_start := a_start me; a_end := a_end me; b_end := b_end me;
       b_inuse := b_inuse me; data := splice (Z.to_nat off) d (data me) |} sz).

Lemma write_at_fits me d :
  wf me -> Z.of_nat (length d) <= bipbuf_unused me ->
  write_at me (if b_inuse me =? 1 then b_end me else a_end me) d =
  Some {| size := size me; a_start := a_start me; a_end := a_end me; b_end := b_end me;
          b_inuse := b_inuse me;
          data := splice (Z.to_nat (if b_inuse me =? 1 then b_end me else a_end me)) d (data me) |}.
Proof.
  intros W Hd. rewrite unused_val in Hd by done. destruct W. unfold write_at, splice.
  destruct (b_inuse me =? 1); case_match; try done; lia.
Qed.

Lemma region_grow me from to n :
  0 <= from <= to ->
  region me from (to + Z.of_nat n) = region me from to ++ slice (Z.to_nat to) n (data me).
Proof.
  intros H. unfold region.
  replace (Z.to_nat (to + Z.of_nat n - from)) with (Z.to_nat (to - from) + n)%nat by lia.
  rewrite slice_plus. do 2 f_equal. lia.
Qed.

Lemma stored_spec me d :
  wf me -> Z.of_nat (length d) <= bipbuf_unused me ->
  wf (stored me d) /\ contents (stored me d) = contents me ++ d.
Proof.
  intros W Hd. rewrite unused_val in Hd by done. destruct W as [Hs Hl Ha Hae Hb Hi He].
  unfold stored. rewrite switch_contents. unfold advance. cbn [b_inuse].
  destruct (Z.eqb_spec (b_inuse me) 1) as [E|E]; cbn [size a_start a_end b_end b_inuse data].
  - rewrite wrap_small by (unfold in_width; lia). split.
    + apply switch_wf. constructor; cbn; try done; try lia. rewrite length_splice; lia.
    + unfold contents. cbn [a_start a_end b_end]. rewrite region_grow by lia.
      unfold region. cbn [data]. rewrite slice_splice_after, slice_splice_before, slice_splice_same by lia.
      by rewrite app_assoc.
  - rewrite wrap_small by (unfold in_width; lia). split.
    + apply switch_wf. constructor; cbn; try done; try lia. rewrite length_splice; lia.
    + destruct Hi as [[_ Hb0]|[? _]]; [|done].
      unfold contents. cbn [a_start a_end b_end]. rewrite region_grow by lia.
      unfold region. cbn [data]. rewrite slice_splice_before, slice_splice_same by lia.
      rewrite Hb0. unfold slice at 2 4. cbn. by rewrite !app_nil_r.
Qed.

Lemma offer_spec me d :
  wf me ->
  bipbuf_offer me d =
  if bipbuf_unused me <? Z.of_nat (length d) then Some (0, me)
  else Some (Z.of_nat (length d), stored me d).
Proof.
  intros W. unfold bipbuf_offer. case_match; [done|]. by rewrite write_at_fits by (done || lia).
Qed.

(** Asking for room, writing into it and pushing what was written is an offer. *)
Lemma request_write_push me n d :
  wf me -> Z.of_nat (length d) <= n ->
  match bipbuf_request me n with
  | Some off =>
      exists me', write_at me off d = Some me' /\
        bipbuf_push me' (Z.of_nat (length d)) = (Z.of_nat (length d), stored me d)
  | None => bipbuf_unused me < n
  end.
Proof.
  intros W Hd. unfold bipbuf_request. destruct (Z.ltb_spec (bipbuf_unused me) n); [done|].
  eassert (H' := write_at_fits me d W ltac:(lia)).
  destruct (b_inuse me =? 1) eqn:E; (eexists; split; [exact H'|]); unfold bipbuf_push;
    (replace (bipbuf_unused _) with (bipbuf_unused me) by done); case_match; try lia;
    unfold stored; rewrite E; done.
Qed.

(** Taking [n] bytes of region A. *)
Lemma poll_spec me n :
  wf me -> a_start me < a_end me -> 0 <= n <= a_end me - a_start me ->
  exists me', bipbuf_poll me n = (Some (a_start me), me') /\ wf me' /\
    contents me = slice (Z.to_nat (a_start me)) (Z.to_nat n) (data me) ++ contents me' /\
    size me' = size me.
Proof.
  intros W Hne Hn. pose proof W as [Hs Hl Ha Hae Hb Hi He].
  unfold bipbuf_poll, bipbuf_is_empty. rewrite (proj2 (Z.eqb_neq _ _)) by lia.
  rewrite wrap_small by (unfold in_width; lia). case_match; [lia|].
  eexists. split; [done|]. rewrite switch_contents.
  assert (contents me = slice (Z.to_nat (a_start me)) (Z.to_nat n) (data me) ++
            region me (a_start me + n) (a_end me) ++ region me 0 (b_end me)) as ->.
  { unfold contents. rewrite app_assoc. f_equal. unfold region.
    replace (Z.to_nat (a_end me - a_start me)) with (Z.to_nat n + Z.to_nat (a_end me - (a_start me + n)))%nat by lia.
    rewrite slice_plus. do 2 f_equal. lia. }
  destruct (Z.eqb_spec (a_start me + n) (a_end me)) as [En|En].
  - rewrite En. assert (region me (a_end me) (a_end me) = []) as -> by (unfold region; by rewrite Z.sub_diag).
    destruct Hi as [[-> E0]|[-> _]]; cbn [Z.eqb Pos.eqb].
    + split_and!; [apply switch_wf; constructor; cbn; (done || lia)| |by unfold check_for_switch_to_b; case_match].
      unfold contents, region. cbn [a_start a_end b_end]. rewrite E0. done.
    + split_and!; [apply switch_wf; constructor; cbn; (done || lia)| |by unfold check_for_switch_to_b; case_match].
      unfold contents, region. cbn [a_start a_end b_end data]. by rewrite app_nil_r.
  - split_and!; [apply switch_wf; constructor; cbn; (done || lia)|done|by unfold check_for_switch_to_b; case_match].
Qed.

(** ** Runs of a writer and a reader *)
Inductive bip_op :=
| Offer (d : list Z)
| Record_ (n : Z) (d : list Z)   (** room for [n] bytes is requested, [d] is written and pushed *)
| Poll (n : Z).                  (** what is readable is peeked at, and at most [n] bytes polled *)

(** The buffer, the bytes it accepted and the bytes that were read; [None] is an access
    outside of the array. *)
Definition bip_step (me : bipbuf_t) (op : bip_op) : option (bipbuf_t * list Z * list Z) :=
  match op with
  | Offer d =>
      match bipbuf_offer me d with
      | Some (r, me') => Some (me', if 0 <? r then d else [], [])
      | None => None
      end
  | Record_ n d =>
      match bipbuf_request me n with
      | None => Some (me, [], [])
      | Some off =>
          match write_at me off d with
          | Some me' =>
              let '(r, me'') := bipbuf_push me' (Z.of_nat (length d)) in
              Some (me'', if 0 <? r then d else [], [])
          | None => None
          end
      end
  | Poll n =>
      match bipbuf_peek_all me with
      | None => Some (me, [], [])
      | Some (off, avail) =>
          let m := Z.min n avail in
          let '(_, me') := bipbuf_poll me m in
          Some (me', [], slice (Z.to_nat off) (Z.to_nat m) (data me))
      end
  end.

Fixpoint bip_run (me : bipbuf_t) (ops : list bip_op) : option (bipbuf_t * list Z * list Z) :=
  match ops with
  | [] => Some (me, [], [])
  | op :: ops' =>
      match bip_step me op with
      | Some (me', acc, rd) =>
          match bip_run me' ops' with
          | Some (me'', acc', rd') => Some (me'', acc ++ acc', rd ++ rd')
          | None => None
          end
      | None => None
      end
  end.

(** A writer stays inside the room it asked for, and nobody reads a negative amount. *)
Definition op_ok (op : bip_op) : bool :=
  match op with
  | Offer _ => true
  | Record_ n d => Z.of_nat (length d) <=? n
  | Poll n => 0 <=? n
  end.

Lemma accepted_bytes (d : list Z) : (if 0 <? Z.of_nat (length d) then d else []) = d.
Proof. by destruct d. Qed.

Lemma stored_size me d : size (stored me d) = size me.
Proof. unfold stored, check_for_switch_to_b, advance. by repeat case_match. Qed.

Lemma peek_all_spec me :
  wf me ->
  (bipbuf_peek_all me = None /\ contents me = []) \/
  (a_start me < a_end me /\ bipbuf_peek_all me = Some (a_start me, a_end me - a_start me)).
Proof.
  intros []. unfold bipbuf_peek_all, bipbuf_is_empty.
  destruct (Z.eqb_spec (a_start me) (a_end me)) as [E|E].
  - left. split; [done|]. unfold contents, region. rewrite E, Z.sub_diag.
    assert (b_end me = 0) as -> by lia. done.
  - right. split; [lia|]. by rewrite wrap_small by (unfold in_width; lia).
Qed.

(** Each operation stays inside the array, keeps the invariant, and moves bytes in order. *)
Lemma bip_step_spec me op :
  wf me -> op_ok op = true ->
  exists me' acc rd, bip_step me op = Some (me', acc, rd) /\ wf me' /\
    contents me ++ acc = rd ++ contents me' /\ size me' = size me.
Proof.
  intros W Hop. destruct op as [d|n d|n]; cbn [bip_step op_ok] in *.
  - rewrite offer_spec by done.
    destruct (Z.ltb_spec (bipbuf_unused me) (Z.of_nat (length d))); eexists _, _, _; (split; [done|]).
    + by rewrite app_nil_r.
    + rewrite accepted_bytes. destruct (stored_spec me d W ltac:(lia)) as [? ->].
      by rewrite stored_size.
  - pose proof (request_write_push me n d W ltac:(lia)) as H.
    destruct (bipbuf_request me n) as [off|] eqn:Er.
    + destruct H as (me' & -> & ->). eexists _, _, _. split; [done|].
      rewrite accepted_bytes. unfold bipbuf_request in Er.
      destruct (Z.ltb_spec (bipbuf_unused me) n); [done|].
      destruct (stored_spec me d W ltac:(lia)) as [? ->]. by rewrite stored_size.
    + eexists _, _, _. split; [done|]. by rewrite app_nil_r.
  - destruct (peek_all_spec me W) as [[-> _]|[Hne ->]].
    + eexists _, _, _. split; [done|]. by rewrite app_nil_r.
    + destruct (poll_spec me (Z.min n (a_end me - a_start me)) W Hne ltac:(lia))
        as (me' & -> & W' & Hc & Hs).
      eexists _, _, _. split; [done|]. by rewrite app_nil_r, <- Hc.
Qed.

Lemma bip_run_spec me ops :
  wf me -> forallb op_ok ops = true ->
  exists me' acc rd, bip_run me ops = Some (me', acc, rd) /\ wf me' /\
    contents me ++ acc = rd ++ contents me' /\ size me' = size me.
Proof.
  revert me. induction ops as [|op ops IH]; intros me W Hops; cbn [bip_run].
  { exists me, [], []. by rewrite app_nil_r. }
  cbn [forallb] in Hops. apply andb_prop in Hops as [Hop Hops].
  destruct (bip_step_spec me op W Hop) as (me1 & a1 & r1 & -> & W1 & E1 & S1).
  destruct (IH me1 W1 Hops) as (me2 & a2 & r2 & -> & W2 & E2 & S2').
  eexists _, _, _. split; [done|]. split; [done|]. split; [|congruence].
  by rewrite app_assoc, E1, <- !app_assoc, E2.
Qed.

Lemma init_wf mem sz : Z.of_nat (length mem) = sz -> 0 <= sz < 2 ^ 31 -> wf (bipbuf_init mem sz).
Proof. intros. constructor; cbn; try done; try lia. Qed.

(** A poll of everything that is readable at once takes region A; a second one takes what
    was region B. *)
Lemma poll_all_spec me n :
  wf me -> size me <= n ->
  exists me' rd, bip_step me (Poll n) = Some (me', [], rd) /\ wf me' /\
    contents me = rd ++ contents me' /\ size me' = size me /\
    (b_inuse me = 0 -> contents me' = []) /\ b_inuse me' = 0.
Proof.
  intros W Hn. pose proof W as [Hs Hl Ha Hae Hb Hi He]. cbn [bip_step].
  destruct (peek_all_spec me W) as [[E Hc]|[Hne ->]].
  - rewrite E. exists me, []. split_and!; try done.
    unfold bipbuf_peek_all, bipbuf_is_empty in E. destruct (Z.eqb_spec (a_start me) (a_end me)); [lia|done].
  - rewrite Z.min_r by lia.
    destruct (poll_spec me (a_end me - a_start me) W Hne ltac:(lia)) as (me' & E & W' & Hc & Hs').
    rewrite E. eexists _, _. split; [done|]. split; [done|]. split; [done|]. split; [done|].
    revert E. unfold bipbuf_poll, bipbuf_is_empty. rewrite (proj2 (Z.eqb_neq _ _)) by lia.
    rewrite wrap_small by (unfold in_width; lia).
    replace (a_start me + (a_end me - a_start me)) with (a_end me) by lia.
    rewrite Z.eqb_refl, (proj2 (Z.ltb_ge _ _)) by lia. intros [= <-].
    destruct Hi as [[-> E0]|[-> _]]; cbn [Z.eqb Pos.eqb]; unfold check_for_switch_to_b;
      cbn [size a_start a_end b_end b_inuse data]; rewrite !wrap_small by (unfold in_width; lia).
    + rewrite E0, (proj2 (Z.ltb_ge _ _)) by lia. done.
    + rewrite (proj2 (Z.ltb_ge _ _)) by lia. done.
Qed.

(** C30. The bip buffer is a queue: in every run of offers, of records written into requested
    room, and of reads, no access leaves the array, and the bytes read followed by the
    bytes still held are the bytes accepted, in order.  Two reads of everything empty any
    buffer, and an empty one takes as many bytes as it has. *)
Theorem bipbuf_fifo (malloc : Z -> option (list Z)) (sz : Z) (me : bipbuf_t) (ops : list bip_op)
    (Hm : forall mem, malloc sz = Some mem -> Z.of_nat (length mem) = sz)
    (Hnew : bipbuf_new malloc sz = Some me) (Hsz : 0 <= sz < 2 ^ 31)
    (Hops : forallb op_ok ops = true) :
  exists me' acc rd, bip_run me ops = Some (me', acc, rd) /\ acc = rd ++ contents me' /\
    exists me'', bip_run me' [Poll sz; Poll sz] = Some (me'', [], contents me') /\
      forall d, Z.of_nat (length d) <= sz ->
        exists me3, bipbuf_offer me'' d = Some (Z.of_nat (length d), me3) /\ contents me3 = d.
Proof.
  unfold bipbuf_new in Hnew. destruct (malloc sz) as [mem|] eqn:Em; [|done]. injection Hnew as <-.
  pose proof (init_wf mem sz (Hm mem eq_refl) Hsz) as W.
  destruct (bip_run_spec _ ops W Hops) as (me' & acc & rd & -> & W' & E & S1). cbn in S1.
  exists me', acc, rd. split; [done|]. split; [exact E|].
  destruct (poll_all_spec me' sz W' ltac:(lia)) as (m1 & r1 & E1 & W1 & C1 & Z1 & _ & B1).
  destruct (poll_all_spec m1 sz W1 ltac:(lia)) as (m2 & r2 & E2 & W2 & C2 & Z2 & F2 & B2).
  specialize (F2 B1). exists m2. cbn [bip_run]. rewrite E1, E2. cbn.
  rewrite C1, C2, F2, !app_nil_r. split; [done|]. intros d Hd.
  rewrite offer_spec by done. rewrite (unused_val m2 W2), B2. cbn [Z.eqb].
  assert (a_end m2 = 0) as Ha.
  { pose proof W2 as [? ? ? ? ? Hi He]. unfold contents, region in F2.
    apply app_eq_nil in F2 as [F2 _]. apply (f_equal length) in F2.
    rewrite slice_length in F2 by lia. cbn in F2. lia. }
  rewrite Ha, (proj2 (Z.ltb_ge _ _)) by lia. exists (stored m2 d). split; [done|].
  destruct (stored_spec m2 d W2) as [_ ->]; [rewrite unused_val, B2 by done; cbn; lia|]. by rewrite F2.
Qed.

Lemma bipbuf_fifo_witness :
  exists me' acc rd,
    bip_run (bipbuf_init (replicate 8 0) 8) [Offer [1; 2; 3; 4; 5]; Poll 3; Record_ 4 [6; 7; 8]; Offer [9; 10]]
      = Some (me', acc, rd) /\ acc = rd ++ contents me'.
Proof.
  destruct (bipbuf_fifo (fun n => Some (replicate (Z.to_nat n) 0)) 8 (bipbuf_init (replicate 8 0) 8)
              [Offer [1; 2; 3; 4; 5]; Poll 3; Record_ 4 [6; 7; 8]; Offer [9; 10]])
    as (me' & acc & rd & E & H & _).
  - intros mem [= <-]. reflexivity.
  - reflexivity.
  - lia.
  - reflexivity.
  - exists me', acc, rd. exact (conj E H).
Defined.

(** [bipbuf_poll] tests the amount against the end of the array and not against the end
    of region A: on any buffer with room behind its readable bytes it hands out bytes that
    were never written, and leaves region A starting behind its end. *)
Theorem bipbuf_poll_overrun (me : bipbuf_t) (n : Z) (W : wf me) (Hne : contents me <> [])
    (Hn : a_end me - a_start me < n <= size me - a_start me) :
  (bipbuf_poll me n).1 = Some (a_start me) /\
  a_end (bipbuf_poll me n).2 < a_start (bipbuf_poll me n).2.
Proof.
  destruct (peek_all_spec me W) as [[_ ?]|[Hlt _]]; [done|]. pose proof W as [].
  unfold bipbuf_poll, bipbuf_is_empty. rewrite (proj2 (Z.eqb_neq _ _)) by lia.
  rewrite wrap_small by (unfold in_width; lia). rewrite (proj2 (Z.ltb_ge _ _)) by lia.
  rewrite (proj2 (Z.eqb_neq _ _)) by lia. split; [done|]. cbn [snd].
  unfold check_for_switch_to_b. case_match; cbn; lia.
Qed.

Definition poll_sample : bipbuf_t := stored (bipbuf_init (replicate 8 0) 8) [1; 2].

Lemma bipbuf_poll_overrun_witness : (bipbuf_poll poll_sample 5).1 = Some 0.
Proof.
  apply (bipbuf_poll_overrun poll_sample 5).
  - apply stored_spec; [by apply init_wf|by vm_compute].
  - discriminate.
  - vm_compute. split; congruence.
Defined.
