(* ===== verification/McCache.v ===== *)
(** * memcached: the object cache

    src/sw/apps/memcached/memcached/cache.c and cache.h, built with [NDEBUG] as the
    server is (no red zones, so [get_object] is the identity).  A cache keeps freed
    objects of one size on a stack, [ptr], and takes new ones from [malloc].  The heap is
    the set of the blocks that are allocated; a [free] of anything else is a [Fault].
    [malloc], the constructor and the destructor are not part of the file: the results of
    the first two are variables, by the number of the call, and the calls of the last are
    recorded.  [int] counters are integers: they count objects in memory. *)

From stdpp Require Import gmap.
From S2P Require Import Prelude.

Record world := {
  live : gset Z;           (** allocated blocks *)
  calls : nat;             (** calls of the allocator and of the constructor so far *)
  destroyed : list Z;      (** arguments of the destructor *)
}.

Record cache_t := {
  self : Z;                (** address of the struct *)
  name : Z;                (** address of the copy of the name *)
  ptr_block : Z;           (** address of the array [ptr] *)
  ptr : list Z;            (** its first [freecurr] elements *)
  bufsize : Z;
  freetotal : Z;
  total : Z;
  limit : Z;
}.

Definition freecurr (c : cache_t) : Z := Z.of_nat (length (ptr c)).

Definition initial_pool_size : Z := 64.
Definition sizeof_cache_t : Z := 96.
Definition sizeof_ptr : Z := 8.

Section Cache.
(** Results of the allocator (0 is NULL), of [pthread_mutex_init] and of the constructor,
    where there is one; and whether there is a destructor. *)
Context (malloc_result : nat -> gset Z -> Z -> Z) (mutex_init : Z)
        (constructor : option (nat -> Z -> Z)) (destructor : bool).

Definition malloc (sz : Z) : M world Z :=
  fun w =>
    let p := malloc_result (calls w) (live w) sz in
    Ret p {| live := if p =? 0 then live w else {[p]} ∪ live w; calls := S (calls w);
             destroyed := destroyed w |}.

Definition free (p : Z) : M world unit :=
  fun w =>
    if p =? 0 then Ret tt w
    else if bool_decide (p ∈ live w) then
      Ret tt {| live := live w ∖ {[p]}; calls := calls w; destroyed := destroyed w |}
    else Fault.

(** The block may stay where it is; on failure it is kept. *)
Definition realloc (p sz : Z) : M world Z :=
  fun w =>
    if bool_decide (p ∈ live w) then
      let q := malloc_result (calls w) (live w ∖ {[p]}) sz in
      Ret q {| live := if q =? 0 then live w else {[q]} ∪ (live w ∖ {[p]}); calls := S (calls w);
               destroyed := destroyed w |}
    else Fault.

Definition construct (object : Z) : M world Z :=
  match constructor with
  | Some f => fun w => Ret (f (calls w) object)
                {| live := live w; calls := S (calls w); destroyed := destroyed w |}
  | None => ret 0
  end.

Definition destruct_object (object : Z) : M world unit :=
  if destructor then
    modify (fun w => {| live := live w; calls := calls w; destroyed := destroyed w ++ [object] |})
  else ret tt.

Definition cache_create (namelen sz : Z) : M world (option cache_t) :=
  let! r := malloc sizeof_cache_t in
  let! nm := malloc (namelen + 1) in
  let! p := malloc (initial_pool_size * sizeof_ptr) in
  if (r =? 0) || (nm =? 0) || (p =? 0) || (mutex_init =? -1) then
    free r ;; free nm ;; free p ;; ret None
  else
    ret (Some {| self := r; name := nm; ptr_block := p; ptr := []; bufsize := sz;
                 freetotal := initial_pool_size; total := 0; limit := 0 |}).

Definition cache_set_limit (c : cache_t) (l : Z) : cache_t :=
  {| self := self c; name := name c; ptr_block := ptr_block c; ptr := ptr c;
     bufsize := bufsize c; freetotal := freetotal c; total := total c; limit := l |}.

Definition with_ptr (c : cache_t) (b : Z) (l : list Z) (ft : Z) : cache_t :=
  {| self := self c; name := name c; ptr_block := b; ptr := l;
     bufsize := bufsize c; freetotal := ft; total := total c; limit := limit c |}.

Definition with_total (c : cache_t) (t : Z) : cache_t :=
  {| self := self c; name := name c; ptr_block := ptr_block c; ptr := ptr c;
     bufsize := bufsize c; freetotal := freetotal c; total := t; limit := limit c |}.

Fixpoint destroy_loop (rest : list Z) : M world unit :=
  match rest with
  | [] => ret tt
  | p :: rest' => destruct_object p ;; free p ;; destroy_loop rest'
  end.

(** From the top of the stack down. *)
Definition cache_destroy (c : cache_t) : M world unit :=
  destroy_loop (rev (ptr c)) ;;
  free (name c) ;; free (ptr_block c) ;; free (self c).

Definition do_cache_alloc (c : cache_t) : M world (Z * cache_t) :=
  match last (ptr c) with
  | Some p => ret (p, with_ptr c (ptr_block c) (take (length (ptr c) - 1) (ptr c)) (freetotal c))
  | None =>
      if (limit c =? 0) || (total c <? limit c) then
        let! p := malloc (bufsize c) in
        if negb (p =? 0) then
          let! r := construct p in
          if negb (r =? 0) then free p ;; ret (0, with_total c (total c + 1))
          else ret (p, with_total c (total c + 1))
        else ret (0, c)
      else ret (0, c)
  end.

Definition release (c : cache_t) (p : Z) : M world cache_t :=
  destruct_object p ;; free p ;; ret (with_total c (total c - 1)).

Definition do_cache_free (c : cache_t) (p : Z) : M world cache_t :=
  if total c <? limit c then release c p
  else if freecurr c <? freetotal c then
    ret (with_ptr c (ptr_block c) (ptr c ++ [p]) (freetotal c))
  else
    let newtotal := freetotal c * 2 in
    let! b := realloc (ptr_block c) (sizeof_ptr * newtotal) in
    if negb (b =? 0) then ret (with_ptr c b (ptr c ++ [p]) newtotal)
    else release c p.

(** ** Clients: objects are allocated, given back, and the limit is set *)
Inductive cache_op :=
| Alloc
| Free (i : nat)       (** give back the [i]-th of the objects held *)
| SetLimit (l : Z).

(** [out] lists the objects the client holds; it cannot give back one it does not hold. *)
Definition cache_step (op : cache_op) (c : cache_t) (out : list Z) : M world (cache_t * list Z) :=
  match op with
  | Alloc =>
      let! (p, c') := do_cache_alloc c in
      ret (c', if p =? 0 then out else p :: out)
  | Free i =>
      match out !! i with
      | Some p => let! c' := do_cache_free c p in ret (c', delete i out)
      | None => ret (c, out)
      end
  | SetLimit l => ret (cache_set_limit c l, out)
  end.

Fixpoint cache_run (ops : list cache_op) (c : cache_t) (out : list Z) : M world (cache_t * list Z) :=
  match ops with
  | [] => ret (c, out)
  | op :: ops' => let! (c', out') := cache_step op c out in cache_run ops' c' out'
  end.

(** The life of a cache: what the client still holds when it is destroyed. *)
Definition cache_life (namelen sz : Z) (ops : list cache_op) : M world (option (list Z)) :=
  let! r := cache_create namelen sz in
  match r with
  | Some c =>
      let! (c', out) := cache_run ops c [] in
      cache_destroy c' ;; ret (Some out)
  | None => ret None
  end.

(** ** Ownership of blocks *)

(** What is documented of the allocator: a block it returns is not allocated yet. *)
Hypothesis malloc_fresh : forall n L sz, malloc_result n L sz <> 0 -> malloc_result n L sz ∉ L.

Section Owned.
Context (L0 : gset Z).   (** the blocks of the rest of the program *)

(** The blocks [l] are allocated, each once, beside those of the rest of the program. *)
Definition owned (l : list Z) (w : world) : Prop :=
  NoDup l /\ Forall (fun p => p <> 0 /\ p ∉ L0) l /\ live w = list_to_set l ∪ L0.

Lemma owned_perm l l' w : l ≡ₚ l' -> owned l w -> owned l' w.
Proof.
  intros Hp (Hn & Hf & Hl). split_and!.
  - exact (proj1 (NoDup_Permutation_proper _ _ Hp) Hn).
  - rewrite Forall_forall in Hf |- *. intros x Hx. apply Hf. by rewrite Hp.
  - rewrite Hl. by rewrite (list_to_set_perm_L l l' Hp).
Qed.

Lemma owned_same l w w' : live w' = live w -> owned l w -> owned l w'.
Proof. intros E (? & ? & ?). unfold owned. by rewrite E. Qed.

Lemma malloc_spec l sz w :
  owned l w -> wp (malloc sz) (fun p w' => if p =? 0 then owned l w' else owned (p :: l) w') w.
Proof using malloc_fresh.
  intros (Hn & Hf & Hl). unfold wp, malloc.
  set (p := malloc_result (calls w) (live w) sz). case_match; [by apply (owned_same l w)|].
  assert (p ∉ live w) as Hp by (apply malloc_fresh; lia). rewrite Hl in Hp.
  split_and!; [constructor; [set_solver|done]|constructor; [split; [lia|set_solver]|done]|].
  cbn [live list_to_set foldr]. rewrite Hl. set_solver.
Qed.

Lemma free_spec l p w :
  owned (p :: l) w -> wp (free p) (fun _ w' => owned l w') w.
Proof.
  intros (Hn & Hf & Hl). apply Forall_cons in Hf as [[Hp0 Hp] Hf]. apply NoDup_cons in Hn as [Hni Hn].
  unfold wp, free. rewrite (proj2 (Z.eqb_neq p 0)) by done. rewrite bool_decide_eq_true_2 by set_solver.
  split_and!; [done|done|]. cbn [live]. rewrite Hl. cbn [list_to_set foldr]. set_solver.
Qed.

Lemma free_null l w : owned l w -> wp (free 0) (fun _ w' => owned l w') w.
Proof. done. Qed.

Lemma realloc_spec l p sz w :
  owned (p :: l) w ->
  wp (realloc p sz) (fun q w' => if q =? 0 then owned (p :: l) w' else owned (q :: l) w') w.
Proof using malloc_fresh.
  intros (Hn & Hf & Hl). unfold wp, realloc. rewrite bool_decide_eq_true_2 by set_solver.
  set (q := malloc_result (calls w) (live w ∖ {[p]}) sz). case_match; [done|].
  apply Forall_cons in Hf as [[Hp0 Hp] Hf]. apply NoDup_cons in Hn as [Hni Hn].
  assert (q ∉ live w ∖ {[p]}) as Hq by (apply malloc_fresh; lia). rewrite Hl in Hq.
  assert ((list_to_set (p :: l) ∪ L0) ∖ {[p]} = list_to_set l ∪ L0) as E by set_solver.
  rewrite E in Hq.
  split_and!; [constructor; [set_solver|done]|constructor; [split; [lia|set_solver]|done]|].
  cbn [live list_to_set foldr]. rewrite Hl, E. set_solver.
Qed.

Lemma construct_spec l p w : owned l w -> wp (construct p) (fun _ w' => owned l w') w.
Proof. intros H. unfold construct. by destruct constructor. Qed.

Lemma destruct_spec l p w : owned l w -> wp (destruct_object p) (fun _ w' => owned l w') w.
Proof. intros H. unfold destruct_object. by destruct destructor. Qed.

(** The blocks of the cache itself, and those it keeps for later. *)
Definition held (c : cache_t) : list Z := self c :: name c :: ptr_block c :: ptr c.

Record inv (c : cache_t) (out : list Z) (w : world) : Prop := {
  inv_owned : owned (held c ++ out) w;
  inv_room : 0 < freetotal c /\ freecurr c <= freetotal c;
  inv_total : freecurr c + Z.of_nat (length out) <= total c;
}.

Lemma release_spec c out p w :
  owned (p :: held c ++ out) w ->
  wp (release c p) (fun c' w' => c' = with_total c (total c - 1) /\ owned (held c ++ out) w') w.
Proof.
  intros H. unfold release. wp_step destruct_spec as ? w1 H1.
  wp_step free_spec as ? w2 H2. by apply wp_ret.
Qed.

Lemma alloc_spec c out w :
  inv c out w ->
  wp (do_cache_alloc c) (fun '(p, c') w' => inv c' (if p =? 0 then out else p :: out) w' /\
      limit c' = limit c /\ (0 < limit c -> total c <= limit c -> total c' <= limit c)) w.
Proof using malloc_fresh.
  intros [Ho Hr Ht]. unfold do_cache_alloc. destruct (last (ptr c)) as [p|] eqn:El.
  - apply last_Some in El as [l El]. apply wp_ret. unfold freecurr in *.
    rewrite El, length_app in *. cbn [length] in *. rewrite Nat.add_sub, take_app_length.
    assert (p <> 0) as Hp.
    { destruct Ho as (_ & Hf & _). rewrite Forall_forall in Hf. apply Hf. unfold held. rewrite El. set_solver. }
    rewrite (proj2 (Z.eqb_neq p 0)) by done. split_and!; [|done|done].
    constructor; unfold freecurr in *; cbn [ptr freetotal total with_ptr length]; [|lia..].
    revert Ho. apply owned_perm. unfold held. cbn [self name ptr_block ptr with_ptr]. rewrite El.
    cbn [app]. do 3 f_equiv. rewrite <- app_assoc. done.
  - destruct ((limit c =? 0) || (total c <? limit c)) eqn:Hlim; [|by apply wp_ret].
    wp_step malloc_spec as p w1 H1.
    destruct (Z.eqb_spec p 0) as [->|Hp]; cbn [negb].
    { apply wp_ret. cbn [Z.eqb]. done. }
    wp_step construct_spec as r w2 H2.
    destruct (Z.eqb_spec r 0); cbn [negb].
    + apply wp_ret. rewrite (proj2 (Z.eqb_neq p 0)) by done. split_and!; [|done|cbn; lia].
      constructor; unfold freecurr in *; cbn [ptr freetotal total with_total length]; [|lia..].
      revert H2. apply owned_perm, (Permutation_middle (held c) out p).
    + wp_step free_spec as ? w3 H3. apply wp_ret.
      cbn [Z.eqb]. split_and!; [|done|cbn; lia]. constructor; [done|done|unfold freecurr in *; cbn; lia].
Qed.

Lemma release_inv c out p w :
  0 < freetotal c /\ freecurr c <= freetotal c ->
  freecurr c + Z.of_nat (length (p :: out)) <= total c ->
  owned (p :: held c ++ out) w ->
  wp (release c p) (fun c' w' => inv c' out w' /\ limit c' = limit c /\ total c' <= total c) w.
Proof.
  intros Hr Ht H. eapply wp_mono; [|eapply release_spec; eassumption]. intros c' w' [-> H'].
  cbn [length] in Ht. split_and!; [|done|cbn; lia].
  constructor; [done|done|unfold freecurr in *; cbn; lia].
Qed.

Lemma free_object_spec c out p w :
  inv c (p :: out) w ->
  wp (do_cache_free c p) (fun c' w' => inv c' out w' /\ limit c' = limit c /\ total c' <= total c) w.
Proof using malloc_fresh.
  intros [Ho Hr Ht]. unfold do_cache_free.
  assert (owned (p :: held c ++ out) w) as Ho' by (revert Ho; apply owned_perm; by rewrite <- Permutation_middle).
  destruct (total c <? limit c); [by apply release_inv|].
  destruct (Z.ltb_spec (freecurr c) (freetotal c)).
  - apply wp_ret. split_and!; [|done|done].
    constructor; unfold freecurr in *; cbn [ptr freetotal total with_ptr]; rewrite ?length_app; cbn [length] in *; [|lia..].
    revert Ho'. apply owned_perm. unfold held. cbn [self name ptr_block ptr with_ptr app].
    rewrite <- app_assoc. cbn [app]. rewrite <- (Permutation_middle (ptr c) out p). solve_Permutation.
  - apply wp_bind. eapply wp_mono; [|apply (realloc_spec (p :: self c :: name c :: ptr c ++ out))].
    2: { revert Ho'. apply owned_perm. unfold held. cbn [app]. solve_Permutation. }
    intros b w1. cbn beta. destruct (Z.eqb_spec b 0); intros H1; cbn [negb].
    + apply release_inv; [done..|]. revert H1. apply owned_perm. unfold held. cbn [app]. solve_Permutation.
    + apply wp_ret. split_and!; [|done|done].
      constructor; unfold freecurr in *; cbn [ptr freetotal total with_ptr]; rewrite ?length_app; cbn [length] in *; [|lia..].
      revert H1. apply owned_perm. unfold held. cbn [self name ptr_block ptr with_ptr app].
      rewrite <- app_assoc. cbn [app]. rewrite <- (Permutation_middle (ptr c) out p). solve_Permutation.
Qed.

Lemma step_spec op c out w :
  inv c out w ->
  wp (cache_step op c out) (fun '(c', out') w' => inv c' out' w' /\
    ((forall l, op <> SetLimit l) ->
       limit c' = limit c /\ (0 < limit c -> total c <= limit c -> total c' <= limit c))) w.
Proof using malloc_fresh.
  intros I. destruct op as [|i|l]; cbn [cache_step].
  - wp_step alloc_spec as [p c'] w' (I' & Hl & Ht). apply wp_ret. done.
  - destruct (out !! i) as [p|] eqn:Ei; [|by apply wp_ret].
    assert (inv c (p :: delete i out) w) as I'.
    { destruct I as [Ho Hr Ht]. apply delete_Permutation in Ei. constructor; [|done|].
      - revert Ho. apply owned_perm. by rewrite Ei at 1.
      - by rewrite <- (Permutation_length Ei). }
    wp_step free_object_spec as c' w' (I'' & Hl & Ht). apply wp_ret. split; [done|]. intros _. split; [done|lia].
  - apply wp_ret. split; [by destruct I|]. intros H. by destruct (H l).
Qed.

Lemma run_spec ops c out w :
  inv c out w ->
  wp (cache_run ops c out) (fun '(c', out') w' => inv c' out' w' /\
    (Forall (fun op => forall l, op <> SetLimit l) ops ->
       limit c' = limit c /\ (0 < limit c -> total c <= limit c -> total c' <= limit c))) w.
Proof using malloc_fresh.
  revert c out w. induction ops as [|op ops IH]; intros c out w I; cbn [cache_run]; [by apply wp_ret|].
  wp_step step_spec as [c1 out1] w1 (I1 & H1). eapply wp_mono; [|by apply IH]. intros [c2 out2] w2 [I2 H2].
  split; [done|]. intros [Hop Hops]%Forall_cons.
  destruct (H1 Hop) as [E1 T1], (H2 Hops) as [E2 T2]. rewrite E1 in *. split; [done|]. auto.
Qed.

Lemma destroy_loop_spec l l' w :
  owned (l ++ l') w -> wp (destroy_loop l) (fun _ w' => owned l' w') w.
Proof.
  revert w. induction l as [|p l IH]; intros w H; cbn [destroy_loop app] in *; [by apply wp_ret|].
  wp_step destruct_spec as ? w1 H1. wp_step free_spec as ? w2 H2. by apply IH.
Qed.

Lemma destroy_spec c out w : inv c out w -> wp (cache_destroy c) (fun _ w' => owned out w') w.
Proof.
  intros [Ho _ _]. unfold cache_destroy.
  assert (owned (rev (ptr c) ++ name c :: ptr_block c :: self c :: out) w) as H.
  { revert Ho. apply owned_perm. unfold held. rewrite <- (Permutation_rev (ptr c)). cbn [app]. solve_Permutation. }
  wp_step destroy_loop_spec as ? w1 H1. wp_step free_spec as ? w2 H2. wp_step free_spec as ? w3 H3.
  by apply free_spec.
Qed.

(** The block behind a pointer that may be NULL. *)
Definition block (p : Z) : list Z := if p =? 0 then [] else [p].

Lemma malloc_block l sz w : owned l w -> wp (malloc sz) (fun p w' => owned (block p ++ l) w') w.
Proof using malloc_fresh.
  intros H. eapply wp_mono; [|by apply malloc_spec]. intros p w' H'. unfold block.
  cbn beta in H'. by destruct (p =? 0).
Qed.

Lemma free_block l p w : owned (block p ++ l) w -> wp (free p) (fun _ w' => owned l w') w.
Proof.
  unfold block. destruct (Z.eqb_spec p 0) as [->|]; [done|]. apply free_spec.
Qed.

Lemma create_spec namelen sz w :
  owned [] w ->
  wp (cache_create namelen sz)
     (fun r w' => match r with Some c => inv c [] w' /\ total c = 0 | None => owned [] w' end) w.
Proof using malloc_fresh.
  intros H. unfold cache_create.
  wp_step malloc_block as r w1 H1. wp_step malloc_block as nm w2 H2. wp_step malloc_block as p w3 H3.
  destruct ((r =? 0) || (nm =? 0) || (p =? 0) || (mutex_init =? -1)) eqn:E.
  - assert (owned (block r ++ block nm ++ block p ++ []) w3) as H'
      by (revert H3; apply owned_perm; solve_Permutation).
    wp_step free_block as ? w4 H4. wp_step free_block as ? w5 H5. wp_step free_block as ? w6 H6.
    by apply wp_ret.
  - apply wp_ret. unfold block in H3. rewrite !orb_false_iff in E. destruct E as (((Er & En) & Ep) & _).
    rewrite Er, En, Ep in H3. split; [|done].
    constructor; [|by vm_compute|by vm_compute].
    revert H3. apply owned_perm. unfold held. cbn. solve_Permutation.
Qed.
End Owned.

(** An object cache hands out each object to one client at a time, whatever the allocator
    and the constructor answer: in the life of a cache no block is freed that is not
    allocated, the objects held are distinct, and when it is destroyed exactly the objects
    still held remain of all it allocated.  Under a limit that is set at the start and
    never changed, no more objects than the limit are held. *)
Theorem cache_objects (namelen sz l : Z) (ops : list cache_op) (w : world)
    (Hl : 0 < l) (Hops : Forall (fun op => forall l, op <> SetLimit l) ops) :
  wp (cache_life namelen sz (SetLimit l :: ops))
     (fun r w' => match r with
                  | Some out => NoDup out /\ live w' = list_to_set out ∪ live w /\
                                Z.of_nat (length out) <= l
                  | None => live w' = live w
                  end) w.
Proof using malloc_fresh.
  unfold cache_life.
  assert (owned (live w) [] w) as H by (split_and!; [constructor|constructor|set_solver]).
  wp_step (create_spec (live w)) as [c|] w1 H1; [|apply wp_ret; destruct H1 as (_ & _ & ->); set_solver].
  destruct H1 as [I1 T1].
  assert (inv (live w) (cache_set_limit c l) [] w1) as I2 by by destruct I1.
  change (cache_run (SetLimit l :: ops) c []) with (cache_run ops (cache_set_limit c l) []).
  wp_step (run_spec (live w)) as [c' out] w2 (I3 & Hlim). destruct (Hlim Hops) as [_ T3]. cbn in T3.
  wp_step (destroy_spec (live w)) as ? w3 H3. apply wp_ret. destruct H3 as (Hn & _ & Hlive).
  destruct I3 as [_ _ T4]. unfold freecurr in T4. split_and!; [done|done|lia].
Qed.
End Cache.

(** A model of the allocator: the address behind all the allocated ones. *)
Definition next_block (n : nat) (L : gset Z) (sz : Z) : Z := set_fold Z.max 0 L + 1.

Lemma fold_max_bound (l : list Z) x b : x ∈ l -> x <= foldr Z.max b l.
Proof. induction l; cbn; [by intros ?%not_elem_of_nil|]. intros [->|?%IHl]%elem_of_cons; lia. Qed.

Lemma next_block_fresh n L sz : next_block n L sz <> 0 -> next_block n L sz ∉ L.
Proof.
  intros _ Hin. unfold next_block, set_fold in Hin. apply elem_of_elements in Hin. cbn in Hin.
  apply (fold_max_bound _ _ 0) in Hin. lia.
Qed.

Lemma cache_objects_witness :
  wp (cache_life next_block 0 None false 4 64 (SetLimit 2 :: [Alloc; Alloc; Alloc; Free 0; Alloc]))
     (fun r w' => match r with
                  | Some out => NoDup out /\ live w' = list_to_set out ∪ {[100]} /\
                                Z.of_nat (length out) <= 2
                  | None => live w' = {[100]}
                  end) {| live := {[100]}; calls := 0; destroyed := [] |}.
Proof.
  apply (cache_objects next_block 0 None false next_block_fresh 4 64 2); [lia|].
  repeat constructor; discriminate.
Defined.

(** The test [limit > total] of [do_cache_free] is the wrong way round.  Below its limit a
    cache gives every freed object back to the allocator and keeps none for reuse; at or
    above it, where the limit was revised downward, a freed object is kept while there is
    room on the stack, and the number of objects never falls. *)
Theorem cache_free_keeps (malloc_result : nat -> gset Z -> Z -> Z) (destructor : bool)
    (c : cache_t) (p : Z) (w : world) (Hp : p ∈ live w) (Hnz : p <> 0)
    (Hroom : freecurr c < freetotal c) :
  (total c < limit c ->
     wp (do_cache_free malloc_result destructor c p)
        (fun c' w' => ptr c' = ptr c /\ live w' = live w ∖ {[p]} /\ total c' = total c - 1) w) /\
  (limit c <= total c ->
     wp (do_cache_free malloc_result destructor c p)
        (fun c' w' => ptr c' = ptr c ++ [p] /\ live w' = live w /\ total c' = total c) w).
Proof.
  unfold do_cache_free. split; intros Hl.
  - rewrite (proj2 (Z.ltb_lt _ _)) by done. unfold release, destruct_object, free.
    destruct destructor; run_wp; rewrite (proj2 (Z.eqb_neq p 0)) by done;
      rewrite bool_decide_eq_true_2 by done; done.
  - rewrite (proj2 (Z.ltb_ge _ _)), (proj2 (Z.ltb_lt _ _)) by done. done.
Qed.

Definition cache_sample (lim : Z) : cache_t :=
  {| self := 1; name := 2; ptr_block := 3; ptr := []; bufsize := 64; freetotal := 64; total := 5;
     limit := lim |}.

Lemma cache_free_keeps_witness :
  wp (do_cache_free next_block false (cache_sample 3) 9)
     (fun c' w' => ptr c' = [9] /\ live w' = {[9]} /\ total c' = 5)
     {| live := {[9]}; calls := 0; destroyed := [] |}.
Proof.
  destruct (cache_free_keeps next_block false (cache_sample 3) 9 {| live := {[9]}; calls := 0; destroyed := [] |})
    as [_ H]; [set_solver|done|reflexivity|]. apply H. cbn. lia.
Defined.
