(* ===== verification/McItem.v ===== *)
(** * memcached: items, settings and the server's state

    The part of src/sw/apps/memcached/memcached/memcached.h that the hash table
    (assoc.c), the slab allocator (slabs.c) and the item code (items.c) share: the item
    header with its macros and flags, the settings these files read, and their state.

    Memory is a map from addresses to items: a chunk of a slab page is an item, and the
    bytes behind its 48-byte header are [data].  An access to an address without an item,
    or to bytes behind the end of a chunk, is a [Fault].  NULL is 0.

    The functions run one at a time, as under the locks the callers hold; the locks
    themselves and the counters that are only reported are left out.  [assert] is active
    when [ndebug] is false; the server is built with [NDEBUG]. *)

From S2P Require Import McBip.
From stdpp Require Import gmap.
From S2P Require Import Prelude Wire McHash.

(** ** Constants *)
Definition POWER_SMALLEST : Z := 1.
Definition POWER_LARGEST : Z := 256.
Definition SLAB_GLOBAL_PAGE_POOL : Z := 0.
Definition CHUNK_ALIGN_BYTES : Z := 8.
Definition MAX_NUMBER_OF_SLAB_CLASSES : Z := 63 + 1.
Definition HASHPOWER_DEFAULT : Z := 16.
Definition HASHPOWER_MAX : Z := 32.
Definition ITEM_UPDATE_INTERVAL : Z := 60.

Definition ITEM_LINKED : Z := 1.
Definition ITEM_CAS : Z := 2.
Definition ITEM_SLABBED : Z := 4.
Definition ITEM_FETCHED : Z := 8.
Definition ITEM_ACTIVE : Z := 16.
Definition ITEM_CHUNKED : Z := 32.
Definition ITEM_CHUNK : Z := 64.
Definition ITEM_HDR : Z := 128.
Definition ITEM_CFLAGS : Z := 256.

Definition HOT_LRU : Z := 0.
Definition WARM_LRU : Z := 64.
Definition COLD_LRU : Z := 128.
Definition TEMP_LRU : Z := 192.

Definition sizeof_item : Z := 48.
Definition sizeof_item_chunk : Z := 48.

(** [flags & mask] as a condition. *)
Definition has (flags mask : Z) : bool := negb (Z.land flags mask =? 0).

(** ** Items *)

(** The header of the first chunk of a large item, [item_chunk], which lies behind the
    item's key. *)
Record item_chunk := {
  c_next : Z;
  c_prev : Z;
  c_head : Z;
  c_size : Z;
  c_used : Z;
  c_orig_clsid : Z;
}.

Record item := {
  next : Z;
  prev : Z;
  h_next : Z;
  time : Z;
  exptime : Z;
  nbytes : Z;
  refcount : Z;
  it_flags : Z;
  slabs_clsid : Z;
  nkey : Z;
  data : list Z;
  schunk : item_chunk;
}.

Definition no_chunk : item_chunk :=
  {| c_next := 0; c_prev := 0; c_head := 0; c_size := 0; c_used := 0; c_orig_clsid := 0 |}.

(** A chunk of [size] bytes after [memset] to 0. *)
Definition zero_item (size : Z) : item :=
  {| next := 0; prev := 0; h_next := 0; time := 0; exptime := 0; nbytes := 0; refcount := 0;
     it_flags := 0; slabs_clsid := 0; nkey := 0; data := replicate (Z.to_nat (size - sizeof_item)) 0;
     schunk := no_chunk |}.

Definition set_links (n p : Z) (i : item) : item :=
  {| next := n; prev := p; h_next := h_next i; time := time i; exptime := exptime i;
     nbytes := nbytes i; refcount := refcount i; it_flags := it_flags i;
     slabs_clsid := slabs_clsid i; nkey := nkey i; data := data i; schunk := schunk i |}.
Definition set_next (n : Z) (i : item) : item := set_links n (prev i) i.
Definition set_prev (p : Z) (i : item) : item := set_links (next i) p i.
Definition set_h_next (n : Z) (i : item) : item :=
  {| next := next i; prev := prev i; h_next := n; time := time i; exptime := exptime i;
     nbytes := nbytes i; refcount := refcount i; it_flags := it_flags i;
     slabs_clsid := slabs_clsid i; nkey := nkey i; data := data i; schunk := schunk i |}.
Definition set_time (t : Z) (i : item) : item :=
  {| next := next i; prev := prev i; h_next := h_next i; time := t; exptime := exptime i;
     nbytes := nbytes i; refcount := refcount i; it_flags := it_flags i;
     slabs_clsid := slabs_clsid i; nkey := nkey i; data := data i; schunk := schunk i |}.
Definition set_exptime (t : Z) (i : item) : item :=
  {| next := next i; prev := prev i; h_next := h_next i; time := time i; exptime := t;
     nbytes := nbytes i; refcount := refcount i; it_flags := it_flags i;
     slabs_clsid := slabs_clsid i; nkey := nkey i; data := data i; schunk := schunk i |}.
Definition set_sizes (nk nb : Z) (i : item) : item :=
  {| next := next i; prev := prev i; h_next := h_next i; time := time i; exptime := exptime i;
     nbytes := nb; refcount := refcount i; it_flags := it_flags i;
     slabs_clsid := slabs_clsid i; nkey := nk; data := data i; schunk := schunk i |}.
Definition set_refcount (r : Z) (i : item) : item :=
  {| next := next i; prev := prev i; h_next := h_next i; time := time i; exptime := exptime i;
     nbytes := nbytes i; refcount := r; it_flags := it_flags i;
     slabs_clsid := slabs_clsid i; nkey := nkey i; data := data i; schunk := schunk i |}.
Definition set_it_flags (f : Z) (i : item) : item :=
  {| next := next i; prev := prev i; h_next := h_next i; time := time i; exptime := exptime i;
     nbytes := nbytes i; refcount := refcount i; it_flags := f;
     slabs_clsid := slabs_clsid i; nkey := nkey i; data := data i; schunk := schunk i |}.
Definition set_slabs_clsid (c : Z) (i : item) : item :=
  {| next := next i; prev := prev i; h_next := h_next i; time := time i; exptime := exptime i;
     nbytes := nbytes i; refcount := refcount i; it_flags := it_flags i;
     slabs_clsid := c; nkey := nkey i; data := data i; schunk := schunk i |}.
Definition set_data (d : list Z) (i : item) : item :=
  {| next := next i; prev := prev i; h_next := h_next i; time := time i; exptime := exptime i;
     nbytes := nbytes i; refcount := refcount i; it_flags := it_flags i;
     slabs_clsid := slabs_clsid i; nkey := nkey i; data := d; schunk := schunk i |}.
Definition set_schunk (c : item_chunk) (i : item) : item :=
  {| next := next i; prev := prev i; h_next := h_next i; time := time i; exptime := exptime i;
     nbytes := nbytes i; refcount := refcount i; it_flags := it_flags i;
     slabs_clsid := slabs_clsid i; nkey := nkey i; data := data i; schunk := c |}.

(** [it->it_flags |= f] and [it->it_flags &= ~f]. *)
Definition add_flags (f : Z) (i : item) : item := set_it_flags (Z.lor (it_flags i) f) i.
Definition clear_flags (f : Z) (i : item) : item := set_it_flags (Z.ldiff (it_flags i) f) i.

(** The macros; an offset is one into [data]. *)
Definition cas_size (i : item) : Z := if has (it_flags i) ITEM_CAS then 8 else 0.
Definition cflags_size (i : item) : Z := if has (it_flags i) ITEM_CFLAGS then 4 else 0.
Definition ITEM_key (i : item) : Z := cas_size i.
Definition ITEM_suffix (i : item) : Z := nkey i + 1 + cas_size i.
Definition ITEM_data (i : item) : Z := nkey i + 1 + cflags_size i + cas_size i.
Definition ITEM_ntotal (i : item) : Z :=
  sizeof_item + nkey i + 1 + nbytes i + cflags_size i + cas_size i.
Definition ITEM_clsid (i : item) : Z := Z.ldiff (slabs_clsid i) 192.
Definition ITEM_lruid (i : item) : Z := Z.land (slabs_clsid i) 192.

Definition ITEM_get_cas (i : item) : Z :=
  if has (it_flags i) ITEM_CAS then le_val (take 8 (data i)) else 0.

(** [n] bytes of the item from offset [off] on. *)
Definition bytes_at (off n : Z) (i : item) : list Z := slice (Z.to_nat off) (Z.to_nat n) (data i).

Definition key_of (i : item) : list Z := bytes_at (ITEM_key i) (nkey i) i.
Definition value_of (n : Z) (i : item) : list Z := bytes_at (ITEM_data i) n i.

(** [memcpy] into the item; [None] when it runs past the end of the chunk. *)
Definition put_bytes (off : Z) (bs : list Z) (i : item) : option item :=
  if (0 <=? off) && (off + Z.of_nat (length bs) <=? Z.of_nat (length (data i))) then
    Some (set_data (take (Z.to_nat off) (data i) ++ bs ++ drop (Z.to_nat off + length bs) (data i)) i)
  else None.

(** ** Settings *)
Record settings := {
  ndebug : bool;
  use_cas : bool;
  item_size_max : Z;
  slab_page_size : Z;
  slab_chunk_size_max : Z;
  chunk_size : Z;
  slab_reassign : bool;
  slab_automove : Z;
  lru_segmented : bool;
  temp_lru : bool;
  temporary_ttl : Z;
  hot_lru_pct : Z;
  warm_lru_pct : Z;
  evict_to_free : bool;
  tail_repair_time : Z;
  oldest_live : Z;
  oldest_cas : Z;
  hash_algorithm : hashfunc_type;
}.

(** [settings_init], of the fields used here. *)
Definition settings_init : settings :=
  {| ndebug := true; use_cas := true; item_size_max := 1024 * 1024; slab_page_size := 1024 * 1024;
     slab_chunk_size_max := 1024 * 1024 / 2; chunk_size := 48; slab_reassign := true;
     slab_automove := 1; lru_segmented := true; temp_lru := false; temporary_ttl := 61;
     hot_lru_pct := 20; warm_lru_pct := 40; evict_to_free := true; tail_repair_time := 0;
     oldest_live := 0; oldest_cas := 0; hash_algorithm := MURMUR3_HASH |}.

(** ** State *)

(** assoc.c; a table is a map of buckets, a bucket that is not in it is NULL. *)
Record assoc := {
  hashpower : Z;
  primary_hashtable : gmap Z Z;
  old_hashtable : gmap Z Z;
  expanding : bool;
  expand_bucket : Z;
}.

(** slabs.c; [slab_list] holds the first [slabs] pages of the array. *)
Record slabclass_t := {
  sc_size : Z;
  perslab : Z;
  slots : Z;
  sl_curr : Z;
  slab_list : list Z;
  list_size : Z;
}.

Record slabs := {
  slabclass : gmap Z slabclass_t;
  mem_limit : Z;
  mem_malloced : Z;
  mem_limit_reached : bool;
  power_largest : Z;
  mem_base : Z;
  mem_current : Z;
  mem_avail : Z;
  mallocs : nat;            (** calls of the C library's allocator so far *)
}.

(** The LRU queues of items.c, by LRU id. *)
Record lrus := {
  heads : gmap Z Z;
  tails : gmap Z Z;
  sizes : gmap Z Z;
  sizes_bytes : gmap Z Z;
}.

(** [slab_rebal] and [slab_rebalance_signal]: the page that is being moved from one class
    to another; [pick_cur] is the static variable of [slabs_reassign_pick_any]. *)
Record slab_rebalance := {
  signal : Z;
  s_clsid : Z;
  d_clsid : Z;
  slab_start : Z;
  slab_end : Z;
  slab_pos : Z;
  busy_items : Z;
  busy_loops : Z;
  done : Z;
  completed : list Z;
  pick_cur : Z;
}.

Record mc := {
  heap : gmap Z item;
  tab : assoc;
  slb : slabs;
  lru : lrus;
  rebal : slab_rebalance;
  bumps : list bipbuf_t;    (** the LRU bump buffers of the threads *)
  trylocks : nat;           (** lock attempts so far *)
  cas_id : Z;
  current_time : Z;
  curr_items : Z;
  curr_bytes : Z;
}.

Definition no_rebal : slab_rebalance :=
  {| signal := 0; s_clsid := 0; d_clsid := 0; slab_start := 0; slab_end := 0; slab_pos := 0;
     busy_items := 0; busy_loops := 0; done := 0; completed := []; pick_cur := POWER_SMALLEST - 1 |}.

Definition with_heap (h : gmap Z item) (s : mc) : mc :=
  {| heap := h; tab := tab s; slb := slb s; lru := lru s; rebal := rebal s;
     bumps := bumps s; trylocks := trylocks s; cas_id := cas_id s;
     current_time := current_time s; curr_items := curr_items s; curr_bytes := curr_bytes s |}.
Definition with_tab (t : assoc) (s : mc) : mc :=
  {| heap := heap s; tab := t; slb := slb s; lru := lru s; rebal := rebal s;
     bumps := bumps s; trylocks := trylocks s; cas_id := cas_id s;
     current_time := current_time s; curr_items := curr_items s; curr_bytes := curr_bytes s |}.
Definition with_slb (b : slabs) (s : mc) : mc :=
  {| heap := heap s; tab := tab s; slb := b; lru := lru s; rebal := rebal s;
     bumps := bumps s; trylocks := trylocks s; cas_id := cas_id s;
     current_time := current_time s; curr_items := curr_items s; curr_bytes := curr_bytes s |}.
Definition with_lru (l : lrus) (s : mc) : mc :=
  {| heap := heap s; tab := tab s; slb := slb s; lru := l; rebal := rebal s;
     bumps := bumps s; trylocks := trylocks s; cas_id := cas_id s;
     current_time := current_time s; curr_items := curr_items s; curr_bytes := curr_bytes s |}.
Definition with_counts (ci cb : Z) (s : mc) : mc :=
  {| heap := heap s; tab := tab s; slb := slb s; lru := lru s; rebal := rebal s;
     bumps := bumps s; trylocks := trylocks s; cas_id := cas_id s;
     current_time := current_time s; curr_items := ci; curr_bytes := cb |}.
Definition with_cas_id (c : Z) (s : mc) : mc :=
  {| heap := heap s; tab := tab s; slb := slb s; lru := lru s; rebal := rebal s;
     bumps := bumps s; trylocks := trylocks s; cas_id := c;
     current_time := current_time s; curr_items := curr_items s; curr_bytes := curr_bytes s |}.

Definition with_rebal (r : slab_rebalance) (s : mc) : mc :=
  {| heap := heap s; tab := tab s; slb := slb s; lru := lru s; rebal := r;
     bumps := bumps s; trylocks := trylocks s; cas_id := cas_id s;
     current_time := current_time s; curr_items := curr_items s; curr_bytes := curr_bytes s |}.
Definition with_bumps (b : list bipbuf_t) (s : mc) : mc :=
  {| heap := heap s; tab := tab s; slb := slb s; lru := lru s; rebal := rebal s;
     bumps := b; trylocks := trylocks s; cas_id := cas_id s;
     current_time := current_time s; curr_items := curr_items s; curr_bytes := curr_bytes s |}.
Definition with_trylocks (n : nat) (s : mc) : mc :=
  {| heap := heap s; tab := tab s; slb := slb s; lru := lru s; rebal := rebal s;
     bumps := bumps s; trylocks := n; cas_id := cas_id s;
     current_time := current_time s; curr_items := curr_items s; curr_bytes := curr_bytes s |}.

Definition with_time (t : Z) (s : mc) : mc :=
  {| heap := heap s; tab := tab s; slb := slb s; lru := lru s; rebal := rebal s;
     bumps := bumps s; trylocks := trylocks s; cas_id := cas_id s;
     current_time := t; curr_items := curr_items s; curr_bytes := curr_bytes s |}.

(** ** Accesses *)

(** The item at an address, as an expression [*p] reads it. *)
Definition load (p : Z) : M mc item :=
  fun s => match heap s !! p with Some i => Ret i s | None => Fault end.

(** A field of [*p]. *)
Definition field_of {A} (f : item -> A) (p : Z) : M mc A := let! i := load p in ret (f i).

(** An assignment to a field of [*p]. *)
Definition store (p : Z) (f : item -> item) : M mc unit :=
  fun s => match heap s !! p with
           | Some i => Ret tt (with_heap (<[p := f i]> (heap s)) s)
           | None => Fault
           end.

(** [memcpy] into the item. *)
Definition copy_in (p off : Z) (bs : list Z) : M mc unit :=
  fun s => match heap s !! p with
           | Some i => match put_bytes off bs i with
                       | Some i' => Ret tt (with_heap (<[p := i']> (heap s)) s)
                       | None => Fault
                       end
           | None => Fault
           end.

(** [if (c) a;] *)
Definition when (c : bool) (a : M mc unit) : M mc unit := if c then a else ret tt.

Section Settings.
Context (cfg : settings).

Definition cassert (b : bool) : M mc unit := if ndebug cfg then ret tt else massert b.

(** [hash(key, nkey)]: by [McHash.hash_of_key] neither the address of the key nor the
    bytes behind it matter. *)
Definition hash (key : list Z) : Z := hash_init (hash_algorithm cfg) 0 key (length key).

(** [++it->refcount] and [--it->refcount] on an [unsigned short]; the new count. *)
Definition refcount_incr (p : Z) : M mc Z :=
  store p (fun i => set_refcount (u16 (refcount i + 1)) i) ;; field_of refcount p.
Definition refcount_decr (p : Z) : M mc Z :=
  store p (fun i => set_refcount (u16 (refcount i - 1)) i) ;; field_of refcount p.

(** The macro evaluates [v] only when the item has room for it. *)
Definition ITEM_set_cas (p : Z) (v : M mc Z) : M mc unit :=
  let! i := load p in
  when (has (it_flags i) ITEM_CAS) (let! c := v in copy_in p 0 (le_bytes 8 c)).
End Settings.

(** ** Reasoning about accesses *)
Lemma wp_gets {A} (f : mc -> A) (Q : A -> mc -> Prop) s : Q (f s) s -> wp (gets f) Q s.
Proof. done. Qed.

Lemma wp_modify (f : mc -> mc) (Q : unit -> mc -> Prop) s : Q tt (f s) -> wp (modify f) Q s.
Proof. done. Qed.

Lemma wp_load p i s (Q : item -> mc -> Prop) : heap s !! p = Some i -> Q i s -> wp (load p) Q s.
Proof. intros E H. unfold wp, load. by rewrite E. Qed.

Lemma wp_field_of {A} (f : item -> A) p i s (Q : A -> mc -> Prop) :
  heap s !! p = Some i -> Q (f i) s -> wp (field_of f p) Q s.
Proof. intros E H. apply wp_bind. by eapply wp_load. Qed.

Lemma wp_store p f i s (Q : unit -> mc -> Prop) :
  heap s !! p = Some i -> Q tt (with_heap (<[p := f i]> (heap s)) s) -> wp (store p f) Q s.
Proof. intros E H. unfold wp, store. by rewrite E. Qed.

Lemma wp_cassert cfg b s (Q : unit -> mc -> Prop) : b = true -> Q tt s -> wp (cassert cfg b) Q s.
Proof. intros -> H. unfold cassert. by case_match. Qed.

Lemma wp_refcount_incr p i s (Q : Z -> mc -> Prop) :
  heap s !! p = Some i ->
  Q (u16 (refcount i + 1)) (with_heap (<[p := set_refcount (u16 (refcount i + 1)) i]> (heap s)) s) ->
  wp (refcount_incr p) Q s.
Proof.
  intros E H. apply wp_bind. eapply wp_store; [done|].
  eapply wp_field_of; [cbn; by rewrite lookup_insert_eq|done].
Qed.

Lemma wp_refcount_decr p i s (Q : Z -> mc -> Prop) :
  heap s !! p = Some i ->
  Q (u16 (refcount i - 1)) (with_heap (<[p := set_refcount (u16 (refcount i - 1)) i]> (heap s)) s) ->
  wp (refcount_decr p) Q s.
Proof.
  intros E H. apply wp_bind. eapply wp_store; [done|].
  eapply wp_field_of; [cbn; by rewrite lookup_insert_eq|done].
Qed.

(** What a store at [p] leaves of a field it does not assign to. *)
Lemma field_insert {A} (g : item -> A) (h : gmap Z item) p i i' x :
  h !! p = Some i -> g i' = g i -> g <$> (<[p := i']> h) !! x = g <$> h !! x.
Proof.
  intros E Hg. destruct (decide (x = p)) as [->|].
  - rewrite lookup_insert_eq, E. cbn. by rewrite Hg.
  - by rewrite lookup_insert_ne.
Qed.

(** ** Lists of addresses *)
Lemma filter_all (P : Z -> Prop) `{forall x, Decision (P x)} (l : list Z) :
  (forall x, x ∈ l -> P x) -> filter P l = l.
Proof.
  induction l as [|x l IH]; intros Hl; [done|].
  rewrite filter_cons_True by (apply Hl; set_solver). f_equal. apply IH. set_solver.
Qed.

Lemma filter_ne_middle (p : Z) l1 l2 :
  NoDup (l1 ++ p :: l2) -> filter (fun x => x <> p) (l1 ++ p :: l2) = l1 ++ l2.
Proof.
  intros Hn. apply NoDup_app in Hn as (_ & Hd & Hn). apply NoDup_cons in Hn as [Hp _].
  rewrite filter_app, filter_cons_False by (by intros []).
  rewrite !filter_all; [done|intros x Hx ->; done|].
  intros x Hx ->. apply (Hd p Hx). set_solver.
Qed.
