(* ===== verification/McLists.v ===== *)
(** * memcached: doubly linked lists of items

    The free lists of slabs.c and the LRU queues of items.c both link items by [next] and
    [prev].  [dseg h pv p l nx]: in the heap [h] the items [l] form a list that starts at
    [p], the first with [pv] before it and the last with [nx] behind it. *)

From stdpp Require Import gmap.
From S2P Require Import Prelude Wire McHash McItem.

Definition links (i : item) : Z * Z := (next i, prev i).

Fixpoint dseg (h : gmap Z item) (pv p : Z) (l : list Z) (nx : Z) : Prop :=
  match l with
  | [] => p = nx
  | x :: l' => p = x /\ x <> 0 /\ exists i, h !! x = Some i /\ prev i = pv /\ dseg h x (next i) l' nx
  end.

(** A whole list from its head. *)
Definition dlist (h : gmap Z item) (p : Z) (l : list Z) : Prop := dseg h 0 p l 0.

Lemma dseg_frame h h' pv p l nx :
  dseg h pv p l nx -> (forall x, x ∈ l -> links <$> h' !! x = links <$> h !! x) -> dseg h' pv p l nx.
Proof.
  revert pv p. induction l as [|x l IH]; intros pv p; cbn [dseg]; [done|].
  intros (-> & Hx & i & E & Hp & Hd) Hf. split; [done|]. split; [done|].
  pose proof (Hf x ltac:(set_solver)) as Hi. rewrite E in Hi.
  destruct (h' !! x) as [i'|]; [|done]. cbn in Hi. unfold links in Hi. injection Hi as Hn Hp'.
  exists i'. split; [done|]. split; [congruence|]. rewrite Hn. apply IH; [done|].
  intros y Hy. apply Hf. set_solver.
Qed.

Lemma dseg_insert h pv p l nx x i : dseg h pv p l nx -> x ∉ l -> dseg (<[x := i]> h) pv p l nx.
Proof.
  intros Hd Hx. apply (dseg_frame h); [done|]. intros y Hy. rewrite lookup_insert_ne; [done|]. by intros ->.
Qed.

Lemma dseg_dom h pv p l nx x : dseg h pv p l nx -> x ∈ l -> is_Some (h !! x).
Proof.
  revert pv p. induction l as [|y l IH]; intros pv p; cbn [dseg]; [by intros _ ?%not_elem_of_nil|].
  intros (-> & _ & i & E & _ & Hd) [->|Hx]%elem_of_cons; [by eexists|by eapply IH].
Qed.

Lemma dseg_nonzero h pv p l nx : dseg h pv p l nx -> 0 ∉ l.
Proof.
  revert pv p. induction l as [|x l IH]; intros pv p; cbn [dseg]; [set_solver|].
  intros (_ & Hx & i & _ & _ & Hd). apply IH in Hd. set_solver.
Qed.

(** The item before the end of a segment. *)
Definition last_of (pv : Z) (l : list Z) : Z := default pv (last l).

Lemma last_of_cons pv x l : last_of pv (x :: l) = last_of x l.
Proof. unfold last_of. rewrite last_cons. by destruct (last l). Qed.

Lemma last_of_snoc pv l x : last_of pv (l ++ [x]) = x.
Proof. unfold last_of. by rewrite last_snoc. Qed.

Lemma dseg_app h pv p l1 l2 nx :
  dseg h pv p (l1 ++ l2) nx <-> exists q, dseg h pv p l1 q /\ dseg h (last_of pv l1) q l2 nx.
Proof.
  revert pv p. induction l1 as [|x l1 IH]; intros pv p; cbn [app dseg].
  - split; [intros H; by exists p|]. by intros (q & -> & H).
  - setoid_rewrite last_of_cons. split.
    + intros (-> & Hx & i & E & Hp & Hd). apply IH in Hd as (q & H1 & H2). exists q. split; [|done].
      split; [done|]. split; [done|]. by exists i.
    + intros (q & (-> & Hx & i & E & Hp & H1) & H2). split; [done|]. split; [done|]. exists i.
      split; [done|]. split; [done|]. apply IH. by exists q.
Qed.

(** The head of a list that is not empty. *)
Lemma dseg_head h pv p l nx : dseg h pv p l nx -> p = default nx (head l).
Proof. destruct l; cbn; [done|]. by intros (-> & _). Qed.

(** Redirecting the [prev] of the first and the [next] of the last item. *)
Lemma dseg_set_head h pv pv' p x l nx i :
  dseg h pv p (x :: l) nx -> x ∉ l -> h !! x = Some i ->
  dseg (<[x := set_prev pv' i]> h) pv' x (x :: l) nx.
Proof.
  cbn [dseg]. intros (-> & Hx & i' & E & _ & Hd) Hni Ei. simplify_eq.
  split; [done|]. split; [done|]. eexists. rewrite lookup_insert_eq. split; [done|]. split; [done|].
  cbn. by apply dseg_insert.
Qed.

Lemma dseg_set_last h pv p l x nx nx' i :
  dseg h pv p (l ++ [x]) nx -> x ∉ l -> h !! x = Some i ->
  dseg (<[x := set_next nx' i]> h) pv p (l ++ [x]) nx'.
Proof.
  intros (q & H1 & H2)%dseg_app Hx Ei. apply dseg_app. cbn [dseg] in H2.
  destruct H2 as (-> & H0 & i' & E & Hp & _). simplify_eq. exists x. split; [by apply dseg_insert|].
  cbn [dseg]. split; [done|]. split; [done|]. eexists. rewrite lookup_insert_eq. done.
Qed.

(** ** Adding at the head, taking from the head, taking from the middle *)

(** [x->prev = 0; x->next = p; if (p) p->prev = x;] *)
Definition pushed (h : gmap Z item) (x : Z) (i : item) (p : Z) : gmap Z item :=
  let h1 := <[x := set_links p 0 i]> h in
  if p =? 0 then h1 else alter (set_prev x) p h1.

Lemma alter_Some (h : gmap Z item) f p i : h !! p = Some i -> alter f p h = <[p := f i]> h.
Proof.
  intros E. apply map_eq. intros x. destruct (decide (x = p)) as [->|].
  - by rewrite lookup_alter_eq, lookup_insert_eq, E.
  - by rewrite lookup_alter_ne, lookup_insert_ne.
Qed.

Lemma dlist_push h x i p l :
  dlist h p l -> NoDup (x :: l) -> x <> 0 -> dlist (pushed h x i p) x (x :: l).
Proof.
  intros Hd Hn Hx. apply NoDup_cons in Hn as [Hni Hn]. unfold pushed, dlist in *.
  assert (dseg (<[x := set_links p 0 i]> h) 0 p l 0) as Hd1 by by apply dseg_insert.
  destruct l as [|y l].
  - cbn [dseg] in *. subst p. cbn [Z.eqb]. split; [done|]. split; [done|].
    eexists. rewrite lookup_insert_eq. done.
  - pose proof Hd as (-> & Hy & iy & Ey & _ & _). assert (x <> y) by set_solver.
    rewrite (proj2 (Z.eqb_neq y 0)), (alter_Some _ _ _ iy) by (done || by rewrite lookup_insert_ne).
    apply NoDup_cons in Hn as [Hny Hn].
    pose proof (dseg_set_head _ 0 x y y l 0 iy Hd1 Hny ltac:(by rewrite lookup_insert_ne)) as Hd2.
    cbn [dseg] in Hd2 |- *. split; [done|]. split; [done|].
    exists (set_links y 0 i). rewrite lookup_insert_ne, lookup_insert_eq by done. done.
Qed.

(** [if (n) n->prev = p; if (p) p->next = n;] *)
Definition bypassed (h : gmap Z item) (p n : Z) : gmap Z item :=
  let h1 := if n =? 0 then h else alter (set_prev p) n h in
  if p =? 0 then h1 else alter (set_next n) p h1.

Lemma dseg_head_prev h pv p l pv' :
  dseg h pv p l 0 -> NoDup l -> dseg (if p =? 0 then h else alter (set_prev pv') p h) pv' p l 0.
Proof.
  intros Hd Hn. destruct l as [|y l].
  - cbn [dseg] in *. subst p. done.
  - pose proof Hd as (-> & Hy & iy & Ey & _ & _). rewrite (proj2 (Z.eqb_neq y 0)) by done.
    rewrite (alter_Some _ _ _ iy) by done. apply NoDup_cons in Hn as [Hny _]. by apply (dseg_set_head h pv pv' y).
Qed.

(** Taking [x] out of a list. *)
Lemma dlist_remove h p l1 x l2 i :
  dlist h p (l1 ++ x :: l2) -> NoDup (l1 ++ x :: l2) -> h !! x = Some i ->
  prev i = last_of 0 l1 /\ next i = default 0 (head l2) /\
  dlist (bypassed h (prev i) (next i)) (if prev i =? 0 then next i else p) (l1 ++ l2).
Proof.
  unfold dlist. intros (q & H1 & H2)%dseg_app Hn Ei. cbn [dseg] in H2.
  destruct H2 as (-> & Hx & i' & E & Hp & H2). assert (i' = i) as -> by congruence.
  apply NoDup_app in Hn as (Hn1 & Hdis & Hn2). apply NoDup_cons in Hn2 as [Hnx Hn2].
  split; [done|]. split; [by apply (dseg_head _ _ _ _ _ H2)|]. unfold bypassed.
  set (h1 := if next i =? 0 then h else alter (set_prev (prev i)) (next i) h).
  pose proof (dseg_head_prev h x (next i) l2 (prev i) H2 Hn2) as H2'. fold h1 in H2'.
  assert (dseg h1 0 p l1 x) as H1'.
  { apply (dseg_frame h); [done|]. intros y Hy. unfold h1. destruct (Z.eqb_spec (next i) 0); [done|].
    rewrite lookup_alter_ne; [done|]. intros <-. apply (Hdis (next i) Hy).
    apply dseg_head in H2 as Hh. destruct l2 as [|z l2]; cbn in Hh; [done|]. rewrite Hh. set_solver. }
  destruct (last l1) as [y|] eqn:El.
  - apply last_Some in El as [l0 ->]. rewrite Hp, last_of_snoc in *.
    destruct (dseg_dom _ _ _ _ _ y H1' ltac:(set_solver)) as [iy Ey].
    assert (y <> 0) as Hy0 by (intros ->; by apply dseg_nonzero in H1'; set_solver).
    rewrite (proj2 (Z.eqb_neq y 0)), (alter_Some _ _ _ iy) by done.
    apply NoDup_app in Hn1 as (_ & Hd1 & _).
    apply dseg_app. exists (next i). rewrite last_of_snoc. split.
    + apply (dseg_set_last h1 0 p l0 y x); [done|set_solver|done].
    + apply dseg_insert; [done|]. intros Hy. apply (Hdis y); set_solver.
  - apply last_None in El. subst l1. unfold last_of in Hp. cbn in Hp. rewrite Hp. cbn [Z.eqb app].
    by rewrite Hp in H2'.
Qed.
