(* ===== verification/McAssoc.v ===== *)
(** * memcached: the hash table of the items

    src/sw/apps/memcached/memcached/assoc.c.  Items are chained by [h_next] from buckets;
    while the table is being expanded, the buckets of the old table from [expand_bucket]
    on are still in use, and the maintenance thread moves them one at a time.  The loops
    along a chain have as many steps as there are items, and one more: a chain that is
    not cyclic ends before that, and a cyclic one is never left ([Block]). *)

From stdpp Require Import gmap.
From S2P Require Import Prelude Wire McHash McItem.

Definition hashsize (n : Z) : Z := u32 (Z.shiftl 1 n).
Definition hashmask (n : Z) : Z := u32 (hashsize n - 1).

(** A pointer to an [item *]: a bucket of the old or of the primary table, or the
    [h_next] of an item. *)
Inductive place :=
| Bucket (old : bool) (b : Z)
| Link (p : Z).

Definition with_table (old : bool) (m : gmap Z Z) (t : assoc) : assoc :=
  if old then
    {| hashpower := hashpower t; primary_hashtable := primary_hashtable t; old_hashtable := m;
       expanding := expanding t; expand_bucket := expand_bucket t |}
  else
    {| hashpower := hashpower t; primary_hashtable := m; old_hashtable := old_hashtable t;
       expanding := expanding t; expand_bucket := expand_bucket t |}.

Definition table (old : bool) (t : assoc) : gmap Z Z :=
  if old then old_hashtable t else primary_hashtable t.

Definition bucket (old : bool) (b : Z) (t : assoc) : Z := default 0 (table old t !! b).

(** [*pos] and [*pos = v]. *)
Definition deref (pos : place) : M mc Z :=
  match pos with
  | Bucket old b => gets (fun s => bucket old b (tab s))
  | Link p => field_of h_next p
  end.

Definition assign (pos : place) (v : Z) : M mc unit :=
  match pos with
  | Bucket old b => modify (fun s => with_tab (with_table old (<[b := v]> (table old (tab s))) (tab s)) s)
  | Link p => store p (set_h_next v)
  end.

(** The bucket of a hash value, in the table it is in. *)
Definition cell (t : assoc) (hv : Z) : bool * Z :=
  let oldbucket := Z.land hv (hashmask (hashpower t - 1)) in
  if expanding t && (expand_bucket t <=? oldbucket) then (true, oldbucket)
  else (false, Z.land hv (hashmask (hashpower t))).

Definition fuel (s : mc) : nat := S (size (heap s)).

Section Assoc.
Context (cfg : settings).

(** [exit] on a failed [calloc]. *)
Definition assoc_init (calloc_ok : bool) (hashtable_init : Z) : M mc unit :=
  fun s =>
    if calloc_ok then
      Ret tt (with_tab {| hashpower := if hashtable_init =? 0 then hashpower (tab s) else hashtable_init;
                          primary_hashtable := ∅; old_hashtable := old_hashtable (tab s);
                          expanding := expanding (tab s); expand_bucket := expand_bucket (tab s) |} s)
    else Abort.

(** [(nkey == it->nkey) && (memcmp(key, ITEM_key(it), nkey) == 0)] *)
Definition same_key (key : list Z) (i : item) : bool :=
  (nkey i =? Z.of_nat (length key)) &&
  bool_decide (bytes_at (ITEM_key i) (Z.of_nat (length key)) i = key).

Fixpoint find_loop (n : nat) (key : list Z) (it : Z) : M mc Z :=
  match n with
  | O => fun _ => Block
  | S n' =>
      if it =? 0 then ret 0
      else
        let! i := load it in
        if same_key key i then ret it else find_loop n' key (h_next i)
  end.

Definition assoc_find (key : list Z) (hv : Z) : M mc Z :=
  let! (old, b) := gets (fun s => cell (tab s) hv) in
  let! it := deref (Bucket old b) in
  let! n := gets fuel in
  find_loop n key it.

Fixpoint before_loop (n : nat) (key : list Z) (pos : place) : M mc place :=
  match n with
  | O => fun _ => Block
  | S n' =>
      let! it := deref pos in
      if it =? 0 then ret pos
      else
        let! i := load it in
        if same_key key i then ret pos else before_loop n' key (Link it)
  end.

Definition hashitem_before (key : list Z) (hv : Z) : M mc place :=
  let! (old, b) := gets (fun s => cell (tab s) hv) in
  let! n := gets fuel in
  before_loop n key (Bucket old b).

Definition assoc_expand (calloc_ok : bool) : M mc unit :=
  modify (fun s =>
    let t := tab s in
    if calloc_ok then
      with_tab {| hashpower := hashpower t + 1; primary_hashtable := ∅;
                  old_hashtable := primary_hashtable t; expanding := true; expand_bucket := 0 |} s
    else with_tab (with_table true (primary_hashtable t) t) s).

(** Whether the maintenance thread is woken. *)
Definition assoc_start_expand (trylock_ok : bool) (items : Z) : M mc bool :=
  gets (fun s =>
    trylock_ok && (u32 (hashsize (hashpower (tab s)) * 3) / 2 <? items) &&
    (hashpower (tab s) <? HASHPOWER_MAX)).

Definition assoc_insert (it hv : Z) : M mc Z :=
  let! (old, b) := gets (fun s => cell (tab s) hv) in
  let! first := deref (Bucket old b) in
  store it (set_h_next first) ;;
  assign (Bucket old b) it ;;
  ret 1.

Definition assoc_delete (key : list Z) (hv : Z) : M mc unit :=
  let! before := hashitem_before key hv in
  let! p := deref before in
  if negb (p =? 0) then
    let! nxt := field_of h_next p in
    store p (set_h_next 0) ;;
    assign before nxt
  else cassert cfg false.

(** *** The maintenance thread *)

(** The items of a bucket, from [it] on, to the primary table. *)
Fixpoint move_loop (n : nat) (it : Z) : M mc unit :=
  match n with
  | O => fun _ => Block
  | S n' =>
      if it =? 0 then ret tt
      else
        let! i := load it in
        let! b := gets (fun s => Z.land (hash cfg (key_of i)) (hashmask (hashpower (tab s)))) in
        let! first := deref (Bucket false b) in
        store it (set_h_next first) ;;
        assign (Bucket false b) it ;;
        move_loop n' (h_next i)
  end.

(** One bucket, with the item lock of [expand_bucket] held. *)
Definition move_bucket : M mc unit :=
  let! eb := gets (fun s => expand_bucket (tab s)) in
  let! it := deref (Bucket true eb) in
  let! n := gets fuel in
  move_loop n it ;;
  assign (Bucket true eb) 0 ;;
  modify (fun s =>
    let t := tab s in
    let eb' := u32 (eb + 1) in
    if eb' =? hashsize (hashpower t - 1) then
      with_tab {| hashpower := hashpower t; primary_hashtable := primary_hashtable t;
                  old_hashtable := ∅; expanding := false; expand_bucket := eb' |} s
    else
      with_tab {| hashpower := hashpower t; primary_hashtable := primary_hashtable t;
                  old_hashtable := old_hashtable t; expanding := expanding t; expand_bucket := eb' |} s).

(** A round of the thread's [for] loop, [trylock] being the outcome of [item_trylock]. *)
Definition maintenance_round (trylock : bool) : M mc unit :=
  let! e := gets (fun s => expanding (tab s)) in
  if e && trylock then move_bucket else ret tt.

(** The rounds until the thread sleeps. *)
Fixpoint maintenance (trylocks : list bool) : M mc unit :=
  match trylocks with
  | [] => ret tt
  | l :: ls => maintenance_round l ;; maintenance ls
  end.
End Assoc.

(** ** Chains *)
Fixpoint chain (h : gmap Z item) (p : Z) (l : list Z) : Prop :=
  match l with
  | [] => p = 0
  | x :: l' => p = x /\ x <> 0 /\ exists i, h !! x = Some i /\ chain h (h_next i) l'
  end.

(** A chain is the same when the links of its items are. *)
Lemma chain_frame h h' p l :
  chain h p l -> (forall x, x ∈ l -> h_next <$> h' !! x = h_next <$> h !! x) -> chain h' p l.
Proof.
  revert p. induction l as [|x l IH]; intros p; cbn [chain]; [done|].
  intros (-> & Hx & i & E & Hc) Hf. split; [done|]. split; [done|].
  pose proof (Hf x ltac:(set_solver)) as Hi. rewrite E in Hi. cbn in Hi.
  destruct (h' !! x) as [i'|]; [|done]. injection Hi as Hi. exists i'. split; [done|].
  rewrite Hi. apply IH; [done|]. intros y Hy. apply Hf. set_solver.
Qed.

Lemma chain_insert h p l x i :
  chain h p l -> x ∉ l -> chain (<[x := i]> h) p l.
Proof.
  intros Hc Hx. apply (chain_frame h); [done|]. intros y Hy.
  rewrite lookup_insert_ne; [done|]. by intros ->.
Qed.

Lemma chain_push h p l x i :
  chain h p l -> x ∉ l -> x <> 0 -> chain (<[x := set_h_next p i]> h) x (x :: l).
Proof.
  intros Hc Hx H0. cbn [chain]. split; [done|]. split; [done|].
  eexists. rewrite lookup_insert_eq. split; [done|]. cbn [h_next set_h_next]. by apply chain_insert.
Qed.

Lemma chain_dom h p l x : chain h p l -> x ∈ l -> is_Some (h !! x).
Proof.
  revert p. induction l as [|y l IH]; intros p; cbn [chain]; [by intros _ ?%not_elem_of_nil|].
  intros (-> & _ & i & E & Hc) [->|Hx]%elem_of_cons; [by eexists|by eapply IH].
Qed.

(** A chain without repetition is no longer than there are items. *)
Lemma chain_length h p l : chain h p l -> NoDup l -> (length l <= size h)%nat.
Proof.
  intros Hc Hn. rewrite <- size_dom. rewrite <- (size_list_to_set (C := gset Z) l) by done.
  apply subseteq_size. intros x. rewrite elem_of_list_to_set, elem_of_dom. by apply chain_dom with p.
Qed.

(** Taking [p] out of the chain, behind [x]. *)
Lemma chain_unlink h v l1 x p l2 ip ix :
  chain h v (l1 ++ x :: p :: l2) -> NoDup (l1 ++ x :: p :: l2) -> h !! p = Some ip ->
  h !! x = Some ix ->
  chain (<[x := set_h_next (h_next ip) ix]> (<[p := set_h_next 0 ip]> h)) v (l1 ++ x :: l2).
Proof.
  revert v. induction l1 as [|y l1 IH]; intros v Hc Hn Ep Ex.
  - cbn [app chain] in *. destruct Hc as (-> & Hx & i & E & _ & Hp & ip' & Ep' & Hc). simplify_eq.
    split; [done|]. split; [done|]. eexists. rewrite lookup_insert_eq. split; [done|].
    apply NoDup_cons in Hn as [Hnx Hn]. apply NoDup_cons in Hn as [Hnp Hn].
    cbn [h_next set_h_next]. apply chain_insert; [|set_solver]. by apply chain_insert.
  - cbn [app chain] in *. destruct Hc as (-> & Hy & i & E & Hc). apply NoDup_cons in Hn as [Hny Hn].
    split; [done|]. split; [done|]. exists i. split; [|by apply IH].
    rewrite !lookup_insert_ne; [done| |]; set_solver.
Qed.

Section Table.
Context (cfg : settings).

(** The first item of the list with the key, 0 if there is none. *)
Fixpoint first_match (h : gmap Z item) (key : list Z) (l : list Z) : Z :=
  match l with
  | [] => 0
  | p :: l' =>
      match h !! p with
      | Some i => if same_key key i then p else first_match h key l'
      | None => 0
      end
  end.

(** [L] says which items each bucket in use holds, in the order of the chain: they are
    the items whose hash value belongs there. *)
Record rep (L : bool * Z -> list Z) (s : mc) : Prop := {
  rep_power : 0 <= hashpower (tab s) < 32;
  rep_expand : expanding (tab s) = true ->
    1 <= hashpower (tab s) /\ 0 <= expand_bucket (tab s) < 2 ^ (hashpower (tab s) - 1);
  rep_chain : forall old b, (old = true -> expanding (tab s) = true) ->
    chain (heap s) (bucket old b (tab s)) (L (old, b));
  rep_cell : forall c p, p ∈ L c ->
    exists i, heap s !! p = Some i /\ cell (tab s) (hash cfg (key_of i)) = c;
  rep_nodup : forall c, NoDup (L c);
}.

(** Only links of items and buckets change. *)
Definition links_only (s s' : mc) : Prop :=
  exists h t, s' = with_heap h (with_tab t s) /\
    (set_h_next 0 <$> h) = ((set_h_next 0 <$> heap s) : gmap Z item).

Definition upd (c : bool * Z) (l : list Z) (L : bool * Z -> list Z) : bool * Z -> list Z :=
  fun c' => if decide (c' = c) then l else L c'.

Lemma upd_same c l L : upd c l L c = l.
Proof. unfold upd. by case_decide. Qed.

Lemma upd_other c c' l L : c' <> c -> upd c l L c' = L c'.
Proof. intros H. unfold upd. by case_decide. Qed.

Lemma links_only_refl s : links_only s s.
Proof. exists (heap s), (tab s). by destruct s. Qed.

Lemma links_only_trans s1 s2 s3 : links_only s1 s2 -> links_only s2 s3 -> links_only s1 s3.
Proof.
  intros (h & t & -> & E) (h' & t' & -> & E'). exists h', t'. split; [done|]. cbn in E'. by rewrite E', E.
Qed.

Lemma links_only_store s p i v :
  heap s !! p = Some i -> links_only s (with_heap (<[p := set_h_next v i]> (heap s)) s).
Proof.
  intros E. exists (<[p := set_h_next v i]> (heap s)), (tab s). split; [by destruct s|].
  rewrite fmap_insert. apply insert_id. rewrite lookup_fmap, E. done.
Qed.

Lemma links_only_tab s t : links_only s (with_tab t s).
Proof. exists (heap s), t. by destruct s. Qed.

(** An item that only lost its link. *)
Lemma links_only_lookup s s' p i :
  links_only s s' -> heap s !! p = Some i -> exists v, heap s' !! p = Some (set_h_next v i).
Proof.
  intros (h & t & -> & E) Ei. cbn. apply (f_equal (lookup p)) in E. rewrite !lookup_fmap, Ei in E.
  destruct (h !! p) as [i'|]; [|done]. cbn in E. apply (inj Some) in E. exists (h_next i').
  destruct i, i'. unfold set_h_next in *. cbn in *. congruence.
Qed.

Lemma cell_tables t t' hv :
  hashpower t' = hashpower t -> expanding t' = expanding t -> expand_bucket t' = expand_bucket t ->
  cell t' hv = cell t hv.
Proof. intros E1 E2 E3. unfold cell. by rewrite E1, E2, E3. Qed.

Lemma cell_old t hv b : cell t hv = (true, b) -> expanding t = true.
Proof. unfold cell. destruct (expanding t); [done|]. by intros [= ]. Qed.

Lemma bucket_with_table old old' b m t :
  bucket old b (with_table old' m t) =
  if bool_decide (old = old') then default 0 (m !! b) else bucket old b t.
Proof. by destruct old, old'. Qed.

Lemma with_table_params old m t :
  hashpower (with_table old m t) = hashpower t /\ expanding (with_table old m t) = expanding t /\
  expand_bucket (with_table old m t) = expand_bucket t.
Proof. by destruct old. Qed.

Lemma cell_with_table old m t hv : cell (with_table old m t) hv = cell t hv.
Proof. destruct (with_table_params old m t) as (E1 & E2 & E3). by apply cell_tables. Qed.

Lemma key_of_set_h_next v i : key_of (set_h_next v i) = key_of i.
Proof. done. Qed.

Lemma same_key_set_h_next key v i : same_key key (set_h_next v i) = same_key key i.
Proof. done. Qed.

(** *** Looking up *)
Lemma find_loop_spec n key p l s :
  chain (heap s) p l -> (length l < n)%nat ->
  wp (find_loop n key p) (fun r s' => r = first_match (heap s) key l /\ s' = s) s.
Proof.
  revert n p. induction l as [|x l IH]; intros [|n] p Hc Hn; cbn [length] in Hn; try lia; cbn [find_loop chain] in *.
  - subst p. by apply wp_ret.
  - destruct Hc as (-> & Hx & i & E & Hc). rewrite (proj2 (Z.eqb_neq x 0)) by done.
    apply wp_bind. eapply wp_load; [done|]. cbn [first_match]. rewrite E.
    destruct (same_key key i); [by apply wp_ret|]. apply IH; [done|lia].
Qed.

Lemma rep_bucket L s hv :
  rep L s -> let '(old, b) := cell (tab s) hv in
  chain (heap s) (bucket old b (tab s)) (L (old, b)) /\ (length (L (old, b)) < fuel s)%nat.
Proof.
  intros R. destruct (cell (tab s) hv) as [old b] eqn:E.
  assert (chain (heap s) (bucket old b (tab s)) (L (old, b))) as Hc.
  { apply (rep_chain _ _ R). intros ->. by apply cell_old in E. }
  split; [done|]. unfold fuel. pose proof (chain_length _ _ _ Hc (rep_nodup _ _ R _)). lia.
Qed.

Lemma assoc_find_spec L s key hv :
  rep L s ->
  wp (assoc_find key hv)
     (fun r s' => r = first_match (heap s) key (L (cell (tab s) hv)) /\ s' = s) s.
Proof.
  intros R. pose proof (rep_bucket L s hv R) as H. unfold assoc_find.
  apply wp_bind. change (wp (gets _) ?Q s) with (Q (cell (tab s) hv) s).
  destruct (cell (tab s) hv) as [old b]. destruct H as [Hc Hl].
  apply wp_bind. unfold deref. change (wp (gets _) ?Q s) with (Q (bucket old b (tab s)) s).
  apply wp_bind. change (wp (gets _) ?Q s) with (Q (fuel s) s). by apply find_loop_spec.
Qed.

(** *** Inserting *)
Definition inserted (s : mc) (it : Z) (i : item) (c : bool * Z) : mc :=
  with_tab (with_table c.1 (<[c.2 := it]> (table c.1 (tab s))) (tab s))
    (with_heap (<[it := set_h_next (bucket c.1 c.2 (tab s)) i]> (heap s)) s).

Lemma inserted_rep L s it i c :
  rep L s -> heap s !! it = Some i -> it <> 0 -> (forall c, it ∉ L c) ->
  c = cell (tab s) (hash cfg (key_of i)) ->
  rep (upd c (it :: L c) L) (inserted s it i c).
Proof.
  intros R E H0 Hni Hc. destruct c as [old b].
  destruct (with_table_params old (<[b := it]> (table old (tab s))) (tab s)) as (E1 & E2 & E3).
  constructor; cbn [tab heap inserted with_tab with_heap fst snd].
  - rewrite E1. apply R.
  - rewrite E1, E2, E3. apply R.
  - intros old' b' He. rewrite E2 in He. rewrite bucket_with_table.
    pose proof (rep_chain _ _ R old' b' He) as Hch.
    destruct (decide ((old', b') = (old, b))) as [[= -> ->]|Hne].
    + rewrite bool_decide_eq_true_2, lookup_insert_eq, upd_same by done. cbn [default].
      by apply chain_push.
    + rewrite upd_other by done. case_bool_decide as Ho; [subst old'|by apply chain_insert].
      rewrite lookup_insert_ne by congruence. by apply chain_insert.
  - intros c' p Hp. assert (p = it /\ c' = (old, b) \/ p ∈ L c') as [[-> ->]|Hin].
    { unfold upd in Hp. case_decide; subst; set_solver. }
    + exists (set_h_next (bucket old b (tab s)) i). rewrite lookup_insert_eq. split; [done|].
      rewrite cell_with_table, Hc. done.
    + assert (p <> it) by (intros ->; by destruct (Hni c')).
      destruct (rep_cell _ _ R c' p Hin) as (ip & Ep & Hcp). exists ip.
      rewrite lookup_insert_ne, cell_with_table by done. done.
  - intros c'. unfold upd. case_decide; [|apply R]. constructor; [apply Hni|apply R].
Qed.

Lemma assoc_insert_run s it i hv :
  heap s !! it = Some i -> assoc_insert it hv s = Ret 1 (inserted s it i (cell (tab s) hv)).
Proof.
  intros E. unfold assoc_insert, bind, gets, ret, store, deref, gets.
  destruct (cell (tab s) hv) as [old b]. rewrite E. done.
Qed.

Lemma assoc_insert_spec L s it i :
  rep L s -> heap s !! it = Some i -> it <> 0 -> (forall c, it ∉ L c) ->
  let c := cell (tab s) (hash cfg (key_of i)) in
  wp (assoc_insert it (hash cfg (key_of i)))
     (fun r s' => r = 1 /\ rep (upd c (it :: L c) L) s' /\ links_only s s' /\
        forall hv, cell (tab s') hv = cell (tab s) hv) s.
Proof.
  intros R E H0 Hni c. unfold wp. rewrite (assoc_insert_run s it i) by done. fold c.
  split; [done|]. split; [by apply inserted_rep|]. split; [|intros hv; apply cell_with_table].
  eapply links_only_trans; [by apply (links_only_store s it i (bucket c.1 c.2 (tab s)))|apply links_only_tab].
Qed.

(** *** Deleting *)
Lemma before_loop_spec n key pos v l s :
  deref pos s = Ret v s -> chain (heap s) v l -> (length l < n)%nat ->
  wp (before_loop n key pos)
     (fun pos' s' => s' = s /\ exists l1 l2, l = l1 ++ l2 /\
        (pos' = pos /\ l1 = [] \/ exists l0 x, l1 = l0 ++ [x] /\ pos' = Link x) /\
        deref pos' s = Ret (first_match (heap s) key l) s /\
        first_match (heap s) key l = default 0 (head l2)) s.
Proof.
  revert n pos v. induction l as [|x l IH]; intros [|n] pos v Hd Hc Hn; cbn [length] in Hn; try lia;
    cbn [before_loop chain] in *; apply wp_bind; unfold wp at 1; rewrite Hd.
  - subst v. apply wp_ret. split; [done|]. exists [], []. split; [done|]. split; [by left|]. done.
  - destruct Hc as (-> & Hx & i & E & Hc). rewrite (proj2 (Z.eqb_neq x 0)) by done.
    apply wp_bind. eapply wp_load; [done|]. cbn [first_match]. rewrite E.
    destruct (same_key key i).
    + apply wp_ret. split; [done|]. exists [], (x :: l). split; [done|]. split; [by left|]. done.
    + eapply wp_mono; [|apply (IH n (Link x) (h_next i)); [|done|lia]].
      * intros pos' s' (-> & l1 & l2 & -> & Hpos & H1 & H2). split; [done|].
        exists (x :: l1), l2. split; [done|]. split; [|done]. right.
        destruct Hpos as [[-> ->]|(l0 & y & -> & ->)]; [by exists [], x|by exists (x :: l0), y].
      * unfold deref, field_of, bind, load. by rewrite E.
Qed.

(** Taking the items of [c] to a list without [p], the links of the others untouched. *)
Lemma unlinked_rep L s c p h old b m :
  rep L s -> c = (old, b) -> (p ∈ L c) ->
  chain h (default 0 (m !! b)) (filter (fun x => x <> p) (L c)) ->
  (forall b', b' <> b -> m !! b' = table old (tab s) !! b') ->
  (forall x, x ∉ L c -> h !! x = heap s !! x) ->
  (forall x i, heap s !! x = Some i -> exists v, h !! x = Some (set_h_next v i)) ->
  rep (upd c (filter (fun x => x <> p) (L c)) L) (with_tab (with_table old m (tab s)) (with_heap h s)).
Proof.
  intros R -> Hp Hch Hm Hh Hl.
  destruct (with_table_params old m (tab s)) as (E1 & E2 & E3).
  constructor; cbn [tab heap with_tab with_heap].
  - rewrite E1. apply R.
  - rewrite E1, E2, E3. apply R.
  - intros old' b' He. rewrite E2 in He. rewrite bucket_with_table.
    pose proof (rep_chain _ _ R old' b' He) as Hch'.
    destruct (decide ((old', b') = (old, b))) as [[= -> ->]|Hne].
    + by rewrite bool_decide_eq_true_2, upd_same by done.
    + rewrite upd_other by done.
      assert (chain h (bucket old' b' (tab s)) (L (old', b'))) as Hg.
      { apply (chain_frame (heap s)); [done|]. intros x Hx. f_equal. apply Hh. intros Hx'.
        destruct (rep_cell _ _ R _ _ Hx) as (i1 & Ei1 & Hc1), (rep_cell _ _ R _ _ Hx') as (i2 & Ei2 & Hc2).
        assert (i1 = i2) as -> by congruence. destruct Hne. congruence. }
      case_bool_decide as Ho; [subst old'|done]. unfold bucket in Hg. by rewrite Hm by congruence.
  - intros c' x Hx. assert (x ∈ L c') as Hin.
    { unfold upd in Hx. case_decide; subst; [apply list_elem_of_filter in Hx; tauto|done]. }
    destruct (rep_cell _ _ R c' x Hin) as (i & Ei & Hci). destruct (Hl x i Ei) as [v Hv].
    exists (set_h_next v i). rewrite cell_with_table. done.
  - intros c'. unfold upd. case_decide; [apply NoDup_filter|]; apply R.
Qed.

Lemma with_table_same old t : with_table old (table old t) t = t.
Proof. by destruct old, t. Qed.

Lemma assoc_delete_spec L s key hv :
  rep L s -> let c := cell (tab s) hv in let p := first_match (heap s) key (L c) in
  p <> 0 ->
  wp (assoc_delete cfg key hv)
     (fun _ s' => rep (upd c (filter (fun x => x <> p) (L c)) L) s' /\ links_only s s') s.
Proof.
  intros R c p Hp0. pose proof (rep_bucket L s hv R) as H. fold c in H.
  unfold assoc_delete, hashitem_before. apply wp_bind, wp_bind.
  change (wp (gets _) ?Q s) with (Q c s). destruct c as [old b] eqn:Ec. destruct H as [Hc Hl].
  apply wp_bind. change (wp (gets _) ?Q s) with (Q (fuel s) s). cbn beta iota.
  eapply wp_mono; [|by apply (before_loop_spec _ key (Bucket old b) _ (L (old, b)) s eq_refl)].
  intros pos s' (-> & l1 & l2 & El & Hpos & Hd & Hhd). fold p in Hd, Hhd.
  apply wp_bind. unfold wp at 1. rewrite Hd. rewrite (proj2 (Z.eqb_neq p 0)) by done. cbn [negb].
  destruct l2 as [|p' l2]; [done|]. cbn in Hhd. symmetry in Hhd. subst p'.
  assert (p ∈ L (old, b)) as Hin by (rewrite El; set_solver).
  pose proof (rep_nodup _ _ R (old, b)) as Hn.
  destruct (rep_cell _ _ R _ _ Hin) as (ip & Ep & _).
  apply wp_bind. eapply wp_field_of; [done|]. apply wp_bind. eapply wp_store; [done|].
  destruct Hpos as [[-> ->]|(l0 & x & -> & ->)].
  - (* the first of its chain *)
    cbn [assign modify wp tab with_heap].
    rewrite El in Hc, Hn. cbn [app chain] in Hc, Hn. destruct Hc as (Eb & _ & ip' & Ep' & Hc).
    assert (ip' = ip) as -> by congruence.
    split; [|eapply links_only_trans; [by apply (links_only_store s p ip 0)|apply links_only_tab]].
    apply (unlinked_rep L s (old, b) p _ old b); [done|done|done| | | |].
    + rewrite lookup_insert_eq, El. cbn [default]. rewrite (filter_ne_middle p []) by done.
      apply chain_insert; [done|]. by apply NoDup_cons in Hn as [Hn _].
    + intros b' Hb. by rewrite lookup_insert_ne.
    + intros y Hy. rewrite lookup_insert_ne; [done|]. by intros ->.
    + intros y i Ei. destruct (decide (y = p)) as [->|]; [rewrite lookup_insert_eq; simplify_eq; by eexists|].
      rewrite lookup_insert_ne by done. exists (h_next i). rewrite Ei. by destruct i.
  - (* behind [x] *)
    rewrite <- app_assoc in El. cbn [app] in El.
    assert (x ∈ L (old, b)) as Hinx by (rewrite El; set_solver).
    destruct (rep_cell _ _ R _ _ Hinx) as (ix & Ex & _). rewrite El in Hc, Hn.
    assert (x <> p) as Hxp.
    { intros ->. apply NoDup_app in Hn as (_ & _ & Hn). apply NoDup_cons in Hn as [Hn _]. set_solver. }
    cbn [assign]. eapply wp_store; [cbn; by rewrite lookup_insert_ne|].
    cbn [heap with_heap].
    set (h := <[x := set_h_next (h_next ip) ix]> (<[p := set_h_next 0 ip]> (heap s))).
    replace (with_heap h (with_heap _ s)) with
      (with_tab (with_table old (table old (tab s)) (tab s)) (with_heap h s))
      by (rewrite with_table_same; by destruct s).
    split.
    + apply (unlinked_rep L s (old, b) p _ old b); [done|done|done| | | |].
      * rewrite El, (app_assoc l0 [x] (p :: l2) : l0 ++ x :: p :: l2 = _).
        rewrite filter_ne_middle by (by rewrite <- app_assoc). rewrite <- app_assoc.
        by apply chain_unlink.
      * done.
      * intros y Hy. unfold h. rewrite !lookup_insert_ne; [done|by intros ->..].
      * intros y i Ei. unfold h.
        destruct (decide (y = x)) as [->|]; [rewrite lookup_insert_eq; simplify_eq; by eexists|].
        rewrite lookup_insert_ne by done.
        destruct (decide (y = p)) as [->|]; [rewrite lookup_insert_eq; simplify_eq; by eexists|].
        rewrite lookup_insert_ne by done. exists (h_next i). rewrite Ei. by destruct i.
    + rewrite with_table_same. eapply links_only_trans; [by apply (links_only_store s p ip 0)|].
      replace (with_tab (tab s) (with_heap h s)) with (with_heap h (with_heap (<[p := set_h_next 0 ip]> (heap s)) s))
        by by destruct s.
      apply links_only_store. cbn. by rewrite lookup_insert_ne.
Qed.

(** *** Expanding *)
Lemma hashsize_pow n : 0 <= n < 32 -> hashsize n = 2 ^ n.
Proof.
  intros Hn. unfold hashsize. rewrite Z.shiftl_1_l. apply wrap_small. unfold in_width.
  split; [apply Z.pow_nonneg; lia|]. apply Z.pow_lt_mono_r; lia.
Qed.

Lemma land_hashmask hv n : 0 <= n < 32 -> Z.land hv (hashmask n) = hv mod 2 ^ n.
Proof.
  intros Hn. unfold hashmask. rewrite hashsize_pow by done. rewrite wrap_small.
  - by rewrite land_mask by lia.
  - unfold in_width. pose proof (Z.pow_pos_nonneg 2 n). pose proof (Z.pow_lt_mono_r 2 n 32). lia.
Qed.

(** The bucket of the primary table an item belongs to. *)
Definition item_bucket (s : mc) (p : Z) : Z :=
  default 0 ((fun i => Z.land (hash cfg (key_of i)) (hashmask (hashpower (tab s)))) <$> heap s !! p).

Lemma item_bucket_links s s' p :
  links_only s s' -> hashpower (tab s') = hashpower (tab s) -> item_bucket s' p = item_bucket s p.
Proof.
  intros (h & t & -> & E) Ht. unfold item_bucket. cbn in *. rewrite Ht.
  apply (f_equal (lookup p)) in E. rewrite !lookup_fmap in E.
  destruct (h !! p) as [i'|] eqn:E', (heap s !! p) as [i|] eqn:Ei; try done. cbn in *.
  apply (inj Some) in E. rewrite <- (key_of_set_h_next 0 i), <- E. done.
Qed.

Definition same_params (t t' : assoc) : Prop :=
  hashpower t' = hashpower t /\ expanding t' = expanding t /\ expand_bucket t' = expand_bucket t.

(** Each item goes to the front of its bucket: the items of a bucket end up in reverse. *)
Lemma move_loop_spec n it l P s :
  chain (heap s) it l -> NoDup l -> (length l < n)%nat ->
  (forall b, chain (heap s) (bucket false b (tab s)) (P b)) ->
  (forall b x, x ∈ l -> x ∉ P b) ->
  wp (move_loop cfg n it)
     (fun _ s' =>
        (forall b, chain (heap s') (bucket false b (tab s'))
                     (rev (filter (fun x => item_bucket s x = b) l) ++ P b)) /\
        links_only s s' /\ old_hashtable (tab s') = old_hashtable (tab s) /\
        same_params (tab s) (tab s') /\ (forall x, x ∉ l -> heap s' !! x = heap s !! x)) s.
Proof.
  revert n it P s. induction l as [|x l IH]; intros [|n] it P s Hc Hn Hl HP Hd; cbn [length] in Hl; try lia;
    cbn [move_loop chain] in *.
  - subst it. apply wp_ret. split_and!; [by intros b; rewrite filter_nil|apply links_only_refl|done|done|done].
  - destruct Hc as (-> & Hx & i & E & Hc). rewrite (proj2 (Z.eqb_neq x 0)) by done.
    apply NoDup_cons in Hn as [Hni Hn].
    apply wp_bind. eapply wp_load; [done|]. apply wp_bind.
    change (wp (gets _) ?Q s) with (Q (Z.land (hash cfg (key_of i)) (hashmask (hashpower (tab s)))) s).
    set (b0 := Z.land _ _). assert (item_bucket s x = b0) as Eb by (unfold item_bucket; by rewrite E).
    apply wp_bind. change (wp (deref _) ?Q s) with (Q (bucket false b0 (tab s)) s).
    apply wp_bind. eapply wp_store; [done|]. apply wp_bind. cbn [assign].
    change (wp (modify ?f) ?Q ?s') with (Q tt (f s')). cbn beta.
    set (s1 := with_tab _ _).
    assert (links_only s s1) as Hl1.
    { eapply links_only_trans; [by apply (links_only_store s x i (bucket false b0 (tab s)))|apply links_only_tab]. }
    eapply wp_mono; [|apply (IH n (h_next i) (fun b => if decide (b = b0) then x :: P b else P b) s1)].
    + intros _ s' (H1 & H2 & H3 & H4 & H5). split_and!.
      * intros b. specialize (H1 b).
        assert (forall y, item_bucket s1 y = item_bucket s y) as Eib by (intros y; by apply item_bucket_links).
        rewrite (list_filter_iff _ (fun y => item_bucket s y = b) l) in H1 by (intros y; by rewrite Eib).
        destruct (decide (b = b0)) as [->|Hb].
        -- rewrite filter_cons_True by done. cbn [rev]. by rewrite <- app_assoc.
        -- by rewrite filter_cons_False by congruence.
      * by eapply links_only_trans.
      * done.
      * destruct H4 as (? & ? & ?). done.
      * intros y Hy. rewrite H5 by set_solver. cbn. rewrite lookup_insert_ne; [done|]. set_solver.
    + cbn. by apply chain_insert.
    + done.
    + lia.
    + intros b. cbn [heap tab s1 with_tab with_heap]. rewrite (bucket_with_table false false).
      rewrite bool_decide_eq_true_2 by done. case_decide as Hb.
      * subst b. rewrite lookup_insert_eq. apply chain_push; [apply HP|apply Hd; set_solver|done].
      * rewrite lookup_insert_ne by done. apply chain_insert; [apply HP|apply Hd; set_solver].
    + intros b y Hy. case_decide; [|apply Hd; set_solver]. intros [->|Hy']%elem_of_cons; [done|].
      by apply (Hd b y); [set_solver|].
Qed.

(** What the buckets hold once the old bucket [eb] has been moved. *)
Definition moved (s : mc) (eb : Z) (L : bool * Z -> list Z) (c : bool * Z) : list Z :=
  if c.1 then (if decide (c.2 = eb) then [] else L c)
  else rev (filter (fun x => item_bucket s x = c.2) (L (true, eb))) ++ L c.

(** The table when [eb] is the next bucket to move, or when there is none left. *)
Definition at_bucket (t : assoc) (eb : Z) (t' : assoc) : Prop :=
  hashpower t' = hashpower t /\ expand_bucket t' = eb /\
  expanding t' = negb (eb =? 2 ^ (hashpower t - 1)).

Lemma cell_after t t' hv :
  0 <= hashpower t < 32 -> 1 <= hashpower t -> expanding t = true ->
  at_bucket t (expand_bucket t + 1) t' -> 0 <= expand_bucket t < 2 ^ (hashpower t - 1) ->
  cell t' hv = if decide (cell t hv = (true, expand_bucket t))
               then (false, Z.land hv (hashmask (hashpower t))) else cell t hv.
Proof.
  intros Hp Hp1 He (E1 & E2 & E3) Heb. unfold cell. rewrite E1, E2, E3, He.
  rewrite (land_hashmask hv (hashpower t - 1)) by lia.
  pose proof (Z.mod_pos_bound hv (2 ^ (hashpower t - 1)) ltac:(lia)) as Hb.
  set (o := hv mod 2 ^ (hashpower t - 1)) in *. set (eb := expand_bucket t) in *. cbn [andb].
  destruct (Z.leb_spec eb o) as [Hle|Hlt].
  - destruct (decide (o = eb)) as [->|Hne].
    + rewrite decide_True by done. rewrite (proj2 (Z.leb_gt (eb + 1) eb)), andb_false_r by lia. done.
    + rewrite decide_False by congruence.
      rewrite (proj2 (Z.leb_le (eb + 1) o)), (proj2 (Z.eqb_neq _ _)) by lia. done.
  - rewrite decide_False by congruence. rewrite (proj2 (Z.leb_gt (eb + 1) o)), andb_false_r by lia. done.
Qed.

Lemma moved_rep L s s' :
  rep L s -> expanding (tab s) = true ->
  at_bucket (tab s) (expand_bucket (tab s) + 1) (tab s') -> links_only s s' ->
  (forall b, chain (heap s') (bucket false b (tab s')) (moved s (expand_bucket (tab s)) L (false, b))) ->
  (forall b, expanding (tab s') = true -> bucket true b (tab s') =
     if decide (b = expand_bucket (tab s)) then 0 else bucket true b (tab s)) ->
  (forall x, x ∉ L (true, expand_bucket (tab s)) -> heap s' !! x = heap s !! x) ->
  rep (moved s (expand_bucket (tab s)) L) s'.
Proof.
  intros R He Hat Hlk Hprim Hold Hheap. set (eb := expand_bucket (tab s)) in *.
  destruct (rep_expand _ _ R He) as [Hp1 Heb]. fold eb in Heb.
  pose proof (rep_power _ _ R) as Hp. pose proof Hat as (E1 & E2 & E3).
  pose proof (fun hv => cell_after (tab s) (tab s') hv Hp Hp1 He Hat Heb) as Hcell. fold eb in Hcell.
  assert (forall p, p ∈ L (true, eb) -> forall c, c <> (true, eb) -> p ∉ L c) as Hdisj.
  { intros p Hp' c Hne Hin. destruct (rep_cell _ _ R _ _ Hp') as (i1 & Ei1 & Hc1).
    destruct (rep_cell _ _ R _ _ Hin) as (i2 & Ei2 & Hc2). congruence. }
  constructor.
  - by rewrite E1.
  - intros He'. rewrite E1, E2. split; [done|]. rewrite E3 in He'.
    destruct (Z.eqb_spec (eb + 1) (2 ^ (hashpower (tab s) - 1))); [done|lia].
  - intros [] b He'; [|apply Hprim]. specialize (He' eq_refl). rewrite Hold by done.
    unfold moved. cbn [fst snd]. case_decide as Hb; [done|].
    apply (chain_frame (heap s)); [by apply (rep_chain _ _ R)|].
    intros x Hx. f_equal. apply Hheap. intros Hx'. apply (Hdisj x Hx' (true, b)); [congruence|done].
  - intros [old b] p Hin. unfold moved in Hin. cbn [fst snd] in Hin.
    assert (exists c, p ∈ L c /\ (c <> (true, eb) /\ c = (old, b) \/
              c = (true, eb) /\ old = false /\ item_bucket s p = b)) as (c & Hpc & Hcase).
    { destruct old; [case_decide; [by apply not_elem_of_nil in Hin|]; exists (true, b); split; [done|left; split; congruence]|].
      apply elem_of_app in Hin as [Hin|Hin]; [|exists (false, b); split; [done|by left]].
      rewrite list_elem_of_In, <- in_rev, <- list_elem_of_In, list_elem_of_filter in Hin.
      exists (true, eb). split; [tauto|]. right. tauto. }
    destruct (rep_cell _ _ R c p Hpc) as (i & Ei & Hci).
    destruct (links_only_lookup _ _ _ _ Hlk Ei) as [v Hv]. eexists. split; [exact Hv|].
    rewrite key_of_set_h_next, Hcell, Hci. destruct Hcase as [[Hne ->]|(-> & -> & <-)].
    + by rewrite decide_False by done.
    + rewrite decide_True by done. unfold item_bucket. by rewrite Ei.
  - intros [old b]. unfold moved. cbn [fst snd]. destruct old; [case_decide; [constructor|apply R]|].
    apply NoDup_app. split_and!; [apply NoDup_ListNoDup, NoDup_rev, NoDup_ListNoDup, NoDup_filter, R| |apply R].
    intros x Hx Hx'. rewrite list_elem_of_In, <- in_rev, <- list_elem_of_In, list_elem_of_filter in Hx.
    apply (Hdisj x (proj2 Hx) (false, b)); [congruence|done].
Qed.

Lemma move_bucket_spec L s :
  rep L s -> expanding (tab s) = true ->
  wp (move_bucket cfg)
     (fun _ s' => rep (moved s (expand_bucket (tab s)) L) s' /\ links_only s s' /\
        at_bucket (tab s) (expand_bucket (tab s) + 1) (tab s')) s.
Proof.
  intros R He. pose proof (rep_power _ _ R) as Hp. destruct (rep_expand _ _ R He) as [Hp1 Heb].
  unfold move_bucket. apply wp_bind. change (wp (gets _) ?Q s) with (Q (expand_bucket (tab s)) s). cbn beta.
  set (eb := expand_bucket (tab s)) in *.
  apply wp_bind. change (wp (deref _) ?Q s) with (Q (bucket true eb (tab s)) s).
  apply wp_bind. change (wp (gets _) ?Q s) with (Q (fuel s) s). apply wp_bind.
  pose proof (rep_chain _ _ R true eb (fun _ => He)) as Hc.
  pose proof (rep_nodup _ _ R (true, eb)) as Hn.
  eapply wp_mono; [|apply (move_loop_spec _ _ (L (true, eb)) (fun b => L (false, b)) s)];
    [|done|done|unfold fuel; pose proof (chain_length _ _ _ Hc Hn); lia| |].
  - intros _ s1 (H1 & H2 & H3 & (P1 & P2 & P3) & H5). apply wp_bind. cbn [assign].
    change (wp (modify ?f) ?Q ?s') with (Q tt (f s')). cbn beta. set (s2 := with_tab _ s1).
    change (wp (modify ?f) ?Q ?s') with (Q tt (f s')). cbn beta zeta.
    assert (u32 (eb + 1) = eb + 1) as ->.
    { apply wrap_small. unfold in_width. pose proof (Z.pow_lt_mono_r 2 (hashpower (tab s) - 1) 32). lia. }
    cbn [tab s2 with_tab with_table hashpower]. rewrite P1, hashsize_pow by lia.
    set (s3 := if eb + 1 =? _ then _ else _).
    assert (at_bucket (tab s) (eb + 1) (tab s3)) as Hat.
    { unfold at_bucket, s3. destruct (eb + 1 =? 2 ^ (hashpower (tab s) - 1)); cbn; split_and!; congruence. }
    assert (links_only s s3) as Hlk.
    { eapply links_only_trans; [exact H2|]. eapply links_only_trans; [apply links_only_tab|].
      unfold s3. destruct (eb + 1 =? _); apply links_only_tab. }
    split; [|done]. apply moved_rep; try done.
    + intros b. specialize (H1 b). unfold s3. destruct (eb + 1 =? _); exact H1.
    + intros b He'. unfold s3 in *. destruct (eb + 1 =? _); [done|]. unfold bucket. cbn.
      case_decide as Hb; [subst b; by rewrite lookup_insert_eq|]. rewrite lookup_insert_ne by done. by rewrite H3.
    + intros x Hx. unfold s3. destruct (eb + 1 =? _); by apply H5.
  - intros b. by apply (rep_chain _ _ R).
  - intros b x Hx Hx'. destruct (rep_cell _ _ R _ _ Hx) as (i1 & Ei1 & Hc1).
    destruct (rep_cell _ _ R _ _ Hx') as (i2 & Ei2 & Hc2). congruence.
Qed.
End Table.
