(* ===== verification/McTable.v ===== *)
(** * memcached: the hash table is a finite map, also while it grows

    The contract of assoc.c for the rest of the server: from the key of an item to the
    item, for any order of look-ups, insertions and deletions by the worker threads and of
    the steps of the maintenance thread that expands the table. *)

From stdpp Require Import gmap.
From S2P Require Import Prelude Wire McHash McItem McAssoc.

Section Table_map.
Context (cfg : settings).

(** The key is inside the chunk. *)
Definition key_ok (i : item) : Prop := Z.of_nat (length (key_of i)) = nkey i.

Definition keys (s : mc) : gmap Z (list Z) := key_of <$> heap s.

(** The table [L] holds the map [m] from keys to items. *)
Definition holds (L : bool * Z -> list Z) (m : gmap (list Z) Z) (s : mc) : Prop :=
  forall k p, m !! k = Some p <-> (exists c, p ∈ L c) /\ keys s !! p = Some k.

Definition keys_ok (s : mc) : Prop := forall p i, heap s !! p = Some i -> key_ok i.

Lemma same_key_spec key i : key_ok i -> same_key key i = true <-> key_of i = key.
Proof.
  unfold key_ok, same_key, key_of. intros H. rewrite andb_true_iff, bool_decide_eq_true, Z.eqb_eq.
  split; [intros [<- ?]; done|]. intros <-. by rewrite H.
Qed.

Lemma keys_lookup s p k : keys s !! p = Some k <-> exists i, heap s !! p = Some i /\ key_of i = k.
Proof. unfold keys. rewrite lookup_fmap, fmap_Some. naive_solver. Qed.

Lemma chain_nonzero h v l : chain h v l -> 0 ∉ l.
Proof.
  revert v. induction l as [|x l IH]; intros v; cbn [chain]; [set_solver|].
  intros (_ & Hx & i & _ & Hc). apply IH in Hc. set_solver.
Qed.

(** The first match is an item of the list with the key; it is 0 when there is none. *)
Lemma first_match_spec s key l :
  keys_ok s -> 0 ∉ l -> (forall p, p ∈ l -> is_Some (heap s !! p)) ->
  (first_match (heap s) key l = 0 /\ forall p, p ∈ l -> keys s !! p <> Some key) \/
  (first_match (heap s) key l ∈ l /\ keys s !! first_match (heap s) key l = Some key).
Proof.
  intros Hk. induction l as [|x l IH]; intros H0 Hd; cbn [first_match].
  { left. split; [done|]. intros p ?%not_elem_of_nil. done. }
  destruct (Hd x ltac:(set_solver)) as [i Ei]. rewrite Ei.
  destruct (same_key key i) eqn:E.
  - right. split; [set_solver|]. apply keys_lookup. exists i. split; [done|].
    apply same_key_spec; [by eapply Hk|done].
  - destruct IH as [[-> Hn]|[Hin Hkey]]; [set_solver|set_solver| |].
    + left. split; [done|]. intros p [->|Hp]%elem_of_cons; [|by apply Hn].
      rewrite keys_lookup. intros (i' & Ei' & Hki). assert (i' = i) as -> by congruence.
      apply same_key_spec in Hki as Hs; [congruence|by eapply Hk].
    + right. split; [set_solver|done].
Qed.

Lemma cell_of_key L s c p k :
  rep cfg L s -> p ∈ L c -> keys s !! p = Some k -> c = cell (tab s) (hash cfg k).
Proof.
  intros R Hp Hk. destruct (rep_cell _ _ _ R c p Hp) as (i & Ei & Hc).
  apply keys_lookup in Hk as (i' & Ei' & <-). by simplify_eq.
Qed.

Lemma rep_list L s c : rep cfg L s -> 0 ∉ L c /\ forall p, p ∈ L c -> is_Some (heap s !! p).
Proof.
  intros R. split.
  - intros H0. destruct (rep_cell _ _ _ R c 0 H0) as (i & Ei & Hc).
    pose proof (rep_bucket cfg L s (hash cfg (key_of i)) R) as H. rewrite Hc in H. destruct c as [old b].
    by destruct H as [H%chain_nonzero _].
  - intros p Hp. destruct (rep_cell _ _ _ R c p Hp) as (i & Ei & _). by exists i.
Qed.

(** In a table that holds [m] the first match is the item of the key. *)
Lemma first_match_map L m s k :
  rep cfg L s -> holds L m s -> keys_ok s ->
  first_match (heap s) k (L (cell (tab s) (hash cfg k))) = default 0 (m !! k).
Proof.
  intros R H Hok. destruct (rep_list L s (cell (tab s) (hash cfg k)) R) as [H0 Hd].
  destruct (first_match_spec s k (L (cell (tab s) (hash cfg k))) Hok H0 Hd) as [[-> Hn]|[Hin Hkey]].
  - destruct (m !! k) as [p|] eqn:E; [|done]. apply H in E as [[c Hc] Hk].
    pose proof (cell_of_key _ _ _ _ _ R Hc Hk) as ->. by destruct (Hn p Hc).
  - assert (m !! k = Some (first_match (heap s) k (L (cell (tab s) (hash cfg k))))) as ->; [|done].
    apply H. split; [by eexists|done].
Qed.

Lemma keys_links s s' : links_only s s' -> keys s' = keys s.
Proof.
  intros (h & t & -> & E). unfold keys. cbn. apply map_eq. intros p.
  apply (f_equal (lookup p)) in E. rewrite !lookup_fmap in *.
  destruct (h !! p), (heap s !! p); cbn in *; try done. apply (inj Some) in E.
  rewrite <- (key_of_set_h_next 0 i), E. done.
Qed.

Lemma keys_ok_links s s' : links_only s s' -> keys_ok s -> keys_ok s'.
Proof.
  intros (h & t & -> & E) Hok p i Ei. cbn in *. apply (f_equal (lookup p)) in E.
  rewrite !lookup_fmap, Ei in E. destruct (heap s !! p) as [i'|] eqn:Ei'; [|done]. cbn in E.
  apply (inj Some) in E. pose proof (Hok p i' Ei') as Ho. unfold key_ok in *.
  rewrite <- (key_of_set_h_next 0 i), E, key_of_set_h_next, Ho.
  change (nkey i) with (nkey (set_h_next 0 i)). by rewrite E.
Qed.

(** ** Operations of the workers and of the maintenance thread *)
Inductive table_op :=
| Find (k : list Z)
| Insert (p : Z)
| Delete (k : list Z)
| Expand (calloc_ok : bool)          (** when no expansion is running *)
| Maintain (trylocks : list bool).   (** rounds of the maintenance thread *)

Definition table_step (op : table_op) : M mc Z :=
  match op with
  | Find k => assoc_find k (hash cfg k)
  | Insert p => let! i := load p in assoc_insert p (hash cfg (key_of i))
  | Delete k => assoc_delete cfg k (hash cfg k) ;; ret 0
  | Expand ok =>
      let! go := gets (fun s => negb (expanding (tab s)) && (hashpower (tab s) <? HASHPOWER_MAX - 1)) in
      when go (assoc_expand ok) ;; ret 0
  | Maintain ls => maintenance cfg ls ;; ret 0
  end.

Fixpoint table_run (ops : list table_op) : M mc (list Z) :=
  match ops with
  | [] => ret []
  | op :: ops' => let! r := table_step op in let! rs := table_run ops' in ret (r :: rs)
  end.

(** The same on a finite map; [None] where the callers of assoc.c must not go: an item
    whose key is in the table already, or the deletion of a key that is not. *)
Definition spec_step (ks : gmap Z (list Z)) (op : table_op) (m : gmap (list Z) Z) : option (Z * gmap (list Z) Z) :=
  match op with
  | Find k => Some (default 0 (m !! k), m)
  | Insert p =>
      match ks !! p with
      | Some k => if (p =? 0) || bool_decide (is_Some (m !! k)) then None else Some (1, <[k := p]> m)
      | None => None
      end
  | Delete k => if bool_decide (is_Some (m !! k)) then Some (0, delete k m) else None
  | Expand _ => Some (0, m)
  | Maintain _ => Some (0, m)
  end.

Fixpoint spec_run (ks : gmap Z (list Z)) (ops : list table_op) (m : gmap (list Z) Z)
    : option (list Z * gmap (list Z) Z) :=
  match ops with
  | [] => Some ([], m)
  | op :: ops' =>
      match spec_step ks op m with
      | Some (r, m') =>
          match spec_run ks ops' m' with
          | Some (rs, m'') => Some (r :: rs, m'')
          | None => None
          end
      | None => None
      end
  end.

(** The table stands for [m]. *)
Definition stands_for (s : mc) (m : gmap (list Z) Z) : Prop :=
  (exists L, rep cfg L s /\ holds L m s) /\ keys_ok s.

Lemma holds_links L m s s' : links_only s s' -> holds L m s -> holds L m s'.
Proof. intros Hl H k p. rewrite (keys_links _ _ Hl). apply H. Qed.

(** Another table with the same items holds the same map. *)
Lemma holds_members L L' m s :
  (forall p, (exists c, p ∈ L' c) <-> (exists c, p ∈ L c)) -> holds L m s -> holds L' m s.
Proof. intros Hm H k p. rewrite Hm. apply H. Qed.

Lemma insert_holds L m s p k c :
  holds L m s -> keys s !! p = Some k -> m !! k = None -> holds (upd c (p :: L c) L) (<[k := p]> m) s.
Proof.
  intros H Hk Hm k' q. split.
  - intros [[<- <-]|[Hne Hq]]%lookup_insert_Some.
    + split; [exists c; rewrite upd_same; set_solver|done].
    + apply H in Hq as [[c' Hc'] Hq]. split; [|done]. destruct (decide (c' = c)) as [->|Hcc].
      * exists c. rewrite upd_same. set_solver.
      * exists c'. by rewrite upd_other.
  - intros [[c' Hc'] Hq]. assert (q = p \/ q ∈ L c') as [->|Hin].
    { unfold upd in Hc'. case_decide; subst; set_solver. }
    + simplify_eq. apply lookup_insert_eq.
    + assert (m !! k' = Some q) as Hmq by (apply H; split; [by eexists|done]).
      rewrite lookup_insert_ne; [done|]. intros ->. congruence.
Qed.

Lemma delete_holds L m s p k c :
  holds L m s -> m !! k = Some p -> p ∈ L c ->
  (forall c' q, q ∈ L c' -> keys s !! q = Some k -> c' = c) ->
  holds (upd c (filter (fun x => x <> p) (L c)) L) (delete k m) s.
Proof.
  intros H Hm Hp Hcell k' q. rewrite lookup_delete_Some. split.
  - intros [Hne Hq]. pose proof Hq as [[c' Hc'] Hk']%H. split; [|done].
    destruct (decide (c' = c)) as [->|Hcc]; [|exists c'; by rewrite upd_other].
    exists c. rewrite upd_same. apply list_elem_of_filter. split; [|done]. intros ->.
    apply H in Hm as [_ Hm]. congruence.
  - intros [[c' Hc'] Hk']. assert (q ∈ L c' /\ (c' = c -> q <> p)) as [Hin Hqp].
    { unfold upd in Hc'. case_decide; subst; [apply list_elem_of_filter in Hc'; tauto|done]. }
    assert (m !! k' = Some q) as Hq by (apply H; split; [by eexists|done]). split; [|done].
    intros <-. assert (q = p) as -> by congruence. by destruct (Hqp (Hcell c' p Hin Hk')).
Qed.

(** ** Each operation keeps the map *)
Lemma expand_spec m s :
  stands_for s m -> expanding (tab s) = false -> hashpower (tab s) < 31 ->
  forall ok, wp (assoc_expand ok) (fun _ s' => stands_for s' m /\ keys s' = keys s) s.
Proof.
  intros [(L & R & H) Hok] He Hhp ok. unfold assoc_expand.
  apply wp_modify. destruct ok.
  - split; [|done]. split; [|done].
    exists (fun c : bool * Z => if c.1 then L (false, c.2) else []). split.
    + pose proof (rep_power _ _ _ R) as Hp. constructor; cbn.
      * lia.
      * intros _. split; [lia|]. split; [lia|]. apply Z.pow_pos_nonneg; lia.
      * intros [] b _; cbn; [|done]. by apply (rep_chain _ _ _ R false b).
      * intros [[] b] p Hin; cbn in Hin; [|by apply not_elem_of_nil in Hin].
        destruct (rep_cell _ _ _ R _ _ Hin) as (i & Ei & Hc). exists i. split; [done|].
        unfold cell in *. cbn. rewrite He in Hc. cbn in Hc. injection Hc as Hc.
        replace (hashpower (tab s) + 1 - 1) with (hashpower (tab s)) by lia.
        rewrite Hc, (proj2 (Z.leb_le 0 b)); [done|]. rewrite <- Hc, land_hashmask by lia.
        apply Z.mod_pos_bound. apply Z.pow_pos_nonneg; lia.
      * intros [[] b]; cbn; [apply R|constructor].
    + apply (holds_members L); [|done]. intros p. split.
      * intros [[[] b] Hp]; cbn in Hp; [by eexists|by apply not_elem_of_nil in Hp].
      * intros [[[] b] Hp]; [|by exists (true, b)].
        destruct (rep_cell _ _ _ R _ _ Hp) as (i & _ & Hc). apply cell_old in Hc. congruence.
  - split; [|done]. split; [|done]. exists L. split; [|done].
    destruct R as [R1 R2 R3 R4 R5]. constructor; cbn; try done.
    intros [] b Ho; [by rewrite He in Ho; specialize (Ho eq_refl)|]. by apply (R3 false b).
Qed.

Lemma moved_members L s eb p :
  (exists c, p ∈ moved cfg s eb L c) <-> (exists c, p ∈ L c).
Proof.
  unfold moved. split.
  - intros [[old b] Hp]. cbn in Hp. destruct old; [case_decide; [by apply not_elem_of_nil in Hp|by eexists]|].
    apply elem_of_app in Hp as [Hp|Hp]; [|by eexists].
    rewrite list_elem_of_In, <- in_rev, <- list_elem_of_In, list_elem_of_filter in Hp. exists (true, eb). tauto.
  - intros [[old b] Hp]. destruct (decide ((old, b) = (true, eb))) as [[= -> ->]|Hne].
    + exists (false, item_bucket cfg s p). cbn. apply elem_of_app. left.
      rewrite list_elem_of_In, <- in_rev, <- list_elem_of_In, list_elem_of_filter. done.
    + exists (old, b). cbn. destruct old; [rewrite decide_False by congruence; done|]. set_solver.
Qed.

(** A round moves a bucket if an expansion is running and the lock was free. *)
Lemma round_spec m s l :
  stands_for s m ->
  wp (maintenance_round cfg l) (fun _ s' => stands_for s' m /\ keys s' = keys s /\
    (if expanding (tab s) && l then at_bucket (tab s) (expand_bucket (tab s) + 1) (tab s')
     else tab s' = tab s)) s.
Proof.
  intros [(L & R & H) Hok]. unfold maintenance_round. apply wp_bind.
  apply wp_gets. destruct (expanding (tab s) && l) eqn:E; [|apply wp_ret; split_and!; try done; split; [by exists L|done]].
  apply andb_prop in E as [E _]. eapply wp_mono; [|by apply move_bucket_spec].
  intros _ s' (R' & Hl & Hat). split_and!; [|by apply keys_links|done].
  split; [|by eapply keys_ok_links]. eexists. split; [done|].
  apply (holds_members L); [intros p; apply moved_members|by eapply holds_links].
Qed.

(** Number of locks the maintenance thread got. *)
Definition taken (ls : list bool) : Z := Z.of_nat (length (filter (fun l => l = true) ls)).

Lemma maintenance_spec m s ls :
  stands_for s m ->
  wp (maintenance cfg ls) (fun _ s' => stands_for s' m /\ keys s' = keys s /\
    (expanding (tab s) = true ->
     2 ^ (hashpower (tab s) - 1) - expand_bucket (tab s) <= taken ls -> expanding (tab s') = false) /\
    (expanding (tab s) = false -> expanding (tab s') = false)) s.
Proof.
  revert s. induction ls as [|l ls IH]; intros s Hs; cbn [maintenance].
  { apply wp_ret. split_and!; try done. intros He Ht. destruct Hs as [(L & R & _) _].
    destruct (rep_expand _ _ _ R He). change (taken []) with 0 in Ht. lia. }
  apply wp_bind. eapply wp_mono; [|by apply round_spec]. intros _ s1 (H1 & K1 & T1).
  eapply wp_mono; [|by apply IH]. intros _ s2 (H2 & K2 & E2 & F2).
  split_and!; [done|congruence| |].
  - intros He Ht. rewrite He in T1. unfold taken in *. destruct l; cbn [andb] in T1.
    + rewrite filter_cons_True in Ht by done. cbn [length] in Ht. destruct T1 as (A1 & A2 & A3).
      rewrite A1, A2 in E2.
      destruct (Z.eqb_spec (expand_bucket (tab s) + 1) (2 ^ (hashpower (tab s) - 1))); [by apply F2|].
      apply E2; [done|lia].
    + rewrite filter_cons_False in Ht by done. rewrite T1 in E2. by apply E2.
  - intros He. rewrite He in T1. cbn [andb] in T1. apply F2. by rewrite T1.
Qed.

Lemma table_step_spec m s op r m' :
  stands_for s m -> spec_step (keys s) op m = Some (r, m') ->
  wp (table_step op) (fun r' s' => r' = r /\ stands_for s' m' /\ keys s' = keys s) s.
Proof.
  intros Hs Hsp. pose proof Hs as [(L & R & H) Hok].
  destruct op as [k|p|k|ok|ls]; cbn [table_step spec_step] in *.
  - injection Hsp as <- <-. eapply wp_mono; [|by apply (assoc_find_spec cfg L)].
    intros r' s' [-> ->]. split; [by apply first_match_map|done].
  - destruct (keys s !! p) as [k|] eqn:Ek; [|done]. case_match eqn:Eg; [done|]. injection Hsp as <- <-.
    apply orb_false_iff in Eg as [Ep Em]. apply bool_decide_eq_false in Em.
    assert (m !! k = None) as Hm by (destruct (m !! k); [by destruct Em|done]).
    pose proof Ek as (i & Ei & <-)%keys_lookup. apply wp_bind. eapply wp_load; [done|].
    eapply wp_mono; [|apply (assoc_insert_spec cfg L s p i R Ei); [lia|]].
    + intros r' s' (-> & R' & Hl & _). split; [done|]. split; [|by apply keys_links].
      split; [|by eapply keys_ok_links]. eexists. split; [done|]. eapply holds_links; [done|].
      by apply insert_holds.
    + intros c Hc. assert (m !! key_of i = Some p) by (apply H; split; [by eexists|done]). congruence.
  - destruct (m !! k) as [p|] eqn:Em; [|done]. injection Hsp as <- <-.
    pose proof (first_match_map _ _ _ k R H Hok) as Hf. rewrite Em in Hf. cbn in Hf.
    pose proof Em as [[c Hc] Hk]%H. pose proof (cell_of_key _ _ _ _ _ R Hc Hk) as Ec.
    destruct (rep_list L s c R) as [H0 _].
    apply wp_bind. eapply wp_mono; [|apply (assoc_delete_spec cfg L s k (hash cfg k) R)].
    + intros _ s' [R' Hl]. apply wp_ret. split; [done|]. split; [|by apply keys_links].
      split; [|by eapply keys_ok_links]. eexists. split; [done|]. eapply holds_links; [done|].
      rewrite Hf. apply delete_holds; [done|done|by rewrite <- Ec|].
      intros c' q Hq Hkq. by apply (cell_of_key _ _ _ _ _ R Hq).
    + rewrite Hf. intros ->. done.
  - injection Hsp as <- <-. apply wp_bind, wp_gets. apply wp_bind.
    destruct (expanding (tab s)) eqn:He; cbn [negb andb when]; [by apply wp_ret, wp_ret|].
    destruct (Z.ltb_spec (hashpower (tab s)) (HASHPOWER_MAX - 1)) as [Hp|]; cbn [when]; [|by apply wp_ret, wp_ret].
    change (HASHPOWER_MAX - 1) with 31 in Hp.
    eapply wp_mono; [|by apply (expand_spec m)]. intros _ s' [H' K']. by apply wp_ret.
  - injection Hsp as <- <-. apply wp_bind. eapply wp_mono; [|by apply (maintenance_spec m)].
    intros _ s' (H' & K' & _). by apply wp_ret.
Qed.

Lemma table_run_spec m s ops rs m' :
  stands_for s m -> spec_run (keys s) ops m = Some (rs, m') ->
  wp (table_run ops) (fun rs' s' => rs' = rs /\ stands_for s' m') s.
Proof.
  revert m s rs. induction ops as [|op ops IH]; intros m s rs Hs Hsp; cbn [table_run spec_run] in *.
  { injection Hsp as <- <-. by apply wp_ret. }
  destruct (spec_step (keys s) op m) as [[r m1]|] eqn:E1; [|done].
  destruct (spec_run (keys s) ops m1) as [[rs1 m2]|] eqn:E2; [|done]. injection Hsp as <- <-.
  apply wp_bind. eapply wp_mono; [|by apply (table_step_spec m s op)]. intros r' s1 (-> & H1 & K1).
  apply wp_bind. eapply wp_mono; [|apply (IH m1 s1 rs1 H1); by rewrite K1].
  intros rs' s2 [-> H2]. by apply wp_ret.
Qed.
End Table_map.


(** *** Witnesses: a table of two buckets, and two items *)
Definition key_item (key : list Z) : item :=
  set_data (key ++ replicate 40 0) (set_sizes (Z.of_nat (length key)) 8 (zero_item 96)).

Definition two_items : mc :=
  {| heap := <[1000 := key_item [1; 2]]> (<[2000 := key_item [3; 4]]> ∅);
     tab := {| hashpower := 1; primary_hashtable := ∅; old_hashtable := ∅; expanding := false; expand_bucket := 0 |};
     slb := {| slabclass := ∅; mem_limit := 0; mem_malloced := 0; mem_limit_reached := false;
               power_largest := 0; mem_base := 0; mem_current := 0; mem_avail := 0; mallocs := 0 |};
     lru := {| heads := ∅; tails := ∅; sizes := ∅; sizes_bytes := ∅ |};
     rebal := no_rebal; bumps := []; trylocks := 0; cas_id := 0; current_time := 2; curr_items := 0; curr_bytes := 0 |}.

(** An empty table stands for the empty map. *)
Lemma empty_stands_for cfg s :
  0 <= hashpower (tab s) < 32 -> primary_hashtable (tab s) = ∅ -> expanding (tab s) = false ->
  keys_ok s -> stands_for cfg s ∅.
Proof.
  intros Hp Ht He Hok. split; [|done]. exists (fun _ => []). split.
  - constructor; [done|by rewrite He| | |].
    + intros [] b Ho; [by rewrite He in Ho; specialize (Ho eq_refl)|]. unfold bucket, table. by rewrite Ht.
    + intros c p ?%not_elem_of_nil. done.
    + intros c. constructor.
  - intros k p. rewrite lookup_empty. split; [done|]. intros [[c ?%not_elem_of_nil] _]. done.
Qed.

Lemma two_items_ok : keys_ok two_items.
Proof.
  intros p i. cbn [heap two_items]. rewrite !lookup_insert_Some, lookup_empty.
  intros [[_ <-]|[_ [[_ <-]|[_ ?]]]]; [reflexivity|reflexivity|done].
Qed.

Definition sample_ops : list table_op :=
  [Insert 1000; Find [1; 2]; Expand true; Insert 2000; Maintain [true; false]; Find [1; 2]; Find [3; 4];
   Maintain [true]; Delete [1; 2]; Find [1; 2]; Find [3; 4]].


(** An expansion ends: once the maintenance thread has got the lock for each bucket of the
    old table that was left, no expansion is running, and the table stands for the same
    map. *)
Theorem expansion_ends (cfg : settings) (s : mc) (m : gmap (list Z) Z) (ls : list bool)
    (Hs : stands_for cfg s m) (He : expanding (tab s) = true)
    (Hls : 2 ^ (hashpower (tab s) - 1) - expand_bucket (tab s) <= taken ls) :
  wp (maintenance cfg ls) (fun _ s' => expanding (tab s') = false /\ stands_for cfg s' m) s.
Proof.
  eapply wp_mono; [|by apply (maintenance_spec cfg m)]. intros _ s' (H1 & _ & H2 & _). auto.
Qed.

Definition expanding_table : mc :=
  with_tab {| hashpower := 2; primary_hashtable := ∅; old_hashtable := ∅; expanding := true; expand_bucket := 0 |}
    two_items.

Lemma expanding_stands_for : stands_for settings_init expanding_table ∅.
Proof.
  split; [|exact two_items_ok]. exists (fun _ => []). split.
  - constructor; cbn; [lia|lia|by intros []| |].
    + intros c p ?%not_elem_of_nil. done.
    + intros c. constructor.
  - intros k p. rewrite lookup_empty. split; [done|]. intros [[c ?%not_elem_of_nil] _]. done.
Qed.

Lemma expansion_ends_witness :
  wp (maintenance settings_init [true; false; true])
     (fun _ s' => expanding (tab s') = false /\ stands_for settings_init s' ∅) expanding_table.
Proof.
  apply (expansion_ends settings_init expanding_table ∅ [true; false; true]);
    [exact expanding_stands_for|reflexivity|vm_compute; congruence].
Defined.
