(* ===== verification/McSlabs.v ===== *)
(** * memcached: the slab allocator

    src/sw/apps/memcached/memcached/slabs.c, without the page mover and the statistics.
    Memory comes in pages, a page is cut into the chunks of one slab class, and the free
    chunks of a class are a doubly linked list from [slots].  [malloc] and [realloc] are
    variables, functions of the state (which counts the calls); the products of a size and
    the [double] growth factor are a variable as well.

    Cutting a page replaces whatever items the page held by zeroed chunks of the class, as
    the [memset] and the new chunk boundaries do. *)

From stdpp Require Import gmap.
From S2P Require Import Prelude Wire McHash McItem.

Definition empty_class : slabclass_t :=
  {| sc_size := 0; perslab := 0; slots := 0; sl_curr := 0; slab_list := []; list_size := 0 |}.

Definition cls (s : mc) (id : Z) : slabclass_t := default empty_class (slabclass (slb s) !! id).

(** [p->slabs] *)
Definition n_slabs (c : slabclass_t) : Z := Z.of_nat (length (slab_list c)).

Definition with_free (sl n : Z) (c : slabclass_t) : slabclass_t :=
  {| sc_size := sc_size c; perslab := perslab c; slots := sl; sl_curr := n;
     slab_list := slab_list c; list_size := list_size c |}.
Definition with_pages (l : list Z) (n : Z) (c : slabclass_t) : slabclass_t :=
  {| sc_size := sc_size c; perslab := perslab c; slots := slots c; sl_curr := sl_curr c;
     slab_list := l; list_size := n |}.

Definition with_slabclass (m : gmap Z slabclass_t) (b : slabs) : slabs :=
  {| slabclass := m; mem_limit := mem_limit b; mem_malloced := mem_malloced b;
     mem_limit_reached := mem_limit_reached b; power_largest := power_largest b;
     mem_base := mem_base b; mem_current := mem_current b; mem_avail := mem_avail b;
     mallocs := mallocs b |}.
Definition with_limits (l : Z) (r : bool) (b : slabs) : slabs :=
  {| slabclass := slabclass b; mem_limit := l; mem_malloced := mem_malloced b;
     mem_limit_reached := r; power_largest := power_largest b;
     mem_base := mem_base b; mem_current := mem_current b; mem_avail := mem_avail b;
     mallocs := mallocs b |}.
Definition with_memory (m c a : Z) (b : slabs) : slabs :=
  {| slabclass := slabclass b; mem_limit := mem_limit b; mem_malloced := m;
     mem_limit_reached := mem_limit_reached b; power_largest := power_largest b;
     mem_base := mem_base b; mem_current := c; mem_avail := a; mallocs := mallocs b |}.
Definition count_malloc (b : slabs) : slabs :=
  {| slabclass := slabclass b; mem_limit := mem_limit b; mem_malloced := mem_malloced b;
     mem_limit_reached := mem_limit_reached b; power_largest := power_largest b;
     mem_base := mem_base b; mem_current := mem_current b; mem_avail := mem_avail b;
     mallocs := S (mallocs b) |}.

Definition set_cls (id : Z) (f : slabclass_t -> slabclass_t) : M mc unit :=
  modify (fun s => with_slb (with_slabclass (<[id := f (cls s id)]> (slabclass (slb s))) (slb s)) s).

Definition set_slb (f : slabs -> slabs) : M mc unit := modify (fun s => with_slb (f (slb s)) s).

(** ** Pages *)
Definition in_page (ptr len x : Z) : bool := (ptr <=? x) && (x <? ptr + len).

Definition clear_page (ptr len : Z) (h : gmap Z item) : gmap Z item :=
  filter (fun xi => in_page ptr len xi.1 = false) h.

Fixpoint add_chunks (n : nat) (ptr size : Z) (h : gmap Z item) : gmap Z item :=
  match n with
  | O => h
  | S n' => add_chunks n' (ptr + size) size (<[ptr := zero_item size]> h)
  end.

(** [memset(ptr, 0, len)] of a page that is going to be cut into [n] chunks. *)
Definition wipe_page (ptr len : Z) (n size : Z) : M mc unit :=
  modify (fun s => with_heap (add_chunks (Z.to_nat n) ptr size (clear_page ptr len (heap s))) s).

Section Slabs.
Context (cfg : settings).
(** The C library's allocator: NULL is 0. *)
Context (malloc_result : mc -> Z -> Z).

Definition malloc (sz : Z) : M mc Z :=
  fun s => Ret (malloc_result s sz) (with_slb (count_malloc (slb s)) s).

(** ** Classes *)
Fixpoint clsid_loop (n : nat) (s : mc) (sz res : Z) : Z :=
  match n with
  | O => power_largest (slb s)
  | S n' =>
      if sc_size (cls s res) <? sz then
        if res =? power_largest (slb s) then power_largest (slb s)
        else clsid_loop n' s sz (res + 1)
      else res
  end.

(** The loop ends at [power_largest]. *)
Definition slabs_clsid (s : mc) (sz : Z) : Z :=
  if (sz =? 0) || (item_size_max cfg <? sz) then 0
  else clsid_loop (Z.to_nat (power_largest (slb s))) s sz POWER_SMALLEST.

Definition slabs_size (s : mc) (clsid : Z) : Z := sc_size (cls s clsid).

(** ** Initialisation *)

(** Rounded up to [CHUNK_ALIGN_BYTES]. *)
Definition align_size (sz : Z) : Z :=
  if sz mod CHUNK_ALIGN_BYTES =? 0 then sz else sz + (CHUNK_ALIGN_BYTES - sz mod CHUNK_ALIGN_BYTES).

(** The loop over the classes from [i] on, [n] of them left; [slab_sizes] is the list of
    [-o slab_sizes], [grow] is [size *= factor], and [too_big] the test of the size
    against [slab_chunk_size_max / factor].  The classes and the [i] of the last one. *)
Fixpoint class_loop (n : nat) (slab_sizes : option (list Z)) (grow : Z -> Z) (too_big : Z -> bool)
    (i size : Z) (m : gmap Z slabclass_t) : gmap Z slabclass_t * Z :=
  match n with
  | O => (m, i)
  | S n' =>
      let given := match slab_sizes with
                   | Some l => let x := default 0 (l !! Z.to_nat (i - 1)) in if x =? 0 then None else Some x
                   | None => if too_big size then None else Some size
                   end in
      match given with
      | None => (m, i)
      | Some x =>
          let x := align_size x in
          let c := {| sc_size := x; perslab := slab_page_size cfg / x; slots := 0; sl_curr := 0;
                      slab_list := []; list_size := 0 |} in
          class_loop n' slab_sizes grow too_big (i + 1)
            (match slab_sizes with Some _ => x | None => grow x end) (<[i := c]> m)
      end
  end.

(** [MAX_NUMBER_OF_SLAB_CLASSES - 2] classes from [POWER_SMALLEST] on, and the largest. *)
Definition init_classes (slab_sizes : option (list Z)) (grow : Z -> Z) (too_big : Z -> bool)
    : gmap Z slabclass_t * Z :=
  let '(m, i) := class_loop (Z.to_nat (MAX_NUMBER_OF_SLAB_CLASSES - 2)) slab_sizes grow too_big
                   POWER_SMALLEST (sizeof_item + chunk_size cfg) ∅ in
  (<[i := {| sc_size := slab_chunk_size_max cfg;
             perslab := slab_page_size cfg / slab_chunk_size_max cfg; slots := 0; sl_curr := 0;
             slab_list := []; list_size := 0 |}]> m, i).

(** ** Pages of a class *)
Definition grow_slab_list (id : Z) : M mc bool :=
  let! p := gets (fun s => cls s id) in
  if n_slabs p =? list_size p then
    let new_size := if negb (list_size p =? 0) then list_size p * 2 else 16 in
    let! new_list := malloc (new_size * 8) in
    if new_list =? 0 then ret false
    else set_cls id (fun c => with_pages (slab_list c) new_size c) ;; ret true
  else ret true.

(** [p->slab_list[p->slabs++] = ptr], inside the array. *)
Definition push_page (id ptr : Z) : M mc unit :=
  let! p := gets (fun s => cls s id) in
  if n_slabs p <? list_size p then set_cls id (fun c => with_pages (slab_list c ++ [ptr]) (list_size c) c)
  else fun _ => Fault.

Definition get_page_from_global_pool : M mc Z :=
  let! p := gets (fun s => cls s SLAB_GLOBAL_PAGE_POOL) in
  match last (slab_list p) with
  | None => ret 0
  | Some pg =>
      set_cls SLAB_GLOBAL_PAGE_POOL
        (fun c => with_pages (take (length (slab_list c) - 1) (slab_list c)) (list_size c) c) ;;
      ret pg
  end.

Definition memory_allocate (sz : Z) : M mc Z :=
  let! b := gets slb in
  if mem_base b =? 0 then
    let! r := malloc sz in
    set_slb (fun b => with_memory (u64 (mem_malloced b + sz)) (mem_current b) (mem_avail b) b) ;;
    ret r
  else if mem_avail b <? sz then ret 0
  else
    let sz' := align_size sz in
    set_slb (fun b => with_memory (u64 (mem_malloced b + sz')) (mem_current b + sz')
                        (if sz' <? mem_avail b then mem_avail b - sz' else 0) b) ;;
    ret (mem_current b).

(** ** Chunks *)

(** Putting a chunk on the free list of [id]. *)
Definition push_free (it id : Z) : M mc unit :=
  let! p := gets (fun s => cls s id) in
  store it (set_prev 0) ;;
  store it (set_next (slots p)) ;;
  when (negb (slots p =? 0)) (store (slots p) (set_prev it)) ;;
  set_cls id (fun c => with_free it (sl_curr c + 1) c).

(** The chunks behind the first one of a large item. *)
Fixpoint free_chunks (n : nat) (chunk : Z) : M mc unit :=
  match n with
  | O => fun _ => Block
  | S n' =>
      if chunk =? 0 then ret tt
      else
        let! c := load chunk in
        cassert cfg (it_flags c =? ITEM_CHUNK) ;;
        store chunk (set_it_flags ITEM_SLABBED) ;;
        push_free chunk (McItem.slabs_clsid c) ;;
        free_chunks n' (next c)
  end.

Definition do_slabs_free_chunked (it : Z) : M mc unit :=
  let! ch := field_of schunk it in
  store it (set_it_flags ITEM_SLABBED) ;;
  store it (set_prev 0) ;;
  store it (set_slabs_clsid (c_orig_clsid ch)) ;;
  when (negb (c_next ch =? 0)) (store (c_next ch) (set_prev 0)) ;;
  push_free it (c_orig_clsid ch) ;;
  let! n := gets (fun s => S (size (heap s))) in
  free_chunks n (c_next ch).

Definition do_slabs_free (ptr id : Z) : M mc unit :=
  let! b := gets slb in
  cassert cfg ((POWER_SMALLEST <=? id) && (id <=? power_largest b)) ;;
  if (id <? POWER_SMALLEST) || (power_largest b <? id) then ret tt
  else
    let! f := field_of it_flags ptr in
    if negb (has f ITEM_CHUNKED) then
      store ptr (set_it_flags ITEM_SLABBED) ;;
      store ptr (set_slabs_clsid id) ;;
      push_free ptr id
    else do_slabs_free_chunked ptr.

Fixpoint split_loop (n : nat) (ptr size id : Z) : M mc unit :=
  match n with
  | O => ret tt
  | S n' => do_slabs_free ptr id ;; split_loop n' (ptr + size) size id
  end.

Definition split_slab_page_into_freelist (ptr id : Z) : M mc unit :=
  let! p := gets (fun s => cls s id) in
  split_loop (Z.to_nat (perslab p)) ptr (sc_size p) id.

Definition do_slabs_newslab (id : Z) : M mc bool :=
  let! s := get in
  let p := cls s id in
  let len := if slab_reassign cfg || negb (slab_chunk_size_max cfg =? slab_page_size cfg)
             then slab_page_size cfg else sc_size p * perslab p in
  if negb (mem_limit (slb s) =? 0) && (mem_limit (slb s) <? mem_malloced (slb s) + len) &&
     (0 <? n_slabs p) && (n_slabs (cls s SLAB_GLOBAL_PAGE_POOL) =? 0) then
    set_slb (fun b => with_limits (mem_limit b) true b) ;; ret false
  else
    let! grown := grow_slab_list id in
    if negb grown then ret false
    else
      let! pg := get_page_from_global_pool in
      let! ptr := (if pg =? 0 then memory_allocate len else ret pg) in
      if ptr =? 0 then ret false
      else
        wipe_page ptr len (perslab p) (sc_size p) ;;
        split_slab_page_into_freelist ptr id ;;
        push_page id ptr ;;
        ret true.

(** [no_newpage] is the flag [SLABS_ALLOC_NO_NEWPAGE]. *)
Definition do_slabs_alloc (sz id : Z) (no_newpage : bool) : M mc Z :=
  let! b := gets slb in
  if (id <? POWER_SMALLEST) || (power_largest b <? id) then ret 0
  else
    let! p := gets (fun s => cls s id) in
    (if ndebug cfg then ret tt
     else if sl_curr p =? 0 then ret tt
     else let! f := field_of it_flags (slots p) in cassert cfg (has f ITEM_SLABBED)) ;;
    cassert cfg (sz <=? sc_size p) ;;
    when ((sl_curr p =? 0) && negb no_newpage) (do_slabs_newslab id ;; ret tt) ;;
    let! p := gets (fun s => cls s id) in
    if negb (sl_curr p =? 0) then
      let it := slots p in
      let! nxt := field_of next it in
      set_cls id (fun c => with_free nxt (sl_curr c) c) ;;
      when (negb (nxt =? 0)) (store nxt (set_prev 0)) ;;
      store it (clear_flags ITEM_SLABBED) ;;
      store it (set_refcount 1) ;;
      set_cls id (fun c => with_free (slots c) (sl_curr c - 1) c) ;;
      ret it
    else ret 0.

Definition slabs_alloc (sz id : Z) (no_newpage : bool) : M mc Z := do_slabs_alloc sz id no_newpage.
Definition slabs_free (ptr id : Z) : M mc unit := do_slabs_free ptr id.

(** ** Memory limit *)
Fixpoint release_loop (n : nat) : M mc unit :=
  match n with
  | O => ret tt
  | S n' =>
      let! b := gets slb in
      if mem_limit b <? mem_malloced b then
        let! p := get_page_from_global_pool in
        if p =? 0 then ret tt
        else
          modify (fun s => with_heap (clear_page p (slab_page_size cfg) (heap s)) s) ;;
          set_slb (fun b => with_memory (u64 (mem_malloced b - slab_page_size cfg)) (mem_current b) (mem_avail b) b) ;;
          release_loop n'
      else ret tt
  end.

(** At most as many rounds as there are pages in the pool. *)
Definition memory_release : M mc unit :=
  let! s := get in
  if negb (mem_base (slb s) =? 0) then ret tt
  else if negb (slab_reassign cfg) then ret tt
  else release_loop (S (length (slab_list (cls s SLAB_GLOBAL_PAGE_POOL)))).

Definition do_slabs_adjust_mem_limit (new_mem_limit : Z) : M mc bool :=
  let! b := gets slb in
  if negb (mem_base b =? 0) then ret false
  else set_slb (with_limits new_mem_limit false) ;; memory_release ;; ret true.

Definition slabs_available_chunks (s : mc) (id : Z) : Z * bool * Z :=
  (sl_curr (cls s id), mem_limit (slb s) <=? mem_malloced (slb s), perslab (cls s id)).

Definition global_page_pool_size (s : mc) : Z * bool :=
  (n_slabs (cls s SLAB_GLOBAL_PAGE_POOL), mem_limit (slb s) <=? mem_malloced (slb s)).

(** *** Starting up *)
Fixpoint preallocate_loop (n : nat) (i : Z) : M mc unit :=
  match n with
  | O => ret tt
  | S n' =>
      let! ok := do_slabs_newslab i in
      if negb ok then (fun _ => Abort) else preallocate_loop n' (i + 1)
  end.

(** One page for each of the first [maxslabs] classes; [exit] on failure. *)
Definition slabs_preallocate (maxslabs : Z) : M mc unit :=
  preallocate_loop (Z.to_nat (Z.min maxslabs (MAX_NUMBER_OF_SLAB_CLASSES - POWER_SMALLEST))) POWER_SMALLEST.

(** [large_chunk] is the result of [alloc_large_chunk], [external] the memory given by the
    caller, [env_malloced] the number in T_MEMD_INITIAL_MALLOC, if it is set and one. *)
Definition slabs_init (limit : Z) (grow : Z -> Z) (too_big : Z -> bool) (prealloc : bool)
    (slab_sizes : option (list Z)) (large_chunk external : Z) (reuse_mem : bool)
    (env_malloced : option Z) : M mc unit :=
  let base := if prealloc then (if external =? 0 then large_chunk else external) else 0 in
  let reuse := prealloc && negb (external =? 0) && reuse_mem in
  let do_slab_prealloc := negb (base =? 0) in
  let '(m, largest) := init_classes slab_sizes grow too_big in
  set_slb (fun b =>
    {| slabclass := m; mem_limit := limit;
       mem_malloced := match env_malloced with Some e => u64 e | None => mem_malloced b end;
       mem_limit_reached := mem_limit_reached b; power_largest := largest;
       mem_base := if prealloc then base else mem_base b;
       mem_current := if base =? 0 then mem_current b else if reuse then base + limit else base;
       mem_avail := if base =? 0 then mem_avail b else if reuse then 0 else limit;
       mallocs := mallocs b |}) ;;
  when (do_slab_prealloc && negb reuse_mem) (slabs_preallocate largest).

(** Pages for the global pool up to the limit; [n] bounds their number. *)
Fixpoint prefill_loop (n : nat) : M mc unit :=
  match n with
  | O => fun _ => Block
  | S n' =>
      let! b := gets slb in
      if mem_malloced b <? mem_limit b then
        let! ptr := memory_allocate (slab_page_size cfg) in
        if ptr =? 0 then ret tt
        else
          grow_slab_list SLAB_GLOBAL_PAGE_POOL ;;
          modify (fun s => with_heap (<[ptr := zero_item sizeof_item]>
                             (clear_page ptr sizeof_item (heap s))) s) ;;
          push_page SLAB_GLOBAL_PAGE_POOL ptr ;;
          prefill_loop n'
      else ret tt
  end.

Definition slabs_prefill_global : M mc unit :=
  let! b := gets slb in
  prefill_loop (Z.to_nat (mem_limit b / slab_page_size cfg + 2)) ;;
  set_slb (fun b => with_limits (mem_limit b) true b).

(** A chunk found in memory that was kept over a restart; the size of its class, or -1. *)
Definition slabs_fixup (chunk border : Z) : M mc Z :=
  let! it := load chunk in
  let id := ITEM_clsid it in
  if id =? 0 then
    grow_slab_list 0 ;; push_page 0 chunk ;; ret (u32 (-1))
  else
    when (border =? 0) (grow_slab_list id ;; push_page id chunk) ;;
    when (it_flags it =? ITEM_SLABBED) (push_free chunk id) ;;
    gets (fun s => sc_size (cls s id)).

(** ** Asking for a page to be moved *)
Inductive reassign_result_type :=
  REASSIGN_OK | REASSIGN_RUNNING | REASSIGN_BADCLASS | REASSIGN_NOSPARE | REASSIGN_SRC_DST_SAME.

Definition set_rebal (f : slab_rebalance -> slab_rebalance) : M mc unit :=
  modify (fun s => with_rebal (f (rebal s)) s).

Definition with_pick_cur (c : Z) (r : slab_rebalance) : slab_rebalance :=
  {| signal := signal r; s_clsid := s_clsid r; d_clsid := d_clsid r; slab_start := slab_start r;
     slab_end := slab_end r; slab_pos := slab_pos r; busy_items := busy_items r;
     busy_loops := busy_loops r; done := done r; completed := completed r; pick_cur := c |}.

Definition with_request (src dst : Z) (r : slab_rebalance) : slab_rebalance :=
  {| signal := 1; s_clsid := src; d_clsid := dst; slab_start := slab_start r;
     slab_end := slab_end r; slab_pos := slab_pos r; busy_items := busy_items r;
     busy_loops := busy_loops r; done := done r; completed := completed r; pick_cur := pick_cur r |}.

(** [tries] rounds *)
Fixpoint pick_loop (tries : nat) (dst : Z) : M mc Z :=
  match tries with
  | O => ret (-1)
  | S n =>
      let! s := get in
      let cur := pick_cur (rebal s) + 1 in
      let cur := if power_largest (slb s) <? cur then POWER_SMALLEST else cur in
      set_rebal (with_pick_cur cur) ;;
      if cur =? dst then pick_loop n dst
      else if 1 <? n_slabs (cls s cur) then ret cur
      else pick_loop n dst
  end.

Definition slabs_reassign_pick_any (dst : Z) : M mc Z :=
  let! n := gets (fun s => power_largest (slb s) - POWER_SMALLEST + 1) in
  pick_loop (Z.to_nat n) dst.

Definition do_slabs_reassign (src dst : Z) : M mc reassign_result_type :=
  let! sg := gets (fun s => signal (rebal s)) in
  if negb (sg =? 0) then ret REASSIGN_RUNNING
  else if src =? dst then ret REASSIGN_SRC_DST_SAME
  else
    let! src := (if src =? -1 then slabs_reassign_pick_any dst else ret src) in
    let! s := get in
    let bad id := (id <? SLAB_GLOBAL_PAGE_POOL) || (power_largest (slb s) <? id) in
    if bad src || bad dst then ret REASSIGN_BADCLASS
    else if n_slabs (cls s src) <? 2 then ret REASSIGN_NOSPARE
    else set_rebal (with_request src dst) ;; ret REASSIGN_OK.

(** [lock_free]: the outcome of the trylock of [slabs_rebalance_lock]. *)
Definition slabs_reassign (lock_free : bool) (src dst : Z) : M mc reassign_result_type :=
  if lock_free then do_slabs_reassign src dst else ret REASSIGN_RUNNING.
End Slabs.
