(* ===== verification/McAlloc.v ===== *)
(** * memcached: the slab allocator hands out each chunk once

    The invariant of slabs.c and what its operations do under it: the free list of each
    class is a well-formed list of chunks of that class, all of them marked as free, and
    as long as [sl_curr] says.  The theorems are about the allocator as the server starts
    it by default: pages come from [malloc] one by one and the global page pool is
    empty. *)

From stdpp Require Import gmap.
From S2P Require Import Prelude Wire McHash McItem McLists McSlabs.

(** A chunk of class [id], as far as its size goes. *)
Definition chunk_of (s : mc) (id : Z) (i : item) : Prop :=
  Z.of_nat (length (data i)) = sc_size (cls s id) - sizeof_item.

(** [F] lists the free chunks of each class, in the order of the list. *)
Record slabs_inv (F : Z -> list Z) (s : mc) : Prop := {
  si_list : forall id, dlist (heap s) (slots (cls s id)) (F id);
  si_curr : forall id, sl_curr (cls s id) = Z.of_nat (length (F id));
  si_item : forall id p, p ∈ F id -> exists i, heap s !! p = Some i /\ it_flags i = ITEM_SLABBED /\
    McItem.slabs_clsid i = id /\ chunk_of s id i;
  si_nodup : forall id, NoDup (F id);
  si_range : forall id p, p ∈ F id -> POWER_SMALLEST <= id <= power_largest (slb s);
}.

(** How the chunks of a class are cut. *)
Definition class_ok (cfg : settings) (c : slabclass_t) : Prop :=
  sizeof_item <= sc_size c /\ 0 <= perslab c /\ sc_size c * perslab c <= slab_page_size cfg /\
  n_slabs c <= list_size c.

Definition updF (id : Z) (l : list Z) (F : Z -> list Z) : Z -> list Z :=
  fun id' => if decide (id' = id) then l else F id'.

Lemma updF_same id l F : updF id l F id = l.
Proof. unfold updF. by case_decide. Qed.

Lemma updF_other id id' l F : id' <> id -> updF id l F id' = F id'.
Proof. intros H. unfold updF. by case_decide. Qed.

Definition update_cls (id : Z) (c : slabclass_t) (s : mc) : mc :=
  with_slb (with_slabclass (<[id := c]> (slabclass (slb s))) (slb s)) s.

Lemma cls_update id id' c s : cls (update_cls id c s) id' = if decide (id' = id) then c else cls s id'.
Proof.
  unfold cls, update_cls. cbn. case_decide as H; [subst; by rewrite lookup_insert_eq|].
  by rewrite lookup_insert_ne.
Qed.

Lemma cls_heap h s id : cls (with_heap h s) id = cls s id.
Proof. done. Qed.

Lemma free_disjoint F s id id' p : slabs_inv F s -> p ∈ F id -> p ∈ F id' -> id = id'.
Proof.
  intros I H H'. destruct (si_item _ _ I _ _ H) as (i & E & _ & <- & _).
  destruct (si_item _ _ I _ _ H') as (i' & E' & _ & <- & _). congruence.
Qed.

(** ** Freeing *)
Definition freed (s : mc) (p : Z) (i : item) (id : Z) : mc :=
  update_cls id (with_free p (sl_curr (cls s id) + 1) (cls s id))
    (with_heap (pushed (heap s) p i (slots (cls s id))) s).

Lemma push_free_run s p i id :
  heap s !! p = Some i -> (slots (cls s id) <> 0 -> is_Some (heap s !! slots (cls s id))) ->
  push_free p id s = Ret tt (freed s p i id).
Proof.
  intros E Hs. unfold push_free, bind, gets, store, when. rewrite E.
  cbn [heap with_heap]. rewrite lookup_insert_eq, insert_insert_eq.
  unfold freed, pushed. destruct (Z.eqb_spec (slots (cls s id)) 0) as [E0|E0]; cbn [negb].
  - unfold set_cls, modify, ret. done.
  - cbn [heap with_heap]. destruct (decide (slots (cls s id) = p)) as [Ep|Ep].
    + rewrite Ep, lookup_insert_eq. rewrite (alter_Some _ _ _ (set_links p 0 i)) by apply lookup_insert_eq.
      done.
    + rewrite lookup_insert_ne by done. destruct (Hs E0) as [ip Eip]. rewrite Eip.
      rewrite (alter_Some _ _ _ ip) by by rewrite lookup_insert_ne. done.
Qed.

Lemma pushed_other h p i sl x : x <> p -> (sl <> 0 -> x <> sl) -> pushed h p i sl !! x = h !! x.
Proof.
  intros H1 H2. unfold pushed. destruct (Z.eqb_spec sl 0); [by rewrite lookup_insert_ne|].
  rewrite lookup_alter_ne by (symmetry; auto). by rewrite lookup_insert_ne.
Qed.

(** The head of the free list is on it. *)
Lemma slots_free F s id : slabs_inv F s -> slots (cls s id) <> 0 -> slots (cls s id) ∈ F id.
Proof.
  intros I H. pose proof (si_list _ _ I id) as Hd. destruct (F id) as [|x l]; [done|].
  destruct Hd as (E & _). rewrite E. set_solver.
Qed.

(** A field other than the links of an item. *)
Lemma pushed_field {A} (g : item -> A) h p i sl x :
  (forall n q j, g (set_links n q j) = g j) -> h !! p = Some i ->
  g <$> pushed h p i sl !! x = g <$> h !! x.
Proof.
  intros Hg E. assert (g <$> (<[p := set_links sl 0 i]> h) !! x = g <$> h !! x) as Hx
    by (apply (field_insert g h p i); [done|apply Hg]).
  unfold pushed. case_match; [done|].
  destruct (decide (x = sl)) as [->|]; [|by rewrite lookup_alter_ne].
  rewrite lookup_alter_eq, <- Hx. destruct (_ !! sl); [|done]. cbn. unfold set_prev. by rewrite Hg.
Qed.

Lemma slots_valid F s id : slabs_inv F s -> slots (cls s id) <> 0 -> is_Some (heap s !! slots (cls s id)).
Proof.
  intros I H. pose proof (si_list _ _ I id) as Hd. destruct (F id) as [|x l]; [done|].
  destruct Hd as (E & _ & i & Ei & _). rewrite E. by exists i.
Qed.

Lemma freed_inv F s p i id :
  slabs_inv F s -> heap s !! p = Some i -> it_flags i = ITEM_SLABBED -> McItem.slabs_clsid i = id ->
  chunk_of s id i -> p <> 0 -> (forall id', p ∉ F id') -> POWER_SMALLEST <= id <= power_largest (slb s) ->
  slabs_inv (updF id (p :: F id) F) (freed s p i id).
Proof.
  intros I E Hf Hc Hch H0 Hni Hid. unfold freed.
  assert (forall x, it_flags <$> pushed (heap s) p i (slots (cls s id)) !! x = it_flags <$> heap s !! x) as Gf
    by (intros x; by apply pushed_field).
  assert (forall x, McItem.slabs_clsid <$> pushed (heap s) p i (slots (cls s id)) !! x
                    = McItem.slabs_clsid <$> heap s !! x) as Gc by (intros x; by apply pushed_field).
  assert (forall x, data <$> pushed (heap s) p i (slots (cls s id)) !! x = data <$> heap s !! x) as Gd
    by (intros x; by apply pushed_field).
  assert (NoDup (p :: F id)) as Hn by (constructor; [apply Hni|apply I]).
  constructor.
  - intros id'. rewrite cls_update. case_decide as Hd.
    + subst id'. rewrite updF_same. cbn. apply dlist_push; [apply I|done|done].
    + rewrite updF_other by done. cbn. unfold dlist. apply (dseg_frame (heap s)); [apply (si_list _ _ I)|].
      intros x Hx. rewrite pushed_other; [done| |].
      * intros ->. by destruct (Hni id').
      * intros Hs ->. destruct Hd. apply (free_disjoint F s id' id (slots (cls s id)) I Hx).
        by apply slots_free.
  - intros id'. rewrite cls_update. case_decide as Hd.
    + subst id'. rewrite updF_same. cbn [sl_curr with_free length]. rewrite (si_curr _ _ I). lia.
    + rewrite updF_other by done. apply I.
  - intros id' x Hx. assert (x = p /\ id' = id \/ x ∈ F id') as Hcase.
    { unfold updF in Hx. case_decide; subst; set_solver. }
    assert (exists ix, heap s !! x = Some ix /\ it_flags ix = ITEM_SLABBED /\ McItem.slabs_clsid ix = id' /\
              chunk_of s id' ix) as (ix & Ex & Hfx & Hcx & Hchx).
    { destruct Hcase as [[-> ->]|Hin]; [by exists i|by apply I]. }
    specialize (Gf x). specialize (Gc x). specialize (Gd x). rewrite Ex in Gf, Gc, Gd. cbn.
    destruct (pushed _ _ _ _ !! x) as [ix'|]; [|done]. cbn in Gf, Gc, Gd.
    injection Gf as Gf. injection Gc as Gc. injection Gd as Gd. exists ix'. split; [done|].
    split; [congruence|]. split; [congruence|]. unfold chunk_of in *. rewrite cls_update, Gd, Hchx.
    case_decide as Hd; [rewrite Hd|]; reflexivity.
  - intros id'. unfold updF. case_decide; [done|apply I].
  - intros id' x Hx. cbn. unfold updF in Hx. case_decide as Hd; [by subst|]. by eapply si_range.
Qed.

(** A store to an item that is not free. *)
Lemma inv_store F s p i i' :
  slabs_inv F s -> (forall id, p ∉ F id) -> heap s !! p = Some i ->
  slabs_inv F (with_heap (<[p := i']> (heap s)) s).
Proof.
  intros I Hni E. constructor; cbn.
  - intros id. apply dseg_insert; [apply (si_list _ _ I)|apply Hni].
  - apply I.
  - intros id x Hx. destruct (si_item _ _ I id x Hx) as (ix & Ex & H). exists ix. split; [|exact H].
    rewrite lookup_insert_ne; [done|]. intros ->. by destruct (Hni id).
  - apply I.
  - apply I.
Qed.

(** What is the same while chunks of [id] are given back or taken. *)
Definition same_but_free (id : Z) (s s' : mc) : Prop :=
  (forall id', id' <> id -> cls s' id' = cls s id') /\
  (exists sl n, cls s' id = with_free sl n (cls s id)) /\
  with_slabclass (slabclass (slb s)) (slb s') = slb s /\
  with_slb (slb s) (with_heap (heap s) s') = s.

Lemma same_but_free_refl id s : same_but_free id s s.
Proof.
  split_and!; [done| |by destruct s as [? ? []]|by destruct s].
  exists (slots (cls s id)), (sl_curr (cls s id)). by destruct (cls s id).
Qed.

Lemma same_but_free_trans id s1 s2 s3 :
  same_but_free id s1 s2 -> same_but_free id s2 s3 -> same_but_free id s1 s3.
Proof.
  intros (A1 & (sl & n & A2) & A3 & A4) (B1 & (sl' & n' & B2) & B3 & B4). split_and!.
  - intros id' H. by rewrite B1, A1.
  - exists sl', n'. rewrite B2, A2. done.
  - rewrite <- A3. rewrite <- B3 at 2. done.
  - rewrite <- A4 at 3. rewrite <- B4. done.
Qed.

Lemma same_but_free_update id s sl n h :
  same_but_free id s (update_cls id (with_free sl n (cls s id)) (with_heap h s)).
Proof.
  split_and!; [|exists sl, n|by destruct s as [? ? []]|by destruct s].
  - intros id' H. by rewrite cls_update, decide_False.
  - by rewrite cls_update, decide_True.
Qed.

Lemma same_power id s s' : same_but_free id s s' -> power_largest (slb s') = power_largest (slb s).
Proof. intros (_ & _ & E & _). by rewrite <- E. Qed.

Lemma same_size id s s' id' : same_but_free id s s' -> sc_size (cls s' id') = sc_size (cls s id').
Proof.
  intros (A & (sl & n & B) & _). destruct (decide (id' = id)) as [->|]; [by rewrite B|by rewrite A].
Qed.

Lemma slabs_inv_ext F F' s : (forall id, F' id = F id) -> slabs_inv F s -> slabs_inv F' s.
Proof.
  intros E []. constructor; intros id; try intros p; rewrite E; eauto.
Qed.

Section Alloc.
Context (cfg : settings).

Definition marked (id : Z) (i : item) : item := set_slabs_clsid id (set_it_flags ITEM_SLABBED i).

Lemma slabs_free_spec F s p i id :
  slabs_inv F s -> heap s !! p = Some i -> has (it_flags i) ITEM_CHUNKED = false ->
  chunk_of s id i -> p <> 0 -> (forall id', p ∉ F id') -> POWER_SMALLEST <= id <= power_largest (slb s) ->
  wp (do_slabs_free cfg p id)
     (fun _ s' => slabs_inv (updF id (p :: F id) F) s' /\ same_but_free id s s' /\
        (forall x, x <> p -> x ∉ F id -> heap s' !! x = heap s !! x) /\ is_Some (heap s' !! p)) s.
Proof.
  intros I E Hch Hsz H0 Hni Hid. unfold do_slabs_free. apply wp_bind, wp_gets. apply wp_bind.
  apply wp_cassert; [lia|].
  replace ((id <? POWER_SMALLEST) || (power_largest (slb s) <? id)) with false by lia.
  apply wp_bind. eapply wp_field_of; [done|]. rewrite Hch. cbn [negb].
  apply wp_bind. eapply wp_store; [done|]. apply wp_bind.
  eapply wp_store; [cbn; by rewrite lookup_insert_eq|]. cbn [heap with_heap].
  rewrite insert_insert_eq. fold (marked id i).
  set (s1 := with_heap (<[p := marked id i]> (heap s)) (with_heap _ s)).
  assert (s1 = with_heap (<[p := marked id i]> (heap s)) s) as Es1 by by destruct s.
  assert (heap s1 !! p = Some (marked id i)) as E1 by (cbn; by rewrite lookup_insert_eq).
  assert (slabs_inv F s1) as I1 by (rewrite Es1; by eapply inv_store).
  unfold wp. rewrite (push_free_run s1 p (marked id i) id E1) by by eapply slots_valid.
  split_and!.
  - by apply freed_inv.
  - rewrite Es1. exact (same_but_free_update id s p (sl_curr (cls s id) + 1)
      (pushed (<[p := marked id i]> (heap s)) p (marked id i) (slots (cls s id)))).
  - intros x Hx Hxf. cbn. rewrite pushed_other; [cbn; by rewrite lookup_insert_ne|done|].
    intros Hs ->. apply Hxf. by apply (slots_free F s1).
  - cbn. unfold pushed. case_match; [rewrite lookup_insert_eq; by eexists|].
    destruct (decide (p = slots (cls s1 id))) as [Ep|]; [rewrite <- Ep, lookup_alter_eq, lookup_insert_eq; by eexists|].
    rewrite lookup_alter_ne, lookup_insert_eq by done. by eexists.
Qed.

(** ** Cutting a page *)
Fixpoint chunk_list (n : nat) (ptr size : Z) : list Z :=
  match n with
  | O => []
  | S n' => ptr :: chunk_list n' (ptr + size) size
  end.

Lemma length_chunk_list n ptr size : length (chunk_list n ptr size) = n.
Proof. revert ptr. induction n; intros ptr; cbn; [done|]. by f_equal. Qed.

Lemma chunk_list_range n ptr size x :
  0 <= size -> x ∈ chunk_list n ptr size -> ptr <= x <= ptr + size * Z.of_nat n - size.
Proof.
  intros Hs. revert ptr. induction n as [|n IH]; intros ptr; cbn [chunk_list];
    [by intros ?%not_elem_of_nil|]. intros [->|Hx]%elem_of_cons; [nia|]. apply IH in Hx. nia.
Qed.

Lemma chunk_list_nodup n ptr size : 0 < size -> NoDup (chunk_list n ptr size).
Proof.
  intros Hs. revert ptr. induction n as [|n IH]; intros ptr; cbn [chunk_list]; constructor; [|apply IH].
  intros Hx. apply chunk_list_range in Hx; lia.
Qed.

Lemma add_chunks_other n ptr size h x :
  x ∉ chunk_list n ptr size -> add_chunks n ptr size h !! x = h !! x.
Proof.
  revert ptr h. induction n as [|n IH]; intros ptr h; cbn [chunk_list add_chunks]; [done|].
  intros Hx. rewrite IH by set_solver. rewrite lookup_insert_ne; [done|]. set_solver.
Qed.

Lemma add_chunks_lookup n ptr size h x :
  0 < size -> x ∈ chunk_list n ptr size -> add_chunks n ptr size h !! x = Some (zero_item size).
Proof.
  intros Hs. revert ptr h. induction n as [|n IH]; intros ptr h; cbn [chunk_list add_chunks];
    [by intros ?%not_elem_of_nil|]. intros [->|Hx]%elem_of_cons; [|by apply IH].
  rewrite add_chunks_other; [by rewrite lookup_insert_eq|].
  intros Hx. apply chunk_list_range in Hx; lia.
Qed.

(** Freeing the chunks of a page one after the other, from zeroed memory. *)
Lemma split_loop_spec n F s ptr size id :
  slabs_inv F s -> 0 < size -> sc_size (cls s id) = size -> sizeof_item <= size ->
  0 < ptr -> POWER_SMALLEST <= id <= power_largest (slb s) ->
  (forall x, x ∈ chunk_list n ptr size -> heap s !! x = Some (zero_item size) /\ forall id', x ∉ F id') ->
  wp (split_loop cfg n ptr size id)
     (fun _ s' => slabs_inv (updF id (rev (chunk_list n ptr size) ++ F id) F) s' /\
        same_but_free id s s' /\
        (forall x, x ∉ chunk_list n ptr size -> x ∉ F id -> heap s' !! x = heap s !! x)) s.
Proof.
  revert F s ptr. induction n as [|n IH]; intros F s ptr I Hs Hsz Hit Hptr Hid Hch; cbn [split_loop chunk_list] in *.
  { apply wp_ret. split_and!; [|apply same_but_free_refl|done]. revert I. apply slabs_inv_ext.
    intros id'. unfold updF. case_decide; by subst. }
  destruct (Hch ptr ltac:(set_solver)) as [Ep Hni]. apply wp_bind.
  eapply wp_mono; [|apply (slabs_free_spec F s ptr (zero_item size) id I Ep)];
    [|done|unfold chunk_of; cbn; rewrite length_replicate, Hsz; lia|lia|done|done].
  intros _ s1 (I1 & S1 & O1 & _).
  eapply wp_mono; [|apply (IH _ s1 (ptr + size) I1 Hs)].
  - intros _ s2 (I2 & S2 & O2). split_and!.
    + revert I2. apply slabs_inv_ext. intros id'. destruct (decide (id' = id)) as [->|].
      * rewrite !updF_same. cbn [rev]. by rewrite <- app_assoc.
      * by rewrite !updF_other.
    + exact (same_but_free_trans _ _ _ _ S1 S2).
    + intros x Hx Hxf. rewrite O2; [apply O1; set_solver|set_solver|].
      rewrite updF_same. set_solver.
  - by rewrite (same_size id s s1).
  - done.
  - lia.
  - by rewrite (same_power id s s1).
  - intros x Hx. destruct (Hch x ltac:(set_solver)) as [Ex Hxf].
    assert (x <> ptr) as Hxp by (apply chunk_list_range in Hx; lia). split.
    + rewrite O1; [done|done|apply Hxf].
    + intros id'. unfold updF. case_decide; [subst; set_solver|apply Hxf].
Qed.

(** ** New pages *)

(** What no operation of the allocator changes. *)
Definition alloc_frame (s s' : mc) : Prop :=
  (forall id, sc_size (cls s' id) = sc_size (cls s id) /\ perslab (cls s' id) = perslab (cls s id)) /\
  power_largest (slb s') = power_largest (slb s) /\ mem_base (slb s') = mem_base (slb s) /\
  slab_list (cls s' 0) = slab_list (cls s 0) /\
  with_slb (slb s) (with_heap (heap s) s') = s.

Lemma alloc_frame_refl s : alloc_frame s s.
Proof. by destruct s. Qed.

Lemma alloc_frame_trans s1 s2 s3 : alloc_frame s1 s2 -> alloc_frame s2 s3 -> alloc_frame s1 s3.
Proof.
  intros (A1 & A2 & A3 & A4 & A5) (B1 & B2 & B3 & B4 & B5). split_and!; [|congruence..|].
  - intros id. destruct (A1 id), (B1 id). split; congruence.
  - rewrite <- A5 at 3. rewrite <- B5. done.
Qed.

Lemma free_alloc_frame id s s' : 0 < id -> same_but_free id s s' -> alloc_frame s s'.
Proof.
  intros Hid (A & (sl & n & B) & C & D). split_and!; [|by rewrite <- C..| |done].
  - intros id'. destruct (decide (id' = id)) as [->|]; [by rewrite B|by rewrite A].
  - by rewrite A by lia.
Qed.

(** The same lists and the same heap. *)
Lemma slabs_inv_same F s s' :
  slabs_inv F s -> heap s' = heap s -> power_largest (slb s') = power_largest (slb s) ->
  (forall id, slots (cls s' id) = slots (cls s id) /\ sl_curr (cls s' id) = sl_curr (cls s id) /\
              sc_size (cls s' id) = sc_size (cls s id)) ->
  slabs_inv F s'.
Proof.
  intros [] Hh Hp Hc. constructor.
  - intros id. rewrite Hh. destruct (Hc id) as (-> & _). done.
  - intros id. destruct (Hc id) as (_ & -> & _). done.
  - intros id p Hp'. rewrite Hh. unfold chunk_of. destruct (Hc id) as (_ & _ & ->). by apply si_item0.
  - done.
  - intros id p Hp'. rewrite Hp. by eapply si_range0.
Qed.

Context (malloc_result : mc -> Z -> Z).

(** What is documented of [malloc]: the block it returns is not in use. *)
Definition fresh_block (s : mc) (p sz : Z) : Prop :=
  0 < p /\ forall x, p <= x < p + sz -> heap s !! x = None.

Hypothesis malloc_fresh : forall s sz, malloc_result s sz <> 0 -> fresh_block s (malloc_result s sz) sz.

(** Only bookkeeping of pages and of memory changed. *)
Definition pages_only (F : Z -> list Z) (s s' : mc) : Prop :=
  slabs_inv F s' /\ heap s' = heap s /\ alloc_frame s s'.

Lemma pages_only_trans F s1 s2 s3 : pages_only F s1 s2 -> pages_only F s2 s3 -> pages_only F s1 s3.
Proof.
  intros (A1 & A2 & A3) (B1 & B2 & B3). split_and!; [done|congruence|by eapply alloc_frame_trans].
Qed.

Lemma malloc_pages F s :
  slabs_inv F s ->
  pages_only F s (with_slb (count_malloc (slb s)) s) /\
  cls (with_slb (count_malloc (slb s)) s) = cls s.
Proof.
  intros I. split; [|done]. split_and!; [by apply (slabs_inv_same F s)|done|].
  split_and!; try done. by destruct s.
Qed.

(** Changing the page list of one class. *)
Lemma with_pages_only F s id l n :
  slabs_inv F s -> (id = 0 -> l = slab_list (cls s 0)) ->
  pages_only F s (update_cls id (with_pages l n (cls s id)) s).
Proof.
  intros I Hl. split_and!; [|done|].
  - apply (slabs_inv_same F s); try done. intros id'. rewrite cls_update. case_decide; by subst.
  - split_and!; try done; [| |by destruct s].
    + intros id'. rewrite cls_update. case_decide; by subst.
    + rewrite cls_update. case_decide as H; [|done]. subst id. cbn. by apply Hl.
Qed.

Lemma grow_spec F s id :
  slabs_inv F s -> n_slabs (cls s id) <= list_size (cls s id) ->
  wp (grow_slab_list malloc_result id)
     (fun r s' => pages_only F s s' /\ slab_list (cls s' id) = slab_list (cls s id) /\
        n_slabs (cls s' id) <= list_size (cls s' id) /\
        (r = true -> n_slabs (cls s' id) < list_size (cls s' id)) /\
        (forall id', id' <> id -> cls s' id' = cls s id')) s.
Proof.
  intros I Hn. unfold grow_slab_list. apply wp_bind, wp_gets.
  assert (pages_only F s s) as P0 by (split_and!; [done|done|apply alloc_frame_refl]).
  destruct (Z.eqb_spec (n_slabs (cls s id)) (list_size (cls s id))) as [E|E];
    [|apply wp_ret; split_and!; [done|done|done|lia|done]].
  set (new_size := if negb _ then _ else _).
  assert (n_slabs (cls s id) < new_size) as Hlt.
  { unfold new_size. assert (0 <= n_slabs (cls s id)) by (unfold n_slabs; lia).
    destruct (Z.eqb_spec (list_size (cls s id)) 0); cbn [negb]; lia. }
  apply wp_bind. unfold wp at 1, malloc. destruct (malloc_pages F s I) as [P1 C1].
  set (s1 := with_slb _ s) in *. case_match; [apply wp_ret; rewrite C1; split_and!; [done|done|lia|done|done]|].
  apply wp_bind. apply wp_modify. apply wp_ret.
  pose proof P1 as (I1 & _).
  assert (pages_only F s1 (update_cls id (with_pages (slab_list (cls s1 id)) new_size (cls s1 id)) s1)) as P2
    by (apply with_pages_only; [done|by intros ->]).
  fold (update_cls id (with_pages (slab_list (cls s1 id)) new_size (cls s1 id)) s1).
  split; [by eapply pages_only_trans|]. rewrite cls_update, decide_True by done. cbn. rewrite C1.
  split; [done|]. split; [unfold n_slabs in *; cbn; lia|]. split; [unfold n_slabs in *; cbn; lia|].
  intros id' Hne. by rewrite cls_update, decide_False, C1.
Qed.

(** No preallocated memory, and no pages in the global pool. *)
Definition normal (s : mc) : Prop := mem_base (slb s) = 0 /\ slab_list (cls s SLAB_GLOBAL_PAGE_POOL) = [].

Lemma normal_frame s s' : alloc_frame s s' -> normal s -> normal s'.
Proof. intros (_ & _ & E1 & E2 & _) [H1 H2]. split; [congruence|]. unfold SLAB_GLOBAL_PAGE_POOL in *. congruence. Qed.

Lemma pool_empty s Q :
  slab_list (cls s SLAB_GLOBAL_PAGE_POOL) = [] -> Q 0 s -> wp get_page_from_global_pool Q s.
Proof. intros E H. unfold get_page_from_global_pool. apply wp_bind, wp_gets. rewrite E. by apply wp_ret. Qed.

Lemma memory_allocate_spec F s sz :
  slabs_inv F s -> mem_base (slb s) = 0 ->
  wp (memory_allocate malloc_result sz)
     (fun r s' => pages_only F s s' /\ cls s' = cls s /\ (r <> 0 -> fresh_block s r sz) /\
        mem_malloced (slb s') = u64 (mem_malloced (slb s) + sz)) s.
Proof using malloc_fresh.
  intros I Hb. unfold memory_allocate. apply wp_bind, wp_gets. rewrite Hb. cbn [Z.eqb].
  apply wp_bind. unfold wp at 1, malloc. apply wp_bind. apply wp_modify. apply wp_ret.
  split_and!; [|done|apply malloc_fresh|done].
  split_and!; [by apply (slabs_inv_same F s)|done|]. split_and!; try done. by destruct s.
Qed.

Lemma limits_only F s l r :
  slabs_inv F s -> pages_only F s (with_slb (with_limits l r (slb s)) s).
Proof.
  intros I. split_and!; [by apply (slabs_inv_same F s)|done|]. split_and!; try done. by destruct s.
Qed.

Lemma clear_fresh s ptr len : fresh_block s ptr len -> clear_page ptr len (heap s) = heap s.
Proof.
  intros [_ Hf]. unfold clear_page. apply map_filter_id. intros x i E. cbn. unfold in_page.
  destruct (Z.leb_spec ptr x), (Z.ltb_spec x (ptr + len)); try done. cbn. rewrite Hf in E by lia. done.
Qed.

Lemma fresh_not_free F s id x : slabs_inv F s -> heap s !! x = None -> x ∉ F id.
Proof. intros I E Hx. destruct (si_item _ _ I id x Hx) as (i & Ei & _). congruence. Qed.

(** Adding chunks at fresh addresses. *)
Lemma add_chunks_inv F s n ptr size :
  slabs_inv F s -> (forall x, x ∈ chunk_list n ptr size -> heap s !! x = None) ->
  slabs_inv F (with_heap (add_chunks n ptr size (heap s)) s).
Proof.
  intros I Hf.
  assert (forall id x, x ∈ F id -> add_chunks n ptr size (heap s) !! x = heap s !! x) as Hsame.
  { intros id x Hx. apply add_chunks_other. intros Hc. by apply (fresh_not_free F s id x I (Hf x Hc)). }
  pose proof I as []. constructor; cbn; try done.
  - intros id. apply (dseg_frame (heap s)); [apply si_list0|]. intros x Hx. by rewrite (Hsame id x Hx).
  - intros id p Hp. rewrite (Hsame id p Hp). by apply si_item0.
Qed.

(** The chunks of a new page go to the free list of the class; nothing else is touched. *)
Definition new_page (F : Z -> list Z) (s : mc) (id : Z) (r : bool) (s' : mc) : Prop :=
  alloc_frame s s' /\ n_slabs (cls s' id) <= list_size (cls s' id) /\
  (forall id', id' <> id -> cls s' id' = cls s id') /\
  if r then
    exists ptr, let ch := chunk_list (Z.to_nat (perslab (cls s id))) ptr (sc_size (cls s id)) in
      slabs_inv (updF id (rev ch ++ F id) F) s' /\ slab_list (cls s' id) = slab_list (cls s id) ++ [ptr] /\
      (forall x, x ∈ ch -> heap s !! x = None) /\
      (forall x, x ∉ ch -> x ∉ F id -> heap s' !! x = heap s !! x)
  else slabs_inv F s' /\ heap s' = heap s /\ slab_list (cls s' id) = slab_list (cls s id).

Lemma newslab_spec F s id :
  slabs_inv F s -> normal s -> class_ok cfg (cls s id) -> POWER_SMALLEST <= id <= power_largest (slb s) ->
  wp (do_slabs_newslab cfg malloc_result id) (new_page F s id) s.
Proof using malloc_fresh.
  intros I N (C1 & C2 & C3 & C4) Hid. unfold do_slabs_newslab. apply wp_bind.
  change (wp get ?Q s) with (Q s s). cbn beta zeta. set (len := if _ || _ then _ else _).
  assert (sc_size (cls s id) * perslab (cls s id) <= len) as Hlen by (unfold len; case_match; lia).
  destruct (_ && _ && _ && _).
  { apply wp_bind, wp_modify, wp_ret. destruct (limits_only F s (mem_limit (slb s)) true I) as (I1 & _ & A1).
    done. }
  apply wp_bind. eapply wp_mono; [|by apply (grow_spec F)]. intros grown s1 (P1 & L1 & N1 & G1 & K1).
  pose proof P1 as (I1 & H1 & A1).
  destruct grown; cbn [negb]; [|by apply wp_ret].
  pose proof (normal_frame _ _ A1 N) as [NB NP]. apply wp_bind. apply pool_empty; [done|]. cbn [Z.eqb].
  apply wp_bind. eapply wp_mono; [|by apply (memory_allocate_spec F)]. intros ptr s2 (P2 & C2' & Hfr & _).
  pose proof P2 as (I2 & H2 & A2). pose proof (alloc_frame_trans _ _ _ A1 A2) as A12.
  destruct (Z.eqb_spec ptr 0) as [->|Hptr].
  { apply wp_ret. split; [done|]. rewrite C2'. split; [done|]. split; [done|]. split; [done|].
    split; [congruence|done]. }
  specialize (Hfr Hptr). assert (fresh_block s2 ptr len) as Hfr2 by (destruct Hfr; split; [done|by rewrite H2]).
  set (size := sc_size (cls s id)) in *. set (n := Z.to_nat (perslab (cls s id))).
  assert (forall x, x ∈ chunk_list n ptr size -> heap s2 !! x = None) as Hch.
  { intros x Hx. apply Hfr2. apply chunk_list_range in Hx; unfold n, sizeof_item in *; nia. }
  apply wp_bind. apply wp_modify. rewrite (clear_fresh s2) by done.
  pose proof (add_chunks_inv F s2 n ptr size I2 Hch) as I3. fold n.
  set (s3 := with_heap _ s2) in *.
  destruct A12 as (F1 & F2 & F3 & F4 & F5).
  apply wp_bind. unfold split_slab_page_into_freelist. apply wp_bind, wp_gets.
  change (cls s3 id) with (cls s2 id). destruct (F1 id) as [-> ->]. fold size n.
  eapply wp_mono; [|apply (split_loop_spec n F s3 ptr size id I3)].
  - intros _ s4 (I4 & S4 & O4). apply wp_bind. unfold push_page. apply wp_bind, wp_gets.
    destruct S4 as (S41 & (sl & k & S42) & S43 & S44).
    assert (n_slabs (cls s4 id) < list_size (cls s4 id)) as Hroom.
    { specialize (G1 eq_refl). rewrite <- C2' in G1. by rewrite S42. }
    rewrite (proj2 (Z.ltb_lt _ _)) by done. apply wp_modify. apply wp_ret.
    fold (update_cls id (with_pages (slab_list (cls s4 id) ++ [ptr]) (list_size (cls s4 id)) (cls s4 id)) s4).
    destruct (with_pages_only _ s4 id (slab_list (cls s4 id) ++ [ptr]) (list_size (cls s4 id)) I4) as (I5 & H5 & A5);
      [intros ->; unfold POWER_SMALLEST in *; lia|].
    split; [|split; [|split]].
    + eapply alloc_frame_trans; [|exact A5]. eapply alloc_frame_trans; [split_and!; eassumption|].
      apply (alloc_frame_trans _ s3); [split_and!; try done; by destruct s2|].
      apply (free_alloc_frame id); [unfold POWER_SMALLEST in *; lia|]. split_and!; [done|by eexists _, _|done|done].
    + rewrite cls_update, decide_True by done. unfold n_slabs in *. cbn. rewrite length_app. cbn. lia.
    + intros id' Hne. rewrite cls_update, decide_False, S41 by done. change (cls s3 id') with (cls s2 id').
      by rewrite C2', K1.
    + exists ptr. fold size n. split_and!; [exact I5| |by rewrite <- H1, <- H2|].
      * rewrite cls_update, decide_True by done. cbn. rewrite <- L1, <- C2'. by rewrite S42.
      * intros x Hx Hxf. rewrite H5, O4 by done. cbn. rewrite add_chunks_other by done. by rewrite H2, H1.
  - unfold sizeof_item in *. lia.
  - change (cls s3 id) with (cls s2 id). apply F1.
  - done.
  - apply Hfr.
  - change (slb s3) with (slb s2). by rewrite F2.
  - intros x Hx. split; [cbn; apply add_chunks_lookup; [unfold sizeof_item in *; lia|done]|].
    intros id'. by apply (fresh_not_free F s2 id' x I2), Hch.
Qed.

(** ** Taking a chunk *)

(** Chunks of a class that are not free. *)
Definition used (F : Z -> list Z) (s : mc) (id : Z) : Z :=
  n_slabs (cls s id) * perslab (cls s id) - Z.of_nat (length (F id)).

(** The chunk an allocation returns. *)
Definition fresh_chunk (s s' : mc) (F : Z -> list Z) (id r : Z) : Prop :=
  r <> 0 /\ (r ∈ F id \/ heap s !! r = None) /\
  exists i, heap s' !! r = Some i /\ refcount i = 1 /\ it_flags i = 0 /\
    McItem.slabs_clsid i = id /\ chunk_of s' id i.

(** The free list after its head was taken. *)
Definition taken_state (s : mc) (id it : Z) (i : item) : mc :=
  update_cls id (with_free (next i) (sl_curr (cls s id) - 1) (cls s id))
    (with_heap (<[it := set_refcount 1 (clear_flags ITEM_SLABBED i)]>
       (if next i =? 0 then heap s else alter (set_prev 0) (next i) (heap s))) s).

Lemma take_inv F s id it i l :
  slabs_inv F s -> F id = it :: l -> heap s !! it = Some i ->
  slabs_inv (updF id l F) (taken_state s id it i).
Proof.
  intros I El Ei. pose proof (si_list _ _ I id) as Hd. rewrite El in Hd.
  destruct Hd as (Hs & H0 & i' & Ei' & Hp & Hd). assert (i' = i) as -> by congruence.
  pose proof (si_nodup _ _ I id) as Hn. rewrite El in Hn. apply NoDup_cons in Hn as [Hni Hn].
  pose proof (dseg_head_prev _ _ _ _ 0 Hd Hn) as Hd'.
  set (h1 := if next i =? 0 then heap s else alter (set_prev 0) (next i) (heap s)) in *.
  assert (forall x, x ∉ l -> h1 !! x = heap s !! x) as Hout.
  { intros x Hx. unfold h1. destruct (Z.eqb_spec (next i) 0); [done|]. rewrite lookup_alter_ne; [done|].
    intros <-. apply Hx. apply dseg_head in Hd as Hh. destruct l; cbn in Hh; [done|]. rewrite Hh. set_solver. }
  assert (forall x ix, heap s !! x = Some ix -> exists ix', h1 !! x = Some ix' /\ it_flags ix' = it_flags ix /\
            McItem.slabs_clsid ix' = McItem.slabs_clsid ix /\ data ix' = data ix) as Hfld.
  { intros x ix Ex. unfold h1. destruct (Z.eqb_spec (next i) 0); [by exists ix|].
    destruct (decide (x = next i)) as [->|]; [|exists ix; by rewrite lookup_alter_ne].
    rewrite lookup_alter_eq, Ex. by eexists. }
  constructor.
  - intros id'. unfold taken_state. rewrite cls_update. cbn [heap update_cls with_slb with_heap].
    unfold dlist. case_decide as Hid.
    + subst id'. rewrite updF_same. apply dseg_insert; [exact Hd'|done].
    + rewrite updF_other by done. apply (dseg_frame (heap s)); [apply (si_list _ _ I)|].
      intros x Hx. assert (x ∉ F id) as Hxf by (intros Hx'; destruct Hid; by eapply free_disjoint).
      rewrite El in Hxf. rewrite lookup_insert_ne by set_solver. by rewrite Hout by set_solver.
  - intros id'. unfold taken_state. rewrite cls_update. case_decide as Hid.
    + subst id'. rewrite updF_same. cbn. rewrite (si_curr _ _ I), El. cbn [length]. lia.
    + rewrite updF_other by done. apply I.
  - intros id' x Hx. assert (x ∈ F id' /\ x <> it) as [Hxf Hxi].
    { unfold updF in Hx. case_decide as Hid; [subst; rewrite El; set_solver|]. split; [done|]. intros ->.
      destruct Hid. apply (free_disjoint F s id' id it I Hx). rewrite El. set_solver. }
    destruct (si_item _ _ I id' x Hxf) as (ix & Ex & Hf & Hc & Hch).
    destruct (Hfld x ix Ex) as (ix' & Ex' & Hf' & Hc' & Hd'').
    exists ix'. cbn. rewrite lookup_insert_ne by done. split; [done|]. split; [congruence|].
    split; [congruence|]. unfold chunk_of in *. unfold taken_state. rewrite cls_update, Hd'', Hch.
    case_decide as Hid; [rewrite Hid|]; reflexivity.
  - intros id'. unfold updF. case_decide; [done|apply I].
  - intros id' x Hx. cbn. apply (si_range _ _ I id' x). unfold updF in Hx. case_decide; [|done].
    subst. rewrite El. set_solver.
Qed.

Lemma take_run s id it i (Q : Z -> mc -> Prop) :
  heap s !! it = Some i -> (next i <> 0 -> is_Some (heap s !! next i)) -> next i <> it ->
  slots (cls s id) = it ->
  Q it (taken_state s id it i) ->
  wp (let! nxt := field_of next (slots (cls s id)) in
      set_cls id (fun c => with_free nxt (sl_curr c) c) ;;
      when (negb (nxt =? 0)) (store nxt (set_prev 0)) ;;
      store (slots (cls s id)) (clear_flags ITEM_SLABBED) ;;
      store (slots (cls s id)) (set_refcount 1) ;;
      set_cls id (fun c => with_free (slots c) (sl_curr c - 1) c) ;;
      ret (slots (cls s id))) Q s.
Proof.
  intros E Hn Hne -> HQ. apply wp_bind. eapply wp_field_of; [done|]. apply wp_bind, wp_modify. apply wp_bind.
  set (s1 := with_slb _ s).
  set (h1 := if next i =? 0 then heap s else alter (set_prev 0) (next i) (heap s)).
  assert (forall R : unit -> mc -> Prop, R tt (with_heap h1 s1) ->
            wp (when (negb (next i =? 0)) (store (next i) (set_prev 0))) R s1) as Hw.
  { intros R HR. unfold h1 in HR. destruct (Z.eqb_spec (next i) 0) as [Hz|Hz]; cbn [negb when].
    - apply wp_ret. by destruct s.
    - destruct (Hn Hz) as [ix Ex]. eapply wp_store; [exact Ex|]. by rewrite (alter_Some _ _ _ ix) in HR. }
  apply Hw. assert (heap (with_heap h1 s1) !! it = Some i) as E1.
  { cbn. unfold h1. case_match; [done|]. by rewrite lookup_alter_ne. }
  apply wp_bind. eapply wp_store; [exact E1|]. apply wp_bind.
  eapply wp_store; [cbn; by rewrite lookup_insert_eq|]. apply wp_bind, wp_modify, wp_ret.
  cbn [heap with_heap]. rewrite insert_insert_eq.
  match goal with |- Q it ?s' => assert (s' = taken_state s id it i) as -> end; [|done].
  unfold taken_state, update_cls, cls, with_slb, with_heap, with_slabclass. cbn.
  by rewrite lookup_insert_eq, insert_insert_eq.
Qed.

(** What an allocation promises: a free chunk of the class or one of a new page, the
    items in use untouched, and NULL only when the free list is empty. *)
Definition alloc_post (F : Z -> list Z) (s : mc) (id r : Z) (s' : mc) : Prop :=
  exists F', slabs_inv F' s' /\ alloc_frame s s' /\
    n_slabs (cls s' id) <= list_size (cls s' id) /\
    (forall x, is_Some (heap s !! x) -> x ∉ F id -> heap s' !! x = heap s !! x) /\
    (forall id' x, x ∈ F' id' -> x ∈ F id' \/ heap s !! x = None) /\
    (forall id', used F' s' id' = used F s id' + (if (r =? 0) || negb (id' =? id) then 0 else 1)) /\
    (forall id', r ∉ F' id') /\ (forall id', id' <> id -> cls s' id' = cls s id' /\ F' id' = F id') /\
    (forall x, is_Some (heap s' !! x) -> (exists id', x ∈ F' id') \/ x = r /\ r <> 0 \/ is_Some (heap s !! x) /\ x ∉ F id) /\
    (if r =? 0 then F' id = [] else fresh_chunk s s' F id r).

(** The part of [do_slabs_alloc] after a page may have been added. *)
Lemma take_post F s id :
  slabs_inv F s -> POWER_SMALLEST <= id -> n_slabs (cls s id) <= list_size (cls s id) ->
  wp (if negb (sl_curr (cls s id) =? 0) then
        let! nxt := field_of next (slots (cls s id)) in
        set_cls id (fun c => with_free nxt (sl_curr c) c) ;;
        when (negb (nxt =? 0)) (store nxt (set_prev 0)) ;;
        store (slots (cls s id)) (clear_flags ITEM_SLABBED) ;;
        store (slots (cls s id)) (set_refcount 1) ;;
        set_cls id (fun c => with_free (slots c) (sl_curr c - 1) c) ;;
        ret (slots (cls s id))
      else ret 0) (alloc_post F s id) s.
Proof.
  intros I Hid Hls. rewrite (si_curr _ _ I). destruct (F id) as [|it l] eqn:El; cbn [length Z.of_nat Z.eqb negb].
  { apply wp_ret. exists F. split_and!; [done|apply alloc_frame_refl|done|done|by left|..].
    - intros id'. cbn [Z.eqb orb]. lia.
    - intros id' H0. by apply (dseg_nonzero _ _ _ _ _ (si_list _ _ I id')).
    - done.
    - intros x Hx. right; right. split; [done|]. rewrite El. set_solver.
    - done. }
  pose proof (si_list _ _ I id) as Hd. rewrite El in Hd. destruct Hd as (Hs & H0 & i & Ei & _ & Hd).
  pose proof (si_nodup _ _ I id) as Hn. rewrite El in Hn. apply NoDup_cons in Hn as [Hni Hn].
  assert (next i ∈ l \/ next i = 0) as Hnx.
  { apply dseg_head in Hd as Hh. destruct l; cbn in Hh; [by right|]. left. rewrite Hh. set_solver. }
  apply (take_run s id it i); [done| |destruct Hnx as [Hnx|Hnx]; [by intros <-|congruence]|done|].
  { intros Hz. destruct Hnx as [Hnx|?]; [|done]. by eapply dseg_dom. }
  destruct (si_item _ _ I id it ltac:(rewrite El; set_solver)) as (i2 & Ei2 & Hf & Hc & Hch).
  assert (i2 = i) as -> by congruence.
  exists (updF id l F). split_and!.
  - by apply take_inv.
  - apply (free_alloc_frame id); [unfold POWER_SMALLEST in *; lia|]. apply same_but_free_update.
  - unfold taken_state. rewrite cls_update, decide_True by done. done.
  - intros x _ Hx. cbn. rewrite lookup_insert_ne by (rewrite El in Hx; set_solver).
    destruct (Z.eqb_spec (next i) 0); [done|]. rewrite lookup_alter_ne; [done|]. intros <-.
    apply Hx. rewrite El. destruct Hnx; [set_solver|done].
  - intros id' x Hx. left. unfold updF in Hx. case_decide; [subst; rewrite El; set_solver|done].
  - intros id'. unfold used, taken_state. rewrite cls_update. rewrite (proj2 (Z.eqb_neq it 0)) by done. cbn [orb].
    unfold updF. destruct (Z.eqb_spec id' id) as [->|Hne]; cbn [negb].
    + rewrite !decide_True, El by done. unfold n_slabs. cbn [with_free perslab slab_list length]. lia.
    + rewrite !decide_False, cls_heap by done. lia.
  - intros id' Hx. unfold updF in Hx. case_decide as Hd'; [by subst|]. destruct Hd'.
    apply (free_disjoint F s id' id it I Hx). rewrite El. set_solver.
  - intros id' Hne. unfold taken_state. by rewrite cls_update, decide_False, updF_other.
  - intros x Hx. destruct (decide (x = it)) as [->|Hxi]; [by right; left|].
    cbn in Hx. rewrite lookup_insert_ne in Hx by done.
    assert (is_Some (heap s !! x)) as Hxs by (case_match; [done|by apply lookup_alter_is_Some in Hx]).
    destruct (decide (x ∈ l)) as [Hxl|Hxl]; [left; exists id; by rewrite updF_same|].
    right; right. split; [done|]. rewrite El. set_solver.
  - rewrite (proj2 (Z.eqb_neq it 0)) by done. split; [done|]. split; [left; rewrite El; set_solver|].
    eexists. cbn. rewrite lookup_insert_eq. split; [done|]. split; [done|].
    split; [cbn; by rewrite Hf|]. split; [done|]. unfold chunk_of, taken_state in *.
    rewrite cls_update, decide_True by done. done.
Qed.

(** An allocation from the chunks of a new page, seen from before the page was added. *)
Lemma alloc_post_page F s id s1 ptr r s' :
  F id = [] -> 0 <= perslab (cls s id) ->
  (let ch := chunk_list (Z.to_nat (perslab (cls s id))) ptr (sc_size (cls s id)) in
   alloc_frame s s1 /\ (forall id', id' <> id -> cls s1 id' = cls s id') /\
   slab_list (cls s1 id) = slab_list (cls s id) ++ [ptr] /\
   (forall x, x ∈ ch -> heap s !! x = None) /\
   (forall x, x ∉ ch -> x ∉ F id -> heap s1 !! x = heap s !! x) /\
   alloc_post (updF id (rev ch ++ F id) F) s1 id r s') ->
  alloc_post F s id r s'.
Proof.
  intros El Hper (A1 & K1 & Hpg & Hfr & Hout & F' & I' & A' & L' & O' & M' & U' & R' & K' & V' & Hcase).
  set (ch := chunk_list _ _ _) in *.
  assert (forall x, x ∈ rev ch ++ F id <-> x ∈ ch) as Hrev
    by (intros x; by rewrite El, app_nil_r, list_elem_of_In, <- in_rev, <- list_elem_of_In).
  assert (forall x, heap s1 !! x = None \/ x ∈ ch -> heap s !! x = None) as Hnone.
  { intros x Hx. destruct (decide (x ∈ ch)) as [Hxc|Hxc]; [by apply Hfr|].
    destruct Hx as [Hx|]; [|done]. rewrite <- (Hout x Hxc); [done|]. rewrite El. set_solver. }
  exists F'. split_and!; [done|by eapply alloc_frame_trans|done|..].
  - intros x Hx Hxf. assert (x ∉ ch) as Hxc by (intros Hc; rewrite Hfr in Hx by done; by destruct Hx).
    specialize (Hout x Hxc Hxf). rewrite O'; [done|by rewrite Hout|]. by rewrite updF_same, Hrev.
  - intros id' x Hx. apply M' in Hx as [Hx|Hx]; [|right; apply Hnone; by left].
    unfold updF in Hx. case_decide; [|by left]. right. apply Hnone. right. by apply Hrev.
  - intros id'. rewrite U'. f_equal. unfold used, n_slabs. destruct (decide (id' = id)) as [->|Hne].
    + destruct A1 as (P1 & _). destruct (P1 id) as [_ ->]. rewrite updF_same, El, app_nil_r, Hpg, length_app.
      rewrite length_rev. cbn [length].
      assert (length ch = Z.to_nat (perslab (cls s id))) as -> by apply length_chunk_list. nia.
    + rewrite updF_other, K1 by done. done.
  - done.
  - intros id' Hne. destruct (K' id' Hne) as [-> ->]. by rewrite K1, updF_other.
  - intros x Hx. destruct (V' x Hx) as [?|[?|[Hx1 Hx2]]]; [by left|by right; left|]. right; right.
    rewrite updF_same, Hrev in Hx2. assert (x ∉ F id) by (rewrite El; set_solver). by rewrite Hout in Hx1.
  - case_match; [done|]. destruct Hcase as (R0 & RF & Hi). split; [done|]. split; [|done].
    destruct RF as [RF|RF]; right; apply Hnone; [right|by left]. rewrite updF_same in RF. by apply Hrev.
Qed.

Lemma slabs_alloc_spec F s sz id no_newpage :
  slabs_inv F s -> normal s -> class_ok cfg (cls s id) -> POWER_SMALLEST <= id <= power_largest (slb s) ->
  sz <= sc_size (cls s id) ->
  wp (do_slabs_alloc cfg malloc_result sz id no_newpage) (alloc_post F s id) s.
Proof using malloc_fresh.
  intros I N C Hid Hsz. unfold do_slabs_alloc. apply wp_bind, wp_gets.
  replace ((id <? POWER_SMALLEST) || (power_largest (slb s) <? id)) with false by lia.
  apply wp_bind, wp_gets. apply wp_bind.
  assert (forall R : unit -> mc -> Prop, R tt s ->
    wp (if ndebug cfg then ret tt
        else if sl_curr (cls s id) =? 0 then ret tt
        else let! f := field_of it_flags (slots (cls s id)) in cassert cfg (has f ITEM_SLABBED)) R s) as Ha.
  { intros R HR. destruct (ndebug cfg); [by apply wp_ret|]. destruct (Z.eqb_spec (sl_curr (cls s id)) 0); [by apply wp_ret|].
    rewrite (si_curr _ _ I) in n. pose proof (si_list _ _ I id) as Hd.
    destruct (F id) as [|it l] eqn:El; [done|]. destruct Hd as (-> & _).
    destruct (si_item _ _ I id it ltac:(rewrite El; set_solver)) as (i & Ei & Hf & _).
    apply wp_bind. eapply wp_field_of; [done|]. rewrite Hf. by apply wp_cassert. }
  apply Ha. apply wp_bind. apply wp_cassert; [lia|]. apply wp_bind.
  pose proof C as (C1 & C2 & C3 & C4).
  destruct ((sl_curr (cls s id) =? 0) && negb no_newpage) eqn:Ec; cbn [when].
  2: { apply wp_ret. apply wp_bind, wp_gets. apply take_post; [done|lia|done]. }
  apply andb_prop in Ec as [Ec _]. rewrite (si_curr _ _ I) in Ec.
  destruct (F id) as [|? ?] eqn:El; [|done].
  apply wp_bind. eapply wp_mono; [|by apply (newslab_spec F)]. intros r s1 Hpage.
  apply wp_ret. apply wp_bind, wp_gets. destruct r.
  - destruct Hpage as (A1 & L1 & K1 & ptr & I1 & Hp).
    eapply wp_mono; [|apply (take_post _ s1 id I1); [lia|done]].
    intros r s' Hr. apply (alloc_post_page F s id s1 ptr); [done|lia|]. cbv zeta. tauto.
  - destruct Hpage as (A1 & L1 & K1 & I1 & H1 & Hpg).
    eapply wp_mono; [|apply (take_post F s1 id I1); [lia|done]].
    intros r s' (F' & I' & A' & L' & O' & M' & U' & R' & K' & V' & Hcase).
    exists F'. rewrite H1 in *. split_and!; [done|by eapply alloc_frame_trans|done|done|done| |done| | |].
    + intros id'. rewrite U'. f_equal. unfold used, n_slabs. destruct (decide (id' = id)) as [->|Hne].
      * destruct A1 as (P1 & _). destruct (P1 id) as [_ ->]. by rewrite Hpg.
      * by rewrite K1.
    + intros id' Hne. destruct (K' id' Hne) as [-> ->]. by rewrite K1.
    + done.
    + case_match; [done|]. destruct Hcase as (R0 & RF & Hi). split; [done|]. rewrite H1 in RF. done.
Qed.
End Alloc.
