(* ===== verification/McSlabRun.v ===== *)
(** * memcached: runs of the slab allocator

    The class table that [slabs_init] builds, the class that [slabs_clsid] chooses, and
    what any sequence of allocations and frees leaves: each chunk has at most one owner,
    and the chunks of the pages of a class are its free ones and those handed out. *)

From stdpp Require Import gmap.
From S2P Require Import Prelude Wire McHash McItem McLists McSlabs McAlloc.

(** ** The classes *)

(** A class as [slabs_init] leaves it. *)
Definition new_class (cfg : settings) (c : slabclass_t) : Prop :=
  sizeof_item <= sc_size c /\ perslab c = slab_page_size cfg / sc_size c /\
  slots c = 0 /\ sl_curr c = 0 /\ slab_list c = [] /\ list_size c = 0.

Lemma new_class_ok cfg c : 0 <= slab_page_size cfg -> new_class cfg c -> class_ok cfg c.
Proof.
  intros Hp (H1 & H2 & _ & _ & H3 & H4). unfold class_ok, n_slabs. rewrite H2, H3, H4. cbn.
  unfold sizeof_item in *. split_and!; [lia|apply Z.div_pos; lia| |lia]. apply Z.mul_div_le. lia.
Qed.

Lemma align_size_le x : x <= align_size x.
Proof. unfold align_size, CHUNK_ALIGN_BYTES. case_match; [lia|]. pose proof (Z.mod_pos_bound x 8). lia. Qed.

Section Classes.
Context (cfg : settings) (grow : Z -> Z) (too_big : Z -> bool).
Hypothesis grow_le : forall x, x <= grow x.

Lemma class_loop_spec n i size m m' i' :
  sizeof_item <= size -> class_loop cfg n None grow too_big i size m = (m', i') ->
  i <= i' <= i + Z.of_nat n /\ (forall id, id < i -> m' !! id = m !! id) /\
  (forall id, i' <= id -> m' !! id = m !! id) /\
  (forall id, i <= id < i' -> exists c, m' !! id = Some c /\ new_class cfg c).
Proof using grow_le.
  revert i size m. induction n as [|n IH]; intros i size m Hs; cbn.
  { intros [= -> ->]. split_and!; [lia..|done|done|lia]. }
  destruct (too_big size). { intros [= -> ->]. split_and!; [lia..|done|done|lia]. }
  intros E. pose proof (align_size_le size) as Ha. pose proof (grow_le (align_size size)) as Hg.
  apply IH in E as (H1 & H2 & H3 & H4); [|lia]. split_and!; [lia..| | |].
  - intros id Hid. rewrite H2 by lia. rewrite lookup_insert_ne by lia. done.
  - intros id Hid. rewrite H3 by lia. rewrite lookup_insert_ne by lia. done.
  - intros id Hid. destruct (decide (id = i)) as [->|].
    + rewrite H2 by lia. rewrite lookup_insert_eq. eexists. split; [done|].
      unfold new_class. cbn. unfold sizeof_item in *. split_and!; try done. lia.
    + apply H4. lia.
Qed.

(** The table that [slabs_init] computes. *)
Lemma init_classes_spec m largest :
  0 <= chunk_size cfg -> sizeof_item <= slab_chunk_size_max cfg ->
  init_classes cfg None grow too_big = (m, largest) ->
  POWER_SMALLEST <= largest < MAX_NUMBER_OF_SLAB_CLASSES /\
  (forall id, (id < POWER_SMALLEST \/ largest < id) -> m !! id = None) /\
  (forall id, POWER_SMALLEST <= id <= largest -> exists c, m !! id = Some c /\ new_class cfg c) /\
  sc_size (default empty_class (m !! largest)) = slab_chunk_size_max cfg.
Proof using grow_le.
  intros Hc Hm. unfold init_classes. destruct (class_loop _ _ _ _ _ _ _ _) as [m0 i] eqn:E.
  intros [= <- <-]. apply class_loop_spec in E as (H1 & H2 & H3 & H4); [|lia].
  unfold POWER_SMALLEST, MAX_NUMBER_OF_SLAB_CLASSES in *. split_and!; [lia|lia| | |].
  - intros id Hid. rewrite lookup_insert_ne by lia. destruct Hid; [rewrite H2 by lia|rewrite H3 by lia]; done.
  - intros id Hid. destruct (decide (id = i)) as [->|]; [|rewrite lookup_insert_ne by lia; apply H4; lia].
    rewrite lookup_insert_eq. eexists. split; [done|]. by unfold new_class.
  - by rewrite lookup_insert_eq.
Qed.
End Classes.

(** ** The class of a size *)
Lemma clsid_loop_spec s sz n res :
  sz <= sc_size (cls s (power_largest (slb s))) -> res + Z.of_nat n = power_largest (slb s) + 1 ->
  res <= power_largest (slb s) ->
  (forall id, POWER_SMALLEST <= id < res -> sc_size (cls s id) < sz) ->
  let id := clsid_loop n s sz res in
  res <= id <= power_largest (slb s) /\ sz <= sc_size (cls s id) /\
  (forall id', POWER_SMALLEST <= id' < id -> sc_size (cls s id') < sz).
Proof.
  intros Hsz. revert res. induction n as [|n IH]; intros res Hn Hres Hlow; cbn; [lia|].
  destruct (Z.ltb_spec (sc_size (cls s res)) sz) as [Hlt|Hge]; [|split_and!; [lia..|done]].
  destruct (Z.eqb_spec res (power_largest (slb s))) as [->|Hne]; [lia|].
  destruct (IH (res + 1)) as (H1 & H2 & H3); [lia..| |].
  - intros id Hid. destruct (decide (id = res)) as [->|]; [done|apply Hlow; lia].
  - split_and!; [lia..|done|done].
Qed.

(** The first class whose chunks hold [sz] bytes. *)
Definition first_fit (s : mc) (sz id : Z) : Prop :=
  POWER_SMALLEST <= id <= power_largest (slb s) /\ sz <= sc_size (cls s id) /\
  (forall id', POWER_SMALLEST <= id' < id -> sc_size (cls s id') < sz).

(** What stays fixed once the allocator has been started. *)
Definition ready (cfg : settings) (s : mc) : Prop :=
  normal s /\ POWER_SMALLEST <= power_largest (slb s) < MAX_NUMBER_OF_SLAB_CLASSES /\
  (forall id, POWER_SMALLEST <= id <= power_largest (slb s) -> class_ok cfg (cls s id)) /\
  sc_size (cls s (power_largest (slb s))) = slab_chunk_size_max cfg /\
  slab_chunk_size_max cfg <= item_size_max cfg.

Lemma clsid_first_fit cfg s sz :
  ready cfg s -> 0 < sz <= slab_chunk_size_max cfg -> first_fit s sz (slabs_clsid cfg s sz).
Proof.
  intros (_ & Hp & _ & Hl & Hm) Hsz. unfold slabs_clsid.
  replace ((sz =? 0) || (item_size_max cfg <? sz)) with false by lia. unfold POWER_SMALLEST in *.
  apply clsid_loop_spec; unfold POWER_SMALLEST; lia.
Qed.

Lemma clsid_loop_frame s s' sz n res :
  alloc_frame s s' -> clsid_loop n s' sz res = clsid_loop n s sz res.
Proof.
  intros (Hc & Hp & _). revert res. induction n as [|n IH]; intros res; cbn; [done|].
  destruct (Hc res) as [-> _]. rewrite Hp. by rewrite IH.
Qed.

Lemma clsid_frame cfg s s' sz : alloc_frame s s' -> slabs_clsid cfg s' sz = slabs_clsid cfg s sz.
Proof.
  intros A. unfold slabs_clsid. rewrite (clsid_loop_frame s s') by done.
  destruct A as (_ & -> & _). done.
Qed.

(** ** Runs *)
Inductive slab_op :=
  | SAlloc (sz : Z)
  | SFree (k : nat).

(** Sizes above [slab_chunk_size_max] are split by the caller. *)
Definition op_ok (cfg : settings) (op : slab_op) : bool :=
  match op with SAlloc sz => (0 <? sz) && (sz <=? slab_chunk_size_max cfg) | SFree _ => true end.

Section Run.
Context (cfg : settings) (malloc_result : mc -> Z -> Z).
Hypothesis malloc_fresh : forall s sz, malloc_result s sz <> 0 -> fresh_block s (malloc_result s sz) sz.

(** The chunks in use, with the size that was asked for: an allocation the way its callers
    make one, and the free of the [k]-th chunk in use. *)
Definition slab_step (op : slab_op) (held : list (Z * Z)) : M mc (list (Z * Z)) :=
  match op with
  | SAlloc sz =>
      let! id := gets (fun s => slabs_clsid cfg s sz) in
      let! r := slabs_alloc cfg malloc_result sz id false in
      ret (if r =? 0 then held else (r, sz) :: held)
  | SFree k =>
      match held !! k with
      | None => ret held
      | Some (p, sz) =>
          let! id := gets (fun s => slabs_clsid cfg s sz) in
          slabs_free cfg p id ;;
          ret (delete k held)
      end
  end.

Fixpoint slab_run (ops : list slab_op) (held : list (Z * Z)) : M mc (list (Z * Z)) :=
  match ops with
  | [] => ret held
  | op :: ops' => let! held' := slab_step op held in slab_run ops' held'
  end.

(** A chunk in use. *)
Definition in_use (F : Z -> list Z) (s : mc) (p sz : Z) : Prop :=
  p <> 0 /\ (forall id, p ∉ F id) /\ 0 < sz <= slab_chunk_size_max cfg /\
  exists i, heap s !! p = Some i /\ has (it_flags i) ITEM_CHUNKED = false /\
    McItem.slabs_clsid i = slabs_clsid cfg s sz /\ chunk_of s (slabs_clsid cfg s sz) i.

Definition of_class (s : mc) (id : Z) (h : Z * Z) : Prop := slabs_clsid cfg s h.2 = id.
#[local] Instance of_class_dec s id h : Decision (of_class s id h).
Proof. unfold of_class. apply _. Defined.

Record slab_state (F : Z -> list Z) (held : list (Z * Z)) (s : mc) : Prop := {
  ss_inv : slabs_inv F s;
  ss_ready : ready cfg s;
  ss_nodup : NoDup held.*1;
  ss_held : forall p sz, (p, sz) ∈ held -> in_use F s p sz;
  ss_count : forall id, POWER_SMALLEST <= id <= power_largest (slb s) ->
    used F s id = Z.of_nat (length (filter (of_class s id) held));
}.

Lemma class_ok_frame s s' id :
  alloc_frame s s' -> n_slabs (cls s' id) <= list_size (cls s' id) ->
  class_ok cfg (cls s id) -> class_ok cfg (cls s' id).
Proof. intros (Hc & _) Hn (H1 & H2 & H3 & H4). unfold class_ok. destruct (Hc id) as [-> ->]. done. Qed.

Lemma chunk_of_frame s s' id i : alloc_frame s s' -> chunk_of s' id i <-> chunk_of s id i.
Proof. intros (Hc & _). unfold chunk_of. destruct (Hc id) as [-> _]. done. Qed.

Lemma ready_frame s s' :
  alloc_frame s s' -> ready cfg s ->
  (forall id, POWER_SMALLEST <= id <= power_largest (slb s) -> n_slabs (cls s' id) <= list_size (cls s' id)) ->
  ready cfg s'.
Proof.
  intros A (N & Hp & Hc & Hl & Hm) Hn. assert (power_largest (slb s') = power_largest (slb s)) as E by apply A.
  split; [by eapply normal_frame|]. rewrite E. split; [done|]. split.
  { intros id Hid. apply (class_ok_frame s); auto. }
  split; [|done]. rewrite <- Hl. by destruct A as (Hc' & _), (Hc' (power_largest (slb s))).
Qed.

Lemma in_use_frame F F' s s' p sz :
  alloc_frame s s' -> (forall id, p ∉ F' id) -> heap s' !! p = heap s !! p -> in_use F s p sz -> in_use F' s' p sz.
Proof.
  intros A HF Hh (H0 & _ & Hsz & i & Hi & Hch & Hcl & Hc). split; [done|]. split; [done|]. split; [done|].
  exists i. rewrite (clsid_frame cfg s s') by done. rewrite Hh, (chunk_of_frame s s') by done. done.
Qed.

Lemma filter_class_frame s s' id (held : list (Z * Z)) :
  alloc_frame s s' -> filter (of_class s' id) held = filter (of_class s id) held.
Proof. intros A. apply list_filter_iff. intros [p sz]. unfold of_class. by rewrite (clsid_frame cfg s s'). Qed.

(** An allocation, in use from now on unless it is NULL, which it is only when the class
    has no free chunk left. *)
Lemma slab_alloc_step F held s sz :
  slab_state F held s -> 0 < sz <= slab_chunk_size_max cfg ->
  let id := slabs_clsid cfg s sz in
  wp (slabs_alloc cfg malloc_result sz id false)
     (fun r s' => exists F', slab_state F' (if r =? 0 then held else (r, sz) :: held) s' /\
        alloc_frame s s' /\ (r = 0 -> F' id = [])) s.
Proof using malloc_fresh.
  intros SS Hsz id. destruct (clsid_first_fit cfg s sz (ss_ready _ _ _ SS) Hsz) as (Hid & Hfit & _). fold id in Hid, Hfit.
  pose proof (ss_ready _ _ _ SS) as (N & Hp & Hc & _).
  eapply wp_mono; [|by apply (slabs_alloc_spec cfg malloc_result malloc_fresh F); [apply SS|apply N|apply Hc| |]].
  intros r s' (F' & I' & A' & L' & O' & M' & U' & R' & K' & V' & Hcase). exists F'.
  split; [|split; [done|by intros ->]].
  assert (forall p sz', (p, sz') ∈ held -> in_use F' s' p sz') as Hold.
  { intros p sz' Hh. destruct (ss_held _ _ _ SS p sz' Hh) as (H0 & HF & Hs' & i & Hi & Hrest).
    apply (in_use_frame F F' s s'); [done| |apply O'; [by eexists|done]|by eapply ss_held].
    intros id' Hx. apply M' in Hx as [Hx|Hx]; [by eapply HF|congruence]. }
  assert (power_largest (slb s') = power_largest (slb s)) as Epl by apply A'.
  assert (ready cfg s') as Rd.
  { apply (ready_frame s); [done|apply SS|]. intros id' Hid'. destruct (decide (id' = id)) as [->|Hne]; [done|].
    rewrite (proj1 (K' _ Hne)). by apply Hc. }
  destruct (Z.eqb_spec r 0) as [->|Hr].
  - constructor; [done|done|apply SS|done|]. intros id' Hid'. rewrite U'. cbn [Z.eqb orb].
    rewrite (filter_class_frame s s'), (ss_count _ _ _ SS) by (done || lia). lia.
  - destruct Hcase as (R0 & RF & i & Ei & Href & Hfl & Hcl & Hch). constructor; [done|done| | |].
    + cbn. constructor; [|apply SS]. intros Hx. apply list_elem_of_fmap in Hx as ([p sz'] & -> & Hx). cbn in *.
      destruct (ss_held _ _ _ SS p sz' Hx) as (_ & HF & _ & ip & Hip & _). destruct RF as [RF|RF]; [by eapply HF|congruence].
    + intros p sz' Hx. apply elem_of_cons in Hx as [[= -> ->]|Hx]; [|by apply Hold].
      split; [done|]. split; [done|]. split; [done|]. exists i. rewrite (clsid_frame cfg s s') by done. by rewrite Hfl.
    + intros id' Hid'. rewrite U', (ss_count _ _ _ SS), (filter_class_frame s s') by (done || lia).
      cbn [orb]. rewrite filter_cons.
      unfold of_class at 2. cbn. destruct (Z.eqb_spec id' id) as [->|Hne].
      * rewrite decide_True by done. cbn. lia.
      * rewrite decide_False by (intros <-; by apply Hne). cbn. lia.
Qed.

Lemma slab_free_step F held s k p sz :
  slab_state F held s -> held !! k = Some (p, sz) ->
  wp (slabs_free cfg p (slabs_clsid cfg s sz)) (fun _ s' => exists F', slab_state F' (delete k held) s') s.
Proof using malloc_fresh.
  intros SS Hk. set (id := slabs_clsid cfg s sz).
  destruct (ss_held _ _ _ SS p sz ltac:(by eapply list_elem_of_lookup_2)) as (H0 & HF & Hsz & i & Hi & Hch & Hcl & Hc).
  destruct (clsid_first_fit cfg s sz (ss_ready _ _ _ SS) Hsz) as (Hid & _). fold id in Hid, Hc.
  eapply wp_mono; [|by apply (slabs_free_spec cfg F s p i id); [apply SS|..]].
  intros _ s' (I' & Same & O' & _). exists (updF id (p :: F id) F).
  pose proof (free_alloc_frame id s s' ltac:(unfold POWER_SMALLEST in *; lia) Same) as A'.
  destruct Same as (S1 & (sl & n & S2) & _).
  pose proof (delete_take_drop held k) as Edel. pose proof (take_drop_middle held k _ Hk) as Eh.
  assert (forall x sz', (x, sz') ∈ delete k held -> (x, sz') ∈ held /\ x <> p) as Hdel.
  { intros x sz' Hx. pose proof (ss_nodup _ _ _ SS) as Hn. rewrite <- Eh, fmap_app, fmap_cons in Hn. cbn in Hn.
    apply NoDup_app in Hn as (_ & Hd & Hn). apply NoDup_cons in Hn as [Hn _]. rewrite Edel in Hx.
    split; [rewrite <- Eh; set_solver|]. intros ->. apply elem_of_app in Hx as [Hx|Hx].
    - apply (Hd p); [|set_solver]. apply list_elem_of_fmap. by exists (p, sz').
    - apply Hn. apply list_elem_of_fmap. by exists (p, sz'). }
  assert (power_largest (slb s') = power_largest (slb s)) as Epl by apply A'.
  constructor; [done| | | |].
  - apply (ready_frame s); [done|apply SS|]. intros id' Hid'. destruct (ss_ready _ _ _ SS) as (_ & _ & Hok & _).
    destruct (Hok id' Hid') as (_ & _ & _ & Hok'). destruct (decide (id' = id)) as [->|]; [by rewrite S2|by rewrite S1].
  - pose proof (ss_nodup _ _ _ SS) as Hn. rewrite <- Eh, fmap_app, fmap_cons in Hn. rewrite Edel, fmap_app.
    eapply sublist_NoDup; [exact Hn|]. by apply sublist_app, sublist_cons.
  - intros x sz' Hx. apply Hdel in Hx as [Hx Hxp]. pose proof (ss_held _ _ _ SS x sz' Hx) as Hu.
    assert (forall id', x ∉ F id') as HxF by apply Hu.
    apply (in_use_frame F _ s s'); [done| |apply O'; auto|done].
    intros id'. unfold updF. case_decide; [|apply HxF]. intros Hin. apply elem_of_cons in Hin as [|Hin]; [done|by eapply HxF].
  - intros id' Hid'. rewrite Epl in Hid'. pose proof (ss_count _ _ _ SS id' Hid') as Hcnt.
    rewrite (filter_class_frame s s') by done. rewrite Edel. rewrite <- Eh, filter_app, filter_cons in Hcnt.
    rewrite filter_app. rewrite length_app in *. unfold used, n_slabs in *. unfold of_class at 2 in Hcnt. cbn in Hcnt.
    destruct (decide (id' = id)) as [->|Hne].
    + rewrite decide_True in Hcnt by done. rewrite S2, updF_same. cbn [with_free perslab slab_list length] in *. lia.
    + rewrite decide_False in Hcnt by (intros <-; by apply Hne). rewrite S1, updF_other by done. lia.
Qed.

Lemma slab_run_spec ops F held s :
  slab_state F held s -> forallb (op_ok cfg) ops = true ->
  wp (slab_run ops held) (fun held' s' => exists F', slab_state F' held' s') s.
Proof using malloc_fresh.
  revert F held s. induction ops as [|op ops IH]; intros F held s SS Hok; cbn [slab_run].
  { apply wp_ret. by exists F. }
  cbn in Hok. apply andb_prop in Hok as [Hop Hok]. apply wp_bind.
  apply (wp_mono _ (fun held' s' => exists F', slab_state F' held' s'));
    [intros held' s' [F' SS']; by apply (IH F')|]. destruct op as [sz|k]; cbn in *.
  - apply wp_bind, wp_gets, wp_bind. eapply wp_mono; [|apply (slab_alloc_step F held s sz SS); lia].
    intros r s' (F' & SS' & _). apply wp_ret. by exists F'.
  - destruct (held !! k) as [[p sz]|] eqn:Hk; [|apply wp_ret; by exists F].
    apply wp_bind, wp_gets, wp_bind. eapply wp_mono; [|by apply (slab_free_step F held s k p sz)].
    intros _ s' [F' SS']. apply wp_ret. by exists F'.
Qed.

(** The state that [slabs_init] leaves, without preallocation. *)
Lemma slabs_init_spec limit grow too_big env s :
  (forall x, x <= grow x) -> 0 <= chunk_size cfg -> 0 <= slab_page_size cfg ->
  sizeof_item <= slab_chunk_size_max cfg <= item_size_max cfg -> mem_base (slb s) = 0 ->
  wp (slabs_init cfg malloc_result limit grow too_big false None 0 0 false env)
     (fun _ s' => slab_state (fun _ => []) [] s' /\ with_slb (slb s) s' = s) s.
Proof using.
  intros Hg Hc Hp Hm Hb. unfold slabs_init. destruct (init_classes _ _ _ _) as [m largest] eqn:E.
  cbn [negb andb Z.eqb when]. apply wp_bind, wp_modify, wp_ret.
  destruct (init_classes_spec cfg grow too_big Hg m largest Hc (proj1 Hm) E) as (Hl & Hout & Hin & Hlast).
  set (s' := with_slb _ s). split; [|by destruct s].
  assert (forall id, slots (cls s' id) = 0 /\ sl_curr (cls s' id) = 0 /\ slab_list (cls s' id) = []) as Hnew.
  { intros id. unfold cls, s'. cbn. destruct (m !! id) as [c|] eqn:Em; [|done].
    destruct (Hin id) as (c' & Hc' & Hn); [|assert (c' = c) as -> by congruence; cbn; by destruct Hn as (_ & _ & ? & ? & ? & _)].
    destruct (decide (POWER_SMALLEST <= id <= largest)); [done|]. rewrite Hout in Em by lia. done. }
  constructor.
  - constructor; try (intros id p Hp'; by apply not_elem_of_nil in Hp').
    + intros id. by destruct (Hnew id) as (-> & _).
    + intros id. by destruct (Hnew id) as (_ & -> & _).
    + intros id. constructor.
  - split; [split; [done|by destruct (Hnew SLAB_GLOBAL_PAGE_POOL) as (_ & _ & ->)]|]. cbn [power_largest slb s' with_slb].
    split; [lia|]. split; [|split; [done|lia]]. intros id Hid. destruct (Hin id Hid) as (c & Hcc & Hn).
    apply new_class_ok; [done|]. unfold cls, s'. cbn. by rewrite Hcc.
  - constructor.
  - intros p sz Hx. by apply not_elem_of_nil in Hx.
  - intros id _. unfold used, n_slabs. by destruct (Hnew id) as (_ & _ & ->).
Qed.

End Run.

(** ** A witness *)

(** An allocator that never reuses memory. *)
Definition top (h : gmap Z item) : Z := foldr Z.max 0 (map_to_list h).*1.

Definition bump_malloc (s : mc) (sz : Z) : Z := top (heap s) + Z.max sz (2 ^ 21).

Lemma top_max h x i : h !! x = Some i -> x <= top h.
Proof.
  intros E. unfold top. assert (x ∈ (map_to_list h).*1) as Hx
    by (apply list_elem_of_fmap; exists (x, i); split; [done|by apply elem_of_map_to_list]).
  induction (map_to_list h).*1 as [|y l IH]; [by apply not_elem_of_nil in Hx|].
  apply elem_of_cons in Hx as [->|Hx]; cbn; [lia|]. specialize (IH Hx). lia.
Qed.

Lemma top_nonneg h : 0 <= top h.
Proof. unfold top. induction (map_to_list h).*1; cbn; lia. Qed.

Lemma bump_fresh s sz : fresh_block s (bump_malloc s sz) sz.
Proof.
  unfold bump_malloc. pose proof (top_nonneg (heap s)). split; [lia|]. intros x Hx.
  destruct (heap s !! x) as [i|] eqn:E; [|done]. apply top_max in E. lia.
Qed.

Definition empty_mc : mc :=
  {| heap := ∅; tab := {| hashpower := 16; primary_hashtable := ∅; old_hashtable := ∅; expanding := false;
                          expand_bucket := 0 |};
     slb := {| slabclass := ∅; mem_limit := 0; mem_malloced := 0; mem_limit_reached := false; power_largest := 0;
               mem_base := 0; mem_current := 0; mem_avail := 0; mallocs := 0 |};
     lru := {| heads := ∅; tails := ∅; sizes := ∅; sizes_bytes := ∅ |};
     rebal := no_rebal; bumps := []; trylocks := 0; cas_id := 0; current_time := 0; curr_items := 0; curr_bytes := 0 |}.

(** [size *= 1.25] and [size >= slab_chunk_size_max / 1.25] *)
Definition grow_125 (x : Z) : Z := Z.max x (x * 5 / 4).
Definition too_big_125 (x : Z) : bool := 512 * 1024 * 4 / 5 <=? x.

