(* ===== verification/McItems.v ===== *)
(** * memcached: the items

    src/sw/apps/memcached/memcached/items.c: allocation of an item, its links in the hash
    table and in the LRU queues, look-ups, eviction and the work of the LRU maintenance
    thread.  The outcomes of [item_trylock] and of the trylock of the page mover's lock
    are variables, functions of the state (which counts the attempts); storage on disk
    (EXTSTORE) is not configured, and the item size histogram is left out. *)

From S2P Require Import McBip.
From stdpp Require Import gmap.
From S2P Require Import Prelude Wire McHash McItem McAssoc McSlabs.

Definition LRU_PULL_EVICT : Z := 1.
Definition LRU_PULL_CRAWL_BLOCKS : Z := 2.
Definition LRU_PULL_RETURN_ITEM : Z := 4.

Definition head_of (id : Z) (s : mc) : Z := default 0 (heads (lru s) !! id).
Definition tail_of (id : Z) (s : mc) : Z := default 0 (tails (lru s) !! id).
Definition size_of (id : Z) (s : mc) : Z := default 0 (sizes (lru s) !! id).
Definition bytes_of_lru (id : Z) (s : mc) : Z := default 0 (sizes_bytes (lru s) !! id).

Definition set_head (id p : Z) : M mc unit :=
  modify (fun s => with_lru {| heads := <[id := p]> (heads (lru s)); tails := tails (lru s);
                               sizes := sizes (lru s); sizes_bytes := sizes_bytes (lru s) |} s).
Definition set_tail (id p : Z) : M mc unit :=
  modify (fun s => with_lru {| heads := heads (lru s); tails := <[id := p]> (tails (lru s));
                               sizes := sizes (lru s); sizes_bytes := sizes_bytes (lru s) |} s).
(** [sizes[id] += n; sizes_bytes[id] += b;] *)
Definition add_size (id n b : Z) : M mc unit :=
  modify (fun s => with_lru {| heads := heads (lru s); tails := tails (lru s);
                               sizes := <[id := u32 (size_of id s + n)]> (sizes (lru s));
                               sizes_bytes := <[id := u64 (bytes_of_lru id s + b)]> (sizes_bytes (lru s)) |} s).
(** [stats_state.curr_items += n; stats_state.curr_bytes += b;] *)
Definition add_counts (n b : Z) : M mc unit :=
  modify (fun s => with_counts (u64 (curr_items s + n)) (u64 (curr_bytes s + b)) s).

Definition get_cas_id : M mc Z :=
  modify (fun s => with_cas_id (u64 (cas_id s + 1)) s) ;; gets cas_id.

Definition set_cas_id (new_cas : Z) : M mc unit := modify (with_cas_id new_cas).

Section Items.
Context (cfg : settings).
Context (malloc_result : mc -> Z -> Z).
Context (trylock : mc -> Z -> bool) (rebalance_trylock : mc -> bool).

Definition item_trylock (hv : Z) : M mc bool :=
  fun s => Ret (trylock s hv) (with_trylocks (S (trylocks s)) s).

Definition item_is_flushed (it : Z) : M mc bool :=
  let! i := load it in
  let! now := gets current_time in
  let cas := ITEM_get_cas i in
  ret (if (oldest_live cfg =? 0) || (now <? oldest_live cfg) then false
       else (time i <=? oldest_live cfg) ||
            (negb (oldest_cas cfg =? 0) && negb (cas =? 0) && (cas <? oldest_cas cfg))).

(** [nsuffix] and the size *)
Definition item_make_header (nkey flags nbytes : Z) : Z * Z :=
  let nsuffix := if flags =? 0 then 0 else 4 in
  (nsuffix, u64 (sizeof_item + u8 nkey + nsuffix + nbytes)).

Definition item_size_ok (s : mc) (nkey flags nbytes : Z) : bool :=
  if nbytes <? 2 then false
  else
    let '(_, ntotal) := item_make_header (nkey + 1) flags nbytes in
    let ntotal := if use_cas cfg then u64 (ntotal + 8) else ntotal in
    negb (slabs_clsid cfg s ntotal =? 0).

(** ** Queues *)
Definition do_item_link_q (it : Z) : M mc unit :=
  let! i := load it in
  let id := McItem.slabs_clsid i in
  cassert cfg (negb (has (it_flags i) ITEM_SLABBED)) ;;
  let! hd := gets (head_of id) in
  let! tl := gets (tail_of id) in
  cassert cfg (negb (it =? hd)) ;;
  cassert cfg (Bool.eqb (hd =? 0) (tl =? 0)) ;;
  store it (set_prev 0) ;;
  store it (set_next hd) ;;
  when (negb (hd =? 0)) (store hd (set_prev it)) ;;
  set_head id it ;;
  when (tl =? 0) (set_tail id it) ;;
  add_size id 1 (ITEM_ntotal i).

Definition item_link_q (it : Z) : M mc unit := do_item_link_q it.
Definition item_link_q_warm (it : Z) : M mc unit := do_item_link_q it.

Definition do_item_unlink_q (it : Z) : M mc unit :=
  let! i := load it in
  let id := McItem.slabs_clsid i in
  let! hd := gets (head_of id) in
  when (hd =? it) (cassert cfg (prev i =? 0) ;; set_head id (next i)) ;;
  let! tl := gets (tail_of id) in
  when (tl =? it) (cassert cfg (next i =? 0) ;; set_tail id (prev i)) ;;
  cassert cfg (negb (next i =? it)) ;;
  cassert cfg (negb (prev i =? it)) ;;
  when (negb (next i =? 0)) (store (next i) (set_prev (prev i))) ;;
  when (negb (prev i =? 0)) (store (prev i) (set_next (next i))) ;;
  add_size id (-1) (- ITEM_ntotal i).

Definition item_unlink_q (it : Z) : M mc unit := do_item_unlink_q it.

(** ** Freeing, linking and unlinking *)
Definition item_free (it : Z) : M mc unit :=
  let! i := load it in
  cassert cfg (negb (has (it_flags i) ITEM_LINKED)) ;;
  let! hd := gets (head_of (McItem.slabs_clsid i)) in
  let! tl := gets (tail_of (McItem.slabs_clsid i)) in
  cassert cfg (negb (it =? hd)) ;;
  cassert cfg (negb (it =? tl)) ;;
  cassert cfg (refcount i =? 0) ;;
  slabs_free cfg it (ITEM_clsid i).

Definition do_item_remove (it : Z) : M mc unit :=
  let! i := load it in
  cassert cfg (negb (has (it_flags i) ITEM_SLABBED)) ;;
  cassert cfg (0 <? refcount i) ;;
  let! r := refcount_decr it in
  when (r =? 0) (item_free it).

(** Over a warm restart. *)
Definition do_item_link_fixup (it : Z) : M mc unit :=
  let! i := load it in
  let id := McItem.slabs_clsid i in
  assoc_insert it (hash cfg (key_of i)) ;;
  let! i := load it in
  let! hd := gets (head_of id) in
  when ((prev i =? 0) && (hd =? 0)) (set_head id it) ;;
  let! tl := gets (tail_of id) in
  when ((next i =? 0) && (tl =? 0)) (set_tail id it) ;;
  add_size id 1 (i32 (ITEM_ntotal i)) ;;
  add_counts 1 (i32 (ITEM_ntotal i)).

Definition do_item_link (it hv : Z) : M mc Z :=
  let! i := load it in
  cassert cfg (negb (has (it_flags i) (Z.lor ITEM_LINKED ITEM_SLABBED))) ;;
  store it (add_flags ITEM_LINKED) ;;
  let! now := gets current_time in
  store it (set_time now) ;;
  let! i := load it in
  add_counts 1 (ITEM_ntotal i) ;;
  ITEM_set_cas it (if use_cas cfg then get_cas_id else ret 0) ;;
  assoc_insert it hv ;;
  item_link_q it ;;
  refcount_incr it ;;
  ret 1.

(** [do_item_unlink] and [do_item_unlink_nolock] differ in the lock of the queue only. *)
Definition do_item_unlink (it hv : Z) : M mc unit :=
  let! i := load it in
  when (has (it_flags i) ITEM_LINKED)
    (store it (clear_flags ITEM_LINKED) ;;
     let! i := load it in
     add_counts (-1) (- ITEM_ntotal i) ;;
     assoc_delete cfg (key_of i) hv ;;
     item_unlink_q it ;;
     do_item_remove it).

Definition do_item_unlink_nolock (it hv : Z) : M mc unit :=
  let! i := load it in
  when (has (it_flags i) ITEM_LINKED)
    (store it (clear_flags ITEM_LINKED) ;;
     let! i := load it in
     add_counts (-1) (- ITEM_ntotal i) ;;
     assoc_delete cfg (key_of i) hv ;;
     do_item_unlink_q it ;;
     do_item_remove it).

Definition do_item_replace (it new_it hv : Z) : M mc Z :=
  let! i := load it in
  cassert cfg (negb (has (it_flags i) ITEM_SLABBED)) ;;
  do_item_unlink it hv ;;
  do_item_link new_it hv.

(** To another LRU of the class. *)
Definition to_lru (it l : Z) : M mc unit :=
  store it (fun i => set_slabs_clsid (ITEM_clsid i) i) ;;
  store it (fun i => set_slabs_clsid (Z.lor (McItem.slabs_clsid i) l) i).

Definition do_item_update (it : Z) : M mc unit :=
  let! i := load it in
  let! now := gets current_time in
  if lru_segmented cfg then
    cassert cfg (negb (has (it_flags i) ITEM_SLABBED)) ;;
    when (has (it_flags i) ITEM_LINKED)
      (if (ITEM_lruid i =? COLD_LRU) && has (it_flags i) ITEM_ACTIVE then
         store it (set_time now) ;;
         item_unlink_q it ;;
         to_lru it WARM_LRU ;;
         store it (clear_flags ITEM_ACTIVE) ;;
         item_link_q_warm it
       else store it (set_time now))
  else if time i <? u32 (now - ITEM_UPDATE_INTERVAL) then
    cassert cfg (negb (has (it_flags i) ITEM_SLABBED)) ;;
    when (has (it_flags i) ITEM_LINKED)
      (store it (set_time now) ;; item_unlink_q it ;; item_link_q it)
  else ret tt.

(** ** Pulling from the tail of a queue *)

(** What is done with an item of the tail: go on with the next one, or stop at [it], which
    may have to move. *)
Inductive pull_result :=
  | Again (removed : Z)
  | Stop (removed it move_to_lru : Z).

(** [cur_lru] being HOT or WARM. *)
Definition pull_hot_warm (id cur_lru total_bytes max_age search : Z) : M mc pull_result :=
  let! i := load search in
  let! now := gets current_time in
  let! bytes := gets (bytes_of_lru id) in
  let limit := if cur_lru =? HOT_LRU then u64 (total_bytes * hot_lru_pct cfg) / 100 else 0 in
  let limit := if limit =? 0 then u64 (total_bytes * warm_lru_pct cfg) / 100 else limit in
  if has (it_flags i) ITEM_ACTIVE then
    store search (clear_flags ITEM_ACTIVE) ;;
    do_item_unlink_q search ;;
    if cur_lru =? WARM_LRU then
      do_item_link_q search ;;
      do_item_remove search ;;
      ret (Again 1)
    else ret (Stop 1 search WARM_LRU)
  else if (limit <? bytes) || (max_age <? u32 (now - time i)) then
    do_item_unlink_q search ;;
    ret (Stop 1 search COLD_LRU)
  else ret (Stop 0 search 0).

Definition pull_cold (orig_id flags search hv : Z) : M mc pull_result :=
  let! i := load search in
  if has flags LRU_PULL_EVICT then
    if negb (evict_to_free cfg) then ret (Stop 0 search 0)
    else
      do_item_unlink_nolock search hv ;;
      (if slab_automove cfg =? 2 then
         let! free := gets rebalance_trylock in
         slabs_reassign free (-1) orig_id ;; ret tt
       else ret tt) ;;
      ret (Stop 1 search 0)
  else if has flags LRU_PULL_RETURN_ITEM then ret (Stop 0 search 0)
  else if has (it_flags i) ITEM_ACTIVE && lru_segmented cfg then
    store search (clear_flags ITEM_ACTIVE) ;;
    do_item_unlink_q search ;;
    ret (Stop 1 search WARM_LRU)
  else ret (Stop 0 search 0).

Definition pull_one (orig_id id cur_lru total_bytes flags max_age search hv : Z) : M mc pull_result :=
  let! got := item_trylock hv in
  if negb got then ret (Again 0)
  else
    let! r := refcount_incr search in
    let! i := load search in
    let! now := gets current_time in
    if negb (r =? 2) && negb (tail_repair_time cfg =? 0) &&
       (u32 (time i + tail_repair_time cfg) <? now) then
      store search (set_refcount 1) ;;
      do_item_unlink_nolock search hv ;;
      ret (Again 0)
    else
      let! flushed := item_is_flushed search in
      if (negb (exptime i =? 0) && (exptime i <? now)) || flushed then
        do_item_unlink_nolock search hv ;;
        do_item_remove search ;;
        ret (Again 1)
      else if (cur_lru =? HOT_LRU) || (cur_lru =? WARM_LRU) then
        pull_hot_warm id cur_lru total_bytes max_age search
      else if cur_lru =? COLD_LRU then pull_cold orig_id flags search hv
      else ret (Stop 0 search 0).

(** The walk from [search] towards the head; [n] bounds the length of the queue.  The
    result is what was removed, the item the walk stopped at, where it moves, and the hash
    value of its key. *)
Fixpoint pull_loop (n : nat) (orig_id id cur_lru total_bytes flags max_age : Z)
    (tries removed search : Z) : M mc (option (Z * Z * Z * Z)) :=
  match n with
  | O => fun _ => Block
  | S n' =>
      if (0 <? tries) && negb (search =? 0) then
        let! i := load search in
        let next_it := prev i in
        if (nbytes i =? 0) && (nkey i =? 0) && (it_flags i =? 1) then
          if has flags LRU_PULL_CRAWL_BLOCKS then ret None
          else pull_loop n' orig_id id cur_lru total_bytes flags max_age tries removed next_it
        else
          let hv := hash cfg (key_of i) in
          let! res := pull_one orig_id id cur_lru total_bytes flags max_age search hv in
          match res with
          | Again d =>
              pull_loop n' orig_id id cur_lru total_bytes flags max_age (tries - 1) (removed + d) next_it
          | Stop d it mv => ret (Some (removed + d, it, mv, hv))
          end
      else ret (Some (removed, 0, 0, 0))
  end.

(** The number of items removed, and the item and its hash value for the caller that asks
    for it with [LRU_PULL_RETURN_ITEM]. *)
Definition lru_pull_tail (orig_id cur_lru total_bytes flags max_age : Z) : M mc (Z * option (Z * Z)) :=
  if orig_id =? 0 then ret (0, None)
  else
    let id := Z.lor orig_id cur_lru in
    let! tl := gets (tail_of id) in
    let! n := gets fuel in
    let! r := pull_loop n orig_id id cur_lru total_bytes flags max_age 5 0 tl in
    match r with
    | None => ret (0, None)
    | Some (removed, it, mv, hv) =>
        if it =? 0 then ret (removed, None)
        else
          when (negb (mv =? 0)) (to_lru it mv ;; item_link_q it) ;;
          when (negb (has flags LRU_PULL_RETURN_ITEM)) (do_item_remove it) ;;
          ret (removed, if (cur_lru =? COLD_LRU) && negb (has flags LRU_PULL_EVICT) &&
                           has flags LRU_PULL_RETURN_ITEM
                        then Some (it, hv) else None)
    end.

(** ** Allocating *)

(** The rounds from [i] on, and the item. *)
Fixpoint pull_rounds (n : nat) (ntotal id : Z) : M mc Z :=
  match n with
  | O => ret 0
  | S n' =>
      (if negb (lru_segmented cfg) then lru_pull_tail id COLD_LRU 0 0 0 ;; ret tt else ret tt) ;;
      let! it := slabs_alloc cfg malloc_result ntotal id false in
      if it =? 0 then
        let! (removed, _) := lru_pull_tail id COLD_LRU 0 LRU_PULL_EVICT 0 in
        if removed <=? 0 then
          if lru_segmented cfg then lru_pull_tail id HOT_LRU 0 0 0 ;; pull_rounds n' ntotal id
          else ret 0
        else pull_rounds n' ntotal id
      else ret it
  end.

Definition do_item_alloc_pull (ntotal id : Z) : M mc Z := pull_rounds 10 ntotal id.

(** The LRU a new item starts in. *)
Definition initial_lru (now exptime : Z) : Z :=
  if temp_lru cfg && (u32 (exptime - now) <=? temporary_ttl cfg) then TEMP_LRU
  else if lru_segmented cfg then HOT_LRU
  else COLD_LRU.

(** The assignments of [do_item_alloc] to the new item. *)
Definition fill_item (it : Z) (key : list Z) (flags exptime nbytes nsuffix id hdr_id : Z) : M mc unit :=
  let nkey := Z.of_nat (length key) in
  let! i := load it in
  cassert cfg ((it_flags i =? 0) || (it_flags i =? ITEM_CHUNKED)) ;;
  store it (set_links 0 0) ;;
  let! now := gets current_time in
  store it (set_slabs_clsid (u8 (Z.lor id (initial_lru now exptime)))) ;;
  store it (add_flags (if use_cas cfg then ITEM_CAS else 0)) ;;
  store it (add_flags (if negb (nsuffix =? 0) then ITEM_CFLAGS else 0)) ;;
  store it (set_sizes (u8 nkey) nbytes) ;;
  let! i := load it in
  copy_in it (ITEM_key i) key ;;
  store it (set_exptime exptime) ;;
  when (0 <? nsuffix) (copy_in it (ITEM_suffix i) (le_bytes 4 flags)) ;;
  when (has (it_flags i) ITEM_CHUNKED)
    (store it (set_schunk {| c_next := 0; c_prev := 0; c_head := it; c_size := 0; c_used := 0;
                             c_orig_clsid := u8 hdr_id |})) ;;
  store it (set_h_next 0).

Definition do_item_alloc (key : list Z) (flags exptime nbytes : Z) : M mc Z :=
  let nkey := Z.of_nat (length key) in
  if nbytes <? 2 then ret 0
  else
    let '(nsuffix, ntotal) := item_make_header (nkey + 1) flags nbytes in
    let ntotal := if use_cas cfg then u64 (ntotal + 8) else ntotal in
    let! id := gets (fun s => slabs_clsid cfg s ntotal) in
    if id =? 0 then ret 0
    else
      let large := slab_chunk_size_max cfg <? ntotal in
      let htotal := i32 (nkey + 1 + nsuffix + sizeof_item + sizeof_item_chunk + (if use_cas cfg then 8 else 0)) in
      let! hdr_id := (if large then gets (fun s => slabs_clsid cfg s htotal) else ret 0) in
      let! it := (if large then do_item_alloc_pull htotal hdr_id else do_item_alloc_pull ntotal id) in
      if it =? 0 then ret 0
      else
        when large (store it (add_flags ITEM_CHUNKED)) ;;
        fill_item it key flags exptime nbytes nsuffix id hdr_id ;;
        ret it.

(** ** Bump buffers *)
Definition sizeof_lru_bump_entry : Z := 16.

(** An entry: the item and the hash value of its key, with four bytes of padding. *)
Definition bump_entry (it hv : Z) : list Z := le_bytes 8 it ++ le_bytes 4 hv.

Definition lru_bump_async (b : nat) (it hv : Z) : M mc bool :=
  refcount_incr it ;;
  let! bufs := gets bumps in
  match bufs !! b with
  | None => fun _ => Fault
  | Some buf =>
      let! ok :=
        match bipbuf_request buf sizeof_lru_bump_entry with
        | None => ret false
        | Some off =>
            match write_at buf off (bump_entry it hv) with
            | None => fun _ => Fault
            | Some buf' =>
                let '(n, buf'') := bipbuf_push buf' sizeof_lru_bump_entry in
                modify (with_bumps (<[b := buf'']> bufs)) ;;
                ret (negb (n =? 0))
            end
        end in
      (if ok then ret tt else refcount_decr it ;; ret tt) ;;
      ret ok
  end.

(** The entries of [todo] bytes from offset [off] on. *)
Fixpoint bump_loop (n : nat) (mem : list Z) (off : Z) : M mc unit :=
  match n with
  | O => ret tt
  | S n' =>
      let it := le_val (slice (Z.to_nat off) 8 mem) in
      do_item_update it ;;
      do_item_remove it ;;
      bump_loop n' mem (off + sizeof_lru_bump_entry)
  end.

(** One buffer of the thread's list. *)
Definition bump_buffer (b : nat) : M mc bool :=
  let! bufs := gets bumps in
  match bufs !! b with
  | None => ret false
  | Some buf =>
      match bipbuf_peek_all buf with
      | None => ret false
      | Some (off, sz) =>
          bump_loop (Z.to_nat (sz / sizeof_lru_bump_entry)) (McBip.data buf) off ;;
          modify (fun s => with_bumps (alter (fun b => (bipbuf_poll b sz).2) b (bumps s)) s) ;;
          ret true
      end
  end.

(** From the buffer that was created last to the first. *)
Fixpoint bumps_loop (n : nat) : M mc bool :=
  match n with
  | O => ret false
  | S n' => let! x := bump_buffer n' in let! y := bumps_loop n' in ret (x || y)
  end.

Definition lru_maintainer_bumps : M mc bool :=
  let! n := gets (fun s => length (bumps s)) in
  bumps_loop n.

(** [buf] is the new buffer, NULL if the allocations failed. *)
Definition item_lru_bump_buf_create (buf : option bipbuf_t) : M mc bool :=
  match buf with
  | None => ret false
  | Some b => modify (fun s => with_bumps (bumps s ++ [b]) s) ;; ret true
  end.

(** ** Looking up, for the thread that owns buffer [b] *)
Definition do_item_bump (b : nat) (it hv : Z) : M mc unit :=
  let! i := load it in
  let! now := gets current_time in
  if lru_segmented cfg then
    when (negb (has (it_flags i) ITEM_ACTIVE))
      (if negb (has (it_flags i) ITEM_FETCHED) then store it (add_flags ITEM_FETCHED)
       else
         store it (add_flags ITEM_ACTIVE) ;;
         if negb (ITEM_lruid i =? COLD_LRU) then store it (set_time now)
         else
           let! ok := lru_bump_async b it hv in
           when (negb ok) (store it (clear_flags ITEM_ACTIVE)))
  else
    store it (add_flags ITEM_FETCHED) ;;
    do_item_update it.

Definition do_item_get (key : list Z) (hv : Z) (b : nat) (do_update : bool) : M mc Z :=
  let! it := assoc_find key hv in
  if it =? 0 then ret 0
  else
    refcount_incr it ;;
    let! flushed := item_is_flushed it in
    let! i := load it in
    let! now := gets current_time in
    if flushed || (negb (exptime i =? 0) && (exptime i <=? now)) then
      do_item_unlink it hv ;;
      do_item_remove it ;;
      ret 0
    else
      when do_update (do_item_bump b it hv) ;;
      ret it.

Definition do_item_touch (key : list Z) (exptime hv : Z) (b : nat) : M mc Z :=
  let! it := do_item_get key hv b true in
  when (negb (it =? 0)) (store it (set_exptime exptime)) ;;
  ret it.

(** ** The LRU maintenance thread *)

(** Reclaims from the TEMP queue while there are some, [n] times at most. *)
Fixpoint juggle_temp (n : nat) (id moves : Z) : M mc Z :=
  match n with
  | O => ret moves
  | S n' =>
      let! (r, _) := lru_pull_tail id TEMP_LRU 0 0 0 in
      if r <=? 0 then ret moves else juggle_temp n' id (moves + 1)
  end.

Fixpoint juggle_rounds (n : nat) (id total_bytes hot_age warm_age moves : Z) : M mc Z :=
  match n with
  | O => ret moves
  | S n' =>
      let! (h, _) := lru_pull_tail id HOT_LRU total_bytes LRU_PULL_CRAWL_BLOCKS hot_age in
      let! more :=
        (if negb (h =? 0) then ret 1
         else let! (w, _) := lru_pull_tail id WARM_LRU total_bytes LRU_PULL_CRAWL_BLOCKS warm_age in
              ret (if negb (w =? 0) then 1 else 0)) in
      let! (c, _) := (if lru_segmented cfg then lru_pull_tail id COLD_LRU total_bytes LRU_PULL_CRAWL_BLOCKS 0
                      else ret (0, None)) in
      if more + c =? 0 then ret moves
      else juggle_rounds n' id total_bytes hot_age warm_age (moves + 1)
  end.

(** [hot_age] and [warm_age] are the products of the age of the COLD tail and the two
    factors, which are [double]s. *)
Definition lru_maintainer_juggle (hot_age warm_age : Z -> Z) (slabs_clsid : Z) : M mc Z :=
  let! moves := (if temp_lru cfg then juggle_temp 500 slabs_clsid 0 else ret 0) in
  let cold := Z.lor slabs_clsid COLD_LRU in
  let! (total, age) :=
    (if lru_segmented cfg then
       let! tl := gets (tail_of cold) in
       let! now := gets current_time in
       let! age := (if negb (tl =? 0) then let! t := field_of time tl in ret (u32 (now - t)) else ret 0) in
       let! total := gets (fun s => u64 (bytes_of_lru cold s + bytes_of_lru (Z.lor slabs_clsid HOT_LRU) s +
                                         bytes_of_lru (Z.lor slabs_clsid WARM_LRU) s)) in
       ret (total, age)
     else ret (0, 0)) in
  juggle_rounds 500 slabs_clsid total
    (if lru_segmented cfg then hot_age age else 0) (if lru_segmented cfg then warm_age age else 0) moves.

(** ** The crawler's place in a queue

    The crawler is a pseudo item (flags 1, no key and no value) that walks from the tail
    of a queue to its head. *)
Definition do_item_linktail_q (it : Z) : M mc unit :=
  let! i := load it in
  let id := McItem.slabs_clsid i in
  cassert cfg (it_flags i =? 1) ;;
  cassert cfg (nbytes i =? 0) ;;
  let! hd := gets (head_of id) in
  let! tl := gets (tail_of id) in
  cassert cfg (negb (it =? tl)) ;;
  cassert cfg (Bool.eqb (hd =? 0) (tl =? 0)) ;;
  store it (set_prev tl) ;;
  store it (set_next 0) ;;
  when (negb (tl =? 0)) (store tl (set_next it)) ;;
  set_tail id it ;;
  when (hd =? 0) (set_head id it).

Definition do_item_unlinktail_q (it : Z) : M mc unit :=
  let! i := load it in
  let id := McItem.slabs_clsid i in
  let! hd := gets (head_of id) in
  when (hd =? it) (cassert cfg (prev i =? 0) ;; set_head id (next i)) ;;
  let! tl := gets (tail_of id) in
  when (tl =? it) (cassert cfg (next i =? 0) ;; set_tail id (prev i)) ;;
  cassert cfg (negb (next i =? it)) ;;
  cassert cfg (negb (prev i =? it)) ;;
  when (negb (next i =? 0)) (store (next i) (set_prev (prev i))) ;;
  when (negb (prev i =? 0)) (store (prev i) (set_next (next i))).

(** The item the crawler has stepped over, NULL at the head. *)
Definition do_item_crawl_q (it : Z) : M mc Z :=
  let! i := load it in
  let id := McItem.slabs_clsid i in
  cassert cfg (it_flags i =? 1) ;;
  cassert cfg (nbytes i =? 0) ;;
  let! hd := gets (head_of id) in
  if prev i =? 0 then
    cassert cfg (hd =? it) ;;
    when (negb (next i =? 0)) (set_head id (next i) ;; store (next i) (set_prev 0)) ;;
    ret 0
  else
    cassert cfg (negb (prev i =? it)) ;;
    when (hd =? prev i) (set_head id it) ;;
    let! tl := gets (tail_of id) in
    when (tl =? it) (set_tail id (prev i)) ;;
    cassert cfg (negb (next i =? it)) ;;
    (if negb (next i =? 0) then
       store (prev i) (set_next (next i)) ;;
       store (next i) (set_prev (prev i))
     else store (prev i) (set_next 0)) ;;
    store it (set_next (prev i)) ;;
    let! before := field_of prev (prev i) in
    store it (set_prev before) ;;
    store (prev i) (set_prev it) ;;
    when (negb (before =? 0)) (store before (set_next it)) ;;
    field_of next it.
End Items.
