(* ===== verification/McQueues.v ===== *)
(** * memcached: the LRU queues are doubly linked lists

    The invariant of the queues of items.c, that linking and unlinking an item keep it, and
    the walk of the crawler through a queue. *)

From stdpp Require Import gmap.
From S2P Require Import Prelude Wire McHash McItem McLists McAssoc McSlabs McAlloc McItems.

(** [Q] lists the items of each queue from its head to its tail. *)
Record lru_inv (Q : Z -> list Z) (s : mc) : Prop := {
  li_list : forall id, dlist (heap s) (head_of id s) (Q id);
  li_tail : forall id, tail_of id s = last_of 0 (Q id);
  li_nodup : forall id, NoDup (Q id);
  li_item : forall id p, p ∈ Q id -> exists i, heap s !! p = Some i /\ McItem.slabs_clsid i = id;
  li_size : forall id, size_of id s = u32 (Z.of_nat (length (Q id)));
}.

Lemma queue_disjoint Q s id id' p : lru_inv Q s -> p ∈ Q id -> p ∈ Q id' -> id = id'.
Proof.
  intros I H H'. destruct (li_item _ _ I _ _ H) as (i & E & <-).
  destruct (li_item _ _ I _ _ H') as (i' & E' & <-). congruence.
Qed.

(** The queues depend on the links and the class of their items only. *)
Definition qinfo (i : item) : Z * Z * Z := (next i, prev i, McItem.slabs_clsid i).

Lemma lru_inv_frame Q s s' :
  lru_inv Q s -> lru s' = lru s ->
  (forall id p, p ∈ Q id -> qinfo <$> heap s' !! p = qinfo <$> heap s !! p) -> lru_inv Q s'.
Proof.
  intros I El Hf. constructor.
  - intros id. unfold head_of. rewrite El. apply (dseg_frame (heap s)); [apply (li_list _ _ I)|].
    intros x Hx. specialize (Hf id x Hx).
    destruct (heap s' !! x), (heap s !! x); try done. unfold qinfo in Hf. cbn in *. unfold links. congruence.
  - intros id. unfold tail_of. rewrite El. apply (li_tail _ _ I).
  - apply I.
  - intros id p Hp. destruct (li_item _ _ I id p Hp) as (i & Ei & Hc). specialize (Hf id p Hp). rewrite Ei in Hf.
    destruct (heap s' !! p) as [i'|]; [|done]. unfold qinfo in Hf. cbn in Hf. exists i'. split; congruence.
  - intros id. unfold size_of. rewrite El. apply (li_size _ _ I).
Qed.

Lemma queue_head Q s id : lru_inv Q s -> head_of id s = default 0 (head (Q id)).
Proof. intros I. by apply (dseg_head _ _ _ _ _ (li_list _ _ I id)). Qed.

Lemma queue_head_some Q s id : lru_inv Q s -> head_of id s <> 0 -> head_of id s ∈ Q id.
Proof. intros I H. rewrite (queue_head Q s id I) in *. destruct (Q id); [done|]. cbn. set_solver. Qed.

Lemma queue_dom Q s id p : lru_inv Q s -> p ∈ Q id -> p <> 0 /\ is_Some (heap s !! p).
Proof.
  intros I H. split; [intros ->; by apply (dseg_nonzero _ _ _ _ _ (li_list _ _ I id))|].
  by apply (dseg_dom _ _ _ _ _ p (li_list _ _ I id)).
Qed.

(** Only the queues and links of the items in [P] change. *)
Definition queue_only (P : Z -> Prop) (s s' : mc) : Prop :=
  exists h l, s' = with_heap h (with_lru l s) /\
    (set_links 0 0 <$> h) = ((set_links 0 0 <$> heap s) : gmap Z item) /\
    (forall x, ~ P x -> h !! x = heap s !! x).

Lemma queue_only_lookup P s s' x i :
  queue_only P s s' -> heap s !! x = Some i -> exists n p, heap s' !! x = Some (set_links n p i).
Proof.
  intros (h & l & -> & E & _) Ei. cbn. apply (f_equal (lookup x)) in E. rewrite !lookup_fmap, Ei in E.
  destruct (h !! x) as [i'|]; [|done]. cbn in E. apply (inj Some) in E. exists (next i'), (prev i').
  destruct i, i'. unfold set_links in *. cbn in *. congruence.
Qed.

Lemma queue_only_field {A} (g : item -> A) P s s' x :
  (forall n p i, g (set_links n p i) = g i) -> queue_only P s s' -> g <$> heap s' !! x = g <$> heap s !! x.
Proof.
  intros Hg (h & l & -> & E & _). cbn. apply (f_equal (lookup x)) in E. rewrite !lookup_fmap in E.
  destruct (h !! x) as [i'|], (heap s !! x) as [i|]; try done. cbn in *. apply (inj Some) in E.
  rewrite <- (Hg 0 0 i'), E, Hg. done.
Qed.

Lemma unlinked_insert (h : gmap Z item) x i n p :
  h !! x = Some i -> (set_links 0 0 <$> <[x := set_links n p i]> h) = ((set_links 0 0 <$> h) : gmap Z item).
Proof. intros E. rewrite fmap_insert. apply insert_id. by rewrite lookup_fmap, E. Qed.

Lemma unlinked_alter (h : gmap Z item) x f :
  (forall i, exists n p, f i = set_links n p i) ->
  (set_links 0 0 <$> alter f x h) = ((set_links 0 0 <$> h) : gmap Z item).
Proof.
  intros Hf. apply map_eq. intros y. rewrite !lookup_fmap. destruct (decide (y = x)) as [->|].
  - rewrite lookup_alter_eq. destruct (h !! x) as [i|]; [|done]. cbn. by destruct (Hf i) as (n & p & ->).
  - by rewrite lookup_alter_ne.
Qed.

Lemma unlinked_pushed (h : gmap Z item) x i p :
  h !! x = Some i -> (set_links 0 0 <$> pushed h x i p) = ((set_links 0 0 <$> h) : gmap Z item).
Proof.
  intros E. unfold pushed. case_match; [by apply unlinked_insert|].
  rewrite unlinked_alter; [by apply unlinked_insert|]. intros j. by eexists _, _.
Qed.

Lemma unlinked_bypassed (h : gmap Z item) p n :
  (set_links 0 0 <$> bypassed h p n) = ((set_links 0 0 <$> h) : gmap Z item).
Proof.
  unfold bypassed. case_match; case_match; rewrite ?unlinked_alter; try done; intros j; by eexists _, _.
Qed.

Lemma wp_store_if (c : Z) f s (Q : unit -> mc -> Prop) :
  (c <> 0 -> is_Some (heap s !! c)) ->
  Q tt (with_heap (if c =? 0 then heap s else alter f c (heap s)) s) ->
  wp (when (negb (c =? 0)) (store c f)) Q s.
Proof.
  intros Hc HQ. destruct (Z.eqb_spec c 0) as [E|E]; cbn [negb when].
  - apply wp_ret. by destruct s.
  - destruct (Hc E) as [i Ei]. eapply wp_store; [done|]. by rewrite (alter_Some _ _ _ i) in HQ.
Qed.

(** Another queue [q] for [id]. *)
Lemma lru_inv_update Q s h l id q :
  lru_inv Q s ->
  dlist h (default 0 (heads l !! id)) q -> default 0 (tails l !! id) = last_of 0 q -> NoDup q ->
  (forall p, p ∈ q -> exists i, h !! p = Some i /\ McItem.slabs_clsid i = id) ->
  default 0 (sizes l !! id) = u32 (Z.of_nat (length q)) ->
  (forall id', id' <> id -> heads l !! id' = heads (lru s) !! id' /\ tails l !! id' = tails (lru s) !! id' /\
                          sizes l !! id' = sizes (lru s) !! id') ->
  (forall id' x, id' <> id -> x ∈ Q id' -> h !! x = heap s !! x) ->
  lru_inv (updF id q Q) (with_heap h (with_lru l s)).
Proof.
  intros I Hd Ht Hn Hi Hs Ho Hh. constructor; intros id'; unfold head_of, tail_of, size_of; cbn;
    (destruct (decide (id' = id)) as [->|Hne]; [rewrite updF_same|rewrite updF_other by done]); try done.
  - destruct (Ho id' Hne) as (-> & _). apply (dseg_frame (heap s)); [apply (li_list _ _ I)|].
    intros x Hx. by rewrite (Hh id').
  - destruct (Ho id' Hne) as (_ & -> & _). apply (li_tail _ _ I).
  - apply I.
  - intros p Hp. rewrite (Hh id') by done. by apply I.
  - destruct (Ho id' Hne) as (_ & _ & ->). apply (li_size _ _ I).
Qed.

Lemma u32_succ n k : u32 (u32 n + k) = u32 (n + k).
Proof. unfold u32, wrap. by rewrite Zplus_mod_idemp_l. Qed.

Section Queues.
Context (cfg : settings).

(** ** Linking *)
Lemma ends_agree Q s id : lru_inv Q s -> (head_of id s =? 0) = (tail_of id s =? 0).
Proof.
  intros I. rewrite (queue_head Q s id I), (li_tail _ _ I). unfold last_of.
  pose proof (dseg_nonzero _ _ _ _ _ (li_list _ _ I id)) as Hz.
  destruct (Q id) as [|x l]; [done|]. destruct (last (x :: l)) as [y|] eqn:Ey; [|by apply last_None in Ey].
  apply last_Some_elem_of in Ey. cbn. rewrite (proj2 (Z.eqb_neq x 0)), (proj2 (Z.eqb_neq y 0)); [done|set_solver..].
Qed.

(** The queue with [it] at its head. *)
Lemma linked_inv Q s it i l :
  lru_inv Q s -> heap s !! it = Some i -> it <> 0 -> (forall id, it ∉ Q id) ->
  let id := McItem.slabs_clsid i in
  heads l = <[id := it]> (heads (lru s)) ->
  tails l = (if tail_of id s =? 0 then <[id := it]> (tails (lru s)) else tails (lru s)) ->
  sizes l = <[id := u32 (size_of id s + 1)]> (sizes (lru s)) ->
  lru_inv (updF id (it :: Q id) Q) (with_heap (pushed (heap s) it i (head_of id s)) (with_lru l s)).
Proof.
  intros I Ei H0 Hni id El1 El2 El3. assert (NoDup (it :: Q id)) as Hn by (constructor; [apply Hni|apply I]).
  apply lru_inv_update; [done| | |done| | | |].
  - rewrite El1, lookup_insert_eq. cbn. by apply dlist_push; [apply (li_list _ _ I)|..].
  - rewrite last_of_cons, El2, <- (ends_agree Q s id I), (queue_head Q s id I). pose proof (li_tail _ _ I id) as Ht.
    pose proof (dseg_nonzero _ _ _ _ _ (li_list _ _ I id)) as Hz. unfold tail_of in Ht.
    destruct (Q id) as [|x q] eqn:Eq; cbn; [by rewrite lookup_insert_eq|].
    rewrite (proj2 (Z.eqb_neq x 0)) by set_solver. by rewrite last_of_cons in *.
  - intros p Hp. assert (exists ip, heap s !! p = Some ip /\ McItem.slabs_clsid ip = id) as (ip & Ep & Hc).
    { apply elem_of_cons in Hp as [->|Hp]; [by exists i|by apply I]. }
    pose proof (pushed_field McItem.slabs_clsid (heap s) it i (head_of id s) p ltac:(done) Ei) as Hf.
    rewrite Ep in Hf. destruct (pushed _ _ _ _ !! p) as [ip'|]; [|done]. exists ip'. split; [done|]. cbn in Hf. congruence.
  - rewrite El3, lookup_insert_eq. cbn [default length Datatypes.id]. rewrite (li_size _ _ I), u32_succ. f_equal. lia.
  - intros id' Hne. rewrite El1, El2, El3. rewrite !(lookup_insert_ne _ id id') by done. split; [done|]. split; [|done].
    case_match; [|done]. by rewrite lookup_insert_ne.
  - intros id' x Hne Hx. apply pushed_other; [intros ->; by apply (Hni id')|].
    intros Hh ->. apply Hne. apply (queue_disjoint Q s id' id _ I Hx). by apply queue_head_some.
Qed.

Lemma pushed_queue_only Q s it i l :
  lru_inv Q s -> heap s !! it = Some i -> let id := McItem.slabs_clsid i in
  queue_only (fun x => x = it \/ x ∈ Q id) s (with_heap (pushed (heap s) it i (head_of id s)) (with_lru l s)).
Proof.
  intros I Ei id. eexists _, _. split; [done|]. split; [by apply unlinked_pushed|].
  intros x Hx. apply pushed_other; [tauto|]. intros Hh ->. apply Hx. right. by apply queue_head_some.
Qed.

Lemma link_q_spec Q s it i :
  lru_inv Q s -> heap s !! it = Some i -> has (it_flags i) ITEM_SLABBED = false -> it <> 0 ->
  (forall id, it ∉ Q id) ->
  let id := McItem.slabs_clsid i in
  wp (do_item_link_q cfg it)
     (fun _ s' => lru_inv (updF id (it :: Q id) Q) s' /\ queue_only (fun x => x = it \/ x ∈ Q id) s s') s.
Proof.
  intros I Ei Hf H0 Hni id. unfold do_item_link_q. apply wp_bind. eapply wp_load; [done|]. fold id.
  apply wp_bind. apply wp_cassert; [by rewrite Hf|]. apply wp_bind, wp_gets, wp_bind, wp_gets.
  assert (head_of id s <> it) as Hhd.
  { intros E. apply (Hni id). rewrite <- E. apply (queue_head_some Q s id I). congruence. }
  apply wp_bind. apply wp_cassert; [lia|]. apply wp_bind.
  apply wp_cassert; [rewrite (ends_agree Q s id I); apply eqb_reflx|].
  apply wp_bind. eapply wp_store; [done|]. apply wp_bind.
  eapply wp_store; [cbn; by rewrite lookup_insert_eq|]. cbn [heap with_heap]. rewrite insert_insert_eq.
  apply wp_bind. apply wp_store_if.
  { intros Hz. cbn. rewrite lookup_insert_ne by done. apply (queue_dom Q s id); [done|]. by apply queue_head_some. }
  cbn [heap with_heap]. apply wp_bind, wp_modify, wp_bind.
  set (l := {| heads := <[id := it]> (heads (lru s));
               tails := if tail_of id s =? 0 then <[id := it]> (tails (lru s)) else tails (lru s);
               sizes := <[id := u32 (size_of id s + 1)]> (sizes (lru s));
               sizes_bytes := <[id := u64 (bytes_of_lru id s + ITEM_ntotal i)]> (sizes_bytes (lru s)) |}).
  assert (lru_inv (updF id (it :: Q id) Q) (with_heap (pushed (heap s) it i (head_of id s)) (with_lru l s)) /\
          queue_only (fun x => x = it \/ x ∈ Q id) s (with_heap (pushed (heap s) it i (head_of id s)) (with_lru l s))) as HP
    by (split; [by apply linked_inv|by apply pushed_queue_only]).
  unfold l in HP. destruct (tail_of id s =? 0); cbn [when]; [apply wp_modify|apply wp_ret]; apply wp_modify; exact HP.
Qed.

(** ** Unlinking *)
Lemma bypassed_other h p n x : (p <> 0 -> x <> p) -> (n <> 0 -> x <> n) -> bypassed h p n !! x = h !! x.
Proof.
  intros Hp Hn. unfold bypassed.
  destruct (Z.eqb_spec p 0), (Z.eqb_spec n 0); rewrite ?lookup_alter_ne by (symmetry; auto); done.
Qed.

Lemma bypassed_field {A} (g : item -> A) h p n x :
  (forall n p i, g (set_links n p i) = g i) -> g <$> bypassed h p n !! x = g <$> h !! x.
Proof.
  intros Hg. pose proof (unlinked_bypassed h p n) as E. apply (f_equal (lookup x)) in E. rewrite !lookup_fmap in E.
  destruct (bypassed h p n !! x) as [i'|], (h !! x) as [i|]; try done. cbn in *. apply (inj Some) in E.
  rewrite <- (Hg 0 0 i'), E, Hg. done.
Qed.

(** The links of an item in the middle of a queue. *)
Lemma queue_links Q s id it i l1 l2 :
  lru_inv Q s -> Q id = l1 ++ it :: l2 -> heap s !! it = Some i ->
  prev i = last_of 0 l1 /\ next i = default 0 (head l2) /\
  (prev i <> 0 -> prev i ∈ Q id /\ prev i <> it) /\ (next i <> 0 -> next i ∈ Q id /\ next i <> it) /\
  (head_of id s =? it) = (prev i =? 0) /\ (tail_of id s =? it) = (next i =? 0).
Proof.
  intros I Eq Ei. pose proof (li_list _ _ I id) as Hd. pose proof (li_nodup _ _ I id) as Hn. rewrite Eq in Hd, Hn.
  destruct (dlist_remove _ _ _ _ _ i Hd Hn Ei) as (Hp & Hx & _). pose proof (dseg_nonzero _ _ _ _ _ Hd) as Hz.
  pose proof (queue_head Q s id I) as Hh. pose proof (li_tail _ _ I id) as Ht. rewrite Eq in Hh, Ht.
  apply NoDup_app in Hn as (Hn1 & Hdis & Hn2). apply NoDup_cons in Hn2 as [Hn2 _].
  assert (l1 = [] \/ exists l y, l1 = l ++ [y]) as Hl1 by (destruct l1 using rev_ind; [by left|right; by eexists _, _]).
  split; [done|]. split; [done|]. rewrite Eq, Hp, Hx, Hh, Ht. split_and!.
  - destruct Hl1 as [->|(l & y & ->)]; [done|]. rewrite last_of_snoc. intros _. split; [set_solver|].
    intros ->. apply (Hdis it); set_solver.
  - destruct l2 as [|y l2]; [done|]. cbn. intros _. split; [set_solver|]. intros ->. set_solver.
  - destruct l1 as [|y l]; [cbn; lia|]. cbn [app head default].
    assert (y <> it) by (intros ->; apply (Hdis it); set_solver). destruct Hl1 as [?|(l' & z & E)]; [done|].
    rewrite E, last_of_snoc in *. assert (z <> 0) by set_solver. cbn. lia.
  - destruct l2 as [|y l2]; [rewrite last_of_snoc; cbn; lia|]. cbn [head default].
    unfold last_of. rewrite last_app_cons, last_cons_cons. destruct (last (y :: l2)) as [z|] eqn:Ez; [|by apply last_None in Ez].
    apply last_Some_elem_of in Ez. assert (z <> it) by (intros ->; done). assert (y <> 0) by set_solver. cbn. lia.
Qed.

Lemma unlinked_inv Q s id it i l1 l2 l :
  lru_inv Q s -> Q id = l1 ++ it :: l2 -> heap s !! it = Some i ->
  heads l = (if head_of id s =? it then <[id := next i]> (heads (lru s)) else heads (lru s)) ->
  tails l = (if tail_of id s =? it then <[id := prev i]> (tails (lru s)) else tails (lru s)) ->
  sizes l = <[id := u32 (size_of id s - 1)]> (sizes (lru s)) ->
  lru_inv (updF id (l1 ++ l2) Q) (with_heap (bypassed (heap s) (prev i) (next i)) (with_lru l s)).
Proof.
  intros I Eq Ei El1 El2 El3. destruct (queue_links Q s id it i l1 l2 I Eq Ei) as (Hp & Hx & Hpm & Hxm & Hh & Ht).
  pose proof (li_list _ _ I id) as Hd. pose proof (li_nodup _ _ I id) as Hn. rewrite Eq in Hd, Hn.
  destruct (dlist_remove _ _ _ _ _ i Hd Hn Ei) as (_ & _ & Hd').
  assert (forall x, x ∈ l1 ++ l2 -> x ∈ Q id) as Hsub by (intros x; rewrite Eq; set_solver).
  apply lru_inv_update; [done| | | | | | |].
  - rewrite El1, Hh. destruct (prev i =? 0); [by rewrite lookup_insert_eq|exact Hd'].
  - rewrite El2, Ht. pose proof (li_tail _ _ I id) as Htl. unfold tail_of in Htl. rewrite Eq in Htl.
    destruct (Z.eqb_spec (next i) 0) as [Hz|Hz].
    + rewrite lookup_insert_eq. cbn. destruct l2 as [|y l2]; [by rewrite app_nil_r|]. cbn in Hx.
      pose proof (dseg_nonzero _ _ _ _ _ Hd). set_solver.
    + rewrite Htl. destruct l2 as [|y l2]; [done|]. unfold last_of. by rewrite !last_app_cons, last_cons_cons.
  - apply NoDup_app in Hn as (Hn1 & Hdis & Hn2). apply NoDup_cons in Hn2 as [_ Hn2]. apply NoDup_app. split_and!; [done| |done].
    intros x H1 H2. apply (Hdis x H1). set_solver.
  - intros p Hpp. destruct (li_item _ _ I id p (Hsub p Hpp)) as (ip & Ep & Hc).
    pose proof (bypassed_field McItem.slabs_clsid (heap s) (prev i) (next i) p ltac:(done)) as Hf. rewrite Ep in Hf.
    destruct (bypassed _ _ _ !! p) as [ip'|]; [|done]. exists ip'. split; [done|]. cbn in Hf. congruence.
  - rewrite El3, lookup_insert_eq. cbn [default Datatypes.id]. rewrite (li_size _ _ I), Eq.
    rewrite <- Z.add_opp_r, u32_succ. f_equal. rewrite !length_app. cbn. lia.
  - intros id' Hne. rewrite El1, El2, El3.
    destruct (head_of id s =? it), (tail_of id s =? it); rewrite ?(lookup_insert_ne _ id id') by done; done.
  - intros id' x Hne Hxq. apply bypassed_other; intros Hz ->; apply Hne; eapply (queue_disjoint Q s); eauto; naive_solver.
Qed.

Lemma unlink_q_spec Q s id it i :
  lru_inv Q s -> it ∈ Q id -> heap s !! it = Some i ->
  wp (do_item_unlink_q cfg it)
     (fun _ s' => lru_inv (updF id (filter (fun x => x <> it) (Q id)) Q) s' /\
        queue_only (fun x => x ∈ Q id /\ x <> it) s s') s.
Proof.
  intros I Hin Ei. destruct (li_item _ _ I id it Hin) as (i' & Ei' & Hid). assert (i' = i) as -> by congruence.
  apply list_elem_of_split in Hin as (l1 & l2 & Eq).
  destruct (queue_links Q s id it i l1 l2 I Eq Ei) as (Hp & Hx & Hpm & Hxm & Hh & Ht).
  rewrite Eq, filter_ne_middle by (rewrite <- Eq; apply I).
  set (l := {| heads := if prev i =? 0 then <[id := next i]> (heads (lru s)) else heads (lru s);
               tails := if next i =? 0 then <[id := prev i]> (tails (lru s)) else tails (lru s);
               sizes := <[id := u32 (size_of id s - 1)]> (sizes (lru s));
               sizes_bytes := <[id := u64 (bytes_of_lru id s - ITEM_ntotal i)]> (sizes_bytes (lru s)) |}).
  assert (lru_inv (updF id (l1 ++ l2) Q) (with_heap (bypassed (heap s) (prev i) (next i)) (with_lru l s)) /\
          queue_only (fun x => x ∈ l1 ++ it :: l2 /\ x <> it) s (with_heap (bypassed (heap s) (prev i) (next i)) (with_lru l s))) as HP.
  { split; [apply (unlinked_inv Q s id it); by rewrite ?Hh, ?Ht|].
    eexists _, _. split; [done|]. split; [apply unlinked_bypassed|].
    rewrite <- Eq. intros x Hnx. apply bypassed_other; intros Hz ->; apply Hnx; auto. }
  unfold do_item_unlink_q. apply wp_bind. eapply wp_load; [done|]. rewrite Hid. apply wp_bind, wp_gets.
  rewrite Hh. apply wp_bind.
  apply (wp_mono _ (fun _ s1 => s1 = with_lru {| heads := heads l; tails := tails (lru s); sizes := sizes (lru s);
           sizes_bytes := sizes_bytes (lru s) |} s)).
  2: { unfold l. destruct (prev i =? 0); cbn [when]; [apply wp_bind; by apply wp_cassert|].
       apply wp_ret. by destruct s as [? ? ? []]. }
  intros _ s1 ->. apply wp_bind, wp_gets. change (tail_of id (with_lru _ s)) with (tail_of id s). rewrite Ht. apply wp_bind.
  apply (wp_mono _ (fun _ s1 => s1 = with_lru {| heads := heads l; tails := tails l; sizes := sizes (lru s);
           sizes_bytes := sizes_bytes (lru s) |} s)).
  2: { unfold l. destruct (next i =? 0); cbn [when]; [apply wp_bind; by apply wp_cassert|]. by apply wp_ret. }
  intros _ s1 ->. apply wp_bind. apply wp_cassert; [apply negb_true_iff, Z.eqb_neq|].
  { intros E. destruct (Z.eq_dec (next i) 0); [|naive_solver]. destruct (queue_dom Q s id it I); [rewrite Eq; set_solver|congruence]. }
  apply wp_bind. apply wp_cassert; [apply negb_true_iff, Z.eqb_neq|].
  { intros E. destruct (Z.eq_dec (prev i) 0); [|naive_solver]. destruct (queue_dom Q s id it I); [rewrite Eq; set_solver|congruence]. }
  apply wp_bind. apply wp_store_if; [intros Hz; cbn; apply (queue_dom Q s id); naive_solver|].
  apply wp_bind. apply wp_store_if.
  { intros Hz. cbn. case_match; [apply (queue_dom Q s id); naive_solver|]. apply lookup_alter_is_Some.
    apply (queue_dom Q s id); naive_solver. }
  apply wp_modify. exact HP.
Qed.
End Queues.
