(* ===== verification/McDagger.v ===== *)
(** * memcached: the handlers of the Dagger RPC server

    The functions that src/sw/apps/memcached/memcached/memcached.c registers with the RPC
    server (set, get and populate), with the item functions of thread.c they and the rest
    of the server call.  Keys and values are eight bytes; the types of the requests and
    responses are generated from the service's interface description, and their fields
    are the arguments and results here. *)

From stdpp Require Import gmap.
From S2P Require Import Prelude Wire McHash McItem McAssoc McSlabs McItems.

Definition REALTIME_MAXDELTA : Z := 60 * 60 * 24 * 30.

Section Dagger.
Context (cfg : settings).
Context (malloc_result : mc -> Z -> Z).
Context (trylock : mc -> Z -> bool) (rebalance_trylock : mc -> bool).
Context (process_started : Z).

Definition realtime (exptime : Z) : M mc Z :=
  let! now := gets current_time in
  ret (if exptime =? 0 then 0
       else if REALTIME_MAXDELTA <? exptime then
         if exptime <=? process_started then 1 else u32 (exptime - process_started)
       else u32 (exptime + now)).

(** ** thread.c: the item functions under the lock of the item *)
Definition item_alloc (key : list Z) (flags exptime nbytes : Z) : M mc Z :=
  do_item_alloc cfg malloc_result trylock rebalance_trylock key flags exptime nbytes.

Definition item_get (key : list Z) (b : nat) (do_update : bool) : M mc Z :=
  do_item_get cfg key (hash cfg key) b do_update.

Definition item_touch (key : list Z) (exptime : Z) (b : nat) : M mc Z :=
  do_item_touch cfg key exptime (hash cfg key) b.

Definition item_link (it : Z) : M mc Z :=
  let! i := load it in
  do_item_link cfg it (hash cfg (key_of i)).

Definition item_remove (it : Z) : M mc unit := do_item_remove cfg it.

Definition item_replace (old_it new_it hv : Z) : M mc Z := do_item_replace cfg old_it new_it hv.

Definition item_unlink (it : Z) : M mc unit :=
  let! i := load it in
  do_item_unlink cfg it (hash cfg (key_of i)).

(** ** memcached.c: the handlers *)

(** 1 on failure *)
Definition set (key value : list Z) : M mc Z :=
  let! exptime := realtime 60 in
  let! it := item_alloc key 0 exptime 8 in
  if it =? 0 then ret 1
  else
    ITEM_set_cas it (ret 0) ;;
    let! i := load it in
    copy_in it (ITEM_data i) value ;;
    let! i := load it in
    do_item_link cfg it (hash cfg (key_of i)) ;;
    ret 0.

(** The timestamp and the status of the response. *)
Definition process_set (timestamp : Z) (key value : list Z) : M mc (Z * Z) :=
  let! res := set key value in
  ret (timestamp, if negb (res =? 0) then 1 else 0).

(** [memcpy(dst, ITEM_data(it), n)], the bytes read. *)
Definition read_data (it n : Z) : M mc (list Z) :=
  let! i := load it in
  if ITEM_data i + n <=? Z.of_nat (length (data i)) then ret (value_of n i) else fun _ => Fault.

(** The timestamp, the status and the value of the response; [buf] is what the value held
    before. *)
Definition process_get (timestamp : Z) (key buf : list Z) : M mc (Z * Z * list Z) :=
  let! it := assoc_find key (hash cfg key) in
  (if negb (it =? 0) then refcount_incr it ;; ret tt else ret tt) ;;
  if negb (it =? 0) then
    let! v := read_data it 8 in
    ret (timestamp, 0, v ++ drop 8 buf)
  else ret (timestamp, 1, 0 :: drop 1 buf).

(** The status line of [process_populate]. *)
Inductive populate_status := SetFailed | Loaded (n : Z).

Fixpoint populate_loop (n : nat) (i : Z) : M mc bool :=
  match n with
  | O => ret true
  | S n' =>
      let! r := set (le_bytes 8 i) (le_bytes 8 i) in
      if negb (r =? 0) then ret false else populate_loop n' (i + 1)
  end.

Definition process_populate : M mc populate_status :=
  let! ok := populate_loop (Z.to_nat (10000000 + 1000000 * 10)) 0 in
  ret (if ok then Loaded 10000000 else SetFailed).

(** ** Runs of the server *)
Inductive request :=
  | RSet (key value : list Z)
  | RGet (key : list Z)
  | RTick (now : Z)                                         (** [clock_handler] *)
  | RPull (id cur_lru total_bytes max_age : Z).             (** the LRU maintenance thread *)

Inductive response :=
  | Status (st : Z)
  | Value (st : Z) (v : list Z)
  | Nothing.

Definition handle (r : request) : M mc response :=
  match r with
  | RSet k v => let! (_, st) := process_set 0 k v in ret (Status st)
  | RGet k => let! (_, st, v) := process_get 0 k (replicate 8 0) in ret (Value st v)
  | RTick now => modify (with_time now) ;; ret Nothing
  | RPull id l total age =>
      lru_pull_tail cfg trylock rebalance_trylock id l total LRU_PULL_CRAWL_BLOCKS age ;; ret Nothing
  end.

Fixpoint serve (rs : list request) : M mc (list response) :=
  match rs with
  | [] => ret []
  | r :: rs' => let! a := handle r in let! as' := serve rs' in ret (a :: as')
  end.
End Dagger.
