(* ===== verification/McStore.v ===== *)
(** * memcached: the invariant of the Dagger server

    What holds of the hash table, the LRU queues and the slab allocator together while the
    server handles requests: every chunk of memory is free or holds an entry that some
    set request made, the queues and the chains lead to entries only, and an entry that
    is linked has at least two references.  The invariant is stated for the settings the
    server starts with. *)

From stdpp Require Import gmap.
From S2P Require Import Prelude Wire McHash McItem McLists McAssoc McTable McSlabs McAlloc McSlabRun McItems McQueues McDagger.

(** The settings these proofs rely on; the server's defaults. *)
Record dagger_settings (cfg : settings) : Prop := {
  ds_ndebug : ndebug cfg = true;
  ds_cas : use_cas cfg = true;
  ds_segmented : lru_segmented cfg = true;
  ds_temp : temp_lru cfg = false;
  ds_repair : tail_repair_time cfg = 0;
  ds_automove : slab_automove cfg <> 2;
  ds_chunk : 73 <= slab_chunk_size_max cfg;
}.

Definition CAS_LINKED : Z := Z.lor ITEM_CAS ITEM_LINKED.

(** The bytes of an item that an entry consists of. *)
Definition content (i : item) : Z * Z * Z * list Z := (nkey i, cas_size i, cflags_size i, data i).

(** An entry that one of the sets [H] made, with at most [n] references. *)
Record entry (s : mc) (H : list (list Z * list Z)) (n : Z) (i : item) : Prop := {
  en_flags : it_flags i = ITEM_CAS \/ it_flags i = CAS_LINKED;
  en_nkey : nkey i = 8;
  en_nbytes : nbytes i = 8;
  en_set : (key_of i, value_of 8 i) ∈ H;
  en_refs : 1 <= refcount i <= n;
  en_chunk : chunk_of s (ITEM_clsid i) i;
  en_class : POWER_SMALLEST <= ITEM_clsid i <= power_largest (slb s);
  en_size : 25 <= Z.of_nat (length (data i));
}.

Definition linked (i : item) : Prop := it_flags i = CAS_LINKED /\ 2 <= refcount i.

Section Store.
Context (cfg : settings).

(** The chains [B], the queues [Q] and the free chunks [F]; [hole] is an item that is
    being worked on. *)
Record store_inv (hole : option Z) (n : Z) (H : list (list Z * list Z)) (B : bool * Z -> list Z) (Q F : Z -> list Z)
    (s : mc) : Prop := {
  sv_rep : rep cfg B s;
  sv_lru : lru_inv Q s;
  sv_slab : slabs_inv F s;
  sv_ready : ready cfg s;
  sv_cell : forall p i, heap s !! p = Some i -> Some p <> hole -> (exists id, p ∈ F id) \/ entry s H n i;
  sv_queue : forall id p, p ∈ Q id -> Some p <> hole -> exists i, heap s !! p = Some i /\ linked i;
  sv_free : forall p, (exists c, p ∈ B c) \/ (exists id, p ∈ Q id) \/ Some p = hole -> forall id, p ∉ F id;
}.

(** ** Frames *)

(** The chains depend on the links and the keys of their items. *)
Lemma rep_frame B s s' :
  rep cfg B s -> tab s' = tab s ->
  (forall c p, p ∈ B c -> (fun i => (h_next i, key_of i)) <$> heap s' !! p = (fun i => (h_next i, key_of i)) <$> heap s !! p) ->
  rep cfg B s'.
Proof.
  intros R Et Hf. constructor; rewrite ?Et; [apply R|apply R| | |apply R].
  - intros old b Ho. apply (chain_frame (heap s)); [by apply R|]. intros x Hx. specialize (Hf _ x Hx).
    destruct (heap s' !! x), (heap s !! x); try done. cbn in *. congruence.
  - intros c p Hp. destruct (rep_cell _ _ _ R c p Hp) as (i & Ei & Hc). specialize (Hf c p Hp). rewrite Ei in Hf.
    destruct (heap s' !! p) as [i'|]; [|done]. cbn in Hf. exists i'. split; [done|].
    assert (key_of i' = key_of i) as -> by congruence. done.
Qed.

(** The free lists depend on what their chunks hold apart from [h_next]. *)
Lemma slabs_frame F s s' :
  slabs_inv F s -> slb s' = slb s ->
  (forall id p, p ∈ F id -> set_h_next 0 <$> heap s' !! p = set_h_next 0 <$> heap s !! p) -> slabs_inv F s'.
Proof.
  intros I Es Hf. assert (forall id, cls s' id = cls s id) as Ec by (intros id; unfold cls; by rewrite Es).
  constructor; rewrite ?Es; [| | |apply I|apply I].
  - intros id. rewrite Ec. apply (dseg_frame (heap s)); [apply (si_list _ _ I)|]. intros x Hx. specialize (Hf id x Hx).
    destruct (heap s' !! x) as [i'|], (heap s !! x) as [i|]; try done. cbn in *. apply (inj Some) in Hf.
    f_equal. apply (f_equal links) in Hf. exact Hf.
  - intros id. rewrite Ec. apply I.
  - intros id p Hp. destruct (si_item _ _ I id p Hp) as (i & Ei & H1 & H2 & H3). specialize (Hf id p Hp). rewrite Ei in Hf.
    destruct (heap s' !! p) as [i'|]; [|done]. cbn in Hf. apply (inj Some) in Hf. exists i'. split; [done|].
    unfold chunk_of in *. rewrite Ec. split; [by rewrite <- H1; apply (f_equal it_flags) in Hf|].
    split; [by rewrite <- H2; apply (f_equal McItem.slabs_clsid) in Hf|]. rewrite <- H3. apply (f_equal data) in Hf.
    cbn in Hf. by rewrite Hf.
Qed.

Lemma ready_same s s' : slb s' = slb s -> ready cfg s -> ready cfg s'.
Proof. intros Es. unfold ready, normal, class_ok, n_slabs, cls. by rewrite Es. Qed.

Lemma entry_same s s' H n i : slb s' = slb s -> entry s H n i -> entry s' H n i.
Proof. intros Es []. constructor; rewrite ?Es; try done. unfold chunk_of, cls in *. by rewrite Es. Qed.

(** ** Opening and closing the hole *)
Lemma sv_open n H B Q F s p :
  store_inv None n H B Q F s -> (forall id, p ∉ F id) -> store_inv (Some p) n H B Q F s.
Proof.
  intros I Hp. constructor; try apply I.
  - intros x i E _. by apply (sv_cell _ _ _ _ _ _ _ I).
  - intros id x Hx _. by apply (sv_queue _ _ _ _ _ _ _ I id).
  - intros x [Hx|[Hx|[= ->]]]; [..|done]; apply (sv_free _ _ _ _ _ _ _ I); auto.
Qed.

Lemma sv_close n H B Q F s p i :
  store_inv (Some p) n H B Q F s -> heap s !! p = Some i -> entry s H n i ->
  ((exists id, p ∈ Q id) -> linked i) -> store_inv None n H B Q F s.
Proof.
  intros I Ei He Hl. constructor; try apply I.
  - intros x ix E _. destruct (decide (x = p)) as [->|Hne]; [right; by simplify_eq|].
    apply (sv_cell _ _ _ _ _ _ _ I); [done|congruence].
  - intros id x Hx _. destruct (decide (x = p)) as [->|Hne]; [exists i; split; [done|apply Hl; by exists id]|].
    apply (sv_queue _ _ _ _ _ _ _ I id); [done|congruence].
  - intros x Hx. apply (sv_free _ _ _ _ _ _ _ I). naive_solver.
Qed.

(** An entry that is not free. *)
Lemma sv_entry n H B Q F s p i :
  store_inv None n H B Q F s -> heap s !! p = Some i -> (forall id, p ∉ F id) -> entry s H n i.
Proof. intros I Ei Hp. destruct (sv_cell _ _ _ _ _ _ _ I p i Ei) as [[id Hx]|He]; [done|by destruct (Hp id)|done]. Qed.

(** Changes outside the heap that the invariant does not see. *)
Lemma sv_same h n H B Q F s s' :
  store_inv h n H B Q F s -> heap s' = heap s -> tab s' = tab s -> slb s' = slb s -> lru s' = lru s ->
  store_inv h n H B Q F s'.
Proof.
  intros I Eh Et Es El. constructor.
  - apply (rep_frame B s); [apply I|done|]. intros. by rewrite Eh.
  - apply (lru_inv_frame Q s); [apply I|done|]. intros. by rewrite Eh.
  - apply (slabs_frame F s); [apply I|done|]. intros. by rewrite Eh.
  - by apply (ready_same s), I.
  - intros p i. rewrite Eh. intros E Hp. destruct (sv_cell _ _ _ _ _ _ _ I p i E Hp); [by left|right].
    by apply (entry_same s).
  - intros id p. rewrite Eh. apply I.
  - apply I.
Qed.

(** A store to the hole. *)
Lemma sv_store n H B Q F s p i i' :
  store_inv (Some p) n H B Q F s -> heap s !! p = Some i ->
  ((exists c, p ∈ B c) -> h_next i' = h_next i /\ key_of i' = key_of i) ->
  ((exists id, p ∈ Q id) -> qinfo i' = qinfo i) ->
  store_inv (Some p) n H B Q F (with_heap (<[p := i']> (heap s)) s).
Proof.
  intros I Ei Hb Hq. constructor.
  - apply (rep_frame B s); [apply I|done|]. intros c x Hx. cbn. destruct (decide (x = p)) as [->|].
    + rewrite lookup_insert_eq, Ei. cbn. by destruct Hb as [-> ->]; [by exists c|].
    + by rewrite lookup_insert_ne.
  - apply (lru_inv_frame Q s); [apply I|done|]. intros id x Hx. cbn. destruct (decide (x = p)) as [->|].
    + rewrite lookup_insert_eq, Ei. cbn. by rewrite Hq; [|by exists id].
    + by rewrite lookup_insert_ne.
  - apply (slabs_frame F s); [apply I|done|]. intros id x Hx. cbn. rewrite lookup_insert_ne; [done|]. intros <-.
    by apply (sv_free _ _ _ _ _ _ _ I p (or_intror (or_intror eq_refl)) id).
  - by apply (ready_same s), I.
  - intros x ix E Hx. cbn in E. rewrite lookup_insert_ne in E by congruence.
    destruct (sv_cell _ _ _ _ _ _ _ I x ix E Hx); [by left|right]. by apply (entry_same s).
  - intros id x Hx Hxp. cbn. rewrite lookup_insert_ne by congruence. by apply (sv_queue _ _ _ _ _ _ _ I id).
  - apply I.
Qed.

(** *** Changes of the queues and of the chains, at the hole and at items of theirs *)
Lemma sv_queue_only P n H B Q Q' F s s' p :
  store_inv (Some p) n H B Q F s -> queue_only P s s' -> lru_inv Q' s' ->
  (forall x, P x -> x = p \/ exists id, x ∈ Q id) ->
  (forall id x, x ∈ Q' id -> x = p \/ exists id, x ∈ Q id) ->
  store_inv (Some p) n H B Q' F s'.
Proof.
  intros I Hqo L' HP HQ'. pose proof Hqo as (h & l & -> & E & Hout).
  assert (forall x, x = p \/ (exists id, x ∈ Q id) -> forall id, x ∉ F id) as Hfree.
  { intros x [->|Hx]; apply (sv_free _ _ _ _ _ _ _ I); auto. }
  constructor.
  - apply (rep_frame B s); [apply I|done|]. intros c x _. by apply (queue_only_field _ P).
  - done.
  - apply (slabs_frame F s); [apply I|done|]. intros id x Hx. cbn. f_equal. apply Hout.
    intros Hp. by apply (Hfree x (HP x Hp) id).
  - by apply (ready_same s), I.
  - intros x i' E' Hx. destruct (heap s !! x) as [i|] eqn:Ei.
    + destruct (queue_only_lookup _ _ _ _ _ Hqo Ei) as (a & b & E''). rewrite E' in E''. injection E'' as ->.
      destruct (sv_cell _ _ _ _ _ _ _ I x i Ei Hx) as [|He]; [by left|right]. apply (entry_same s); [done|]. by destruct He.
    + apply (f_equal (lookup x)) in E. rewrite !lookup_fmap, Ei in E. cbn in E'. by rewrite E' in E.
  - intros id x Hx Hxp. destruct (HQ' id x Hx) as [->|[id' Hx']]; [done|].
    destruct (sv_queue _ _ _ _ _ _ _ I id' x Hx' Hxp) as (i & Ei & Hl).
    destruct (queue_only_lookup _ _ _ _ _ Hqo Ei) as (a & b & E''). by eexists.
  - intros x [Hx|[[id Hx]|[= ->]]].
    + apply (sv_free _ _ _ _ _ _ _ I). auto.
    + by apply Hfree, (HQ' id).
    + apply Hfree. by left.
Qed.

Lemma sv_links_only n H B B' Q F s s' p :
  store_inv (Some p) n H B Q F s -> links_only s s' -> rep cfg B' s' ->
  (forall c x, x ∈ B' c -> x = p \/ exists c, x ∈ B c) ->
  store_inv (Some p) n H B' Q F s'.
Proof.
  intros I Hlo R' HB'. pose proof Hlo as (h & t & -> & E).
  assert (forall x, set_h_next 0 <$> h !! x = set_h_next 0 <$> heap s !! x) as Hf.
  { intros x. apply (f_equal (lookup x)) in E. by rewrite !lookup_fmap in E. }
  constructor.
  - done.
  - apply (lru_inv_frame Q s); [apply I|done|]. intros id x _. cbn. specialize (Hf x).
    destruct (h !! x), (heap s !! x); try done. cbn in *. apply (inj Some) in Hf. f_equal.
    apply (f_equal qinfo) in Hf. exact Hf.
  - apply (slabs_frame F s); [apply I|done|]. intros id x _. apply Hf.
  - by apply (ready_same s), I.
  - intros x i' E' Hx. cbn in E'. specialize (Hf x). rewrite E' in Hf. destruct (heap s !! x) as [i|] eqn:Ei; [|done].
    destruct (links_only_lookup _ _ _ _ Hlo Ei) as [v Hv]. cbn in Hv. rewrite E' in Hv. injection Hv as ->.
    destruct (sv_cell _ _ _ _ _ _ _ I x i Ei Hx) as [|He]; [by left|right]. apply (entry_same s); [done|]. by destruct He.
  - intros id x Hx Hxp. destruct (sv_queue _ _ _ _ _ _ _ I id x Hx Hxp) as (i & Ei & Hl).
    destruct (links_only_lookup _ _ _ _ Hlo Ei) as [v Hv]. by eexists.
  - intros x [[c Hx]|Hx].
    + destruct (HB' c x Hx) as [->|Hx']; apply (sv_free _ _ _ _ _ _ _ I); auto.
    + apply (sv_free _ _ _ _ _ _ _ I). auto.
Qed.

(** The operations on the hole. *)
Lemma sv_link_q n H B Q F s p i :
  store_inv (Some p) n H B Q F s -> heap s !! p = Some i -> has (it_flags i) ITEM_SLABBED = false -> p <> 0 ->
  (forall id, p ∉ Q id) ->
  wp (do_item_link_q cfg p)
     (fun _ s' => exists a b, heap s' !! p = Some (set_links a b i) /\
        store_inv (Some p) n H B (updF (McItem.slabs_clsid i) (p :: Q (McItem.slabs_clsid i)) Q) F s' /\
        exists P, queue_only P s s') s.
Proof.
  intros I Ei Hf H0 Hni. eapply wp_mono; [|apply (link_q_spec cfg Q s p i); [apply I|done..]].
  intros _ s' [L' Hqo]. destruct (queue_only_lookup _ _ _ _ _ Hqo Ei) as (a & b & E'). exists a, b. split; [done|].
  split; [|by eexists].
  eapply sv_queue_only; [done|done|done| |].
  - intros x [->|Hx]; [by left|right; by eexists].
  - intros id x Hx. unfold updF in Hx. case_decide; [|right; by eexists].
    apply elem_of_cons in Hx as [->|Hx]; [by left|right; by eexists].
Qed.

Lemma sv_unlink_q n H B Q F s p i id :
  store_inv (Some p) n H B Q F s -> p ∈ Q id -> heap s !! p = Some i ->
  wp (do_item_unlink_q cfg p)
     (fun _ s' => heap s' !! p = Some i /\
        store_inv (Some p) n H B (updF id (filter (fun x => x <> p) (Q id)) Q) F s' /\
        exists P, queue_only P s s') s.
Proof.
  intros I Hin Ei. eapply wp_mono; [|apply (unlink_q_spec cfg Q s id p i); [apply I|done..]].
  intros _ s' [L' Hqo]. split; [destruct Hqo as (h & l & -> & _ & Ho); cbn; rewrite Ho; [done|tauto]|].
  split; [|by eexists].
  eapply sv_queue_only; [done|done|done| |].
  - intros x [Hx _]. right. by eexists.
  - intros id' x Hx. unfold updF in Hx. case_decide; [|right; by eexists].
    apply list_elem_of_filter in Hx as [_ Hx]. right. by eexists.
Qed.

(** A deletion that finds nothing, as in a server without assertions. *)
Lemma assoc_delete_missing B s k hv :
  ndebug cfg = true -> rep cfg B s -> first_match (heap s) k (B (cell (tab s) hv)) = 0 ->
  wp (assoc_delete cfg k hv) (fun _ s' => s' = s) s.
Proof.
  intros Hd R H0. pose proof (rep_bucket cfg B s hv R) as Hb. unfold assoc_delete, hashitem_before.
  apply wp_bind, wp_bind, wp_gets. destruct (cell (tab s) hv) as [old b]. destruct Hb as [Hc Hl].
  apply wp_bind, wp_gets. eapply wp_mono; [|by apply (before_loop_spec _ k (Bucket old b) _ (B (old, b)) s eq_refl)].
  intros pos s' (-> & l1 & l2 & _ & _ & Hdr & _). rewrite H0 in Hdr. apply wp_bind. unfold wp at 1. rewrite Hdr.
  cbn [Z.eqb negb]. unfold cassert. rewrite Hd. by apply wp_ret.
Qed.

(** The chains after a deletion: those of before, without one item at most. *)
Lemma sv_assoc_delete n H B Q F s p i k hv :
  ndebug cfg = true -> store_inv (Some p) n H B Q F s -> heap s !! p = Some i ->
  wp (assoc_delete cfg k hv)
     (fun _ s' => exists B' v, heap s' !! p = Some (set_h_next v i) /\ store_inv (Some p) n H B' Q F s' /\
        exists h t, s' = with_heap h (with_tab t s)) s.
Proof.
  intros Hd I Ei. destruct (Z.eq_dec (first_match (heap s) k (B (cell (tab s) hv))) 0) as [H0|H0].
  - eapply wp_mono; [|by apply (assoc_delete_missing B); [|apply I|]]. intros _ s' ->. exists B, (h_next i).
    split; [rewrite Ei; by destruct i|]. split; [done|]. exists (heap s), (tab s). by destruct s.
  - eapply wp_mono; [|by apply (assoc_delete_spec cfg B); [apply I|]]. intros _ s' [R' Hlo].
    destruct (links_only_lookup _ _ _ _ Hlo Ei) as [v Hv]. eexists _, v. split; [done|].
    split; [|destruct Hlo as (h & t & -> & _); by eexists _, _].
    eapply sv_links_only; [done|done|done|]. intros c x Hx. right. unfold upd in Hx. case_decide; [|by eexists].
    apply list_elem_of_filter in Hx as [_ Hx]. by eexists.
Qed.

Lemma sv_assoc_insert n H B Q F s p i :
  store_inv (Some p) n H B Q F s -> heap s !! p = Some i -> p <> 0 -> (forall c, p ∉ B c) ->
  let c := cell (tab s) (hash cfg (key_of i)) in
  wp (assoc_insert p (hash cfg (key_of i)))
     (fun _ s' => exists v, heap s' !! p = Some (set_h_next v i) /\
        store_inv (Some p) n H (upd c (p :: B c) B) Q F s' /\ links_only s s' /\
        forall hv, cell (tab s') hv = cell (tab s) hv) s.
Proof.
  intros I Ei H0 Hni c. eapply wp_mono; [|by apply (assoc_insert_spec cfg B s p i); [apply I|..]].
  intros r s' (_ & R' & Hlo & Hcell). destruct (links_only_lookup _ _ _ _ Hlo Ei) as [v Hv]. exists v. split; [done|].
  split; [|done]. clear Hcell. eapply sv_links_only; [done|done|done|]. intros c' x Hx. unfold upd in Hx.
  case_decide; [|right; by eexists]. apply elem_of_cons in Hx as [->|Hx]; [by left|right; by eexists].
Qed.

(** ** Unlinking an item that others still refer to *)

(** What the work on queues and chains leaves alone. *)
Definition outer (s s' : mc) : Prop :=
  slb s' = slb s /\ trylocks s' = trylocks s /\ current_time s' = current_time s.

Lemma outer_trans s1 s2 s3 : outer s1 s2 -> outer s2 s3 -> outer s1 s3.
Proof. intros (A1 & A2 & A3) (B1 & B2 & B3). split_and!; congruence. Qed.

Lemma remove_held s p i (P : unit -> mc -> Prop) :
  heap s !! p = Some i -> has (it_flags i) ITEM_SLABBED = false -> 2 <= refcount i < 2 ^ 16 ->
  P tt (with_heap (<[p := set_refcount (refcount i - 1) i]> (heap s)) s) -> wp (do_item_remove cfg p) P s.
Proof.
  intros Ei Hf Hr HP. unfold do_item_remove. apply wp_bind. eapply wp_load; [done|].
  apply wp_bind. apply wp_cassert; [by rewrite Hf|]. apply wp_bind. apply wp_cassert; [lia|].
  apply wp_bind. eapply wp_refcount_decr; [done|]. rewrite wrap_small by (unfold in_width; lia).
  rewrite (proj2 (Z.eqb_neq _ _)) by lia. by apply wp_ret.
Qed.

(** The item after it was unlinked. *)
Definition unlinked (v : Z) (i : item) : item :=
  set_refcount (refcount i - 1) (set_h_next v (clear_flags ITEM_LINKED i)).

Lemma cas_linked_flags i : it_flags i = CAS_LINKED -> it_flags (clear_flags ITEM_LINKED i) = ITEM_CAS.
Proof. intros E. cbn. by rewrite E. Qed.

Lemma key_of_flags i f : has (it_flags i) ITEM_CAS = has f ITEM_CAS -> key_of (set_it_flags f i) = key_of i.
Proof. intros E. unfold key_of, bytes_at, ITEM_key, cas_size. cbn. by rewrite E. Qed.

Lemma sv_unlink n H B Q F s p i id hv :
  ndebug cfg = true -> store_inv (Some p) n H B Q F s -> p ∈ Q id -> heap s !! p = Some i -> it_flags i = CAS_LINKED ->
  2 <= refcount i < 2 ^ 16 ->
  wp (do_item_unlink_nolock cfg p hv)
     (fun _ s' => exists B' v, heap s' !! p = Some (unlinked v i) /\
        store_inv (Some p) n H B' (updF id (filter (fun x => x <> p) (Q id)) Q) F s' /\ outer s s') s.
Proof.
  intros Hd I Hin Ei Hf Hr. unfold do_item_unlink_nolock. apply wp_bind. eapply wp_load; [done|].
  replace (has (it_flags i) ITEM_LINKED) with true by by rewrite Hf. cbn [when].
  apply wp_bind. eapply wp_store; [done|].
  assert (key_of (clear_flags ITEM_LINKED i) = key_of i) as Hk by (apply key_of_flags; by rewrite Hf).
  pose proof (sv_store _ _ _ _ _ _ _ _ (clear_flags ITEM_LINKED i) I Ei ltac:(done) ltac:(done)) as I1.
  set (s1 := with_heap _ s) in *. set (i1 := clear_flags ITEM_LINKED i) in *.
  assert (heap s1 !! p = Some i1) as E1 by (cbn; by rewrite lookup_insert_eq).
  apply wp_bind. eapply wp_load; [exact E1|]. apply wp_bind. apply wp_modify.
  set (s2 := with_counts _ _ s1). assert (store_inv (Some p) n H B Q F s2) as I2 by by apply (sv_same _ _ _ _ _ _ s1).
  apply wp_bind. eapply wp_mono; [|apply (sv_assoc_delete n H B Q F s2 p i1); [done|done|exact E1]].
  intros _ s3 (B' & v & E3 & I3 & h & t & O3).
  apply wp_bind. eapply wp_mono; [|by apply (sv_unlink_q n H B' Q F s3 p (set_h_next v i1) id)].
  intros _ s4 (E4 & I4 & P4 & h' & l & O4 & _).
  eapply remove_held; [exact E4| |done|].
  { unfold i1. cbn. by rewrite Hf. }
  exists B', v. cbn [heap with_heap]. rewrite lookup_insert_eq. split; [done|].
  split; [|by rewrite O4, O3]. eapply sv_store; [exact I4|exact E4|done|done].
Qed.

Lemma entry_refs s H n m r i : entry s H n i -> 1 <= r <= m -> entry s H m (set_refcount r i).
Proof. intros [] Hr. by constructor. Qed.

Lemma entry_unlinked s H n v i :
  entry s H n i -> it_flags i = CAS_LINKED -> 2 <= refcount i -> entry s H n (unlinked v i).
Proof.
  intros [] Hf Hr. constructor; cbn; try done; try lia.
  - left. by rewrite Hf.
  - assert (key_of (unlinked v i) = key_of i /\ value_of 8 (unlinked v i) = value_of 8 i) as [-> ->]; [|done].
    unfold key_of, value_of, bytes_at, ITEM_key, ITEM_data, cas_size, cflags_size. cbn. by rewrite Hf.
Qed.

Lemma entry_links s H n a b i : entry s H n i -> entry s H n (set_links a b i).
Proof. by intros []. Qed.

Section Pull.
Context (trylock : mc -> Z -> bool) (rebalance_trylock : mc -> bool).
Hypothesis ds : dagger_settings cfg.

(** The item [it] a walk stops at, with a reference of the walk's own: it is in its queue,
    or about to move to [mv], or evicted. *)
Record stopped (n : Z) (H : list (list Z * list Z)) (F : Z -> list Z) (it mv : Z) (s : mc) : Prop := {
  st_inv : exists B Q, store_inv (Some it) n H B Q F s /\
    exists i, heap s !! it = Some i /\ entry s H (n + 1) i /\ 2 <= refcount i /\
      ((exists id, it ∈ Q id) \/ mv <> 0 -> it_flags i = CAS_LINKED /\ 3 <= refcount i) /\
      (mv <> 0 -> forall id, it ∉ Q id);
  st_mv : mv = 0 \/ mv = WARM_LRU \/ mv = COLD_LRU;
  st_it : it <> 0;
}.

(** The state after the reference was taken. *)
Definition referenced (s : mc) (p : Z) (i : item) : mc :=
  with_heap (<[p := set_refcount (refcount i + 1) i]> (heap s)) (with_trylocks (S (trylocks s)) s).

Lemma referenced_inv n H B Q F s p i id :
  store_inv None n H B Q F s -> p ∈ Q id -> heap s !! p = Some i ->
  store_inv (Some p) n H B Q F (referenced s p i) /\ linked i /\ entry s H n i /\ p <> 0.
Proof.
  intros I Hin Ei. destruct (sv_queue _ _ _ _ _ _ _ I id p Hin ltac:(done)) as (i' & Ei' & Hl).
  assert (i' = i) as -> by congruence.
  assert (forall id, p ∉ F id) as Hp by (apply (sv_free _ _ _ _ _ _ _ I); eauto).
  split; [|split; [done|split; [by eapply sv_entry|by apply (queue_dom Q s id); [apply I|]]]].
  assert (store_inv None n H B Q F (with_trylocks (S (trylocks s)) s)) as I' by by apply (sv_same _ _ _ _ _ _ s).
  exact (sv_store _ _ _ _ _ (with_trylocks (S (trylocks s)) s) p i (set_refcount (refcount i + 1) i)
           (sv_open _ _ _ _ _ _ p I' Hp) Ei ltac:(done) ltac:(done)).
Qed.

(** Stopping at an item that stays in its queue. *)
Lemma stay_stopped n H B Q F s p i id :
  store_inv None n H B Q F s -> p ∈ Q id -> heap s !! p = Some i -> stopped n H F p 0 (referenced s p i).
Proof.
  intros I Hin Ei. destruct (referenced_inv n H B Q F s p i id I Hin Ei) as (I1 & [Hf Hr] & He & H0).
  constructor; [|by left|done]. exists B, Q. split; [done|]. exists (set_refcount (refcount i + 1) i).
  split; [cbn; by rewrite lookup_insert_eq|]. pose proof (en_refs _ _ _ _ He).
  split; [apply (entry_refs _ _ n); [|lia]; by apply (entry_same s)|]. cbn. split; [lia|]. split; [|done]. intros _. split; [done|lia].
Qed.

(** Stopping at an item that leaves its queue for [mv]. *)
Lemma move_stopped n H B Q F s p i id mv :
  store_inv None n H B Q F s -> p ∈ Q id -> heap s !! p = Some i -> mv = WARM_LRU \/ mv = COLD_LRU ->
  wp (do_item_unlink_q cfg p) (fun _ s' => stopped n H F p mv s' /\ outer (referenced s p i) s') (referenced s p i).
Proof.
  intros I Hin Ei Hmv. destruct (referenced_inv n H B Q F s p i id I Hin Ei) as (I1 & [Hf Hr] & He & H0).
  pose proof (en_refs _ _ _ _ He) as Hb.
  eapply wp_mono; [|eapply sv_unlink_q; [exact I1|exact Hin|cbn; by rewrite lookup_insert_eq]].
  intros _ s' (E' & I' & P' & h & l & -> & _). split; [|done]. constructor; [|by right|done].
  eexists _, _. split; [exact I'|]. eexists. split; [exact E'|].
  split; [apply (entry_refs _ _ n); [|lia]; by apply (entry_same s)|]. cbn. split; [lia|]. split; [intros _; split; [done|lia]|].
  intros _ id' Hx. unfold updF in Hx. case_decide; [apply list_elem_of_filter in Hx as [? _]; done|].
  destruct (queue_disjoint Q s id' id p); [apply I|done|done|]. done.
Qed.

(** Unlinking the item, from the state after the reference was taken. *)
Lemma referenced_unlink n H B Q F s p i id hv :
  store_inv None n H B Q F s -> p ∈ Q id -> heap s !! p = Some i -> n < 2 ^ 16 - 1 ->
  wp (do_item_unlink_nolock cfg p hv)
     (fun _ s' => exists B' i', let Q' := updF id (filter (fun x => x <> p) (Q id)) Q in
        store_inv (Some p) n H B' Q' F s' /\ (forall id, p ∉ Q' id) /\ heap s' !! p = Some i' /\
        entry s' H n i' /\ refcount i' = refcount i /\ it_flags i' = ITEM_CAS /\ outer (referenced s p i) s')
     (referenced s p i).
Proof using ds.
  intros I Hin Ei Hn. destruct (referenced_inv n H B Q F s p i id I Hin Ei) as (I1 & [Hf Hr] & He & H0).
  pose proof (en_refs _ _ _ _ He) as Hb.
  eapply wp_mono; [|eapply sv_unlink; [apply ds|exact I1|exact Hin|cbn; by rewrite lookup_insert_eq|done|cbn; lia]].
  intros _ s' (B' & v & E' & I' & O'). eexists B', _. split; [exact I'|]. split.
  { intros id' Hx. unfold updF in Hx. case_decide; [by apply list_elem_of_filter in Hx as [? _]|].
    destruct (queue_disjoint Q s id' id p); [apply I|done|done|]. done. }
  split; [exact E'|]. split.
  { apply (entry_same s); [apply O'|].
    assert (unlinked v (set_refcount (refcount i + 1) i) = set_refcount (refcount i) (unlinked v i)) as ->.
    { unfold unlinked, set_refcount, set_h_next, clear_flags, set_it_flags. cbn. f_equal. lia. }
    apply (entry_refs _ _ n); [|lia]. by apply entry_unlinked. }
  split; [cbn; lia|]. split; [cbn; by rewrite Hf|done].
Qed.

Lemma evict_stopped n H B Q F s p i id hv :
  store_inv None n H B Q F s -> p ∈ Q id -> heap s !! p = Some i -> n < 2 ^ 16 - 1 ->
  wp (do_item_unlink_nolock cfg p hv)
     (fun _ s' => stopped n H F p 0 s' /\ outer (referenced s p i) s') (referenced s p i).
Proof using ds.
  intros I Hin Ei Hn. destruct (referenced_inv n H B Q F s p i id I Hin Ei) as (_ & [Hf Hr] & _ & H0).
  eapply wp_mono; [|by apply (referenced_unlink n H B Q F s p i id)].
  intros _ s' (B' & i' & I' & Hni & E' & He' & Hr' & Hf' & O'). split; [|done].
  constructor; [|by left|done]. eexists B', _. split; [exact I'|]. exists i'. split; [done|].
  split; [destruct He'; constructor; try done; lia|]. split; [lia|]. split; [|done].
  intros [[id' Hx]|?]; [by destruct (Hni id')|done].
Qed.

Lemma reclaim_spec n H B Q F s p i id hv :
  store_inv None n H B Q F s -> p ∈ Q id -> heap s !! p = Some i -> n < 2 ^ 16 - 1 ->
  wp (do_item_unlink_nolock cfg p hv ;; do_item_remove cfg p ;; ret (Again 1))
     (fun r s' => r = Again 1 /\
        (exists B', store_inv None n H B' (updF id (filter (fun x => x <> p) (Q id)) Q) F s') /\ outer (referenced s p i) s') (referenced s p i).
Proof using ds.
  intros I Hin Ei Hn. destruct (referenced_inv n H B Q F s p i id I Hin Ei) as (_ & [Hf Hr] & He & H0).
  pose proof (en_refs _ _ _ _ He) as Hb.
  apply wp_bind. eapply wp_mono; [|by apply (referenced_unlink n H B Q F s p i id)].
  intros _ s' (B' & i' & I' & Hni & E' & He' & Hr' & Hf' & O').
  apply wp_bind. eapply remove_held; [exact E'|by rewrite Hf'|lia|]. apply wp_ret. split; [done|]. split; [|done]. exists B'.
  eapply (sv_close _ _ _ _ _ _ p); [by eapply sv_store|cbn; by rewrite lookup_insert_eq| |].
  - apply (entry_refs _ _ n); [by apply (entry_same s')|lia].
  - intros [id' Hx]. by destruct (Hni id').
Qed.

(** One item of a queue. *)
Lemma pull_one_spec n H B Q F s p i id orig cur total flags age hv :
  store_inv None n H B Q F s -> p ∈ Q id -> heap s !! p = Some i -> n < 2 ^ 16 - 1 -> has flags LRU_PULL_RETURN_ITEM = false ->
  wp (pull_one cfg trylock rebalance_trylock orig id cur total flags age p hv)
     (fun r s' => slb s' = slb s /\ (trylocks s < trylocks s')%nat /\ current_time s' = current_time s /\
        match r with
        | Again _ => exists B' Q', store_inv None n H B' Q' F s' /\ (Q' id = Q id \/ Q' id = filter (fun x => x <> p) (Q id))
        | Stop _ it mv => it = p /\ stopped n H F p mv s'
        end) s.
Proof using ds.
  intros I Hin Ei Hn Hfl. pose proof (referenced_inv n H B Q F s p i id I Hin Ei) as (I1 & [Hf Hr] & He & H0).
  pose proof (en_refs _ _ _ _ He) as Hb.
  assert (forall s', outer (referenced s p i) s' -> slb s' = slb s /\ (trylocks s < trylocks s')%nat /\ current_time s' = current_time s) as Ho.
  { intros s' (-> & -> & ->). cbn. split_and!; [done|lia|done]. }
  unfold pull_one. apply wp_bind. unfold wp at 1, item_trylock. destruct (trylock s hv); cbn [negb].
  2: { apply wp_ret. split; [done|]. split; [cbn; lia|]. split; [done|]. exists B, Q. split; [by apply (sv_same _ _ _ _ _ _ s)|by left]. }
  apply wp_bind. eapply wp_refcount_incr; [exact Ei|]. rewrite wrap_small by (unfold in_width; lia).
  change (with_heap _ _) with (referenced s p i). cbv beta. set (i1 := set_refcount (refcount i + 1) i).
  assert (heap (referenced s p i) !! p = Some i1) as E1 by (cbn; by rewrite lookup_insert_eq).
  apply wp_bind. eapply wp_load; [exact E1|]. apply wp_bind, wp_gets.
  rewrite (ds_repair _ ds). cbn [Z.eqb negb]. rewrite andb_false_r. cbn [andb].
  apply wp_bind. unfold item_is_flushed. apply wp_bind. eapply wp_load; [exact E1|]. apply wp_bind, wp_gets, wp_ret.
  destruct (_ || _).
  { eapply wp_mono; [|by apply (reclaim_spec n H B Q F s p i id hv)].
    intros r s' (-> & (B' & I') & O'). destruct (Ho s' O') as (O1 & O2 & O3). split; [done|]. split; [done|]. split; [done|].
    eexists B', _. split; [exact I'|]. rewrite updF_same. by right. }
  assert (has (it_flags i1) ITEM_ACTIVE = false) as Hact by (cbn; by rewrite Hf).
  assert (slb (referenced s p i) = slb s /\ (trylocks s < trylocks (referenced s p i))%nat /\
          current_time (referenced s p i) = current_time s /\ p = p /\ stopped n H F p 0 (referenced s p i)) as Hstay.
  { split; [done|]. split; [cbn; lia|]. split; [done|]. split; [done|]. by eapply stay_stopped. }
  destruct ((cur =? HOT_LRU) || (cur =? WARM_LRU)).
  { unfold pull_hot_warm. apply wp_bind. eapply wp_load; [exact E1|]. apply wp_bind, wp_gets, wp_bind, wp_gets.
    rewrite Hact. destruct (_ || _); [|by apply wp_ret]. apply wp_bind.
    eapply wp_mono; [|apply (move_stopped n H B Q F s p i id COLD_LRU I Hin Ei); by right].
    intros _ s' [St O']. apply wp_ret. destruct (Ho s' O') as (O1 & O2 & O3). done. }
  destruct (cur =? COLD_LRU); [|by apply wp_ret].
  unfold pull_cold. apply wp_bind. eapply wp_load; [exact E1|]. rewrite Hfl, Hact. cbn [andb].
  destruct (has flags LRU_PULL_EVICT); [|by apply wp_ret].
  destruct (evict_to_free cfg); cbn [negb]; [|by apply wp_ret].
  apply wp_bind. eapply wp_mono; [|by apply (evict_stopped n H B Q F s p i id hv)].
  intros _ s' [St O']. apply wp_bind. rewrite (proj2 (Z.eqb_neq _ _) (ds_automove _ ds)). apply wp_ret, wp_ret.
  destruct (Ho s' O') as (O1 & O2 & O3). done.
Qed.

(** The walk. *)
Lemma pull_loop_spec fu n H B Q F s id orig cur total flags age tries removed search :
  store_inv None n H B Q F s -> n < 2 ^ 16 - 1 -> has flags LRU_PULL_RETURN_ITEM = false -> (0 < fu)%nat ->
  (search = 0 \/ exists l1 l2, Q id = l1 ++ search :: l2 /\ (length l1 + 1 < fu)%nat) ->
  wp (pull_loop cfg trylock rebalance_trylock fu orig id cur total flags age tries removed search)
     (fun r s' => slb s' = slb s /\ current_time s' = current_time s /\ (trylocks s <= trylocks s')%nat /\
        (trylocks s' = trylocks s -> s' = s) /\
        match r with
        | Some (_, it, mv, _) =>
            if it =? 0 then exists B' Q', store_inv None n H B' Q' F s'
            else stopped n H F it mv s' /\ (trylocks s < trylocks s')%nat
        | None => exists B' Q', store_inv None n H B' Q' F s'
        end) s.
Proof using ds.
  revert B Q s tries removed search. induction fu as [|fu IH]; intros B Q s tries removed search I Hn Hfl Hfu Hs; [lia|].
  cbn [pull_loop]. destruct ((0 <? tries) && negb (search =? 0)) eqn:Ec.
  2: { apply wp_ret. do 4 (split; [done|]). cbn [Z.eqb]. by exists B, Q. }
  apply andb_prop in Ec as [_ Ec]. destruct Hs as [->|(l1 & l2 & Eq & Hlen)]; [done|].
  assert (search ∈ Q id) as Hin by (rewrite Eq; set_solver).
  destruct (sv_queue _ _ _ _ _ _ _ I id search Hin ltac:(done)) as (i & Ei & _).
  apply wp_bind. eapply wp_load; [exact Ei|].
  pose proof (proj1 (proj2 (proj2 (referenced_inv n H B Q F s search i id I Hin Ei)))) as He.
  rewrite (en_nbytes _ _ _ _ He). cbn [Z.eqb andb].
  apply wp_bind. eapply wp_mono; [|by apply (pull_one_spec n H B Q F s search i id)].
  intros r s1 (O1 & O2 & O3 & Hr). destruct r as [d|d it mv].
  2: { apply wp_ret. destruct Hr as [-> St]. do 2 (split; [done|]). split; [lia|]. split; [lia|].
       by rewrite (proj2 (Z.eqb_neq _ _) (st_it _ _ _ _ _ _ St)). }
  destruct Hr as (B1 & Q1 & I1 & HQ1).
  destruct (queue_links Q s id search i l1 l2 (sv_lru _ _ _ _ _ _ _ I) Eq Ei) as (Hp & _ & Hpm & _).
  assert (prev i = 0 \/ exists l1' l2', Q1 id = l1' ++ prev i :: l2' /\ (length l1' + 1 < fu)%nat) as Hs1.
  { destruct l1 as [|y l1 _] using rev_ind; [left; by rewrite Hp|right]. rewrite last_of_snoc in Hp. rewrite Hp.
    rewrite length_app in Hlen. cbn in Hlen. rewrite <- app_assoc in Eq. cbn in Eq. exists l1.
    destruct HQ1 as [->| ->]; [exists (search :: l2); split; [done|lia]|]. exists l2. split; [|lia].
    rewrite Eq, (app_assoc l1 [y] (search :: l2) : l1 ++ y :: search :: l2 = _).
    rewrite filter_ne_middle; [by rewrite <- app_assoc|]. rewrite <- app_assoc. cbn. rewrite <- Eq.
    apply (li_nodup _ _ (sv_lru _ _ _ _ _ _ _ I)). }
  eapply wp_mono; [|apply (IH B1 Q1 s1); [done|done|done|lia|done]].
  intros r s' (P1 & P2 & P3 & P4 & Hr). split; [congruence|]. split; [congruence|]. split; [lia|]. split; [lia|].
  destruct r as [[[[? it] mv] ?]|]; [|done]. destruct (it =? 0); [done|]. split; [apply Hr|lia].
Qed.

Lemma queue_length Q s id : lru_inv Q s -> (length (Q id) <= size (heap s))%nat.
Proof.
  intros I. rewrite <- size_dom. rewrite <- (size_list_to_set (C := gset Z) (Q id)) by apply I.
  apply subseteq_size. intros x. rewrite elem_of_list_to_set, elem_of_dom. intros Hx. by apply (queue_dom Q s id).
Qed.

Lemma clsid_to_lru c mv : mv = WARM_LRU \/ mv = COLD_LRU -> Z.ldiff (Z.lor (Z.ldiff c 192) mv) 192 = Z.ldiff c 192.
Proof.
  intros Hmv. apply Z.bits_inj'. intros k Hk. rewrite !Z.ldiff_spec, Z.lor_spec, Z.ldiff_spec.
  assert (Z.testbit mv k && negb (Z.testbit 192 k) = false) as Hb.
  { rewrite <- Z.ldiff_spec. destruct Hmv as [-> | ->]; apply Z.bits_0. }
  destruct (Z.testbit c k), (Z.testbit mv k), (Z.testbit 192 k); done.
Qed.

(** An item that has left its queue goes to the queue [mv] of its class. *)
Lemma requeue_spec n H F s it mv :
  stopped n H F it mv s -> mv <> 0 ->
  wp (to_lru it mv ;; item_link_q cfg it) (fun _ s' => stopped n H F it 0 s' /\ outer s s') s.
Proof.
  intros [(B & Q & I & i & Ei & He & Hr & Hl & Hni) Hmv H0] Hmv0. destruct Hl as [Hf Hr3]; [by right|]. specialize (Hni Hmv0).
  unfold to_lru, item_link_q. apply wp_bind, wp_bind. eapply wp_store; [exact Ei|].
  eapply wp_store; [cbn; by rewrite lookup_insert_eq|]. cbn [heap with_heap]. rewrite insert_insert_eq.
  set (c := Z.lor (ITEM_clsid i) mv).
  match goal with |- wp _ _ (with_heap (<[it := ?i0]> _) _) => set (i1 := i0) end.
  assert (i1 = set_slabs_clsid c i) as Ei1 by done.
  assert (with_heap (<[it := i1]> (heap s)) (with_heap (<[it := set_slabs_clsid (ITEM_clsid i) i]> (heap s)) s) =
          with_heap (<[it := i1]> (heap s)) s) as -> by by destruct s.
  assert (store_inv (Some it) n H B Q F (with_heap (<[it := i1]> (heap s)) s)) as I1.
  { eapply sv_store; [exact I|exact Ei|by rewrite Ei1|]. intros [id Hx]. by destruct (Hni id). }
  eapply wp_mono; [|eapply sv_link_q; [exact I1|cbn; by rewrite lookup_insert_eq|by rewrite Ei1; cbn; rewrite Hf|done|done]].
  intros _ s' (a & b & E' & I' & P' & h & l & O' & _). split; [|by rewrite O'].
  constructor; [|by left|done]. eexists _, _. split; [exact I'|]. eexists. split; [exact E'|]. rewrite Ei1.
  split; [|split; [done|split; [done|done]]]. apply (entry_same s); [by rewrite O'|].
  destruct He. assert (ITEM_clsid (set_slabs_clsid c i) = ITEM_clsid i) as Ec.
  { unfold ITEM_clsid, c. cbn. apply clsid_to_lru. tauto. }
  constructor; try done; unfold chunk_of; change (ITEM_clsid (set_links a b ?j)) with (ITEM_clsid j); by rewrite Ec.
Qed.

(** Dropping the reference of the walk. *)
Lemma drop_spec n H F s it :
  stopped n H F it 0 s -> n < 2 ^ 16 - 1 ->
  wp (do_item_remove cfg it) (fun _ s' => (exists B Q, store_inv None n H B Q F s') /\ outer s s') s.
Proof.
  intros [(B & Q & I & i & Ei & He & Hr & Hl & _) _ _] Hn. pose proof (en_refs _ _ _ _ He) as Hb.
  eapply remove_held; [exact Ei|by destruct (en_flags _ _ _ _ He) as [-> | ->]|lia|]. split; [|done]. exists B, Q.
  eapply (sv_close _ _ _ _ _ _ it); [by eapply sv_store|cbn; by rewrite lookup_insert_eq| |].
  - apply (entry_refs _ _ (n + 1)); [by apply (entry_same s)|lia].
  - intros Hx. destruct Hl as [Hf Hr3]; [by left|]. split; [done|cbn; lia].
Qed.

(** Pulling from a queue keeps the invariant and frees nothing. *)
Lemma lru_pull_spec n H B Q F s orig cur total flags age :
  store_inv None n H B Q F s -> n < 2 ^ 16 - 1 -> has flags LRU_PULL_RETURN_ITEM = false ->
  wp (lru_pull_tail cfg trylock rebalance_trylock orig cur total flags age)
     (fun _ s' => (exists B' Q', store_inv None n H B' Q' F s') /\ slb s' = slb s /\ current_time s' = current_time s /\
        (trylocks s <= trylocks s')%nat /\ (trylocks s' = trylocks s -> s' = s)) s.
Proof using ds.
  intros I Hn Hfl. unfold lru_pull_tail. destruct (orig =? 0); [apply wp_ret; split; [by exists B, Q|done]|].
  apply wp_bind, wp_gets, wp_bind, wp_gets, wp_bind. set (id := Z.lor orig cur).
  pose proof (sv_lru _ _ _ _ _ _ _ I) as L.
  assert (tail_of id s = 0 \/ exists l1 l2, Q id = l1 ++ tail_of id s :: l2 /\ (length l1 + 1 < fuel s)%nat) as Ht.
  { rewrite (li_tail _ _ L). pose proof (queue_length Q s id L) as Hlen. unfold fuel.
    destruct (Q id) as [|y l _] using rev_ind; [by left|right]. rewrite last_of_snoc. exists l, []. split; [done|].
    rewrite length_app in Hlen. cbn in Hlen. lia. }
  eapply wp_mono; [|apply (pull_loop_spec (fuel s) n H B Q F s id); [done|done|done|unfold fuel; lia|exact Ht]].
  intros r s1 (O1 & O2 & O3 & O4 & Hr). destruct r as [[[[removed it] mv] hv]|]; [|apply wp_ret; done].
  destruct (it =? 0); [apply wp_ret; done|]. destruct Hr as [St1 Hlt]. apply wp_bind.
  apply (wp_mono _ (fun _ s2 => stopped n H F it 0 s2 /\ outer s1 s2)).
  2: { destruct (Z.eqb_spec mv 0) as [->|]; cbn [negb when]; [by apply wp_ret|]. by apply requeue_spec. }
  intros _ s2 [St2 P2]. rewrite Hfl. cbn [negb when]. apply wp_bind. eapply wp_mono; [|by apply (drop_spec n H F s2 it)].
  intros _ s3 [I3 P3]. apply wp_ret. split; [done|]. destruct (outer_trans _ _ _ P2 P3) as (X1 & X2 & X3).
  split; [congruence|]. split; [congruence|]. split; lia.
Qed.
End Pull.
End Store.
