(* ===== verification/McServe.v ===== *)
(** * memcached: what the Dagger server answers

    On top of the invariant of [McStore]: allocating an item, the set and get handlers,
    and runs of the server.  A get never returns anything but a value that was set for its
    key; as long as nothing had to be evicted it returns the latest one; and once a slab
    class is full every set into it fails for good, since the handlers never drop the
    references they take. *)

From stdpp Require Import gmap.
From S2P Require Import Prelude Wire McHash McItem McLists McAssoc McTable McSlabs McAlloc McSlabRun McItems McQueues McDagger McStore.

Section New_items.
Context (cfg : settings).

(** ** Allocating *)

(** Nothing happened to the chains. *)
Definition quiet (B : bool * Z -> list Z) (s s' : mc) : Prop :=
  tab s' = tab s /\ forall c x, x ∈ B c -> heap s' !! x = heap s !! x.

Lemma quiet_refl B s : quiet B s s.
Proof. done. Qed.

Lemma quiet_trans B s1 s2 s3 : quiet B s1 s2 -> quiet B s2 s3 -> quiet B s1 s3.
Proof. intros [A1 A2] [B1 B2]. split; [congruence|]. intros c x Hx. by rewrite (B2 c), (A2 c). Qed.

(** A chunk [r] of class [id] that has just been allocated. *)
Definition new_item (n : Z) H B Q F (id r : Z) (s : mc) : Prop :=
  store_inv cfg (Some r) n H B Q F s /\ (forall c, r ∉ B c) /\ (forall id, r ∉ Q id) /\ r <> 0 /\
  exists i, heap s !! r = Some i /\ refcount i = 1 /\ it_flags i = 0 /\ McItem.slabs_clsid i = id /\ chunk_of s id i.

Lemma entry_frame s s' H n i : alloc_frame s s' -> entry s H n i -> entry s' H n i.
Proof.
  intros A []. constructor; try done; [by apply (chunk_of_frame s s')|]. by destruct A as (_ & -> & _).
Qed.

Lemma alloc_frame_rest s s' : alloc_frame s s' ->
  tab s' = tab s /\ lru s' = lru s /\ trylocks s' = trylocks s /\ current_time s' = current_time s.
Proof. intros (_ & _ & _ & _ & E). destruct s, s'. cbn in *. by injection E as -> -> -> -> -> -> -> -> ->. Qed.

(** What an allocation does to the invariant. *)
Lemma alloc_post_store n H B Q F s id r s' :
  store_inv cfg None n H B Q F s -> POWER_SMALLEST <= id <= power_largest (slb s) -> alloc_post F s id r s' ->
  exists F', (if r =? 0 then store_inv cfg None n H B Q F' s' /\ F' id = [] else new_item n H B Q F' id r s') /\
    alloc_frame s s' /\ quiet B s s'.
Proof.
  intros I Hid (F' & I' & A' & L' & O' & M' & U' & R' & K' & V' & Hcase). exists F'.
  destruct (alloc_frame_rest s s' A') as (Et & El & _ & _).
  assert (forall p, (exists c, p ∈ B c) \/ (exists id, p ∈ Q id) ->
            is_Some (heap s !! p) /\ heap s' !! p = heap s !! p /\ (forall id, p ∉ F' id)) as Hkeep.
  { intros p Hp. assert (forall id, p ∉ F id) as HpF by (apply (sv_free _ _ _ _ _ _ _ _ I); tauto).
    assert (is_Some (heap s !! p)) as Hs.
    { destruct Hp as [[c Hp]|[id' Hp]]; [by eapply rep_list; [apply I|]|by apply (queue_dom Q s id'); [apply I|]]. }
    split; [done|]. split; [by apply O'|]. intros id' Hx. apply M' in Hx as [Hx|Hx]; [by eapply HpF|]. rewrite Hx in Hs. by destruct Hs. }
  assert (ready cfg s') as Rd.
  { apply (ready_frame cfg s); [done|apply I|]. intros id' Hid'. destruct (decide (id' = id)) as [->|Hne]; [done|].
    rewrite (proj1 (K' _ Hne)). pose proof (sv_ready _ _ _ _ _ _ _ _ I) as (_ & _ & Hc & _). by apply Hc. }
  assert (store_inv cfg (if r =? 0 then None else Some r) n H B Q F' s') as Hsv.
  { constructor.
    - apply (rep_frame cfg B s); [apply I|done|]. intros c p Hp. by destruct (Hkeep p ltac:(eauto)) as (_ & -> & _).
    - apply (lru_inv_frame Q s); [apply I|done|]. intros id' p Hp. by destruct (Hkeep p ltac:(eauto)) as (_ & -> & _).
    - done.
    - done.
    - intros p i E Hp. destruct (V' p ltac:(by eexists)) as [?|[[-> H0]|[Hs HpF]]]; [by left| |].
      + by rewrite (proj2 (Z.eqb_neq r 0)) in Hp.
      + pose proof (O' p Hs HpF) as Eh. rewrite E in Eh. symmetry in Eh.
        destruct (sv_cell _ _ _ _ _ _ _ _ I p i Eh ltac:(done)) as [[id' Hx]|He]; [|right; by apply (entry_frame s)].
        left. exists id'. rewrite (proj2 (K' id' ltac:(by intros ->))). done.
    - intros id' p Hp _. destruct (Hkeep p ltac:(eauto)) as (_ & -> & _). by apply (sv_queue _ _ _ _ _ _ _ _ I id').
    - intros p [Hp|[Hp|Hp]]; [apply Hkeep; auto..|]. destruct (Z.eqb_spec r 0); [done|]. by injection Hp as ->. }
  split; [|split; [done|split; [done|]]]; [|intros c x Hx; by destruct (Hkeep x ltac:(eauto)) as (_ & -> & _)].
  destruct (Z.eqb_spec r 0) as [->|Hr]; [done|]. destruct Hcase as (R0 & RF & Hi).
  assert (forall x, (exists c, x ∈ B c) \/ (exists id, x ∈ Q id) -> x <> r) as Hne.
  { intros x Hx ->. destruct (Hkeep r Hx) as (Hs & _ & _). destruct RF as [RF|RF]; [|rewrite RF in Hs; by destruct Hs].
    apply (sv_free _ _ _ _ _ _ _ _ I r ltac:(tauto) id RF). }
  split; [done|]. split; [intros c Hx; by apply (Hne r); eauto|]. split; [intros id' Hx; by apply (Hne r); eauto|done].
Qed.
End New_items.

(** ** Writing an item *)
(** The clock stands still, locks are only tried, and without a try the chains stay. *)
Definition later (B B' : bool * Z -> list Z) (s s' : mc) : Prop :=
  current_time s' = current_time s /\ (trylocks s <= trylocks s')%nat /\
  (trylocks s' = trylocks s -> B' = B /\ quiet B s s').

Lemma later_trans B1 B2 B3 s1 s2 s3 : later B1 B2 s1 s2 -> later B2 B3 s2 s3 -> later B1 B3 s1 s3.
Proof.
  intros (A1 & A2 & A3) (C1 & C2 & C3). split; [congruence|]. split; [lia|]. intros E.
  destruct A3 as [-> A3]; [lia|]. destruct C3 as [-> C3]; [lia|]. split; [done|by eapply quiet_trans].
Qed.

Definition put (p : Z) (i : item) (s : mc) : mc := with_heap (<[p := i]> (heap s)) s.

Lemma put_put p i j s : put p j (put p i s) = put p j s.
Proof. unfold put. cbn. rewrite insert_insert_eq. by destruct s. Qed.

Lemma put_lookup p i s : heap (put p i s) !! p = Some i.
Proof. apply lookup_insert_eq. Qed.

Lemma wp_store_put p f i s (P : unit -> mc -> Prop) : P tt (put p (f i) s) -> wp (store p f) P (put p i s).
Proof. intros HP. eapply wp_store; [apply put_lookup|]. by rewrite <- (put_put p i) in HP. Qed.

Lemma wp_load_put p i s (P : item -> mc -> Prop) : P i (put p i s) -> wp (load p) P (put p i s).
Proof. intros HP. eapply wp_load; [apply put_lookup|done]. Qed.

Lemma wp_copy_in p off bs i s (P : unit -> mc -> Prop) :
  0 <= off -> off + Z.of_nat (length bs) <= Z.of_nat (length (data i)) ->
  P tt (put p (set_data (splice (Z.to_nat off) bs (data i)) i) s) -> wp (copy_in p off bs) P (put p i s).
Proof.
  intros H0 Hlen HP. unfold wp, copy_in. rewrite put_lookup. unfold put_bytes.
  rewrite (proj2 (Z.leb_le 0 off)), (proj2 (Z.leb_le _ _)) by done. cbn [andb].
  change (with_heap ?h (put p i s)) with (with_heap h (put p i s)). by rewrite <- (put_put p i) in HP.
Qed.

(** The item with the key and the value, as far as it has been written. *)
Record filled (key : list Z) (id exptime : Z) (i0 i : item) : Prop := {
  fi_flags : it_flags i = ITEM_CAS;
  fi_nkey : nkey i = 8;
  fi_nbytes : nbytes i = 8;
  fi_key : key_of i = key;
  fi_refs : refcount i = refcount i0;
  fi_class : McItem.slabs_clsid i = u8 (Z.lor id HOT_LRU);
  fi_exptime : McItem.exptime i = exptime;
  fi_data : length (data i) = length (data i0);
}.

(** The class in the low bits of [slabs_clsid]. *)
Lemma clsid_low id : 0 <= id < 64 -> Z.ldiff (u8 (Z.lor id HOT_LRU)) 192 = id.
Proof.
  intros Hid. change HOT_LRU with 0. rewrite Z.lor_0_r, wrap_small by (unfold in_width; lia).
  apply Z.bits_inj'. intros k Hk. rewrite Z.ldiff_spec. destruct (Z.lt_ge_cases k 6) as [Hlt|Hge].
  - replace (Z.testbit 192 k) with false; [by rewrite andb_true_r|].
    assert (k = 0 \/ k = 1 \/ k = 2 \/ k = 3 \/ k = 4 \/ k = 5) as Hc by lia.
    by repeat (destruct Hc as [->|Hc]; [done|]); rewrite Hc.
  - replace (Z.testbit id k) with false; [done|]. symmetry. destruct (Z.eq_dec id 0) as [->|]; [apply Z.bits_0|].
    apply Z.bits_above_log2; [lia|]. assert (Z.log2 id < 6) by (apply Z.log2_lt_pow2; lia). lia.
Qed.

Lemma put_quiet B s p i : (forall c, p ∉ B c) -> quiet B s (put p i s).
Proof. intros Hp. split; [done|]. intros c x Hx. cbn. rewrite lookup_insert_ne; [done|]. intros ->. by apply (Hp c). Qed.

(** Nothing happened to what the chains [B] hold. *)
Definition same_contents (B : bool * Z -> list Z) (s s' : mc) : Prop :=
  (forall hv, cell (tab s') hv = cell (tab s) hv) /\
  forall c x, x ∈ B c -> content <$> heap s' !! x = content <$> heap s !! x.

Lemma same_contents_trans B s1 s2 s3 : same_contents B s1 s2 -> same_contents B s2 s3 -> same_contents B s1 s3.
Proof. intros [A1 A2] [C1 C2]. split; [congruence|]. intros c x Hx. by rewrite (C2 c), (A2 c). Qed.

Lemma quiet_same_contents B s s' : quiet B s s' -> same_contents B s s'.
Proof. intros [Et Hh]. split; [by rewrite Et|]. intros c x Hx. by rewrite (Hh c). Qed.

Lemma content_value i i' : content i' = content i -> value_of 8 i' = value_of 8 i.
Proof. unfold content. intros [= E1 E2 E3 E4]. unfold value_of, bytes_at, ITEM_data. by rewrite E1, E2, E3, E4. Qed.

Lemma content_same_key k i i' : content i' = content i -> same_key k i' = same_key k i.
Proof. unfold content. intros [= E1 E2 E3 E4]. unfold same_key, bytes_at, ITEM_key. by rewrite E1, E2, E4. Qed.

Lemma first_match_content h h' k l :
  (forall x, x ∈ l -> content <$> h' !! x = content <$> h !! x) -> first_match h' k l = first_match h k l.
Proof.
  induction l as [|x l IH]; intros Hl; cbn; [done|]. specialize (Hl x ltac:(set_solver)) as Hx.
  destruct (h' !! x) as [i'|], (h !! x) as [i|]; try done. cbn in Hx. apply (inj Some) in Hx.
  rewrite (content_same_key k i i' Hx). case_match; [done|]. apply IH. intros y Hy. apply Hl. set_solver.
Qed.

(** A write of the CAS id in front of the key. *)
Lemma cas_content i v : it_flags i = CAS_LINKED \/ it_flags i = ITEM_CAS -> nkey i = 8 -> 25 <= Z.of_nat (length (data i)) ->
  let i' := set_data (splice 0 (le_bytes 8 v) (data i)) i in
  key_of i' = key_of i /\ value_of 8 i' = value_of 8 i /\ length (data i') = length (data i).
Proof.
  intros Hf Hk Hd i'. assert (0 + length (le_bytes 8 v) <= length (data i))%nat as Hlen by (rewrite length_le_bytes; lia).
  assert (cas_size i = 8 /\ cflags_size i = 0) as [Ec Ef] by (unfold cas_size, cflags_size; destruct Hf as [-> | ->]; done).
  unfold key_of, value_of, bytes_at, ITEM_key, ITEM_data. change (cas_size i') with (cas_size i). change (cflags_size i') with (cflags_size i).
  change (nkey i') with (nkey i). rewrite Ec, Ef, Hk. cbn [data i' set_data].
  split; [apply slice_splice_after; [done|rewrite length_le_bytes; lia]|].
  split; [apply slice_splice_after; [done|rewrite length_le_bytes; lia]|]. by apply length_splice.
Qed.

(** Changes of the counters and of the CAS id. *)
Definition sides (s s' : mc) : Prop :=
  heap s' = heap s /\ tab s' = tab s /\ slb s' = slb s /\ lru s' = lru s /\ trylocks s' = trylocks s.

Lemma wp_add_counts_put a b r i s (P : unit -> mc -> Prop) :
  (forall s', sides s s' -> P tt (put r i s')) -> wp (add_counts a b) P (put r i s).
Proof.
  intros HP. apply wp_modify.
  apply (HP (with_counts (u64 (curr_items (put r i s) + a)) (u64 (curr_bytes (put r i s) + b)) s)). done.
Qed.

Lemma wp_get_cas_id_put r i s (P : Z -> mc -> Prop) :
  (forall v s', sides s s' -> P v (put r i s')) -> wp get_cas_id P (put r i s).
Proof.
  intros HP. unfold get_cas_id. apply wp_bind, wp_modify, wp_gets.
  apply (HP _ (with_cas_id (u64 (cas_id (put r i s) + 1)) s)). done.
Qed.

(** A write of the value behind the key. *)
Lemma value_content i value : it_flags i = ITEM_CAS -> nkey i = 8 -> 25 <= Z.of_nat (length (data i)) -> length value = 8%nat ->
  let i' := set_data (splice (Z.to_nat (ITEM_data i)) value (data i)) i in
  ITEM_data i = 17 /\ key_of i' = key_of i /\ value_of 8 i' = value /\ length (data i') = length (data i).
Proof.
  intros Hf Hk Hd Hv i'. assert (cas_size i = 8 /\ cflags_size i = 0) as [Ec Ef] by (unfold cas_size, cflags_size; by rewrite Hf).
  assert (ITEM_data i = 17) as Hdata by (unfold ITEM_data; rewrite Ec, Ef, Hk; done). split; [done|].
  assert (Z.to_nat 17 + length value <= length (data i))%nat as Hlen by (rewrite Hv; lia).
  unfold key_of, value_of, bytes_at. change (ITEM_data i') with (ITEM_data i). change (ITEM_key i') with (ITEM_key i).
  change (nkey i') with (nkey i). unfold ITEM_key. rewrite Hdata, Ec, Hk. cbn [data i' set_data]. rewrite Hdata.
  split; [apply slice_splice_before; [done|lia]|]. split; [|by apply length_splice].
  change (Z.to_nat 8) with 8%nat. rewrite <- Hv. by apply slice_splice_same.
Qed.

Lemma entry_key_ok s H n i : entry s H n i -> key_ok i.
Proof.
  intros []. unfold key_ok, key_of, bytes_at, ITEM_key. rewrite en_nkey.
  assert (cas_size i = 8) as -> by (unfold cas_size; destruct en_flags as [-> | ->]; done).
  unfold slice. rewrite length_take, length_drop. lia.
Qed.

Lemma first_match_entry h k l :
  (forall p, p ∈ l -> p <> 0 /\ exists i, h !! p = Some i /\ key_ok i) -> first_match h k l <> 0 ->
  first_match h k l ∈ l /\ exists i, h !! first_match h k l = Some i /\ key_of i = k.
Proof.
  induction l as [|x l IH]; intros Hl; cbn [first_match]; [done|].
  destruct (Hl x ltac:(set_solver)) as (Hx & i & Ei & Hok). rewrite Ei. destruct (same_key k i) eqn:Es.
  - intros _. split; [set_solver|]. exists i. split; [done|]. by apply same_key_spec.
  - intros H0. destruct IH as [Hin Hi]; [intros p Hp; apply Hl; set_solver|done|]. split; [set_solver|done].
Qed.

Section Serve.
Context (cfg : settings) (malloc_result : mc -> Z -> Z).
Context (trylock : mc -> Z -> bool) (rebalance_trylock : mc -> bool) (process_started : Z).
Hypothesis ds : dagger_settings cfg.
Hypothesis malloc_fresh : forall s sz, malloc_result s sz <> 0 -> fresh_block s (malloc_result s sz) sz.

Lemma pull_later n H B Q F s orig cur flags :
  store_inv cfg None n H B Q F s -> n < 2 ^ 16 - 1 -> has flags LRU_PULL_RETURN_ITEM = false ->
  wp (lru_pull_tail cfg trylock rebalance_trylock orig cur 0 flags 0)
     (fun _ s' => exists B' Q', store_inv cfg None n H B' Q' F s' /\ slb s' = slb s /\ later B B' s s') s.
Proof using ds.
  intros I Hn Hfl. eapply wp_mono; [|by apply (lru_pull_spec cfg trylock rebalance_trylock ds n H B Q F s)].
  intros r s' ((B' & Q' & I') & O1 & O2 & O3 & O4). destruct (decide (trylocks s' = trylocks s)) as [E|E].
  - rewrite (O4 E) in *. exists B, Q. done.
  - exists B', Q'. split; [done|]. split; [done|]. split; [done|]. split; [done|]. by intros ?.
Qed.

Lemma clsid_same s s' sz : slb s' = slb s -> slabs_clsid cfg s' sz = slabs_clsid cfg s sz.
Proof.
  intros E. unfold slabs_clsid. rewrite E. destruct (_ || _); [done|]. generalize POWER_SMALLEST.
  induction (Z.to_nat _) as [|k IH]; intros res; cbn; [by rewrite E|]. unfold cls. rewrite E, IH. done.
Qed.

(** The ten rounds: a new item, or none. *)
Lemma pull_rounds_spec k n H B Q F s sz :
  store_inv cfg None n H B Q F s -> n < 2 ^ 16 - 1 -> 0 < sz <= slab_chunk_size_max cfg ->
  let id := slabs_clsid cfg s sz in
  wp (pull_rounds cfg malloc_result trylock rebalance_trylock k sz id)
     (fun r s' => exists B' Q' F', later B B' s s' /\ slabs_clsid cfg s' sz = id /\
        if r =? 0 then store_inv cfg None n H B' Q' F' s' else new_item cfg n H B' Q' F' id r s') s.
Proof using ds malloc_fresh.
  revert B Q F s. induction k as [|k IH]; intros B Q F s I Hn Hsz id; cbn [pull_rounds].
  { apply wp_ret. exists B, Q, F. cbn [Z.eqb]. done. }
  rewrite (ds_segmented _ ds). cbn [negb]. apply wp_bind, wp_ret. apply wp_bind.
  pose proof (sv_ready _ _ _ _ _ _ _ _ I) as Rd.
  destruct (clsid_first_fit cfg s sz Rd Hsz) as (Hid & Hfit & _). fold id in Hid, Hfit.
  destruct Rd as (N & _ & Hc & _).
  eapply wp_mono; [|apply (slabs_alloc_spec cfg malloc_result malloc_fresh F); [apply I|apply N|by apply Hc|done|done]].
  intros r s1 Hpost. apply (alloc_post_store cfg n H B Q F s id r s1 I Hid) in Hpost as (F1 & Hr & A1 & Hq1).
  destruct (alloc_frame_rest s s1 A1) as (_ & _ & T1 & C1).
  assert (later B B s s1) as L1 by (split; [done|]; split; [lia|done]).
  assert (slabs_clsid cfg s1 sz = id) as Eid1 by by apply clsid_frame.
  destruct (Z.eqb_spec r 0) as [->|Hr0].
  2: { apply wp_ret. exists B, Q, F1. rewrite (proj2 (Z.eqb_neq r 0)) by done. done. }
  destruct Hr as [I1 _]. apply wp_bind. eapply wp_mono; [|by apply (pull_later n H B Q F1 s1)].
  intros [removed ?] s2 (B2 & Q2 & I2 & O2 & L2).
  assert (slabs_clsid cfg s2 sz = id) as Eid2 by (by rewrite (clsid_same s1)).
  destruct (removed <=? 0).
  - apply wp_bind. eapply wp_mono; [|by apply (pull_later n H B2 Q2 F1 s2)].
    intros _ s3 (B3 & Q3 & I3 & O3 & L3).
    assert (slabs_clsid cfg s3 sz = id) as Eid3 by (by rewrite (clsid_same s2)). rewrite <- Eid3.
    eapply wp_mono; [|by apply (IH B3 Q3 F1 s3)]. intros r s4 (B4 & Q4 & F4 & L4 & E4 & Hr4).
    exists B4, Q4, F4. split; [|done]. eauto using later_trans.
  - rewrite <- Eid2. eapply wp_mono; [|by apply (IH B2 Q2 F1 s2)]. intros r s4 (B4 & Q4 & F4 & L4 & E4 & Hr4).
    exists B4, Q4, F4. split; [|done]. eauto using later_trans.
Qed.

(** ** Writing the new item *)
Lemma fill_spec s it i key exptime id :
  length key = 8%nat -> it_flags i = 0 -> 25 <= Z.of_nat (length (data i)) ->
  wp (fill_item cfg it key 0 exptime 8 0 id 0)
     (fun _ s' => exists i', filled key id exptime i i' /\ s' = put it i' s) (put it i s).
Proof using ds.
  intros Hk Hf Hd. unfold fill_item. rewrite Hk. apply wp_bind, wp_load_put, wp_bind, wp_cassert; [by rewrite Hf|].
  apply wp_bind, wp_store_put. apply wp_bind, wp_gets. unfold initial_lru.
  rewrite (ds_temp _ ds), (ds_segmented _ ds), (ds_cas _ ds). cbn [andb negb Z.eqb].
  do 4 (apply wp_bind, wp_store_put). apply wp_bind, wp_load_put.
  set (j := set_sizes _ _ _).
  assert (it_flags j = ITEM_CAS) as Hj by (unfold j; cbn; by rewrite Hf).
  assert (ITEM_key j = 8) as Hkey by (unfold ITEM_key, cas_size; by rewrite Hj).
  rewrite Hkey. apply wp_bind, wp_copy_in; [lia|rewrite Hk; cbn; lia|].
  apply wp_bind, wp_store_put. cbn [Z.ltb Z.compare when]. apply wp_bind, wp_ret. rewrite Hj. cbn [has Z.land Z.eqb negb when].
  apply wp_bind, wp_ret. apply wp_store_put. eexists. split; [|done].
  assert (Z.to_nat 8 + length key <= length (data j))%nat as Hlen by (rewrite Hk; cbn; lia).
  constructor; try done.
  - unfold key_of, bytes_at, ITEM_key, cas_size. cbn [it_flags set_h_next set_exptime set_data nkey data].
    rewrite Hj. change (Z.to_nat (if has ITEM_CAS ITEM_CAS then 8 else 0)) with (Z.to_nat 8).
    replace (Z.to_nat (nkey j)) with (length key) by by rewrite Hk. by apply slice_splice_same.
  - cbn [data set_h_next set_exptime set_data]. by rewrite length_splice.
Qed.

(** An item [r] of class [id] that is about to be linked. *)
Definition pending (n : Z) H B Q F (key : list Z) (r : Z) (i : item) (s : mc) : Prop :=
  store_inv cfg (Some r) n H B Q F s /\ (forall c, r ∉ B c) /\ (forall id, r ∉ Q id) /\ r <> 0 /\
  heap s !! r = Some i /\ it_flags i = ITEM_CAS /\ nkey i = 8 /\ nbytes i = 8 /\ key_of i = key /\ refcount i = 1 /\
  chunk_of s (ITEM_clsid i) i /\ POWER_SMALLEST <= ITEM_clsid i <= power_largest (slb s) /\
  25 <= Z.of_nat (length (data i)).

(** Writes to a pending item. *)
Lemma pending_put n H B Q F key r i i' s :
  pending n H B Q F key r i s ->
  it_flags i' = it_flags i -> nkey i' = nkey i -> nbytes i' = nbytes i -> key_of i' = key_of i ->
  refcount i' = refcount i -> McItem.slabs_clsid i' = McItem.slabs_clsid i -> length (data i') = length (data i) ->
  pending n H B Q F key r i' (put r i' s).
Proof.
  intros (I & HB & HQ & H0 & Ei & P1 & P2 & P3 & P4 & P5 & P6 & P7 & P8) E1 E2 E3 E4 E5 E6 E7.
  split; [eapply sv_store; [exact I|exact Ei|intros [c Hc]; by destruct (HB c)|intros [id Hid]; by destruct (HQ id)]|].
  split; [done|]. split; [done|]. split; [done|]. split; [apply put_lookup|].
  unfold chunk_of, ITEM_clsid in *. rewrite E1, E2, E3, E4, E5, E6, E7. done.
Qed.

Lemma alloc_item_spec n H B Q F s key exptime :
  store_inv cfg None n H B Q F s -> n < 2 ^ 16 - 1 -> length key = 8%nat ->
  wp (do_item_alloc cfg malloc_result trylock rebalance_trylock key 0 exptime 8)
     (fun r s' => exists B' Q' F', later B B' s s' /\
        if r =? 0 then store_inv cfg None n H B' Q' F' s' else exists i, pending n H B' Q' F' key r i s') s.
Proof using ds malloc_fresh.
  intros I Hn Hk. unfold do_item_alloc. rewrite Hk. cbn [Z.ltb Z.compare]. cbv beta iota zeta delta [item_make_header].
  rewrite (ds_cas _ ds). change (u64 (u64 _ + 8)) with 73. pose proof (ds_chunk _ ds) as Hc. cbv iota.
  apply wp_bind, wp_gets. set (id := slabs_clsid cfg s 73).
  destruct (clsid_first_fit cfg s 73 (sv_ready _ _ _ _ _ _ _ _ I) ltac:(lia)) as (Hid & Hfit & _). fold id in Hid, Hfit.
  rewrite (proj2 (Z.eqb_neq id 0)) by (unfold POWER_SMALLEST in *; lia).
  rewrite (proj2 (Z.ltb_ge _ _)) by lia. apply wp_bind, wp_ret. apply wp_bind.
  eapply wp_mono; [|apply (pull_rounds_spec 10 n H B Q F s 73); [done|done|lia]].
  intros r s1 (B1 & Q1 & F1 & L1 & Eid & Hr). destruct (Z.eqb_spec r 0) as [->|Hr0].
  { apply wp_ret. exists B1, Q1, F1. cbn [Z.eqb]. done. }
  destruct Hr as (I1 & HB & HQ & _ & i & Ei & Href & Hfl & Hcl & Hch). cbn [when]. apply wp_bind, wp_ret.
  pose proof (sv_ready _ _ _ _ _ _ _ _ I1) as Rd1.
  destruct (clsid_first_fit cfg s1 73 Rd1 ltac:(lia)) as (Hid1 & Hfit1 & _). rewrite Eid in Hid1, Hfit1. fold id in Hid1, Hfit1, Hch.
  assert (25 <= Z.of_nat (length (data i))) as Hd by (unfold chunk_of, sizeof_item in Hch; lia).
  assert (s1 = put r i s1) as Es1 by (unfold put; rewrite insert_id by done; by destruct s1).
  apply wp_bind. rewrite Es1. eapply wp_mono; [|by apply (fill_spec s1 r i key exptime id)].
  intros _ s2 (i2 & [] & ->). apply wp_ret. exists B1, Q1, F1. split.
  { eapply later_trans; [exact L1|]. split; [done|]. split; [done|]. intros _. split; [done|by apply put_quiet]. }
  rewrite (proj2 (Z.eqb_neq r 0)) by done. exists i2.
  assert (ITEM_clsid i2 = id) as Ec.
  { unfold ITEM_clsid. rewrite fi_class0. apply clsid_low. destruct Rd1 as (_ & Hpl & _).
    unfold POWER_SMALLEST, MAX_NUMBER_OF_SLAB_CLASSES in *. lia. }
  split; [eapply sv_store; [exact I1|exact Ei|intros [c Hx]; by destruct (HB c)|intros [id' Hx]; by destruct (HQ id')]|].
  split; [done|]. split; [done|]. split; [done|]. split; [apply put_lookup|]. rewrite Ec. unfold chunk_of in *. rewrite fi_data0, fi_refs0.
  split_and!; try done; apply Hid1.
Qed.

(** ** Linking the new item *)

(** The first half of [do_item_link]: the flag, the time, the counters and the CAS id. *)
Lemma link_fields_spec {A} (k : M mc A) r i s (P : A -> mc -> Prop) :
  it_flags i = ITEM_CAS -> nkey i = 8 -> 25 <= Z.of_nat (length (data i)) ->
  (forall i' s', sides s s' -> it_flags i' = CAS_LINKED -> nkey i' = 8 -> nbytes i' = nbytes i -> key_of i' = key_of i ->
     value_of 8 i' = value_of 8 i -> refcount i' = refcount i -> McItem.slabs_clsid i' = McItem.slabs_clsid i ->
     length (data i') = length (data i) -> wp k P (put r i' s')) ->
  wp (store r (add_flags ITEM_LINKED) ;;
      let! now := gets current_time in
      store r (set_time now) ;;
      let! i := load r in
      add_counts 1 (ITEM_ntotal i) ;;
      ITEM_set_cas r (if use_cas cfg then get_cas_id else ret 0) ;; k) P (put r i s).
Proof using ds.
  intros P1 P2 P8 HP. apply wp_bind, wp_store_put. apply wp_bind, wp_gets. apply wp_bind, wp_store_put. apply wp_bind, wp_load_put.
  set (i2 := set_time _ (add_flags ITEM_LINKED i)).
  assert (it_flags i2 = CAS_LINKED) as Hf2 by (unfold i2; cbn; by rewrite P1).
  apply wp_bind. apply wp_add_counts_put. intros s2 S2.
  unfold ITEM_set_cas. apply wp_bind, wp_bind, wp_load_put. rewrite Hf2. change (has CAS_LINKED ITEM_CAS) with true. cbn [when].
  rewrite (ds_cas _ ds). apply wp_bind. apply wp_get_cas_id_put. intros v s3 S3.
  apply wp_copy_in; [lia|rewrite length_le_bytes; cbn; lia|].
  destruct (cas_content i2 v (or_introl Hf2) P2 P8) as (K1 & K2 & K3).
  assert (key_of i2 = key_of i) as Ek by (apply (key_of_flags i (Z.lor (it_flags i) ITEM_LINKED)); by rewrite P1).
  assert (value_of 8 i2 = value_of 8 i) as Ev.
  { unfold value_of, bytes_at, ITEM_data, cas_size, cflags_size. change (nkey i2) with (nkey i). change (data i2) with (data i).
    by rewrite Hf2, P1. }
  apply HP; try done.
  - destruct S2 as (? & ? & ? & ? & ?), S3 as (? & ? & ? & ? & ?). split_and!; congruence.
  - exact (eq_trans K1 Ek).
  - exact (eq_trans K2 Ev).
Qed.

(** The second half: the table, the queue and the reference of the link. *)
Lemma link_structures_spec n H B Q F key r i s :
  store_inv cfg (Some r) n H B Q F s -> (forall c, r ∉ B c) -> (forall id, r ∉ Q id) -> r <> 0 ->
  heap s !! r = Some i -> it_flags i = CAS_LINKED -> key_of i = key -> refcount i = 1 -> entry s H n i -> 2 <= n ->
  let c := cell (tab s) (hash cfg key) in
  wp (assoc_insert r (hash cfg key) ;; item_link_q cfg r ;; refcount_incr r ;; ret 1)
     (fun _ s' => exists Q' i', store_inv cfg None n H (upd c (r :: B c) B) Q' F s' /\ heap s' !! r = Some i' /\
        key_of i' = key_of i /\ nkey i' = nkey i /\ value_of 8 i' = value_of 8 i /\ same_contents B s s' /\
        trylocks s' = trylocks s) s.
Proof using ds.
  intros I HB HQ H0 Ei Hf <- Hr He Hn c. apply wp_bind.
  eapply wp_mono; [|by apply (sv_assoc_insert cfg n H B Q F s r i)]. intros _ s1 (v & E1 & I1 & Hlo & Hcell).
  apply wp_bind. eapply wp_mono; [|eapply (sv_link_q cfg); [exact I1|exact E1|cbn; by rewrite Hf|done|done]].
  intros _ s2 (a & b & E2 & I2 & P2 & Hqo). apply wp_bind. eapply wp_refcount_incr; [exact E2|]. apply wp_ret.
  cbn [refcount set_links set_h_next] in *. rewrite Hr in *. change (u16 (1 + 1)) with 2.
  set (i3 := set_refcount 2 _). eexists _, i3. split.
  { eapply (sv_close cfg _ _ _ _ _ _ r i3).
    - eapply sv_store; [exact I2|exact E2|done|done].
    - cbn. by rewrite lookup_insert_eq.
    - apply (entry_refs _ _ n); [|lia]. apply entry_links. destruct Hlo as (h & t & -> & _). destruct Hqo as (h' & l & -> & _).
      apply (entry_same s); [done|]. by destruct He.
    - done. }
  split; [cbn; by rewrite lookup_insert_eq|]. split; [done|]. split; [done|]. split; [done|].
  assert (same_contents B s s2 /\ trylocks s2 = trylocks s) as [Hc Ht].
  { split; [split|].
    - intros hv. destruct Hqo as (h' & l & -> & _). apply Hcell.
    - intros c' x Hx. rewrite (queue_only_field content P2 s1 s2) by done. destruct (heap s !! x) as [ix|] eqn:Ex.
      + by destruct (links_only_lookup _ _ _ _ Hlo Ex) as [u ->].
      + destruct Hlo as (h & t & -> & Eh). apply (f_equal (lookup x)) in Eh. rewrite !lookup_fmap, Ex in Eh. cbn.
        by destruct (h !! x).
    - destruct Hlo as (h & t & -> & _). by destruct Hqo as (h' & l & -> & _). }
  split; [|done]. eapply same_contents_trans; [exact Hc|]. split; [done|]. intros c' x Hx. cbn.
  rewrite lookup_insert_ne; [done|]. intros ->. by destruct (HB c').
Qed.

Lemma link_item_spec n H B Q F key value r i s :
  pending n H B Q F key r i s -> value_of 8 i = value -> (key, value) ∈ H -> 2 <= n ->
  let c := cell (tab s) (hash cfg key) in
  wp (do_item_link cfg r (hash cfg key))
     (fun _ s' => exists Q' i', store_inv cfg None n H (upd c (r :: B c) B) Q' F s' /\ heap s' !! r = Some i' /\
        key_of i' = key /\ nkey i' = 8 /\ value_of 8 i' = value /\ same_contents B s s' /\ trylocks s' = trylocks s) s.
Proof using ds.
  intros (I & HB & HQ & H0 & Ei & P1 & P2 & P3 & P4 & P5 & P6 & P7 & P8) Hv Hin Hn c.
  assert (s = put r i s) as Es by (unfold put; rewrite insert_id by done; by destruct s).
  unfold do_item_link. rewrite Es. apply wp_bind, wp_load_put. apply wp_bind. apply wp_cassert; [by rewrite P1|].
  apply link_fields_spec; [done|done|done|]. intros i' s' S' F1 F2 F3 F4 F5 F6 F7 F8.
  destruct S' as (S1 & S2 & S3 & S4 & S5).
  assert (store_inv cfg (Some r) n H B Q F (put r i' s')) as I'.
  { eapply (sv_store cfg _ _ _ _ _ s'); [by apply (sv_same cfg _ _ _ _ _ _ s)|by rewrite S1|..];
      [intros [c' Hc]; by destruct (HB c')|intros [id Hid]; by destruct (HQ id)]. }
  assert (cell (tab (put r i' s')) (hash cfg key) = c) as Ec by (unfold c; cbn; by rewrite S2).
  eapply wp_mono; [|apply (link_structures_spec n H B Q F key r i' _ I' HB HQ H0 (put_lookup r i' s') F1);
    [by rewrite F4|by rewrite F6| |done]].
  - intros _ s2 (Q2 & i2 & I2 & E2 & K1 & K2 & K3 & K4 & K5). rewrite Ec in I2. rewrite Es in *. exists Q2, i2.
    split; [done|]. split; [done|]. split; [congruence|]. split; [congruence|]. split; [congruence|].
    split; [|by rewrite K5]. eapply same_contents_trans; [|exact K4]. split; [cbn; by rewrite S2|].
    intros c' x Hx. cbn. rewrite S1. do 2 (rewrite lookup_insert_ne by (intros ->; by apply (HB c'))). done.
  - constructor; try done; [by right|congruence|rewrite F4, F5, P4, Hv; done|lia|..].
    + unfold chunk_of, ITEM_clsid, cls in *. cbn. rewrite S3, F7, F8. done.
    + unfold ITEM_clsid in *. cbn. rewrite S3, F7. done.
    + lia.
Qed.

(** ** The handlers *)
Lemma store_mono h n H kv B Q F s : store_inv cfg h n H B Q F s -> store_inv cfg h n (kv :: H) B Q F s.
Proof.
  intros I. constructor; try apply I. intros p i E Hp. destruct (sv_cell _ _ _ _ _ _ _ _ I p i E Hp) as [|[]]; [by left|right].
  constructor; try done. set_solver.
Qed.

(** What a set does: with status 0 the new entry is the first of its chain. *)
Lemma mc_set_spec n H B Q F s key value :
  store_inv cfg None n H B Q F s -> 2 <= n < 2 ^ 16 - 1 -> length key = 8%nat -> length value = 8%nat ->
  wp (set cfg malloc_result trylock rebalance_trylock process_started key value)
     (fun st s' => exists B' Q' F', (trylocks s <= trylocks s')%nat /\
        if st =? 0 then
          let c := cell (tab s') (hash cfg key) in exists r i,
          store_inv cfg None n ((key, value) :: H) (upd c (r :: B' c) B') Q' F' s' /\
          r <> 0 /\ heap s' !! r = Some i /\ key_of i = key /\ nkey i = 8 /\ value_of 8 i = value /\
          (trylocks s' = trylocks s -> B' = B /\ same_contents B s s')
        else st = 1 /\ store_inv cfg None n H B' Q' F' s' /\ (trylocks s' = trylocks s -> B' = B /\ same_contents B s s')) s.
Proof using ds malloc_fresh.
  intros I Hn Hk Hv. unfold set, realtime, item_alloc. apply wp_bind, wp_bind, wp_gets, wp_ret. apply wp_bind.
  eapply wp_mono; [|apply (alloc_item_spec n H B Q F s key); [done|lia|done]].
  intros r s1 (B1 & Q1 & F1 & (_ & L2 & L3) & Hr). destruct (Z.eqb_spec r 0) as [->|Hr0].
  { apply wp_ret. exists B1, Q1, F1. split; [done|]. cbn [Z.eqb]. split; [done|]. split; [done|].
    intros E. destruct (L3 E) as [-> Hq]. split; [done|by apply quiet_same_contents]. }
  destruct Hr as (i & Pd). pose proof Pd as (_ & HB & _ & _ & Ei & P1 & P2 & _ & P4 & _ & _ & _ & P8).
  assert (s1 = put r i s1) as Es by (unfold put; rewrite insert_id by done; by destruct s1).
  rewrite Es. unfold ITEM_set_cas. apply wp_bind, wp_bind, wp_load_put. rewrite P1. change (has ITEM_CAS ITEM_CAS) with true.
  cbn [when]. apply wp_bind, wp_ret. apply wp_copy_in; [lia|rewrite length_le_bytes; lia|].
  destruct (cas_content i 0 (or_intror P1) P2 P8) as (K1 & _ & K3). set (i1 := set_data _ i) in *.
  apply wp_bind, wp_load_put. destruct (value_content i1 value P1 P2 ltac:(unfold i1; cbn in *; lia) Hv) as (D1 & D2 & D3 & D4).
  apply wp_bind. apply wp_copy_in; [lia|rewrite D1, Hv; unfold i1; cbn in *; lia|]. set (i2 := set_data _ i1) in *.
  apply wp_bind, wp_load_put. assert (key_of i2 = key) as Hk2 by (rewrite <- P4, D2; exact K1). rewrite Hk2. apply wp_bind.
  assert (pending n ((key, value) :: H) B1 Q1 F1 key r i2 (put r i2 s1)) as Pd2.
  { apply (pending_put _ _ _ _ _ _ _ i); try done; [|congruence|by rewrite D4; exact K3].
    destruct Pd as (I1 & Prest). split; [by apply store_mono|done]. }
  eapply wp_mono; [|apply (link_item_spec n ((key, value) :: H) B1 Q1 F1 key value r i2); [exact Pd2|done|set_solver|lia]].
  intros _ s3 (Q3 & i3 & I3 & E3 & M1 & M2 & M3 & M4 & M5). apply wp_ret. exists B1, Q3, F1.
  split; [by rewrite M5|]. cbn [Z.eqb]. cbn zeta. exists r, i3. rewrite (proj1 M4). split; [done|].
  do 5 (split; [done|]). rewrite M5. intros E. destruct (L3 E) as [-> Hq]. split; [done|].
  eapply same_contents_trans; [by apply quiet_same_contents|].
  eapply same_contents_trans; [by apply quiet_same_contents, (put_quiet B s1 r i2)|done].
Qed.

(** *** Looking up *)
Lemma store_refs h n m H B Q F s : store_inv cfg h n H B Q F s -> n <= m -> store_inv cfg h m H B Q F s.
Proof.
  intros I Hm. constructor; try apply I. intros p i E Hp. destruct (sv_cell _ _ _ _ _ _ _ _ I p i E Hp) as [|[]]; [by left|right].
  constructor; try done. lia.
Qed.

Definition found (B : bool * Z -> list Z) (s : mc) (k : list Z) : Z :=
  first_match (heap s) k (B (cell (tab s) (hash cfg k))).

Lemma found_entry n H B Q F s k :
  store_inv cfg None n H B Q F s -> found B s k <> 0 ->
  (exists c, found B s k ∈ B c) /\ exists i, heap s !! found B s k = Some i /\ key_of i = k /\ entry s H n i.
Proof.
  intros I H0. set (c := cell (tab s) (hash cfg k)).
  assert (forall p, p ∈ B c -> exists i, heap s !! p = Some i /\ entry s H n i) as Hent.
  { intros p Hp. destruct (rep_list cfg B s c (sv_rep _ _ _ _ _ _ _ _ I)) as [_ Hd]. destruct (Hd p Hp) as [i Ei].
    exists i. split; [done|]. eapply sv_entry; [done|done|]. apply (sv_free _ _ _ _ _ _ _ _ I). left. by eexists. }
  destruct (first_match_entry (heap s) k (B c)) as (Hin & i & Ei & Hk); [|done|].
  { intros p Hp. destruct (Hent p Hp) as (i & Ei & He).
    destruct (rep_list cfg B s c (sv_rep _ _ _ _ _ _ _ _ I)) as [Hz _]. split; [by intros ->|].
    exists i. split; [done|by eapply entry_key_ok]. }
  split; [by eexists|]. exists i. split; [done|]. split; [done|]. destruct (Hent _ Hin) as (i' & Ei' & He). assert (i' = i) as -> by congruence. done.
Qed.

Lemma mc_get_spec n H B Q F s key buf :
  store_inv cfg None n H B Q F s -> n < 2 ^ 16 - 1 ->
  wp (process_get cfg 0 key buf)
     (fun '(_, st, v) s' => store_inv cfg None (n + 1) H B Q F s' /\ slb s' = slb s /\ trylocks s' = trylocks s /\ same_contents B s s' /\
        if found B s key =? 0 then st = 1
        else st = 0 /\ exists i, heap s !! found B s key = Some i /\ v = value_of 8 i ++ drop 8 buf /\ (key, value_of 8 i) ∈ H) s.
Proof using ds malloc_fresh.
  intros I Hn. unfold process_get. apply wp_bind.
  eapply wp_mono; [|apply (assoc_find_spec cfg B); apply I]. intros r s1 [-> ->]. fold (found B s key).
  destruct (Z.eqb_spec (found B s key) 0) as [E0|E0]; cbn [negb].
  { apply wp_bind, wp_ret, wp_ret. split; [apply (store_refs _ n); [done|lia]|]. do 3 (split; [done|]). done. }
  destruct (found_entry n H B Q F s key I E0) as ([c Hin] & i & Ei & Hk & He).
  assert (forall id, found B s key ∉ F id) as HF by (apply (sv_free _ _ _ _ _ _ _ _ I); left; by eexists).
  pose proof (en_refs _ _ _ _ He) as Hr. pose proof He as [].
  apply wp_bind, wp_bind. eapply wp_refcount_incr; [exact Ei|]. rewrite wrap_small by (unfold in_width; lia). apply wp_ret.
  set (i1 := set_refcount _ i). apply wp_bind. unfold read_data. apply wp_bind.
  eapply wp_load; [cbn; by rewrite lookup_insert_eq|].
  assert (ITEM_data i1 = 17) as Hd.
  { unfold ITEM_data, cas_size, cflags_size. cbn. rewrite en_nkey. destruct en_flags as [-> | ->]; done. }
  rewrite Hd. rewrite (proj2 (Z.leb_le _ _)) by (cbn; lia). apply wp_ret, wp_ret.
  split.
  { eapply (sv_close cfg _ _ _ _ _ _ (found B s key) i1).
    - eapply sv_store; [|exact Ei|done|done]. apply sv_open; [|done]. apply (store_refs _ n); [done|lia].
    - cbn. by rewrite lookup_insert_eq.
    - apply (entry_refs _ _ n); [by apply (entry_same s)|lia].
    - intros [id Hq]. destruct (sv_queue _ _ _ _ _ _ _ _ I id _ Hq ltac:(done)) as (i' & Ei' & Hl1 & Hl2).
      assert (i' = i) as -> by congruence. split; [done|cbn; lia]. }
  do 2 (split; [done|]). split.
  { split; [done|]. intros c' x Hx. cbn. destruct (decide (x = found B s key)) as [->|]; [by rewrite lookup_insert_eq, Ei|].
    by rewrite lookup_insert_ne. }
  split; [done|]. exists i. rewrite <- Hk at 2. done.
Qed.
End Serve.
