(* ===== verification/McAnswers.v ===== *)
(** * memcached: the answers of the Dagger server

    Runs of the server from its start: which values its get requests return, and what
    becomes of set requests when the memory of a slab class is used up. *)

From stdpp Require Import gmap.
From S2P Require Import Prelude Wire McHash McItem McLists McAssoc McTable McSlabs McAlloc McSlabRun McItems McQueues McDagger McStore McServe.

(** The value of the latest of the sets [H], which come last first. *)
Fixpoint latest (k : list Z) (H : list (list Z * list Z)) : option (list Z) :=
  match H with
  | [] => None
  | (k', v) :: H' => if decide (k' = k) then Some v else latest k H'
  end.

(** What the answers must be after the sets [H]: a value that was set for the key, or none;
    and the latest one when [exact]. *)
Fixpoint answers (exact : Prop) (H : list (list Z * list Z)) (rs : list request) (rsp : list response) : Prop :=
  match rs, rsp with
  | [], [] => True
  | RSet k v :: rs', Status st :: rsp' =>
      st = 0 /\ answers exact ((k, v) :: H) rs' rsp' \/ st = 1 /\ answers exact H rs' rsp'
  | RGet k :: rs', Value st v :: rsp' =>
      (st = 0 /\ (k, v) ∈ H \/ st = 1) /\
      (exact -> match latest k H with Some v' => st = 0 /\ v = v' | None => st = 1 end) /\
      answers exact H rs' rsp'
  | RTick _ :: rs', Nothing :: rsp' => answers exact H rs' rsp'
  | RPull _ _ _ _ :: rs', Nothing :: rsp' => answers exact H rs' rsp'
  | _, _ => False
  end.

Definition request_ok (r : request) : bool :=
  match r with
  | RSet k v => (length k =? 8)%nat && (length v =? 8)%nat
  | RGet k => (length k =? 8)%nat
  | _ => true
  end.

Fixpoint gets_in (rs : list request) : Z :=
  match rs with
  | [] => 0
  | RGet _ :: rs' => 1 + gets_in rs'
  | _ :: rs' => gets_in rs'
  end.

Lemma gets_in_nonneg rs : 0 <= gets_in rs.
Proof. induction rs as [|[] rs IH]; cbn; lia. Qed.

Section Answers.
Context (cfg : settings) (malloc_result : mc -> Z -> Z).
Context (trylock : mc -> Z -> bool) (rebalance_trylock : mc -> bool) (process_started : Z).
Hypothesis ds : dagger_settings cfg.
Hypothesis malloc_fresh : forall s sz, malloc_result s sz <> 0 -> fresh_block s (malloc_result s sz) sz.

(** The table finds the latest values. *)
Definition up_to_date (B : bool * Z -> list Z) (s : mc) (H : list (list Z * list Z)) : Prop :=
  forall k, latest k H = if found cfg B s k =? 0 then None else value_of 8 <$> heap s !! found cfg B s k.

Lemma found_contents B s s' k : same_contents B s s' -> found cfg B s' k = found cfg B s k.
Proof.
  intros [Hc Hh]. unfold found. rewrite Hc. apply first_match_content. intros x Hx. by apply (Hh (cell (tab s) (hash cfg k))).
Qed.

Lemma first_match_in h k l : first_match h k l <> 0 -> first_match h k l ∈ l.
Proof.
  induction l as [|x l IH]; cbn; [done|]. case_match; [|done]. case_match; [set_solver|]. intros Hx. apply IH in Hx. set_solver.
Qed.

Lemma contents_value B s s' c x :
  same_contents B s s' -> x ∈ B c -> value_of 8 <$> heap s' !! x = value_of 8 <$> heap s !! x.
Proof.
  intros [_ Hh] Hx. specialize (Hh c x Hx). destruct (heap s' !! x) as [i'|], (heap s !! x) as [i|]; try done.
  cbn in *. apply (inj Some) in Hh. f_equal. by apply content_value.
Qed.

Lemma up_to_date_same B s s' H : same_contents B s s' -> up_to_date B s H -> up_to_date B s' H.
Proof.
  intros Hc Hu k. rewrite (found_contents B s s' k Hc), Hu. destruct (Z.eqb_spec (found cfg B s k) 0) as [|E]; [done|].
  symmetry. eapply contents_value; [done|]. by apply first_match_in.
Qed.

(** A new entry at the front of its chain. *)
Lemma up_to_date_set B s s' H r i key value :
  same_contents B s s' -> up_to_date B s H -> r <> 0 -> heap s' !! r = Some i -> key_of i = key -> nkey i = 8 ->
  length key = 8%nat -> value_of 8 i = value ->
  let c := cell (tab s') (hash cfg key) in up_to_date (upd c (r :: B c) B) s' ((key, value) :: H).
Proof.
  intros Hc Hu Hr Ei Hk Hn Hlen Hv c k. assert (key_ok i) as Hok by (unfold key_ok; rewrite Hk, Hn, Hlen; done).
  pose proof (up_to_date_same B s s' H Hc Hu) as Hu'. cbn [latest]. unfold found at 1 2.
  destruct (decide (key = k)) as [<-|Hne].
  - fold c. rewrite upd_same. cbn [first_match]. rewrite Ei, (proj2 (same_key_spec key i Hok) Hk).
    rewrite (proj2 (Z.eqb_neq r 0)), Ei by done. cbn. by rewrite Hv.
  - rewrite (Hu' k). unfold found. unfold upd. case_decide as Ec; [|done].
    cbn [first_match]. rewrite Ei. destruct (same_key k i) eqn:Es; [|by rewrite Ec].
    apply same_key_spec in Es; [congruence|done].
Qed.

(** ** Runs *)

(** The state between two requests, after the sets [H], with entries of at most [n]
    references; [t] lock attempts ago the table was still up to date. *)
Definition serving (t : nat) (n : Z) (H : list (list Z * list Z)) (s : mc) : Prop :=
  (t <= trylocks s)%nat /\ exists B Q F, store_inv cfg None n H B Q F s /\ (trylocks s = t -> up_to_date B s H).

Lemma handle_set t n H s k v :
  serving t n H s -> 2 <= n < 2 ^ 16 - 1 -> length k = 8%nat -> length v = 8%nat ->
  wp (handle cfg malloc_result trylock rebalance_trylock process_started (RSet k v))
     (fun a s' => (trylocks s <= trylocks s')%nat /\
        (a = Status 0 /\ serving t n ((k, v) :: H) s' \/ a = Status 1 /\ serving t n H s')) s.
Proof using ds malloc_fresh.
  intros (Ht & B & Q & F & I & Hu) Hn Hk Hv. cbn [handle]. unfold process_set. apply wp_bind, wp_bind.
  eapply wp_mono; [|by apply (mc_set_spec cfg malloc_result trylock rebalance_trylock process_started ds malloc_fresh n H B Q F)].
  intros st s' (B' & Q' & F' & Hle & Hst). apply wp_ret, wp_ret. split; [done|].
  destruct (Z.eqb_spec st 0) as [->|Hst0].
  - destruct Hst as (r & i & I' & Hr & Ei & Hki & Hni & Hvi & Hq). left. split; [done|]. split; [lia|].
    eexists _, _, _. split; [exact I'|]. intros E. destruct Hq as [-> Hc]; [lia|].
    eapply up_to_date_set; try done. apply Hu. lia.
  - destruct Hst as (-> & I' & Hq). right. split; [done|]. split; [lia|]. eexists _, _, _. split; [exact I'|].
    intros E. destruct Hq as [-> Hc]; [lia|]. eapply up_to_date_same; [done|]. apply Hu. lia.
Qed.

Lemma handle_get t n H s k :
  serving t n H s -> n < 2 ^ 16 - 1 -> length k = 8%nat ->
  wp (handle cfg malloc_result trylock rebalance_trylock process_started (RGet k))
     (fun a s' => slb s' = slb s /\ trylocks s' = trylocks s /\ serving t (n + 1) H s' /\
        exists st v, a = Value st v /\ (st = 0 /\ (k, v) ∈ H \/ st = 1) /\
          (trylocks s = t -> match latest k H with Some v' => st = 0 /\ v = v' | None => st = 1 end)) s.
Proof using ds malloc_fresh.
  intros (Ht & B & Q & F & I & Hu) Hn Hk. cbn [handle]. apply wp_bind.
  eapply wp_mono; [|by apply (mc_get_spec cfg malloc_result ds malloc_fresh n H B Q F s k (replicate 8 0))].
  intros [[ts st] v] s' (I' & Es & Etl & Hc & Hres). apply wp_ret. split; [done|]. split; [done|]. split.
  { split; [lia|]. exists B, Q, F. split; [done|]. intros E. eapply up_to_date_same; [done|]. apply Hu. lia. }
  exists st, v. split; [done|]. destruct (Z.eqb_spec (found cfg B s k) 0) as [E0|E0].
  - subst st. split; [by right|]. intros E. rewrite (Hu E k), E0. done.
  - destruct Hres as (-> & i & Ei & -> & Hin). rewrite app_nil_r. split; [left; done|]. intros E. rewrite (Hu E k), Ei.
    by rewrite (proj2 (Z.eqb_neq _ _) E0).
Qed.

Lemma handle_other t n H s r :
  serving t n H s -> n < 2 ^ 16 - 1 -> (match r with RTick _ | RPull _ _ _ _ => true | _ => false end = true) ->
  wp (handle cfg malloc_result trylock rebalance_trylock process_started r)
     (fun a s' => slb s' = slb s /\ (trylocks s <= trylocks s')%nat /\ a = Nothing /\ serving t n H s') s.
Proof using ds.
  intros (Ht & B & Q & F & I & Hu) Hn Hr. destruct r as [| |now|id l total age]; [done|done|..]; cbn [handle]; apply wp_bind.
  - apply wp_modify, wp_ret. do 4 (split; [done|]). exists B, Q, F. split; [by apply (sv_same cfg _ _ _ _ _ _ s)|done].
  - eapply wp_mono; [|by apply (lru_pull_spec cfg trylock rebalance_trylock ds n H B Q F s)].
    intros x s' ((B' & Q' & I') & Es & _ & Hle & Heq). apply wp_ret. do 3 (split; [done|]). split; [lia|].
    destruct (decide (trylocks s' = trylocks s)) as [E|E].
    + rewrite (Heq E). exists B, Q, F. done.
    + exists B', Q', F. split; [done|lia].
Qed.

Lemma serve_spec rs t n H s :
  serving t n H s -> 2 <= n -> n + gets_in rs < 2 ^ 16 - 1 -> forallb request_ok rs = true ->
  wp (serve cfg malloc_result trylock rebalance_trylock process_started rs)
     (fun rsp s' => (trylocks s <= trylocks s')%nat /\ answers (trylocks s' = t) H rs rsp /\
        exists H', serving t (n + gets_in rs) H' s') s.
Proof using ds malloc_fresh.
  revert n H s. induction rs as [|r rs IH]; intros n H s Sv Hn Hb Hok; cbn [serve].
  { apply wp_ret. cbn [gets_in]. rewrite Z.add_0_r. split; [done|]. split; [done|]. by exists H. }
  cbn in Hok. apply andb_prop in Hok as [Hr Hok]. apply wp_bind. pose proof (proj1 Sv) as Ht.
  destruct r as [k v|k|now|id l total age]; cbn in Hr; cbn in Hb; pose proof (gets_in_nonneg rs) as Hg.
  - apply andb_prop in Hr as [Hk Hv]. apply Nat.eqb_eq in Hk, Hv.
    eapply wp_mono; [|apply (handle_set t n H s k v); [done|lia|done|done]].
    intros a s1 (Hle & [[-> Sv1]|[-> Sv1]]); apply wp_bind; (eapply wp_mono; [|by apply (IH n _ s1 Sv1)]);
      intros rsp s2 (Hle2 & Ha & Sv2); apply wp_ret; (split; [lia|]); (split; [|done]); cbn; [by left|by right].
  - apply Nat.eqb_eq in Hr. eapply wp_mono; [|apply (handle_get t n H s k); [done|lia|done]].
    intros a s1 (_ & Etl & Sv1 & st & v & -> & Hval & Hex). apply wp_bind. eapply wp_mono; [|apply (IH (n + 1) H s1 Sv1); [lia|lia|done]].
    intros rsp s2 (Hle2 & Ha & Sv2). apply wp_ret. split; [lia|].
    cbn [answers gets_in]. replace (n + (1 + gets_in rs)) with (n + 1 + gets_in rs) by lia. split; [|done].
    split; [done|]. split; [|done]. intros E. apply Hex. lia.
  - eapply wp_mono; [|apply (handle_other t n H s (RTick now)); [done|lia|done]].
    intros a s1 (_ & Hle & -> & Sv1). apply wp_bind. eapply wp_mono; [|by apply (IH n H s1 Sv1)].
    intros rsp s2 (Hle2 & Ha & Sv2). apply wp_ret. split; [lia|]. split; done.
  - eapply wp_mono; [|apply (handle_other t n H s (RPull id l total age)); [done|lia|done]].
    intros a s1 (_ & Hle & -> & Sv1). apply wp_bind. eapply wp_mono; [|by apply (IH n H s1 Sv1)].
    intros rsp s2 (Hle2 & Ha & Sv2). apply wp_ret. split; [lia|]. split; done.
Qed.

(** ** The start of the server *)
Definition start (hashpower_init limit : Z) (grow : Z -> Z) (too_big : Z -> bool) : M mc unit :=
  assoc_init true hashpower_init ;;
  slabs_init cfg malloc_result limit grow too_big false None 0 0 false None.

Lemma start_spec hashpower_init limit grow too_big :
  (forall x, x <= grow x) -> 0 <= chunk_size cfg -> 0 <= slab_page_size cfg ->
  slab_chunk_size_max cfg <= item_size_max cfg -> 0 <= hashpower_init < 32 ->
  wp (start hashpower_init limit grow too_big) (fun _ s => serving 0 2 [] s) empty_mc.
Proof using ds.
  intros Hg Hc Hp Hm Hh. unfold start. apply wp_bind. unfold wp at 1, assoc_init.
  match goal with |- wp _ _ ?s0 => set (s1 := s0) end. pose proof (ds_chunk _ ds) as H73.
  eapply wp_mono; [|apply (slabs_init_spec cfg malloc_result limit grow too_big None s1); [done..|unfold sizeof_item; lia|done]].
  intros _ s [[I Rd _ _ _] Es].
  assert (heap s = ∅ /\ tab s = tab s1 /\ lru s = lru s1 /\ trylocks s = 0%nat) as (Eh & Et & El & Etl).
  { destruct s. cbn in Es. unfold with_slb in Es. cbn in Es. by injection Es as -> -> -> -> -> -> -> -> ->. }
  split; [lia|]. exists (fun _ => []), (fun _ => []), (fun _ => []). split.
  2: { intros _ k. done. }
  constructor; [| |done|done| | |].
  - constructor; rewrite ?Et; cbn.
    + case_match; lia.
    + done.
    + intros [] b _; done.
    + intros c p Hx. by apply not_elem_of_nil in Hx.
    + intros c. constructor.
  - constructor; intros id; unfold head_of, tail_of, size_of; rewrite ?El; try done; [constructor|].
    intros p Hx. by apply not_elem_of_nil in Hx.
  - intros p i E. by rewrite Eh in E.
  - intros id p Hx. by apply not_elem_of_nil in Hx.
  - intros p _ id Hx. by apply not_elem_of_nil in Hx.
Qed.

End Answers.
