(* ===== verification/McFull.v ===== *)
(** * memcached: the Dagger server when its memory is used up

    The handlers take references to items and never drop them, so that no item is ever
    freed: when the slab class of the entries is full, no later set succeeds.  The concrete
    runs show what such a failing set does to the entries, and what becomes of a key that
    was set twice. *)

From stdpp Require Import gmap.
From S2P Require Import Prelude Wire McHash McItem McLists McAssoc McTable McSlabs McAlloc McSlabRun McItems McQueues McDagger McStore McServe McAnswers.

Lemma wp_and {S A} (m : M S A) (P Q : A -> S -> Prop) s :
  wp m P s -> wp m Q s -> wp m (fun a s' => P a s' /\ Q a s') s.
Proof. unfold wp. by destruct (m s). Qed.

Section Full.
Context (cfg : settings) (malloc_result : mc -> Z -> Z).
Context (trylock : mc -> Z -> bool) (rebalance_trylock : mc -> bool) (process_started : Z).
Hypothesis ds : dagger_settings cfg.
Hypothesis malloc_fresh : forall s sz, malloc_result s sz <> 0 -> fresh_block s (malloc_result s sz) sz.

(** The length of a page of the class. *)
Definition page_len (c : slabclass_t) : Z :=
  if slab_reassign cfg || negb (slab_chunk_size_max cfg =? slab_page_size cfg) then slab_page_size cfg
  else sc_size c * perslab c.

(** The class of the entries (73 bytes) has no free chunk and may not have another page. *)
Definition class_full (s : mc) : bool :=
  let c := cls s (slabs_clsid cfg s 73) in
  (sl_curr c =? 0) && (0 <? n_slabs c) && negb (mem_limit (slb s) =? 0) &&
  (mem_limit (slb s) <? mem_malloced (slb s) + page_len c).

Lemma full_same s s' : slb s' = slb s -> class_full s' = class_full s.
Proof. intros E. unfold class_full. rewrite (clsid_same cfg s s' 73 E). unfold cls. by rewrite E. Qed.

Lemma full_alloc s :
  class_full s = true -> normal s ->
  POWER_SMALLEST <= slabs_clsid cfg s 73 <= power_largest (slb s) ->
  wp (slabs_alloc cfg malloc_result 73 (slabs_clsid cfg s 73) false) (fun r s' => r = 0 /\ class_full s' = true) s.
Proof using ds.
  intros Hf [_ Hpool] Hid. pose proof Hf as Hf'. unfold class_full in Hf'. set (id := slabs_clsid cfg s 73) in *.
  repeat (apply andb_prop in Hf' as [Hf' ?]). unfold slabs_alloc, do_slabs_alloc. apply wp_bind, wp_gets.
  replace ((id <? POWER_SMALLEST) || (power_largest (slb s) <? id)) with false by lia.
  apply wp_bind, wp_gets. unfold cassert. rewrite (ds_ndebug _ ds). apply wp_bind, wp_ret, wp_bind, wp_ret.
  rewrite Hf'. cbn [andb negb when]. apply wp_bind, wp_bind. unfold do_slabs_newslab. apply wp_bind. unfold wp at 1, get.
  cbv zeta. fold (page_len (cls s id)). unfold n_slabs at 2. rewrite Hpool.
  replace (_ && _ && _ && _) with true by (cbn [length Z.of_nat Z.eqb]; by rewrite !andb_true_r; lia).
  apply wp_bind, wp_modify, wp_ret, wp_ret. set (s1 := with_slb _ s).
  assert (cls s1 id = cls s id) as Ec by done. apply wp_bind, wp_gets. rewrite Ec, Hf'. cbn [negb]. apply wp_ret.
  split; [done|]. rewrite <- Hf. unfold class_full.
  assert (slabs_clsid cfg s1 73 = id) as ->; [|done]. apply clsid_frame. unfold s1. split_and!; try done. by destruct s.
Qed.

(** The rounds of an allocation from a full class: nothing is freed, whatever is evicted. *)
Lemma full_rounds k n H B Q F s :
  store_inv cfg None n H B Q F s -> n < 2 ^ 16 - 1 -> class_full s = true ->
  wp (pull_rounds cfg malloc_result trylock rebalance_trylock k 73 (slabs_clsid cfg s 73))
     (fun r s' => r = 0 /\ class_full s' = true) s.
Proof using ds malloc_fresh.
  revert B Q F s. induction k as [|k IH]; intros B Q F s I Hn Hf; cbn [pull_rounds]; [by apply wp_ret|].
  rewrite (ds_segmented _ ds). cbn [negb]. apply wp_bind, wp_ret. apply wp_bind.
  pose proof (sv_ready _ _ _ _ _ _ _ _ I) as Rd. pose proof (ds_chunk _ ds) as H73.
  destruct (clsid_first_fit cfg s 73 Rd ltac:(lia)) as (Hid & Hfit & _). destruct Rd as (N & _ & Hc & _).
  set (id := slabs_clsid cfg s 73) in *.
  eapply wp_mono; [|apply wp_and; [apply (slabs_alloc_spec cfg malloc_result malloc_fresh F); [apply I|apply N|by apply Hc|done|done]|
    by apply full_alloc]].
  intros r s1 [Hpost [-> Hf1]]. apply (alloc_post_store cfg n H B Q F s id 0 s1 I Hid) in Hpost as (F1 & [I1 _] & A1 & _).
  cbn [Z.eqb]. apply wp_bind. eapply wp_mono; [|by apply (pull_later cfg trylock rebalance_trylock ds n H B Q F1 s1)].
  intros [removed ?] s2 (B2 & Q2 & I2 & O2 & _).
  assert (class_full s2 = true /\ slabs_clsid cfg s2 73 = id) as [Hf2 Eid2]
    by (rewrite (full_same s1 s2 O2), (clsid_same cfg s1 s2 73 O2); split; [done|by apply clsid_frame]).
  destruct (removed <=? 0).
  - apply wp_bind. eapply wp_mono; [|by apply (pull_later cfg trylock rebalance_trylock ds n H B2 Q2 F1 s2)].
    intros _ s3 (B3 & Q3 & I3 & O3 & _). rewrite <- Eid2, <- (clsid_same cfg s2 s3 73 O3).
    apply (IH B3 Q3 F1); [done|done|]. by rewrite (full_same s2 s3 O3).
  - rewrite <- Eid2. by apply (IH B2 Q2 F1).
Qed.

Lemma full_set n H B Q F s key value :
  store_inv cfg None n H B Q F s -> n < 2 ^ 16 - 1 -> length key = 8%nat -> class_full s = true ->
  wp (set cfg malloc_result trylock rebalance_trylock process_started key value)
     (fun st s' => st = 1 /\ class_full s' = true) s.
Proof using ds malloc_fresh.
  intros I Hn Hk Hf. unfold set, realtime, item_alloc. apply wp_bind, wp_bind, wp_gets, wp_ret. apply wp_bind.
  unfold do_item_alloc. rewrite Hk. cbn [Z.ltb Z.compare]. cbv beta iota zeta delta [item_make_header].
  rewrite (ds_cas _ ds). change (u64 (u64 _ + 8)) with 73. pose proof (ds_chunk _ ds) as Hc. cbv iota. apply wp_bind, wp_gets.
  destruct (clsid_first_fit cfg s 73 (sv_ready _ _ _ _ _ _ _ _ I) ltac:(lia)) as (Hid & _).
  rewrite (proj2 (Z.eqb_neq (slabs_clsid cfg s 73) 0)) by (unfold POWER_SMALLEST in *; lia).
  rewrite (proj2 (Z.ltb_ge _ _)) by lia. apply wp_bind, wp_ret. apply wp_bind.
  eapply wp_mono; [|by apply (full_rounds 10 n H B Q F s)]. intros r s1 [-> Hf1]. cbn [Z.eqb]. by apply wp_ret, wp_ret.
Qed.

Definition set_failed (a : response) : Prop := match a with Status st => st = 1 | _ => True end.

Lemma full_handle_set n H B Q F s k v :
  store_inv cfg None n H B Q F s -> n < 2 ^ 16 - 1 -> length k = 8%nat -> class_full s = true ->
  wp (handle cfg malloc_result trylock rebalance_trylock process_started (RSet k v))
     (fun a s' => a = Status 1 /\ class_full s' = true) s.
Proof using ds malloc_fresh.
  intros I Hn Hk Hf. cbn [handle]. unfold process_set. apply wp_bind, wp_bind.
  eapply wp_mono; [|by apply (full_set n H B Q F s k v)]. intros st s' [-> Hf']. by apply wp_ret, wp_ret.
Qed.

Lemma full_handle t n H s r :
  serving cfg t n H s -> 2 <= n < 2 ^ 16 - 1 -> request_ok r = true -> class_full s = true ->
  wp (handle cfg malloc_result trylock rebalance_trylock process_started r)
     (fun a s' => set_failed a /\ class_full s' = true /\ serving cfg t (n + gets_in [r]) H s') s.
Proof using ds malloc_fresh.
  intros Sv Hn Hr Hf. pose proof Sv as (_ & B & Q & F & I & _). destruct r as [k v|k|now|id l total age]; cbn in Hr.
  - apply andb_prop in Hr as [Hk Hv]. apply Nat.eqb_eq in Hk, Hv.
    eapply wp_mono; [|apply wp_and; [by apply (handle_set cfg malloc_result trylock rebalance_trylock process_started ds malloc_fresh t n H s k v)|
      apply (full_handle_set n H B Q F s k v); [done|lia|done|done]]].
    intros a s' [(_ & Ha) [-> Hf']]. destruct Ha as [[? _]|[_ Sv']]; [done|]. cbn [gets_in]. rewrite Z.add_0_r. done.
  - apply Nat.eqb_eq in Hr.
    eapply wp_mono; [|apply (handle_get cfg malloc_result trylock rebalance_trylock process_started ds malloc_fresh t n H s k); [done|lia|done]].
    intros a s' (Es & _ & Sv' & st & v & -> & _). split; [done|]. split; [by rewrite (full_same s s' Es)|done].
  - eapply wp_mono; [|apply (handle_other cfg malloc_result trylock rebalance_trylock process_started ds t n H s (RTick now)); [done|lia|done]].
    intros a s' (Es & _ & -> & Sv'). cbn [gets_in]. rewrite Z.add_0_r. split; [done|]. split; [by rewrite (full_same s s' Es)|done].
  - eapply wp_mono; [|apply (handle_other cfg malloc_result trylock rebalance_trylock process_started ds t n H s (RPull id l total age)); [done|lia|done]].
    intros a s' (Es & _ & -> & Sv'). cbn [gets_in]. rewrite Z.add_0_r. split; [done|]. split; [by rewrite (full_same s s' Es)|done].
Qed.

Lemma full_serve rs t n H s :
  serving cfg t n H s -> 2 <= n -> n + gets_in rs < 2 ^ 16 - 1 -> forallb request_ok rs = true -> class_full s = true ->
  wp (serve cfg malloc_result trylock rebalance_trylock process_started rs)
     (fun rsp s' => Forall set_failed rsp /\ class_full s' = true) s.
Proof using ds malloc_fresh.
  revert n s. induction rs as [|r rs IH]; intros n s Sv Hn Hb Hok Hf; cbn [serve]; [by apply wp_ret|].
  cbn in Hok. apply andb_prop in Hok as [Hr Hok]. pose proof (gets_in_nonneg rs) as Hg.
  assert (gets_in (r :: rs) = gets_in [r] + gets_in rs /\ 0 <= gets_in [r]) as [Eg Hg1] by (destruct r; cbn; lia).
  apply wp_bind. eapply wp_mono; [|apply (full_handle t n H s r); [done|lia|done|done]].
  intros a s1 (Ha & Hf1 & Sv1). apply wp_bind. eapply wp_mono; [|apply (IH (n + gets_in [r]) s1); [done|lia|lia|done|done]].
  intros rsp s2 [Hrsp Hf2]. apply wp_ret. split; [by constructor|done].
Qed.

End Full.

(** ** Concrete runs *)

(** A server with pages of 1 kB and a limit of one page: ten entries. *)
Definition small_settings : settings :=
  {| ndebug := true; use_cas := true; item_size_max := 1024; slab_page_size := 1024;
     slab_chunk_size_max := 512; chunk_size := 48; slab_reassign := true;
     slab_automove := 1; lru_segmented := true; temp_lru := false; temporary_ttl := 61;
     hot_lru_pct := 20; warm_lru_pct := 40; evict_to_free := true; tail_repair_time := 0;
     oldest_live := 0; oldest_cas := 0; hash_algorithm := MURMUR3_HASH |}.

Lemma small_dagger : dagger_settings small_settings.
Proof. by constructor. Qed.

Definition small_server (rs : list request) : M mc (list response) :=
  start small_settings bump_malloc 4 1024 grow_125 too_big_125 ;;
  serve small_settings bump_malloc (fun _ _ => true) (fun _ => true) 2 rs.

Definition word (x : Z) : list Z := le_bytes 8 x.

Definition set_all (ks : list Z) : list request := map (fun x => RSet (word x) (word (x + 100))) ks.

Definition answers_of (r : outcome mc (list response)) : option (list response) :=
  match r with Ret a _ => Some a | _ => None end.


(** The expansion of the hash table brings an overwritten value back as well: moving a
    bucket reverses the order of its items, and a get takes the first item with the key. *)
Theorem expansion_returns_overwritten :
  answers_of ((small_server [RSet (word 0) (word 50); RSet (word 0) (word 51); RGet (word 0)] ;;
               assoc_expand true ;;
               maintenance small_settings (replicate 16 true) ;;
               serve small_settings bump_malloc (fun _ _ => true) (fun _ => true) 2 [RGet (word 0)]) empty_mc) =
  Some [Value 0 (word 50)].
Proof. vm_compute. reflexivity. Qed.


