(* ===== verification/McOps.v ===== *)
(** * memcached: storing and counting

    The part of src/sw/apps/memcached/memcached/memcached.c that changes the cache on
    behalf of a command, below the protocols: [do_store_item] for set, add, replace,
    append, prepend and cas, and [do_add_delta] for incr and decr, with the functions that
    copy the value of an item and those of items.c and thread.c they call.

    The value of an item that is too large for a slab chunk is in a list of chunks.  The
    first one, [ITEM_schunk], lies in the item behind the key and has no room for data; the
    others are allocated like items, and their [next] and [prev] are those of an item, the
    remaining fields of their headers are in [schunk].  A function that is given a chunk
    takes the item it belongs to as well, to tell the first chunk from the others. *)

From stdpp Require Import gmap.
From S2P Require Import Prelude Wire McText McHash McItem McAssoc McSlabs McItems.

Definition ITEM_TOKEN_SENT : Z := 512.
Definition ITEM_STALE : Z := 2048.

Definition CRLF : list Z := [13; 10].

Inductive store_item_type := NOT_STORED | STORED | EXISTS | NOT_FOUND | TOO_LARGE | NO_MEMORY.

Inductive delta_result_type := OK | NON_NUMERIC | EOM | DELTA_ITEM_NOT_FOUND | DELTA_ITEM_CAS_MISMATCH.

(** [c->cmd]; [NREAD_NONE] is -1. *)
Inductive nread_cmd :=
  NREAD_NONE | NREAD_ADD | NREAD_SET | NREAD_REPLACE | NREAD_APPEND | NREAD_PREPEND | NREAD_CAS.

Inductive cas_result := CAS_NONE | CAS_MATCH | CAS_BADVAL | CAS_STALE | CAS_MISS.

(** The bytes of a C string in memory: up to the first NUL. *)
Fixpoint c_str (s : list Z) : list Z :=
  match s with
  | c :: s' => if c =? 0 then [] else c :: c_str s'
  | [] => []
  end.

(** [FLAGS_CONV] *)
Definition FLAGS_CONV (i : item) : Z :=
  if has (it_flags i) ITEM_CFLAGS then le_val (bytes_at (ITEM_suffix i) 4 i) else 0.

(** The [n] bytes at offset [off] of the item, [memcpy] from it. *)
Definition copy_out (p off n : Z) : M mc (list Z) :=
  let! i := load p in
  if (0 <=? off) && (0 <=? n) && (off + n <=? Z.of_nat (length (data i))) then ret (bytes_at off n i)
  else fun _ => Fault.

(** ** Chunks of large items *)

Definition ITEM_schunk (it : Z) (i : item) : Z := it + sizeof_item + ITEM_data i.

(** A chunk as the source's [item_chunk], with the item and the offset its data lies at. *)
Record chunk_view := {
  k_next : Z;
  k_head : Z;
  k_size : Z;
  k_used : Z;
  k_obj : Z;
  k_off : Z;
}.

Definition load_chunk (it ch : Z) : M mc chunk_view :=
  let! i := load it in
  if ch =? ITEM_schunk it i then
    ret {| k_next := c_next (schunk i); k_head := c_head (schunk i); k_size := c_size (schunk i);
           k_used := c_used (schunk i); k_obj := it; k_off := ITEM_data i + sizeof_item_chunk |}
  else
    let! j := load ch in
    ret {| k_next := next j; k_head := c_head (schunk j); k_size := c_size (schunk j);
           k_used := c_used (schunk j); k_obj := ch; k_off := 0 |}.

Definition with_used (n : Z) (k : item_chunk) : item_chunk :=
  {| c_next := c_next k; c_prev := c_prev k; c_head := c_head k; c_size := c_size k; c_used := n;
     c_orig_clsid := c_orig_clsid k |}.
Definition with_next (n : Z) (k : item_chunk) : item_chunk :=
  {| c_next := n; c_prev := c_prev k; c_head := c_head k; c_size := c_size k; c_used := c_used k;
     c_orig_clsid := c_orig_clsid k |}.

Definition set_chunk_next (it ch nch : Z) : M mc unit :=
  let! i := load it in
  if ch =? ITEM_schunk it i then store it (fun i => set_schunk (with_next nch (schunk i)) i)
  else store ch (set_next nch).

(** [memcpy(ch->data + ch->used, bs, n); ch->used += n;] *)
Definition fill_chunk (it ch : Z) (bs : list Z) : M mc unit :=
  let! k := load_chunk it ch in
  copy_in (k_obj k) (k_off k + k_used k) bs ;;
  store (k_obj k) (fun i => set_schunk (with_used (k_used k + Z.of_nat (length bs)) (schunk i)) i).

Section Ops.
Context (cfg : settings).
Context (malloc_result : mc -> Z -> Z).
Context (trylock : mc -> Z -> bool) (rebalance_trylock : mc -> bool).

Definition alloc_pull (ntotal id : Z) : M mc Z :=
  do_item_alloc_pull cfg malloc_result trylock rebalance_trylock ntotal id.
Definition alloc_item (key : list Z) (flags exptime nbytes : Z) : M mc Z :=
  do_item_alloc cfg malloc_result trylock rebalance_trylock key flags exptime nbytes.

Definition do_item_alloc_chunk (it ch bytes_remain : Z) : M mc Z :=
  let size := u64 (bytes_remain + sizeof_item_chunk) in
  let size := if slab_chunk_size_max cfg <? size then slab_chunk_size_max cfg else size in
  let! id := gets (fun s => slabs_clsid cfg s size) in
  let! nch := alloc_pull size id in
  if nch =? 0 then ret 0
  else
    let! k := load_chunk it ch in
    set_chunk_next it ch nch ;;
    store nch (fun j => set_schunk {| c_next := 0; c_prev := 0; c_head := k_head k;
                                      c_size := size - sizeof_item_chunk; c_used := 0;
                                      c_orig_clsid := c_orig_clsid (schunk j) |} j) ;;
    store nch (set_links 0 ch) ;;
    store nch (set_slabs_clsid (u8 id)) ;;
    store nch (add_flags ITEM_CHUNK) ;;
    ret nch.

(** Advances to a chunk with free space, or to the last. *)
Fixpoint free_space_loop (n : nat) (d_it dch : Z) : M mc Z :=
  match n with
  | O => fun _ => Block
  | S n' =>
      let! k := load_chunk d_it dch in
      if (k_size k =? k_used k) && negb (k_next k =? 0) then free_space_loop n' d_it (k_next k)
      else ret dch
  end.

(** The chunk to go on with after one that may be full; 0 when there is no memory. *)
Definition next_chunk (d_it dch remain : Z) : M mc Z :=
  let! k := load_chunk d_it dch in
  if k_size k =? k_used k then do_item_alloc_chunk d_it dch remain else ret dch.

(** From the chunks of [s_it]; false when there is no memory. *)
Fixpoint copy_chunked_loop (n : nat) (d_it s_it dch sch copied remain : Z) : M mc bool :=
  match n with
  | O => fun _ => Block
  | S n' =>
      if negb (sch =? 0) && negb (remain =? 0) then
        let! d := load_chunk d_it dch in
        let! k := load_chunk s_it sch in
        cassert cfg (k_used d <=? k_size d) ;;
        let todo := Z.min (Z.min (k_size d - k_used d) (k_used k - copied)) remain in
        let! bs := copy_out (k_obj k) (k_off k + copied) todo in
        fill_chunk d_it dch bs ;;
        let copied := copied + todo in
        let remain := remain - todo in
        let! dch := next_chunk d_it dch remain in
        if dch =? 0 then ret false
        else
          cassert cfg (copied <=? k_used k) ;;
          if copied =? k_used k then copy_chunked_loop n' d_it s_it dch (k_next k) 0 remain
          else copy_chunked_loop n' d_it s_it dch sch copied remain
      else
        cassert cfg (remain =? 0) ;;
        ret true
  end.

(** From the value of an item without chunks. *)
Fixpoint copy_plain_loop (n : nat) (d_it s_it dch len copied : Z) : M mc bool :=
  match n with
  | O => fun _ => Block
  | S n' =>
      if copied <? len then
        let! d := load_chunk d_it dch in
        let todo := Z.min (k_size d - k_used d) (len - copied) in
        let! i := load s_it in
        let! bs := copy_out s_it (ITEM_data i + copied) todo in
        fill_chunk d_it dch bs ;;
        let copied := copied + todo in
        let! dch := next_chunk d_it dch (len - copied) in
        if dch =? 0 then ret false else copy_plain_loop n' d_it s_it dch len copied
      else cassert cfg (len =? copied) ;; ret true
  end.

(** The rounds of the loops: a round copies something, or goes on to the next chunk of the
    source, or finds the first chunk of the destination full. *)
Definition copy_rounds (len : Z) (s : mc) : nat := (Z.to_nat len + size (heap s) + 2)%nat.

(** [-1] is false. *)
Definition _store_item_copy_chunks (d_it s_it len : Z) : M mc bool :=
  let! d := load d_it in
  let! i := load s_it in
  let! n := gets (fun s => S (size (heap s))) in
  let! dch := free_space_loop n d_it (ITEM_schunk d_it d) in
  let! n := gets (copy_rounds len) in
  if has (it_flags i) ITEM_CHUNKED then copy_chunked_loop n d_it s_it dch (ITEM_schunk s_it i) 0 len
  else copy_plain_loop n d_it s_it dch len 0.

(** [memcpy(ITEM_data(d_it) + off, ITEM_data(s_it), len)] *)
Definition copy_value (d_it off s_it len : Z) : M mc unit :=
  let! i := load s_it in
  let! bs := copy_out s_it (ITEM_data i) len in
  let! d := load d_it in
  copy_in d_it (ITEM_data d + off) bs.

(** The value of [a], without its CRLF, and the value of [b] into [new_it]. *)
Definition join_values (new_it a b : Z) : M mc bool :=
  let! ia := load a in
  let! ib := load b in
  let! d := load new_it in
  if has (it_flags d) ITEM_CHUNKED then
    let! ok := _store_item_copy_chunks new_it a (nbytes ia - 2) in
    if ok then _store_item_copy_chunks new_it b (nbytes ib) else ret false
  else
    copy_value new_it 0 a (nbytes ia) ;;
    copy_value new_it (nbytes ia - 2) b (nbytes ib) ;;
    ret true.

Definition _store_item_copy_data (comm : nread_cmd) (old_it new_it add_it : Z) : M mc bool :=
  match comm with
  | NREAD_APPEND => join_values new_it old_it add_it
  | _ => join_values new_it add_it old_it
  end.

(** ** Storing *)

(** Of the item to store, against the one in the cache. *)
Definition cas_test (set_stale : bool) (it_cas old_cas : Z) : cas_result :=
  if it_cas =? 0 then CAS_NONE
  else if it_cas =? old_cas then CAS_MATCH
  else if set_stale && (it_cas <? old_cas) then CAS_STALE
  else CAS_BADVAL.

(** What is done about an item that is in the cache already: the item to replace it with,
    0 for none, the item allocated here, and the result if nothing is replaced. *)
Definition store_over (it : Z) (comm : nread_cmd) (cas_res : cas_result) (old_it : Z)
    : M mc (Z * Z * store_item_type) :=
  match comm with
  | NREAD_ADD => do_item_update cfg old_it ;; ret (0, 0, NOT_STORED)
  | NREAD_CAS =>
      match cas_res with
      | CAS_MATCH => ret (it, 0, STORED)
      | CAS_STALE =>
          let! o := load old_it in
          store it (set_exptime (exptime o)) ;;
          store it (add_flags ITEM_STALE) ;;
          when (has (it_flags o) ITEM_TOKEN_SENT) (store it (add_flags ITEM_TOKEN_SENT)) ;;
          ret (it, 0, STORED)
      | _ => ret (0, 0, EXISTS)
      end
  | NREAD_APPEND | NREAD_PREPEND =>
      match cas_res with
      | CAS_NONE | CAS_MATCH =>
          let! i := load it in
          let! o := load old_it in
          let! new_it := alloc_item (key_of i) (FLAGS_CONV o) (exptime o) (i32 (nbytes i + nbytes o - 2)) in
          if new_it =? 0 then ret (0, 0, NOT_STORED)
          else
            let! copied := _store_item_copy_data comm old_it new_it it in
            ret (if copied then new_it else 0, new_it, NOT_STORED)
      | _ => ret (0, 0, EXISTS)
      end
  | NREAD_REPLACE | NREAD_SET => ret (it, 0, STORED)
  | NREAD_NONE => ret (0, 0, NOT_STORED)
  end.

(** The result, and [c->cas] if it is set. *)
Definition do_store_item (it : Z) (comm : nread_cmd) (set_stale : bool) (b : nat) (hv : Z)
    : M mc (store_item_type * option Z) :=
  let! i := load it in
  let! old_it := do_item_get cfg (key_of i) hv b false in
  if negb (old_it =? 0) then
    let! o := load old_it in
    let! (win, new_it, stored) := store_over it comm (cas_test set_stale (ITEM_get_cas i) (ITEM_get_cas o)) old_it in
    (if negb (win =? 0) then do_item_replace cfg old_it win hv ;; ret tt else ret tt) ;;
    do_item_remove cfg old_it ;;
    when (negb (new_it =? 0)) (do_item_remove cfg new_it) ;;
    if negb (win =? 0) then let! w := load win in ret (STORED, Some (ITEM_get_cas w))
    else ret (stored, None)
  else
    match comm with
    | NREAD_ADD | NREAD_SET =>
        do_item_link cfg it hv ;;
        let! i := load it in
        ret (STORED, Some (ITEM_get_cas i))
    | NREAD_CAS => ret (NOT_FOUND, None)
    | _ => ret (NOT_STORED, None)
    end.

(** ** Counting *)

(** How many bytes [strtoull] looks at in [s]: the number and the byte behind it, or what
    it skipped and the byte behind that. *)
Definition scan_reach (s : list Z) : nat :=
  let n0 := skip_spaces s in
  let n1 := match drop n0 s with
            | c :: _ => if (c =? 45) || (c =? 43) then S n0 else n0
            | [] => n0
            end in
  (n1 + (scan_digits 10 (drop n1 s) 0).2 + 1)%nat.

(** [safe_strtoull(ITEM_data(it), &value)]: nothing ends the string at the end of the
    value.  [strtoull] skips the CRLF of a value of spaces, and for a number of 64 bits
    [strchr] looks for a sign in all the bytes up to the next NUL; both may run past the
    end of the slab chunk. *)
Definition value_strtoull (it : Z) : M mc (option Z) :=
  let! i := load it in
  let s := drop (Z.to_nat (ITEM_data i)) (data i) in
  let '(ull, erange, e) := strtoull 10 s in
  let searches := negb erange && negb (e =? 0)%nat && (isspace (char_at s e) || (char_at s e =? 0)) && (2 ^ 63 <=? ull) in
  if (scan_reach s <=? length s)%nat && (negb searches || existsb (fun c => (c =? 0) || (c =? 45)) s)
  then ret (safe_strtoull (c_str s)) else fun _ => Fault.

(** [value], counted up or down. *)
Definition apply_delta (incr : bool) (delta value : Z) : Z :=
  if incr then u64 (value + delta)
  else if value <? delta then 0 else value - delta.

(** The result, the item with its reference when [it_ret] asks for it, the number printed,
    and the value of [*cas]; [cas] is 0 where the source has NULL or 0. *)
Definition do_add_delta (key : list Z) (incr : bool) (delta cas : Z) (b : nat) (hv : Z) (it_ret : bool)
    : M mc (delta_result_type * Z * list Z * Z) :=
  let fail it r := do_item_remove cfg it ;; ret (r, 0, [], cas) in
  let! it := do_item_get cfg key hv b false in
  if it =? 0 then ret (DELTA_ITEM_NOT_FOUND, 0, [], cas)
  else
    let! i := load it in
    if (nbytes i <=? 2) || has (it_flags i) ITEM_CHUNKED then fail it NON_NUMERIC
    else if negb (cas =? 0) && negb (ITEM_get_cas i =? cas) then fail it DELTA_ITEM_CAS_MISMATCH
    else
      let! num := value_strtoull it in
      match num with
      | None => fail it NON_NUMERIC
      | Some value =>
          let buf := itoa_u64 (apply_delta incr delta value) in
          let res := Z.of_nat (length buf) in
          let done :=
            let! i := load it in
            (if it_ret then ret tt else do_item_remove cfg it) ;;
            ret (OK, if it_ret then it else 0, buf, ITEM_get_cas i) in
          if (res + 2 <=? nbytes i) && (refcount i =? 2) then
            ITEM_set_cas it (if use_cas cfg then get_cas_id else ret 0) ;;
            copy_in it (ITEM_data i) buf ;;
            copy_in it (ITEM_data i + res) (replicate (Z.to_nat (nbytes i - res - 2)) 32) ;;
            do_item_update cfg it ;;
            done
          else if 1 <? refcount i then
            let! new_it := alloc_item (key_of i) (FLAGS_CONV i) (exptime i) (res + 2) in
            if new_it =? 0 then fail it EOM
            else
              let! d := load new_it in
              copy_in new_it (ITEM_data d) buf ;;
              copy_in new_it (ITEM_data d + res) CRLF ;;
              do_item_replace cfg it new_it hv ;;
              let! d := load new_it in
              ITEM_set_cas it (ret (if use_cas cfg then ITEM_get_cas d else 0)) ;;
              do_item_remove cfg new_it ;;
              done
          else
            when (refcount i =? 1) (do_item_remove cfg it) ;;
            ret (DELTA_ITEM_NOT_FOUND, 0, [], cas)
      end.

(** ** thread.c: under the lock of the item *)
Definition store_item (it : Z) (comm : nread_cmd) (set_stale : bool) (b : nat)
    : M mc (store_item_type * option Z) :=
  let! i := load it in
  do_store_item it comm set_stale b (hash cfg (key_of i)).

Definition add_delta (key : list Z) (incr : bool) (delta cas : Z) (b : nat)
    : M mc (delta_result_type * list Z * Z) :=
  let! (r, _, buf, cas') := do_add_delta key incr delta cas b (hash cfg key) false in
  ret (r, buf, cas').

(** The item, and the hash value of the key. *)
Definition item_get_locked (key : list Z) (b : nat) (do_update : bool) : M mc (Z * Z) :=
  let hv := hash cfg key in
  let! it := do_item_get cfg key hv b do_update in
  ret (it, hv).
End Ops.
