(* ===== verification/McConn.v ===== *)
(** * memcached: connections and responses

    The state of a TCP connection, src/sw/apps/memcached/memcached/memcached.h ([conn],
    [mc_resp]), and the functions of memcached.c that build responses of the text and of the
    binary protocol, with the tokenizer of command lines.

    The state [srv] of a server has the cache ([mc] of McItem), the settings that commands
    change, one connection, [errno], and the network: what the coming calls of [read] and
    [sendmsg] return, and the bytes sent so far.  Other calls that may fail (allocations,
    libevent) succeed or not as [sys_ok] says, a function of the number of such calls so
    far; it is a field of the class [Env], which has all that is outside of the model.

    An I/O vector points at bytes; what it sends are the bytes that are there when
    [sendmsg] is called.  [c->resp_head] and [c->resp] are the first and the last of the
    list [resps].  The locks and the statistics are left out. *)

From Stdlib Require Import String.
From stdpp Require Import gmap.
From S2P Require Import Prelude Wire McText McHash McItem McSlabs McItems McDagger McOps.

Definition KEY_MAX_LENGTH : Z := 250.
Definition WRITE_BUFFER_SIZE : Z := 1024.
Definition READ_BUFFER_SIZE : Z := 16384.
Definition MAX_TOKENS : nat := 24.
Definition MC_RESP_IOVCOUNT : nat := 4.
Definition IOV_MAX : nat := 1024.
Definition EV_READ_PERSIST : Z := 18.
Definition EV_WRITE_PERSIST : Z := 20.
Definition EAGAIN : Z := 11.
Definition ENOMEM : Z := 12.
Definition ERANGE : Z := 34.
Definition EPIPE : Z := 32.

(** ** Data *)

(** A string literal. *)
Definition str (s : string) : list Z := bytes_of s.

(** What an I/O vector points at. *)
Inductive iov_base_t :=
  | Static (bs : list Z)          (** a string literal *)
  | Wbuf (off : Z)                (** the response's buffer *)
  | Data (p off : Z)              (** bytes of an item *)
  | Chunked (p : Z).              (** a large item, whose chunks are put in when sending *)

Record iovec := { iov_base : iov_base_t; iov_len : Z }.

Record mc_resp := {
  wbuf : list Z;
  wbytes : Z;
  tosend : Z;
  iov : list iovec;
  chunked_data_iov : nat;
  chunked_total : Z;
  resp_item : Z;
  skip : bool;
}.

Definition set_wbuf (v : list Z) (r : mc_resp) : mc_resp :=
  {| wbuf := v; wbytes := wbytes r; tosend := tosend r; iov := iov r;
     chunked_data_iov := chunked_data_iov r; chunked_total := chunked_total r;
     resp_item := resp_item r; skip := skip r |}.
Definition set_wbytes (v : Z) (r : mc_resp) : mc_resp :=
  {| wbuf := wbuf r; wbytes := v; tosend := tosend r; iov := iov r;
     chunked_data_iov := chunked_data_iov r; chunked_total := chunked_total r;
     resp_item := resp_item r; skip := skip r |}.
Definition set_tosend (v : Z) (r : mc_resp) : mc_resp :=
  {| wbuf := wbuf r; wbytes := wbytes r; tosend := v; iov := iov r;
     chunked_data_iov := chunked_data_iov r; chunked_total := chunked_total r;
     resp_item := resp_item r; skip := skip r |}.
Definition set_iov (v : list iovec) (r : mc_resp) : mc_resp :=
  {| wbuf := wbuf r; wbytes := wbytes r; tosend := tosend r; iov := v;
     chunked_data_iov := chunked_data_iov r; chunked_total := chunked_total r;
     resp_item := resp_item r; skip := skip r |}.
Definition set_chunked_data_iov (v : nat) (r : mc_resp) : mc_resp :=
  {| wbuf := wbuf r; wbytes := wbytes r; tosend := tosend r; iov := iov r; chunked_data_iov := v;
     chunked_total := chunked_total r; resp_item := resp_item r; skip := skip r |}.
Definition set_chunked_total (v : Z) (r : mc_resp) : mc_resp :=
  {| wbuf := wbuf r; wbytes := wbytes r; tosend := tosend r; iov := iov r;
     chunked_data_iov := chunked_data_iov r; chunked_total := v; resp_item := resp_item r;
     skip := skip r |}.
Definition set_resp_item (v : Z) (r : mc_resp) : mc_resp :=
  {| wbuf := wbuf r; wbytes := wbytes r; tosend := tosend r; iov := iov r;
     chunked_data_iov := chunked_data_iov r; chunked_total := chunked_total r; resp_item := v;
     skip := skip r |}.
Definition set_skip (v : bool) (r : mc_resp) : mc_resp :=
  {| wbuf := wbuf r; wbytes := wbytes r; tosend := tosend r; iov := iov r;
     chunked_data_iov := chunked_data_iov r; chunked_total := chunked_total r;
     resp_item := resp_item r; skip := v |}.

(** What [memset] leaves. *)
Definition empty_resp : mc_resp :=
  {| wbuf := replicate (Z.to_nat WRITE_BUFFER_SIZE) 0; wbytes := 0; tosend := 0; iov := [];
     chunked_data_iov := 0; chunked_total := 0; resp_item := 0; skip := false |}.

Inductive conn_states :=
  conn_listening | conn_new_cmd | conn_waiting | conn_read | conn_parse_cmd | conn_write |
  conn_nread | conn_swallow | conn_closing | conn_mwrite | conn_closed | conn_watch.

#[export] Instance conn_states_eq : EqDecision conn_states.
Proof. solve_decision. Defined.

Inductive protocol_t := ascii_prot | binary_prot | negotiating_prot.

#[export] Instance protocol_eq : EqDecision protocol_t.
Proof. solve_decision. Defined.

(** The states of a binary command that the code uses without SASL. *)
Inductive bin_substates := bin_no_state | bin_read_set_value.

(** The header of a binary request, in the byte order of the host but for [h_opaque], which
    the server only returns. *)
Record request_header := {
  magic : Z;
  opcode : Z;
  keylen : Z;
  extlen : Z;
  bodylen : Z;
  h_opaque : Z;
  h_cas : Z;
}.

Definition no_header : request_header :=
  {| magic := 0; opcode := 0; keylen := 0; extlen := 0; bodylen := 0; h_opaque := 0; h_cas := 0 |}.

(** [unread] are the [rbytes] bytes from [rcurr] on, [rpos] is [rcurr - rbuf]; [rbuf] says
    whether the buffer is there.  [citem] is [c->item], [last_cas] is [c->cas].  In the
    binary protocol [c->cmd] holds the number of the command first, here [bcmd], and then
    what to do with the value.  [stats_buffer] are the first [stats.offset] bytes. *)
Record conn := {
  state : conn_states;
  ev_flags : Z;
  rbuf : bool;
  rsize : Z;
  rpos : Z;
  unread : list Z;
  rbuf_malloced : bool;
  resps : list mc_resp;
  ritem : Z;
  rlbytes : Z;
  citem : Z;
  sbytes : Z;
  cmd : nread_cmd;
  noreply : bool;
  set_stale : bool;
  mset_res : bool;
  close_after_write : bool;
  last_cas : Z;
  protocol : protocol_t;
  binary_header : request_header;
  bcmd : Z;
  opaque : Z;
  substate : bin_substates;
  stats_buffer : option (list Z);
  stats_size : Z;
}.

Definition set_state (v : conn_states) (c : conn) : conn :=
  {| state := v; ev_flags := ev_flags c; rbuf := rbuf c; rsize := rsize c; rpos := rpos c;
     unread := unread c; rbuf_malloced := rbuf_malloced c; resps := resps c; ritem := ritem c;
     rlbytes := rlbytes c; citem := citem c; sbytes := sbytes c; cmd := cmd c; noreply := noreply c;
     set_stale := set_stale c; mset_res := mset_res c; close_after_write := close_after_write c;
     last_cas := last_cas c; protocol := protocol c; binary_header := binary_header c; bcmd := bcmd c;
     opaque := opaque c; substate := substate c; stats_buffer := stats_buffer c; stats_size := stats_size c |}.
Definition set_ev_flags (v : Z) (c : conn) : conn :=
  {| state := state c; ev_flags := v; rbuf := rbuf c; rsize := rsize c; rpos := rpos c;
     unread := unread c; rbuf_malloced := rbuf_malloced c; resps := resps c; ritem := ritem c;
     rlbytes := rlbytes c; citem := citem c; sbytes := sbytes c; cmd := cmd c; noreply := noreply c;
     set_stale := set_stale c; mset_res := mset_res c; close_after_write := close_after_write c;
     last_cas := last_cas c; protocol := protocol c; binary_header := binary_header c; bcmd := bcmd c;
     opaque := opaque c; substate := substate c; stats_buffer := stats_buffer c; stats_size := stats_size c |}.
Definition set_rbuf (v : bool) (c : conn) : conn :=
  {| state := state c; ev_flags := ev_flags c; rbuf := v; rsize := rsize c; rpos := rpos c;
     unread := unread c; rbuf_malloced := rbuf_malloced c; resps := resps c; ritem := ritem c;
     rlbytes := rlbytes c; citem := citem c; sbytes := sbytes c; cmd := cmd c; noreply := noreply c;
     set_stale := set_stale c; mset_res := mset_res c; close_after_write := close_after_write c;
     last_cas := last_cas c; protocol := protocol c; binary_header := binary_header c; bcmd := bcmd c;
     opaque := opaque c; substate := substate c; stats_buffer := stats_buffer c; stats_size := stats_size c |}.
Definition set_rsize (v : Z) (c : conn) : conn :=
  {| state := state c; ev_flags := ev_flags c; rbuf := rbuf c; rsize := v; rpos := rpos c;
     unread := unread c; rbuf_malloced := rbuf_malloced c; resps := resps c; ritem := ritem c;
     rlbytes := rlbytes c; citem := citem c; sbytes := sbytes c; cmd := cmd c; noreply := noreply c;
     set_stale := set_stale c; mset_res := mset_res c; close_after_write := close_after_write c;
     last_cas := last_cas c; protocol := protocol c; binary_header := binary_header c; bcmd := bcmd c;
     opaque := opaque c; substate := substate c; stats_buffer := stats_buffer c; stats_size := stats_size c |}.
Definition set_rpos (v : Z) (c : conn) : conn :=
  {| state := state c; ev_flags := ev_flags c; rbuf := rbuf c; rsize := rsize c; rpos := v;
     unread := unread c; rbuf_malloced := rbuf_malloced c; resps := resps c; ritem := ritem c;
     rlbytes := rlbytes c; citem := citem c; sbytes := sbytes c; cmd := cmd c; noreply := noreply c;
     set_stale := set_stale c; mset_res := mset_res c; close_after_write := close_after_write c;
     last_cas := last_cas c; protocol := protocol c; binary_header := binary_header c; bcmd := bcmd c;
     opaque := opaque c; substate := substate c; stats_buffer := stats_buffer c; stats_size := stats_size c |}.
Definition set_unread (v : list Z) (c : conn) : conn :=
  {| state := state c; ev_flags := ev_flags c; rbuf := rbuf c; rsize := rsize c; rpos := rpos c;
     unread := v; rbuf_malloced := rbuf_malloced c; resps := resps c; ritem := ritem c;
     rlbytes := rlbytes c; citem := citem c; sbytes := sbytes c; cmd := cmd c; noreply := noreply c;
     set_stale := set_stale c; mset_res := mset_res c; close_after_write := close_after_write c;
     last_cas := last_cas c; protocol := protocol c; binary_header := binary_header c; bcmd := bcmd c;
     opaque := opaque c; substate := substate c; stats_buffer := stats_buffer c; stats_size := stats_size c |}.
Definition set_rbuf_malloced (v : bool) (c : conn) : conn :=
  {| state := state c; ev_flags := ev_flags c; rbuf := rbuf c; rsize := rsize c; rpos := rpos c;
     unread := unread c; rbuf_malloced := v; resps := resps c; ritem := ritem c;
     rlbytes := rlbytes c; citem := citem c; sbytes := sbytes c; cmd := cmd c; noreply := noreply c;
     set_stale := set_stale c; mset_res := mset_res c; close_after_write := close_after_write c;
     last_cas := last_cas c; protocol := protocol c; binary_header := binary_header c; bcmd := bcmd c;
     opaque := opaque c; substate := substate c; stats_buffer := stats_buffer c; stats_size := stats_size c |}.
Definition set_resps (v : list mc_resp) (c : conn) : conn :=
  {| state := state c; ev_flags := ev_flags c; rbuf := rbuf c; rsize := rsize c; rpos := rpos c;
     unread := unread c; rbuf_malloced := rbuf_malloced c; resps := v; ritem := ritem c;
     rlbytes := rlbytes c; citem := citem c; sbytes := sbytes c; cmd := cmd c; noreply := noreply c;
     set_stale := set_stale c; mset_res := mset_res c; close_after_write := close_after_write c;
     last_cas := last_cas c; protocol := protocol c; binary_header := binary_header c; bcmd := bcmd c;
     opaque := opaque c; substate := substate c; stats_buffer := stats_buffer c; stats_size := stats_size c |}.
Definition set_ritem (v : Z) (c : conn) : conn :=
  {| state := state c; ev_flags := ev_flags c; rbuf := rbuf c; rsize := rsize c; rpos := rpos c;
     unread := unread c; rbuf_malloced := rbuf_malloced c; resps := resps c; ritem := v;
     rlbytes := rlbytes c; citem := citem c; sbytes := sbytes c; cmd := cmd c; noreply := noreply c;
     set_stale := set_stale c; mset_res := mset_res c; close_after_write := close_after_write c;
     last_cas := last_cas c; protocol := protocol c; binary_header := binary_header c; bcmd := bcmd c;
     opaque := opaque c; substate := substate c; stats_buffer := stats_buffer c; stats_size := stats_size c |}.
Definition set_rlbytes (v : Z) (c : conn) : conn :=
  {| state := state c; ev_flags := ev_flags c; rbuf := rbuf c; rsize := rsize c; rpos := rpos c;
     unread := unread c; rbuf_malloced := rbuf_malloced c; resps := resps c; ritem := ritem c;
     rlbytes := v; citem := citem c; sbytes := sbytes c; cmd := cmd c; noreply := noreply c;
     set_stale := set_stale c; mset_res := mset_res c; close_after_write := close_after_write c;
     last_cas := last_cas c; protocol := protocol c; binary_header := binary_header c; bcmd := bcmd c;
     opaque := opaque c; substate := substate c; stats_buffer := stats_buffer c; stats_size := stats_size c |}.
Definition set_citem (v : Z) (c : conn) : conn :=
  {| state := state c; ev_flags := ev_flags c; rbuf := rbuf c; rsize := rsize c; rpos := rpos c;
     unread := unread c; rbuf_malloced := rbuf_malloced c; resps := resps c; ritem := ritem c;
     rlbytes := rlbytes c; citem := v; sbytes := sbytes c; cmd := cmd c; noreply := noreply c;
     set_stale := set_stale c; mset_res := mset_res c; close_after_write := close_after_write c;
     last_cas := last_cas c; protocol := protocol c; binary_header := binary_header c; bcmd := bcmd c;
     opaque := opaque c; substate := substate c; stats_buffer := stats_buffer c; stats_size := stats_size c |}.
Definition set_sbytes (v : Z) (c : conn) : conn :=
  {| state := state c; ev_flags := ev_flags c; rbuf := rbuf c; rsize := rsize c; rpos := rpos c;
     unread := unread c; rbuf_malloced := rbuf_malloced c; resps := resps c; ritem := ritem c;
     rlbytes := rlbytes c; citem := citem c; sbytes := v; cmd := cmd c; noreply := noreply c;
     set_stale := set_stale c; mset_res := mset_res c; close_after_write := close_after_write c;
     last_cas := last_cas c; protocol := protocol c; binary_header := binary_header c; bcmd := bcmd c;
     opaque := opaque c; substate := substate c; stats_buffer := stats_buffer c; stats_size := stats_size c |}.
Definition set_cmd (v : nread_cmd) (c : conn) : conn :=
  {| state := state c; ev_flags := ev_flags c; rbuf := rbuf c; rsize := rsize c; rpos := rpos c;
     unread := unread c; rbuf_malloced := rbuf_malloced c; resps := resps c; ritem := ritem c;
     rlbytes := rlbytes c; citem := citem c; sbytes := sbytes c; cmd := v; noreply := noreply c;
     set_stale := set_stale c; mset_res := mset_res c; close_after_write := close_after_write c;
     last_cas := last_cas c; protocol := protocol c; binary_header := binary_header c; bcmd := bcmd c;
     opaque := opaque c; substate := substate c; stats_buffer := stats_buffer c; stats_size := stats_size c |}.
Definition set_noreply (v : bool) (c : conn) : conn :=
  {| state := state c; ev_flags := ev_flags c; rbuf := rbuf c; rsize := rsize c; rpos := rpos c;
     unread := unread c; rbuf_malloced := rbuf_malloced c; resps := resps c; ritem := ritem c;
     rlbytes := rlbytes c; citem := citem c; sbytes := sbytes c; cmd := cmd c; noreply := v;
     set_stale := set_stale c; mset_res := mset_res c; close_after_write := close_after_write c;
     last_cas := last_cas c; protocol := protocol c; binary_header := binary_header c; bcmd := bcmd c;
     opaque := opaque c; substate := substate c; stats_buffer := stats_buffer c; stats_size := stats_size c |}.
Definition set_set_stale (v : bool) (c : conn) : conn :=
  {| state := state c; ev_flags := ev_flags c; rbuf := rbuf c; rsize := rsize c; rpos := rpos c;
     unread := unread c; rbuf_malloced := rbuf_malloced c; resps := resps c; ritem := ritem c;
     rlbytes := rlbytes c; citem := citem c; sbytes := sbytes c; cmd := cmd c; noreply := noreply c;
     set_stale := v; mset_res := mset_res c; close_after_write := close_after_write c;
     last_cas := last_cas c; protocol := protocol c; binary_header := binary_header c; bcmd := bcmd c;
     opaque := opaque c; substate := substate c; stats_buffer := stats_buffer c; stats_size := stats_size c |}.
Definition set_mset_res (v : bool) (c : conn) : conn :=
  {| state := state c; ev_flags := ev_flags c; rbuf := rbuf c; rsize := rsize c; rpos := rpos c;
     unread := unread c; rbuf_malloced := rbuf_malloced c; resps := resps c; ritem := ritem c;
     rlbytes := rlbytes c; citem := citem c; sbytes := sbytes c; cmd := cmd c; noreply := noreply c;
     set_stale := set_stale c; mset_res := v; close_after_write := close_after_write c;
     last_cas := last_cas c; protocol := protocol c; binary_header := binary_header c; bcmd := bcmd c;
     opaque := opaque c; substate := substate c; stats_buffer := stats_buffer c; stats_size := stats_size c |}.
Definition set_close_after_write (v : bool) (c : conn) : conn :=
  {| state := state c; ev_flags := ev_flags c; rbuf := rbuf c; rsize := rsize c; rpos := rpos c;
     unread := unread c; rbuf_malloced := rbuf_malloced c; resps := resps c; ritem := ritem c;
     rlbytes := rlbytes c; citem := citem c; sbytes := sbytes c; cmd := cmd c; noreply := noreply c;
     set_stale := set_stale c; mset_res := mset_res c; close_after_write := v;
     last_cas := last_cas c; protocol := protocol c; binary_header := binary_header c; bcmd := bcmd c;
     opaque := opaque c; substate := substate c; stats_buffer := stats_buffer c; stats_size := stats_size c |}.
Definition set_last_cas (v : Z) (c : conn) : conn :=
  {| state := state c; ev_flags := ev_flags c; rbuf := rbuf c; rsize := rsize c; rpos := rpos c;
     unread := unread c; rbuf_malloced := rbuf_malloced c; resps := resps c; ritem := ritem c;
     rlbytes := rlbytes c; citem := citem c; sbytes := sbytes c; cmd := cmd c; noreply := noreply c;
     set_stale := set_stale c; mset_res := mset_res c; close_after_write := close_after_write c;
     last_cas := v; protocol := protocol c; binary_header := binary_header c; bcmd := bcmd c;
     opaque := opaque c; substate := substate c; stats_buffer := stats_buffer c; stats_size := stats_size c |}.
Definition set_protocol (v : protocol_t) (c : conn) : conn :=
  {| state := state c; ev_flags := ev_flags c; rbuf := rbuf c; rsize := rsize c; rpos := rpos c;
     unread := unread c; rbuf_malloced := rbuf_malloced c; resps := resps c; ritem := ritem c;
     rlbytes := rlbytes c; citem := citem c; sbytes := sbytes c; cmd := cmd c; noreply := noreply c;
     set_stale := set_stale c; mset_res := mset_res c; close_after_write := close_after_write c;
     last_cas := last_cas c; protocol := v; binary_header := binary_header c; bcmd := bcmd c;
     opaque := opaque c; substate := substate c; stats_buffer := stats_buffer c; stats_size := stats_size c |}.
Definition set_binary_header (v : request_header) (c : conn) : conn :=
  {| state := state c; ev_flags := ev_flags c; rbuf := rbuf c; rsize := rsize c; rpos := rpos c;
     unread := unread c; rbuf_malloced := rbuf_malloced c; resps := resps c; ritem := ritem c;
     rlbytes := rlbytes c; citem := citem c; sbytes := sbytes c; cmd := cmd c; noreply := noreply c;
     set_stale := set_stale c; mset_res := mset_res c; close_after_write := close_after_write c;
     last_cas := last_cas c; protocol := protocol c; binary_header := v; bcmd := bcmd c;
     opaque := opaque c; substate := substate c; stats_buffer := stats_buffer c; stats_size := stats_size c |}.
Definition set_bcmd (v : Z) (c : conn) : conn :=
  {| state := state c; ev_flags := ev_flags c; rbuf := rbuf c; rsize := rsize c; rpos := rpos c;
     unread := unread c; rbuf_malloced := rbuf_malloced c; resps := resps c; ritem := ritem c;
     rlbytes := rlbytes c; citem := citem c; sbytes := sbytes c; cmd := cmd c; noreply := noreply c;
     set_stale := set_stale c; mset_res := mset_res c; close_after_write := close_after_write c;
     last_cas := last_cas c; protocol := protocol c; binary_header := binary_header c; bcmd := v;
     opaque := opaque c; substate := substate c; stats_buffer := stats_buffer c; stats_size := stats_size c |}.
Definition set_opaque (v : Z) (c : conn) : conn :=
  {| state := state c; ev_flags := ev_flags c; rbuf := rbuf c; rsize := rsize c; rpos := rpos c;
     unread := unread c; rbuf_malloced := rbuf_malloced c; resps := resps c; ritem := ritem c;
     rlbytes := rlbytes c; citem := citem c; sbytes := sbytes c; cmd := cmd c; noreply := noreply c;
     set_stale := set_stale c; mset_res := mset_res c; close_after_write := close_after_write c;
     last_cas := last_cas c; protocol := protocol c; binary_header := binary_header c; bcmd := bcmd c;
     opaque := v; substate := substate c; stats_buffer := stats_buffer c; stats_size := stats_size c |}.
Definition set_substate (v : bin_substates) (c : conn) : conn :=
  {| state := state c; ev_flags := ev_flags c; rbuf := rbuf c; rsize := rsize c; rpos := rpos c;
     unread := unread c; rbuf_malloced := rbuf_malloced c; resps := resps c; ritem := ritem c;
     rlbytes := rlbytes c; citem := citem c; sbytes := sbytes c; cmd := cmd c; noreply := noreply c;
     set_stale := set_stale c; mset_res := mset_res c; close_after_write := close_after_write c;
     last_cas := last_cas c; protocol := protocol c; binary_header := binary_header c; bcmd := bcmd c;
     opaque := opaque c; substate := v; stats_buffer := stats_buffer c; stats_size := stats_size c |}.
Definition set_stats_buffer (v : option (list Z)) (c : conn) : conn :=
  {| state := state c; ev_flags := ev_flags c; rbuf := rbuf c; rsize := rsize c; rpos := rpos c;
     unread := unread c; rbuf_malloced := rbuf_malloced c; resps := resps c; ritem := ritem c;
     rlbytes := rlbytes c; citem := citem c; sbytes := sbytes c; cmd := cmd c; noreply := noreply c;
     set_stale := set_stale c; mset_res := mset_res c; close_after_write := close_after_write c;
     last_cas := last_cas c; protocol := protocol c; binary_header := binary_header c; bcmd := bcmd c;
     opaque := opaque c; substate := substate c; stats_buffer := v; stats_size := stats_size c |}.
Definition set_stats_size (v : Z) (c : conn) : conn :=
  {| state := state c; ev_flags := ev_flags c; rbuf := rbuf c; rsize := rsize c; rpos := rpos c;
     unread := unread c; rbuf_malloced := rbuf_malloced c; resps := resps c; ritem := ritem c;
     rlbytes := rlbytes c; citem := citem c; sbytes := sbytes c; cmd := cmd c; noreply := noreply c;
     set_stale := set_stale c; mset_res := mset_res c; close_after_write := close_after_write c;
     last_cas := last_cas c; protocol := protocol c; binary_header := binary_header c; bcmd := bcmd c;
     opaque := opaque c; substate := substate c; stats_buffer := stats_buffer c; stats_size := v |}.

(** The settings of memcached.h that McItem does not have; the bits of a [double]. *)
Record options := {
  verbose : Z;
  flush_enabled : bool;
  shutdown_command : bool;
  watch_enabled : bool;
  dump_enabled : bool;
  lru_crawler : bool;
  lru_crawler_tocrawl : Z;
  lru_crawler_sleep : Z;
  lru_maintainer_thread : bool;
  reqs_per_event : Z;
  slab_automove_ratio : Z;
  hot_max_factor : Z;
  warm_max_factor : Z;
}.

Definition set_verbose (v : Z) (o : options) : options :=
  {| verbose := v; flush_enabled := flush_enabled o; shutdown_command := shutdown_command o;
     watch_enabled := watch_enabled o; dump_enabled := dump_enabled o; lru_crawler := lru_crawler o;
     lru_crawler_tocrawl := lru_crawler_tocrawl o; lru_crawler_sleep := lru_crawler_sleep o;
     lru_maintainer_thread := lru_maintainer_thread o; reqs_per_event := reqs_per_event o;
     slab_automove_ratio := slab_automove_ratio o; hot_max_factor := hot_max_factor o;
     warm_max_factor := warm_max_factor o |}.
Definition set_flush_enabled (v : bool) (o : options) : options :=
  {| verbose := verbose o; flush_enabled := v; shutdown_command := shutdown_command o;
     watch_enabled := watch_enabled o; dump_enabled := dump_enabled o; lru_crawler := lru_crawler o;
     lru_crawler_tocrawl := lru_crawler_tocrawl o; lru_crawler_sleep := lru_crawler_sleep o;
     lru_maintainer_thread := lru_maintainer_thread o; reqs_per_event := reqs_per_event o;
     slab_automove_ratio := slab_automove_ratio o; hot_max_factor := hot_max_factor o;
     warm_max_factor := warm_max_factor o |}.
Definition set_shutdown_command (v : bool) (o : options) : options :=
  {| verbose := verbose o; flush_enabled := flush_enabled o; shutdown_command := v;
     watch_enabled := watch_enabled o; dump_enabled := dump_enabled o; lru_crawler := lru_crawler o;
     lru_crawler_tocrawl := lru_crawler_tocrawl o; lru_crawler_sleep := lru_crawler_sleep o;
     lru_maintainer_thread := lru_maintainer_thread o; reqs_per_event := reqs_per_event o;
     slab_automove_ratio := slab_automove_ratio o; hot_max_factor := hot_max_factor o;
     warm_max_factor := warm_max_factor o |}.
Definition set_watch_enabled (v : bool) (o : options) : options :=
  {| verbose := verbose o; flush_enabled := flush_enabled o;
     shutdown_command := shutdown_command o; watch_enabled := v; dump_enabled := dump_enabled o;
     lru_crawler := lru_crawler o; lru_crawler_tocrawl := lru_crawler_tocrawl o;
     lru_crawler_sleep := lru_crawler_sleep o; lru_maintainer_thread := lru_maintainer_thread o;
     reqs_per_event := reqs_per_event o; slab_automove_ratio := slab_automove_ratio o;
     hot_max_factor := hot_max_factor o; warm_max_factor := warm_max_factor o |}.
Definition set_dump_enabled (v : bool) (o : options) : options :=
  {| verbose := verbose o; flush_enabled := flush_enabled o;
     shutdown_command := shutdown_command o; watch_enabled := watch_enabled o; dump_enabled := v;
     lru_crawler := lru_crawler o; lru_crawler_tocrawl := lru_crawler_tocrawl o;
     lru_crawler_sleep := lru_crawler_sleep o; lru_maintainer_thread := lru_maintainer_thread o;
     reqs_per_event := reqs_per_event o; slab_automove_ratio := slab_automove_ratio o;
     hot_max_factor := hot_max_factor o; warm_max_factor := warm_max_factor o |}.
Definition set_lru_crawler (v : bool) (o : options) : options :=
  {| verbose := verbose o; flush_enabled := flush_enabled o;
     shutdown_command := shutdown_command o; watch_enabled := watch_enabled o;
     dump_enabled := dump_enabled o; lru_crawler := v; lru_crawler_tocrawl := lru_crawler_tocrawl o;
     lru_crawler_sleep := lru_crawler_sleep o; lru_maintainer_thread := lru_maintainer_thread o;
     reqs_per_event := reqs_per_event o; slab_automove_ratio := slab_automove_ratio o;
     hot_max_factor := hot_max_factor o; warm_max_factor := warm_max_factor o |}.
Definition set_lru_crawler_tocrawl (v : Z) (o : options) : options :=
  {| verbose := verbose o; flush_enabled := flush_enabled o;
     shutdown_command := shutdown_command o; watch_enabled := watch_enabled o;
     dump_enabled := dump_enabled o; lru_crawler := lru_crawler o; lru_crawler_tocrawl := v;
     lru_crawler_sleep := lru_crawler_sleep o; lru_maintainer_thread := lru_maintainer_thread o;
     reqs_per_event := reqs_per_event o; slab_automove_ratio := slab_automove_ratio o;
     hot_max_factor := hot_max_factor o; warm_max_factor := warm_max_factor o |}.
Definition set_lru_crawler_sleep (v : Z) (o : options) : options :=
  {| verbose := verbose o; flush_enabled := flush_enabled o;
     shutdown_command := shutdown_command o; watch_enabled := watch_enabled o;
     dump_enabled := dump_enabled o; lru_crawler := lru_crawler o;
     lru_crawler_tocrawl := lru_crawler_tocrawl o; lru_crawler_sleep := v;
     lru_maintainer_thread := lru_maintainer_thread o; reqs_per_event := reqs_per_event o;
     slab_automove_ratio := slab_automove_ratio o; hot_max_factor := hot_max_factor o;
     warm_max_factor := warm_max_factor o |}.
Definition set_lru_maintainer_thread (v : bool) (o : options) : options :=
  {| verbose := verbose o; flush_enabled := flush_enabled o;
     shutdown_command := shutdown_command o; watch_enabled := watch_enabled o;
     dump_enabled := dump_enabled o; lru_crawler := lru_crawler o;
     lru_crawler_tocrawl := lru_crawler_tocrawl o; lru_crawler_sleep := lru_crawler_sleep o;
     lru_maintainer_thread := v; reqs_per_event := reqs_per_event o;
     slab_automove_ratio := slab_automove_ratio o; hot_max_factor := hot_max_factor o;
     warm_max_factor := warm_max_factor o |}.
Definition set_reqs_per_event (v : Z) (o : options) : options :=
  {| verbose := verbose o; flush_enabled := flush_enabled o;
     shutdown_command := shutdown_command o; watch_enabled := watch_enabled o;
     dump_enabled := dump_enabled o; lru_crawler := lru_crawler o;
     lru_crawler_tocrawl := lru_crawler_tocrawl o; lru_crawler_sleep := lru_crawler_sleep o;
     lru_maintainer_thread := lru_maintainer_thread o; reqs_per_event := v;
     slab_automove_ratio := slab_automove_ratio o; hot_max_factor := hot_max_factor o;
     warm_max_factor := warm_max_factor o |}.
Definition set_slab_automove_ratio (v : Z) (o : options) : options :=
  {| verbose := verbose o; flush_enabled := flush_enabled o;
     shutdown_command := shutdown_command o; watch_enabled := watch_enabled o;
     dump_enabled := dump_enabled o; lru_crawler := lru_crawler o;
     lru_crawler_tocrawl := lru_crawler_tocrawl o; lru_crawler_sleep := lru_crawler_sleep o;
     lru_maintainer_thread := lru_maintainer_thread o; reqs_per_event := reqs_per_event o;
     slab_automove_ratio := v; hot_max_factor := hot_max_factor o;
     warm_max_factor := warm_max_factor o |}.
Definition set_hot_max_factor (v : Z) (o : options) : options :=
  {| verbose := verbose o; flush_enabled := flush_enabled o;
     shutdown_command := shutdown_command o; watch_enabled := watch_enabled o;
     dump_enabled := dump_enabled o; lru_crawler := lru_crawler o;
     lru_crawler_tocrawl := lru_crawler_tocrawl o; lru_crawler_sleep := lru_crawler_sleep o;
     lru_maintainer_thread := lru_maintainer_thread o; reqs_per_event := reqs_per_event o;
     slab_automove_ratio := slab_automove_ratio o; hot_max_factor := v;
     warm_max_factor := warm_max_factor o |}.
Definition set_warm_max_factor (v : Z) (o : options) : options :=
  {| verbose := verbose o; flush_enabled := flush_enabled o;
     shutdown_command := shutdown_command o; watch_enabled := watch_enabled o;
     dump_enabled := dump_enabled o; lru_crawler := lru_crawler o;
     lru_crawler_tocrawl := lru_crawler_tocrawl o; lru_crawler_sleep := lru_crawler_sleep o;
     lru_maintainer_thread := lru_maintainer_thread o; reqs_per_event := reqs_per_event o;
     slab_automove_ratio := slab_automove_ratio o; hot_max_factor := hot_max_factor o;
     warm_max_factor := v |}.

(** What a call of [read] returns: bytes, the end of the stream, EAGAIN, or an error. *)
Inductive rd := RdData (bs : list Z) | RdEof | RdAgain | RdError.

(** What a call of [sendmsg] returns: it takes at most that many bytes, EAGAIN, or an
    error. *)
Inductive wr := WrTake (n : Z) | WrAgain | WrError.

Record srv := {
  memory : mc;
  cfg : settings;
  opts : options;
  cn : conn;
  errno : Z;
  sys_calls : nat;
  incoming : list rd;
  outgoing : list wr;
  output : list Z;
  thread : nat;
  interrupted : bool;
}.

Definition set_memory (v : mc) (s : srv) : srv :=
  {| memory := v; cfg := cfg s; opts := opts s; cn := cn s; errno := errno s;
     sys_calls := sys_calls s; incoming := incoming s; outgoing := outgoing s; output := output s;
     thread := thread s; interrupted := interrupted s |}.
Definition set_cfg (v : settings) (s : srv) : srv :=
  {| memory := memory s; cfg := v; opts := opts s; cn := cn s; errno := errno s;
     sys_calls := sys_calls s; incoming := incoming s; outgoing := outgoing s; output := output s;
     thread := thread s; interrupted := interrupted s |}.
Definition set_opts (v : options) (s : srv) : srv :=
  {| memory := memory s; cfg := cfg s; opts := v; cn := cn s; errno := errno s;
     sys_calls := sys_calls s; incoming := incoming s; outgoing := outgoing s; output := output s;
     thread := thread s; interrupted := interrupted s |}.
Definition set_cn (v : conn) (s : srv) : srv :=
  {| memory := memory s; cfg := cfg s; opts := opts s; cn := v; errno := errno s;
     sys_calls := sys_calls s; incoming := incoming s; outgoing := outgoing s; output := output s;
     thread := thread s; interrupted := interrupted s |}.
Definition set_errno (v : Z) (s : srv) : srv :=
  {| memory := memory s; cfg := cfg s; opts := opts s; cn := cn s; errno := v;
     sys_calls := sys_calls s; incoming := incoming s; outgoing := outgoing s; output := output s;
     thread := thread s; interrupted := interrupted s |}.
Definition set_sys_calls (v : nat) (s : srv) : srv :=
  {| memory := memory s; cfg := cfg s; opts := opts s; cn := cn s; errno := errno s;
     sys_calls := v; incoming := incoming s; outgoing := outgoing s; output := output s;
     thread := thread s; interrupted := interrupted s |}.
Definition set_incoming (v : list rd) (s : srv) : srv :=
  {| memory := memory s; cfg := cfg s; opts := opts s; cn := cn s; errno := errno s;
     sys_calls := sys_calls s; incoming := v; outgoing := outgoing s; output := output s;
     thread := thread s; interrupted := interrupted s |}.
Definition set_outgoing (v : list wr) (s : srv) : srv :=
  {| memory := memory s; cfg := cfg s; opts := opts s; cn := cn s; errno := errno s;
     sys_calls := sys_calls s; incoming := incoming s; outgoing := v; output := output s;
     thread := thread s; interrupted := interrupted s |}.
Definition set_output (v : list Z) (s : srv) : srv :=
  {| memory := memory s; cfg := cfg s; opts := opts s; cn := cn s; errno := errno s;
     sys_calls := sys_calls s; incoming := incoming s; outgoing := outgoing s; output := v;
     thread := thread s; interrupted := interrupted s |}.
Definition set_thread (v : nat) (s : srv) : srv :=
  {| memory := memory s; cfg := cfg s; opts := opts s; cn := cn s; errno := errno s;
     sys_calls := sys_calls s; incoming := incoming s; outgoing := outgoing s; output := output s;
     thread := v; interrupted := interrupted s |}.
Definition set_interrupted (v : bool) (s : srv) : srv :=
  {| memory := memory s; cfg := cfg s; opts := opts s; cn := cn s; errno := errno s;
     sys_calls := sys_calls s; incoming := incoming s; outgoing := outgoing s; output := output s;
     thread := thread s; interrupted := v |}.

(** ** Binary responses *)

(** [protocol_binary_response_status], the errors. *)
Inductive bin_status :=
  RESPONSE_KEY_ENOENT | RESPONSE_KEY_EEXISTS | RESPONSE_E2BIG | RESPONSE_EINVAL | RESPONSE_NOT_STORED |
  RESPONSE_DELTA_BADVAL | RESPONSE_AUTH_ERROR | RESPONSE_UNKNOWN_COMMAND | RESPONSE_ENOMEM.

Definition status_code (e : bin_status) : Z :=
  match e with
  | RESPONSE_KEY_ENOENT => 1
  | RESPONSE_KEY_EEXISTS => 2
  | RESPONSE_E2BIG => 3
  | RESPONSE_EINVAL => 4
  | RESPONSE_NOT_STORED => 5
  | RESPONSE_DELTA_BADVAL => 6
  | RESPONSE_AUTH_ERROR => 32
  | RESPONSE_UNKNOWN_COMMAND => 129
  | RESPONSE_ENOMEM => 130
  end.

Definition status_text (e : bin_status) : list Z :=
  match e with
  | RESPONSE_ENOMEM => str "Out of memory"
  | RESPONSE_UNKNOWN_COMMAND => str "Unknown command"
  | RESPONSE_KEY_ENOENT => str "Not found"
  | RESPONSE_EINVAL => str "Invalid arguments"
  | RESPONSE_KEY_EEXISTS => str "Data exists for key."
  | RESPONSE_E2BIG => str "Too large."
  | RESPONSE_DELTA_BADVAL => str "Non-numeric server-side value for incr or decr"
  | RESPONSE_NOT_STORED => str "Not stored."
  | RESPONSE_AUTH_ERROR => str "Auth failure."
  end.

Definition PROTOCOL_BINARY_REQ : Z := 128.
Definition PROTOCOL_BINARY_RES : Z := 129.

(** [sizeof(protocol_binary_request_header)], and of the response's. *)
Definition sizeof_header : Z := 24.

(** The [n] bytes of a number in network order. *)
Definition be_bytes (n : nat) (x : Z) : list Z := rev (le_bytes n x).

(** [protocol_binary_response_header] in memory. *)
Definition response_header (op key_len ext_len status body_len opaque cas : Z) : list Z :=
  [PROTOCOL_BINARY_RES; op] ++ be_bytes 2 key_len ++ [ext_len; 0] ++ be_bytes 2 status ++
  be_bytes 4 body_len ++ le_bytes 4 opaque ++ be_bytes 8 cas.

(** ** Effects *)

(** A function of the cache, with the settings of the moment. *)
Definition on_memory {A} (m : settings -> M mc A) : M srv A :=
  fun s => match m (cfg s) (memory s) with
           | Ret a m' => Ret a (set_memory m' s)
           | Abort => Abort
           | Block => Block
           | Fault => Fault
           end.

Definition in_memory {A} (m : M mc A) : M srv A := on_memory (fun _ => m).

Definition set_conn (f : conn -> conn) : M srv unit := modify (fun s => set_cn (f (cn s)) s).
Definition get_conn {A} (f : conn -> A) : M srv A := gets (fun s => f (cn s)).
Definition set_settings (f : settings -> settings) : M srv unit := modify (fun s => set_cfg (f (cfg s)) s).
Definition set_options (f : options -> options) : M srv unit := modify (fun s => set_opts (f (opts s)) s).

(** [if (c) a;] *)
Definition whenS (c : bool) (a : M srv unit) : M srv unit := if c then a else ret tt.

Definition conn_set_state (st : conn_states) : M srv unit := set_conn (set_state st).

(** ** The environment

    The C library and the operating system, and the functions of other source files that
    the commands call and that are not part of the model (statistics, the logger, the
    crawler). *)

(** A token; [value] is NULL in the last one when all of the line was scanned, and what is
    left of it otherwise. *)
Record token_t := { value : option (list Z); tlength : nat }.

Inductive watcher_result := LOGGER_ADD_WATCHER_TOO_MANY | LOGGER_ADD_WATCHER_OK | LOGGER_ADD_WATCHER_FAILED.

Inductive crawler_result_type :=
  CRAWLER_OK | CRAWLER_RUNNING | CRAWLER_BADCLASS | CRAWLER_NOTSTARTED | CRAWLER_ERROR.

Class Env := {
  malloc_result : mc -> Z -> Z;
  trylock : mc -> Z -> bool;
  rebalance_trylock : mc -> bool;
  process_started : Z;
  sys_ok : nat -> bool;
  version : list Z;                             (** the macro VERSION, from the build *)
  strtod : list Z -> Z * bool * nat;            (** the bits of the number, ERANGE, [endptr] *)
  logger_add_watcher : Z -> srv -> watcher_result;
  lru_crawler_crawl : list Z -> bool -> srv -> crawler_result_type;
  start_item_crawler_thread : srv -> bool;
  stop_item_crawler_thread : srv -> bool;
  process_stat : list token_t -> M srv unit;
  server_stats : srv -> list (list Z * list Z);                  (** the names and values of the statistics *)
  process_stat_settings : srv -> list (list Z * list Z);
  get_stats : list Z -> srv -> option (list (list Z * list Z));  (** of a group; false is [None] *)
  stats_prefix_dump : srv -> option (list Z);
  rbuf_behind : srv -> list Z;                  (** the bytes in the read buffer behind those received *)
}.

Section Conn.
Context `{E : Env}.

(** A call that can fail. *)
Definition sys_call : M srv bool :=
  fun s => Ret (sys_ok (sys_calls s)) (set_sys_calls (S (sys_calls s)) s).

(** An allocation. *)
Definition sys_alloc : M srv bool :=
  let! ok := sys_call in
  whenS (negb ok) (modify (set_errno ENOMEM)) ;;
  ret ok.

(** ** Responses *)

(** The last response, [c->resp]; there is none when it is NULL. *)
Definition get_resp {A} (f : mc_resp -> A) : M srv A :=
  let! rs := get_conn resps in
  match last rs with Some r => ret (f r) | None => fun _ => Fault end.

Definition set_last (r : mc_resp) (rs : list mc_resp) : list mc_resp := take (length rs - 1) rs ++ [r].

Definition set_resp (f : mc_resp -> mc_resp) : M srv unit :=
  let! r := get_resp (fun r => r) in
  set_conn (fun c => set_resps (set_last (f r) (resps c)) c).

Definition item_removeS (it : Z) : M srv unit := on_memory (fun cfg => do_item_remove cfg it).

Definition resp_reset : M srv unit :=
  let! it := get_resp resp_item in
  (if negb (it =? 0) then item_removeS it ;; set_resp (set_resp_item 0) else ret tt) ;;
  set_resp (fun r => set_skip false (set_chunked_total 0 (set_chunked_data_iov 0
                       (set_iov [] (set_tosend 0 (set_wbytes 0 r)))))).

(** The vector has [MC_RESP_IOVCOUNT] elements. *)
Definition resp_add_iov (b : iov_base_t) (len : Z) : M srv unit :=
  let! v := get_resp iov in
  if (length v <? MC_RESP_IOVCOUNT)%nat then
    set_resp (fun r => set_tosend (tosend r + len) (set_iov (iov r ++ [{| iov_base := b; iov_len := len |}]) r))
  else fun _ => Fault.

Definition resp_add_chunked_iov (b : iov_base_t) (len : Z) : M srv unit :=
  set_resp (fun r => set_chunked_total len (set_chunked_data_iov (length (iov r)) r)) ;;
  resp_add_iov b len.

Definition resp_start : M srv bool :=
  let! ok := sys_alloc in
  if ok then set_conn (fun c => set_resps (resps c ++ [empty_resp]) c) ;; ret true
  else ret false.

(** Of the first response of the list. *)
Definition resp_finish (r : mc_resp) : M srv unit :=
  whenS (negb (resp_item r =? 0)) (item_removeS (resp_item r)) ;;
  set_conn (fun c => set_resps (tail (resps c)) c).

Definition resp_has_stack : M srv bool := get_conn (fun c => (1 <? length (resps c))%nat).

(** [memcpy(resp->wbuf + off, bs, n)] *)
Definition wbuf_put (off : Z) (bs : list Z) : M srv unit :=
  if (0 <=? off) && (off + Z.of_nat (length bs) <=? WRITE_BUFFER_SIZE) then
    set_resp (fun r => set_wbuf (take (Z.to_nat off) (wbuf r) ++ bs ++ drop (Z.to_nat off + length bs) (wbuf r)) r)
  else fun _ => Fault.

Definition out_string (s : list Z) : M srv unit :=
  resp_reset ;;
  let! quiet := get_conn noreply in
  if quiet then set_resp (set_skip true) ;; conn_set_state conn_new_cmd
  else
    let s := if WRITE_BUFFER_SIZE <? Z.of_nat (length s) + 2 then str "SERVER_ERROR output line too long" else s in
    let len := Z.of_nat (length s) in
    wbuf_put 0 s ;;
    wbuf_put len CRLF ;;
    resp_add_iov (Wbuf 0) (len + 2) ;;
    conn_set_state conn_new_cmd.

Definition out_errstring (s : list Z) : M srv unit :=
  set_conn (set_noreply false) ;; out_string s.

(** In the binary protocol a response starts with a header.  [htons] and [htonl] are part of
    [be_bytes]. *)
Definition add_bin_header (err : Z) (hdr_len key_len body_len : Z) : M srv unit :=
  resp_reset ;;
  let! c := gets cn in
  wbuf_put 0 (response_header (opcode (binary_header c)) key_len hdr_len err body_len (opaque c) (last_cas c)) ;;
  set_resp (set_wbytes sizeof_header) ;;
  resp_add_iov (Wbuf 0) sizeof_header.

(** [errstr] without a text of the caller's; [swallow] is an [int]. *)
Definition write_bin_error (err : bin_status) (text : option (list Z)) (swallow : Z) : M srv unit :=
  let errstr := default (status_text err) text in
  let len := Z.of_nat (length errstr) in
  add_bin_header (status_code err) 0 0 len ;;
  whenS (0 <? len) (resp_add_iov (Static errstr) len) ;;
  if 0 <? swallow then set_conn (set_sbytes swallow) ;; conn_set_state conn_swallow
  else conn_set_state conn_mwrite.

Definition error_prefix : list Z := str "SERVER_ERROR ".

Definition out_of_memory (ascii_error : list Z) : M srv unit :=
  let! p := get_conn protocol in
  match p with
  | binary_prot =>
      let text := if bool_decide (take (length error_prefix) ascii_error = error_prefix)
                  then drop (length error_prefix) ascii_error else ascii_error in
      write_bin_error RESPONSE_ENOMEM (Some text) 0
  | _ => out_string ascii_error
  end.

(** The loop over the responses; each is the first when it is finished. *)
Fixpoint finish_all (rs : list mc_resp) : M srv unit :=
  match rs with
  | [] => ret tt
  | r :: rs' => resp_finish r ;; finish_all rs'
  end.

Definition conn_release_items : M srv unit :=
  let! it := get_conn citem in
  (if negb (it =? 0) then item_removeS it ;; set_conn (set_citem 0) else ret tt) ;;
  let! rs := get_conn resps in
  finish_all rs.

(** ** Tokens *)

Definition a_token (v : list Z) : token_t := {| value := Some v; tlength := length v |}.

(** The loop over the string: [n] more tokens at most, [tok] is the token that is being
    scanned, backwards.  The tokens, and what is left behind the last one. *)
Fixpoint tokenize_loop (n : nat) (s tok : list Z) : list (list Z) * option (list Z) :=
  match s with
  | [] => ((if (length tok =? 0)%nat then [] else [rev tok]), None)
  | c :: s' =>
      if c =? 32 then
        if (length tok =? 0)%nat then tokenize_loop n s' []
        else
          match n with
          | O | S O => ([rev tok], match s' with [] => None | _ => Some s' end)
          | S n' => let '(ts, r) := tokenize_loop n' s' [] in (rev tok :: ts, r)
          end
      else tokenize_loop n s' (c :: tok)
  end.

(** [ntokens] is the length of the result. *)
Definition tokenize_command (command : list Z) (max_tokens : nat) : list token_t :=
  let '(ts, r) := tokenize_loop (max_tokens - 1) command [] in
  map a_token ts ++ [{| value := r; tlength := 0 |}].

(** An element of the array; those behind the last token are not initialised. *)
Definition token (tokens : list token_t) (i : nat) : M srv token_t :=
  match tokens !! i with Some t => ret t | None => fun _ => Fault end.

(** As a C string; reading through NULL is a fault. *)
Definition token_str (tokens : list token_t) (i : nat) : M srv (list Z) :=
  let! t := token tokens i in
  match value t with Some v => ret v | None => fun _ => Fault end.

(** The bytes of a key, none when the token is NULL. *)
Definition token_key (tokens : list token_t) (i : nat) : M srv (list Z) :=
  let! t := token tokens i in
  ret (take (tlength t) (default [] (value t))).

(** [strcmp(tokens[i].value, s) == 0] *)
Definition token_is (tokens : list token_t) (i : nat) (s : string) : M srv bool :=
  let! v := token_str tokens i in
  ret (bool_decide (v = str s)).

(** ** Numbers, with [errno] *)
Definition parse_with (erange : bool) (r : option Z) : M srv (option Z) :=
  modify (set_errno (if erange then ERANGE else 0)) ;; ret r.

Definition parse_strtoull (v : list Z) : M srv (option Z) :=
  parse_with (strtoull 10 v).1.2 (safe_strtoull v).
Definition parse_strtoul (v : list Z) : M srv (option Z) :=
  parse_with (strtoull 10 v).1.2 (safe_strtoul v).
Definition parse_strtol (v : list Z) : M srv (option Z) :=
  parse_with (strtoll 10 v).1.2 (safe_strtol v).

(** [safe_strtod] *)
Definition parse_strtod (v : list Z) : M srv (option Z) :=
  let '(d, erange, e) := strtod v in
  parse_with erange
    (if erange || (e =? 0)%nat then None
     else if isspace (char_at v e) || (char_at v e =? 0) then Some d else None).

(** [strtol(v, NULL, 10)], which leaves [errno] as it is unless the number is too large;
    [strtoul] likewise. *)
Definition c_strtol (v : list Z) : M srv Z :=
  let '(x, erange, _) := strtoll 10 v in
  whenS erange (modify (set_errno ERANGE)) ;; ret x.
Definition c_strtoul (v : list Z) : M srv Z :=
  let '(x, erange, _) := strtoull 10 v in
  whenS erange (modify (set_errno ERANGE)) ;; ret x.

Definition set_noreply_maybe (tokens : list token_t) : M srv bool :=
  let! t := token tokens (length tokens - 2) in
  whenS (bool_decide (value t = Some (str "noreply"))) (set_conn (set_noreply true)) ;;
  get_conn noreply.
End Conn.
