(* ===== verification/McCommands.v ===== *)
(** * memcached: the commands of the text protocol

    src/sw/apps/memcached/memcached/memcached.c from [complete_nread_ascii] to
    [process_command], without the meta commands, which are in McMeta.  A command works on
    the connection and on the cache; the last thing it does is to set the state the
    connection goes on in. *)

From Stdlib Require Import String.
From stdpp Require Import gmap.
From S2P Require Import Prelude Wire McText McHash McItem McAssoc McSlabs McItems McDagger McOps McConn.

Definition IT_REFCOUNT_LIMIT : Z := 60000.
Definition MAX_VERBOSITY_LEVEL : Z := 2.
Definition INT_MAX : Z := 2 ^ 31 - 1.

Definition KEY_TOKEN : nat := 1.

(** ** Changes of the settings *)
Definition with_automove (v : Z) (s : settings) : settings :=
  {| ndebug := ndebug s; use_cas := use_cas s; item_size_max := item_size_max s;
     slab_page_size := slab_page_size s; slab_chunk_size_max := slab_chunk_size_max s;
     chunk_size := chunk_size s; slab_reassign := slab_reassign s; slab_automove := v;
     lru_segmented := lru_segmented s; temp_lru := temp_lru s; temporary_ttl := temporary_ttl s;
     hot_lru_pct := hot_lru_pct s; warm_lru_pct := warm_lru_pct s; evict_to_free := evict_to_free s;
     tail_repair_time := tail_repair_time s; oldest_live := oldest_live s; oldest_cas := oldest_cas s;
     hash_algorithm := hash_algorithm s |}.
Definition with_lru_mode (seg temp : bool) (ttl hot warm : Z) (s : settings) : settings :=
  {| ndebug := ndebug s; use_cas := use_cas s; item_size_max := item_size_max s;
     slab_page_size := slab_page_size s; slab_chunk_size_max := slab_chunk_size_max s;
     chunk_size := chunk_size s; slab_reassign := slab_reassign s; slab_automove := slab_automove s;
     lru_segmented := seg; temp_lru := temp; temporary_ttl := ttl; hot_lru_pct := hot;
     warm_lru_pct := warm; evict_to_free := evict_to_free s; tail_repair_time := tail_repair_time s;
     oldest_live := oldest_live s; oldest_cas := oldest_cas s; hash_algorithm := hash_algorithm s |}.
Definition with_oldest (live cas : Z) (s : settings) : settings :=
  {| ndebug := ndebug s; use_cas := use_cas s; item_size_max := item_size_max s;
     slab_page_size := slab_page_size s; slab_chunk_size_max := slab_chunk_size_max s;
     chunk_size := chunk_size s; slab_reassign := slab_reassign s; slab_automove := slab_automove s;
     lru_segmented := lru_segmented s; temp_lru := temp_lru s; temporary_ttl := temporary_ttl s;
     hot_lru_pct := hot_lru_pct s; warm_lru_pct := warm_lru_pct s; evict_to_free := evict_to_free s;
     tail_repair_time := tail_repair_time s; oldest_live := live; oldest_cas := cas;
     hash_algorithm := hash_algorithm s |}.

(** A [double], given by its bits, is at most 0; a NaN is not. *)
Definition double_le0 (bits : Z) : bool :=
  let magnitude := bits mod 2 ^ 63 in
  (magnitude =? 0) || ((2 ^ 63 <=? bits) && (magnitude <=? 2047 * 2 ^ 52)).

Section Commands.
Context `{E : Env}.

Definition allocate (key : list Z) (flags exptime nbytes : Z) : M srv Z :=
  on_memory (fun cfg => do_item_alloc cfg malloc_result trylock rebalance_trylock key flags exptime nbytes).

Definition EXPTIME_TO_POSITIVE_TIME (e : Z) : Z := if e <? 0 then REALTIME_MAXDELTA + 1 else e.

Definition realtimeS (e : Z) : M srv Z := in_memory (realtime process_started e).

(** For the thread of the connection. *)
Definition item_getS (key : list Z) (do_update : bool) : M srv Z :=
  let! b := gets thread in
  on_memory (fun cfg => do_item_get cfg key (hash cfg key) b do_update).
Definition item_touchS (key : list Z) (exptime : Z) : M srv Z :=
  let! b := gets thread in
  on_memory (fun cfg => do_item_touch cfg key exptime (hash cfg key) b).

(** ** The end of an update *)

Definition status_string (r : store_item_type) : list Z :=
  match r with
  | STORED => str "STORED"
  | EXISTS => str "EXISTS"
  | NOT_FOUND => str "NOT_FOUND"
  | NOT_STORED => str "NOT_STORED"
  | _ => str "SERVER_ERROR Unhandled storage type."
  end.

(** The status code of a meta command, put in front of the response it has prepared. *)
Definition meta_status (r : store_item_type) : M srv unit :=
  conn_set_state conn_new_cmd ;;
  match r with
  | STORED =>
      wbuf_put 0 (str "OK ") ;;
      let! quiet := get_conn noreply in
      whenS quiet (set_resp (set_skip true))
  | EXISTS => wbuf_put 0 (str "EX ")
  | NOT_FOUND => wbuf_put 0 (str "NF ")
  | NOT_STORED => wbuf_put 0 (str "NS ")
  | _ => set_conn (set_noreply false) ;; out_string (str "SERVER_ERROR Unhandled storage type.")
  end.

(** The last two bytes of the value of a large item; [ch] is its last chunk. *)
Definition last_two (cfg : settings) (it ch : Z) : M mc (list Z) :=
  let! k := load_chunk it ch in
  cassert cfg (negb (k_used k =? 0)) ;;
  if 1 <? k_used k then copy_out (k_obj k) (k_off k + k_used k - 2) 2
  else
    let! j := load ch in
    cassert cfg (negb (prev j =? 0)) ;;
    cassert cfg (k_used k =? 1) ;;
    let! k' := load_chunk it (prev j) in
    let! b0 := copy_out (k_obj k') (k_off k' + k_used k' - 1) 1 in
    let! b1 := copy_out (k_obj k) (k_off k + k_used k - 1) 1 in
    ret (b0 ++ b1).

Definition ends_in_crlf (cfg : settings) (it ch : Z) : M mc bool :=
  let! i := load it in
  if negb (has (it_flags i) ITEM_CHUNKED) then
    let! bs := copy_out it (ITEM_data i + nbytes i - 2) 2 in
    ret (bool_decide (bs = CRLF))
  else
    let! bs := last_two cfg it ch in
    cassert cfg (bool_decide (bs = CRLF)) ;;
    ret (bool_decide (bs = CRLF)).

Definition complete_nread_ascii : M srv unit :=
  let! c := gets cn in
  let it := citem c in
  let! is_valid := on_memory (fun cfg => ends_in_crlf cfg it (ritem c)) in
  (if negb is_valid then
     whenS (mset_res c) (set_conn (set_noreply false)) ;;
     out_string (str "CLIENT_ERROR bad data chunk")
   else
     let! b := gets thread in
     let! (r, cas) := on_memory (fun cfg => store_item cfg malloc_result trylock rebalance_trylock it (cmd c) (set_stale c) b) in
     (match cas with Some v => set_conn (set_last_cas v) | None => ret tt end) ;;
     if mset_res c then meta_status r else out_string (status_string r)) ;;
  set_conn (fun c => set_mset_res false (set_set_stale false c)) ;;
  let! it := get_conn citem in
  item_removeS it ;;
  set_conn (set_citem 0).

(** ** Retrieval *)
Definition make_ascii_get_suffix (i : item) (return_cas : bool) (nbytes : Z) : list Z :=
  [32] ++ (if cflags_size i =? 0 then [48] else itoa_u32 (FLAGS_CONV i)) ++ [32] ++ itoa_u32 (u32 (nbytes - 2)) ++
  (if return_cas then [32] ++ itoa_u64 (ITEM_get_cas i) else []) ++ CRLF.

(** The item, 0 for none, and [*overflow]. *)
Definition limited_get (key : list Z) (exptime : Z) (should_touch do_update : bool) : M srv (Z * bool) :=
  let! it := (if should_touch then item_touchS key exptime else item_getS key do_update) in
  if it =? 0 then ret (0, false)
  else
    let! r := in_memory (field_of refcount it) in
    if IT_REFCOUNT_LIMIT <? r then item_removeS it ;; ret (0, true)
    else ret (it, false).

(** The value of an item, behind the line that announces it. *)
Definition add_value (it : Z) (i : item) : M srv unit :=
  if negb (has (it_flags i) ITEM_CHUNKED) then resp_add_iov (Data it (ITEM_data i)) (nbytes i)
  else resp_add_chunked_iov (Chunked it) (nbytes i).

Definition get_hit (it : Z) (return_cas : bool) : M srv unit :=
  let! i := in_memory (load it) in
  let line := str "VALUE " ++ key_of i ++ make_ascii_get_suffix i return_cas (nbytes i) in
  wbuf_put 0 (line ++ [0]) ;;
  resp_add_iov (Wbuf 0) (Z.of_nat (length line)) ;;
  add_value it i ;;
  set_resp (set_resp_item it).

(** Where the loop over the keys leaves: at the last token, with what is left of the line,
    or early, the key being too long or memory being out. *)
Inductive get_end := GetLast (left : option (list Z)) | GetTooLong | GetNoMemory.

Fixpoint get_loop (ts : list token_t) (exptime : Z) (return_cas should_touch : bool) : M srv get_end :=
  match ts with
  | [] => fun _ => Fault
  | t :: ts' =>
      if (tlength t =? 0)%nat then ret (GetLast (value t))
      else
        let key := take (tlength t) (default [] (value t)) in
        if KEY_MAX_LENGTH <? Z.of_nat (length key) then ret GetTooLong
        else
          let! (it, _) := limited_get key exptime should_touch true in
          (if negb (it =? 0) then get_hit it return_cas else ret tt) ;;
          match ts' with
          | t' :: _ =>
              if (tlength t' =? 0)%nat then get_loop ts' exptime return_cas should_touch
              else
                let! ok := resp_start in
                if ok then get_loop ts' exptime return_cas should_touch else ret GetNoMemory
          | [] => fun _ => Fault
          end
  end.

(** Again from the first token of what is left of the line; [n] bounds its length.  [None]
    when all of it was processed. *)
Fixpoint get_rounds (n : nat) (ts : list token_t) (exptime : Z) (return_cas should_touch : bool)
    : M srv (option bool) :=
  match n with
  | O => fun _ => Block
  | S n' =>
      let! e := get_loop ts exptime return_cas should_touch in
      match e with
      | GetTooLong => ret (Some true)
      | GetNoMemory => ret (Some false)
      | GetLast None => ret None
      | GetLast (Some rest) =>
          let ts' := tokenize_command rest MAX_TOKENS in
          let! ok := resp_start in
          let more := match ts' with t :: _ => bool_decide (value t <> None) | [] => false end in
          if negb more then ret None
          else if negb ok then ret (Some false)
          else get_rounds n' ts' exptime return_cas should_touch
      end
  end.

Definition left_over (ts : list token_t) : nat :=
  match last ts with Some t => length (default [] (value t)) | None => 0%nat end.

(** The loops and what follows them. *)
Definition get_keys (ts : list token_t) (exptime : Z) (return_cas should_touch : bool) : M srv unit :=
  let! failed := get_rounds (S (left_over ts)) ts exptime return_cas should_touch in
  match failed with
  | Some fail_length =>
      conn_release_items ;;
      let! ok := resp_start in
      if negb ok then conn_set_state conn_closing
      else if fail_length then out_string (str "CLIENT_ERROR bad command line format")
      else out_of_memory (str "SERVER_ERROR out of memory writing get response")
  | None =>
      resp_add_iov (Static (str "END" ++ CRLF)) 5 ;;
      conn_set_state conn_mwrite
  end.

Definition process_get_command (tokens : list token_t) (return_cas should_touch : bool) : M srv unit :=
  if should_touch then
    let! v := token_str tokens 1 in
    let! n := parse_strtol v in
    match n with
    | None => out_string (str "CLIENT_ERROR invalid exptime argument")
    | Some e =>
        let! exptime := realtimeS (EXPTIME_TO_POSITIVE_TIME e) in
        get_keys (drop 2 tokens) exptime return_cas should_touch
    end
  else get_keys (drop KEY_TOKEN tokens) 0 return_cas should_touch.

(** ** Storage *)

(** [item_get], and if it is there [item_unlink] and [item_remove]. *)
Definition drop_stale (key : list Z) : M srv unit :=
  let! it := item_getS key false in
  if negb (it =? 0) then
    on_memory (fun cfg => let! i := load it in do_item_unlink cfg it (hash cfg (key_of i))) ;;
    item_removeS it
  else ret tt.

(** Waits for the value of the new item. *)
Definition start_nread (it : Z) (comm : nread_cmd) : M srv unit :=
  let! i := in_memory (load it) in
  set_conn (fun c => set_cmd comm (set_rlbytes (nbytes i) (set_ritem (it + sizeof_item + ITEM_data i) (set_citem it c)))).

Definition update_item (key : list Z) (flags exptime vlen req_cas_id : Z) (comm : nread_cmd) : M srv unit :=
  let! it := allocate key flags exptime vlen in
  if it =? 0 then
    let! ok := gets (fun s => item_size_ok (cfg s) (memory s) (Z.of_nat (length key)) flags vlen) in
    (if negb ok then out_string (str "SERVER_ERROR object too large for cache")
     else out_of_memory (str "SERVER_ERROR out of memory storing object")) ;;
    conn_set_state conn_swallow ;;
    set_conn (set_sbytes vlen) ;;
    match comm with NREAD_SET => drop_stale key | _ => ret tt end
  else
    in_memory (ITEM_set_cas it (ret req_cas_id)) ;;
    start_nread it comm ;;
    conn_set_state conn_nread.

Definition bad_format : list Z := str "CLIENT_ERROR bad command line format".

Definition process_update_command (tokens : list token_t) (comm : nread_cmd) (handle_cas : bool) : M srv unit :=
  set_noreply_maybe tokens ;;
  let! key := token_key tokens KEY_TOKEN in
  if KEY_MAX_LENGTH <? Z.of_nat (length key) then out_string bad_format
  else
    let! t2 := token_str tokens 2 in
    let! flags := parse_strtoul t2 in
    match flags with
    | None => out_string bad_format
    | Some flags =>
        let! t3 := token_str tokens 3 in
        let! e := parse_strtol t3 in
        match e with
        | None => out_string bad_format
        | Some e =>
            let! t4 := token_str tokens 4 in
            let! vlen := parse_strtol t4 in
            match vlen with
            | None => out_string bad_format
            | Some vlen =>
                let! exptime := realtimeS (EXPTIME_TO_POSITIVE_TIME e) in
                let! cas := (if handle_cas then let! t5 := token_str tokens 5 in parse_strtoull t5
                             else ret (Some 0)) in
                match cas with
                | None => out_string bad_format
                | Some req_cas_id =>
                    if (vlen <? 0) || (INT_MAX - 2 <? vlen) then out_string bad_format
                    else update_item key flags exptime (vlen + 2) req_cas_id comm
                end
            end
        end
    end.

Definition process_touch_command (tokens : list token_t) : M srv unit :=
  set_noreply_maybe tokens ;;
  let! key := token_key tokens KEY_TOKEN in
  if KEY_MAX_LENGTH <? Z.of_nat (length key) then out_string bad_format
  else
    let! t2 := token_str tokens 2 in
    let! e := parse_strtol t2 in
    match e with
    | None => out_string (str "CLIENT_ERROR invalid exptime argument")
    | Some e =>
        let! exptime := realtimeS (EXPTIME_TO_POSITIVE_TIME e) in
        let! it := item_touchS key exptime in
        if negb (it =? 0) then out_string (str "TOUCHED") ;; item_removeS it
        else out_string (str "NOT_FOUND")
    end.

Definition process_arithmetic_command (tokens : list token_t) (incr : bool) : M srv unit :=
  set_noreply_maybe tokens ;;
  let! key := token_key tokens KEY_TOKEN in
  if KEY_MAX_LENGTH <? Z.of_nat (length key) then out_string bad_format
  else
    let! t2 := token_str tokens 2 in
    let! d := parse_strtoull t2 in
    match d with
    | None => out_string (str "CLIENT_ERROR invalid numeric delta argument")
    | Some delta =>
        let! b := gets thread in
        let! (r, temp, _) := on_memory (fun cfg =>
          add_delta cfg malloc_result trylock rebalance_trylock key incr delta 0 b) in
        match r with
        | OK => out_string temp
        | NON_NUMERIC => out_string (str "CLIENT_ERROR cannot increment or decrement non-numeric value")
        | EOM => out_of_memory (str "SERVER_ERROR out of memory")
        | DELTA_ITEM_NOT_FOUND => out_string (str "NOT_FOUND")
        | DELTA_ITEM_CAS_MISMATCH => ret tt
        end
    end.

(** Unlinks the item and drops the reference of the look-up. *)
Definition delete_item (it hv : Z) : M srv unit :=
  on_memory (fun cfg => do_item_unlink cfg it hv ;; do_item_remove cfg it).

Definition delete_key (key : list Z) : M srv unit :=
  if KEY_MAX_LENGTH <? Z.of_nat (length key) then out_string bad_format
  else
    let! b := gets thread in
    let! (it, hv) := on_memory (fun cfg => item_get_locked cfg key b false) in
    if negb (it =? 0) then delete_item it hv ;; out_string (str "DELETED")
    else out_string (str "NOT_FOUND").

Definition process_delete_command (tokens : list token_t) : M srv unit :=
  let ntokens := length tokens in
  let! valid :=
    (if (3 <? ntokens)%nat then
       let! hold_is_zero := token_is tokens 2 "0" in
       let! sets_noreply := set_noreply_maybe tokens in
       ret (((ntokens =? 4)%nat && (hold_is_zero || sets_noreply)) ||
            ((ntokens =? 5)%nat && hold_is_zero && sets_noreply))
     else ret true) in
  if negb valid then out_string (str "CLIENT_ERROR bad command line format.  Usage: delete <key> [noreply]")
  else
    let! key := token_key tokens KEY_TOKEN in
    delete_key key.

(** ** Control *)
Definition process_verbosity_command (tokens : list token_t) : M srv unit :=
  set_noreply_maybe tokens ;;
  let! v := token_str tokens 1 in
  let! n := c_strtoul v in
  let level := u32 n in
  set_options (set_verbose (if MAX_VERBOSITY_LEVEL <? level then MAX_VERBOSITY_LEVEL else level)) ;;
  out_string (str "OK").

Definition process_slabs_automove_command (tokens : list token_t) : M srv unit :=
  set_noreply_maybe tokens ;;
  let! ratio := token_is tokens 2 "ratio" in
  if ratio then
    if (length tokens <? 5)%nat then out_string (str "ERROR")
    else
      let! v := token_str tokens 3 in
      let! r := parse_strtod v in
      match r with
      | None => out_string (str "ERROR")
      | Some r => set_options (set_slab_automove_ratio r) ;; out_string (str "OK")
      end
  else
    let! v := token_str tokens 2 in
    let! n := c_strtoul v in
    let level := u32 n in
    if (level =? 0) || (level =? 1) || (level =? 2) then
      set_settings (with_automove level) ;; out_string (str "OK")
    else out_string (str "ERROR").

Definition LOG_SYSEVENTS : Z := 2.
Definition LOG_FETCHERS : Z := 4.
Definition LOG_MUTATIONS : Z := 8.
Definition LOG_EVICTIONS : Z := 64.
Definition LOG_RAWCMDS : Z := 512.

(** The flags of the tokens up to the last one; [None] if one is not known. *)
Fixpoint watch_flags (ts : list token_t) (f : Z) : option Z :=
  match ts with
  | t :: ((_ :: _) as ts') =>
      let named s := bool_decide (value t = Some (str s)) in
      if named "rawcmds" then watch_flags ts' (Z.lor f LOG_RAWCMDS)
      else if named "evictions" then watch_flags ts' (Z.lor f LOG_EVICTIONS)
      else if named "fetchers" then watch_flags ts' (Z.lor f LOG_FETCHERS)
      else if named "mutations" then watch_flags ts' (Z.lor f LOG_MUTATIONS)
      else if named "sysevents" then watch_flags ts' (Z.lor f LOG_SYSEVENTS)
      else None
  | _ => Some f
  end.

(** Hands the connection over to another thread. *)
Definition hand_over : M srv unit :=
  conn_set_state conn_watch ;;
  sys_call ;; ret tt.

Definition process_watch_command (tokens : list token_t) : M srv unit :=
  set_noreply_maybe tokens ;;
  let! enabled := gets (fun s => watch_enabled (opts s)) in
  if negb enabled then out_string (str "CLIENT_ERROR watch commands not allowed")
  else
    let! stack := resp_has_stack in
    if stack then out_string (str "ERROR cannot pipeline other commands before watch")
    else
      match (if (2 <? length tokens)%nat then watch_flags (drop 1 tokens) 0 else Some LOG_FETCHERS) with
      | None => out_string (str "ERROR")
      | Some f =>
          let! r := gets (logger_add_watcher f) in
          match r with
          | LOGGER_ADD_WATCHER_TOO_MANY => out_string (str "WATCHER_TOO_MANY log watcher limit reached")
          | LOGGER_ADD_WATCHER_FAILED => out_string (str "WATCHER_FAILED failed to add log watcher")
          | LOGGER_ADD_WATCHER_OK => hand_over
          end
      end.

Definition process_memlimit_command (tokens : list token_t) : M srv unit :=
  set_noreply_maybe tokens ;;
  let! v := token_str tokens 1 in
  let! n := parse_strtoul v in
  match n with
  | None => out_string (str "ERROR")
  | Some memlimit =>
      if memlimit <? 8 then out_string (str "MEMLIMIT_TOO_SMALL cannot set maxbytes to less than 8m")
      else if 1000000000 <? memlimit then
        out_string (str "MEMLIMIT_ADJUST_FAILED input value is megabytes not bytes")
      else
        let! ok := on_memory (fun cfg => do_slabs_adjust_mem_limit cfg (u64 (memlimit * 1024 * 1024))) in
        if ok then out_string (str "OK")
        else out_string (str "MEMLIMIT_ADJUST_FAILED out of bounds or unable to adjust")
  end.

Definition set_lru_tune (pct_hot pct_warm hot_factor factor : Z) : M srv unit :=
  if 80 <? u32 (pct_hot + pct_warm) then out_string (str "ERROR hot and warm pcts must not exceed 80")
  else if double_le0 factor || double_le0 hot_factor then
    out_string (str "ERROR hot/warm age factors must be greater than 0")
  else
    set_settings (fun s => with_lru_mode (lru_segmented s) (temp_lru s) (temporary_ttl s) pct_hot pct_warm s) ;;
    set_options (fun o => set_warm_max_factor factor (set_hot_max_factor hot_factor o)) ;;
    out_string (str "OK").

Definition lru_tune (tokens : list token_t) : M srv unit :=
  let! t2 := token_str tokens 2 in
  let! hot := parse_strtoul t2 in
  match hot with
  | None => out_string (str "ERROR")
  | Some pct_hot =>
      let! t3 := token_str tokens 3 in
      let! warm := parse_strtoul t3 in
      match warm with
      | None => out_string (str "ERROR")
      | Some pct_warm =>
          let! t4 := token_str tokens 4 in
          let! hot_factor := parse_strtod t4 in
          match hot_factor with
          | None => out_string (str "ERROR")
          | Some hot_factor =>
              let! t5 := token_str tokens 5 in
              let! factor := parse_strtod t5 in
              match factor with
              | None => out_string (str "ERROR")
              | Some factor => set_lru_tune pct_hot pct_warm hot_factor factor
              end
          end
      end
  end.

Definition lru_mode (tokens : list token_t) : M srv unit :=
  let set_mode seg :=
    set_settings (fun s => with_lru_mode seg (temp_lru s) (temporary_ttl s) (hot_lru_pct s) (warm_lru_pct s) s) in
  let! flat := token_is tokens 2 "flat" in
  if flat then set_mode false ;; out_string (str "OK")
  else
    let! segmented := token_is tokens 2 "segmented" in
    if segmented then set_mode true ;; out_string (str "OK") else out_string (str "ERROR").

Definition lru_temp_ttl (tokens : list token_t) : M srv unit :=
  let! t2 := token_str tokens 2 in
  let! ttl := parse_strtol t2 in
  match ttl with
  | None => out_string (str "ERROR")
  | Some ttl =>
      set_settings (fun s =>
        with_lru_mode (lru_segmented s) (negb (ttl <? 0)) (if ttl <? 0 then temporary_ttl s else ttl)
          (hot_lru_pct s) (warm_lru_pct s) s) ;;
      out_string (str "OK")
  end.

Definition process_lru_command (tokens : list token_t) : M srv unit :=
  set_noreply_maybe tokens ;;
  let ntokens := length tokens in
  let! maintainer := gets (fun s => lru_maintainer_thread (opts s)) in
  let! tune := token_is tokens 1 "tune" in
  let! mode := token_is tokens 1 "mode" in
  let! temp := token_is tokens 1 "temp_ttl" in
  if tune && (7 <=? ntokens)%nat then lru_tune tokens
  else if mode && (4 <=? ntokens)%nat && maintainer then lru_mode tokens
  else if temp && (4 <=? ntokens)%nat && maintainer then lru_temp_ttl tokens
  else out_string (str "ERROR").

(** From now on, or from [exptime] on, items that are older are gone. *)
Definition oldest_from (exptime : Z) : M srv unit :=
  let! now := gets (fun s => current_time (memory s)) in
  let! new_oldest := (if 0 <? exptime then realtimeS exptime else ret now) in
  let! cas := gets (fun s => use_cas (cfg s)) in
  if cas then
    let live := u32 (new_oldest - 1) in
    set_settings (fun s => with_oldest live (oldest_cas s) s) ;;
    (if live <=? now then
       let! id := in_memory get_cas_id in
       set_settings (fun s => with_oldest (oldest_live s) id s)
     else ret tt)
  else set_settings (fun s => with_oldest new_oldest (oldest_cas s) s).

(** [exptime] being the argument, 0 without one. *)
Definition flush_at (exptime : Z) : M srv unit :=
  oldest_from exptime ;;
  out_string (str "OK").

Definition process_flush_all_command (tokens : list token_t) : M srv unit :=
  let! quiet := set_noreply_maybe tokens in
  let! enabled := gets (fun s => flush_enabled (opts s)) in
  if negb enabled then out_string (str "CLIENT_ERROR flush_all not allowed")
  else if negb (length tokens =? if quiet then 3 else 2)%nat then
    let! v := token_str tokens 1 in
    let! exptime := c_strtol v in
    let! e := gets errno in
    if e =? ERANGE then out_string bad_format else flush_at exptime
  else flush_at 0.

Definition process_version_command : M srv unit := out_string (str "VERSION " ++ version).

Definition process_quit_command : M srv unit :=
  conn_set_state conn_mwrite ;;
  set_conn (set_close_after_write true).

Definition process_shutdown_command : M srv unit :=
  let! enabled := gets (fun s => shutdown_command (opts s)) in
  if enabled then conn_set_state conn_closing ;; modify (set_interrupted true)
  else out_string (str "ERROR: shutdown not enabled").

Definition reassign_string (r : reassign_result_type) : list Z :=
  match r with
  | REASSIGN_OK => str "OK"
  | REASSIGN_RUNNING => str "BUSY currently processing reassign request"
  | REASSIGN_BADCLASS => str "BADCLASS invalid src or dst class id"
  | REASSIGN_NOSPARE => str "NOSPARE source class has no spare pages"
  | REASSIGN_SRC_DST_SAME => str "SAME src and dst class are identical"
  end.

Definition process_slabs_command (tokens : list token_t) : M srv unit :=
  let ntokens := length tokens in
  let! sub := token tokens 1 in
  let named s := bool_decide (value sub = Some (str s)) in
  if (ntokens =? 5)%nat && named "reassign" then
    let! enabled := gets (fun s => slab_reassign (cfg s)) in
    if negb enabled then out_string (str "CLIENT_ERROR slab reassignment disabled")
    else
      let! t2 := token_str tokens 2 in
      let! src := c_strtol t2 in
      let! t3 := token_str tokens 3 in
      let! dst := c_strtol t3 in
      let! e := gets errno in
      if e =? ERANGE then out_string bad_format
      else
        let! r := in_memory (let! free := gets rebalance_trylock in slabs_reassign free (i32 src) (i32 dst)) in
        out_string (reassign_string r)
  else if (4 <=? ntokens)%nat && named "automove" then process_slabs_automove_command tokens
  else out_string (str "ERROR").

(** What is said about a crawl that did not start. *)
Definition crawl_failed (r : crawler_result_type) : list Z :=
  match r with
  | CRAWLER_OK => str "OK"
  | CRAWLER_RUNNING => str "BUSY currently processing crawler request"
  | CRAWLER_BADCLASS => str "BADCLASS invalid class id"
  | CRAWLER_NOTSTARTED => str "NOTSTARTED no items to crawl"
  | CRAWLER_ERROR => str "ERROR an unknown error happened"
  end.

Definition crawler_crawl (tokens : list token_t) : M srv unit :=
  let! enabled := gets (fun s => lru_crawler (opts s)) in
  if negb enabled then out_string (str "CLIENT_ERROR lru crawler disabled")
  else
    let! t2 := token_str tokens 2 in
    let! r := gets (lru_crawler_crawl t2 false) in
    out_string (crawl_failed r).

Definition crawler_metadump (tokens : list token_t) : M srv unit :=
  let! o := gets opts in
  if negb (lru_crawler o) then out_string (str "CLIENT_ERROR lru crawler disabled")
  else if negb (dump_enabled o) then out_string (str "ERROR metadump not allowed")
  else
    let! stack := resp_has_stack in
    if stack then out_string (str "ERROR cannot pipeline other commands before metadump")
    else
      let! t2 := token_str tokens 2 in
      let! r := gets (lru_crawler_crawl t2 true) in
      match r with CRAWLER_OK => hand_over | _ => out_string (crawl_failed r) end.

Definition crawler_tocrawl (tokens : list token_t) : M srv unit :=
  let! t2 := token_str tokens 2 in
  let! n := parse_strtoul t2 in
  match n with
  | None => out_string bad_format
  | Some n => set_options (set_lru_crawler_tocrawl n) ;; out_string (str "OK")
  end.

Definition crawler_sleep (tokens : list token_t) : M srv unit :=
  let! t2 := token_str tokens 2 in
  let! n := parse_strtoul t2 in
  match n with
  | None => out_string bad_format
  | Some n =>
      if 1000000 <? n then out_string (str "CLIENT_ERROR sleep must be one second or less")
      else set_options (set_lru_crawler_sleep n) ;; out_string (str "OK")
  end.

Definition process_lru_crawler_command (tokens : list token_t) : M srv unit :=
  let ntokens := length tokens in
  let! sub := token tokens 1 in
  let named s := bool_decide (value sub = Some (str s)) in
  if (ntokens =? 4)%nat && named "crawl" then crawler_crawl tokens
  else if (ntokens =? 4)%nat && named "metadump" then crawler_metadump tokens
  else if (ntokens =? 4)%nat && named "tocrawl" then crawler_tocrawl tokens
  else if (ntokens =? 4)%nat && named "sleep" then crawler_sleep tokens
  else if (ntokens =? 3)%nat then
    if named "enable" then
      let! ok := gets start_item_crawler_thread in
      out_string (if ok then str "OK" else str "ERROR failed to start lru crawler thread")
    else if named "disable" then
      let! ok := gets stop_item_crawler_thread in
      out_string (if ok then str "OK" else str "ERROR failed to stop lru crawler thread")
    else out_string (str "ERROR")
  else out_string (str "ERROR").
End Commands.
