(* ===== verification/McBinary.v ===== *)
(** * memcached: the commands of the binary protocol

    src/sw/apps/memcached/memcached/memcached.c from [write_bin_response] to
    [complete_nread_binary], and [try_read_command_binary]; protocol_binary.h.  A request is
    a header of 24 bytes, extra fields, a key and a value; it is dispatched when all of it
    but the value was read.  This is the build without external storage and without SASL,
    where [settings.sasl] is false.  The numbers behind [stats] are outside of the model
    ([Env]). *)

From Stdlib Require Import String.
From stdpp Require Import gmap.
From S2P Require Import Prelude Wire McText McHash McItem McAssoc McSlabs McItems McDagger McOps McConn McCommands.

(** ** Commands *)
Definition CMD_GET : Z := 0.
Definition CMD_SET : Z := 1.
Definition CMD_ADD : Z := 2.
Definition CMD_REPLACE : Z := 3.
Definition CMD_DELETE : Z := 4.
Definition CMD_INCREMENT : Z := 5.
Definition CMD_DECREMENT : Z := 6.
Definition CMD_QUIT : Z := 7.
Definition CMD_FLUSH : Z := 8.
Definition CMD_GETQ : Z := 9.
Definition CMD_NOOP : Z := 10.
Definition CMD_VERSION : Z := 11.
Definition CMD_GETK : Z := 12.
Definition CMD_GETKQ : Z := 13.
Definition CMD_APPEND : Z := 14.
Definition CMD_PREPEND : Z := 15.
Definition CMD_STAT : Z := 16.
Definition CMD_TOUCH : Z := 28.
Definition CMD_GAT : Z := 29.
Definition CMD_GATQ : Z := 30.
Definition CMD_GATK : Z := 35.
Definition CMD_GATKQ : Z := 36.
Definition CMD_SASL_LIST_MECHS : Z := 32.
Definition CMD_SASL_AUTH : Z := 33.
Definition CMD_SASL_STEP : Z := 34.

(** The command that a quiet one stands for. *)
Definition loud (cmd : Z) : option Z :=
  if cmd =? 17 then Some CMD_SET
  else if cmd =? 18 then Some CMD_ADD
  else if cmd =? 19 then Some CMD_REPLACE
  else if cmd =? 20 then Some CMD_DELETE
  else if cmd =? 21 then Some CMD_INCREMENT
  else if cmd =? 22 then Some CMD_DECREMENT
  else if cmd =? 23 then Some CMD_QUIT
  else if cmd =? 24 then Some CMD_FLUSH
  else if cmd =? 25 then Some CMD_APPEND
  else if cmd =? 26 then Some CMD_PREPEND
  else if cmd =? CMD_GETQ then Some CMD_GET
  else if cmd =? CMD_GETKQ then Some CMD_GETK
  else if cmd =? CMD_GATQ then Some CMD_GAT
  else if cmd =? CMD_GATKQ then Some CMD_GATK
  else None.

Definition BIN_MAX_EXTLEN : nat := 20.

(** ** Requests *)

(** A number in network order at [off]. *)
Definition be_at (off n : nat) (bs : list Z) : Z := le_val (rev (slice off n bs)).

(** The fields have the widths of the structure. *)
Definition header_of (bs : list Z) : request_header :=
  {| magic := u8 (nth 0 bs 0); opcode := u8 (nth 1 bs 0); keylen := u16 (be_at 2 2 bs); extlen := u8 (nth 4 bs 0);
     bodylen := u32 (be_at 8 4 bs); h_opaque := u32 (le_val (slice 12 4 bs)); h_cas := u64 (be_at 16 8 bs) |}.

(** The numbers of [nread_cmd]. *)
Definition nread_code (c : nread_cmd) : Z :=
  match c with
  | NREAD_ADD => 1
  | NREAD_SET => 2
  | NREAD_REPLACE => 3
  | NREAD_APPEND => 4
  | NREAD_PREPEND => 5
  | NREAD_CAS => 6
  | NREAD_NONE => -1
  end.

Section Binary.
Context `{E : Env}.

(** [c->cmd] after the command was translated. *)
Definition set_nread (comm : nread_cmd) : M srv unit :=
  set_conn (fun c => set_cmd comm (set_bcmd (nread_code comm) c)).

Definition write_bin_response (d : iov_base_t) (hlen keylen dlen : Z) : M srv unit :=
  let! c := gets cn in
  (if negb (noreply c) || (bcmd c =? CMD_GET) || (bcmd c =? CMD_GETK) then
     add_bin_header 0 hlen keylen dlen ;;
     whenS (0 <? dlen) (resp_add_iov d dlen)
   else ret tt) ;;
  conn_set_state conn_new_cmd.

(** With nothing behind the header. *)
Definition write_bin_ok : M srv unit := write_bin_response (Static []) 0 0 0.

(** ** Counting *)

(** There is no item, and the request says to create one. *)
Definition incr_create (key : list Z) (initial expiration : Z) : M srv unit :=
  wbuf_put sizeof_header (be_bytes 8 initial) ;;
  let tmpbuf := itoa_u64 initial in
  let res := Z.of_nat (length tmpbuf) in
  let! e := realtimeS expiration in
  let! it := allocate key 0 e (res + 2) in
  if negb (it =? 0) then
    let! d := in_memory (field_of ITEM_data it) in
    in_memory (copy_in it d tmpbuf) ;;
    in_memory (copy_in it (d + res) CRLF) ;;
    let! c := gets cn in
    let! b := gets thread in
    let! (r, cas) := on_memory (fun cfg => store_item cfg malloc_result trylock rebalance_trylock it NREAD_ADD (set_stale c) b) in
    (match cas with Some v => set_conn (set_last_cas v) | None => ret tt end) ;;
    (match r with
     | NOT_STORED => write_bin_error RESPONSE_NOT_STORED None 0
     | _ =>
         let! v := in_memory (field_of ITEM_get_cas it) in
         set_conn (set_last_cas v) ;;
         write_bin_response (Wbuf sizeof_header) 0 0 8
     end) ;;
    item_removeS it
  else out_of_memory (str "SERVER_ERROR Out of memory allocating new item").

Definition complete_incr_bin (key ext : list Z) : M srv unit :=
  let delta := be_at 0 8 ext in
  let initial := be_at 8 8 ext in
  let expiration := be_at 16 4 ext in
  let! c := gets cn in
  let! b := gets thread in
  let! (r, tmpbuf, cas) := on_memory (fun cfg => add_delta cfg malloc_result trylock rebalance_trylock key
    (bcmd c =? CMD_INCREMENT) delta (h_cas (binary_header c)) b) in
  match r with
  | OK =>
      wbuf_put sizeof_header (be_bytes 8 (strtoull 10 tmpbuf).1.1) ;;
      whenS (negb (cas =? 0)) (set_conn (set_last_cas cas)) ;;
      write_bin_response (Wbuf sizeof_header) 0 0 8
  | NON_NUMERIC => write_bin_error RESPONSE_DELTA_BADVAL None 0
  | EOM => out_of_memory (str "SERVER_ERROR Out of memory incrementing value")
  | DELTA_ITEM_NOT_FOUND =>
      if negb (expiration =? 2 ^ 32 - 1) then incr_create key initial expiration
      else write_bin_error RESPONSE_KEY_ENOENT None 0
  | DELTA_ITEM_CAS_MISMATCH => write_bin_error RESPONSE_KEY_EEXISTS None 0
  end.

(** ** Storage *)

(** The CRLF that the client does not send; [ritem] is [c->ritem]. *)
Definition put_crlf (cfg : settings) (it ritem : Z) : M mc unit :=
  let! i := load it in
  if negb (has (it_flags i) ITEM_CHUNKED) then copy_in it (ITEM_data i + nbytes i - 2) CRLF
  else
    cassert cfg (negb (ritem =? 0)) ;;
    let! k := load_chunk it ritem in
    let ch := if k_size k =? k_used k then k_next k else ritem in
    let! k := load_chunk it ch in
    cassert cfg (2 <=? k_size k - k_used k) ;;
    fill_chunk it ch CRLF.

Definition update_status (r : store_item_type) (comm : nread_cmd) : M srv unit :=
  match r with
  | STORED => write_bin_ok
  | EXISTS => write_bin_error RESPONSE_KEY_EEXISTS None 0
  | NOT_FOUND => write_bin_error RESPONSE_KEY_ENOENT None 0
  | _ =>
      write_bin_error (match comm with
                       | NREAD_ADD => RESPONSE_KEY_EEXISTS
                       | NREAD_REPLACE => RESPONSE_KEY_ENOENT
                       | _ => RESPONSE_NOT_STORED
                       end) None 0
  end.

Definition complete_update_bin : M srv unit :=
  let! c := gets cn in
  let it := citem c in
  on_memory (fun cfg => put_crlf cfg it (ritem c)) ;;
  let! b := gets thread in
  let! (r, cas) := on_memory (fun cfg => store_item cfg malloc_result trylock rebalance_trylock it (cmd c) (set_stale c) b) in
  (match cas with Some v => set_conn (set_last_cas v) | None => ret tt end) ;;
  update_status r (cmd c) ;;
  let! it := get_conn citem in
  item_removeS it ;;
  set_conn (set_citem 0).

(** Waits for a value of [vlen] bytes. *)
Definition start_value (it vlen : Z) (comm : nread_cmd) : M srv unit :=
  set_nread comm ;;
  let! i := in_memory (load it) in
  set_conn (fun c => set_rlbytes vlen (set_ritem (it + sizeof_item + ITEM_data i) (set_citem it c))) ;;
  conn_set_state conn_nread ;;
  set_conn (set_substate bin_read_set_value).

(** There is no item for the value of [vlen] bytes. *)
Definition refuse_value (key : list Z) (flags vlen : Z) : M srv unit :=
  let! ok := gets (fun s => item_size_ok (cfg s) (memory s) (Z.of_nat (length key)) flags (i32 (vlen + 2))) in
  if negb ok then write_bin_error RESPONSE_E2BIG None vlen
  else
    out_of_memory (str "SERVER_ERROR Out of memory allocating item") ;;
    set_conn (set_sbytes vlen).

Definition process_bin_update (key ext : list Z) : M srv unit :=
  let flags := be_at 0 4 ext in
  let expiration := be_at 4 4 ext in
  let! c := gets cn in
  let h := binary_header c in
  let vlen := i32 (bodylen h - (keylen h + extlen h)) in
  let! e := realtimeS expiration in
  let! it := allocate key flags e (i32 (vlen + 2)) in
  if it =? 0 then
    refuse_value key flags vlen ;;
    (if bcmd c =? CMD_SET then drop_stale key else ret tt) ;;
    conn_set_state conn_swallow
  else
    in_memory (ITEM_set_cas it (ret (h_cas h))) ;;
    let! cas := in_memory (field_of ITEM_get_cas it) in
    let comm := if bcmd c =? CMD_ADD then NREAD_ADD else if bcmd c =? CMD_SET then NREAD_SET else NREAD_REPLACE in
    start_value it vlen (if negb (cas =? 0) then NREAD_CAS else comm).

Definition process_bin_append_prepend (key : list Z) : M srv unit :=
  let! c := gets cn in
  let h := binary_header c in
  let vlen := i32 (bodylen h - keylen h) in
  let! it := allocate key 0 0 (i32 (vlen + 2)) in
  if it =? 0 then refuse_value key 0 vlen ;; conn_set_state conn_swallow
  else
    in_memory (ITEM_set_cas it (ret (h_cas h))) ;;
    start_value it vlen (if bcmd c =? CMD_APPEND then NREAD_APPEND else NREAD_PREPEND).

Definition process_bin_delete (key : list Z) : M srv unit :=
  let! c := gets cn in
  let! b := gets thread in
  let! (it, hv) := on_memory (fun cfg => item_get_locked cfg key b false) in
  if negb (it =? 0) then
    let cas := h_cas (binary_header c) in
    let! v := in_memory (field_of ITEM_get_cas it) in
    (if (cas =? 0) || (cas =? v) then
       on_memory (fun cfg => do_item_unlink cfg it hv) ;;
       write_bin_ok
     else write_bin_error RESPONSE_KEY_EEXISTS None 0) ;;
    item_removeS it
  else write_bin_error RESPONSE_KEY_ENOENT None 0.

Definition process_bin_flush (ext : list Z) : M srv unit :=
  let! enabled := gets (fun s => flush_enabled (opts s)) in
  if negb enabled then write_bin_error RESPONSE_AUTH_ERROR None 0
  else
    let! h := get_conn binary_header in
    oldest_from (if extlen h =? 4 then be_at 0 4 ext else 0) ;;
    write_bin_ok.

(** ** Retrieval *)
Definition write_bin_miss_response (key : list Z) : M srv unit :=
  let nkey := Z.of_nat (length key) in
  if negb (nkey =? 0) then
    add_bin_header (status_code RESPONSE_KEY_ENOENT) 0 nkey nkey ;;
    wbuf_put sizeof_header key ;;
    resp_add_iov (Wbuf sizeof_header) nkey ;;
    conn_set_state conn_new_cmd
  else write_bin_error RESPONSE_KEY_ENOENT None 0.

(** [cas] of the header in the response's buffer. *)
Definition put_cas (v : Z) : M srv unit := wbuf_put 16 (be_bytes 8 v).

(** The response with the item. *)
Definition bin_hit (it : Z) (key : list Z) (cmd : Z) : M srv unit :=
  let! i := in_memory (load it) in
  let nkey := Z.of_nat (length key) in
  let return_key := (cmd =? CMD_GETK) || (cmd =? CMD_GATK) in
  let keylen := if negb (cmd =? CMD_TOUCH) && return_key then nkey else 0 in
  let bodylen := if cmd =? CMD_TOUCH then 4 else 4 + (nbytes i - 2) + keylen in
  add_bin_header 0 4 keylen (u32 bodylen) ;;
  put_cas (ITEM_get_cas i) ;;
  wbuf_put sizeof_header (be_bytes 4 (FLAGS_CONV i)) ;;
  resp_add_iov (Wbuf sizeof_header) 4 ;;
  (if return_key then resp_add_iov (Data it (ITEM_key i)) nkey else ret tt) ;;
  (if negb (cmd =? CMD_TOUCH) then
     if negb (has (it_flags i) ITEM_CHUNKED) then resp_add_iov (Data it (ITEM_data i)) (nbytes i - 2)
     else resp_add_chunked_iov (Chunked it) (nbytes i - 2)
   else ret tt) ;;
  conn_set_state conn_new_cmd ;;
  set_resp (set_resp_item it).

Definition process_bin_get_or_touch (key ext : list Z) : M srv unit :=
  let! c := gets cn in
  let cmd := bcmd c in
  let should_touch := (cmd =? CMD_TOUCH) || (cmd =? CMD_GAT) || (cmd =? CMD_GATK) in
  let! it := (if should_touch then let! e := realtimeS (be_at 0 4 ext) in item_touchS key e
              else item_getS key true) in
  if negb (it =? 0) then bin_hit it key cmd
  else if noreply c then conn_set_state conn_new_cmd
  else write_bin_miss_response (if (cmd =? CMD_GETK) || (cmd =? CMD_GATK) then key else []).

(** ** Statistics *)

(** The loop that doubles [nsize]; a [size_t] has 64 bits. *)
Fixpoint grow_loop (n : nat) (nsize offset needed : Z) : M srv Z :=
  match n with
  | O => fun _ => Block
  | S n' => if nsize - offset <? needed then grow_loop n' (nsize * 2) offset needed else ret nsize
  end.

(** Without a buffer nothing is available, and the loop starts by doubling 1024. *)
Definition grow_stats_buf (needed : Z) : M srv bool :=
  let! c := gets cn in
  let! nsize :=
    match stats_buffer c with
    | Some buf => grow_loop 64 (stats_size c) (Z.of_nat (length buf)) needed
    | None => set_conn (set_stats_size 0) ;; if 0 <? needed then grow_loop 64 2048 0 needed else ret 1024
    end in
  let! size := get_conn stats_size in
  if negb (nsize =? size) then
    let! ok := sys_alloc in
    whenS ok (set_conn (fun c => set_stats_size nsize (set_stats_buffer (Some (default [] (stats_buffer c))) c))) ;;
    ret ok
  else ret true.

(** A response of its own for a name and a value. *)
Definition stat_packet (key val : list Z) (opaque : Z) : list Z :=
  let klen := Z.of_nat (length key) in
  response_header CMD_STAT klen 0 0 (klen + Z.of_nat (length val)) opaque 0 ++ key ++ (if 0 <? klen then val else []).

Definition append_bin_stats (key val : list Z) : M srv unit :=
  set_conn (fun c => set_stats_buffer (Some (default [] (stats_buffer c) ++ stat_packet key val (opaque c))) c).

Definition append_stats (kv : list Z * list Z) : M srv unit :=
  let '(key, val) := kv in
  if (length key =? 0)%nat && (0 <? length val)%nat then ret tt
  else
    let! ok := grow_stats_buf (Z.of_nat (length val) + Z.of_nat (length key) + sizeof_header) in
    if ok then append_bin_stats key val else ret tt.

Fixpoint append_all (kvs : list (list Z * list Z)) : M srv unit :=
  match kvs with
  | [] => ret tt
  | kv :: kvs' => append_stats kv ;; append_all kvs'
  end.

(** [write_and_free], and [c->stats.buffer = NULL]; without a buffer memory is out. *)
Definition send_stats (oom : list Z) : M srv unit :=
  let! buf := get_conn stats_buffer in
  match buf with
  | None => out_of_memory oom
  | Some buf =>
      resp_add_iov (Static buf) (Z.of_nat (length buf)) ;;
      conn_set_state conn_new_cmd ;;
      set_conn (set_stats_buffer None)
  end.

Definition end_stats : M srv unit :=
  append_stats ([], []) ;;
  send_stats (str "SERVER_ERROR Out of memory preparing to send stats").

(** [strncmp] looks at the bytes behind the key, too. *)
Definition process_bin_stat (key : list Z) : M srv unit :=
  let! subcommand := gets (fun s => key ++ unread (cn s) ++ rbuf_behind s) in
  let starts (off : nat) (s : string) := bool_decide (slice off (length (str s)) subcommand = str s) in
  if (length key =? 0)%nat then
    let! all := gets server_stats in
    append_all all ;;
    let! more := gets (get_stats []) in
    append_all (default [] more) ;;
    end_stats
  else if starts 0%nat "reset" then end_stats
  else if starts 0%nat "settings" then
    let! all := gets process_stat_settings in
    append_all all ;;
    end_stats
  else if starts 0%nat "detail" then
    if starts 6%nat " dump" then
      let! dump := gets stats_prefix_dump in
      match dump with
      | None | Some [] => out_of_memory (str "SERVER_ERROR Out of memory generating stats")
      | Some buf => append_stats (str "detailed", buf) ;; end_stats
      end
    else if starts 6%nat " on" then end_stats
    else if starts 6%nat " off" then end_stats
    else write_bin_error RESPONSE_KEY_ENOENT None 0
  else
    let! group := gets (get_stats key) in
    match group with
    | Some all => append_all all ;; send_stats (str "SERVER_ERROR Out of memory generating stats")
    | None => write_bin_error RESPONSE_KEY_ENOENT None 0
    end.

(** ** Dispatch *)
Definition handle_binary_protocol_error : M srv unit :=
  write_bin_error RESPONSE_EINVAL None 0 ;;
  set_conn (set_close_after_write true).

(** SASL being disabled. *)
Definition refuse_sasl (h : request_header) : M srv unit :=
  write_bin_error RESPONSE_UNKNOWN_COMMAND None (i32 (bodylen h - keylen h)).

Definition dispatch_known (h : request_header) (key ext : list Z) (cmd : Z) : M srv unit :=
  let extlen := extlen h in
  let keylen := keylen h in
  let bodylen := bodylen h in
  let one_of (l : list Z) := existsb (Z.eqb cmd) l in
  let want (ok : bool) (m : M srv unit) := if ok then m else handle_binary_protocol_error in
  if cmd =? CMD_VERSION then
    want ((extlen =? 0) && (keylen =? 0) && (bodylen =? 0))
      (write_bin_response (Static version) 0 0 (Z.of_nat (length version)))
  else if cmd =? CMD_FLUSH then
    want ((keylen =? 0) && (bodylen =? extlen) && ((extlen =? 0) || (extlen =? 4))) (process_bin_flush ext)
  else if cmd =? CMD_NOOP then
    want ((extlen =? 0) && (keylen =? 0) && (bodylen =? 0)) (write_bin_ok ;; conn_set_state conn_mwrite)
  else if one_of [CMD_SET; CMD_ADD; CMD_REPLACE] then
    want ((extlen =? 8) && negb (keylen =? 0) && (keylen + 8 <=? bodylen)) (process_bin_update key ext)
  else if one_of [CMD_GETQ; CMD_GET; CMD_GETKQ; CMD_GETK] then
    want ((extlen =? 0) && (bodylen =? keylen) && (0 <? keylen)) (process_bin_get_or_touch key ext)
  else if cmd =? CMD_DELETE then
    want ((0 <? keylen) && (extlen =? 0) && (bodylen =? keylen)) (process_bin_delete key)
  else if one_of [CMD_INCREMENT; CMD_DECREMENT] then
    want ((0 <? keylen) && (extlen =? 20) && (bodylen =? keylen + extlen)) (complete_incr_bin key ext)
  else if one_of [CMD_APPEND; CMD_PREPEND] then
    want ((0 <? keylen) && (extlen =? 0)) (process_bin_append_prepend key)
  else if cmd =? CMD_STAT then want (extlen =? 0) (process_bin_stat key)
  else if cmd =? CMD_QUIT then
    want ((keylen =? 0) && (extlen =? 0) && (bodylen =? 0))
      (write_bin_ok ;; conn_set_state conn_mwrite ;; set_conn (set_close_after_write true))
  else if cmd =? CMD_SASL_LIST_MECHS then
    want ((extlen =? 0) && (keylen =? 0) && (bodylen =? 0)) (refuse_sasl h)
  else if one_of [CMD_SASL_AUTH; CMD_SASL_STEP] then
    want ((extlen =? 0) && negb (keylen =? 0)) (refuse_sasl h)
  else if one_of [CMD_TOUCH; CMD_GAT; CMD_GATQ; CMD_GATK; CMD_GATKQ] then
    want ((extlen =? 4) && negb (keylen =? 0)) (process_bin_get_or_touch key ext)
  else write_bin_error RESPONSE_UNKNOWN_COMMAND None (i32 bodylen).

Definition dispatch_bin_command (key ext : list Z) : M srv unit :=
  let! h := get_conn binary_header in
  if (bodylen h <? keylen h) || (bodylen h <? keylen h + extlen h) then
    write_bin_error RESPONSE_UNKNOWN_COMMAND None 0 ;;
    set_conn (set_close_after_write true)
  else
    set_conn (set_noreply true) ;;
    if KEY_MAX_LENGTH <? keylen h then handle_binary_protocol_error
    else
      let! cmd := get_conn bcmd in
      (match loud cmd with
       | Some cmd' => set_conn (set_bcmd cmd')
       | None => set_conn (set_noreply false)
       end) ;;
      dispatch_known h key ext (default cmd (loud cmd)).

Definition complete_nread_binary : M srv unit :=
  let! st := get_conn substate in
  match st with
  | bin_read_set_value => complete_update_bin
  | bin_no_state => fun _ => Abort
  end.

(** A request that was read but for its value: the header with the extra fields and the
    key, [extlen] and [keylen] bytes, and no more than [BIN_MAX_EXTLEN] of the former. *)
Definition bin_command (packet : list Z) : M srv unit :=
  let h := header_of packet in
  let! ok := resp_start in
  if negb ok then conn_set_state conn_closing
  else
    let e := Z.to_nat (extlen h) in
    set_conn (fun c => set_last_cas 0 (set_opaque (h_opaque h) (set_bcmd (opcode h) c))) ;;
    set_conn (fun c => set_rpos (rpos c + Z.of_nat (length packet)) (set_unread (drop (length packet) (unread c)) c)) ;;
    dispatch_bin_command (slice (24 + e) (Z.to_nat (keylen h)) packet) (take (Nat.min e BIN_MAX_EXTLEN) (drop 24 packet)).

(** 0 (more data is needed) is false. *)
Definition try_read_command_binary : M srv bool :=
  let! c := gets cn in
  let rbytes := Z.of_nat (length (unread c)) in
  if rbytes <? sizeof_header then ret false
  else
    let h := header_of (unread c) in
    set_conn (set_binary_header h) ;;
    if negb (magic h =? PROTOCOL_BINARY_REQ) then conn_set_state conn_closing ;; ret true
    else
      let n := keylen h + extlen h + sizeof_header in
      if rbytes <? n then ret false else bin_command (take (Z.to_nat n) (unread c)) ;; ret true.
End Binary.
