(* ===== verification/McMeta.v ===== *)
(** * memcached: the meta commands, and the dispatch of a command line

    src/sw/apps/memcached/memcached/memcached.c: [process_meta_command] (me),
    [process_mget_command] (mg), [process_mset_command] (ms), [process_mdelete_command]
    (md), [process_marithmetic_command] (ma) with the flags they share, and
    [process_command].  The response of a meta command is built in one list of bytes and
    put into the response's buffer when it is complete. *)

From Stdlib Require Import String.
From stdpp Require Import gmap.
From S2P Require Import Prelude Wire McText McHash McItem McAssoc McSlabs McItems McDagger McOps McConn McCommands.

Definition MFLAG_MAX_OPT_LENGTH : nat := 20.
Definition MFLAG_MAX_OPAQUE_LENGTH : nat := 32.

(** A character. *)
Definition ch (s : string) : Z := hd 0 (str s).

(** [struct _meta_flags]; [want_value] is [value], [want_stale] is [set_stale], [of_exptime] is
    [exptime].  Two flags that nothing reads are left out. *)
Record _meta_flags := {
  has_error : bool;
  no_update : bool;
  locked : bool;
  vivify : bool;
  want_value : bool;
  want_stale : bool;
  no_reply : bool;
  has_cas : bool;
  new_ttl : bool;
  mode : Z;
  of_exptime : Z;
  autoviv_exptime : Z;
  recache_time : Z;
  value_len : Z;
  client_flags : Z;
  req_cas_id : Z;
  delta : Z;
  initial : Z;
}.

Definition set_has_error (v : bool) (o : _meta_flags) : _meta_flags :=
  {| has_error := v; no_update := no_update o; locked := locked o; vivify := vivify o;
     want_value := want_value o; want_stale := want_stale o; no_reply := no_reply o;
     has_cas := has_cas o; new_ttl := new_ttl o; mode := mode o; of_exptime := of_exptime o;
     autoviv_exptime := autoviv_exptime o; recache_time := recache_time o; value_len := value_len o;
     client_flags := client_flags o; req_cas_id := req_cas_id o; delta := delta o;
     initial := initial o |}.
Definition set_no_update (v : bool) (o : _meta_flags) : _meta_flags :=
  {| has_error := has_error o; no_update := v; locked := locked o; vivify := vivify o;
     want_value := want_value o; want_stale := want_stale o; no_reply := no_reply o;
     has_cas := has_cas o; new_ttl := new_ttl o; mode := mode o; of_exptime := of_exptime o;
     autoviv_exptime := autoviv_exptime o; recache_time := recache_time o; value_len := value_len o;
     client_flags := client_flags o; req_cas_id := req_cas_id o; delta := delta o;
     initial := initial o |}.
Definition set_locked (v : bool) (o : _meta_flags) : _meta_flags :=
  {| has_error := has_error o; no_update := no_update o; locked := v; vivify := vivify o;
     want_value := want_value o; want_stale := want_stale o; no_reply := no_reply o;
     has_cas := has_cas o; new_ttl := new_ttl o; mode := mode o; of_exptime := of_exptime o;
     autoviv_exptime := autoviv_exptime o; recache_time := recache_time o; value_len := value_len o;
     client_flags := client_flags o; req_cas_id := req_cas_id o; delta := delta o;
     initial := initial o |}.
Definition set_vivify (v : bool) (o : _meta_flags) : _meta_flags :=
  {| has_error := has_error o; no_update := no_update o; locked := locked o; vivify := v;
     want_value := want_value o; want_stale := want_stale o; no_reply := no_reply o;
     has_cas := has_cas o; new_ttl := new_ttl o; mode := mode o; of_exptime := of_exptime o;
     autoviv_exptime := autoviv_exptime o; recache_time := recache_time o; value_len := value_len o;
     client_flags := client_flags o; req_cas_id := req_cas_id o; delta := delta o;
     initial := initial o |}.
Definition set_want_value (v : bool) (o : _meta_flags) : _meta_flags :=
  {| has_error := has_error o; no_update := no_update o; locked := locked o; vivify := vivify o;
     want_value := v; want_stale := want_stale o; no_reply := no_reply o; has_cas := has_cas o;
     new_ttl := new_ttl o; mode := mode o; of_exptime := of_exptime o;
     autoviv_exptime := autoviv_exptime o; recache_time := recache_time o; value_len := value_len o;
     client_flags := client_flags o; req_cas_id := req_cas_id o; delta := delta o;
     initial := initial o |}.
Definition set_want_stale (v : bool) (o : _meta_flags) : _meta_flags :=
  {| has_error := has_error o; no_update := no_update o; locked := locked o; vivify := vivify o;
     want_value := want_value o; want_stale := v; no_reply := no_reply o; has_cas := has_cas o;
     new_ttl := new_ttl o; mode := mode o; of_exptime := of_exptime o;
     autoviv_exptime := autoviv_exptime o; recache_time := recache_time o; value_len := value_len o;
     client_flags := client_flags o; req_cas_id := req_cas_id o; delta := delta o;
     initial := initial o |}.
Definition set_no_reply (v : bool) (o : _meta_flags) : _meta_flags :=
  {| has_error := has_error o; no_update := no_update o; locked := locked o; vivify := vivify o;
     want_value := want_value o; want_stale := want_stale o; no_reply := v; has_cas := has_cas o;
     new_ttl := new_ttl o; mode := mode o; of_exptime := of_exptime o;
     autoviv_exptime := autoviv_exptime o; recache_time := recache_time o; value_len := value_len o;
     client_flags := client_flags o; req_cas_id := req_cas_id o; delta := delta o;
     initial := initial o |}.
Definition set_has_cas (v : bool) (o : _meta_flags) : _meta_flags :=
  {| has_error := has_error o; no_update := no_update o; locked := locked o; vivify := vivify o;
     want_value := want_value o; want_stale := want_stale o; no_reply := no_reply o; has_cas := v;
     new_ttl := new_ttl o; mode := mode o; of_exptime := of_exptime o;
     autoviv_exptime := autoviv_exptime o; recache_time := recache_time o; value_len := value_len o;
     client_flags := client_flags o; req_cas_id := req_cas_id o; delta := delta o;
     initial := initial o |}.
Definition set_new_ttl (v : bool) (o : _meta_flags) : _meta_flags :=
  {| has_error := has_error o; no_update := no_update o; locked := locked o; vivify := vivify o;
     want_value := want_value o; want_stale := want_stale o; no_reply := no_reply o;
     has_cas := has_cas o; new_ttl := v; mode := mode o; of_exptime := of_exptime o;
     autoviv_exptime := autoviv_exptime o; recache_time := recache_time o; value_len := value_len o;
     client_flags := client_flags o; req_cas_id := req_cas_id o; delta := delta o;
     initial := initial o |}.
Definition set_mode (v : Z) (o : _meta_flags) : _meta_flags :=
  {| has_error := has_error o; no_update := no_update o; locked := locked o; vivify := vivify o;
     want_value := want_value o; want_stale := want_stale o; no_reply := no_reply o;
     has_cas := has_cas o; new_ttl := new_ttl o; mode := v; of_exptime := of_exptime o;
     autoviv_exptime := autoviv_exptime o; recache_time := recache_time o; value_len := value_len o;
     client_flags := client_flags o; req_cas_id := req_cas_id o; delta := delta o;
     initial := initial o |}.
Definition set_of_exptime (v : Z) (o : _meta_flags) : _meta_flags :=
  {| has_error := has_error o; no_update := no_update o; locked := locked o; vivify := vivify o;
     want_value := want_value o; want_stale := want_stale o; no_reply := no_reply o;
     has_cas := has_cas o; new_ttl := new_ttl o; mode := mode o; of_exptime := v;
     autoviv_exptime := autoviv_exptime o; recache_time := recache_time o; value_len := value_len o;
     client_flags := client_flags o; req_cas_id := req_cas_id o; delta := delta o;
     initial := initial o |}.
Definition set_autoviv_exptime (v : Z) (o : _meta_flags) : _meta_flags :=
  {| has_error := has_error o; no_update := no_update o; locked := locked o; vivify := vivify o;
     want_value := want_value o; want_stale := want_stale o; no_reply := no_reply o;
     has_cas := has_cas o; new_ttl := new_ttl o; mode := mode o; of_exptime := of_exptime o;
     autoviv_exptime := v; recache_time := recache_time o; value_len := value_len o;
     client_flags := client_flags o; req_cas_id := req_cas_id o; delta := delta o;
     initial := initial o |}.
Definition set_recache_time (v : Z) (o : _meta_flags) : _meta_flags :=
  {| has_error := has_error o; no_update := no_update o; locked := locked o; vivify := vivify o;
     want_value := want_value o; want_stale := want_stale o; no_reply := no_reply o;
     has_cas := has_cas o; new_ttl := new_ttl o; mode := mode o; of_exptime := of_exptime o;
     autoviv_exptime := autoviv_exptime o; recache_time := v; value_len := value_len o;
     client_flags := client_flags o; req_cas_id := req_cas_id o; delta := delta o;
     initial := initial o |}.
Definition set_value_len (v : Z) (o : _meta_flags) : _meta_flags :=
  {| has_error := has_error o; no_update := no_update o; locked := locked o; vivify := vivify o;
     want_value := want_value o; want_stale := want_stale o; no_reply := no_reply o;
     has_cas := has_cas o; new_ttl := new_ttl o; mode := mode o; of_exptime := of_exptime o;
     autoviv_exptime := autoviv_exptime o; recache_time := recache_time o; value_len := v;
     client_flags := client_flags o; req_cas_id := req_cas_id o; delta := delta o;
     initial := initial o |}.
Definition set_client_flags (v : Z) (o : _meta_flags) : _meta_flags :=
  {| has_error := has_error o; no_update := no_update o; locked := locked o; vivify := vivify o;
     want_value := want_value o; want_stale := want_stale o; no_reply := no_reply o;
     has_cas := has_cas o; new_ttl := new_ttl o; mode := mode o; of_exptime := of_exptime o;
     autoviv_exptime := autoviv_exptime o; recache_time := recache_time o; value_len := value_len o;
     client_flags := v; req_cas_id := req_cas_id o; delta := delta o; initial := initial o |}.
Definition set_req_cas_id (v : Z) (o : _meta_flags) : _meta_flags :=
  {| has_error := has_error o; no_update := no_update o; locked := locked o; vivify := vivify o;
     want_value := want_value o; want_stale := want_stale o; no_reply := no_reply o;
     has_cas := has_cas o; new_ttl := new_ttl o; mode := mode o; of_exptime := of_exptime o;
     autoviv_exptime := autoviv_exptime o; recache_time := recache_time o; value_len := value_len o;
     client_flags := client_flags o; req_cas_id := v; delta := delta o; initial := initial o |}.
Definition set_delta (v : Z) (o : _meta_flags) : _meta_flags :=
  {| has_error := has_error o; no_update := no_update o; locked := locked o; vivify := vivify o;
     want_value := want_value o; want_stale := want_stale o; no_reply := no_reply o;
     has_cas := has_cas o; new_ttl := new_ttl o; mode := mode o; of_exptime := of_exptime o;
     autoviv_exptime := autoviv_exptime o; recache_time := recache_time o; value_len := value_len o;
     client_flags := client_flags o; req_cas_id := req_cas_id o; delta := v; initial := initial o |}.
Definition set_initial (v : Z) (o : _meta_flags) : _meta_flags :=
  {| has_error := has_error o; no_update := no_update o; locked := locked o; vivify := vivify o;
     want_value := want_value o; want_stale := want_stale o; no_reply := no_reply o;
     has_cas := has_cas o; new_ttl := new_ttl o; mode := mode o; of_exptime := of_exptime o;
     autoviv_exptime := autoviv_exptime o; recache_time := recache_time o; value_len := value_len o;
     client_flags := client_flags o; req_cas_id := req_cas_id o; delta := delta o; initial := v |}.

Definition no_flags : _meta_flags :=
  {| has_error := false; no_update := false; locked := false; vivify := false; want_value := false;
     want_stale := false; no_reply := false; has_cas := false; new_ttl := false; mode := 0; of_exptime := 0;
     autoviv_exptime := 0; recache_time := 0; value_len := 0; client_flags := 0; req_cas_id := 0;
     delta := 0; initial := 0 |}.

Section Meta.
Context `{E : Env}.

Definition bad_token : list Z := str "CLIENT_ERROR bad token in command line format".

(** The flags, and [*errstr]. *)
Definition preparsed : Type := _meta_flags * list Z.

(** A flag with a number, read by [parse], that goes on with [ok], or fails with [err],
    which is [None] where the error message is left as it is. *)
Definition number_flag (parse : list Z -> M srv (option Z)) (v : list Z) (fl : _meta_flags) (errstr : list Z)
    (err : option (list Z)) (ok : Z -> M srv preparsed) : M srv preparsed :=
  let! n := parse v in
  match n with
  | None => ret (set_has_error true fl, default errstr err)
  | Some x => ok x
  end.

(** A flag with a time. *)
Definition time_flag (v : list Z) (fl : _meta_flags) (errstr : list Z) (f : Z -> _meta_flags) : M srv preparsed :=
  number_flag parse_strtol v fl errstr (Some bad_token)
    (fun n => let! t := realtimeS (EXPTIME_TO_POSITIVE_TIME n) in ret (f t, errstr)).

(** One flag: its letter [o], its token [t] and the text [v] behind the letter; [None] for
    a letter that is not known. *)
Definition flag (o : Z) (t : token_t) (v : list Z) (fl : _meta_flags) (errstr : list Z) : M srv (option preparsed) :=
  let some m := let! x := m in ret (Some x) in
  let set fl := ret (Some (fl, errstr)) in
  let c s := o =? ch s in
  if c "N" then
    let fl := set_vivify true (set_locked true fl) in
    some (time_flag v fl errstr (fun t => set_autoviv_exptime t fl))
  else if c "T" then
    let fl := set_locked true fl in
    some (time_flag v fl errstr (fun t => set_new_ttl true (set_of_exptime t fl)))
  else if c "R" then
    let fl := set_locked true fl in
    some (time_flag v fl errstr (fun t => set_recache_time t fl))
  else if c "l" then set (set_locked true fl)
  else if c "O" || c "k" || c "s" || c "t" || c "c" || c "f" then set fl
  else if c "v" then set (set_want_value true fl)
  else if c "h" then set (set_locked true fl)
  else if c "u" then set (set_no_update true fl)
  else if c "q" then set (set_no_reply true fl)
  else if c "F" then some (number_flag parse_strtoul v fl errstr None (fun n => ret (set_client_flags n fl, errstr)))
  else if c "S" then
    some (number_flag parse_strtol v fl errstr None (fun n =>
      ret (if (n <? 0) || (INT_MAX - 2 <? n) then (set_has_error true fl, str "CLIENT_ERROR invalid length")
           else (set_value_len (n + 2) fl, errstr))))
  else if c "C" then
    some (number_flag parse_strtoull v fl errstr (Some bad_token)
      (fun n => ret (set_has_cas true (set_req_cas_id n fl), errstr)))
  else if c "M" then
    if negb (tlength t =? 2)%nat then
      ret (Some (set_has_error true fl, str "CLIENT_ERROR incorrect length for M token"))
    else set (set_mode (hd 0 v) fl)
  else if c "J" then
    some (number_flag parse_strtoull v fl errstr (Some (str "CLIENT_ERROR invalid numeric initial value"))
      (fun n => ret (set_initial n fl, errstr)))
  else if c "D" then
    some (number_flag parse_strtoull v fl errstr (Some (str "CLIENT_ERROR invalid numeric delta value"))
      (fun n => ret (set_delta n fl, errstr)))
  else if c "I" then set (set_want_stale true fl)
  else ret None.

(** Over the tokens up to the last one; [seen] are the letters so far.  Whether it
    succeeded, the flags and the error message. *)
Fixpoint preparse_loop (ts : list token_t) (seen : list Z) (fl : _meta_flags) (errstr : list Z)
    : M srv (bool * _meta_flags * list Z) :=
  match ts with
  | t :: ((_ :: _) as ts') =>
      match value t with
      | Some (o :: v) =>
          if (127 <=? o) || existsb (Z.eqb o) seen then ret (false, fl, str "CLIENT_ERROR duplicate flag")
          else
            let! r := flag o t v fl errstr in
            match r with
            | None => ret (false, fl, str "CLIENT_ERROR invalid flag")
            | Some (fl, errstr) => preparse_loop ts' (o :: seen) fl errstr
            end
      | _ => fun _ => Fault
      end
  | _ => ret (negb (has_error fl), fl, errstr)
  end.

Definition _meta_flag_preparse (tokens : list token_t) (fl : _meta_flags) (errstr : list Z)
    : M srv (bool * _meta_flags * list Z) :=
  preparse_loop (drop (KEY_TOKEN + 1) tokens) [] fl errstr.

(** The flag tokens, without the last token. *)
Definition flag_tokens (tokens : list token_t) : list token_t :=
  take (length tokens - 3) (drop (KEY_TOKEN + 1) tokens).

Definition opaque_error : list Z := str "CLIENT_ERROR opaque token too long".

(** The opaque and the key, which ms, md and ma return; [None] when the opaque is too
    long. *)
Definition echo_token (key : list Z) (t : token_t) : option (list Z) :=
  let v := default [] (value t) in
  if hd 0 v =? ch "O" then
    if (MFLAG_MAX_OPAQUE_LENGTH <? tlength t)%nat then None else Some (32 :: take (tlength t) v)
  else if hd 0 v =? ch "k" then Some ([32; ch "k"] ++ key)
  else Some [].

Fixpoint echo_tokens (key : list Z) (ts : list token_t) : option (list Z) :=
  match ts with
  | [] => Some []
  | t :: ts' =>
      match echo_token key t, echo_tokens key ts' with
      | Some a, Some b => Some (a ++ b)
      | _, _ => None
      end
  end.

(** Prints a response that is complete, and adds the CRLF. *)
Definition out_line (out : list Z) : M srv unit :=
  wbuf_put 0 (out ++ CRLF) ;;
  set_resp (set_wbytes (Z.of_nat (length out) + 2)) ;;
  resp_add_iov (Wbuf 0) (Z.of_nat (length out) + 2) ;;
  conn_set_state conn_new_cmd.

(** ** me *)
Definition yes_no (b : bool) : list Z := if b then str "yes" else str "no".

(** [%d] *)
Definition print_int (x : Z) : list Z := if x <? 0 then 45 :: decimal (- x) else decimal x.

Definition process_meta_command (tokens : list token_t) : M srv unit :=
  let! key := token_key tokens KEY_TOKEN in
  if KEY_MAX_LENGTH <? Z.of_nat (length key) then out_string bad_format
  else
    let! (it, _) := limited_get key 0 false false in
    if negb (it =? 0) then
      let! i := in_memory (load it) in
      let! now := gets (fun s => current_time (memory s)) in
      let start := str "ME " ++ key_of i ++ [32] in
      let text := str "exp=" ++ (if exptime i =? 0 then str "-1" else print_int (i32 (now - exptime i))) ++
                  str " la=" ++ decimal (u32 (now - time i)) ++ str " cas=" ++ decimal (ITEM_get_cas i) ++
                  str " fetch=" ++ yes_no (has (it_flags i) ITEM_FETCHED) ++ str " cls=" ++ decimal (ITEM_clsid i) ++
                  str " size=" ++ decimal (ITEM_ntotal i) ++ CRLF in
      let room := WRITE_BUFFER_SIZE - (nkey i + 12) in
      wbuf_put 0 (start ++ take (Z.to_nat (room - 1)) text ++ [0]) ;;
      item_removeS it ;;
      let wb := Z.of_nat (length start) + Z.of_nat (length text) in
      set_resp (set_wbytes wb) ;;
      resp_add_iov (Wbuf 0) wb ;;
      conn_set_state conn_new_cmd
    else out_string (str "EN").

(** ** mg *)
Definition limited_get_locked (key : list Z) (do_update : bool) : M srv (Z * Z * bool) :=
  let! b := gets thread in
  let! (it, hv) := on_memory (fun cfg => item_get_locked cfg key b do_update) in
  if it =? 0 then ret (0, hv, false)
  else
    let! r := in_memory (field_of refcount it) in
    if IT_REFCOUNT_LIMIT <? r then item_removeS it ;; ret (0, hv, true)
    else ret (it, hv, false).

(** [exptime - current_time], -1 for an item that does not expire. *)
Definition ttl_text (i : item) (now : Z) : list Z :=
  if exptime i =? 0 then str "-1" else itoa_u32 (u32 (exptime i - now)).

(** What one flag adds to the response, and whether the client wins the token; [None] when
    the opaque is too long. *)
Definition mget_flag (it : Z) (fl : _meta_flags) (created : bool) (t : token_t) : M srv (option (list Z * bool)) :=
  let! i := in_memory (load it) in
  let! now := gets (fun s => current_time (memory s)) in
  let v := default [] (value t) in
  let o := hd 0 v in
  let say bs := ret (Some ([32; o] ++ bs, false)) in
  let c s := o =? ch s in
  if c "T" then in_memory (store it (set_exptime (of_exptime fl))) ;; ret (Some ([], false))
  else if c "N" then
    (if created then in_memory (store it (set_exptime (autoviv_exptime fl))) else ret tt) ;;
    ret (Some ([], created))
  else if c "R" then
    ret (Some ([], negb (has (it_flags i) ITEM_TOKEN_SENT) && negb created && negb (exptime i =? 0) &&
                   (exptime i <? recache_time fl)))
  else if c "s" then say (itoa_u32 (u32 (nbytes i - 2)))
  else if c "t" then say (ttl_text i now)
  else if c "c" then say (itoa_u64 (ITEM_get_cas i))
  else if c "f" then say (if cflags_size i =? 0 then [48] else itoa_u32 (FLAGS_CONV i))
  else if c "l" then say (itoa_u32 (u32 (now - time i)))
  else if c "h" then say [if has (it_flags i) ITEM_FETCHED then 49 else 48]
  else if c "O" then
    ret (if (MFLAG_MAX_OPAQUE_LENGTH <? tlength t)%nat then None else Some (32 :: take (tlength t) v, false))
  else if c "k" then say (key_of i)
  else ret (Some ([], false)).

Fixpoint mget_flags (it : Z) (fl : _meta_flags) (created : bool) (ts : list token_t) (out : list Z) (won : bool)
    : M srv (option (list Z * bool)) :=
  match ts with
  | [] => ret (Some (out, won))
  | t :: ts' =>
      let! r := mget_flag it fl created t in
      match r with
      | None => ret None
      | Some (bs, w) => mget_flags it fl created ts' (out ++ bs) (won || w)
      end
  end.

(** The flags Z, X and W: a token was sent to another client, the item is stale, the
    client has won the token. *)
Definition mget_tokens (it : Z) (won : bool) : M srv (list Z) :=
  let! i := in_memory (load it) in
  let sent := has (it_flags i) ITEM_TOKEN_SENT in
  let is_stale := has (it_flags i) ITEM_STALE in
  let won := won || (is_stale && negb sent) in
  (if won then in_memory (store it (add_flags ITEM_TOKEN_SENT)) else ret tt) ;;
  ret ((if sent then [32; ch "Z"] else []) ++ (if is_stale then [32; ch "X"] else []) ++
       (if won then [32; ch "W"] else [])).

(** The response for the item; false when the opaque is too long. *)
Definition mget_hit (it : Z) (fl : _meta_flags) (created : bool) (tokens : list token_t) : M srv bool :=
  let! i := in_memory (load it) in
  let start := if want_value fl then str "VA " ++ itoa_u32 (u32 (nbytes i - 2)) else str "OK" in
  let! r := mget_flags it fl created (flag_tokens tokens) start false in
  match r with
  | None => ret false
  | Some (out, won) =>
      let! more := mget_tokens it won in
      let line := out ++ more ++ CRLF in
      wbuf_put 0 (line ++ [0]) ;;
      resp_add_iov (Wbuf 0) (Z.of_nat (length line)) ;;
      (if want_value fl then let! i := in_memory (load it) in add_value it i else ret tt) ;;
      set_resp (set_resp_item it) ;;
      ret true
  end.

(** A new item without a value, when none was found and the flag N asks for one. *)
Definition mget_vivify (key : list Z) (hv : Z) : M srv Z :=
  let! e := realtimeS 0 in
  let! it := allocate key 0 e 2 in
  if it =? 0 then ret 0
  else
    on_memory (fun cfg =>
      let! i := load it in
      copy_in it (ITEM_data i) CRLF ;;
      do_item_link cfg it hv ;;
      ret it).

Definition mget_item (key : list Z) (fl : _meta_flags) (tokens : list token_t) : M srv unit :=
  let! (it, hv, overflow) :=
    (if negb (locked fl) then let! (it, overflow) := limited_get key 0 false (negb (no_update fl)) in ret (it, 0, overflow)
     else limited_get_locked key false) in
  if overflow then out_errstring (str "SERVER_ERROR refcount overflow during fetch")
  else
    let! found := ret (negb (it =? 0)) in
    let! it := (if negb found && vivify fl then mget_vivify key hv else ret it) in
    let created := negb found && negb (it =? 0) in
    let! ok := (if negb (it =? 0) then mget_hit it fl created tokens else ret true) in
    if negb ok then item_removeS it ;; out_errstring opaque_error
    else
      let! b := gets thread in
      (if locked fl && negb (no_update fl) && negb (it =? 0) then
         on_memory (fun cfg => do_item_bump cfg b it hv)
       else ret tt) ;;
      if negb (it =? 0) then conn_set_state conn_new_cmd else out_string (str "EN").

Definition process_mget_command (tokens : list token_t) : M srv unit :=
  let ntokens := length tokens in
  if (ntokens <? 3)%nat then out_string (str "ERROR")
  else
    let! key := token_key tokens KEY_TOKEN in
    if KEY_MAX_LENGTH <? Z.of_nat (length key) then out_errstring bad_format
    else if (ntokens =? 3)%nat then out_errstring bad_format
    else if (MFLAG_MAX_OPT_LENGTH <? ntokens)%nat then out_errstring (str "CLIENT_ERROR options flags are too long")
    else
      let! (ok, fl, errstr) := _meta_flag_preparse tokens no_flags bad_format in
      if negb ok then out_errstring errstr
      else set_conn (set_noreply (no_reply fl)) ;; mget_item key fl tokens.

(** ** ms *)

(** The mode, [None] if it is not known, with the cas of the item. *)
Definition mset_mode (fl : _meta_flags) : option nread_cmd :=
  let m := mode fl in
  let comm := if m =? 0 then Some NREAD_SET
              else if m =? ch "E" then Some NREAD_ADD
              else if m =? ch "A" then Some NREAD_APPEND
              else if m =? ch "P" then Some NREAD_PREPEND
              else if m =? ch "R" then Some NREAD_REPLACE
              else if m =? ch "S" then Some NREAD_SET
              else None in
  match comm with
  | Some NREAD_SET | Some NREAD_REPLACE => if has_cas fl then Some NREAD_CAS else comm
  | _ => comm
  end.

(** Swallows the data line. *)
Definition mset_error (fl : _meta_flags) (errstr : list Z) : M srv unit :=
  set_conn (set_sbytes (value_len fl)) ;;
  out_errstring errstr ;;
  conn_set_state conn_swallow.

(** An item that could not be replaced, there being no memory. *)
Definition mset_drop (key : list Z) : M srv unit :=
  let! b := gets thread in
  let! (it, hv) := on_memory (fun cfg => item_get_locked cfg key b false) in
  if negb (it =? 0) then delete_item it hv else ret tt.

Definition mset_item (key : list Z) (fl : _meta_flags) (comm : nread_cmd) (echo : list Z) : M srv unit :=
  let! it := allocate key (client_flags fl) (of_exptime fl) (value_len fl) in
  if it =? 0 then
    let! fits := gets (fun s => item_size_ok (cfg s) (memory s) (Z.of_nat (length key)) (client_flags fl) (value_len fl)) in
    mset_drop key ;;
    mset_error fl (if negb fits then str "SERVER_ERROR object too large for cache"
                   else str "SERVER_ERROR out of memory storing object")
  else
    in_memory (ITEM_set_cas it (ret (req_cas_id fl))) ;;
    start_nread it comm ;;
    (match comm with NREAD_CAS => whenS (want_stale fl) (set_conn (set_set_stale true)) | _ => ret tt end) ;;
    wbuf_put 3 (echo ++ CRLF) ;;
    let wb := 3 + Z.of_nat (length echo) + 2 in
    set_resp (set_wbytes wb) ;;
    resp_add_iov (Wbuf 0) wb ;;
    set_conn (set_mset_res true) ;;
    conn_set_state conn_nread.

Definition process_mset_command (tokens : list token_t) : M srv unit :=
  let ntokens := length tokens in
  if (ntokens <? 3)%nat then out_string (str "ERROR")
  else
    let! key := token_key tokens KEY_TOKEN in
    if KEY_MAX_LENGTH <? Z.of_nat (length key) then out_errstring bad_format
    else if (ntokens =? 3)%nat then out_errstring bad_format
    else if (MFLAG_MAX_OPT_LENGTH <? ntokens)%nat then out_errstring (str "CLIENT_ERROR options flags too long")
    else
      let! (ok, fl, errstr) := _meta_flag_preparse tokens no_flags bad_format in
      if negb ok then mset_error fl errstr
      else
        set_conn (set_noreply (no_reply fl)) ;;
        match mset_mode fl, echo_tokens key (flag_tokens tokens) with
        | None, _ => mset_error fl (str "CLIENT_ERROR invalid mode for ms M token")
        | _, None => mset_error fl opaque_error
        | Some comm, Some echo => mset_item key fl comm echo
        end.

(** ** md *)

(** The status of a deletion, in front of [echo]; [nominal] responses can be skipped. *)
Definition mdelete_respond (status : string) (nominal : bool) (echo : list Z) : M srv unit :=
  let! quiet := get_conn noreply in
  whenS (nominal && quiet) (set_resp (set_skip true)) ;;
  out_line (str status ++ echo).

(** Marks the item stale instead of deleting it. *)
Definition mark_stale (it : Z) (fl : _meta_flags) : M srv unit :=
  (if new_ttl fl then in_memory (store it (set_exptime (of_exptime fl))) else ret tt) ;;
  in_memory (store it (add_flags ITEM_STALE)) ;;
  in_memory (store it (clear_flags ITEM_TOKEN_SENT)) ;;
  on_memory (fun cfg => ITEM_set_cas it (if use_cas cfg then get_cas_id else ret 0)).

(** The cas of the item is compared with a local variable that is always 0, not with the
    number of the flag C. *)
Definition mdelete_item (key : list Z) (fl : _meta_flags) (echo : list Z) : M srv unit :=
  let req_cas_id := 0 in
  let! b := gets thread in
  let! (it, hv) := on_memory (fun cfg => item_get_locked cfg key b false) in
  if negb (it =? 0) then
    let! i := in_memory (load it) in
    if has_cas fl && negb (ITEM_get_cas i =? req_cas_id) then
      item_removeS it ;; mdelete_respond "EX " false echo
    else if want_stale fl then
      mark_stale it fl ;; item_removeS it ;; mdelete_respond "OK " true echo
    else delete_item it hv ;; mdelete_respond "OK " true echo
  else mdelete_respond "NF " false echo.

Definition process_mdelete_command (tokens : list token_t) : M srv unit :=
  let ntokens := length tokens in
  if (ntokens <? 3)%nat then out_string (str "ERROR")
  else
    let! key := token_key tokens KEY_TOKEN in
    if KEY_MAX_LENGTH <? Z.of_nat (length key) then out_string bad_format
    else if (MFLAG_MAX_OPT_LENGTH <? ntokens)%nat then out_string (str "CLIENT_ERROR options flags too long")
    else
      let! (ok, fl, _) := _meta_flag_preparse tokens no_flags bad_format in
      if negb ok then out_errstring (str "CLIENT_ERROR invalid or duplicate flag")
      else
        set_conn (set_noreply (no_reply fl)) ;;
        match echo_tokens key (flag_tokens tokens) with
        | None => out_errstring opaque_error
        | Some echo => mdelete_item key fl echo
        end.

(** ** ma *)

(** The mode: up or down; [None] if it is not known. *)
Definition marith_mode (m : Z) : option bool :=
  if m =? 0 then Some true
  else if (m =? ch "I") || (m =? ch "+") then Some true
  else if (m =? ch "D") || (m =? ch "-") then Some false
  else None.

(** A new item with the initial number: the item, 0 if there is no memory, and whether it
    was stored. *)
Definition marith_create (key : list Z) (hv : Z) (num : list Z) : M srv (Z * bool) :=
  let vlen := Z.of_nat (length num) in
  let! it := allocate key 0 0 (vlen + 2) in
  if it =? 0 then ret (0, false)
  else
    let! b := gets thread in
    let! quiet := get_conn set_stale in
    let! (r, cas) := on_memory (fun cfg =>
      let! i := load it in
      copy_in it (ITEM_data i) num ;;
      copy_in it (ITEM_data i + vlen) CRLF ;;
      do_store_item cfg malloc_result trylock rebalance_trylock it NREAD_ADD quiet b hv) in
    (match cas with Some v => set_conn (set_last_cas v) | None => ret tt end) ;;
    ret (it, match r with NOT_STORED => false | _ => true end).

(** What one flag adds to the response; [None] when the opaque is too long. *)
Definition marith_flag (it : Z) (fl : _meta_flags) (created : bool) (key : list Z) (t : token_t)
    : M srv (option (list Z)) :=
  let! i := in_memory (load it) in
  let! now := gets (fun s => current_time (memory s)) in
  let o := hd 0 (default [] (value t)) in
  let c s := o =? ch s in
  if c "c" then ret (Some ([32; o] ++ itoa_u64 (ITEM_get_cas i)))
  else if c "t" then ret (Some ([32; o] ++ ttl_text i now))
  else if c "T" then in_memory (store it (set_exptime (of_exptime fl))) ;; ret (Some [])
  else if c "N" then
    (if created then in_memory (store it (set_exptime (autoviv_exptime fl))) else ret tt) ;; ret (Some [])
  else ret (echo_token key t).

Fixpoint marith_flags (it : Z) (fl : _meta_flags) (created : bool) (key : list Z) (ts : list token_t) (out : list Z)
    : M srv (option (list Z)) :=
  match ts with
  | [] => ret (Some out)
  | t :: ts' =>
      let! r := marith_flag it fl created key t in
      match r with
      | None => ret None
      | Some bs => marith_flags it fl created key ts' (out ++ bs)
      end
  end.

(** The response for an item with the number [num]. *)
Definition marith_item (it : Z) (created : bool) (num key : list Z) (fl : _meta_flags) (tokens : list token_t) : M srv unit :=
  let start := if want_value fl then str "VA " ++ itoa_u32 (Z.of_nat (length num)) else str "OK" in
  let! r := marith_flags it fl created key (flag_tokens tokens) start in
  match r with
  | None => item_removeS it ;; out_errstring opaque_error
  | Some out =>
      item_removeS it ;;
      out_line (out ++ (if want_value fl then CRLF ++ num else []))
  end.

(** The response without an item. *)
Definition marith_none (status : string) (key : list Z) (tokens : list token_t) : M srv unit :=
  match echo_tokens key (flag_tokens tokens) with
  | None => out_errstring opaque_error
  | Some echo => out_line (str status ++ echo)
  end.

Definition marith_apply (key : list Z) (incr : bool) (fl : _meta_flags) (tokens : list token_t) : M srv unit :=
  let! b := gets thread in
  let! hv := gets (fun s => hash (cfg s) key) in
  let! (r, it, num, _) := on_memory (fun cfg =>
    do_add_delta cfg malloc_result trylock rebalance_trylock key incr (delta fl) (req_cas_id fl) b hv true) in
  match r with
  | OK =>
      let! quiet := get_conn noreply in
      whenS quiet (set_resp (set_skip true)) ;;
      marith_item it false num key fl tokens
  | NON_NUMERIC => out_errstring (str "CLIENT_ERROR cannot increment or decrement non-numeric value")
  | EOM => out_errstring (str "SERVER_ERROR out of memory")
  | DELTA_ITEM_NOT_FOUND =>
      if vivify fl then
        let num := itoa_u64 (initial fl) in
        let! (it, created) := marith_create key hv num in
        if it =? 0 then out_errstring (str "SERVER_ERROR Out of memory allocating new item")
        else marith_item it created num key fl tokens
      else marith_none "NF " key tokens
  | DELTA_ITEM_CAS_MISMATCH => marith_none "EX " key tokens
  end.

Definition process_marithmetic_command (tokens : list token_t) : M srv unit :=
  let ntokens := length tokens in
  if (ntokens <? 3)%nat then out_string (str "ERROR")
  else
    let! key := token_key tokens KEY_TOKEN in
    if KEY_MAX_LENGTH <? Z.of_nat (length key) then out_string bad_format
    else if (MFLAG_MAX_OPT_LENGTH <? ntokens)%nat then out_string (str "CLIENT_ERROR options flags too long")
    else
      let! (ok, fl, _) := _meta_flag_preparse tokens (set_delta 1 no_flags) bad_format in
      if negb ok then out_errstring (str "CLIENT_ERROR invalid or duplicate flag")
      else
        set_conn (set_noreply (no_reply fl)) ;;
        match marith_mode (mode fl) with
        | None => out_errstring (str "CLIENT_ERROR invalid mode for ma M token")
        | Some incr => marith_apply key incr fl tokens
        end.

(** ** Dispatch *)

(** The macros; the second half of [WANT_TOKENS] is not used without the first. *)
Definition WANT_TOKENS (ntokens min max : nat) (m : M srv unit) : M srv unit :=
  if (ntokens <? min)%nat || (max <? ntokens)%nat then out_string (str "ERROR") else m.
Definition WANT_TOKENS_OR (ntokens a b : nat) (m : M srv unit) : M srv unit :=
  if negb (ntokens =? a)%nat && negb (ntokens =? b)%nat then out_string (str "ERROR") else m.
Definition WANT_TOKENS_MIN (ntokens min : nat) (m : M srv unit) : M srv unit :=
  if (ntokens <? min)%nat then out_string (str "ERROR") else m.

(** A command of two letters, the first of which is m. *)
Definition dispatch_meta (second : Z) (tokens : list token_t) : M srv unit :=
  if second =? ch "g" then process_mget_command tokens
  else if second =? ch "s" then process_mset_command tokens
  else if second =? ch "d" then process_mdelete_command tokens
  else if second =? ch "n" then out_string (str "MN") ;; conn_set_state conn_mwrite
  else if second =? ch "a" then process_marithmetic_command tokens
  else if second =? ch "e" then process_meta_command tokens
  else out_string (str "ERROR").

(** The commands the first letter of which is not looked at. *)
Definition dispatch_rest (name : list Z) (tokens : list token_t) : M srv unit :=
  let n := length tokens in
  let named s := bool_decide (name = str s) in
  if named "replace" then WANT_TOKENS_OR n 6 7 (process_update_command tokens NREAD_REPLACE false)
  else if named "prepend" then WANT_TOKENS_OR n 6 7 (process_update_command tokens NREAD_PREPEND false)
  else if named "bget" then WANT_TOKENS_MIN n 3 (process_get_command tokens false false)
  else if named "flush_all" then WANT_TOKENS n 2 4 (process_flush_all_command tokens)
  else if named "version" then process_version_command
  else if named "quit" then process_quit_command
  else if named "lru_crawler" then process_lru_crawler_command tokens
  else if named "watch" then process_watch_command tokens
  else if named "verbosity" then WANT_TOKENS_OR n 3 4 (process_verbosity_command tokens)
  else if named "lru" then WANT_TOKENS_MIN n 3 (process_lru_command tokens)
  else
    let! v := token_str tokens (n - 2) in
    if bool_decide (take 5 v = str "HTTP/") then conn_set_state conn_closing
    else out_string (str "ERROR").

Definition dispatch (name : list Z) (tokens : list token_t) : M srv unit :=
  let n := length tokens in
  let first := hd 0 name in
  let named s := bool_decide (name = str s) in
  let error := out_string (str "ERROR") in
  if (first =? ch "m") && (length name =? 2)%nat then dispatch_meta (nth 1 name 0) tokens
  else if first =? ch "g" then
    WANT_TOKENS_MIN n 3
      (if named "get" then process_get_command tokens false false
       else if named "gets" then process_get_command tokens true false
       else if named "gat" then process_get_command tokens false true
       else if named "gats" then process_get_command tokens true true
       else error)
  else if first =? ch "s" then
    if named "set" then WANT_TOKENS_OR n 6 7 (process_update_command tokens NREAD_SET false)
    else if named "stats" then process_stat tokens
    else if named "shutdown" then process_shutdown_command
    else if named "slabs" then process_slabs_command tokens
    else error
  else if first =? ch "a" then
    if named "add" then WANT_TOKENS_OR n 6 7 (process_update_command tokens NREAD_ADD false)
    else if named "append" then WANT_TOKENS_OR n 6 7 (process_update_command tokens NREAD_APPEND false)
    else error
  else if first =? ch "c" then
    if named "cas" then WANT_TOKENS_OR n 7 8 (process_update_command tokens NREAD_CAS true)
    else if named "cache_memlimit" then WANT_TOKENS_OR n 3 4 (process_memlimit_command tokens)
    else error
  else if first =? ch "i" then
    if named "incr" then WANT_TOKENS_OR n 4 5 (process_arithmetic_command tokens true) else error
  else if first =? ch "d" then
    if named "delete" then WANT_TOKENS n 3 5 (process_delete_command tokens)
    else if named "decr" then WANT_TOKENS_OR n 4 5 (process_arithmetic_command tokens false)
    else error
  else if first =? ch "t" then
    if named "touch" then WANT_TOKENS_OR n 4 5 (process_touch_command tokens) else error
  else dispatch_rest name tokens.

Definition process_command (command : list Z) : M srv unit :=
  let! ok := resp_start in
  if negb ok then conn_set_state conn_closing
  else
    let tokens := tokenize_command command MAX_TOKENS in
    let! t := token tokens 0 in
    if (length tokens <? 2)%nat || (tlength t <? 2)%nat then out_string (str "ERROR")
    else dispatch (default [] (value t)) tokens.
End Meta.
