(* ===== verification/McMachine.v ===== *)
(** * memcached: the state machine of a connection

    src/sw/apps/memcached/memcached/memcached.c: reading from the network into the buffer
    of the connection ([try_read_network]), cutting it into command lines
    ([try_read_command_ascii]) or binary requests (McBinary), reading the value of an item,
    sending the responses ([transmit]) and [drive_machine], which a worker thread runs each
    time the connection is ready; for a TCP connection that was accepted. *)

From stdpp Require Import gmap.
From S2P Require Import Prelude Wire McText McHash McItem McAssoc McSlabs McItems McDagger McOps McConn McCommands McBinary McMeta.

Inductive try_read_result := READ_DATA_RECEIVED | READ_NO_DATA_RECEIVED | READ_ERROR | READ_MEMORY_ERROR.

Inductive transmit_result := TRANSMIT_COMPLETE | TRANSMIT_INCOMPLETE | TRANSMIT_SOFT_ERROR | TRANSMIT_HARD_ERROR.

Section Machine.
Context `{E : Env}.

(** ** System calls *)

(** [read] of [n] bytes at most: the result, and the bytes.  Without a scripted answer it
    would block. *)
Definition tcp_read (n : Z) : M srv (Z * list Z) :=
  let! ins := gets incoming in
  match ins with
  | RdData bs :: ins' =>
      let got := take (Z.to_nat n) bs in
      let more := drop (Z.to_nat n) bs in
      modify (set_incoming (match more with [] => ins' | _ => RdData more :: ins' end)) ;;
      ret (Z.of_nat (length got), got)
  | RdEof :: _ => ret (0, [])
  | RdError :: ins' => modify (set_incoming ins') ;; modify (set_errno EPIPE) ;; ret (-1, [])
  | RdAgain :: ins' => modify (set_incoming ins') ;; modify (set_errno EAGAIN) ;; ret (-1, [])
  | [] => modify (set_errno EAGAIN) ;; ret (-1, [])
  end.

(** [sendmsg]; the number of bytes taken, or -1. *)
Definition tcp_sendmsg (bs : list Z) : M srv Z :=
  let! outs := gets outgoing in
  match outs with
  | WrTake n :: outs' =>
      let n := Z.max 0 (Z.min n (Z.of_nat (length bs))) in
      modify (set_outgoing outs') ;;
      modify (fun s => set_output (output s ++ take (Z.to_nat n) bs) s) ;;
      ret n
  | WrError :: outs' => modify (set_outgoing outs') ;; modify (set_errno EPIPE) ;; ret (-1)
  | WrAgain :: outs' => modify (set_outgoing outs') ;; modify (set_errno EAGAIN) ;; ret (-1)
  | [] => modify (set_errno EAGAIN) ;; ret (-1)
  end.

Definition update_event (new_flags : Z) : M srv bool :=
  let! f := get_conn ev_flags in
  if f =? new_flags then ret true
  else
    let! deleted := sys_call in
    if negb deleted then ret false
    else set_conn (set_ev_flags new_flags) ;; sys_call.

(** ** The read buffer *)
Definition rbuf_release : M srv unit :=
  let! c := gets cn in
  if rbuf c && (length (unread c) =? 0)%nat then
    set_conn (fun c => set_rpos 0 (set_rbuf false (set_rsize 0 (set_rbuf_malloced false c))))
  else ret tt.

Definition rbuf_alloc : M srv bool :=
  let! c := gets cn in
  if rbuf c then ret true
  else
    let! ok := sys_alloc in
    whenS ok (set_conn (fun c => set_rpos 0 (set_rsize READ_BUFFER_SIZE (set_rbuf true c)))) ;;
    ret ok.

Definition rbuf_switch_to_malloc : M srv bool :=
  let! ok := sys_alloc in
  whenS ok (set_conn (fun c => set_rbuf_malloced true (set_rsize (rsize c * 2) (set_rpos 0 c)))) ;;
  ret ok.

(** The loop, after [num_allocs] reallocations; it returns after the fourth. *)
Fixpoint read_loop (n : nat) (num_allocs : Z) (gotdata : try_read_result) : M srv try_read_result :=
  match n with
  | O => fun _ => Block
  | S n' =>
      let! c := gets cn in
      let full := (rsize c <=? Z.of_nat (length (unread c))) && rbuf_malloced c in
      if full && (num_allocs =? 4) then ret gotdata
      else
        let! ok := (if full then sys_alloc else ret true) in
        if negb ok then
          set_conn (set_unread []) ;;
          out_of_memory (str "SERVER_ERROR out of memory reading request") ;;
          set_conn (set_close_after_write true) ;;
          ret READ_MEMORY_ERROR
        else
          whenS full (set_conn (set_rsize (rsize c * 2))) ;;
          let! c := gets cn in
          let avail := rsize c - Z.of_nat (length (unread c)) in
          let! (res, bs) := tcp_read avail in
          if 0 <? res then
            set_conn (set_unread (unread c ++ bs)) ;;
            if (res =? avail) && rbuf_malloced c then
              read_loop n' (if full then num_allocs + 1 else num_allocs) READ_DATA_RECEIVED
            else ret READ_DATA_RECEIVED
          else if res =? 0 then ret READ_ERROR
          else
            let! e := gets errno in
            ret (if e =? EAGAIN then gotdata else READ_ERROR)
  end.

(** After the first round each one starts with a reallocation. *)
Definition try_read_network : M srv try_read_result :=
  set_conn (set_rpos 0) ;;
  read_loop 6 0 READ_NO_DATA_RECEIVED.

(** ** Command lines *)

(** [memchr(s, '\n', n)] *)
Fixpoint find_newline (s : list Z) : option nat :=
  match s with
  | [] => None
  | c :: s' => if c =? 10 then Some O else S <$> find_newline s'
  end.

(** The line in front of the newline, without the carriage return, as a C string. *)
Definition command_of (line : list Z) : list Z :=
  c_str (match last line with
         | Some 13 => if (1 <? length line)%nat then take (length line - 1) line else line
         | _ => line
         end).

Fixpoint skip_blanks (s : list Z) : nat :=
  match s with
  | c :: s' => if c =? 32 then S (skip_blanks s') else O
  | [] => O
  end.

(** More than a kilobyte without a newline: that can only be a get of many keys.  The bytes
    in the buffer behind those that were read count as no blanks; blanks up to the end of
    the buffer make the scan run past it. *)
Definition long_line (c : conn) : M srv bool :=
  let n := skip_blanks (unread c) in
  if (n =? length (unread c))%nat && (rpos c + Z.of_nat n =? rsize c) then fun _ => Fault
  else
    let s := drop n (unread c) in
    if (100 <? n)%nat || negb (bool_decide (take 4 s = str "get ") || bool_decide (take 5 s = str "gets ")) then
      conn_set_state conn_closing ;; ret true
    else if rbuf_malloced c then ret false
    else
      let! ok := rbuf_switch_to_malloc in
      if ok then ret false else conn_set_state conn_closing ;; ret true.

(** 0 (more data is needed) is false. *)
Definition try_read_command_ascii : M srv bool :=
  let! c := gets cn in
  if (length (unread c) =? 0)%nat then ret false
  else
    match find_newline (unread c) with
    | None => if 1024 <? Z.of_nat (length (unread c)) then long_line c else ret false
    | Some k =>
        process_command (command_of (take k (unread c))) ;;
        set_conn (fun c => set_rpos (rpos c + Z.of_nat k + 1) (set_unread (drop (S k) (unread c)) c)) ;;
        ret true
    end.

(** The first byte that a client sends tells the protocol; it is at the beginning of the
    buffer, which has not been used before. *)
Definition try_read_command_negotiate : M srv bool :=
  let! c := gets cn in
  match unread c with
  | [] => fun _ => Abort
  | b :: _ =>
      if b =? PROTOCOL_BINARY_REQ then set_conn (set_protocol binary_prot) ;; try_read_command_binary
      else set_conn (set_protocol ascii_prot) ;; try_read_command_ascii
  end.

(** The function that [c->try_read_command] points to. *)
Definition try_read_command : M srv bool :=
  let! p := get_conn protocol in
  match p with
  | ascii_prot => try_read_command_ascii
  | binary_prot => try_read_command_binary
  | negotiating_prot => try_read_command_negotiate
  end.

Definition complete_nread : M srv unit :=
  let! p := get_conn protocol in
  match p with
  | ascii_prot => complete_nread_ascii
  | binary_prot => complete_nread_binary
  | negotiating_prot => fun _ => Abort
  end.

Definition reset_cmd_handler : M srv unit :=
  set_conn (fun c => set_substate bin_no_state (set_bcmd (-1) (set_cmd NREAD_NONE c))) ;;
  let! it := get_conn citem in
  (if negb (it =? 0) then item_removeS it ;; set_conn (set_citem 0) else ret tt) ;;
  let! c := gets cn in
  if (0 <? length (unread c))%nat then conn_set_state conn_parse_cmd
  else if (0 <? length (resps c))%nat then conn_set_state conn_mwrite
  else conn_set_state conn_waiting.

(** ** Values *)

(** [n] bytes from the buffer. *)
Definition take_unread (n : Z) : M srv (list Z) :=
  let! u := get_conn unread in
  set_conn (fun c => set_rpos (rpos c + n) (set_unread (drop (Z.to_nat n) (unread c)) c)) ;;
  ret (take (Z.to_nat n) u).

(** Into the item at [c->ritem]. *)
Definition put_ritem (bs : list Z) : M srv unit :=
  let! c := gets cn in
  let n := Z.of_nat (length bs) in
  in_memory (copy_in (citem c) (ritem c - citem c - sizeof_item) bs) ;;
  set_conn (fun c => set_rlbytes (rlbytes c - n) (set_ritem (ritem c + n) c)).

(** Into the chunk at [c->ritem]. *)
Definition put_chunk (chunk : Z) (bs : list Z) : M srv unit :=
  let! c := gets cn in
  in_memory (fill_chunk (citem c) chunk bs) ;;
  set_conn (fun c => set_rlbytes (rlbytes c - Z.of_nat (length bs)) c).

(** The bytes that are stored behind a value and not sent with it. *)
Definition crlf_space (c : conn) : Z := if bool_decide (protocol c = binary_prot) then 2 else 0.

(** A new chunk behind the one at [c->ritem], which it replaces there. *)
Definition next_ritem (bytes_remain : Z) : M srv Z :=
  let! c := gets cn in
  let! nch := on_memory (fun cfg =>
    do_item_alloc_chunk cfg malloc_result trylock rebalance_trylock (citem c) (ritem c) bytes_remain) in
  set_conn (set_ritem nch) ;;
  ret nch.

(** [total] is the result so far; -2 when there is no memory. *)
Fixpoint chunked_loop (n : nat) (total : Z) : M srv Z :=
  match n with
  | O => fun _ => Block
  | S n' =>
      let! c := gets cn in
      if 0 <? rlbytes c then
        let chunk := ritem c in
        let! k := in_memory (load_chunk (citem c) chunk) in
        let full := k_size k =? k_used k in
        if full && (k_next k =? 0) then
          let! nch := next_ritem (rlbytes c + crlf_space c) in
          if nch =? 0 then ret (-2) else chunked_loop n' total
        else
          whenS full (set_conn (set_ritem (k_next k))) ;;
          let unused := k_size k - k_used k in
          if (0 <? length (unread c))%nat then
            let tocopy := Z.min (Z.min (Z.of_nat (length (unread c))) (rlbytes c)) unused in
            let! bs := take_unread tocopy in
            put_chunk chunk bs ;;
            let! r := get_conn rlbytes in
            if r =? 0 then ret tocopy else chunked_loop n' tocopy
          else
            let! (res, bs) := tcp_read (Z.min unused (rlbytes c)) in
            if 0 <? res then put_chunk chunk bs ;; chunked_loop n' (total + res)
            else ret res
      else ret total
  end.

(** A round fills a chunk, or finds it full and allocates the next one, or takes all that
    was read.  The loop leaves room for the CRLF in the binary protocol. *)
Definition read_into_chunked_item : M srv Z :=
  let! n := gets (fun s => Z.to_nat (rlbytes (cn s)) * 2 + 2)%nat in
  let! total := chunked_loop n 0 in
  let! c := gets cn in
  if (rlbytes c =? 0) && bool_decide (protocol c = binary_prot) && (0 <=? total) then
    let! k := in_memory (load_chunk (citem c) (ritem c)) in
    if k_size k - k_used k <? 2 then
      let! nch := next_ritem 2 in
      ret (if nch =? 0 then -2 else total)
    else ret total
  else ret total.

(** What [drive_machine] does with the result of a read that got nothing; true to stop. *)
Definition read_failed (res : Z) : M srv bool :=
  let! e := gets errno in
  if res =? 0 then conn_set_state conn_closing ;; ret false
  else if (res =? -1) && (e =? EAGAIN) then
    let! ok := update_event EV_READ_PERSIST in
    if ok then ret true else conn_set_state conn_closing ;; ret false
  else conn_set_state conn_closing ;; ret false.

(** The value of an item that is in one piece: from the buffer first, then from the
    socket; the result of the read, if there is nothing more to do. *)
Definition nread_plain : M srv (option Z) :=
  let! c := gets cn in
  (if (0 <? length (unread c))%nat then
     let! bs := take_unread (Z.min (Z.of_nat (length (unread c))) (rlbytes c)) in
     put_ritem bs
   else ret tt) ;;
  let! r := get_conn rlbytes in
  if r =? 0 then ret None
  else
    let! (res, bs) := tcp_read r in
    if 0 <? res then put_ritem bs ;; ret None else ret (Some res).

(** Case [conn_nread]; true to stop. *)
Definition step_nread : M srv bool :=
  let! c := gets cn in
  if rlbytes c =? 0 then complete_nread ;; ret false
  else if rlbytes c <? 0 then conn_set_state conn_closing ;; ret false
  else
    let! chunked := in_memory (field_of (fun i => has (it_flags i) ITEM_CHUNKED) (citem c)) in
    if negb chunked then
      let! r := nread_plain in
      match r with None => ret false | Some res => read_failed res end
    else
      let! res := read_into_chunked_item in
      if 0 <? res then ret false
      else if res =? -2 then
        out_of_memory (str "SERVER_ERROR Out of memory during read") ;;
        set_conn (fun c => set_sbytes (rlbytes c) c) ;;
        conn_set_state conn_swallow ;;
        set_conn (fun c => set_mset_res false (set_set_stale false c)) ;;
        ret false
      else read_failed res.

(** Case [conn_swallow]. *)
Definition step_swallow : M srv bool :=
  let! c := gets cn in
  if sbytes c <=? 0 then conn_set_state conn_new_cmd ;; ret false
  else if (0 <? length (unread c))%nat then
    let tocopy := Z.min (Z.of_nat (length (unread c))) (sbytes c) in
    take_unread tocopy ;;
    set_conn (fun c => set_sbytes (sbytes c - tocopy) c) ;;
    ret false
  else
    let! (res, _) := tcp_read (Z.min (rsize c) (sbytes c)) in
    if 0 <? res then set_conn (fun c => set_sbytes (sbytes c - res) c) ;; ret false
    else read_failed res.

(** ** Sending *)

(** [n] bytes of a buffer, at [off]. *)
Definition within (bs : list Z) (off n : Z) : M mc (list Z) :=
  if (0 <=? off) && (0 <=? n) && (off + n <=? Z.of_nat (length bs)) then ret (slice (Z.to_nat off) (Z.to_nat n) bs)
  else fun _ => Fault.

(** The bytes an I/O vector of the response covers. *)
Definition iov_bytes (r : mc_resp) (v : iovec) : M mc (list Z) :=
  match iov_base v with
  | Static bs => within bs 0 (iov_len v)
  | Wbuf off => within (wbuf r) off (iov_len v)
  | Data p off => copy_out p off (iov_len v)
  | Chunked _ => fun _ => Fault
  end.

(** The chunks of a large item: [skip] bytes were sent already, [todo] are left, in [room]
    vectors at most; the bytes of each vector. *)
Fixpoint chunk_iovs (n : nat) (it chunk skip todo : Z) (room : nat) : M mc (list (list Z)) :=
  match n with
  | O => fun _ => Block
  | S n' =>
      if negb (chunk =? 0) && (0 <? todo) && (0 <? room)%nat then
        let! k := load_chunk it chunk in
        if (k_used k =? 0) || (k_used k <=? skip) then chunk_iovs n' it (k_next k) (skip - k_used k) todo room
        else
          let len := Z.min todo (k_used k - skip) in
          let! bs := copy_out (k_obj k) (k_off k + skip) len in
          let! rest := chunk_iovs n' it (k_next k) 0 (todo - (k_used k - skip)) (room - 1) in
          ret (bs :: rest)
      else ret []
  end.

(** The vectors of one response. *)
Fixpoint resp_iovs (r : mc_resp) (vs : list iovec) (room : nat) : M mc (list (list Z)) :=
  match vs with
  | [] => ret []
  | v :: vs' =>
      let! out :=
        match iov_base v with
        | Chunked p =>
            let! i := load p in
            let! n := gets (fun s => S (S (size (heap s)))) in
            chunk_iovs n p (ITEM_schunk p i) (chunked_total r - iov_len v) (iov_len v) room
        | _ => let! bs := iov_bytes r v in ret [bs]
        end in
      let room' := (room - length out)%nat in
      if (0 <? chunked_data_iov r)%nat && (room' =? 0)%nat then ret out
      else
        let! rest := resp_iovs r vs' room' in
        ret (out ++ rest)
  end.

(** All responses that fit; [used] vectors are in use. *)
Fixpoint _transmit_pre (rs : list mc_resp) (used : nat) : M mc (list (list Z)) :=
  match rs with
  | [] => ret []
  | r :: rs' =>
      if (used + length (iov r) <? IOV_MAX - 1)%nat then
        if skip r then _transmit_pre rs' used
        else
          let! out := resp_iovs r (iov r) (IOV_MAX - 1 - used) in
          let! rest := _transmit_pre rs' (used + length out)%nat in
          ret (out ++ rest)
      else ret []
  end.

(** [iov_base + n] *)
Definition advance_base (n : Z) (b : iov_base_t) : iov_base_t :=
  match b with
  | Static bs => Static (drop (Z.to_nat n) bs)
  | Wbuf off => Wbuf (off + n)
  | Data p off => Data p (off + n)
  | Chunked p => Chunked p
  end.

(** The vectors after [res] bytes were sent, what is left to send, and what is left of
    [res]; [chunked] is the number of the vector of a large item. *)
Fixpoint advance_iovs (vs : list iovec) (x chunked : nat) (tosend res : Z) : list iovec * Z * Z :=
  match vs with
  | [] => ([], tosend, res)
  | v :: vs' =>
      if iov_len v <=? res then
        let '(vs'', t, r) := advance_iovs vs' (S x) chunked (tosend - iov_len v) (res - iov_len v) in
        ({| iov_base := iov_base v; iov_len := 0 |} :: vs'', t, r)
      else
        let base := if (chunked =? 0)%nat || negb (x =? chunked)%nat then advance_base res (iov_base v) else iov_base v in
        ({| iov_base := base; iov_len := iov_len v - res |} :: vs', tosend - res, 0)
  end.

Fixpoint _transmit_post (rs : list mc_resp) (res : Z) : M srv unit :=
  match rs with
  | [] => ret tt
  | r :: rs' =>
      if skip r then resp_finish r ;; _transmit_post rs' res
      else if tosend r <=? res then resp_finish r ;; _transmit_post rs' (res - tosend r)
      else
        let '(vs, t, more) := advance_iovs (iov r) 0 (chunked_data_iov r) (tosend r) res in
        let r' := set_tosend t (set_iov vs r) in
        set_conn (fun c => set_resps (r' :: tail (resps c)) c) ;;
        if t =? 0 then resp_finish r' ;; _transmit_post rs' more else ret tt
  end.

Definition transmit : M srv transmit_result :=
  let! rs := get_conn resps in
  let! iovs := in_memory (_transmit_pre rs 0) in
  let! res := tcp_sendmsg (concat iovs) in
  if 0 <=? res then
    _transmit_post rs res ;;
    let! rest := get_conn resps in
    ret (if (0 <? length rest)%nat then TRANSMIT_INCOMPLETE else TRANSMIT_COMPLETE)
  else
    let! e := gets errno in
    if e =? EAGAIN then
      let! ok := update_event EV_WRITE_PERSIST in
      if ok then ret TRANSMIT_SOFT_ERROR else conn_set_state conn_closing ;; ret TRANSMIT_HARD_ERROR
    else conn_set_state conn_closing ;; ret TRANSMIT_HARD_ERROR.

(** ** The machine *)
Definition conn_close : M srv unit :=
  sys_call ;;
  conn_release_items ;;
  set_conn (set_unread []) ;;
  rbuf_release ;;
  conn_set_state conn_closed.

(** One round of the loop, after [nreqs] was decremented to it; true to stop. *)
Definition step_new_cmd (nreqs : Z) : M srv bool :=
  if 0 <=? nreqs then reset_cmd_handler ;; ret false
  else
    let! c := gets cn in
    if (0 <? length (resps c))%nat then conn_set_state conn_mwrite ;; ret false
    else if (0 <? length (unread c))%nat then
      let! ok := update_event EV_WRITE_PERSIST in
      if ok then ret true else conn_set_state conn_closing ;; ret false
    else ret true.

Definition step_waiting : M srv bool :=
  rbuf_release ;;
  let! ok := update_event EV_READ_PERSIST in
  if ok then conn_set_state conn_read ;; ret true else conn_set_state conn_closing ;; ret false.

Definition step_read : M srv bool :=
  let! ok := rbuf_alloc in
  (if negb ok then conn_set_state conn_closing
   else
     let! res := try_read_network in
     match res with
     | READ_NO_DATA_RECEIVED => conn_set_state conn_waiting
     | READ_DATA_RECEIVED => conn_set_state conn_parse_cmd
     | READ_ERROR => conn_set_state conn_closing
     | READ_MEMORY_ERROR => ret tt
     end) ;;
  ret false.

Definition step_parse_cmd : M srv bool :=
  set_conn (set_noreply false) ;;
  let! r := try_read_command in
  (if r then ret tt
   else
     let! rs := get_conn resps in
     conn_set_state (if (0 <? length rs)%nat then conn_mwrite else conn_waiting)) ;;
  ret false.

Definition step_write : M srv bool :=
  let! st := get_conn state in
  let! r := transmit in
  match r with
  | TRANSMIT_COMPLETE =>
      (if bool_decide (st = conn_mwrite) then
         conn_release_items ;;
         conn_set_state conn_new_cmd ;;
         let! fin := get_conn close_after_write in
         whenS fin (conn_set_state conn_closing)
       else conn_set_state conn_closing) ;;
      ret false
  | TRANSMIT_INCOMPLETE | TRANSMIT_HARD_ERROR => ret false
  | TRANSMIT_SOFT_ERROR => ret true
  end.

(** Whether to stop, and [nreqs].  A connection that was accepted is never listening. *)
Definition drive_step (nreqs : Z) : M srv (bool * Z) :=
  let! st := get_conn state in
  let same m := let! stop := m in ret (stop, nreqs) in
  match st with
  | conn_waiting => same step_waiting
  | conn_read => same step_read
  | conn_parse_cmd => same step_parse_cmd
  | conn_new_cmd => let! stop := step_new_cmd (nreqs - 1) in ret (stop, nreqs - 1)
  | conn_nread => same step_nread
  | conn_swallow => same step_swallow
  | conn_write | conn_mwrite => same step_write
  | conn_closing => same (conn_close ;; ret true)
  | conn_closed | conn_listening => fun _ => Abort
  | conn_watch => same (ret true)
  end.

(** [n] rounds at most; whether the machine has stopped. *)
Fixpoint drive_loop (n : nat) (nreqs : Z) : M srv bool :=
  match n with
  | O => ret false
  | S n' =>
      let! (stop, nreqs') := drive_step nreqs in
      if stop then ret true else drive_loop n' nreqs'
  end.

Definition drive_machine (n : nat) : M srv bool :=
  let! nreqs := gets (fun s => reqs_per_event (opts s)) in
  drive_loop n nreqs.
End Machine.
