(* ===== verification/McFraming.v ===== *)
(** * memcached: the commands in a stream of bytes

    What reading does to the input of a connection.  However the stream is cut into the
    pieces that [read] returns, the commands that the server executes are those of the
    stream itself ([commands_of]): lines up to a newline, each followed by the block of
    data that it announces.  The length of the block depends on the line alone
    ([block_of]), not on what becomes of the command. *)

From Stdlib Require Import String.
From stdpp Require Import gmap.
From S2P Require Import Prelude Wire McText McHash McItem McAssoc McSlabs McItems McDagger McOps McConn McCommands McMeta McMachine.

Lemma wlp_any {S A} (m : M S A) (Q : A -> S -> Prop) s : (forall a s', Q a s') -> wlp m Q s.
Proof. intros H. unfold wlp. by destruct (m s). Qed.

Lemma wlp_and {S A} (m : M S A) (P Q : A -> S -> Prop) s :
  wlp m P s -> wlp m Q s -> wlp m (fun a s' => P a s' /\ Q a s') s.
Proof. unfold wlp. by destruct (m s). Qed.
Lemma wlp_assoc_inv {S A B C} (m : M S A) (k : A -> M S B) (k' : B -> M S C) Q s :
  wlp (bind (bind m k) k') Q s -> wlp (bind m (fun a => bind (k a) k')) Q s.
Proof. unfold wlp. by rewrite bind_assoc. Qed.
Lemma wlp_gets {S A B} (f : S -> A) (k : A -> M S B) (Q : B -> S -> Prop) s : wlp (k (f s)) Q s -> wlp (bind (gets f) k) Q s.
Proof. done. Qed.
Lemma wlp_get_conn {A B} (f : conn -> A) (k : A -> M srv B) Q s : wlp (k (f (cn s))) Q s -> wlp (bind (get_conn f) k) Q s.
Proof. done. Qed.
Lemma wlp_set_conn {B} f (k : unit -> M srv B) Q s :
  wlp (k tt) Q (set_cn (f (cn s)) s) -> wlp (bind (set_conn f) k) Q s.
Proof. done. Qed.

(** ** What commands leave alone *)

(** The network, the read buffer and the protocol. *)
Definition io (s : srv) : list rd * list wr * list Z * (bool * Z * Z * list Z * bool * Z * protocol_t) :=
  (incoming s, outgoing s, output s,
   (rbuf (cn s), rsize (cn s), rpos (cn s), unread (cn s), rbuf_malloced (cn s), ev_flags (cn s), protocol (cn s))).

(** A part of the state is left alone. *)
Definition keeps {X A} (g : srv -> X) (m : M srv A) : Prop := forall s, wlp m (fun _ s' => g s' = g s) s.

Section Keeps.
Context {X : Type} (g : srv -> X).

Lemma frame_ret {A} (a : A) : keeps g (ret a).
Proof. done. Qed.
Lemma keeps_fault {A} : keeps (A := A) g (fun _ => Fault).
Proof. done. Qed.
Lemma keeps_block {A} : keeps (A := A) g (fun _ => Block).
Proof. done. Qed.
Lemma keeps_abort {A} : keeps (A := A) g (fun _ => Abort).
Proof. done. Qed.
Lemma keeps_gets {A} (f : srv -> A) : keeps g (gets f).
Proof. done. Qed.
Lemma keeps_modify f : (forall s, g (f s) = g s) -> keeps g (modify f).
Proof. intros H s. apply H. Qed.
Lemma keeps_on_memory {A} (m : settings -> M mc A) : (forall m' s, g (set_memory m' s) = g s) -> keeps g (on_memory m).
Proof. intros H s. unfold wlp, on_memory. destruct (m _ _); [apply H|done..]. Qed.
Lemma frame_bind {A B} (m : M srv A) (k : A -> M srv B) : keeps g m -> (forall a, keeps g (k a)) -> keeps g (bind m k).
Proof.
  intros Hm Hk s. apply wlp_bind. eapply wlp_mono; [|apply Hm]. intros a s' <-. apply Hk.
Qed.
Lemma keeps_sys_call `{E : Env} : (forall n s, g (set_sys_calls n s) = g s) -> keeps g sys_call.
Proof. intros H s. apply H. Qed.

Lemma wlp_keeps {A B} (m : M srv A) (k : A -> M srv B) Q s :
  keeps g m -> (forall a s', g s' = g s -> wlp (k a) Q s') -> wlp (bind m k) Q s.
Proof. intros Hm Hk. apply wlp_bind. eapply wlp_mono; [|apply Hm]. intros a s'. apply Hk. Qed.
End Keeps.

Create HintDb frame.
#[export] Hint Resolve frame_ret keeps_fault keeps_block keeps_abort keeps_gets : frame.

(** Unfolds what the computation in the goal starts with. *)
Ltac unfold_head m :=
  match m with
  | ?f _ => unfold_head f
  | ?f => unfold f
  end.

Ltac frame :=
  match goal with
  | |- keeps _ (bind _ _) => apply frame_bind; [frame|intros ?; frame]
  | |- keeps _ (modify _) => apply keeps_modify; reflexivity
  | |- keeps _ (on_memory _) => apply keeps_on_memory; reflexivity
  | |- keeps _ sys_call => apply keeps_sys_call; reflexivity
  | |- keeps _ (match ?x with _ => _ end) => destruct x; frame
  | |- keeps _ _ => solve [eauto with frame]
  | |- keeps _ ?m => unfold_head m; cbv beta zeta; frame
  end.

Section Frames.
Context `{E : Env}.

Lemma finish_all_keeps rs : keeps io (finish_all rs).
Proof. induction rs; cbn [finish_all]; frame. Qed.
#[local] Hint Resolve finish_all_keeps : frame.

Lemma out_string_keeps v : keeps io (out_string v).
Proof. frame. Qed.
Lemma resp_start_keeps : keeps io resp_start.
Proof. frame. Qed.
Lemma set_noreply_maybe_keeps ts : keeps io (set_noreply_maybe ts).
Proof. frame. Qed.
#[local] Hint Resolve out_string_keeps resp_start_keeps set_noreply_maybe_keeps : frame.

Lemma complete_ascii_keeps : keeps io complete_nread_ascii.
Proof. frame. Qed.

Lemma get_loop_keeps ts e rc st : keeps io (get_loop ts e rc st).
Proof. induction ts as [|t ts IH]; cbn [get_loop]; frame. Qed.
#[local] Hint Resolve get_loop_keeps : frame.

Lemma get_rounds_keeps n ts e rc st : keeps io (get_rounds n ts e rc st).
Proof. revert ts. induction n as [|n IH]; intros ts; cbn [get_rounds]; frame. Qed.
#[local] Hint Resolve get_rounds_keeps : frame.

Lemma preparse_loop_keeps ts seen fl err : keeps io (preparse_loop ts seen fl err).
Proof. revert seen fl err. induction ts as [|t ts IH]; intros; cbn [preparse_loop]; frame. Qed.
#[local] Hint Resolve preparse_loop_keeps : frame.

Lemma mget_flags_keeps it fl cr ts out won : keeps io (mget_flags it fl cr ts out won).
Proof. revert out won. induction ts as [|t ts IH]; intros; cbn [mget_flags]; frame. Qed.
Lemma marith_flags_keeps it fl cr key ts out : keeps io (marith_flags it fl cr key ts out).
Proof. revert out. induction ts as [|t ts IH]; intros; cbn [marith_flags]; frame. Qed.
#[local] Hint Resolve mget_flags_keeps marith_flags_keeps : frame.

Hypothesis stat_keeps : forall ts, keeps io (process_stat ts).

Lemma process_command_keeps v : keeps io (process_command v).
Proof using stat_keeps. frame. Qed.
End Frames.

(** ** The block of data behind a command line *)

(** As a C string. *)
Definition text (tokens : list token_t) (i : nat) : option (list Z) := t ← tokens !! i; value t.

Definition key_len (tokens : list token_t) : Z :=
  match tokens !! KEY_TOKEN with
  | Some t => Z.of_nat (length (take (tlength t) (default [] (value t))))
  | None => 0
  end.

(** Of set, add, replace, append, prepend and cas: the length that the line gives and two
    bytes for the CRLF, if the line is well-formed. *)
Definition update_block (tokens : list token_t) (handle_cas : bool) : nat :=
  default O
    (if KEY_MAX_LENGTH <? key_len tokens then None
     else
       t2 ← text tokens 2; _ ← safe_strtoul t2;
       t3 ← text tokens 3; _ ← safe_strtol t3;
       t4 ← text tokens 4; vlen ← safe_strtol t4;
       _ ← (if handle_cas then t5 ← text tokens 5; safe_strtoull t5 else Some 0);
       if (vlen <? 0) || (INT_MAX - 2 <? vlen) then None else Some (Z.to_nat (vlen + 2))).

(** The letters of the flags of meta commands. *)
Definition known_flag (o : Z) : bool :=
  existsb (fun s => o =? ch s)
    ["N"; "T"; "R"; "l"; "O"; "k"; "s"; "t"; "c"; "f"; "v"; "h"; "u"; "q"; "F"; "S"; "C"; "M"; "J"; "D"; "I"]%string.

(** [value_len] after a flag. *)
Definition flag_len (o : Z) (v : list Z) (len : Z) : Z :=
  if o =? ch "S" then
    match safe_strtol v with
    | Some n => if (n <? 0) || (INT_MAX - 2 <? n) then len else n + 2
    | None => len
    end
  else len.

(** [value_len] after all flags up to one that is repeated or not known. *)
Fixpoint flags_len (ts : list token_t) (seen : list Z) (len : Z) : Z :=
  match ts with
  | t :: ((_ :: _) as ts') =>
      match value t with
      | Some (o :: v) =>
          if (127 <=? o) || existsb (Z.eqb o) seen || negb (known_flag o) then len
          else flags_len ts' (o :: seen) (flag_len o v len)
      | _ => len
      end
  | _ => len
  end.

(** Of ms: the number of the flag S. *)
Definition mset_block (tokens : list token_t) : nat :=
  let n := length tokens in
  if (n <? 3)%nat || (KEY_MAX_LENGTH <? key_len tokens) || (n =? 3)%nat || (MFLAG_MAX_OPT_LENGTH <? n)%nat then O
  else Z.to_nat (flags_len (drop (KEY_TOKEN + 1) tokens) [] 0).

Definition block_rest (name : list Z) (tokens : list token_t) : nat :=
  let n := length tokens in
  let named s := bool_decide (name = str s) in
  if named "replace" || named "prepend" then if (n =? 6)%nat || (n =? 7)%nat then update_block tokens false else O
  else O.

Definition block_named (name : list Z) (tokens : list token_t) : nat :=
  let n := length tokens in
  let first := hd 0 name in
  let named s := bool_decide (name = str s) in
  let update := if (n =? 6)%nat || (n =? 7)%nat then update_block tokens false else O in
  if (first =? ch "m") && (length name =? 2)%nat then
    if nth 1 name 0 =? ch "s" then mset_block tokens else O
  else if first =? ch "g" then O
  else if first =? ch "s" then if named "set" then update else O
  else if first =? ch "a" then if named "add" || named "append" then update else O
  else if first =? ch "c" then
    if named "cas" then if (n =? 7)%nat || (n =? 8)%nat then update_block tokens true else O else O
  else if (first =? ch "i") || (first =? ch "d") || (first =? ch "t") then O
  else block_rest name tokens.

Definition block_of (command : list Z) : nat :=
  let tokens := tokenize_command command MAX_TOKENS in
  match tokens !! 0%nat with
  | Some t => if (length tokens <? 2)%nat || (tlength t <? 2)%nat then O else block_named (default [] (value t)) tokens
  | None => O
  end.

(** ** What a command leaves the connection with *)

(** The connection is given up. *)
Definition gone (c : conn) : bool :=
  match state c with conn_closing | conn_closed | conn_watch => true | _ => false end.

(** The bytes of a block that are still to come. *)
Definition demand (c : conn) : nat :=
  match state c with
  | conn_nread => Z.to_nat (rlbytes c)
  | conn_swallow => Z.to_nat (sbytes c)
  | _ => O
  end.

Definition waits (c : conn) : bool := match state c with conn_waiting | conn_read => true | _ => false end.

Definition settled (b : nat) (c : conn) : Prop := gone c = true \/ waits c = false /\ demand c = b.

Definition settles {A} (b : nat) (m : M srv A) : Prop := forall s, wlp m (fun _ s' => settled b (cn s')) s.

(** What [settled] depends on, and the protocol. *)
Definition phase (s : srv) : conn_states * Z * Z * protocol_t := (state (cn s), rlbytes (cn s), sbytes (cn s), protocol (cn s)).

Lemma settled_same b s s' : phase s' = phase s -> settled b (cn s) -> settled b (cn s').
Proof. intros [= H1 H2 H3 _]. unfold settled, gone, demand, waits. by rewrite H1, H2, H3. Qed.

Lemma settles_bind {A B} b (m : M srv A) (k : A -> M srv B) : (forall a, settles b (k a)) -> settles b (bind m k).
Proof. intros Hk s. apply wlp_bind, wlp_any. intros a s'. apply Hk. Qed.

Lemma settles_then {A B} b (m : M srv A) (k : A -> M srv B) :
  settles b m -> (forall a, keeps phase (k a)) -> settles b (bind m k).
Proof.
  intros Hm Hk s. apply wlp_bind. eapply wlp_mono; [|apply Hm]. intros a s1 H1.
  eapply wlp_mono; [|apply Hk]. intros x s2 H2. exact (settled_same _ _ _ H2 H1).
Qed.

Lemma settles_fault {A} b : settles (A := A) b (fun _ => Fault).
Proof. done. Qed.
Lemma settles_to st : match st with conn_new_cmd | conn_mwrite | conn_closing | conn_watch => True | _ => False end ->
  settles 0 (conn_set_state st).
Proof. intros H s. unfold settled, gone, waits, demand. cbn. destruct st; try done; auto. Qed.

Lemma settles_abort {A} b : settles (A := A) b (fun _ => Abort).
Proof. done. Qed.

Create HintDb settle.
#[export] Hint Resolve settles_fault settles_abort : settle.

(** Of a sequence, the last part settles it, or the first and the rest is inert. *)
Ltac settle :=
  match goal with
  | |- settles _ (conn_set_state _) => apply settles_to; exact I
  | |- settles _ (bind _ _) => first [solve [apply settles_bind; intros ?; settle]
                                    | solve [apply settles_then; [settle | intros ?; frame]]]
  | |- settles _ (match ?x with _ => _ end) => destruct x; settle
  | |- settles _ _ => solve [eauto with settle]
  | |- settles _ ?m => unfold_head m; cbv beta zeta; settle
  end.

Section Settles.
Context `{E : Env}.

Lemma out_string_settles v : settles 0 (out_string v).
Proof. settle. Qed.
Lemma out_string_stays v : keeps (fun s => (rlbytes (cn s), sbytes (cn s))) (out_string v).
Proof. frame. Qed.
Lemma write_bin_error_settles e t n : settles (Z.to_nat n) (write_bin_error e t n).
Proof.
  unfold write_bin_error. apply settles_bind; intros _. apply settles_bind; intros _ s.
  destruct (Z.ltb_spec 0 n); [by right|]. right. split; [done|]. cbn. lia.
Qed.
Lemma out_of_memory_settles v : settles 0 (out_of_memory v).
Proof. unfold out_of_memory. apply settles_bind; intros []; [apply out_string_settles|apply (write_bin_error_settles _ _ 0)|apply out_string_settles]. Qed.
#[local] Hint Resolve out_string_settles out_of_memory_settles : settle.

(** Without a number to compare with, counting has no mismatch. *)
Lemma add_delta_matches cf ml tl rt key incr d b s :
  wlp (add_delta cf ml tl rt key incr d 0 b) (fun r _ => r.1.1 <> DELTA_ITEM_CAS_MISMATCH) s.
Proof.
  apply wlp_bind. eapply (wlp_mono _ (fun r _ => r.1.1.1 <> DELTA_ITEM_CAS_MISMATCH)); [by intros [[[r ?] ?] ?] s' H|].
  unfold do_add_delta. cbn [Z.eqb negb andb].
  repeat first [apply wlp_bind, wlp_any; intros ? ?; cbv zeta | case_match; try done].
  all: done.
Qed.

Lemma arithmetic_settles ts incr : settles 0 (process_arithmetic_command ts incr).
Proof.
  unfold process_arithmetic_command. do 2 (apply settles_bind; intros ?). case_match; [settle|].
  do 2 (apply settles_bind; intros ?). case_match; [|settle]. apply settles_bind. intros b s. apply wlp_bind.
  eapply (wlp_mono _ (fun r _ => r.1.1 <> DELTA_ITEM_CAS_MISMATCH)).
  - intros [[r temp] ?] s' Hr. cbn in Hr. destruct r; first [apply out_string_settles|apply out_of_memory_settles|done].
  - unfold wlp, on_memory. pose proof (add_delta_matches (cfg s) malloc_result trylock rebalance_trylock a0 incr z b (memory s)) as Hd.
    unfold wlp in Hd. by destruct (add_delta _ _ _ _ _ _ _ _ _).
Qed.
#[local] Hint Resolve arithmetic_settles : settle.

(** ** Blocks *)

(** The item at [p] has a value of [n] bytes. *)
Definition sized (p n : Z) (s : mc) : Prop := exists i, heap s !! p = Some i /\ nbytes i = n.

Lemma sized_store p n q f : (forall i, nbytes (f i) = nbytes i) -> preserves (sized p n) (store q f).
Proof.
  intros Hf s (i & Ei & Hn). unfold wlp, store. destruct (heap s !! q) as [j|] eqn:Ej; [|done].
  destruct (decide (p = q)) as [->|Hne].
  - exists (f j). cbn. rewrite lookup_insert_eq. split; [done|]. rewrite Hf. congruence.
  - exists i. cbn. by rewrite lookup_insert_ne.
Qed.
Lemma sized_copy_in p n q off bs : preserves (sized p n) (copy_in q off bs).
Proof.
  intros s (i & Ei & Hn). unfold wlp, copy_in. destruct (heap s !! q) as [j|] eqn:Ej; [|done].
  destruct (put_bytes off bs j) as [j'|] eqn:Ep; [|done]. unfold put_bytes in Ep. case_match; [|done].
  injection Ep as <-. destruct (decide (p = q)) as [->|Hne].
  - eexists. cbn. rewrite lookup_insert_eq. split; [done|]. cbn. congruence.
  - exists i. cbn. by rewrite lookup_insert_ne.
Qed.
Lemma preserves_wlp {A} (I : mc -> Prop) (m : M mc A) s : preserves I m -> I s -> wlp m (fun _ => I) s.
Proof. intros H. apply H. Qed.
Lemma load_preserves (I : mc -> Prop) p : preserves I (load p).
Proof. intros s Hs. unfold wlp, load. by destruct (heap s !! p). Qed.

Lemma fill_sized cf it key flags e n ns id hid s : wlp (fill_item cf it key flags e n ns id hid) (fun _ => sized it n) s.
Proof.
  unfold fill_item. do 7 (apply wlp_bind, wlp_any; intros ? ?).
  apply wlp_bind. eapply (wlp_mono _ (fun _ => sized it n)).
  - intros [] s2 Hs. apply preserves_wlp; [|exact Hs]. clear. repeat first [apply preserves_bind; [|intros ?] | by apply sized_store
      | apply sized_copy_in | apply preserves_ret | apply load_preserves | unfold when; case_match].
  - unfold wlp, store. destruct (heap _ !! it) as [i|] eqn:Ei; [|done]. eexists. cbn. rewrite lookup_insert_eq. done.
Qed.

(** A new item has the length that was asked for. *)
Lemma alloc_sized key flags e n s :
  wlp (allocate key flags e n) (fun it s' => it = 0 \/ sized it n (memory s')) s.
Proof.
  unfold allocate, wlp, on_memory.
  enough (wlp (do_item_alloc (cfg s) malloc_result trylock rebalance_trylock key flags e n)
            (fun it m => it = 0 \/ sized it n m) (memory s)) as H
    by (unfold wlp in H; by destruct (do_item_alloc _ _ _ _ _ _ _ _ _)).
  unfold do_item_alloc. case_match; [by left|]. case_match. apply wlp_bind, wlp_any. intros id s1. case_match; [by left|].
  cbv zeta. do 2 (apply wlp_bind, wlp_any; intros ? ?). case_match; [by left|]. apply wlp_bind, wlp_any. intros ? ?.
  apply wlp_bind. eapply wlp_mono; [|apply fill_sized]. intros [] s2 Hs. by right.
Qed.

Lemma start_nread_settles it n comm s :
  sized it n (memory s) -> wlp (start_nread it comm) (fun _ s' => rlbytes (cn s') = n) s.
Proof.
  intros (i & Ei & Hn). unfold start_nread. apply wlp_bind. unfold wlp, in_memory, on_memory, load. rewrite Ei. exact Hn.
Qed.

Lemma drop_stale_stays key : keeps phase (drop_stale key).
Proof. frame. Qed.

Lemma settled_nread n c : state c = conn_nread -> rlbytes c = n -> settled (Z.to_nat n) c.
Proof. intros H1 H2. right. unfold waits, demand. rewrite H1, H2. done. Qed.
Lemma settled_swallow n c : state c = conn_swallow -> sbytes c = n -> settled (Z.to_nat n) c.
Proof. intros H1 H2. right. unfold waits, demand. rewrite H1, H2. done. Qed.

Lemma sized_set_cas p n q v : preserves (sized p n) (ITEM_set_cas q (ret v)).
Proof.
  unfold ITEM_set_cas, when. apply preserves_bind; [apply load_preserves|]. intros i. case_match; [|apply preserves_ret].
  apply preserves_bind; [apply preserves_ret|]. intros c. apply sized_copy_in.
Qed.

Lemma set_cas_sized it n v s :
  sized it n (memory s) -> wlp (in_memory (ITEM_set_cas it (ret v))) (fun _ s' => sized it n (memory s')) s.
Proof.
  intros Hs. pose proof (sized_set_cas it n it v (memory s) Hs) as H. unfold wlp, in_memory, on_memory in *.
  by destruct (ITEM_set_cas _ _ _).
Qed.

Lemma update_item_settles key flags e vlen cas comm : settles (Z.to_nat vlen) (update_item key flags e vlen cas comm).
Proof.
  intros s. unfold update_item. apply wlp_bind. eapply wlp_mono; [|apply alloc_sized]. intros it s1 H1. cbn beta.
  destruct (Z.eqb_spec it 0) as [->|H0].
  - do 2 (apply wlp_bind, wlp_any; intros ? ?). apply wlp_bind. unfold wlp at 1, conn_set_state, set_conn, modify.
    apply wlp_bind. unfold wlp at 1, modify.
    assert (keeps phase (match comm with NREAD_SET => drop_stale key | _ => ret tt end)) as Hst
      by (destruct comm; try apply frame_ret; apply drop_stale_stays).
    eapply wlp_mono; [|apply Hst]. intros [] s2 H2. eapply settled_same; [exact H2|]. by apply settled_swallow.
  - destruct H1 as [?|H1]; [done|]. apply wlp_bind. eapply wlp_mono; [|by apply set_cas_sized]. intros [] s2 H2.
    apply wlp_bind. eapply wlp_mono; [|by apply start_nread_settles]. intros [] s3 H3. by apply settled_nread.
Qed.

(** Reading tokens and numbers. *)
Lemma settles_token_str {A} b ts i (k : list Z -> M srv A) :
  (forall v, text ts i = Some v -> settles b (k v)) -> settles b (bind (token_str ts i) k).
Proof.
  intros Hk s. apply wlp_bind, wlp_bind. unfold token, text in *. destruct (ts !! i) as [t|]; [|done]. cbn in *.
  destruct (value t) as [v|]; [|done]. by apply Hk.
Qed.
Lemma settles_token_key {A} b ts (k : list Z -> M srv A) :
  (forall key, Z.of_nat (length key) = key_len ts -> settles b (k key)) -> settles b (bind (token_key ts KEY_TOKEN) k).
Proof.
  intros Hk s. apply wlp_bind, wlp_bind. unfold token, key_len in *. destruct (ts !! KEY_TOKEN) as [t|]; [|done].
  by apply Hk.
Qed.
Lemma settles_bind_assoc {A B C} b (m : M srv A) (k : A -> M srv B) (k' : B -> M srv C) :
  settles b (bind m (fun a => bind (k a) k')) -> settles b (bind (bind m k) k').
Proof. intros H s. apply wlp_assoc, H. Qed.
Lemma settles_parse {A} b e r (k : option Z -> M srv A) : settles b (k r) -> settles b (bind (parse_with e r) k).
Proof. intros Hk s. apply Hk. Qed.

Lemma update_settles ts comm hc : settles (update_block ts hc) (process_update_command ts comm hc).
Proof.
  unfold process_update_command, update_block. apply settles_bind. intros _. apply settles_token_key. intros key ->.
  case_match; [settle|]. apply settles_token_str. intros t2 ->. cbn [mbind option_bind].
  apply settles_parse. destruct (safe_strtoul t2) as [flags|]; cbn; [|settle].
  apply settles_token_str. intros t3 ->. apply settles_parse. cbn. destruct (safe_strtol t3) as [e|]; cbn; [|settle].
  apply settles_token_str. intros t4 ->. apply settles_parse. cbn. destruct (safe_strtol t4) as [vlen|]; cbn; [|settle].
  apply settles_bind. intros exptime.
  assert (forall r, settles (default O (_ ← r; if (vlen <? 0) || (INT_MAX - 2 <? vlen) then None else Some (Z.to_nat (vlen + 2))))
    (match r with
     | Some req_cas_id => if (vlen <? 0) || (INT_MAX - 2 <? vlen) then out_string bad_format
                          else update_item key flags exptime (vlen + 2) req_cas_id comm
     | None => out_string bad_format
     end)) as Hend.
  { intros [c|]; cbn; [|settle]. case_match; [settle|apply update_item_settles]. }
  destruct hc; [|by apply (Hend (Some 0))]. apply settles_bind_assoc, settles_token_str. intros t5 ->. by apply settles_parse, Hend.
Qed.

(** What a flag returns. *)
Definition flag_ok (o : Z) (v : list Z) (len : Z) (r : option preparsed) : Prop :=
  match r with
  | Some (fl, _) => known_flag o = true /\ value_len fl = flag_len o v len
  | None => known_flag o = false
  end.

Lemma number_flag_len parse v fl err e k s (P : preparsed -> Prop) :
  P (set_has_error true fl, default err e) -> (forall x s', wlp (k x) (fun r _ => P r) s') ->
  wlp (number_flag parse v fl err e k) (fun r _ => P r) s.
Proof. intros H1 H2. apply wlp_bind, wlp_any. intros [x|] s'; [apply H2|exact H1]. Qed.

Lemma time_flag_len v fl err f s n :
  value_len fl = n -> (forall t, value_len (f t) = n) -> wlp (time_flag v fl err f) (fun r _ => value_len r.1 = n) s.
Proof.
  intros H1 H2. apply (number_flag_len _ _ _ _ _ _ _ (fun r => value_len r.1 = n)); [done|].
  intros x s'. apply wlp_bind, wlp_any. intros t s2. apply H2.
Qed.

Lemma flag_known o v n (m : M srv preparsed) s :
  known_flag o = true -> wlp m (fun r _ => value_len r.1 = flag_len o v n) s ->
  wlp (let! x := m in ret (Some x)) (fun r _ => flag_ok o v n r) s.
Proof. intros Hk Hm. apply wlp_bind. eapply wlp_mono; [|exact Hm]. intros [fl e] s' H. done. Qed.

Lemma flag_spec o t v fl err s : wlp (flag o t v fl err) (fun r _ => flag_ok o v (value_len fl) r) s.
Proof.
  unfold flag.
  repeat match goal with
  | |- context [o =? ch ?c] => destruct (Z.eqb_spec o (ch c)) as [->|?]
  end; cbn [orb].
  all: try done.
  all: try (case_match; done).
  all: try (apply flag_known; [done|]; apply time_flag_len; done).
  all: try (apply flag_known; [done|];
            apply (number_flag_len _ _ _ _ _ _ _ (fun r => value_len r.1 = value_len fl)); done).
  - apply flag_known; [done|]. unfold flag_len. cbn [Z.eqb]. change (ch "S" =? ch "S") with true. cbv iota.
    unfold number_flag, parse_strtol, parse_with. do 2 apply wlp_bind. unfold wlp, modify, ret.
    destruct (safe_strtol v) as [len|]; [|done]. by case_match.
  - apply wlp_ret. unfold flag_ok, known_flag. cbn [existsb].
    repeat match goal with H : o <> ch _ |- _ => apply Z.eqb_neq in H; rewrite H end. done.
Qed.

Lemma preparse_len ts seen fl err s :
  wlp (preparse_loop ts seen fl err) (fun r _ => value_len r.1.2 = flags_len ts seen (value_len fl)) s.
Proof.
  revert seen fl err s. induction ts as [|t [|t' ts] IH]; intros seen fl err s; [done..|].
  cbn [preparse_loop flags_len]. destruct (value t) as [[|o v]|]; [done| |done].
  destruct ((127 <=? o) || existsb (Z.eqb o) seen); [done|]. cbn [orb]. apply wlp_bind.
  eapply wlp_mono; [|apply flag_spec]. intros [[fl' err']|] s' H; unfold flag_ok in H.
  - destruct H as [-> <-]. apply IH.
  - by rewrite H.
Qed.

Lemma mset_error_settles fl err : settles (Z.to_nat (value_len fl)) (mset_error fl err).
Proof.
  intros s. unfold mset_error. apply wlp_bind. unfold wlp at 1, set_conn, modify. apply wlp_bind.
  set (s1 := set_cn _ s).
  assert (keeps (fun s => (rlbytes (cn s), sbytes (cn s))) (out_errstring err)) as H
    by (apply frame_bind; [by intros ?|intros _; apply out_string_stays]).
  eapply wlp_mono; [|apply H]. intros [] s2 [= _ H2]. by apply settled_swallow.
Qed.

Lemma mset_item_settles key fl comm echo : settles (Z.to_nat (value_len fl)) (mset_item key fl comm echo).
Proof.
  intros s. unfold mset_item. apply wlp_bind. eapply wlp_mono; [|apply alloc_sized]. intros it s1 H1. cbn beta.
  destruct (Z.eqb_spec it 0) as [->|H0]; [do 2 (apply wlp_bind, wlp_any; intros ? ?); apply mset_error_settles|].
  destruct H1 as [?|H1]; [done|]. apply wlp_bind. eapply wlp_mono; [|by apply set_cas_sized]. intros [] s2 H2.
  apply wlp_bind. eapply wlp_mono; [|by apply start_nread_settles]. intros [] s3 H3.
  apply (wlp_keeps (fun s => rlbytes (cn s))); [destruct comm; frame|]. intros _ s4 H4.
  do 4 (apply (wlp_keeps (fun s => rlbytes (cn s))); [frame|]; intros _ ? ?).
  apply settled_nread; [done|]. cbn. congruence.
Qed.

Lemma mset_settles ts : settles (mset_block ts) (process_mset_command ts).
Proof.
  unfold process_mset_command, mset_block. destruct (length ts <? 3)%nat; [settle|]. cbn [orb].
  apply settles_token_key. intros key ->. destruct (KEY_MAX_LENGTH <? key_len ts); [settle|]. cbn [orb].
  destruct (length ts =? 3)%nat; [settle|]. cbn [orb]. destruct (MFLAG_MAX_OPT_LENGTH <? length ts)%nat; [settle|].
  intros s. apply wlp_bind. eapply wlp_mono; [|apply preparse_len]. intros [[ok fl] err] s1 H1. cbn [fst snd] in H1.
  change (value_len no_flags) with 0 in H1. rewrite <- H1.
  destruct ok; [|apply mset_error_settles]. cbn [negb]. apply wlp_bind, wlp_any. intros _ s2.
  destruct (mset_mode fl); [|apply mset_error_settles].
  destruct (echo_tokens key (flag_tokens ts)); [apply mset_item_settles|apply mset_error_settles].
Qed.
#[local] Hint Resolve update_settles mset_settles : settle.

Hypothesis stat_settles : forall ts, settles 0 (process_stat ts).
#[local] Hint Resolve stat_settles : settle.

Lemma want_or_settles (ts : list token_t) a b n m :
  settles n m -> settles (if (length ts =? a)%nat || (length ts =? b)%nat then n else O) (WANT_TOKENS_OR (length ts) a b m).
Proof.
  intros Hm. unfold WANT_TOKENS_OR. destruct (length ts =? a)%nat, (length ts =? b)%nat; cbn [orb andb negb]; [done..|settle].
Qed.

Lemma dispatch_rest_settles name ts : settles (block_rest name ts) (dispatch_rest name ts).
Proof using stat_settles.
  unfold dispatch_rest, block_rest. case_bool_decide; [cbn [orb]; by apply want_or_settles, update_settles|].
  case_bool_decide; [cbn [orb]; by apply want_or_settles, update_settles|]. cbn [orb]. settle.
Qed.

Lemma dispatch_settles name ts : settles (block_named name ts) (dispatch name ts).
Proof using stat_settles.
  unfold dispatch, block_named. destruct (_ && _).
  { unfold dispatch_meta. destruct (Z.eqb_spec (nth 1 name 0) (ch "s")) as [->|]; [apply mset_settles|settle]. }
  destruct (hd 0 name =? ch "g"); [settle|]. destruct (hd 0 name =? ch "s").
  { case_bool_decide; [by apply want_or_settles, update_settles|settle]. }
  destruct (hd 0 name =? ch "a").
  { case_bool_decide; [cbn [orb]; by apply want_or_settles, update_settles|].
    case_bool_decide; [cbn [orb]; by apply want_or_settles, update_settles|settle]. }
  destruct (hd 0 name =? ch "c").
  { case_bool_decide; [by apply want_or_settles, update_settles|settle]. }
  destruct (hd 0 name =? ch "i"); [cbn [orb]; settle|]. destruct (hd 0 name =? ch "d"); [cbn [orb]; settle|].
  destruct (hd 0 name =? ch "t"); [cbn [orb]; settle|]. apply dispatch_rest_settles.
Qed.

Lemma process_command_settles v : settles (block_of v) (process_command v).
Proof using stat_settles.
  unfold process_command, block_of. apply settles_bind. intros ok. destruct ok; cbn [negb].
  - intros s. apply wlp_bind. unfold token. destruct (tokenize_command v MAX_TOKENS !! 0%nat) as [t|]; [|done].
    unfold wlp at 1, ret. destruct (_ || _); [apply out_string_settles|apply dispatch_settles].
  - intros s. by left.
Qed.
End Settles.
