(* ===== verification/McPackets.v ===== *)
(** * memcached: the requests in a stream of bytes of the binary protocol

    The counterpart of McFraming for McBinary: what a binary request leaves alone, and how
    many bytes it makes the connection take behind its header, extra fields and key
    ([bin_block]).  In the binary protocol a value that is refused before anything of it
    was read may have a length of 0 or less, and then the bytes to swallow are those of the
    last time; so that [sbytes] is never left above 0 ([calm]). *)

From Stdlib Require Import String.
From stdpp Require Import gmap.
From S2P Require Import Prelude Wire McText McHash McItem McAssoc McSlabs McItems McDagger McOps McConn McCommands McBinary McMeta McMachine McFraming.

(** ** What is left alone *)
Section Keeps_bin.
Context `{E : Env}.

Lemma grow_loop_keeps n a b c : keeps io (grow_loop n a b c).
Proof. revert a. induction n; intros; cbn [grow_loop]; frame. Qed.
#[local] Hint Resolve grow_loop_keeps : frame.
Lemma append_all_keeps kvs : keeps io (append_all kvs).
Proof. induction kvs; cbn [append_all]; frame. Qed.
Lemma write_bin_error_keeps e t n : keeps io (write_bin_error e t n).
Proof. frame. Qed.
Lemma write_bin_response_keeps d a b c : keeps io (write_bin_response d a b c).
Proof. frame. Qed.
Lemma out_of_memory_keeps v : keeps io (out_of_memory v).
Proof. unfold out_of_memory. apply frame_bind; [frame|]. intros []; [apply out_string_keeps|apply write_bin_error_keeps|apply out_string_keeps]. Qed.
#[local] Hint Resolve append_all_keeps write_bin_error_keeps write_bin_response_keeps out_of_memory_keeps : frame.

Lemma complete_binary_keeps : keeps io complete_nread_binary.
Proof. frame. Qed.
Lemma complete_nread_keeps : keeps io complete_nread.
Proof.
  unfold complete_nread. apply frame_bind; [frame|]. intros []; [apply complete_ascii_keeps|apply complete_binary_keeps|frame].
Qed.

Lemma dispatch_bin_keeps key ext : keeps io (dispatch_bin_command key ext).
Proof. frame. Qed.
End Keeps_bin.

(** ** The bytes to swallow *)
Definition swallows (s : srv) : Z := sbytes (cn s).

(** Outside of a block there is nothing to swallow, unless the connection is given up. *)
Definition spent (s : srv) : Prop := state (cn s) = conn_swallow \/ gone (cn s) = true \/ swallows s <= 0.

Definition calm {A} (m : M srv A) : Prop := forall s, swallows s <= 0 -> wlp m (fun _ => spent) s.

Lemma calm_keeps {A} (m : M srv A) : keeps swallows m -> calm m.
Proof. intros Hm s Hs. eapply wlp_mono; [|apply Hm]. intros a s' H. right. right. cbv beta in H. lia. Qed.
Lemma calm_bind {A B} (m : M srv A) (k : A -> M srv B) : keeps swallows m -> (forall a, calm (k a)) -> calm (bind m k).
Proof. intros Hm Hk s Hs. apply (wlp_keeps swallows); [done|]. intros a s' H. apply Hk. lia. Qed.
Lemma calm_then {A B} (m : M srv A) (k : A -> M srv B) : calm m -> (forall a, keeps phase (k a)) -> calm (bind m k).
Proof.
  intros Hm Hk s Hs. apply wlp_bind. eapply wlp_mono; [|by apply Hm]. intros a s1 H1.
  eapply wlp_mono; [|apply Hk]. intros x s2 [= E1 _ E3 _]. unfold spent, gone, swallows in *. by rewrite E1, E3.
Qed.
(** In the end the bytes are swallowed. *)
Lemma calm_swallow {A} (k : unit -> M srv A) :
  (forall a, keeps (fun s => state (cn s)) (k a)) -> calm (bind (conn_set_state conn_swallow) k).
Proof. intros Hk s _. apply wlp_set_conn. eapply wlp_mono; [|apply Hk]. intros a s' H. left. exact H. Qed.
(** Sequences and cases; what is left is inert. *)
Ltac calm :=
  match goal with
  | |- calm (bind _ _) => apply calm_bind; [solve [frame]|intros ?; calm]
  | |- calm (match ?x with _ => _ end) => destruct x; calm
  | |- calm _ => first [solve [auto with calm] | apply calm_keeps; solve [frame] | idtac]
  end.

Create HintDb calm.

Section Calm.
Context `{E : Env}.

Lemma write_bin_error_swallows e t n : n <= 0 -> keeps swallows (write_bin_error e t n).
Proof. intros Hn. unfold write_bin_error. destruct (Z.ltb_spec 0 n); [lia|]. frame. Qed.
Lemma out_string_swallows v : keeps swallows (out_string v).
Proof. frame. Qed.
Lemma out_of_memory_swallows v : keeps swallows (out_of_memory v).
Proof.
  unfold out_of_memory. apply frame_bind; [frame|].
  intros []; [apply out_string_swallows|by apply write_bin_error_swallows|apply out_string_swallows].
Qed.
Lemma finish_all_swallows rs : keeps swallows (finish_all rs).
Proof. induction rs; cbn [finish_all]; frame. Qed.
#[local] Hint Resolve out_string_swallows out_of_memory_swallows finish_all_swallows : frame.
Lemma get_loop_swallows ts e rc st : keeps swallows (get_loop ts e rc st).
Proof. induction ts as [|t ts IH]; cbn [get_loop]; frame. Qed.
#[local] Hint Resolve get_loop_swallows : frame.
Lemma get_rounds_swallows n ts e rc st : keeps swallows (get_rounds n ts e rc st).
Proof. revert ts. induction n as [|n IH]; intros ts; cbn [get_rounds]; frame. Qed.
Lemma preparse_loop_swallows ts seen fl err : keeps swallows (preparse_loop ts seen fl err).
Proof. revert seen fl err. induction ts as [|t ts IH]; intros; cbn [preparse_loop]; frame. Qed.
Lemma mget_flags_swallows it fl cr ts out won : keeps swallows (mget_flags it fl cr ts out won).
Proof. revert out won. induction ts as [|t ts IH]; intros; cbn [mget_flags]; frame. Qed.
Lemma marith_flags_swallows it fl cr key ts out : keeps swallows (marith_flags it fl cr key ts out).
Proof. revert out. induction ts as [|t ts IH]; intros; cbn [marith_flags]; frame. Qed.
#[local] Hint Resolve get_rounds_swallows preparse_loop_swallows mget_flags_swallows marith_flags_swallows : frame.

(** Of the text protocol. *)
Lemma update_calm ts comm hc : calm (process_update_command ts comm hc).
Proof.
  assert (forall key flags e vlen cas, calm (update_item key flags e vlen cas comm)) as Hitem.
  { intros. unfold update_item. apply calm_bind; [frame|]. intros it. destruct (it =? 0); [|apply calm_keeps; frame].
    apply calm_bind; [frame|]. intros ok. apply calm_bind; [destruct ok; frame|]. intros _. apply calm_swallow. intros _. destruct comm; frame. }
  unfold process_update_command. calm; apply Hitem.
Qed.
Lemma mset_calm ts : calm (process_mset_command ts).
Proof.
  assert (forall fl err, calm (mset_error fl err)) as Herr.
  { intros fl err. unfold mset_error. intros s _. apply wlp_set_conn. do 1 (apply wlp_bind, wlp_any; intros ? ?). by left. }
  assert (forall key fl comm echo, calm (mset_item key fl comm echo)) as Hitem.
  { intros. unfold mset_item. apply calm_bind; [frame|]. intros it. destruct (it =? 0); [|apply calm_keeps; destruct comm; frame].
    do 2 (apply calm_bind; [frame|]; intros ?). apply Herr. }
  unfold process_mset_command. cbv zeta. calm; first [apply Hitem | apply Herr].
Qed.
#[local] Hint Resolve update_calm mset_calm : calm.

Hypothesis stat_swallows : forall ts, keeps swallows (process_stat ts).
#[local] Hint Resolve stat_swallows : frame.

Lemma process_command_calm v : calm (process_command v).
Proof using stat_swallows.
  unfold process_command, dispatch, dispatch_meta, dispatch_rest, WANT_TOKENS_OR, WANT_TOKENS_MIN, WANT_TOKENS.
  cbv zeta. calm.
Qed.
End Calm.

(** ** The block behind a request *)

(** The length of the value of a request that is dispatched as [cmd]. *)
Definition bin_block_of (h : request_header) (cmd : Z) : Z :=
  let one_of (l : list Z) := existsb (Z.eqb cmd) l in
  if one_of [CMD_SET; CMD_ADD; CMD_REPLACE] then
    if (extlen h =? 8) && negb (keylen h =? 0) && (keylen h + 8 <=? bodylen h) then i32 (bodylen h - (keylen h + extlen h)) else 0
  else if one_of [CMD_APPEND; CMD_PREPEND] then
    if (0 <? keylen h) && (extlen h =? 0) then i32 (bodylen h - keylen h) else 0
  else if one_of [CMD_SASL_AUTH; CMD_SASL_STEP] then
    if (extlen h =? 0) && negb (keylen h =? 0) then i32 (bodylen h - keylen h) else 0
  else if one_of [CMD_VERSION; CMD_FLUSH; CMD_NOOP; CMD_GETQ; CMD_GET; CMD_GETKQ; CMD_GETK; CMD_DELETE; CMD_INCREMENT;
                  CMD_DECREMENT; CMD_STAT; CMD_QUIT; CMD_SASL_LIST_MECHS; CMD_TOUCH; CMD_GAT; CMD_GATQ; CMD_GATK; CMD_GATKQ] then 0
  else i32 (bodylen h).

(** The bytes that are taken behind the header, the extra fields and the key. *)
Definition bin_block (h : request_header) : nat :=
  if (bodylen h <? keylen h) || (bodylen h <? keylen h + extlen h) || (KEY_MAX_LENGTH <? keylen h) then O
  else Z.to_nat (bin_block_of h (default (opcode h) (loud (opcode h)))).

Section Settles_bin.
Context `{E : Env}.

(** From a state without bytes to swallow. *)
Definition settles_from {A} (b : nat) (m : M srv A) : Prop :=
  forall s, swallows s <= 0 -> wlp m (fun _ s' => settled b (cn s')) s.

Lemma settles_any {A} b (m : M srv A) : settles b m -> settles_from b m.
Proof. intros H s _. apply H. Qed.

Lemma from_bind {A B} b (m : M srv A) (k : A -> M srv B) :
  keeps swallows m -> (forall a, settles_from b (k a)) -> settles_from b (bind m k).
Proof. intros Hm Hk s Hs. apply (wlp_keeps swallows); [done|]. intros a s' H. apply Hk. lia. Qed.

Lemma bin_error_settles e t : settles 0 (write_bin_error e t 0).
Proof. apply (write_bin_error_settles e t 0). Qed.
Lemma bin_response_settles d a b c : settles 0 (write_bin_response d a b c).
Proof. settle. Qed.
#[local] Hint Resolve bin_error_settles bin_response_settles out_of_memory_settles : settle.

Lemma send_stats_settles v : settles 0 (send_stats v).
Proof. unfold send_stats. apply settles_bind. intros [buf|]; [|settle]. apply settles_bind. intros _. settle. Qed.
#[local] Hint Resolve send_stats_settles : settle.

Lemma refused_settles key flags vlen (m : M srv unit) :
  keeps swallows m -> settles_from (Z.to_nat vlen) (refuse_value key flags vlen ;; m ;; conn_set_state conn_swallow).
Proof.
  intros Hm s Hs. unfold refuse_value. apply wlp_assoc, wlp_gets.
  assert (forall s', Z.to_nat (swallows s') = Z.to_nat vlen ->
    wlp (m ;; conn_set_state conn_swallow) (fun _ s'' => settled (Z.to_nat vlen) (cn s'')) s') as Hend.
  { intros s' H'. apply (wlp_keeps swallows); [done|]. intros _ s2 H2. right. split; [done|].
    change (Z.to_nat (swallows s2) = Z.to_nat vlen). by rewrite H2. }
  destruct (negb _).
  - destruct (Z.ltb_spec 0 vlen) as [Hv|Hv].
    + unfold write_bin_error. apply wlp_assoc, wlp_bind, wlp_any. intros _ s1. apply wlp_assoc, wlp_bind, wlp_any. intros _ s2.
      rewrite (proj2 (Z.ltb_lt 0 vlen) Hv). apply wlp_assoc, wlp_set_conn, wlp_set_conn. by apply Hend.
    + apply (wlp_keeps swallows); [by apply write_bin_error_swallows|]. intros _ s1 H1. apply Hend. lia.
  - apply wlp_assoc, wlp_bind, wlp_any. intros _ s1. apply wlp_set_conn. by apply Hend.
Qed.

Lemma start_value_settles it vlen comm : settles (Z.to_nat vlen) (start_value it vlen comm).
Proof.
  unfold start_value. do 2 (apply settles_bind; intros ?). intros s. apply wlp_set_conn, wlp_set_conn.
  by apply settled_nread.
Qed.

(** Where the header of the connection is [h]. *)
Definition settles_at (h : request_header) (b : nat) (m : M srv unit) : Prop :=
  forall s, binary_header (cn s) = h -> swallows s <= 0 -> wlp m (fun _ s' => settled b (cn s')) s.

Lemma at_any h b m : settles b m -> settles_at h b m.
Proof. intros H s _ _. apply H. Qed.

Lemma append_bin_settles key h :
  settles_at h (Z.to_nat (i32 (bodylen h - keylen h))) (process_bin_append_prepend key).
Proof.
  intros s Hh Hs. unfold process_bin_append_prepend. apply wlp_gets. rewrite Hh. cbv zeta.
  apply (wlp_keeps swallows); [frame|]. intros it s1 H1. destruct (it =? 0).
  - apply (refused_settles key 0 _ (ret tt)); [frame|lia].
  - apply wlp_bind, wlp_any. intros _ s2. apply start_value_settles.
Qed.

Lemma update_bin_settles key ext h :
  settles_at h (Z.to_nat (i32 (bodylen h - (keylen h + extlen h)))) (process_bin_update key ext).
Proof.
  intros s Hh Hs. unfold process_bin_update. apply wlp_gets. rewrite Hh. cbv zeta.
  do 2 (apply (wlp_keeps swallows); [frame|]; intros ? ? ?). destruct (_ =? 0).
  - apply refused_settles; [destruct (_ =? _); frame|lia].
  - do 2 (apply wlp_bind, wlp_any; intros ? ?). apply start_value_settles.
Qed.

Lemma stat_bin_settles key : settles 0 (process_bin_stat key).
Proof. unfold process_bin_stat, end_stats. settle. Qed.
Lemma protocol_error_settles : settles 0 handle_binary_protocol_error.
Proof. settle. Qed.

Lemma want_settles h n (ok : bool) m :
  settles_at h (Z.to_nat n) m -> settles_at h (Z.to_nat (if ok then n else 0)) (if ok then m else handle_binary_protocol_error).
Proof. intros Hm. destruct ok; [done|]. apply at_any, protocol_error_settles. Qed.

Lemma want_settles_0 h (ok : bool) m : settles 0 m -> settles_at h 0 (if ok then m else handle_binary_protocol_error).
Proof. intros Hm. apply at_any. destruct ok; [done|apply protocol_error_settles]. Qed.

(** A command without a value. *)
Ltac plain cmd c := destruct (Z.eqb_spec cmd c) as [->|]; [apply want_settles_0; settle|].

Lemma dispatch_known_settles h key ext cmd : settles_at h (Z.to_nat (bin_block_of h cmd)) (dispatch_known h key ext cmd).
Proof.
  unfold dispatch_known. cbv zeta. cbn [existsb].
  plain cmd CMD_VERSION. plain cmd CMD_FLUSH. plain cmd CMD_NOOP.
  destruct (Z.eqb_spec cmd CMD_SET) as [->|]; [apply want_settles, update_bin_settles|].
  destruct (Z.eqb_spec cmd CMD_ADD) as [->|]; [apply want_settles, update_bin_settles|].
  destruct (Z.eqb_spec cmd CMD_REPLACE) as [->|]; [apply want_settles, update_bin_settles|]. cbn [orb].
  plain cmd CMD_GETQ. plain cmd CMD_GET. plain cmd CMD_GETKQ. plain cmd CMD_GETK. cbn [orb].
  plain cmd CMD_DELETE. plain cmd CMD_INCREMENT. plain cmd CMD_DECREMENT. cbn [orb].
  destruct (Z.eqb_spec cmd CMD_APPEND) as [->|]; [apply want_settles, append_bin_settles|].
  destruct (Z.eqb_spec cmd CMD_PREPEND) as [->|]; [apply want_settles, append_bin_settles|]. cbn [orb].
  destruct (Z.eqb_spec cmd CMD_STAT) as [->|]; [apply want_settles_0, stat_bin_settles|].
  plain cmd CMD_QUIT.
  destruct (Z.eqb_spec cmd CMD_SASL_LIST_MECHS) as [->|].
  { destruct (_ && _) eqn:Eb; [|apply at_any, protocol_error_settles]. apply at_any. change (Z.to_nat _) with 0%nat.
    apply andb_true_iff in Eb as [Eb E3]. apply andb_true_iff in Eb as [_ E2]. apply Z.eqb_eq in E2, E3.
    unfold refuse_sasl. rewrite E2, E3. apply bin_error_settles. }
  destruct (Z.eqb_spec cmd CMD_SASL_AUTH) as [->|]; [apply want_settles, at_any, write_bin_error_settles|].
  destruct (Z.eqb_spec cmd CMD_SASL_STEP) as [->|]; [apply want_settles, at_any, write_bin_error_settles|]. cbn [orb].
  plain cmd CMD_TOUCH. plain cmd CMD_GAT. plain cmd CMD_GATQ. plain cmd CMD_GATK. plain cmd CMD_GATKQ. cbn [orb].
  unfold bin_block_of. cbn [existsb]. rewrite !(proj2 (Z.eqb_neq cmd _)) by done. apply at_any, write_bin_error_settles.
Qed.

Lemma dispatch_bin_settles h key ext s :
  binary_header (cn s) = h -> bcmd (cn s) = opcode h -> swallows s <= 0 ->
  wlp (dispatch_bin_command key ext) (fun _ s' => settled (bin_block h) (cn s')) s.
Proof.
  intros Hh Hc Hs. unfold dispatch_bin_command, bin_block. apply wlp_get_conn. rewrite Hh.
  destruct ((bodylen h <? keylen h) || _); cbn [orb].
  { refine ((_ : settles 0 _) s). apply settles_then; [apply bin_error_settles|intros ?; frame]. }
  apply wlp_set_conn. destruct (_ <? keylen h); [apply protocol_error_settles|].
  apply wlp_get_conn. change (bcmd (cn (set_cn _ s))) with (bcmd (cn s)). rewrite Hc.
  destruct (loud (opcode h)) as [cmd|]; apply wlp_set_conn; by apply dispatch_known_settles.
Qed.

Lemma complete_binary_settles : settles 0 complete_nread_binary.
Proof.
  unfold complete_nread_binary. apply settles_bind. intros []; [settle|]. unfold complete_update_bin.
  do 4 (apply settles_bind; intros ?). case_match. apply settles_bind. intros _.
  apply settles_then; [|intros ?; frame]. unfold update_status. case_match; settle.
Qed.

(** ** The bytes to swallow after a request *)
Lemma bin_error_swallows e t : keeps swallows (write_bin_error e t 0).
Proof. by apply write_bin_error_swallows. Qed.
Lemma grow_loop_swallows n a b c : keeps swallows (grow_loop n a b c).
Proof. revert a. induction n; intros; cbn [grow_loop]; frame. Qed.
#[local] Hint Resolve bin_error_swallows grow_loop_swallows out_string_swallows out_of_memory_swallows : frame.
Lemma append_all_swallows kvs : keeps swallows (append_all kvs).
Proof. induction kvs; cbn [append_all]; frame. Qed.
#[local] Hint Resolve append_all_swallows : frame.

Lemma complete_swallows : keeps swallows complete_nread.
Proof. frame. Qed.

Lemma write_bin_error_calm e t n : calm (write_bin_error e t n).
Proof.
  destruct (Z.leb_spec n 0); [by apply calm_keeps, write_bin_error_swallows|]. intros s _. unfold write_bin_error.
  do 2 (apply wlp_bind, wlp_any; intros ? ?). rewrite (proj2 (Z.ltb_lt 0 n)) by lia. by left.
Qed.
Lemma process_bin_update_calm key ext : calm (process_bin_update key ext).
Proof.
  unfold process_bin_update. do 3 (apply calm_bind; [frame|]; intros ?). destruct (_ =? 0); [|apply calm_keeps; frame].
  intros s _. do 2 (apply wlp_bind, wlp_any; intros ? ?). by left.
Qed.
Lemma process_bin_append_calm key : calm (process_bin_append_prepend key).
Proof.
  unfold process_bin_append_prepend. do 2 (apply calm_bind; [frame|]; intros ?). destruct (_ =? 0); [|apply calm_keeps; frame].
  intros s _. apply wlp_bind, wlp_any; intros ? ?. by left.
Qed.
#[local] Hint Resolve write_bin_error_calm process_bin_update_calm process_bin_append_calm : calm.

Lemma dispatch_bin_calm key ext : calm (dispatch_bin_command key ext).
Proof. unfold dispatch_bin_command, dispatch_known, refuse_sasl. cbv zeta. calm. Qed.
End Settles_bin.
