(* ===== verification/McStream.v ===== *)
(** * memcached: a connection executes the commands of its stream

    [drive_machine] against the stream of bytes: however the stream arrives, the commands
    that are executed are the first ones of [commands_of] the stream.  The proof is a
    simulation: what is left of the input, behind the block that the connection waits for,
    begins with the command that the next round executes ([future]). *)

From Stdlib Require Import String.
From stdpp Require Import gmap.
From S2P Require Import Prelude Wire McText McHash McItem McAssoc McSlabs McItems McDagger McOps McConn McCommands McBinary McMeta McMachine McFraming McPackets.

(** ** The commands of a stream *)

(** The first byte of a stream tells the protocol. *)
Definition resolve (p : protocol_t) (s : list Z) : protocol_t :=
  match p with
  | negotiating_prot => if hd 0 s =? PROTOCOL_BINARY_REQ then binary_prot else ascii_prot
  | _ => p
  end.

(** The line or the request without its value that the stream begins with, and the number
    of bytes it takes up with what belongs to it. *)
Definition next_line (s : list Z) : option (list Z * nat) :=
  match find_newline s with
  | None => None
  | Some k => let c := command_of (take k s) in Some (c, (S k + block_of c)%nat)
  end.

Definition next_packet (s : list Z) : option (list Z * nat) :=
  let rbytes := Z.of_nat (length s) in
  let h := header_of s in
  let n := keylen h + extlen h + sizeof_header in
  if (rbytes <? sizeof_header) || negb (magic h =? PROTOCOL_BINARY_REQ) || (rbytes <? n) then None
  else Some (take (Z.to_nat n) s, (Z.to_nat n + bin_block h)%nat).

Definition next_command (p : protocol_t) (s : list Z) : option (list Z * nat) :=
  match resolve p s with binary_prot => next_packet s | _ => next_line s end.

Fixpoint commands_in (n : nat) (p : protocol_t) (s : list Z) : list (list Z) :=
  match n with
  | O => []
  | S n' =>
      match next_command p s with
      | None => []
      | Some (c, len) => c :: commands_in n' (resolve p s) (drop len s)
      end
  end.

Definition commands_of (p : protocol_t) (s : list Z) : list (list Z) := commands_in (S (length s)) p s.

Lemma resolve_app p a b : a <> [] -> resolve p (a ++ b) = resolve p a.
Proof. intros Ha. destruct a; [done|]. by destruct p. Qed.
Lemma resolve_resolve p s s' : resolve (resolve p s) s' = resolve p s.
Proof. unfold resolve. destruct p; [done..|]. by destruct (_ =? _). Qed.

Lemma find_newline_app a b k : find_newline a = Some k -> find_newline (a ++ b) = Some k /\ (k < length a)%nat.
Proof.
  revert k. induction a as [|x a IH]; intros k; [done|]. cbn. case_match; [intros [= <-]; split; [done|lia]|].
  destruct (find_newline a) as [k'|]; [|done]. intros [= <-]. destruct (IH k' eq_refl) as [-> ?]. split; [done|lia].
Qed.

(** The header is in the first 24 bytes. *)
Lemma header_of_app a b : (24 <= length a)%nat -> header_of (a ++ b) = header_of a.
Proof.
  intros Ha. unfold header_of, be_at, slice. rewrite !app_nth1 by lia.
  assert (forall off n, (off + n <= 24)%nat -> take n (drop off (a ++ b)) = take n (drop off a)) as H.
  { intros off n Hn. rewrite drop_app_le, take_app_le; [done|rewrite length_drop; lia|lia]. }
  by rewrite !H by lia.
Qed.
Lemma header_of_take n s : (24 <= n)%nat -> (24 <= length s)%nat -> header_of (take n s) = header_of s.
Proof. intros Hn Hs. rewrite <- (take_drop n s) at 2. rewrite header_of_app; [done|rewrite length_take; lia]. Qed.

(** Where a packet ends. *)
Lemma next_packet_inv s c len : next_packet s = Some (c, len) ->
  let h := header_of s in let n := Z.to_nat (keylen h + extlen h + sizeof_header) in
  c = take n s /\ len = (n + bin_block h)%nat /\ (24 <= n <= length s)%nat /\ magic h = PROTOCOL_BINARY_REQ.
Proof.
  unfold next_packet. cbv zeta. destruct (_ || _) eqn:Eb; [done|]. intros [= <- <-].
  apply orb_false_iff in Eb as [Eb E3]. apply orb_false_iff in Eb as [E1 E2].
  apply Z.ltb_ge in E1, E3. apply negb_false_iff, Z.eqb_eq in E2.
  assert (0 <= keylen (header_of s)) by (apply (wrap_range 16); lia). assert (0 <= extlen (header_of s)) by (apply (wrap_range 8); lia).
  unfold sizeof_header in *. split_and!; [done|done|lia|lia|done].
Qed.

Lemma next_packet_app a b x : next_packet a = Some x -> next_packet (a ++ b) = Some x.
Proof.
  destruct x as [c len]. intros H. pose proof (next_packet_inv _ _ _ H) as (-> & -> & Hn & Hm). revert H.
  unfold next_packet. cbv zeta. rewrite header_of_app, length_app, take_app_le by lia.
  destruct (_ || _) eqn:Eb; [done|]. intros _. apply orb_false_iff in Eb as [Eb E3]. apply orb_false_iff in Eb as [E1 ->].
  apply Z.ltb_ge in E1, E3. rewrite !(proj2 (Z.ltb_ge _ _)) by lia. done.
Qed.

Lemma next_line_app a b x : next_line a = Some x -> next_line (a ++ b) = Some x.
Proof.
  unfold next_line. destruct (find_newline a) as [k|] eqn:Ek; [|done]. destruct (find_newline_app a b k Ek) as [-> Hk].
  by rewrite take_app_le by lia.
Qed.

Lemma next_command_app p a b x : next_command p a = Some x -> next_command p (a ++ b) = Some x.
Proof.
  unfold next_command. destruct a as [|z a].
  - unfold next_line, next_packet. cbn. by destruct (resolve p []).
  - rewrite resolve_app by done. destruct (resolve p (z :: a)); first [apply next_line_app|apply next_packet_app].
Qed.

(** A command takes up bytes, and those of its line or packet are there. *)
Lemma next_command_length p s c len : next_command p s = Some (c, len) -> (0 < len)%nat /\ s <> [].
Proof.
  unfold next_command. destruct (resolve p s).
  2: intros (_ & -> & Hn & _)%next_packet_inv; split; [lia|destruct s; [cbn in Hn; lia|done]].
  all: unfold next_line; destruct (find_newline s) eqn:Ek; [|done]; intros [= <- <-]; split; [lia|by destruct s].
Qed.

Lemma next_command_resolve p s : next_command (resolve p s) s = next_command p s.
Proof. unfold next_command. by rewrite resolve_resolve. Qed.

Lemma commands_fuel n m p s : (length s < n)%nat -> (length s < m)%nat -> commands_in n p s = commands_in m p s.
Proof.
  revert m p s. induction n as [|n IH]; intros [|m] p s Hn Hm; [lia..|]. cbn [commands_in].
  destruct (next_command p s) as [[c len]|] eqn:Ek; [|done]. destruct (next_command_length _ _ _ _ Ek) as [Hl Hs]. f_equal.
  destruct s as [|x s]; [done|]. apply IH; rewrite length_drop; cbn [length] in *; lia.
Qed.

Lemma commands_step p s :
  commands_of p s =
  match next_command p s with
  | None => []
  | Some (c, len) => c :: commands_of (resolve p s) (drop len s)
  end.
Proof.
  unfold commands_of at 1. cbn [commands_in]. destruct (next_command p s) as [[c len]|] eqn:Ek; [|done].
  destruct (next_command_length _ _ _ _ Ek) as [Hl Hs]. f_equal.
  destruct s as [|x s]; [done|]. apply commands_fuel; rewrite length_drop; cbn [length]; lia.
Qed.

Lemma commands_resolve p s : commands_of (resolve p s) s = commands_of p s.
Proof. by rewrite !commands_step, next_command_resolve, resolve_resolve. Qed.

(** ** The input of a connection *)

(** The bytes that are still to be read. *)
Fixpoint arriving (ins : list rd) : list Z :=
  match ins with
  | RdData bs :: ins' => bs ++ arriving ins'
  | _ :: ins' => arriving ins'
  | [] => []
  end.

Definition pending (s : srv) : list Z := unread (cn s) ++ arriving (incoming s).

(** The commands that are left in the input. *)
Definition future (s : srv) : list (list Z) := commands_of (protocol (cn s)) (drop (demand (cn s)) (pending s)).

(** The command that the next round executes. *)
Definition command_at (s : srv) : list (list Z) :=
  match state (cn s) with
  | conn_parse_cmd =>
      match next_command (protocol (cn s)) (unread (cn s)) with
      | Some (c, _) => [c]
      | None => []
      end
  | _ => []
  end.

Lemma command_first s : exists rest, future s = command_at s ++ rest.
Proof.
  unfold command_at. destruct (state (cn s)) eqn:Es; try by eexists.
  destruct (next_command _ (unread (cn s))) as [[c len]|] eqn:Ek; [|by eexists].
  unfold future, demand, pending. rewrite Es, drop_0, commands_step, (next_command_app _ _ _ _ Ek). by eexists.
Qed.

(** A connection that waits has no responses to send. *)
Definition quiet (s : srv) : Prop := waits (cn s) = true -> resps (cn s) = [].

(** Between the rounds. *)
Definition orderly (s : srv) : Prop := quiet s /\ spent s.

(** What a round keeps. *)
Definition advances (s s' : srv) : Prop :=
  quiet s' /\ (gone (cn s') = true \/ future s = command_at s ++ future s').

Section Stream.
Context `{E : Env}.
Hypothesis stat_keeps : forall ts, keeps io (process_stat ts).
Hypothesis stat_settles : forall ts, settles 0 (process_stat ts).
Hypothesis stat_swallows : forall ts, keeps swallows (process_stat ts).

Lemma read_pending n s :
  wlp (tcp_read n) (fun '(res, bs) s' => cn s' = cn s /\ arriving (incoming s) = bs ++ arriving (incoming s') /\
                      (res = Z.of_nat (length bs) \/ bs = [] /\ res = -1) /\ (Z.of_nat (length bs) <= Z.max 0 n)) s.
Proof.
  unfold tcp_read. apply wlp_bind. unfold wlp at 1, gets. destruct (incoming s) as [|[bs| | |] ins] eqn:Ei.
  - cbn. rewrite Ei. split_and!; auto; lia.
  - cbn. split; [done|]. split; [|split; [by left|rewrite length_take; lia]]. rewrite <- (take_drop (Z.to_nat n) bs) at 1.
    rewrite <- (assoc_L (++)). f_equal. by destruct (drop (Z.to_nat n) bs).
  - cbn. rewrite Ei. split_and!; auto; lia.
  - cbn. split_and!; auto; lia.
  - cbn. split_and!; auto; lia.
Qed.

(** ** Rounds that do not read *)
Lemma advances_eat s s' bs :
  command_at s = [] -> quiet s' -> protocol (cn s') = protocol (cn s) -> pending s = bs ++ pending s' ->
  demand (cn s) = (length bs + demand (cn s'))%nat -> advances s s'.
Proof.
  intros Hc Hq Hpr Hp Hd. split; [done|]. right. rewrite Hc. unfold future. rewrite Hpr, Hp, Hd.
  rewrite <- drop_drop, drop_app_length. done.
Qed.

Lemma advances_same s s' :
  command_at s = [] -> quiet s' -> protocol (cn s') = protocol (cn s) -> pending s' = pending s ->
  demand (cn s) = demand (cn s') -> advances s s'.
Proof. intros Hc Hq Hpr Hp Hd. by apply (advances_eat s s' []). Qed.

Lemma advances_gone s s' : gone (cn s') = true -> advances s s'.
Proof. intros H. split; [|by left]. unfold quiet, waits. unfold gone in H. by destruct (state (cn s')). Qed.

(** The input, the protocol and the responses. *)
Definition backlog (s : srv) : list rd * list Z * list mc_resp * protocol_t :=
  (incoming s, unread (cn s), resps (cn s), protocol (cn s)).

Lemma backlog_pending s s' : backlog s' = backlog s -> pending s' = pending s.
Proof. intros [= H1 H2 _ _]. unfold pending. by rewrite H1, H2. Qed.

Lemma backlog_resps s s' : backlog s' = backlog s -> resps (cn s') = resps (cn s).
Proof. by intros [= _ _ H _]. Qed.

Lemma backlog_protocol s s' : backlog s' = backlog s -> protocol (cn s') = protocol (cn s).
Proof. by intros [= _ _ _ H]. Qed.

Lemma waiting_advances s : state (cn s) = conn_waiting -> quiet s -> wlp step_waiting (fun _ => advances s) s.
Proof.
  intros Es Hq. unfold step_waiting. apply (wlp_keeps backlog); [frame|]. intros _ s1 H1.
  apply (wlp_keeps backlog); [frame|]. intros ok s2 H2. assert (backlog s2 = backlog s) as Hb by congruence.
  destruct ok; [|by apply advances_gone]. apply wlp_set_conn, wlp_ret, advances_same.
  - unfold command_at. by rewrite Es.
  - intros _. change (resps (cn s2) = []). rewrite (backlog_resps _ _ Hb). apply Hq. unfold waits. by rewrite Es.
  - by apply (backlog_protocol s s2).
  - by apply backlog_pending.
  - unfold demand. by rewrite Es.
Qed.

(** The state stays the same. *)
Lemma advances_stay s s' :
  command_at s = [] -> waits (cn s) = false -> (backlog s', phase s') = (backlog s, phase s) -> advances s s'.
Proof.
  intros Hc Hw [= H1 H2 H3 H4 H5 H6 H7]. apply advances_same; [done| |done| |].
  - unfold quiet, waits in *. by rewrite H5, Hw.
  - unfold pending. by rewrite H1, H2.
  - unfold demand. by rewrite H5, H6, H7.
Qed.

Lemma new_cmd_advances nreqs s : state (cn s) = conn_new_cmd -> wlp (step_new_cmd nreqs) (fun _ => advances s) s.
Proof.
  intros Es. assert (command_at s = []) as Hc by (unfold command_at; by rewrite Es).
  assert (demand (cn s) = O) as Hd by (unfold demand; by rewrite Es).
  assert (waits (cn s) = false) as Hw by (unfold waits; by rewrite Es).
  unfold step_new_cmd. destruct (0 <=? nreqs).
  - unfold reset_cmd_handler. apply wlp_assoc, (wlp_keeps backlog); [frame|]. intros _ s1 H1.
    apply wlp_assoc, (wlp_keeps backlog); [frame|]. intros it s2 H2.
    apply wlp_assoc, (wlp_keeps backlog); [frame|]. intros _ s3 H3. apply wlp_assoc, wlp_gets.
    assert (backlog s3 = backlog s) as Hb by congruence.
    destruct (unread (cn s3)), (resps (cn s3)) eqn:Er; cbn [length Nat.ltb Nat.leb]; apply wlp_set_conn, wlp_ret;
      (apply advances_same; [done| |by apply (backlog_protocol s s3)|by apply backlog_pending|done]); by intros ?.
  - apply wlp_gets. destruct (0 <? length (resps (cn s)))%nat; [apply wlp_set_conn, wlp_ret; by apply advances_same|].
    destruct (0 <? length (unread (cn s)))%nat; [|by apply wlp_ret, advances_stay].
    apply (wlp_keeps (fun s => (backlog s, phase s))); [frame|]. intros ok s1 H1.
    destruct ok; [by apply wlp_ret, advances_stay|by apply advances_gone].
Qed.

(** The input, and where the connection is. *)
Definition position (s : srv) : list rd * list Z * (conn_states * Z * Z * protocol_t) := (incoming s, unread (cn s), phase s).

Lemma post_position rs res : keeps position (_transmit_post rs res).
Proof. revert res. induction rs as [|r rs IH]; intros res; cbn [_transmit_post]; frame. Qed.
Lemma finish_position rs : keeps (fun s => (incoming s, unread (cn s), protocol (cn s))) (finish_all rs).
Proof. induction rs as [|r rs IH]; cbn [finish_all]; frame. Qed.
#[local] Hint Resolve post_position finish_position : frame.

Lemma transmit_position s :
  wlp transmit (fun r s' => match r with TRANSMIT_HARD_ERROR => gone (cn s') = true | _ => position s' = position s end) s.
Proof.
  unfold transmit. do 3 (apply (wlp_keeps position); [frame|]; intros ? ? ?).
  destruct (_ <=? _).
  - apply (wlp_keeps position); [frame|]; intros _ s4 H4; apply wlp_get_conn, wlp_ret.
    destruct (_ <? _)%nat; congruence.
  - apply wlp_gets. destruct (_ =? _); [|done]. apply (wlp_keeps position); [frame|]. intros [] s4 H4; [apply wlp_ret; congruence|done].
Qed.

Lemma write_advances s :
  state (cn s) = conn_write \/ state (cn s) = conn_mwrite -> wlp step_write (fun _ => advances s) s.
Proof.
  intros Es. assert (command_at s = []) as Hc by (unfold command_at; by destruct Es as [-> | ->]).
  assert (demand (cn s) = O) as Hd by (unfold demand; by destruct Es as [-> | ->]).
  assert (forall s', position s' = position s -> advances s s') as Hstay.
  { intros s' [= H1 H2 H3 H4 H5 H6]. apply advances_same; [done| |done| |].
    - unfold quiet, waits. rewrite H3. by destruct Es as [-> | ->].
    - unfold pending. by rewrite H1, H2.
    - unfold demand. by rewrite H3, H4, H5. }
  unfold step_write. apply wlp_get_conn, wlp_bind. eapply wlp_mono; [|apply transmit_position]. intros r s1 H1.
  destruct r; [|by apply Hstay|by apply Hstay|by apply advances_gone].
  case_bool_decide as Hst; [|by apply advances_gone].
  apply wlp_assoc, (wlp_keeps (fun s => (incoming s, unread (cn s), protocol (cn s)))); [frame|]. intros _ s2 [= H2 H3 Hpr].
  injection H1 as H4 H5 _ _ _ H6. apply wlp_assoc, wlp_set_conn, wlp_assoc, wlp_get_conn, wlp_bind.
  destruct (close_after_write _); [by apply advances_gone|]. apply wlp_ret, advances_same; [done|done|cbn; congruence| |done].
  unfold pending. cbn. by rewrite H2, H3, H4, H5.
Qed.

Lemma close_gone s : wlp conn_close (fun _ s' => gone (cn s') = true) s.
Proof. unfold conn_close. do 4 (apply wlp_bind, wlp_any; intros ? ?). done. Qed.

(** ** Rounds that read *)
Lemma reset_fault s : resps (cn s) = [] -> resp_reset s = Fault.
Proof. intros H. unfold resp_reset, get_resp, get_conn, gets, bind. by rewrite H. Qed.
Lemma out_of_memory_fault v s : resps (cn s) = [] -> out_of_memory v s = Fault.
Proof.
  intros H. unfold out_of_memory, write_bin_error, add_bin_header, out_string, get_conn, gets. unfold bind at 1.
  destruct (protocol (cn s)); unfold bind; by rewrite reset_fault.
Qed.

Lemma read_loop_pending n k got s :
  resps (cn s) = [] ->
  wlp (read_loop n k got) (fun r s' => pending s' = pending s /\ resps (cn s') = [] /\
                             (got <> READ_MEMORY_ERROR -> r <> READ_MEMORY_ERROR)) s.
Proof.
  revert k got s. induction n as [|n IH]; intros k got s Hr; cbn [read_loop]; [done|]. apply wlp_gets.
  set (full := _ && rbuf_malloced (cn s)). destruct (full && (k =? 4)); [apply wlp_ret; auto|].
  apply (wlp_keeps backlog); [frame|]. intros ok s1 H1. assert (resps (cn s1) = []) as Hr1 by by rewrite (backlog_resps _ _ H1).
  pose proof (backlog_pending _ _ H1) as Hp1.
  destruct ok; cbn [negb]; [|apply wlp_set_conn; apply wlp_bind; unfold wlp at 1; by rewrite out_of_memory_fault].
  apply (wlp_keeps backlog); [frame|]. intros _ s2 H2. apply wlp_gets. set (avail := _ - _).
  assert (resps (cn s2) = []) as Hr2 by by rewrite (backlog_resps _ _ H2). pose proof (backlog_pending _ _ H2) as Hp2.
  apply wlp_bind. eapply wlp_mono; [|apply read_pending]. intros [res bs] s3 (E3 & A3 & Hres & _).
  destruct (Z.ltb_spec 0 res).
  - apply wlp_set_conn. set (s4 := set_cn _ s3).
    assert (pending s4 = pending s) as Hp4.
    { rewrite <- Hp1, <- Hp2. unfold s4, pending. cbn. by rewrite A3, <- (assoc_L (++)). }
    assert (resps (cn s4) = []) as Hr4 by (unfold s4; cbn; by rewrite E3).
    destruct ((res =? avail) && _); [|apply wlp_ret; naive_solver]. eapply wlp_mono; [|by apply IH]. intros r s5 (Hp5 & Hr5 & Hm5).
    split_and!; [congruence|done|]. intros _. by apply Hm5.
  - assert (pending s3 = pending s) as Hp3.
    { rewrite <- Hp1, <- Hp2. unfold pending. rewrite E3, A3. destruct Hres as [->|[-> _]]; [|done]. by destruct bs. }
    assert (resps (cn s3) = []) as Hr3 by (by rewrite E3).
    destruct (res =? 0); [apply wlp_ret; naive_solver|]. apply wlp_gets, wlp_ret. split_and!; [done..|]. by destruct (_ =? _).
Qed.

Lemma read_loop_protocol n k got : keeps (fun s => protocol (cn s)) (read_loop n k got).
Proof. revert k got. induction n as [|n IH]; intros k got; cbn [read_loop]; frame. Qed.

Lemma read_advances s : state (cn s) = conn_read -> quiet s -> wlp step_read (fun _ => advances s) s.
Proof.
  intros Es Hq. assert (resps (cn s) = []) as Hr by (apply Hq; unfold waits; by rewrite Es).
  assert (command_at s = []) as Hc by (unfold command_at; by rewrite Es).
  assert (demand (cn s) = O) as Hd by (unfold demand; by rewrite Es).
  unfold step_read. apply (wlp_keeps backlog); [frame|]. intros ok s1 H1. destruct ok; [|by apply advances_gone].
  cbn [negb]. unfold try_read_network. apply wlp_assoc, wlp_assoc, (wlp_keeps backlog); [frame|]. intros _ s2 H2.
  assert (resps (cn s2) = []) as Hr2 by by rewrite (backlog_resps _ _ H2), (backlog_resps _ _ H1).
  apply wlp_bind. eapply wlp_mono; [|apply wlp_and; [by apply read_loop_pending|apply read_loop_protocol]].
  intros r s3 ((Hp3 & Hr3 & Hm) & Hpr). cbv beta in Hpr.
  assert (pending s3 = pending s) as Hp by (rewrite Hp3; apply backlog_pending; congruence).
  assert (protocol (cn s3) = protocol (cn s)) as Hpr3 by (rewrite Hpr; apply backlog_protocol; congruence).
  destruct r; [..|by destruct Hm]; apply wlp_set_conn; try (by apply advances_gone);
    (apply wlp_ret, advances_same; [done|by intros ?|done|done|done]).
Qed.

(** What reading a command from the buffer leads to: more data is needed, or the command was
    executed, and what is left of the input is what comes behind it. *)
Definition reads_command (s : srv) (r : bool) (s' : srv) : Prop :=
  r = true /\ gone (cn s') = true \/
  protocol (cn s') = resolve (protocol (cn s)) (pending s) /\
  match next_command (protocol (cn s)) (unread (cn s)) with
  | None => r = false /\ pending s' = pending s
  | Some (_, len) => r = true /\ waits (cn s') = false /\ drop (demand (cn s')) (pending s') = drop len (pending s)
  end.

Lemma ascii_reads s : protocol (cn s) = ascii_prot -> wlp try_read_command_ascii (reads_command s) s.
Proof using stat_keeps stat_settles.
  intros Ep. unfold try_read_command_ascii. apply wlp_gets.
  assert (forall s', find_newline (unread (cn s)) = None -> backlog s' = backlog s -> reads_command s false s') as Hmore.
  { intros s' Hn Hb. right. unfold next_command, next_line. rewrite Ep. cbn [resolve]. rewrite Hn.
    split_and!; [by rewrite (backlog_protocol _ _ Hb)|done|by apply backlog_pending]. }
  destruct (unread (cn s)) as [|x u] eqn:Eu; [by apply wlp_ret, Hmore|]. rewrite <- Eu in *.
  replace (length (unread (cn s)) =? 0)%nat with false by (by rewrite Eu). clear x u Eu.
  destruct (find_newline (unread (cn s))) as [k|] eqn:Ek.
  - apply wlp_bind. eapply wlp_mono; [|apply wlp_and; [apply (process_command_keeps stat_keeps)|apply (process_command_settles stat_settles)]].
    intros _ s2 [[= Hi _ _ _ _ _ Hu _ _ Hpr] Hset]. apply wlp_set_conn, wlp_ret.
    destruct Hset as [Hg|[Hw Hd]]; [by left|]. right. unfold next_command, next_line. rewrite Ep. cbn [resolve]. rewrite Ek.
    destruct (find_newline_app _ [] k Ek) as [_ Hk].
    split; [change (protocol (cn s2) = ascii_prot); congruence|]. split_and!; [done|done|].
    change (demand (cn (set_cn _ s2))) with (demand (cn s2)). unfold pending. cbn. rewrite Hd, Hi, Hu.
    rewrite <- (drop_app_le (unread (cn s))), drop_drop by lia. done.
  - destruct (1024 <? _); [|by apply wlp_ret, Hmore]. unfold long_line.
    case_match; [done|]. case_match; [by left|]. case_match; [by apply wlp_ret, Hmore|].
    apply (wlp_keeps backlog); [frame|]. intros [] s2 H2; [|by left]. by apply wlp_ret, Hmore.
Qed.

Lemma binary_reads s : protocol (cn s) = binary_prot -> swallows s <= 0 -> wlp try_read_command_binary (reads_command s) s.
Proof.
  intros Ep Hsw. unfold try_read_command_binary. apply wlp_gets. cbv zeta. set (u := unread (cn s)).
  assert (forall s', next_packet u = None -> backlog s' = backlog s -> reads_command s false s') as Hmore.
  { intros s' Hn Hb. right. unfold next_command. rewrite Ep. cbn [resolve]. fold u. rewrite Hn.
    split_and!; [by rewrite (backlog_protocol _ _ Hb)|done|by apply backlog_pending]. }
  unfold next_packet in Hmore. cbv zeta in Hmore. destruct (Z.of_nat (length u) <? sizeof_header) eqn:E1; cbn [orb] in Hmore; [by apply wlp_ret, Hmore|].
  apply wlp_set_conn. destruct (magic (header_of u) =? PROTOCOL_BINARY_REQ) eqn:E2; cbn [negb orb] in Hmore |- *; [|by left].
  set (n := _ + sizeof_header) in *. destruct (Z.of_nat (length u) <? n) eqn:E3; [by apply wlp_ret, Hmore|]. clear Hmore.
  assert (next_packet u = Some (take (Z.to_nat n) u, (Z.to_nat n + bin_block (header_of u))%nat)) as Hnext.
  { unfold next_packet. fold n. by rewrite E1, E2, E3. }
  pose proof (next_packet_inv _ _ _ Hnext) as (_ & _ & Hn & _). fold n in Hn.
  unfold bin_command. cbv zeta. rewrite (header_of_take (Z.to_nat n) u) by lia. set (h := header_of u) in *.
  apply wlp_assoc, (wlp_keeps (fun s => (io s, swallows s, binary_header (cn s)))); [frame|].
  intros ok s1 [= Hi _ _ _ _ _ Hu _ _ Hpr Hs1 Hh]. destruct ok; cbn [negb]; [|by left].
  apply wlp_assoc, wlp_set_conn, wlp_assoc, wlp_set_conn. set (s2 := set_cn _ (set_cn _ s1)).
  apply wlp_bind. eapply wlp_mono; [|apply wlp_and; [apply dispatch_bin_keeps|apply (dispatch_bin_settles h)]]; [|done|done|change (swallows s1 <= 0); rewrite Hs1; exact Hsw].
  intros _ s3 [[= I3 _ _ _ _ _ U3 _ _ P3] [Hg|[Hw Hd]]]; apply wlp_ret; [by left|]. right.
  unfold next_command. rewrite Ep. cbn [resolve]. fold u. rewrite Hnext.
  split; [congruence|]. split_and!; [done|done|]. rewrite Hd. unfold pending. rewrite I3, U3, Hi, Hu, length_take, Nat.min_l by lia.
  fold u. rewrite <- (drop_app_le u), drop_drop by lia. done.
Qed.

Lemma command_reads s : swallows s <= 0 -> wlp try_read_command (reads_command s) s.
Proof using stat_keeps stat_settles.
  intros Hsw. unfold try_read_command. apply wlp_get_conn.
  destruct (protocol (cn s)) eqn:Ep; [by apply ascii_reads|by apply binary_reads|].
  unfold try_read_command_negotiate. apply wlp_gets. destruct (unread (cn s)) as [|x u] eqn:Eu; [done|].
  assert (forall p, resolve negotiating_prot (unread (cn s)) = p -> forall r s',
    reads_command (set_cn (set_protocol p (cn s)) s) r s' -> reads_command s r s') as Hres.
  { intros p Hp r s' [Hg|[H1 H2]]; [by left|]. right. change (pending (set_cn _ s)) with (pending s) in *. cbn in H1, H2.
    rewrite Ep. assert (resolve negotiating_prot (pending s) = p) as Hpp by (unfold pending; rewrite resolve_app; [done|by rewrite Eu]).
    rewrite <- Hp, next_command_resolve in H2. rewrite Hpp. split; [|done]. rewrite H1, <- Hpp. apply resolve_resolve. }
  assert (resolve negotiating_prot (unread (cn s)) = if x =? PROTOCOL_BINARY_REQ then binary_prot else ascii_prot) as Hr by by rewrite Eu.
  destruct (x =? PROTOCOL_BINARY_REQ); apply wlp_set_conn; (eapply wlp_mono; [|by first [apply binary_reads|apply ascii_reads]]);
    intros r s'; by apply Hres.
Qed.

Lemma parse_advances s : state (cn s) = conn_parse_cmd -> swallows s <= 0 -> wlp step_parse_cmd (fun _ => advances s) s.
Proof using stat_keeps stat_settles.
  intros Es Hsw. unfold step_parse_cmd. apply wlp_set_conn. set (s1 := set_cn _ s).
  assert (demand (cn s) = O) as Hd by (unfold demand; by rewrite Es).
  apply wlp_bind. eapply wlp_mono; [|by apply command_reads]. intros r s2 [[-> Hg]|[Hpr H2]]; [by apply wlp_ret_bind, wlp_ret, advances_gone|].
  change (unread (cn s1)) with (unread (cn s)) in *. change (protocol (cn s1)) with (protocol (cn s)) in *.
  change (pending s1) with (pending s) in *.
  destruct (next_command (protocol (cn s)) (unread (cn s))) as [[c len]|] eqn:En; destruct H2 as [-> H2].
  - destruct H2 as [Hw H2]. apply wlp_ret_bind, wlp_ret. split; [intros Hw'; congruence|]. right.
    unfold future at 1, command_at. rewrite Es, En, Hd, drop_0, commands_step. unfold pending at 1.
    rewrite (next_command_app _ _ _ _ En). cbn [app]. f_equal. unfold future. by rewrite Hpr, H2.
  - apply wlp_assoc, wlp_get_conn, wlp_set_conn, wlp_ret. split.
    { intros Hw. cbn in *. by destruct (resps (cn s2)). }
    right. unfold command_at, future. rewrite Es, En, Hd. cbn [app]. rewrite drop_0, <- commands_resolve.
    change (protocol (cn (set_cn _ s2))) with (protocol (cn s2)). change (pending (set_cn _ s2)) with (pending s2).
    rewrite Hpr, H2. by destruct (resps (cn s2)).
Qed.

(** Bytes of a block were taken, of which [f] counts those that are left. *)
Definition stage (s : srv) : conn_states * protocol_t := (state (cn s), protocol (cn s)).

Definition took (f : conn -> Z) (s s' : srv) : Prop :=
  exists bs, pending s = bs ++ pending s' /\ f (cn s) = Z.of_nat (length bs) + f (cn s') /\ 0 <= f (cn s') /\ stage s' = stage s.

Lemma took_none f s s' : 0 <= f (cn s) -> pending s' = pending s -> f (cn s') = f (cn s) -> stage s' = stage s -> took f s s'.
Proof. intros H0 Hp Hf Hst. exists []. rewrite Hp, Hf. split_and!; [done|cbn; lia|lia|done]. Qed.

Lemma took_trans f s1 s2 s3 : took f s1 s2 -> took f s2 s3 -> took f s1 s3.
Proof.
  intros (b1 & P1 & F1 & _ & S1) (b2 & P2 & F2 & N2 & S2). exists (b1 ++ b2).
  rewrite P1, P2, F1, F2, (assoc_L (++)), length_app. split_and!; [done|lia|done|congruence].
Qed.

(** The connection waits for [n] bytes less. *)
Definition fed (n : Z) (s s' : srv) : Prop :=
  incoming s' = incoming s /\ unread (cn s') = unread (cn s) /\ rlbytes (cn s') = rlbytes (cn s) - n /\
  stage s' = stage s.

(** [put] stores the bytes it is given. *)
Definition stores (put : list Z -> M srv unit) : Prop :=
  forall bs s, wlp (put bs) (fun _ => fed (Z.of_nat (length bs)) s) s.

Lemma put_ritem_stores : stores put_ritem.
Proof.
  intros bs s. unfold put_ritem. apply wlp_gets. apply (wlp_keeps position); [frame|]. intros _ s1 [= H1 H2 H3 H4 H5 H6].
  unfold wlp, fed, stage. cbn. by rewrite H3, H4, H6.
Qed.

Lemma put_chunk_stores ch : stores (put_chunk ch).
Proof.
  intros bs s. unfold put_chunk. apply wlp_gets. apply (wlp_keeps position); [frame|]. intros _ s1 [= H1 H2 H3 H4 H5 H6].
  unfold wlp, fed, stage. cbn. by rewrite H3, H4, H6.
Qed.

(** From the buffer. *)
Lemma take_put put n s :
  stores put -> n <= Z.of_nat (length (unread (cn s))) -> n <= rlbytes (cn s) -> 0 <= rlbytes (cn s) ->
  wlp (let! bs := take_unread n in put bs)
      (fun _ s' => took rlbytes s s' /\ unread (cn s') = drop (Z.to_nat n) (unread (cn s)) /\
                   rlbytes (cn s') = rlbytes (cn s) - Z.max 0 n) s.
Proof.
  intros Hput Hn Hr H0. unfold take_unread. apply wlp_assoc, wlp_get_conn, wlp_assoc, wlp_set_conn, wlp_ret_bind.
  eapply wlp_mono; [|apply Hput]. intros [] s2 (H1 & H2 & H3 & H4). rewrite length_take in H3. cbn in *.
  assert (rlbytes (cn s2) = rlbytes (cn s) - Z.max 0 n) as H5 by lia.
  split_and!; [|done..]. exists (take (Z.to_nat n) (unread (cn s))). unfold pending. rewrite H1, H2, (assoc_L (++)), take_drop, length_take.
  split_and!; [done|lia|lia|done].
Qed.

(** From the socket, the buffer being empty. *)
Lemma read_put {A} put n s (k1 : Z -> M srv A) (k2 : Z -> M srv A) (Q : A -> srv -> Prop) :
  stores put -> n <= rlbytes (cn s) -> 0 <= rlbytes (cn s) -> unread (cn s) = [] ->
  (forall res s', 0 < res -> took rlbytes s s' -> rlbytes (cn s') = rlbytes (cn s) - res -> wlp (k1 res) Q s') ->
  (forall res s', res <= 0 -> took rlbytes s s' -> wlp (k2 res) Q s') ->
  wlp (let! (res, bs) := tcp_read n in if 0 <? res then put bs ;; k1 res else k2 res) Q s.
Proof.
  intros Hput Hn H0 Hu H1 H2. apply wlp_bind. eapply wlp_mono; [|apply read_pending]. intros [res bs] s1 (E1 & A1 & Hres & Hl).
  destruct (Z.ltb_spec 0 res).
  - apply wlp_bind. eapply wlp_mono; [|apply Hput]. intros [] s2 (I2 & U2 & R2 & S2). rewrite E1 in *. apply H1; [done| |lia].
    exists bs. unfold pending. rewrite U2, I2, Hu, A1. split_and!; [done|lia|lia|rewrite S2; unfold stage; by rewrite E1].
  - apply H2; [done|]. apply took_none; [done| |by rewrite E1|unfold stage; by rewrite E1]. unfold pending. rewrite E1, A1.
    destruct Hres as [->|[-> _]]; [by destruct bs|done].
Qed.

Lemma took_le f s s' : took f s s' -> 0 <= f (cn s') <= f (cn s).
Proof. intros (bs & _ & Hf & H0 & _). lia. Qed.

(** Something came, or the read failed. *)
Lemma nread_plain_took s : 0 < rlbytes (cn s) ->
  wlp nread_plain (fun r s' => took rlbytes s s' /\ (r = None -> rlbytes (cn s') < rlbytes (cn s))) s.
Proof.
  intros H0. unfold nread_plain. apply wlp_gets. apply wlp_bind.
  set (n := Z.min _ _). eapply (wlp_mono _ (fun _ s' => took rlbytes s s' /\ (rlbytes (cn s') = 0 \/ unread (cn s') = []))).
  - intros [] s1 [T1 Hz]. apply wlp_get_conn. destruct (Z.eqb_spec (rlbytes (cn s1)) 0); [apply wlp_ret; split; [done|lia]|].
    destruct Hz as [?|Hu]; [done|]. pose proof (took_le _ _ _ T1).
    apply (read_put put_ritem); [apply put_ritem_stores|lia|lia|done|..].
    + intros res s2 Hres T2 R2. apply wlp_ret. split; [by eapply took_trans|lia].
    + intros res s2 _ T2. apply wlp_ret. split; [by eapply took_trans|done].
  - destruct (unread (cn s)) as [|x u] eqn:Eu; cbn [length Nat.ltb Nat.leb].
    + apply wlp_ret. split; [by apply took_none; [lia|..]|by right].
    + eapply wlp_mono; [|apply (take_put put_ritem); [apply put_ritem_stores|rewrite Eu; unfold n; cbn [length]; lia|unfold n; lia|lia]].
      intros [] s1 (T1 & U1 & R1). split; [done|]. rewrite U1, R1, Eu.
      destruct (decide (rlbytes (cn s) = n)); [left; lia|right]. apply drop_ge. unfold n in *. cbn [length] in *. lia.
Qed.

(** All of it came, or there was no memory or the read failed. *)
Lemma chunked_took n total s : 0 <= rlbytes (cn s) ->
  wlp (chunked_loop n total) (fun r s' => took rlbytes s s' /\ (0 < r -> rlbytes (cn s') = 0)) s.
Proof.
  revert total s. induction n as [|n IH]; intros total s H0; cbn [chunked_loop]; [done|]. apply wlp_gets.
  destruct (Z.ltb_spec 0 (rlbytes (cn s))); [|apply wlp_ret; split; [by apply took_none|lia]].
  assert (forall s', position s' = position s -> took rlbytes s s') as Hsame.
  { intros s' [= H1 H2 H3 H4 H5 H6]. apply took_none; [done| |done|unfold stage; by rewrite H3, H6]. unfold pending. by rewrite H1, H2. }
  apply (wlp_keeps position); [frame|]. intros k s1 H1. cbv zeta. destruct (_ && _).
  - apply (wlp_keeps position); [frame|]. intros nch s2 H2.
    assert (took rlbytes s s2) as T by (apply Hsame; congruence).
    destruct (nch =? 0); [by apply wlp_ret|]. eapply wlp_mono; [|apply IH; by destruct T as (? & _ & _ & ? & _)].
    intros r s3 [T3 F3]. split; [by eapply took_trans|done].
  - apply (wlp_keeps position); [frame|]. intros _ s2 H2. assert (position s2 = position s) as Hp by congruence.
    pose proof Hp as [= P1 P2 P3 P4 P5 _]. destruct (unread (cn s)) as [|x u] eqn:Eu; cbn [length Nat.ltb Nat.leb].
    + apply (read_put (put_chunk (ritem (cn s)))); [apply put_chunk_stores|lia|lia|done|..].
      * intros res s3 _ T3 _. eapply wlp_mono; [|apply IH; by destruct T3 as (? & _ & _ & ? & _)].
        intros r s4 [T4 F4]. split; [|done]. eapply took_trans; [by apply Hsame|]. by eapply took_trans.
      * intros res s3 Hres T3. apply wlp_ret. split; [eapply took_trans; [by apply Hsame|done]|lia].
    + set (m := Z.min _ _). apply wlp_assoc_inv, wlp_bind.
      eapply wlp_mono; [|apply (take_put (put_chunk (ritem (cn s)))); [apply put_chunk_stores|..]; rewrite ?P2, ?P4; unfold m; cbn [length]; lia].
      intros _ s3 (T3 & _). assert (took rlbytes s s3) as T by (eapply took_trans; [by apply Hsame|done]).
      apply wlp_get_conn. destruct (Z.eqb_spec (rlbytes (cn s3)) 0); [by apply wlp_ret|].
      eapply wlp_mono; [|apply IH; by destruct T as (? & _ & _ & ? & _)]. intros r s4 [T4 F4]. split; [by eapply took_trans|done].
Qed.

Lemma into_chunked_took s : 0 <= rlbytes (cn s) ->
  wlp read_into_chunked_item (fun r s' => took rlbytes s s' /\ (0 < r -> rlbytes (cn s') = 0)) s.
Proof.
  intros H0. unfold read_into_chunked_item. apply wlp_gets, wlp_bind. eapply wlp_mono; [|by apply chunked_took].
  intros total s1 [T1 F1]. apply wlp_gets. destruct (_ && _); [|by apply wlp_ret].
  apply (wlp_keeps position); [frame|]. intros k s2 H2.
  assert (forall s', position s' = position s1 -> took rlbytes s s' /\ (0 < total -> rlbytes (cn s') = 0)) as Hsame.
  { intros s' [= P1 P2 P3 P4 P5 P6]. pose proof (took_le _ _ _ T1). split; [|by rewrite P4]. eapply took_trans; [exact T1|].
    apply took_none; [lia|unfold pending; by rewrite P1, P2|done|unfold stage; by rewrite P3, P6]. }
  destruct (_ <? 2); [|apply wlp_ret, Hsame; congruence].
  apply (wlp_keeps position); [frame|]. intros nch s3 H3. apply wlp_ret. destruct (Hsame s3) as [T3 F3]; [congruence|].
  split; [done|]. intros Hr. apply F3. destruct (_ =? 0); lia.
Qed.

Lemma read_failed_position res s : wlp (read_failed res) (fun _ s' => gone (cn s') = true \/ position s' = position s) s.
Proof.
  unfold read_failed. apply wlp_gets. destruct (res =? 0); [by left|]. destruct (_ && _); [|by left].
  apply (wlp_keeps position); [frame|]. intros [] s1 H1; [by right|by left].
Qed.

Lemma complete_settles : settles 0 complete_nread.
Proof.
  unfold complete_nread. apply settles_bind. intros []; [|apply complete_binary_settles|settle].
  unfold complete_nread_ascii. do 2 (apply settles_bind; intros ?). apply settles_then; [|intros ?; frame].
  destruct (negb _); [settle|]. do 2 (apply settles_bind; intros ?). destruct a2 as [r cas]. apply settles_bind; intros ?.
  destruct (mset_res _); [destruct r; settle|settle].
Qed.

(** Inside a block, what is taken of it is all that changes. *)
Definition inside (f : conn -> Z) (s : srv) : Prop :=
  match state (cn s) with conn_nread => f = rlbytes | conn_swallow => f = sbytes | _ => False end.

Lemma took_advances f s s' : inside f s -> took f s s' -> advances s s'.
Proof.
  intros Hf (bs & Hp & Hr & H0 & [= Hs Hpr]). unfold inside in Hf. apply (advances_eat s s' bs).
  - unfold command_at. by destruct (state (cn s)).
  - unfold quiet, waits. rewrite Hs. by destruct (state (cn s)).
  - done.
  - done.
  - unfold demand. rewrite Hs. destruct (state (cn s)); try done; subst f; lia.
Qed.

Lemma read_failed_took f res s s' :
  inside f s -> took f s s' -> wlp (read_failed res) (fun _ => advances s) s'.
Proof.
  intros Hf T. eapply wlp_mono; [|apply read_failed_position]. intros b s2 [Hg|Hp]; [by apply advances_gone|].
  apply (took_advances f); [done|]. eapply took_trans; [done|]. injection Hp as P1 P2 P3 P4 P5 P6.
  pose proof T as (_ & _ & _ & N & Hs). apply took_none; [done|unfold pending; by rewrite P1, P2| |unfold stage; by rewrite P3, P6].
  unfold inside in Hf. destruct (state (cn s)); try done; by subst f.
Qed.

(** Memory is out in the middle of a block: the rest of it is swallowed. *)
Lemma swallow_rest m s s' :
  inside rlbytes s -> took rlbytes s s' ->
  wlp (out_of_memory m ;; set_conn (fun c => set_sbytes (rlbytes c) c) ;; conn_set_state conn_swallow ;;
       set_conn (fun c => set_mset_res false (set_set_stale false c)) ;; ret false) (fun _ => advances s) s'.
Proof.
  intros Hf (bs & Hp & Hr & H0 & [= Hs Hpr]).
  apply (wlp_keeps (fun s => (io s, rlbytes (cn s)))); [frame|]. intros _ s2 [= I2 _ _ _ _ _ U2 _ _ Hpr2 R2].
  apply wlp_set_conn, wlp_set_conn, wlp_set_conn, wlp_ret. apply (advances_eat s _ bs).
  - unfold command_at, inside in *. by destruct (state (cn s)).
  - done.
  - change (protocol (cn s2) = protocol (cn s)). congruence.
  - rewrite Hp. unfold pending. cbn. by rewrite I2, U2.
  - unfold inside, demand in *. cbn. destruct (state (cn s)) eqn:Es; try done; [lia|].
    assert (rlbytes (cn s) = sbytes (cn s)) by by rewrite Hf. lia.
Qed.

Lemma nread_advances s : state (cn s) = conn_nread -> wlp step_nread (fun _ => advances s) s.
Proof.
  intros Es. assert (inside rlbytes s) as Hin by (unfold inside; by rewrite Es).
  unfold step_nread. apply wlp_gets. destruct (Z.eqb_spec (rlbytes (cn s)) 0) as [E0|E0].
  { apply wlp_bind. eapply wlp_mono; [|apply wlp_and; [apply complete_nread_keeps|apply complete_settles]].
    intros [] s1 [H1 [Hg|[Hw Hd1]]]; [by apply advances_gone|]. injection H1 as I1 _ _ _ _ _ U1 _ _ Hpr.
    apply wlp_ret, advances_same; [unfold command_at; by rewrite Es|unfold quiet; by rewrite Hw|done|unfold pending; by rewrite I1, U1|].
    rewrite Hd1. unfold demand. by rewrite Es, E0. }
  destruct (Z.ltb_spec (rlbytes (cn s)) 0); [by apply advances_gone|].
  apply (wlp_keeps position); [frame|]. intros chunked s1 H1. pose proof H1 as [= P1 P2 P3 P4 P5 P6].
  assert (took rlbytes s s1) as T1 by (apply took_none; [lia|unfold pending; by rewrite P1, P2|done|unfold stage; by rewrite P3, P6]).
  destruct chunked; cbn [negb]; apply wlp_bind.
  - eapply wlp_mono; [|apply into_chunked_took; lia].
    intros res s2 [T2 _]. assert (took rlbytes s s2) as T by by eapply took_trans.
    destruct (0 <? res); [by apply wlp_ret, (took_advances rlbytes)|].
    destruct (res =? -2); [by apply swallow_rest|by apply (read_failed_took rlbytes)].
  - eapply wlp_mono; [|apply nread_plain_took; lia].
    intros [res|] s2 [T2 _]; assert (took rlbytes s s2) as T by by eapply took_trans.
    + by apply (read_failed_took rlbytes).
    + by apply wlp_ret, (took_advances rlbytes).
Qed.

Lemma swallow_advances s : state (cn s) = conn_swallow -> wlp step_swallow (fun _ => advances s) s.
Proof.
  intros Es. assert (inside sbytes s) as Hin by (unfold inside; by rewrite Es).
  unfold step_swallow. apply wlp_gets. destruct (Z.leb_spec (sbytes (cn s)) 0) as [E0|E0].
  { apply wlp_set_conn, wlp_ret, advances_same; [unfold command_at; by rewrite Es|done|done|done|].
    unfold demand. rewrite Es. cbn. lia. }
  destruct (Nat.ltb_spec 0 (length (unread (cn s)))).
  - unfold take_unread. apply wlp_assoc, wlp_get_conn, wlp_assoc, wlp_set_conn, wlp_ret_bind, wlp_set_conn, wlp_ret.
    apply (took_advances sbytes); [done|]. set (m := Z.min _ _). exists (take (Z.to_nat m) (unread (cn s))).
    unfold pending. cbn. rewrite (assoc_L (++)), take_drop, length_take. split_and!; [done|lia|lia|done].
  - assert (unread (cn s) = []) as Eu by (apply nil_length_inv; lia).
    apply wlp_bind. eapply wlp_mono; [|apply read_pending]. intros [res bs] s1 (E1 & A1 & Hres & Hl).
    destruct (Z.ltb_spec 0 res).
    + apply wlp_set_conn, wlp_ret. apply (took_advances sbytes); [done|]. exists bs. unfold pending. cbn.
      rewrite Eu, E1, Eu, A1. cbn. split_and!; [done|lia|lia|done].
    + apply (read_failed_took sbytes); [done|]. apply took_none; [lia| |by rewrite E1|unfold stage; by rewrite E1].
      unfold pending. rewrite E1, A1. destruct Hres as [->|[-> _]]; [by destruct bs|done].
Qed.

(** ** The bytes to swallow *)
Lemma read_loop_swallows n k got : keeps swallows (read_loop n k got).
Proof. pose proof out_of_memory_swallows. revert k got. induction n as [|n IH]; intros k got; cbn [read_loop]; frame. Qed.
Lemma chunked_swallows n total : keeps swallows (chunked_loop n total).
Proof. revert total. induction n as [|n IH]; intros total; cbn [chunked_loop]; frame. Qed.
Lemma post_swallows rs res : keeps swallows (_transmit_post rs res).
Proof. revert res. induction rs as [|r rs IH]; intros res; cbn [_transmit_post]; frame. Qed.
#[local] Hint Resolve read_loop_swallows chunked_swallows post_swallows finish_all_swallows complete_swallows : frame.

Lemma nread_calm : calm step_nread.
Proof.
  unfold step_nread. apply calm_bind; [frame|]. intros c. case_match; [apply calm_keeps; frame|].
  case_match; [apply calm_keeps; frame|]. apply calm_bind; [frame|]. intros ch. case_match; [apply calm_keeps; frame|].
  apply calm_bind; [frame|]. intros res. case_match; [apply calm_keeps; frame|]. case_match; [|apply calm_keeps; frame].
  intros s _. do 2 (apply wlp_bind, wlp_any; intros ? ?). by apply wlp_set_conn; left.
Qed.

(** Without a command there is nothing to swallow. *)
Definition calm_command (m : M srv bool) : Prop :=
  forall s, swallows s <= 0 -> wlp m (fun r s' => if r then spent s' else swallows s' <= 0) s.

Lemma command_bind {A} (m : M srv A) (k : A -> M srv bool) :
  keeps swallows m -> (forall a, calm_command (k a)) -> calm_command (bind m k).
Proof. intros Hm Hk s Hs. apply (wlp_keeps swallows); [done|]. intros a s' H. apply Hk. lia. Qed.
Lemma command_keeps m : keeps swallows m -> calm_command m.
Proof.
  intros Hm s Hs. eapply wlp_mono; [|apply Hm]. intros r s' H. cbv beta in H. destruct r; [right; right|]; lia.
Qed.
Lemma command_done (m : M srv unit) : calm m -> calm_command (m ;; ret true).
Proof. intros Hm s Hs. apply wlp_bind. eapply wlp_mono; [|by apply Hm]. intros [] s' H. by apply wlp_ret. Qed.

Lemma try_read_calm : calm_command try_read_command.
Proof using stat_swallows.
  assert (calm_command try_read_command_ascii) as Ha.
  { unfold try_read_command_ascii. apply command_bind; [frame|]. intros c. case_match; [apply command_keeps; frame|].
    case_match; [|apply command_keeps; frame]. intros s Hs. apply wlp_bind.
    eapply wlp_mono; [|by apply process_command_calm]. intros [] s1 H1. by apply wlp_set_conn, wlp_ret. }
  assert (calm_command try_read_command_binary) as Hb.
  { unfold try_read_command_binary, bin_command. cbv zeta. apply command_bind; [frame|]. intros c. case_match; [apply command_keeps; frame|].
    apply command_bind; [frame|]. intros _. case_match; [apply command_keeps; frame|]. case_match; [apply command_keeps; frame|].
    apply command_done, calm_bind; [frame|]. intros ok. case_match; [apply calm_keeps; frame|].
    do 2 (apply calm_bind; [frame|]; intros _). apply dispatch_bin_calm. }
  unfold try_read_command, try_read_command_negotiate. apply command_bind; [frame|]. intros []; [done|done|].
  apply command_bind; [frame|]. intros c. destruct (unread c); [apply command_keeps; frame|].
  by destruct (_ =? _); (apply command_bind; [frame|]; intros _).
Qed.

Lemma parse_calm : calm step_parse_cmd.
Proof using stat_swallows.
  unfold step_parse_cmd. apply calm_bind; [frame|]. intros _ s Hs. apply wlp_bind. eapply wlp_mono; [|by apply try_read_calm].
  intros [] s1 H1; [by apply wlp_ret_bind, wlp_ret|]. apply wlp_assoc, wlp_get_conn, wlp_set_conn, wlp_ret. by right; right.
Qed.

Lemma swallow_spent s : state (cn s) = conn_swallow -> wlp step_swallow (fun _ => spent) s.
Proof.
  intros Es. unfold step_swallow. apply wlp_gets. destruct (Z.leb_spec (sbytes (cn s)) 0); [by apply wlp_set_conn, wlp_ret; right; right|].
  assert (forall m : M srv bool, keeps (fun s => state (cn s)) m -> forall s', state (cn s') = conn_swallow -> wlp m (fun _ => spent) s') as Hst.
  { intros m Hm s' Hs'. eapply wlp_mono; [|apply Hm]. intros b s2 H2. left. cbv beta in H2. by rewrite H2. }
  destruct (_ <? _)%nat; [apply Hst; [frame|done]|]. apply wlp_bind. eapply wlp_mono; [|apply read_pending].
  intros [res bs] s1 (E1 & _). destruct (0 <? res); [apply Hst; [frame|by rewrite E1]|].
  eapply wlp_mono; [|apply read_failed_position]. intros b s2 [Hg|[= _ _ H2 _ _ _]]; [by right; left|]. left. by rewrite H2, E1.
Qed.

Lemma step_spent nreqs s : spent s -> gone (cn s) = false -> wlp (drive_step nreqs) (fun _ => spent) s.
Proof using stat_swallows.
  intros Hsp Hg. unfold drive_step. apply wlp_get_conn.
  assert (state (cn s) <> conn_swallow -> swallows s <= 0) as H0.
  { intros Hne. destruct Hsp as [?|[?|?]]; [done|congruence|done]. }
  assert (forall (m : M srv bool) (z : Z), calm m -> state (cn s) <> conn_swallow ->
    wlp (let! stop := m in ret (stop, z)) (fun _ => spent) s) as Hsame.
  { intros m z Hm Hne. apply wlp_bind. eapply wlp_mono; [|apply Hm, H0, Hne]. intros b s1 H1. by apply wlp_ret. }
  destruct (state (cn s)) eqn:Es; try done; try (apply Hsame; [|done]); try (apply calm_keeps; frame).
  - apply parse_calm.
  - apply nread_calm.
  - apply wlp_bind. eapply wlp_mono; [|by apply swallow_spent]. intros b s1 H1. by apply wlp_ret.
Qed.

Lemma step_advances nreqs s : orderly s -> gone (cn s) = false -> wlp (drive_step nreqs) (fun _ => advances s) s.
Proof using stat_keeps stat_settles.
  intros [Hq Hsp] Hg. unfold drive_step. apply wlp_get_conn.
  assert (forall (m : M srv bool) (z : Z), wlp m (fun _ => advances s) s -> wlp (let! stop := m in ret (stop, z)) (fun _ => advances s) s) as Hsame.
  { intros m z H. apply wlp_bind. eapply wlp_mono; [|exact H]. intros b s1 H1. by apply wlp_ret. }
  destruct (state (cn s)) eqn:Es; try (apply Hsame); try done.
  - by apply new_cmd_advances.
  - by apply waiting_advances.
  - by apply read_advances.
  - apply parse_advances; [done|]. destruct Hsp as [?|[?|?]]; [congruence|congruence|done].
  - by apply write_advances; left.
  - by apply nread_advances.
  - by apply swallow_advances.
  - unfold gone in Hg. by rewrite Es in Hg.
  - by apply write_advances; right.
  - unfold gone in Hg. by rewrite Es in Hg.
Qed.

(** Once it is gone, a connection executes nothing. *)
Lemma gone_step nreqs s : gone (cn s) = true -> wlp (drive_step nreqs) (fun _ s' => gone (cn s') = true) s.
Proof.
  intros Hg. unfold drive_step. apply wlp_get_conn. pose proof Hg as Hg'. unfold gone in Hg'. destruct (state (cn s)) eqn:Es; try done.
  apply wlp_assoc, wlp_bind. eapply wlp_mono; [|apply close_gone]. intros [] s1 H1. by apply wlp_ret_bind, wlp_ret.
Qed.

Lemma gone_silent s : gone (cn s) = true -> command_at s = [].
Proof. unfold gone, command_at. by destruct (state (cn s)). Qed.

(** ** Runs *)

(** The commands that [drive_loop] executes. *)
Fixpoint loop_commands (n : nat) (nreqs : Z) (s : srv) : list (list Z) :=
  match n with
  | O => []
  | S n' =>
      command_at s ++
      match drive_step nreqs s with
      | Ret r s' => if r.1 then [] else loop_commands n' r.2 s'
      | _ => []
      end
  end.

(** A connection over several events, between which the other connections of the server
    change its memory. *)
Fixpoint worker (n : nat) (others : list (mc -> mc)) : M srv unit :=
  match others with
  | [] => ret tt
  | f :: others' => drive_machine n ;; modify (fun s => set_memory (f (memory s)) s) ;; worker n others'
  end.

Fixpoint worker_commands (n : nat) (others : list (mc -> mc)) (s : srv) : list (list Z) :=
  match others with
  | [] => []
  | f :: others' =>
      loop_commands n (reqs_per_event (opts s)) s ++
      match drive_machine n s with
      | Ret _ s' => worker_commands n others' (set_memory (f (memory s')) s')
      | _ => []
      end
  end.

(** A run that executes the commands [cs]: they are the first of those in the input, and
    none of the others is lost unless the connection is given up. *)
Definition follows {A} (s : srv) (cs : list (list Z)) (m : M srv A) : Prop :=
  (gone (cn s) = true -> cs = []) /\
  (exists rest, future s = cs ++ rest) /\
  wlp m (fun _ s' => orderly s' /\ if gone (cn s') then True else gone (cn s) = false /\ future s = cs ++ future s') s.

Lemma follows_ret {A} (a : A) s : orderly s -> follows s [] (ret a).
Proof.
  intros Hq. split_and!; [done|by eexists|]. apply wlp_ret. split; [done|]. by destruct (gone (cn s)).
Qed.

Lemma follows_bind {A B} s cs (m : M srv A) cs' (k : A -> M srv B) :
  follows s cs m -> (forall a s', orderly s' -> follows s' (cs' a s') (k a)) ->
  follows s (cs ++ match m s with Ret a s' => cs' a s' | _ => [] end) (bind m k).
Proof.
  intros (G & [rest R] & W) Hk. unfold follows, wlp, bind in *. destruct (m s) as [a s1| | |];
    [|rewrite app_nil_r; split_and!; [done|by eexists|done]..].
  destruct W as [Hq W]. destruct (Hk a s1 Hq) as (G1 & [rest1 R1] & W1). unfold wlp in W1.
  destruct (gone (cn s1)) eqn:Hg1.
  - rewrite (G1 eq_refl), app_nil_r. split_and!; [done|by eexists|]. destruct (k a s1) as [b s2| | |]; [|done..].
    destruct W1 as [Hq2 W1]. split; [done|]. by destruct (gone (cn s2)); [|destruct W1].
  - destruct W as [Hg W]. rewrite W. split_and!; [by rewrite Hg|exists rest1; by rewrite R1, (assoc_L (++))|].
    destruct (k a s1) as [b s2| | |]; [|done..]. destruct W1 as [Hq2 W1]. split; [done|].
    destruct (gone (cn s2)); [done|]. destruct W1 as [_ ->]. by rewrite (assoc_L (++)).
Qed.

Lemma step_follows nreqs s : orderly s -> follows s (command_at s) (drive_step nreqs).
Proof using stat_keeps stat_settles stat_swallows.
  intros Hq. split_and!; [apply gone_silent|apply command_first|]. destruct (gone (cn s)) eqn:Hg.
  - eapply wlp_mono; [|by apply gone_step]. intros r s1 H1. split; [|by rewrite H1]. split; [by apply (advances_gone s1)|by right; left].
  - eapply wlp_mono; [|apply wlp_and; [by apply step_advances|apply step_spent; [by destruct Hq|done]]].
    intros r s1 [[Hq1 H1] Hs1]. split; [done|].
    destruct (gone (cn s1)) eqn:Hg1; [done|]. by destruct H1 as [?|H1].
Qed.

Lemma loop_follows n nreqs s : orderly s -> follows s (loop_commands n nreqs s) (drive_loop n nreqs).
Proof using stat_keeps stat_settles stat_swallows.
  revert nreqs s. induction n as [|n IH]; intros nreqs s Hq; [by apply follows_ret|].
  cbn [loop_commands drive_loop].
  apply (follows_bind s (command_at s) (drive_step nreqs) (fun r s' => if r.1 then [] else loop_commands n r.2 s'));
    [by apply step_follows|]. intros [[] nreqs'] s1 Hq1; [by apply follows_ret|by apply IH].
Qed.

(** What others do to the memory is no matter. *)
Lemma follows_memory {A} s f cs (m : M srv A) :
  follows (set_memory (f (memory s)) s) cs m ->
  follows s cs (modify (fun s => set_memory (f (memory s)) s) ;; m).
Proof. intros (G & R & W). split_and!; [done|done|exact W]. Qed.

Lemma worker_follows n others s : orderly s -> follows s (worker_commands n others s) (worker n others).
Proof using stat_keeps stat_settles stat_swallows.
  revert s. induction others as [|f others IH]; intros s Hq; [by apply follows_ret|].
  cbn [worker_commands worker].
  apply (follows_bind s (loop_commands n (reqs_per_event (opts s)) s) (drive_machine n)
    (fun _ s' => worker_commands n others (set_memory (f (memory s')) s'))); [by apply loop_follows|].
  intros _ s1 Hq1. by apply follows_memory, IH.
Qed.

(** What a command does: a line, [k] bytes before its newline, or a request without its
    value; either is taken out of the buffer. *)
Definition execute (p : protocol_t) (c : list Z) (k : nat) : M srv unit :=
  match p with
  | binary_prot => set_conn (set_binary_header (header_of c)) ;; bin_command c
  | _ => process_command c ;; set_conn (fun c => set_rpos (rpos c + Z.of_nat k + 1) (set_unread (drop (S k) (unread c)) c))
  end.

Lemma ascii_executes s k : find_newline (unread (cn s)) = Some k ->
  try_read_command_ascii s = (execute ascii_prot (command_of (take k (unread (cn s)))) k ;; ret true) s.
Proof.
  intros Ek. unfold try_read_command_ascii. unfold gets, bind at 1. rewrite Ek. destruct (unread (cn s)) as [|x u] eqn:Eu; [done|].
  cbn [length Nat.eqb execute]. by rewrite bind_assoc.
Qed.

Lemma binary_executes s c len k : next_packet (unread (cn s)) = Some (c, len) ->
  try_read_command_binary s = (execute binary_prot c k ;; ret true) s.
Proof.
  intros En. pose proof (next_packet_inv _ _ _ En) as (-> & _ & Hn & _). unfold next_packet in En. cbv zeta in *.
  destruct (_ || _) eqn:Eb in En; [done|]. clear En. apply orb_false_iff in Eb as [Eb E3]. apply orb_false_iff in Eb as [E1 E2].
  unfold try_read_command_binary. unfold gets, bind at 1. cbv zeta. cbn [execute]. rewrite E1, E2, E3.
  rewrite bind_assoc, header_of_take by lia. done.
Qed.

Lemma set_protocol_same s : set_cn (set_protocol (protocol (cn s)) (cn s)) s = s.
Proof. by destruct s as [? ? ? []]. Qed.

Lemma command_executes s c len : next_command (protocol (cn s)) (unread (cn s)) = Some (c, len) ->
  let p := resolve (protocol (cn s)) (unread (cn s)) in
  exists k, try_read_command s = (set_conn (set_protocol p) ;; execute p c k ;; ret true) s.
Proof.
  intros En. cbv zeta. pose proof En as (_ & Hu)%next_command_length. unfold next_command in En. unfold try_read_command.
  unfold get_conn, gets, bind at 1. unfold bind at 1, set_conn at 1, modify.
  assert (forall p, p = ascii_prot -> resolve (protocol (cn s)) (unread (cn s)) = p -> exists k,
    try_read_command_ascii (set_cn (set_protocol p (cn s)) s) = (execute p c k ;; ret true) (set_cn (set_protocol p (cn s)) s)) as Ha.
  { intros p -> Hp. rewrite Hp in En. unfold next_line in En. destruct (find_newline (unread (cn s))) as [k|] eqn:Ek; [|done].
    injection En as <- <-. exists k. exact (ascii_executes (set_cn (set_protocol ascii_prot (cn s)) s) k Ek). }
  assert (resolve (protocol (cn s)) (unread (cn s)) = binary_prot -> exists k,
    try_read_command_binary (set_cn (set_protocol binary_prot (cn s)) s) =
    (execute binary_prot c k ;; ret true) (set_cn (set_protocol binary_prot (cn s)) s)) as Hb.
  { intros Hp. rewrite Hp in En. exists O. exact (binary_executes (set_cn (set_protocol binary_prot (cn s)) s) c len O En). }
  destruct (protocol (cn s)) eqn:Ep; cbn [resolve] in *.
  - destruct (Ha ascii_prot) as [k Hk]; [done..|]. exists k. rewrite <- Hk. f_equal. by rewrite <- Ep, set_protocol_same.
  - destruct Hb as [k Hk]; [done|]. exists k. rewrite <- Hk. f_equal. by rewrite <- Ep, set_protocol_same.
  - unfold try_read_command_negotiate, gets, bind at 1. destruct (unread (cn s)) as [|x u] eqn:Eu; [done|]. cbn [hd] in *.
    destruct (x =? PROTOCOL_BINARY_REQ); [by apply Hb|by apply Ha].
Qed.

(** The round that has a command executes it. *)
Lemma command_executed (nreqs : Z) s c : command_at s = [c] ->
  let p := resolve (protocol (cn s)) (unread (cn s)) in
  exists k, drive_step nreqs s =
    (set_conn (set_noreply false) ;; set_conn (set_protocol p) ;; execute p c k ;; ret (false, nreqs)) s.
Proof.
  unfold command_at. destruct (state (cn s)) eqn:Es; try done.
  destruct (next_command _ _) as [[c' len]|] eqn:En; [|done]. intros [= <-]. cbv zeta.
  set (s1 := set_cn (set_noreply false (cn s)) s). destruct (command_executes s1 c' len En) as [k Hk]. exists k.
  change (protocol (cn s1)) with (protocol (cn s)) in Hk. change (unread (cn s1)) with (unread (cn s)) in Hk.
  revert Hk. generalize (resolve (protocol (cn s)) (unread (cn s))). intros p Hk.
  unfold drive_step, step_parse_cmd, get_conn, gets, bind, set_conn, modify in *. rewrite Es. fold s1. rewrite Hk.
  by destruct (execute p c' k _).
Qed.

End Stream.
