(* ===== verification/McRequests.v ===== *)
(** * memcached: the requests of a client of the binary protocol

    A client writes requests one behind the other (protocol_binary.h: a header, the extra
    fields, the key and the value).  The server executes them, in their order and each with
    the fields the client gave it.  A request with a command that the server does not know
    is an exception: the bytes of its extra fields and its key are swallowed twice. *)

From Stdlib Require Import String.
From stdpp Require Import gmap.
From S2P Require Import Prelude Wire McText McHash McItem McAssoc McSlabs McItems McDagger McOps McConn McCommands McBinary McMeta McMachine McFraming McPackets McStream.

Record request := {
  r_op : Z;
  r_ext : list Z;
  r_key : list Z;
  r_val : list Z;
  r_opaque : Z;
  r_cas : Z;
}.

Definition body_length (r : request) : Z := Z.of_nat (length (r_ext r) + length (r_key r) + length (r_val r)).

(** [protocol_binary_request_header] in memory. *)
Definition request_bytes (r : request) : list Z :=
  [PROTOCOL_BINARY_REQ; r_op r] ++ be_bytes 2 (Z.of_nat (length (r_key r))) ++ [Z.of_nat (length (r_ext r)); 0; 0; 0] ++
  be_bytes 4 (body_length r) ++ le_bytes 4 (r_opaque r) ++ be_bytes 8 (r_cas r).

(** The part of a request that the server waits for before it dispatches it. *)
Definition packet (r : request) : list Z := request_bytes r ++ r_ext r ++ r_key r.

Definition encode (r : request) : list Z := packet r ++ r_val r.

(** The header that the server reads. *)
Definition header (r : request) : request_header :=
  {| magic := PROTOCOL_BINARY_REQ; opcode := r_op r; keylen := Z.of_nat (length (r_key r)); extlen := Z.of_nat (length (r_ext r));
     bodylen := body_length r; h_opaque := r_opaque r; h_cas := r_cas r |}.

(** The fields fit, and the key is not too long. *)
Definition sized_request (r : request) : Prop :=
  in_width 8 (r_op r) /\ in_width 8 (Z.of_nat (length (r_ext r))) /\ Z.of_nat (length (r_key r)) <= KEY_MAX_LENGTH /\
  body_length r < 2 ^ 31 /\ in_width 32 (r_opaque r) /\ in_width 64 (r_cas r).

(** Commands that are followed by a value, and those that are not. *)
Definition stores_value (cmd : Z) : bool := existsb (Z.eqb cmd) [CMD_SET; CMD_ADD; CMD_REPLACE].
Definition extends_value (cmd : Z) : bool := existsb (Z.eqb cmd) [CMD_APPEND; CMD_PREPEND; CMD_SASL_AUTH; CMD_SASL_STEP].
Definition no_value (cmd : Z) : bool :=
  existsb (Z.eqb cmd)
    [CMD_VERSION; CMD_FLUSH; CMD_NOOP; CMD_GETQ; CMD_GET; CMD_GETKQ; CMD_GETK; CMD_DELETE; CMD_INCREMENT; CMD_DECREMENT;
     CMD_STAT; CMD_QUIT; CMD_SASL_LIST_MECHS; CMD_TOUCH; CMD_GAT; CMD_GATQ; CMD_GATK; CMD_GATKQ].

(** A request as the protocol has it. *)
Definition proper (r : request) : Prop :=
  let cmd := default (r_op r) (loud (r_op r)) in
  if stores_value cmd then length (r_ext r) = 8%nat /\ r_key r <> []
  else if extends_value cmd then r_ext r = [] /\ r_key r <> []
  else if no_value cmd then r_val r = []
  else r_ext r = [] /\ r_key r = [].

Lemma body_range r : 0 <= body_length r.
Proof. unfold body_length. lia. Qed.

Lemma request_header_of r rest : sized_request r -> header_of (request_bytes r ++ rest) = header r.
Proof.
  intros (H1 & H2 & H3 & H4 & H5 & H6). pose proof (body_range r). change KEY_MAX_LENGTH with 250 in H3.
  assert (header_of (request_bytes r ++ rest) =
    {| magic := u8 128; opcode := u8 (r_op r); keylen := u16 (le_val (le_bytes 2 (Z.of_nat (length (r_key r)))));
       extlen := u8 (Z.of_nat (length (r_ext r))); bodylen := u32 (le_val (le_bytes 4 (body_length r)));
       h_opaque := u32 (le_val (le_bytes 4 (r_opaque r))); h_cas := u64 (le_val (le_bytes 8 (r_cas r))) |}) as -> by reflexivity.
  rewrite !le_val_bytes. unfold header, in_width in *. f_equal.
  all: try done.
  all: rewrite ?(wrap_small (8 * Z.of_nat _)) by (unfold in_width; lia).
  all: try (apply wrap_small; unfold in_width; lia).
Qed.

Lemma i32_small x : 0 <= x < 2 ^ 31 -> i32 x = x.
Proof. intros H. apply swrap_small; cbn; lia. Qed.

Lemma bin_block_cases h cmd : 0 <= keylen h ->
  bin_block_of h cmd =
  if stores_value cmd then
    if (extlen h =? 8) && negb (keylen h =? 0) && (keylen h + 8 <=? bodylen h) then i32 (bodylen h - (keylen h + extlen h)) else 0
  else if extends_value cmd then if (0 <? keylen h) && (extlen h =? 0) then i32 (bodylen h - keylen h) else 0
  else if no_value cmd then 0 else i32 (bodylen h).
Proof.
  intros Hk. unfold bin_block_of, extends_value. fold (stores_value cmd). fold (no_value cmd). destruct (stores_value cmd); [done|].
  assert (negb (keylen h =? 0) = (0 <? keylen h)) as -> by (destruct (Z.eqb_spec (keylen h) 0), (Z.ltb_spec 0 (keylen h)); done || lia).
  rewrite (andb_comm (extlen h =? 0)). cbn [existsb].
  by destruct (cmd =? CMD_APPEND), (cmd =? CMD_PREPEND), (cmd =? CMD_SASL_AUTH), (cmd =? CMD_SASL_STEP).
Qed.

(** What the server takes behind the packet is the value. *)
Lemma value_block r : sized_request r -> proper r -> bin_block (header r) = length (r_val r).
Proof.
  intros (H1 & H2 & H3 & H4 & H5 & H6) Hp. unfold proper in Hp. unfold bin_block. cbn [header bodylen keylen extlen opcode].
  rewrite !(proj2 (Z.ltb_ge _ _)) by (unfold body_length; lia). cbn [orb]. set (cmd := default _ _) in *.
  rewrite bin_block_cases by (cbn; lia). cbn [header bodylen keylen extlen]. unfold body_length in *.
  destruct (stores_value cmd); [|destruct (extends_value cmd); [|destruct (no_value cmd)]].
  - destruct Hp as [He Hk]. rewrite He in *. assert (0 < length (r_key r))%nat by (destruct (r_key r); [done|cbn; lia]).
    rewrite (proj2 (Z.eqb_neq _ 0)), (proj2 (Z.leb_le _ _)) by lia. change (Z.of_nat 8 =? 8) with true. cbn [andb negb].
    rewrite i32_small; lia.
  - destruct Hp as [He Hk]. rewrite He in *. assert (0 < length (r_key r))%nat by (destruct (r_key r); [done|cbn; lia]).
    rewrite (proj2 (Z.ltb_lt 0 _)) by lia. cbn [length]. change (Z.of_nat 0 =? 0) with true. cbn [andb]. rewrite i32_small; cbn [length] in *; lia.
  - by rewrite Hp.
  - destruct Hp as [He Hk]. rewrite He, Hk in *. cbn [length] in *. rewrite i32_small; lia.
Qed.

Lemma request_length r : length (request_bytes r) = 24%nat.
Proof. unfold request_bytes, be_bytes. rewrite !length_app, !length_rev, !length_le_bytes. done. Qed.
Lemma packet_length r : length (packet r) = (24 + length (r_ext r) + length (r_key r))%nat.
Proof. unfold packet. rewrite !length_app, request_length. lia. Qed.

(** The server finds the packet at the beginning of the stream. *)
Lemma next_packet_encode r rest : sized_request r -> 
  next_packet (encode r ++ rest) = Some (packet r, (length (packet r) + bin_block (header r))%nat).
Proof.
  intros Hr. unfold next_packet. cbv zeta. assert (header_of (encode r ++ rest) = header r) as ->.
  { unfold encode, packet. rewrite <- !(assoc_L (++)). by apply request_header_of. }
  cbn [header keylen extlen magic]. pose proof (packet_length r) as Hl. unfold encode, sizeof_header.
  rewrite !length_app, !(proj2 (Z.ltb_ge _ _)) by lia. cbn [Z.eqb Pos.eqb PROTOCOL_BINARY_REQ orb negb].
  assert (Z.to_nat (Z.of_nat (length (r_key r)) + Z.of_nat (length (r_ext r)) + 24) = length (packet r)) as -> by lia.
  rewrite <- (assoc_L (++)), take_app_length. done.
Qed.

Definition stream_of (rs : list request) : list Z := concat (map encode rs).

(** The requests of a stream are those the client sent. *)
Lemma commands_of_requests p rs : Forall sized_request rs -> Forall proper rs -> p <> ascii_prot ->
  commands_of p (stream_of rs) = map packet rs.
Proof.
  intros Hs Hp. revert p. induction Hs as [|r rs Hr Hs IH]; intros p Hne.
  { rewrite commands_step. unfold next_command, next_packet, next_line. cbn. by destruct p. }
  apply Forall_cons in Hp as [Hr' Hp]. unfold stream_of. cbn [map concat]. fold (stream_of rs). rewrite commands_step.
  assert (resolve p (encode r ++ stream_of rs) = binary_prot) as Hb by by destruct p.
  unfold next_command. rewrite Hb, next_packet_encode by done. f_equal. rewrite value_block by done.
  unfold encode at 1. rewrite <- (assoc_L (++)), (assoc_L (++) (packet r)). rewrite <- length_app, drop_app_length.
  by apply IH.
Qed.

Lemma packet_header r : sized_request r -> header_of (packet r) = header r.
Proof. intros Hr. unfold packet. by apply request_header_of. Qed.

(** The commands in a stream that starts with a request that the server does not know. *)
Lemma commands_of_unknown p r rest :
  sized_request r -> p <> ascii_prot ->
  let cmd := default (r_op r) (loud (r_op r)) in
  stores_value cmd = false -> extends_value cmd = false -> no_value cmd = false ->
  commands_of p (encode r ++ rest) = packet r :: commands_of binary_prot (drop (length (r_ext r) + length (r_key r)) rest).
Proof.
  intros Hr Hne cmd H1 H2 H3. rewrite commands_step.
  assert (resolve p (encode r ++ rest) = binary_prot) as Hb by by destruct p.
  unfold next_command. rewrite Hb, next_packet_encode by done. f_equal. f_equal.
  assert (bin_block (header r) = Z.to_nat (body_length r)) as ->.
  { destruct Hr as (_ & _ & Hk & Hl & _). unfold bin_block. cbn [header bodylen keylen extlen opcode].
    rewrite !(proj2 (Z.ltb_ge _ _)) by (unfold body_length; lia). cbn [orb]. fold cmd.
    rewrite bin_block_cases, H1, H2, H3 by (cbn; lia). cbn [header bodylen]. rewrite i32_small; [done|].
    split; [apply body_range|done]. }
  unfold encode. rewrite <- drop_drop, <- (assoc_L (++)), drop_app_length.
  assert (Z.to_nat (body_length r) = (length (r_val r) + (length (r_ext r) + length (r_key r)))%nat) as -> by (unfold body_length; lia).
  by rewrite <- drop_drop, drop_app_length.
Qed.

Section Requests.
Context `{E : Env}.
Hypothesis stat_keeps : forall ts, keeps io (process_stat ts).
Hypothesis stat_settles : forall ts, settles 0 (process_stat ts).
Hypothesis stat_swallows : forall ts, keeps swallows (process_stat ts).


(** C34. A request with a command that the server does not know, with extra fields or a key: the
    value is not all that is swallowed behind it, but as many bytes more as the extra fields
    and the key have, which were taken before.  So that many bytes of the requests that
    follow are lost, and the server looks for its next command in the middle of them. *)
Theorem unknown_command_overruns r rest n others s :
  sized_request r ->
  let cmd := default (r_op r) (loud (r_op r)) in
  stores_value cmd = false -> extends_value cmd = false -> no_value cmd = false ->
  state (cn s) = conn_new_cmd -> unread (cn s) = [] -> sbytes (cn s) <= 0 -> protocol (cn s) <> ascii_prot ->
  arriving (incoming s) = encode r ++ rest ->
  worker_commands n others s `prefix_of`
    packet r :: commands_of binary_prot (drop (length (r_ext r) + length (r_key r)) rest).
Proof using stat_keeps stat_settles stat_swallows.
  intros Hr cmd H1 H2 H3 Es Eu Hsb Hpr Ha. rewrite <- (commands_of_unknown (protocol (cn s))) by done.
  assert (orderly s) as Hq by (split; [unfold quiet, waits; by rewrite Es|by right; right]).
  destruct (worker_follows stat_keeps stat_settles stat_swallows n others s Hq) as (_ & [more R] & _).
  exists more. rewrite <- R. unfold future, demand, pending. by rewrite Es, Eu, Ha.
Qed.
End Requests.
