(* ===== verification/McRounds.v ===== *)
(** * memcached: the loop of a connection ends

    [drive_machine] (src/sw/apps/memcached/memcached/memcached.c) loops until a round says
    to stop.  Each round that does not spends something: a byte of the input, an answer of
    [sendmsg], a request of the event's share, or else it leads to a state from which the
    machine has less to do ([rank]). *)

From Stdlib Require Import String.
From stdpp Require Import gmap.
From S2P Require Import Prelude Wire McText McHash McItem McAssoc McSlabs McItems McDagger McOps McConn McCommands McBinary McMeta McMachine McFraming McPackets McStream.

(** How far a state is from one that stops. *)
Definition rank (st : conn_states) : nat :=
  match st with
  | conn_read | conn_nread => 5
  | conn_parse_cmd | conn_swallow => 4
  | conn_new_cmd => 3
  | conn_write | conn_mwrite => 2
  | conn_waiting => 1
  | conn_closing | conn_closed | conn_watch | conn_listening => 0
  end.

Definition weight (nreqs : Z) (s : srv) : nat :=
  6 * (length (pending s) + length (outgoing s) + Z.to_nat nreqs) + rank (state (cn s)).

(** Enough rounds for an event. *)
Definition rounds (s : srv) : nat := S (weight (reqs_per_event (opts s)) s).

(** What a round that goes on has spent, the requests apart. *)
Definition spends (s s' : srv) : Prop :=
  let l := (length (pending s) + length (outgoing s))%nat in
  let l' := (length (pending s') + length (outgoing s'))%nat in
  (l' < l)%nat \/ (l' <= l)%nat /\ (rank (state (cn s')) < rank (state (cn s)))%nat.

Lemma spends_weight nreqs s s' : spends s s' -> (weight nreqs s' < weight nreqs s)%nat.
Proof.
  unfold spends, weight. intros [H|[H1 H2]]; [|lia].
  assert (rank (state (cn s')) <= 5)%nat by (destruct (state (cn s')); cbn; lia). lia.
Qed.

(** Of the input alone. *)
Definition reads_on (s : srv) (stop : bool) (s' : srv) : Prop :=
  stop = true \/ (length (pending s') < length (pending s))%nat \/
  (length (pending s') <= length (pending s))%nat /\ (rank (state (cn s')) < rank (state (cn s)))%nat.

Lemma reads_spends s stop s' : outgoing s' = outgoing s -> reads_on s stop s' -> stop = true \/ spends s s'.
Proof. unfold reads_on, spends. intros ->. intros [->|[H|[H1 H2]]]; [by left|right; left|right; right]; lia. Qed.

Section Rounds.
Context `{E : Env}.
Hypothesis stat_keeps : forall ts, keeps io (process_stat ts).
Hypothesis stat_settles : forall ts, settles 0 (process_stat ts).
Hypothesis stat_swallows : forall ts, keeps swallows (process_stat ts).

(** Only sending uses the answers of [sendmsg]. *)
Lemma read_loop_outgoing n k got : keeps outgoing (read_loop n k got).
Proof. revert k got. induction n as [|n IH]; intros k got; cbn [read_loop]; frame. Qed.
Lemma chunked_outgoing n total : keeps outgoing (chunked_loop n total).
Proof. revert total. induction n as [|n IH]; intros total; cbn [chunked_loop]; frame. Qed.
#[local] Hint Resolve read_loop_outgoing chunked_outgoing : frame.

Lemma finish_outgoing rs : keeps (fun s => (incoming s, unread (cn s), outgoing s)) (finish_all rs).
Proof. induction rs; cbn [finish_all]; frame. Qed.
Lemma post_outgoing rs res : keeps (fun s => (position s, outgoing s)) (_transmit_post rs res).
Proof. revert res. induction rs as [|r rs IH]; intros res; cbn [_transmit_post]; frame. Qed.
#[local] Hint Resolve finish_outgoing post_outgoing : frame.

Lemma complete_outgoing : keeps outgoing complete_nread.
Proof. intros s. eapply wlp_mono; [|apply complete_nread_keeps]. intros _ s' [= _ H _ _ _ _ _ _ _ _]. done. Qed.
#[local] Hint Resolve complete_outgoing : frame.
Lemma nread_outgoing : keeps outgoing step_nread.
Proof. frame. Qed.
Lemma swallow_outgoing : keeps outgoing step_swallow.
Proof. frame. Qed.
Lemma read_outgoing : keeps outgoing step_read.
Proof. frame. Qed.

(** ** The end of a value *)
Definition lands {A} (m : M srv A) : Prop := forall s, wlp m (fun _ s' => (rank (state (cn s')) <= 3)%nat) s.

Lemma lands_bind {A B} (m : M srv A) (k : A -> M srv B) : (forall a, lands (k a)) -> lands (bind m k).
Proof. intros Hk s. apply wlp_bind, wlp_any. intros a s'. apply Hk. Qed.
Lemma lands_then {A B} (m : M srv A) (k : A -> M srv B) : lands m -> (forall a, keeps phase (k a)) -> lands (bind m k).
Proof.
  intros Hm Hk s. apply wlp_bind. eapply wlp_mono; [|apply Hm]. intros a s1 H1.
  eapply wlp_mono; [|apply Hk]. intros x s2 [= H _ _ _]. by rewrite H.
Qed.
Lemma lands_to st : (rank st <= 3)%nat -> lands (conn_set_state st).
Proof. by intros H s. Qed.

Lemma out_string_lands v : lands (out_string v).
Proof.
  unfold out_string. do 2 (apply lands_bind; intros ?). destruct (_ : bool).
  - apply lands_bind. intros _. apply lands_to. cbn. lia.
  - cbv zeta. do 3 (apply lands_bind; intros ?). apply lands_to. cbn. lia.
Qed.

Lemma bin_error_lands e t : lands (write_bin_error e t 0).
Proof. unfold write_bin_error. do 2 (apply lands_bind; intros ?). apply lands_to. cbn. lia. Qed.
Lemma bin_ok_lands : lands write_bin_ok.
Proof. unfold write_bin_ok, write_bin_response. do 2 (apply lands_bind; intros ?). apply lands_to. cbn. lia. Qed.

Lemma complete_binary_lands : lands complete_nread_binary.
Proof.
  unfold complete_nread_binary. apply lands_bind. intros []; [done|]. unfold complete_update_bin.
  do 4 (apply lands_bind; intros ?). case_match. apply lands_bind. intros _. apply lands_then; [|intros ?; frame].
  unfold update_status. case_match; first [apply bin_ok_lands|apply bin_error_lands].
Qed.

Lemma complete_lands : lands complete_nread.
Proof.
  unfold complete_nread. apply lands_bind. intros []; [|apply complete_binary_lands|done]. unfold complete_nread_ascii. do 2 (apply lands_bind; intros ?). apply lands_then; [|intros ?; frame].
  destruct (negb _); [apply lands_bind; intros ?; apply out_string_lands|].
  do 2 (apply lands_bind; intros ?). destruct (_ : store_item_type * option Z) as [r cas]. apply lands_bind. intros _.
  destruct (mset_res _); [|apply out_string_lands]. unfold meta_status.
  destruct r; try (apply lands_then; [apply lands_to; cbn; lia|intros ?; frame]).
  all: do 2 (apply lands_bind; intros ?); apply out_string_lands.
Qed.

(** ** The rounds *)
Lemma took_length f s s' : took f s s' -> (length (pending s) = length (pending s') + Z.to_nat (f (cn s) - f (cn s')))%nat.
Proof. intros (bs & -> & Hf & _ & _). rewrite length_app. lia. Qed.


Lemma read_failed_reads f res s s' : (1 <= rank (state (cn s)))%nat -> took f s s' -> wlp (read_failed res) (reads_on s) s'.
Proof.
  intros Hr T. pose proof (took_length _ _ _ T). unfold read_failed. apply wlp_gets.
  assert (forall e, pending e = pending s' -> wlp (conn_set_state conn_closing ;; ret false) (reads_on s) e) as Hc.
  { intros e He. right. right. change (pending (set_cn (set_state conn_closing (cn e)) e)) with (pending e). cbn [state cn set_cn set_state rank]. rewrite He.
    split; [lia|cbn; lia]. }
  destruct (res =? 0); [by apply Hc|]. destruct (_ && _); [|by apply Hc].
  apply (wlp_keeps pending); [frame|]. intros [] s1 H1; [by left|by apply Hc].
Qed.

Lemma nread_reads s : state (cn s) = conn_nread -> wlp step_nread (reads_on s) s.
Proof.
  intros Es. assert (rank (state (cn s)) = 5%nat) as Hrank by by rewrite Es.
  assert (forall stop s', took rlbytes s s' -> rlbytes (cn s') < rlbytes (cn s) -> reads_on s stop s') as Hless.
  { intros stop s' T Hl. pose proof (took_length _ _ _ T). right. left. pose proof (took_le _ _ _ T). lia. }
  unfold step_nread. apply wlp_gets. destruct (Z.eqb_spec (rlbytes (cn s)) 0) as [E0|E0].
  { apply wlp_bind. eapply wlp_mono; [|apply wlp_and; [apply complete_nread_keeps|apply complete_lands]].
    intros [] s1 [H1 Hl]. injection H1 as I1 _ _ _ _ _ U1 _ _ _. right. right. unfold pending. rewrite I1, U1. lia. }
  destruct (Z.ltb_spec (rlbytes (cn s)) 0); [right; right; rewrite Hrank; cbn; unfold pending; cbn; lia|].
  apply (wlp_keeps position); [frame|]. intros chunked s1 H1. pose proof H1 as [= P1 P2 P3 P4 P5 P6].
  assert (took rlbytes s s1) as T1 by (apply took_none; [lia|unfold pending; by rewrite P1, P2|done|unfold stage; by rewrite P3, P6]).
  destruct chunked; cbn [negb]; apply wlp_bind.
  - eapply wlp_mono; [|apply into_chunked_took; lia].
    intros res s2 [T2 F2]. assert (took rlbytes s s2) as T by by eapply took_trans.
    destruct (Z.ltb_spec 0 res); [apply wlp_ret, Hless; [done|rewrite F2; lia]|].
    destruct (res =? -2); [|apply (read_failed_reads rlbytes); [lia|done]].
    apply (wlp_keeps pending); [frame|]. intros _ s3 H3. right. right. pose proof (took_length _ _ _ T).
    unfold pending in *. cbn in *. rewrite H3, Hrank. cbn. lia.
  - eapply wlp_mono; [|apply nread_plain_took; lia].
    intros [res|] s2 [T2 L2]; assert (took rlbytes s s2) as T by by eapply took_trans.
    + apply (read_failed_reads rlbytes); [lia|done].
    + apply wlp_ret, Hless; [done|]. rewrite <- P4. by apply L2.
Qed.

Lemma swallow_reads s : state (cn s) = conn_swallow -> wlp step_swallow (reads_on s) s.
Proof.
  intros Es. assert (rank (state (cn s)) = 4%nat) as Hrank by by rewrite Es.
  unfold step_swallow. apply wlp_gets. destruct (Z.leb_spec (sbytes (cn s)) 0).
  { right. right. unfold pending. cbn. rewrite Hrank. lia. }
  destruct (Nat.ltb_spec 0 (length (unread (cn s)))).
  - right. left. unfold pending. cbn. rewrite !length_app, length_drop. lia.
  - apply wlp_bind. eapply wlp_mono; [|apply read_pending]. intros [res bs] s1 (E1 & A1 & Hres & Hl).
    destruct (Z.ltb_spec 0 res).
    + right. left. unfold pending. cbn. rewrite E1, A1, !length_app. lia.
    + apply (read_failed_reads sbytes); [lia|]. apply took_none; [lia| |by rewrite E1|unfold stage; by rewrite E1].
      unfold pending. rewrite E1, A1. destruct Hres as [->|[-> _]]; [by destruct bs|done].
Qed.

Lemma read_reads s : state (cn s) = conn_read -> quiet s -> wlp step_read (reads_on s) s.
Proof.
  intros Es Hq. assert (resps (cn s) = []) as Hr by (apply Hq; unfold waits; by rewrite Es).
  assert (forall st s', pending s' = pending s -> (rank st < 5)%nat -> wlp (conn_set_state st ;; ret false) (reads_on s) s') as Hto.
  { intros st s' Hp Hst. right. right. change (pending (set_cn _ s')) with (pending s'). rewrite Es, Hp. cbn. lia. }
  unfold step_read. apply (wlp_keeps backlog); [frame|]. intros ok s1 H1. pose proof (backlog_pending _ _ H1) as Hp1.
  destruct ok; cbn [negb]; [|apply Hto; [done|cbn; lia]].
  unfold try_read_network. apply wlp_assoc, wlp_assoc, (wlp_keeps backlog); [frame|]. intros _ s2 H2.
  assert (resps (cn s2) = []) as Hr2 by by rewrite (backlog_resps _ _ H2), (backlog_resps _ _ H1).
  apply wlp_bind. eapply wlp_mono; [|by apply read_loop_pending]. intros r s3 (Hp3 & Hr3 & Hm).
  assert (pending s3 = pending s) as Hp by (rewrite Hp3, (backlog_pending _ _ H2); done).
  destruct r; [..|by destruct Hm]; apply Hto; try done; cbn; lia.
Qed.

Lemma waiting_reads s : state (cn s) = conn_waiting -> wlp step_waiting (reads_on s) s.
Proof.
  intros Es. unfold step_waiting. do 2 (apply (wlp_keeps pending); [frame|]; intros ? ? ?).
  destruct (_ : bool); [by left|]. right. right. change (pending (set_cn _ s'0)) with (pending s'0). rewrite Es. cbn.
  rewrite H0, H. lia.
Qed.

(** A command takes bytes off the input, or closes the connection. *)
Definition spends_command (s : srv) (r : bool) (s' : srv) : Prop :=
  if r then (length (pending s') < length (pending s))%nat \/ pending s' = pending s /\ state (cn s') = conn_closing
  else pending s' = pending s.

Lemma ascii_spends s : wlp try_read_command_ascii (spends_command s) s.
Proof using stat_keeps.
  unfold try_read_command_ascii. apply wlp_gets. destruct (_ =? _)%nat; [done|].
  destruct (find_newline (unread (cn s))) as [k|] eqn:Ek.
  - apply wlp_bind. eapply wlp_mono; [|apply (process_command_keeps stat_keeps)].
    intros _ s2 [= I2 _ _ _ _ _ U2 _ _ _]. left.
    destruct (find_newline_app _ [] k Ek) as [_ Hk]. unfold pending. cbn. rewrite I2, U2, !length_app, length_drop. cbn. lia.
  - destruct (_ <? _); [|done]. unfold long_line. case_match; [done|]. case_match; [by right|]. case_match; [done|].
    apply (wlp_keeps pending); [frame|]. intros [] s2 H2; [done|]. by right.
Qed.

Lemma binary_spends s : wlp try_read_command_binary (spends_command s) s.
Proof.
  unfold try_read_command_binary. apply wlp_gets. cbv zeta. destruct (_ <? sizeof_header) eqn:E1; [done|]. apply Z.ltb_ge in E1.
  apply wlp_set_conn. case_match; [by right|]. destruct (_ <? _) eqn:E2 in |- *; [done|]. apply Z.ltb_ge in E2.
  set (n := _ + sizeof_header) in *. assert (24 <= n).
  { assert (0 <= keylen (header_of (unread (cn s)))) by (apply (wrap_range 16); lia).
    assert (0 <= extlen (header_of (unread (cn s)))) by (apply (wrap_range 8); lia). unfold n, sizeof_header. lia. }
  unfold bin_command. apply wlp_assoc, (wlp_keeps io); [frame|]. intros ok s1 [= Hi _ _ _ _ _ Hu _ _ _].
  destruct ok; cbn [negb]; [|right; split; [|done]; unfold pending; cbn; by rewrite Hi, Hu].
  apply wlp_assoc, wlp_set_conn, wlp_assoc, wlp_set_conn, wlp_bind. eapply wlp_mono; [|apply dispatch_bin_keeps].
  intros _ s2 [= I2 _ _ _ _ _ U2 _ _ _]. left. unfold pending. rewrite I2, U2, Hi, Hu, !length_app, length_drop, length_take. lia.
Qed.

Lemma try_read_spends s : wlp try_read_command (spends_command s) s.
Proof using stat_keeps.
  unfold try_read_command, try_read_command_negotiate. apply wlp_get_conn.
  destruct (protocol (cn s)); [apply ascii_spends|apply binary_spends|]. apply wlp_gets. destruct (unread (cn s)); [done|].
  destruct (_ =? _); apply wlp_set_conn; (eapply wlp_mono; [|first [apply binary_spends|apply ascii_spends]]); done.
Qed.

Lemma parse_reads s : state (cn s) = conn_parse_cmd -> wlp step_parse_cmd (reads_on s) s.
Proof using stat_keeps.
  intros Es. unfold step_parse_cmd. apply wlp_set_conn, wlp_bind. eapply wlp_mono; [|apply try_read_spends].
  intros [] s1 H1; unfold spends_command in H1; change (pending (set_cn _ s)) with (pending s) in H1.
  - apply wlp_ret_bind, wlp_ret. right. destruct H1 as [H1|[-> ->]]; [by left|]. right. rewrite Es. cbn. lia.
  - apply wlp_assoc, wlp_get_conn, wlp_set_conn, wlp_ret. right. right.
    change (pending (set_cn _ s1)) with (pending s1). rewrite H1, Es. cbn. by destruct (resps (cn s1)); cbn; lia.
Qed.

Lemma command_outgoing c : keeps outgoing (process_command c).
Proof using stat_keeps.
  intros s. eapply wlp_mono; [|apply (process_command_keeps stat_keeps)]. intros _ s' [= _ H _ _ _ _ _ _ _ _]. done.
Qed.
Lemma bin_outgoing key ext : keeps outgoing (dispatch_bin_command key ext).
Proof. intros s. eapply wlp_mono; [|apply dispatch_bin_keeps]. intros _ s' [= _ H _ _ _ _ _ _ _ _]. done. Qed.
#[local] Hint Resolve command_outgoing bin_outgoing : frame.
Lemma parse_outgoing : keeps outgoing step_parse_cmd.
Proof using stat_keeps. frame. Qed.

(** What is sent uses up an answer. *)
Lemma sendmsg_spends bs s :
  wlp (tcp_sendmsg bs) (fun res s' => position s' = position s /\
    if 0 <=? res then S (length (outgoing s')) = length (outgoing s) else (length (outgoing s') <= length (outgoing s))%nat) s.
Proof.
  unfold tcp_sendmsg. apply wlp_gets. destruct (outgoing s) as [|[n| |] outs] eqn:Eo; unfold wlp; cbn; rewrite ?Eo.
  2: destruct (Z.leb_spec 0 (Z.max 0 (Z.min n (Z.of_nat (length bs))))); [|lia].
  all: split; [done|cbn; lia].
Qed.

Definition transmits (s : srv) (r : transmit_result) (s' : srv) : Prop :=
  length (pending s') = length (pending s) /\
  match r with
  | TRANSMIT_COMPLETE | TRANSMIT_INCOMPLETE => (length (outgoing s') < length (outgoing s))%nat
  | TRANSMIT_SOFT_ERROR => True
  | TRANSMIT_HARD_ERROR => spends s s'
  end.

(** An answer of [sendmsg] is used up, or the connection waits or is closed. *)
Lemma transmit_spends s : (2 <= rank (state (cn s)))%nat -> wlp transmit (transmits s) s.
Proof.
  intros Hr. unfold transmit. apply wlp_get_conn. apply (wlp_keeps (fun s => (pending s, outgoing s))); [frame|].
  intros iovs s1 [= P1 P2].
  assert (forall s', pending s' = pending s -> (length (outgoing s') <= length (outgoing s))%nat ->
     wlp (conn_set_state conn_closing ;; ret TRANSMIT_HARD_ERROR) (transmits s) s') as Hhard.
  { intros s' Hp' Ho. unfold wlp, transmits, spends, pending in *. cbn. rewrite Hp'. lia. }
  apply wlp_bind. eapply wlp_mono; [|apply sendmsg_spends]. intros res s2 [[= Q1 Q2 Q3 Q4 Q5 Q6] Ho]. rewrite P2 in Ho.
  assert (pending s2 = pending s) as Hp2 by (rewrite <- P1; unfold pending; by rewrite Q1, Q2).
  destruct (0 <=? res).
  - apply (wlp_keeps (fun s => (position s, outgoing s))); [frame|]. intros _ s3 [= R1 R2 _ _ _ _ R6].
    apply wlp_get_conn, wlp_ret. assert (pending s3 = pending s) as Hp3 by (rewrite <- Hp2; unfold pending; by rewrite R1, R2).
    unfold transmits. rewrite Hp3, R6. split; [done|]. destruct (_ <? _)%nat; lia.
  - apply wlp_gets. destruct (_ =? _); [|by apply Hhard]. apply (wlp_keeps (fun s => (pending s, outgoing s))); [frame|].
    intros [] s3 [= Hp3 Ho3]; [|apply Hhard; [congruence|by rewrite Ho3]]. apply wlp_ret. unfold transmits. by rewrite Hp3, Hp2.
Qed.

Lemma write_spends s : state (cn s) = conn_write \/ state (cn s) = conn_mwrite ->
  wlp step_write (fun stop s' => stop = true \/ spends s s') s.
Proof.
  intros Es. assert (rank (state (cn s)) = 2%nat) as Hr by (by destruct Es as [-> | ->]).
  unfold step_write. apply wlp_get_conn, wlp_bind. eapply wlp_mono; [|apply transmit_spends; lia]. intros r s1 [Hp Ho].
  destruct r; [|by right; left; lia|by left|by right].
  apply (wlp_keeps (fun s => (incoming s, unread (cn s), outgoing s))); [frame|]. intros _ s2 [= H1 H2 H3].
  apply wlp_ret. right. left. assert (pending s2 = pending s1) as -> by (unfold pending; by rewrite H1, H2).
  rewrite Hp, H3. lia.
Qed.

Lemma new_cmd_spends nreqs s : state (cn s) = conn_new_cmd ->
  wlp (step_new_cmd (nreqs - 1)) (fun stop s' => stop = true \/ (weight (nreqs - 1) s' < weight nreqs s)%nat) s.
Proof.
  intros Es. unfold step_new_cmd. destruct (Z.leb_spec 0 (nreqs - 1)).
  - apply (wlp_keeps (fun s => (incoming s, unread (cn s), outgoing s))); [frame|]. intros _ s1 [= H1 H2 H3].
    apply wlp_ret. right. unfold weight, pending. rewrite H1, H2, H3, Es. assert (rank (state (cn s1)) <= 5)%nat by (destruct (state (cn s1)); cbn; lia).
    cbn [rank]. lia.
  - apply wlp_gets. assert (forall st s', pending s' = pending s -> outgoing s' = outgoing s -> (rank st < 3)%nat ->
      wlp (conn_set_state st ;; ret false) (fun stop s' => stop = true \/ (weight (nreqs - 1) s' < weight nreqs s)%nat) s') as Hto.
    { intros st s' Hp Ho Hr. right. unfold weight, pending in *. cbn. rewrite Hp, Ho, Es. cbn. lia. }
    destruct (_ <? _)%nat; [by apply Hto; [..|cbn; lia]|]. destruct (_ <? _)%nat; [|by left].
    apply (wlp_keeps (fun s => (pending s, outgoing s))); [frame|]. intros [] s1 [= H1 H2]; [by left|by apply Hto; [..|cbn; lia]].
Qed.

Lemma step_spends nreqs s : quiet s ->
  wlp (drive_step nreqs) (fun r s' => r.1 = true \/ (weight r.2 s' < weight nreqs s)%nat) s.
Proof using stat_keeps.
  intros Hq. unfold drive_step. apply wlp_get_conn.
  assert (forall m : M srv bool, wlp m (fun stop s' => stop = true \/ spends s s') s ->
    wlp (let! stop := m in ret (stop, nreqs)) (fun r s' => r.1 = true \/ (weight r.2 s' < weight nreqs s)%nat) s) as Hsame.
  { intros m H. apply wlp_bind. eapply wlp_mono; [|exact H]. intros b s1 [->|H1]; [by left|]. right. by apply spends_weight. }
  assert (forall m : M srv bool, keeps outgoing m -> wlp m (reads_on s) s -> wlp m (fun stop s' => stop = true \/ spends s s') s) as Hreads.
  { intros m Hk Hm. eapply wlp_mono; [|apply wlp_and; [apply Hk|apply Hm]]. intros b s1 [Ho Hr]. by apply reads_spends. }
  destruct (state (cn s)) eqn:Es; try done; try (apply Hsame).
  - apply wlp_bind. eapply wlp_mono; [|by apply new_cmd_spends]. intros b s1 H1. by apply wlp_ret.
  - apply Hreads; [frame|by apply waiting_reads].
  - apply Hreads; [apply read_outgoing|by apply read_reads].
  - apply Hreads; [apply parse_outgoing|by apply parse_reads].
  - by apply write_spends; left.
  - apply Hreads; [apply nread_outgoing|by apply nread_reads].
  - apply Hreads; [apply swallow_outgoing|by apply swallow_reads].
  - apply wlp_bind, wlp_any. intros _ s1. by left.
  - by apply write_spends; right.
  - by left.
Qed.

(** More rounds than the weight are enough. *)
Lemma loop_ends n nreqs s : orderly s -> (weight nreqs s < n)%nat ->
  wlp (drive_loop n nreqs) (fun b _ => b = true) s /\ forall m, (n <= m)%nat -> drive_loop m nreqs s = drive_loop n nreqs s.
Proof using stat_keeps stat_settles stat_swallows.
  revert nreqs s. induction n as [|n IH]; intros nreqs s Hq Hn; [lia|]. cbn [drive_loop].
  pose proof (step_spends nreqs s (proj1 Hq)) as Hs. pose proof (step_follows stat_keeps stat_settles stat_swallows nreqs s Hq) as (_ & _ & Hf).
  unfold wlp, bind in *. destruct (drive_step nreqs s) as [[stop nreqs'] s1| | |] eqn:Ed;
    [|split; [done|]; intros [|m] Hm; [lia|]; cbn [drive_loop]; unfold bind; by rewrite Ed..].
  destruct Hf as [Hq1 _]. destruct stop; [split; [done|]; intros [|m] Hm; [lia|]; cbn [drive_loop]; unfold bind; by rewrite Ed|].
  destruct Hs as [?|Hs]; [done|]. cbn [snd] in Hs. destruct (IH nreqs' s1 Hq1) as [IH1 IH2]; [lia|]. split; [exact IH1|].
  intros [|m] Hm; [lia|]. cbn [drive_loop]. unfold bind. rewrite Ed. apply IH2. lia.
Qed.

(** C17. The loop of [drive_machine] ends: what an event makes the machine do is done after
    [rounds s] rounds at the latest, a number that grows with the bytes that were sent to the
    connection, the answers that [sendmsg] gives and the requests that an event may serve.
    From there on more fuel changes nothing, and the model has not run out of it. *)
Theorem machine_stops n s :
  orderly s -> (rounds s <= n)%nat ->
  drive_machine n s = drive_machine (rounds s) s /\ forall s', drive_machine n s <> Ret false s'.
Proof using stat_keeps stat_settles stat_swallows.
  intros Hq Hn. destruct (loop_ends (rounds s) (reqs_per_event (opts s)) s Hq) as [H1 H2]; [unfold rounds; lia|].
  assert (drive_machine n s = drive_machine (rounds s) s) as -> by by apply H2. split; [done|]. intros s' Hs.
  unfold drive_machine, wlp, bind, gets in *. by rewrite Hs in H1.
Qed.
End Rounds.
