(* ===== verification/McOutput.v ===== *)
(** * memcached: what a connection sends

    [transmit] (src/sw/apps/memcached/memcached/memcached.c) hands the vectors of the
    waiting responses to [sendmsg] and then takes what was sent off them.  The bytes of the
    responses leave the connection in their order, each of them once, whatever part of the
    vectors [sendmsg] takes each time. *)

From Stdlib Require Import String.
From stdpp Require Import gmap.
From S2P Require Import Prelude Wire McText McHash McItem McAssoc McSlabs McItems McDagger McOps McConn McCommands McBinary McMeta McMachine McFraming McPackets McStream.

(** ** What is to be sent *)
Definition read_only {A} (m : M mc A) (s : mc) : option A := match m s with Ret a _ => Some a | _ => None end.

(** The bytes of a vector, of a response, and of a list of responses; nothing when one of
    them cannot be read.  A large item has no bytes of its own here. *)
Definition iov_content (s : mc) (r : mc_resp) (v : iovec) : option (list Z) := read_only (iov_bytes r v) s.
Definition contents (s : mc) (r : mc_resp) : option (list Z) :=
  if skip r then Some [] else mjoin <$> mapM (iov_content s r) (iov r).
Definition unsent (s : mc) (rs : list mc_resp) : option (list Z) := mjoin <$> mapM (contents s) rs.

(** [tosend] counts the bytes. *)
Definition iov_total (vs : list iovec) : Z := foldr (fun v t => iov_len v + t) 0 vs.
Definition counted (r : mc_resp) : Prop := tosend r = iov_total (iov r) /\ chunked_data_iov r = O.

(** ** Vectors *)
Lemma within_inv bs off n s a s' :
  within bs off n s = Ret a s' ->
  s' = s /\ 0 <= off /\ 0 <= n /\ off + n <= Z.of_nat (length bs) /\ a = slice (Z.to_nat off) (Z.to_nat n) bs.
Proof.
  unfold within. destruct (_ && _) eqn:E; [|done]. intros [= <- <-].
  apply andb_true_iff in E as [E1 E3]. apply andb_true_iff in E1 as [E1 E2]. lia || (split_and!; try lia; done).
Qed.

Lemma within_ok bs off n s : 0 <= off -> 0 <= n -> off + n <= Z.of_nat (length bs) ->
  within bs off n s = Ret (slice (Z.to_nat off) (Z.to_nat n) bs) s.
Proof. intros. unfold within. rewrite 3!(proj2 (Z.leb_le _ _)) by lia. done. Qed.

Lemma slice_drop i n k (bs : list Z) : (k <= n)%nat -> slice (i + k) (n - k) bs = drop k (slice i n bs).
Proof. intros. unfold slice. rewrite skipn_firstn_comm, drop_drop. done. Qed.

(** A vector is a piece of some buffer. *)
Definition iov_source (s : mc) (r : mc_resp) (b : iov_base_t) : option (list Z * Z) :=
  match b with
  | Static bs => Some (bs, 0)
  | Wbuf off => Some (wbuf r, off)
  | Data p off => (fun i => (data i, off)) <$> heap s !! p
  | Chunked _ => None
  end.

Lemma iov_bytes_source s r v :
  iov_bytes r v s =
  match iov_source s r (iov_base v) with Some (bs, off) => within bs off (iov_len v) s | None => Fault end.
Proof.
  unfold iov_bytes. destruct (iov_base v) as [bs|off|p off|p]; [done..| |done]. cbn. unfold copy_out, load, bind.
  destruct (heap s !! p) as [i|]; done.
Qed.

Lemma iov_content_inv s r v bs :
  iov_content s r v = Some bs ->
  exists src off, iov_source s r (iov_base v) = Some (src, off) /\ 0 <= off /\ 0 <= iov_len v /\
    off + iov_len v <= Z.of_nat (length src) /\ bs = slice (Z.to_nat off) (Z.to_nat (iov_len v)) src.
Proof.
  unfold iov_content, read_only. rewrite iov_bytes_source. destruct (iov_source _ _ _) as [[src off]|]; [|done].
  destruct (within src off (iov_len v) s) as [a s'| | |] eqn:E; try done. intros [= ->].
  apply within_inv in E as (_ & ? & ? & ? & ->). by exists src, off.
Qed.

Lemma iov_content_ok s r v src off :
  iov_source s r (iov_base v) = Some (src, off) -> 0 <= off -> 0 <= iov_len v -> off + iov_len v <= Z.of_nat (length src) ->
  iov_content s r v = Some (slice (Z.to_nat off) (Z.to_nat (iov_len v)) src).
Proof. intros Hs ? ? ?. unfold iov_content, read_only. by rewrite iov_bytes_source, Hs, within_ok. Qed.

Lemma iov_content_length s r v bs : iov_content s r v = Some bs -> iov_len v = Z.of_nat (length bs).
Proof. intros (src & off & _ & ? & ? & ? & ->)%iov_content_inv. rewrite slice_length; lia. Qed.

(** A vector that was sent. *)
Lemma zero_content s r v bs : iov_content s r v = Some bs -> iov_content s r {| iov_base := iov_base v; iov_len := 0 |} = Some [].
Proof.
  intros (src & off & Hs & ? & ? & ? & _)%iov_content_inv.
  rewrite (iov_content_ok s r _ src off); cbn; done || lia.
Qed.

(** A vector of which [n] bytes were sent. *)
Lemma advance_content s r v bs n :
  iov_content s r v = Some bs -> 0 <= n <= iov_len v ->
  iov_content s r {| iov_base := advance_base n (iov_base v); iov_len := iov_len v - n |} = Some (drop (Z.to_nat n) bs).
Proof.
  intros (src & off & Hs & ? & ? & ? & ->)%iov_content_inv Hn.
  assert (exists src' off', iov_source s r (advance_base n (iov_base v)) = Some (src', off') /\ 0 <= off' /\
    off' + (iov_len v - n) <= Z.of_nat (length src') /\ slice (Z.to_nat off') (Z.to_nat (iov_len v - n)) src' =
    slice (Z.to_nat off + Z.to_nat n) (Z.to_nat (iov_len v) - Z.to_nat n) src) as (src' & off' & Hs' & ? & ? & Heq).
  { destruct (iov_base v) as [bs|o|p o|p]; cbn in Hs |- *; [..|done].
    - injection Hs as -> <-. exists (drop (Z.to_nat n) src), 0. rewrite length_drop. split_and!; [done|lia|lia|].
      unfold slice. rewrite drop_drop. f_equal; [lia|f_equal; lia].
    - injection Hs as <- ->. exists (wbuf r), (off + n). split_and!; [done|lia|lia|]. f_equal; lia.
    - destruct (heap s !! p) as [i|]; [|done]. injection Hs as <- ->. exists (data i), (off + n). split_and!; [done|lia|lia|]. f_equal; lia. }
  rewrite (iov_content_ok s r _ src' off'); cbn [iov_base iov_len]; [|done|done|lia|done].
  rewrite Heq, slice_drop by lia. done.
Qed.

(** ** Responses *)
Lemma join_cons {A} (x : list A) xs : mjoin (x :: xs) = x ++ mjoin xs.
Proof. done. Qed.
Lemma iov_total_cons v vs : iov_total (v :: vs) = iov_len v + iov_total vs.
Proof. done. Qed.
Lemma total_length s r vs bss :
  mapM (iov_content s r) vs = Some bss -> iov_total vs = Z.of_nat (length (mjoin bss)).
Proof.
  revert bss. induction vs as [|v vs IH]; intros bss H; [by injection H as <-|]. cbn in H.
  destruct (iov_content s r v) as [bs|] eqn:Ev; [|done]. cbn in H. destruct (mapM _ vs) as [bss'|]; [|done].
  injection H as <-. rewrite iov_total_cons, (IH bss' eq_refl), (iov_content_length _ _ _ _ Ev), join_cons, length_app. lia.
Qed.

Lemma advance_spec s r vs bss x t res :
  mapM (iov_content s r) vs = Some bss -> 0 <= res < iov_total vs ->
  let '(vs', t', _) := advance_iovs vs x 0 t res in
  t' = t - res /\ iov_total vs' = iov_total vs - res /\
  exists bss', mapM (iov_content s r) vs' = Some bss' /\ mjoin bss' = drop (Z.to_nat res) (mjoin bss).
Proof.
  revert bss x t res. induction vs as [|v vs IH]; intros bss x t res H Hres; [cbn in Hres; lia|]. cbn in H.
  destruct (iov_content s r v) as [bs|] eqn:Ev; [|done]. cbn in H. destruct (mapM (iov_content s r) vs) as [bss'|] eqn:Evs; [|done].
  injection H as <-. rewrite iov_total_cons in *. pose proof (iov_content_length _ _ _ _ Ev) as Hl.
  cbn [advance_iovs]. destruct (Z.leb_spec (iov_len v) res).
  - specialize (IH bss' (S x) (t - iov_len v) (res - iov_len v) eq_refl ltac:(lia)).
    destruct (advance_iovs vs (S x) 0 (t - iov_len v) (res - iov_len v)) as [[vs' t'] m].
    destruct IH as (-> & Ht & bss'' & Hm & Hj). split; [lia|]. split; [rewrite iov_total_cons; cbn [iov_len]; lia|].
    exists ([] :: bss''). split; [cbn [mapM]; rewrite (zero_content _ _ _ _ Ev); cbn; by rewrite Hm|].
    rewrite !join_cons, Hj, drop_app_ge by lia. cbn [app]. f_equal. lia.
  - cbn [Nat.eqb orb]. split; [done|]. split; [rewrite iov_total_cons; cbn [iov_len]; lia|].
    exists (drop (Z.to_nat res) bs :: bss').
    split; [cbn [mapM]; rewrite (advance_content _ _ _ _ _ Ev) by lia; cbn; by rewrite Evs|]. rewrite !join_cons, drop_app_le by lia. done.
Qed.

(** ** Collecting the vectors *)
Lemma concat_join {A} (xs : list (list A)) : concat xs = mjoin xs.
Proof. induction xs as [|x xs IH]; [done|]. cbn [concat]. by rewrite IH. Qed.

Lemma iov_content_read s r v bs : iov_content s r v = Some bs -> iov_bytes r v s = Ret bs s.
Proof.
  unfold iov_content, read_only. rewrite iov_bytes_source. destruct (iov_source _ _ _) as [[src off]|]; [|done].
  unfold within. destruct (_ && _); [|done]. by intros [= <-].
Qed.

Lemma resp_iovs_read s r vs bss room :
  chunked_data_iov r = O -> mapM (iov_content s r) vs = Some bss -> resp_iovs r vs room s = Ret bss s.
Proof.
  intros Hr. revert bss room. induction vs as [|v vs IH]; intros bss room H; [by injection H as <-|]. cbn in H.
  destruct (iov_content s r v) as [bs|] eqn:Ev; [|done]. cbn in H. destruct (mapM _ vs) as [bss'|]; [|done]. injection H as <-.
  cbn [resp_iovs]. unfold bind at 1.
  assert (match iov_base v with
          | Chunked p => let! i := load p in let! n := gets (fun s => S (S (size (heap s)))) in
              chunk_iovs n p (ITEM_schunk p i) (chunked_total r - iov_len v) (iov_len v) room
          | _ => let! bs := iov_bytes r v in ret [bs] end s = Ret [bs] s) as ->.
  { pose proof (iov_content_read _ _ _ _ Ev) as Hb. unfold bind. destruct (iov_base v) eqn:Eb; rewrite ?Hb; try done.
    unfold iov_content, read_only in Ev. rewrite iov_bytes_source, Eb in Ev. done. }
  rewrite Hr. cbn [Nat.ltb Nat.leb andb]. unfold bind. by rewrite (IH bss').
Qed.

Lemma unsent_cons s r rs bs :
  unsent s (r :: rs) = Some bs <-> exists b bs', contents s r = Some b /\ unsent s rs = Some bs' /\ bs = b ++ bs'.
Proof.
  unfold unsent. cbn [mapM]. destruct (contents s r) as [b|]; [|split; [done|by intros (? & ? & ? & _)]].
  cbn [mbind option_bind]. destruct (mapM (contents s) rs) as [bss|]; [|split; [done|by intros (? & ? & _ & ? & _)]].
  split; [intros [= <-]; by exists b, (mjoin bss)|]. by intros (? & ? & [= <-] & [= <-] & ->).
Qed.

(** What [_transmit_pre] collects is the first part of what is to be sent. *)
Lemma pre_read s rs used bs :
  Forall counted rs -> unsent s rs = Some bs ->
  exists out rest, _transmit_pre rs used s = Ret out s /\ bs = concat out ++ rest.
Proof.
  intros Hc. revert used bs. induction Hc as [|r rs [_ Hch] Hc IH]; intros used bs H; [by exists [], bs|].
  apply unsent_cons in H as (b & bs' & Er & H & ->).
  cbn [_transmit_pre]. destruct (_ <? _)%nat; [|by exists [], (b ++ bs')].
  unfold contents in Er. destruct (skip r) eqn:Esk; [injection Er as <-; by apply IH|].
  destruct (mapM (iov_content s r) (iov r)) as [vs|] eqn:Evs; [|done]. injection Er as <-.
  unfold bind. rewrite (resp_iovs_read _ _ _ _ _ Hch Evs).
  destruct (IH (used + length vs)%nat bs' H) as (out & rest & -> & ->).
  exists (vs ++ out), rest. split; [done|]. by rewrite concat_app, (concat_join vs), (assoc_L (++)).
Qed.

(** ** The items of the responses *)

(** The bytes of all items are the same. *)
Definition same_data (s0 s : mc) : Prop := forall q, data <$> heap s !! q = data <$> heap s0 !! q.

Lemma store_data s0 p f : (forall i, data (f i) = data i) -> preserves (same_data s0) (store p f).
Proof.
  intros Hf s Hs. unfold wlp, store. destruct (heap s !! p) as [i|] eqn:Ep; [|done]. intros q. rewrite <- Hs. cbn.
  destruct (decide (p = q)) as [<-|]; [by rewrite lookup_insert_eq, Ep; cbn; rewrite Hf|by rewrite lookup_insert_ne].
Qed.

Section Data.
Context (cfg : settings) (s0 : mc).

Lemma load_data p : preserves (same_data s0) (load p).
Proof. apply load_preserves. Qed.
Lemma field_data {A} (f : item -> A) p : preserves (same_data s0) (field_of f p).
Proof. apply preserves_bind; [apply load_data|intros ?; apply preserves_ret]. Qed.
Lemma cassert_data b : preserves (same_data s0) (cassert cfg b).
Proof. apply preserves_if; [apply preserves_ret|apply preserves_massert]. Qed.
Lemma push_free_data it id : preserves (same_data s0) (push_free it id).
Proof.
  unfold push_free. apply preserves_bind; [apply preserves_gets|intros p].
  do 2 (apply preserves_bind; [by apply store_data|intros _]).
  apply preserves_bind; [apply preserves_if; [by apply store_data|apply preserves_ret]|intros _]. by apply preserves_modify.
Qed.

Lemma free_chunks_data n ch : preserves (same_data s0) (free_chunks cfg n ch).
Proof.
  revert ch. induction n as [|n IH]; intros ch; cbn [free_chunks]; [done|]. apply preserves_if; [apply preserves_ret|].
  apply preserves_bind; [apply load_data|intros c]. apply preserves_bind; [apply cassert_data|intros _].
  apply preserves_bind; [by apply store_data|intros _]. apply preserves_bind; [apply push_free_data|intros _]. apply IH.
Qed.

Lemma slabs_free_data p id : preserves (same_data s0) (slabs_free cfg p id).
Proof.
  unfold slabs_free, do_slabs_free. apply preserves_bind; [apply preserves_gets|intros b].
  apply preserves_bind; [apply cassert_data|intros _]. apply preserves_if; [apply preserves_ret|].
  apply preserves_bind; [apply field_data|intros f]. apply preserves_if.
  - do 2 (apply preserves_bind; [by apply store_data|intros _]). apply push_free_data.
  - unfold do_slabs_free_chunked. apply preserves_bind; [apply field_data|intros ch].
    do 3 (apply preserves_bind; [by apply store_data|intros _]).
    apply preserves_bind; [apply preserves_if; [by apply store_data|apply preserves_ret]|intros _].
    apply preserves_bind; [apply push_free_data|intros _]. apply preserves_bind; [apply preserves_gets|intros n]. apply free_chunks_data.
Qed.

(** Letting an item go changes no byte of any item. *)
Lemma remove_data p : preserves (same_data s0) (do_item_remove cfg p).
Proof.
  unfold do_item_remove. apply preserves_bind; [apply load_data|intros i]. do 2 (apply preserves_bind; [apply cassert_data|intros _]).
  apply preserves_bind; [apply preserves_bind; [by apply store_data|intros _; apply field_data]|intros r].
  apply preserves_if; [|apply preserves_ret]. unfold item_free. apply preserves_bind; [apply load_data|intros i'].
  apply preserves_bind; [apply cassert_data|intros _]. do 2 (apply preserves_bind; [apply preserves_gets|intros ?]).
  do 3 (apply preserves_bind; [apply cassert_data|intros _]). apply slabs_free_data.
Qed.
End Data.

Lemma same_content s s' r v : same_data s s' -> iov_content s' r v = iov_content s r v.
Proof.
  intros H. unfold iov_content, read_only. rewrite !iov_bytes_source.
  assert (iov_source s' r (iov_base v) = iov_source s r (iov_base v)) as ->.
  { destruct (iov_base v) as [| |p off|]; [done..| |done]. cbn. specialize (H p).
    destruct (heap s' !! p), (heap s !! p); cbn in *; congruence. }
  destruct (iov_source _ _ _) as [[src off]|]; [|done]. unfold within. by destruct (_ && _).
Qed.

Lemma same_unsent s s' rs : same_data s s' -> unsent s' rs = unsent s rs.
Proof.
  intros H. unfold unsent. f_equal. apply mapM_ext. intros r. unfold contents. destruct (skip r); [done|].
  f_equal. apply mapM_ext. intros v. by apply same_content.
Qed.

Lemma counted_length s r b : counted r -> skip r = false -> contents s r = Some b -> tosend r = Z.of_nat (length b).
Proof.
  intros [Ht _] Hs. unfold contents. rewrite Hs. destruct (mapM _ _) as [bss|] eqn:E; [|done]. intros [= <-].
  rewrite Ht. by apply (total_length s r).
Qed.

Section Output.
Context `{E : Env}.

Lemma finish_same r s :
  wlp (resp_finish r) (fun _ s' => resps (cn s') = tail (resps (cn s)) /\ same_data (memory s) (memory s') /\ output s' = output s) s.
Proof.
  unfold resp_finish. apply wlp_bind. unfold whenS. destruct (negb _).
  - unfold item_removeS, on_memory, wlp. pose proof (remove_data (cfg s) (memory s) (resp_item r) (memory s) (fun _ => eq_refl)) as H.
    unfold wlp in H. destruct (do_item_remove _ _ _) as [[] m'| | |]; [|done..]. by split_and!.
  - by apply wlp_ret; split_and!.
Qed.

(** After [res] bytes were sent, the others are left. *)
Lemma post_unsent rs res bs s :
  resps (cn s) = rs -> Forall counted rs -> unsent (memory s) rs = Some bs -> 0 <= res <= Z.of_nat (length bs) ->
  wlp (_transmit_post rs res)
      (fun _ s' => Forall counted (resps (cn s')) /\ unsent (memory s') (resps (cn s')) = Some (drop (Z.to_nat res) bs) /\
                   output s' = output s) s.
Proof.
  revert res bs s. induction rs as [|r rs IH]; intros res bs s Hrs Hc Hu Hres.
  { injection Hu as <-. cbn [_transmit_post]. apply wlp_ret. rewrite Hrs, drop_nil. done. }
  apply Forall_cons in Hc as [Hr Hc]. apply unsent_cons in Hu as (b & bs' & Hb & Hu & ->). rewrite length_app in Hres.
  assert (forall res', 0 <= res' <= Z.of_nat (length bs') -> drop (Z.to_nat res') bs' = drop (Z.to_nat res) (b ++ bs') ->
    wlp (resp_finish r ;; _transmit_post rs res') (fun _ s' => Forall counted (resps (cn s')) /\
      unsent (memory s') (resps (cn s')) = Some (drop (Z.to_nat res) (b ++ bs')) /\ output s' = output s) s) as Hfin.
  { intros res' Hr' <-. apply wlp_bind. eapply wlp_mono; [|apply finish_same]. intros [] s1 (H1 & H2 & <-).
    rewrite Hrs in H1. apply IH; [done|done| |done]. by rewrite (same_unsent _ _ _ H2). }
  cbn [_transmit_post]. destruct (skip r) eqn:Esk.
  { unfold contents in Hb. rewrite Esk in Hb. injection Hb as <-. by apply Hfin; [cbn in Hres; lia|]. }
  pose proof (counted_length _ _ _ Hr Esk Hb) as Hl. destruct (Z.leb_spec (tosend r) res).
  { apply Hfin; [lia|]. rewrite drop_app_ge by lia. f_equal. lia. }
  destruct Hr as [Ht Hch]. unfold contents in Hb. rewrite Esk in Hb. destruct (mapM _ _) as [bss|] eqn:Em; [|done]. injection Hb as <-.
  pose proof (advance_spec (memory s) r (iov r) bss 0 (tosend r) res Em ltac:(lia)) as Ha. rewrite Hch.
  destruct (advance_iovs _ _ _ _ _) as [[vs t] more]. destruct Ha as (-> & Htot & bss' & Hm & Hj).
  set (r' := set_tosend _ _). apply wlp_set_conn. destruct (Z.eqb_spec (tosend r - res) 0); [lia|]. apply wlp_ret. cbn. rewrite Hrs. cbn.
  split_and!; [apply Forall_cons; split; [split; [change (tosend r - res = iov_total vs); lia|done]|done]| |done].
  apply unsent_cons. exists (mjoin bss'), bs'. unfold contents. cbn [skip r' set_tosend set_iov iov]. rewrite Esk.
  split_and!; [|done|rewrite Hj, drop_app_le by lia; done].
  enough (mapM (iov_content (memory s) r') vs = Some bss') as -> by done. rewrite <- Hm. apply mapM_ext. by intros v.
Qed.

(** [sendmsg] takes the first bytes of what it is given. *)
Lemma sendmsg_output bs s :
  wlp (tcp_sendmsg bs) (fun res s' => resps (cn s') = resps (cn s) /\ memory s' = memory s /\
    if 0 <=? res then 0 <= res <= Z.of_nat (length bs) /\ output s' = output s ++ take (Z.to_nat res) bs
    else output s' = output s) s.
Proof.
  unfold tcp_sendmsg. apply wlp_gets. destruct (outgoing s) as [|[n| |] outs]; [done| |done..].
  unfold wlp. cbn. destruct (Z.leb_spec 0 (Z.max 0 (Z.min n (Z.of_nat (length bs))))); [|lia]. split_and!; done || lia.
Qed.

Definition conserved (s : srv) (bs : list Z) (r : transmit_result) (s' : srv) : Prop :=
  Forall counted (resps (cn s')) /\
  exists bs', unsent (memory s') (resps (cn s')) = Some bs' /\ output s' ++ bs' = output s ++ bs /\
    (r = TRANSMIT_COMPLETE -> bs' = []).

End Output.

(** ** The counters of the responses *)

(** [tosend] is the number of bytes in the vectors. *)
Definition tallied (r : mc_resp) : Prop := tosend r = iov_total (iov r).
Definition all_tallied (s : srv) : Prop := Forall tallied (resps (cn s)).
Definition tallies {A} (m : M srv A) : Prop := preserves all_tallied m.

Lemma iov_total_app vs ws : iov_total (vs ++ ws) = iov_total vs + iov_total ws.
Proof. induction vs as [|v vs IH]; [done|]. cbn [app]. rewrite !iov_total_cons, IH. lia. Qed.

Section Tallies.
Context `{E : Env}.

Lemma tallies_bind {A B} (m : M srv A) (k : A -> M srv B) : tallies m -> (forall a, tallies (k a)) -> tallies (bind m k).
Proof. apply preserves_bind. Qed.
Lemma tallies_ret {A} (a : A) : tallies (ret a).
Proof. by intros s. Qed.
Lemma tallies_gets {A} (f : srv -> A) : tallies (gets f).
Proof. by intros s. Qed.
Lemma tallies_fault {A} : tallies (A := A) (fun _ => Fault).
Proof. done. Qed.
Lemma tallies_block {A} : tallies (A := A) (fun _ => Block).
Proof. done. Qed.
Lemma tallies_abort {A} : tallies (A := A) (fun _ => Abort).
Proof. done. Qed.
Lemma tallies_modify f : (forall s, resps (cn (f s)) = resps (cn s)) -> tallies (modify f).
Proof. intros H s Hs. unfold wlp, modify, all_tallied. by rewrite H. Qed.
Lemma tallies_on_memory {A} (m : settings -> M mc A) : tallies (on_memory m).
Proof. intros s Hs. unfold wlp, on_memory. by destruct (m _ _). Qed.
Lemma tallies_sys_call : tallies sys_call.
Proof. by intros s. Qed.

Lemma tallies_set_resp f : (forall r, tallied r -> tallied (f r)) -> tallies (set_resp f).
Proof.
  intros Hf s Hs. unfold set_resp, get_resp. apply wlp_assoc, wlp_get_conn. destruct (last (resps (cn s))) as [r|] eqn:El; [|done].
  apply wlp_ret_bind. unfold wlp. cbn. unfold all_tallied, set_last in *. cbn. apply Forall_app. split; [by apply Forall_take|].
  apply Forall_singleton, Hf. rewrite Forall_forall in Hs. apply Hs. by apply last_Some_elem_of.
Qed.
Lemma tallies_finish r : tallies (resp_finish r).
Proof.
  unfold resp_finish. apply tallies_bind; [unfold whenS; destruct (_ : bool); [apply tallies_on_memory|apply tallies_ret]|].
  intros _ s Hs. unfold wlp, all_tallied in *. cbn. by apply Forall_tail.
Qed.
Lemma tallies_start : tallies resp_start.
Proof.
  unfold resp_start. apply tallies_bind.
  - unfold sys_alloc. apply tallies_bind; [apply tallies_sys_call|]. intros ok.
    apply tallies_bind; [unfold whenS; destruct (negb ok); [by apply tallies_modify|apply tallies_ret]|]. intros _. apply tallies_ret.
  - intros []; [|apply tallies_ret]. apply tallies_bind; [|intros _; apply tallies_ret].
    intros s Hs. unfold wlp, all_tallied in *. cbn. apply Forall_app. by split; [|apply Forall_singleton].
Qed.
Lemma tallies_add_iov b len : tallies (resp_add_iov b len).
Proof.
  unfold resp_add_iov. apply tallies_bind.
  - unfold get_resp. apply tallies_bind; [apply tallies_gets|]. intros rs. destruct (last rs); [apply tallies_ret|apply tallies_fault].
  - intros v. destruct (_ <? _)%nat; [|apply tallies_fault]. apply tallies_set_resp. intros r Hr.
    unfold tallied in *. cbn [tosend set_tosend set_iov iov]. rewrite iov_total_app, Hr. cbn. lia.
Qed.
End Tallies.

Create HintDb tally.
#[export] Hint Resolve tallies_ret tallies_gets tallies_fault tallies_block tallies_abort tallies_on_memory tallies_sys_call
  tallies_finish tallies_start tallies_add_iov : tally.

Ltac tally :=
  match goal with
  | |- tallies (bind _ _) => apply tallies_bind; [tally|intros ?; tally]
  | |- tallies (modify _) => apply tallies_modify; reflexivity
  | |- tallies (set_resp _) => apply tallies_set_resp; intros ? H; (exact H || reflexivity)
  | |- tallies (match ?x with _ => _ end) => destruct x; tally
  | |- tallies _ => solve [eauto with tally]
  | |- tallies ?m => unfold_head m; cbv beta zeta; tally
  end.

Section Machine.
Context `{E : Env}.
Hypothesis stat_tallies : forall ts, tallies (process_stat ts).

Lemma finish_all_tallies rs : tallies (finish_all rs).
Proof. induction rs; cbn [finish_all]; tally. Qed.
#[local] Hint Resolve finish_all_tallies stat_tallies : tally.
Lemma out_string_tallies v : tallies (out_string v).
Proof. tally. Qed.
#[local] Hint Resolve out_string_tallies : tally.
Lemma get_loop_tallies ts e rc st : tallies (get_loop ts e rc st).
Proof. induction ts as [|t ts IH]; cbn [get_loop]; tally. Qed.
#[local] Hint Resolve get_loop_tallies : tally.
Lemma get_rounds_tallies n ts e rc st : tallies (get_rounds n ts e rc st).
Proof. revert ts. induction n as [|n IH]; intros ts; cbn [get_rounds]; tally. Qed.
Lemma preparse_loop_tallies ts seen fl err : tallies (preparse_loop ts seen fl err).
Proof. revert seen fl err. induction ts as [|t ts IH]; intros; cbn [preparse_loop]; tally. Qed.
Lemma mget_flags_tallies it fl cr ts out won : tallies (mget_flags it fl cr ts out won).
Proof. revert out won. induction ts as [|t ts IH]; intros; cbn [mget_flags]; tally. Qed.
Lemma marith_flags_tallies it fl cr key ts out : tallies (marith_flags it fl cr key ts out).
Proof. revert out. induction ts as [|t ts IH]; intros; cbn [marith_flags]; tally. Qed.
#[local] Hint Resolve get_rounds_tallies preparse_loop_tallies mget_flags_tallies marith_flags_tallies : tally.

Lemma process_command_tallies v : tallies (process_command v).
Proof using stat_tallies. tally. Qed.
Lemma grow_loop_tallies n a b c : tallies (grow_loop n a b c).
Proof. revert a. induction n; intros; cbn [grow_loop]; tally. Qed.
#[local] Hint Resolve grow_loop_tallies : tally.
Lemma append_all_tallies kvs : tallies (append_all kvs).
Proof. induction kvs; cbn [append_all]; tally. Qed.
Lemma write_bin_error_tallies e t n : tallies (write_bin_error e t n).
Proof. tally. Qed.
Lemma write_bin_response_tallies d a b c : tallies (write_bin_response d a b c).
Proof. tally. Qed.
#[local] Hint Resolve append_all_tallies write_bin_error_tallies write_bin_response_tallies : tally.
Lemma dispatch_bin_tallies key ext : tallies (dispatch_bin_command key ext).
Proof. tally. Qed.
#[local] Hint Resolve dispatch_bin_tallies : tally.

Lemma read_loop_tallies n k got : tallies (read_loop n k got).
Proof. revert k got. induction n as [|n IH]; intros k got; cbn [read_loop]; tally. Qed.
Lemma chunked_loop_tallies n total : tallies (chunked_loop n total).
Proof. revert total. induction n as [|n IH]; intros total; cbn [chunked_loop]; tally. Qed.
#[local] Hint Resolve process_command_tallies read_loop_tallies chunked_loop_tallies : tally.

Lemma advance_tally vs x ch t res :
  let '(vs', t', _) := advance_iovs vs x ch t res in t' - iov_total vs' = t - iov_total vs.
Proof.
  revert x t res. induction vs as [|v vs IH]; intros x t res; [done|]. cbn [advance_iovs]. destruct (_ <=? _).
  - specialize (IH (S x) (t - iov_len v) (res - iov_len v)). destruct (advance_iovs vs _ _ _ _) as [[vs' t'] m].
    rewrite !iov_total_cons. cbn [iov_len]. lia.
  - rewrite !iov_total_cons. cbn [iov_len]. lia.
Qed.

Lemma post_tallies rs res : Forall tallied rs -> tallies (_transmit_post rs res).
Proof.
  intros Hrs. revert res. induction Hrs as [|r rs Hr Hrs IH]; intros res; cbn [_transmit_post]; [tally|].
  destruct (skip r); [tally|]. destruct (_ <=? _); [tally|].
  pose proof (advance_tally (iov r) 0 (chunked_data_iov r) (tosend r) res) as Ha.
  destruct (advance_iovs _ _ _ _ _) as [[vs t] more]. apply tallies_bind; [|intros _; tally].
  intros s Hs. unfold wlp, all_tallied in *. cbn. apply Forall_cons. split; [|by apply Forall_tail].
  unfold tallied in *. cbn [tosend set_tosend set_iov iov]. lia.
Qed.

Lemma transmit_tallies : tallies transmit.
Proof.
  intros s Hs. unfold transmit. apply wlp_get_conn. pose proof (fun res => post_tallies (resps (cn s)) res Hs) as Hp.
  refine ((_ : tallies _) s Hs). tally.
Qed.
#[local] Hint Resolve transmit_tallies : tally.

(** The counter of each response that waits to be sent is the number of bytes in its vectors,
    in whatever state the machine is: no command and no partial write gets it wrong, so that
    the counter can be trusted to tell when a response was sent. *)
Theorem responses_tallied n others s : all_tallied s -> wlp (worker n others) (fun _ => all_tallied) s.
Proof using stat_tallies.
  revert s. change (tallies (worker n others)). induction others as [|f others IH]; cbn [worker]; [tally|].
  assert (forall m z, tallies (drive_loop m z)) as Hd.
  { intros m. induction m as [|m IHm]; intros z; cbn [drive_loop]; tally. }
  tally.
Qed.
End Machine.
