(* ===== verification/McReplies.v ===== *)
(** * memcached: the responses of the binary protocol

    Each response that McBinary builds is one packet: the header in front tells the length
    of what follows, and carries the command and the number ([opaque]) of the request, by
    which the client finds out what it is the response to. *)

From Stdlib Require Import String.
From stdpp Require Import gmap.
From S2P Require Import Prelude Wire McText McHash McItem McAssoc McSlabs McItems McDagger McOps McConn McCommands McBinary McMeta McMachine McFraming McOutput.

(** ** Responses *)

(** The packets of statistics, with the empty one that ends them, if it is there. *)
Definition stat_packets (opq : Z) (kvs : list (list Z * list Z)) : list Z :=
  concat (map (fun kv => stat_packet kv.1 kv.2 opq) kvs).

(** A response: nothing, a packet, or packets of statistics. *)
Definition whole (op opq : Z) (r : mc_resp) : Prop :=
  iov r = [] \/
  (exists vs key_len ext_len status cas,
     iov r = {| iov_base := Wbuf 0; iov_len := sizeof_header |} :: vs /\
     take 24 (wbuf r) = response_header op key_len ext_len status (iov_total vs) opq cas) \/
  (exists kvs, let bs := stat_packets opq kvs in iov r = [{| iov_base := Static bs; iov_len := Z.of_nat (length bs) |}]).

(** The statistics that were collected. *)
Definition tells (opq : Z) (s : srv) : Prop :=
  match stats_buffer (cn s) with Some bs => exists kvs, bs = stat_packets opq kvs | None => True end.

(** [r] is the last response. *)
Definition responds (rs : list mc_resp) (op opq : Z) (r : mc_resp) (s : srv) : Prop :=
  resps (cn s) = rs ++ [r] /\ opcode (binary_header (cn s)) = op /\ opaque (cn s) = opq /\ protocol (cn s) = binary_prot /\
  length (wbuf r) = Z.to_nat WRITE_BUFFER_SIZE /\ skip r = false /\ tells opq s.

(** What the above depends on. *)
Definition answer_view (s : srv) : list mc_resp * request_header * Z * protocol_t * option (list Z) :=
  (resps (cn s), binary_header (cn s), opaque (cn s), protocol (cn s), stats_buffer (cn s)).

Lemma responds_view rs op opq r s s' : answer_view s' = answer_view s -> responds rs op opq r s -> responds rs op opq r s'.
Proof. intros [= H1 H2 H3 H4 H5]. unfold responds, tells. by rewrite H1, H2, H3, H4, H5. Qed.

Section Replies.
Context `{E : Env} (rs : list mc_resp) (op opq : Z).

(** Changes of the last response. *)
Lemma set_resp_responds f r s :
  responds rs op opq r s -> length (wbuf (f r)) = Z.to_nat WRITE_BUFFER_SIZE -> skip (f r) = false ->
  wlp (set_resp f) (fun _ => responds rs op opq (f r)) s.
Proof.
  intros (H1 & H2 & H3 & H4 & H5 & H6 & H7) Hw Hs. unfold set_resp, get_resp. apply wlp_assoc, wlp_get_conn. rewrite H1, last_snoc.
  apply wlp_ret_bind. unfold wlp. cbn. unfold responds. cbn. rewrite H1. unfold set_last.
  split_and!; [|done..]. rewrite length_app. cbn [length]. by rewrite Nat.add_sub, take_app_length.
Qed.

Lemma get_resp_responds {A B} (f : mc_resp -> A) (k : A -> M srv B) (Q : B -> srv -> Prop) r s :
  responds rs op opq r s -> wlp (k (f r)) Q s -> wlp (bind (get_resp f) k) Q s.
Proof. intros (H1 & _) H. unfold get_resp. apply wlp_assoc, wlp_get_conn. by rewrite H1, last_snoc. Qed.

Lemma add_iov_responds b len r s :
  responds rs op opq r s ->
  wlp (resp_add_iov b len) (fun _ => responds rs op opq
    (set_tosend (tosend r + len) (set_iov (iov r ++ [{| iov_base := b; iov_len := len |}]) r))) s.
Proof.
  intros H. unfold resp_add_iov. apply (get_resp_responds _ _ _ r); [done|]. destruct (_ <? _)%nat; [|done].
  pose proof H as (_ & _ & _ & _ & Hw & Hs & _).
  match goal with |- wlp (set_resp ?f) _ _ => exact (set_resp_responds f r s H Hw Hs) end.
Qed.

Lemma wbuf_put_responds off bs r s :
  responds rs op opq r s ->
  wlp (wbuf_put off bs) (fun _ => responds rs op opq (set_wbuf (splice (Z.to_nat off) bs (wbuf r)) r)) s.
Proof.
  intros H. unfold wbuf_put. destruct (_ && _) eqn:Eb; [|done]. apply andb_true_iff in Eb as [E1 E2]. apply Z.leb_le in E1, E2.
  pose proof H as (_ & _ & _ & _ & Hw & Hs & _). 
  match goal with |- wlp (set_resp ?f) _ _ => apply (set_resp_responds f r s H); [|done] end. cbn [wbuf set_wbuf].
  rewrite !length_app, length_take, length_drop, Hw. lia.
Qed.

(** A response that is being built: the header is there, [vs] are the vectors behind it. *)
Definition headed (body : Z) (vs : list iovec) (r : mc_resp) : Prop :=
  iov r = {| iov_base := Wbuf 0; iov_len := sizeof_header |} :: vs /\
  exists key_len ext_len status cas, take 24 (wbuf r) = response_header op key_len ext_len status body opq cas.

Lemma headed_whole body vs r : headed body vs r -> be_bytes 4 body = be_bytes 4 (iov_total vs) -> whole op opq r.
Proof.
  intros [Hv (kl & el & st & cas & Hw)] Hb. right. left. exists vs, kl, el, st, cas. split; [done|]. rewrite Hw.
  unfold response_header. by rewrite Hb.
Qed.

Lemma header_length a b c d e f g : length (response_header a b c d e f g) = 24%nat.
Proof. unfold response_header, be_bytes. rewrite !length_app, !length_rev, !length_le_bytes. done. Qed.

Lemma splice_head bs l : take (length bs) (splice 0 bs l) = bs.
Proof. unfold splice. rewrite take_0. cbn [app]. apply take_app_length. Qed.

(** ** The functions that build responses *)
Lemma reset_responds r s : responds rs op opq r s ->
  wlp resp_reset (fun _ s' => exists r', responds rs op opq r' s' /\ iov r' = [] /\ wbuf r' = wbuf r) s.
Proof.
  intros H. unfold resp_reset. apply (get_resp_responds _ _ _ r); [done|]. apply wlp_bind.
  eapply (wlp_mono _ (fun _ s' => exists r', responds rs op opq r' s' /\ wbuf r' = wbuf r)).
  - intros [] s1 (r1 & H1 & Hw1). pose proof H1 as (_ & _ & _ & _ & Hw & _).
    match goal with |- wlp (set_resp ?f) _ _ => pose proof (set_resp_responds f r1 s1 H1 Hw eq_refl) as H2 end.
    eapply wlp_mono; [|exact H2]. intros [] s2 H3. eexists. split; [exact H3|]. done.
  - destruct (negb _); [|apply wlp_ret; by exists r].
    apply (wlp_keeps answer_view); [frame|]. intros [] s1 H1. pose proof (responds_view _ _ _ _ _ _ H1 H) as H2.
    pose proof H2 as (_ & _ & _ & _ & Hw & Hs & _).
    pose proof (set_resp_responds (set_resp_item 0) r s1 H2 Hw Hs) as H3. eapply wlp_mono; [|exact H3].
    intros [] s2 H4. eexists. by split; [exact H4|].
Qed.

Lemma header_responds err hl kl bl r s : responds rs op opq r s ->
  wlp (add_bin_header err hl kl bl) (fun _ s' => exists r', responds rs op opq r' s' /\ headed bl [] r') s.
Proof.
  intros H. unfold add_bin_header. apply wlp_bind. eapply wlp_mono; [|by apply (reset_responds r)].
  intros [] s1 (r1 & H1 & Hv & _). apply wlp_gets. pose proof H1 as (_ & -> & -> & _ & Hw & _).
  apply wlp_bind. eapply wlp_mono; [|by apply (wbuf_put_responds _ _ r1)]. intros [] s2 H2.
  apply wlp_bind. pose proof H2 as (_ & _ & _ & _ & Hw2 & Hs2 & _).
  eapply wlp_mono; [|exact (set_resp_responds (set_wbytes sizeof_header) _ s2 H2 Hw2 Hs2)]. intros [] s3 H3.
  eapply wlp_mono; [|by apply add_iov_responds]. intros [] s4 H4. eexists. split; [exact H4|]. cbn [iov set_tosend set_iov set_wbytes set_wbuf wbuf].
  split; [cbn; by rewrite Hv|]. exists kl, hl, err, (last_cas (cn s1)).
  rewrite <- (header_length op kl hl err bl opq (last_cas (cn s1))) at 1. apply splice_head.
Qed.

Lemma headed_add b len body vs r : headed body vs r ->
  headed body (vs ++ [{| iov_base := b; iov_len := len |}]) (set_tosend (tosend r + len) (set_iov (iov r ++ [{| iov_base := b; iov_len := len |}]) r)).
Proof. intros [Hv Hw]. split; [cbn; by rewrite Hv|done]. Qed.

(** ** Commands *)

(** A part of a command that leaves a whole response, when it found an empty one. *)
Definition answers {A} (m : M srv A) : Prop :=
  forall r s, responds rs op opq r s -> iov r = [] ->
    wlp m (fun _ s' => exists r', responds rs op opq r' s' /\ whole op opq r') s.

Lemma answers_bind {A B} (m : M srv A) (k : A -> M srv B) : keeps answer_view m -> (forall a, answers (k a)) -> answers (bind m k).
Proof.
  intros Hm Hk r s H Hv. apply (wlp_keeps answer_view); [done|]. intros a s1 H1. apply (Hk a r); [|done]. by apply (responds_view _ _ _ _ s).
Qed.
Lemma answers_then {A B} (m : M srv A) (k : A -> M srv B) : answers m -> (forall a, keeps answer_view (k a)) -> answers (bind m k).
Proof.
  intros Hm Hk r s H Hv. apply wlp_bind. eapply wlp_mono; [|by apply (Hm r)]. intros a s1 (r1 & H1 & Hw).
  eapply wlp_mono; [|apply Hk]. intros x s2 H2. exists r1. split; [|done]. by apply (responds_view _ _ _ _ s1).
Qed.
Lemma answers_keeps {A} (m : M srv A) : keeps answer_view m -> answers m.
Proof.
  intros Hm r s H Hv. eapply wlp_mono; [|apply Hm]. intros a s1 H1. exists r. split; [by apply (responds_view _ _ _ _ s)|by left].
Qed.

Lemma answers_wbuf {B} off bs (k : unit -> M srv B) : (forall a, answers (k a)) -> answers (bind (wbuf_put off bs) k).
Proof.
  intros Hk r s H Hv. apply wlp_bind. eapply wlp_mono; [|by apply (wbuf_put_responds off bs r)]. intros a s1 H1.
  by apply (Hk a _ s1 H1).
Qed.

Lemma answers_regroup {A B C} (m : M srv A) (k : A -> M srv B) (k' : B -> M srv C) :
  answers (bind (bind m k) k') -> answers (bind m (fun a => bind (k a) k')).
Proof. intros H r s Hr Hv. by apply wlp_assoc_inv, (H r). Qed.

(** A header, and what it announces. *)
Lemma packet_answers err hl kl len (d : iov_base_t) :
  0 <= len -> answers (add_bin_header err hl kl len ;; whenS (0 <? len) (resp_add_iov d len)).
Proof.
  intros Hl r s H Hv. apply wlp_bind. eapply wlp_mono; [|by apply (header_responds _ _ _ _ r)]. intros [] s1 (r1 & H1 & Hh).
  unfold whenS. destruct (Z.ltb_spec 0 len).
  - eapply wlp_mono; [|by apply (add_iov_responds _ _ r1)]. intros [] s2 H2. eexists. split; [exact H2|].
    eapply headed_whole; [by apply headed_add|]. f_equal. cbn. lia.
  - apply wlp_ret. exists r1. split; [done|]. eapply headed_whole; [exact Hh|]. f_equal. cbn. lia.
Qed.

Lemma error_answers e t n : answers (write_bin_error e t n).
Proof.
  unfold write_bin_error. cbv zeta. apply answers_regroup, answers_then; [apply packet_answers; apply Zle_0_nat|]. intros _. frame.
Qed.

Lemma response_answers d hl kl dl : 0 <= dl -> answers (write_bin_response d hl kl dl).
Proof.
  intros Hd. unfold write_bin_response. apply answers_bind; [frame|]. intros c. apply answers_then; [|intros _; frame].
  destruct (_ || _); [by apply packet_answers|apply answers_keeps; frame].
Qed.

Lemma oom_answers v : answers (out_of_memory v).
Proof.
  intros r s H Hv. pose proof H as (_ & _ & _ & Hp & _). unfold out_of_memory. apply wlp_get_conn. rewrite Hp.
  by apply (error_answers _ _ _ r).
Qed.

Lemma le_bytes_wrap n x : le_bytes n (wrap (8 * Z.of_nat n) x) = le_bytes n x.
Proof.
  rewrite <- le_val_bytes. rewrite <- (length_le_bytes n x) at 1. apply le_bytes_val, le_bytes_width.
Qed.

(** Writing behind the header leaves it alone. *)
Lemma splice_keeps_head off bs l : (24 <= off)%nat -> (24 <= length l)%nat -> take 24 (splice off bs l) = take 24 l.
Proof. intros H1 H2. unfold splice. rewrite take_app_le, take_take, Nat.min_l by (rewrite ?length_take; lia). done. Qed.

Lemma headed_wbuf body vs off bs r : 24 <= off -> length (wbuf r) = Z.to_nat WRITE_BUFFER_SIZE -> headed body vs r ->
  headed body vs (set_wbuf (splice (Z.to_nat off) bs (wbuf r)) r).
Proof.
  intros Ho Hl [Hv (kl & el & st & cas & Hw)]. split; [done|]. exists kl, el, st, cas. cbn [wbuf set_wbuf].
  rewrite splice_keeps_head; [done|lia|rewrite Hl; by apply Nat.leb_le].
Qed.

(** The number of the version is in the last eight bytes of the header. *)
Lemma headed_cas body vs v r : length (wbuf r) = Z.to_nat WRITE_BUFFER_SIZE -> headed body vs r ->
  headed body vs (set_wbuf (splice 16 (be_bytes 8 v) (wbuf r)) r).
Proof.
  intros Hl [Hv (kl & el & st & cas & Hw)]. split; [done|]. exists kl, el, st, v. cbn [wbuf set_wbuf]. unfold splice.
  assert (length (be_bytes 8 v) = 8%nat) as H8 by (unfold be_bytes; by rewrite length_rev, length_le_bytes).
  assert (take 16 (wbuf r) = take 16 (response_header op kl el st body opq cas)) as ->.
  { rewrite <- Hw, take_take. done. }
  assert (forall c, response_header op kl el st body opq c = take 16 (response_header op kl el st body opq cas) ++ be_bytes 8 c) as Hh by reflexivity.
  rewrite (Hh v), (assoc_L (++)). apply take_app_length'. rewrite length_app, H8, length_take, header_length. done.
Qed.

(** A part of a command that adds to a response. *)
Definition grows {A} (body : Z) (vs vs' : list iovec) (m : M srv A) : Prop :=
  forall r s, responds rs op opq r s -> headed body vs r ->
    wlp m (fun _ s' => exists r', responds rs op opq r' s' /\ headed body vs' r') s.

Lemma grows_bind {A B} body vs vs' vs'' (m : M srv A) (k : A -> M srv B) :
  grows body vs vs' m -> (forall a, grows body vs' vs'' (k a)) -> grows body vs vs'' (bind m k).
Proof. intros Hm Hk r s H Hh. apply wlp_bind. eapply wlp_mono; [|by apply (Hm r)]. intros a s1 (r1 & H1 & Hh1). by apply (Hk a r1). Qed.
Lemma grows_keeps {A} body vs (m : M srv A) : keeps answer_view m -> grows body vs vs m.
Proof. intros Hm r s H Hh. eapply wlp_mono; [|apply Hm]. intros a s1 H1. exists r. split; [by apply (responds_view _ _ _ _ s)|done]. Qed.
Lemma grows_iov body vs b len : grows body vs (vs ++ [{| iov_base := b; iov_len := len |}]) (resp_add_iov b len).
Proof.
  intros r s H Hh. eapply wlp_mono; [|by apply (add_iov_responds _ _ r)]. intros [] s1 H1. eexists. split; [exact H1|by apply headed_add].
Qed.
Lemma grows_resp body vs f : (forall r, wbuf (f r) = wbuf r /\ skip (f r) = skip r /\ iov (f r) = iov r) -> grows body vs vs (set_resp f).
Proof.
  intros Hf r s H Hh. pose proof H as (_ & _ & _ & _ & Hw & Hs & _). destruct (Hf r) as (F1 & F2 & F3).
  eapply wlp_mono; [|apply (set_resp_responds f r s H); [by rewrite F1|by rewrite F2]]. intros [] s1 H1. exists (f r). split; [done|].
  unfold headed in *. by rewrite F1, F3.
Qed.
Lemma grows_wbuf body vs off bs : 24 <= off -> grows body vs vs (wbuf_put off bs).
Proof.
  intros Ho r s H Hh. pose proof H as (_ & _ & _ & _ & Hw & _). eapply wlp_mono; [|by apply (wbuf_put_responds _ _ r)].
  intros [] s1 H1. eexists. split; [exact H1|by apply headed_wbuf].
Qed.
Lemma grows_cas body vs v : grows body vs vs (put_cas v).
Proof.
  intros r s H Hh. pose proof H as (_ & _ & _ & _ & Hw & _). eapply wlp_mono; [|by apply (wbuf_put_responds _ _ r)].
  intros [] s1 H1. eexists. split; [exact H1|by apply headed_cas].
Qed.

(** A header, and the vectors it announces. *)
Lemma answers_header {B} err hl kl body vs (k : unit -> M srv B) :
  (forall a, grows body [] vs (k a)) -> be_bytes 4 body = be_bytes 4 (iov_total vs) -> answers (bind (add_bin_header err hl kl body) k).
Proof.
  intros Hk Hb r s H Hv. apply wlp_bind. eapply wlp_mono; [|by apply (header_responds _ _ _ _ r)]. intros a s1 (r1 & H1 & Hh).
  eapply wlp_mono; [|by apply (Hk a r1)]. intros b s2 (r2 & H2 & Hh2). exists r2. split; [done|]. by apply (headed_whole body vs).
Qed.

Lemma miss_answers key : answers (write_bin_miss_response key).
Proof.
  unfold write_bin_miss_response. cbv zeta. destruct (negb _); [|apply error_answers].
  eapply answers_header.
  - intros _. eapply grows_bind; [by apply grows_wbuf|]. intros _. eapply grows_bind; [apply grows_iov|]. intros _. apply grows_keeps. frame.
  - f_equal. cbn. lia.
Qed.

(** The vectors of a response with an item. *)
Definition hit_vectors (it : Z) (i : item) (key : list Z) (cmd : Z) : list iovec :=
  [{| iov_base := Wbuf sizeof_header; iov_len := 4 |}] ++
  (if (cmd =? CMD_GETK) || (cmd =? CMD_GATK) then [{| iov_base := Data it (ITEM_key i); iov_len := Z.of_nat (length key) |}] else []) ++
  (if negb (cmd =? CMD_TOUCH) then
     [{| iov_base := if negb (has (it_flags i) ITEM_CHUNKED) then Data it (ITEM_data i) else Chunked it; iov_len := nbytes i - 2 |}] else []).

Lemma hit_answers it key cmd : answers (bin_hit it key cmd).
Proof.
  unfold bin_hit. apply answers_bind; [frame|]. intros i. cbv zeta. apply (answers_header _ _ _ _ (hit_vectors it i key cmd)).
  - intros _. unfold hit_vectors. rewrite (assoc_L (++)). 
    match goal with |- grows _ _ ((?a ++ ?b) ++ ?c) _ => set (v1 := a); set (v2 := b); set (v3 := c) end.
    eapply grows_bind; [apply grows_cas|]. intros _. eapply grows_bind; [by apply grows_wbuf|]. intros _.
    apply (grows_bind _ _ v1); [apply (grows_iov _ [])|]. intros _. apply (grows_bind _ _ (v1 ++ v2)).
    { unfold v2. destruct (_ || _); [apply grows_iov|rewrite app_nil_r; apply grows_keeps; frame]. }
    intros _. apply (grows_bind _ _ ((v1 ++ v2) ++ v3)).
    { unfold v3. destruct (negb (cmd =? CMD_TOUCH)); [|rewrite app_nil_r; apply grows_keeps; frame].
      destruct (negb _); [apply grows_iov|]. unfold resp_add_chunked_iov.
      eapply grows_bind; [by apply grows_resp|]. intros _. apply grows_iov. }
    intros _. eapply grows_bind; [apply grows_keeps; frame|]. intros _. by apply grows_resp.
  - unfold be_bytes. rewrite (le_bytes_wrap 4). f_equal. f_equal. unfold hit_vectors.
    destruct (Z.eqb_spec cmd CMD_TOUCH) as [->|]; [done|]. cbn [negb andb].
    destruct (_ || _); cbn; lia.
Qed.

(** ** Statistics *)

(** A part of a command that leaves the response alone. *)
Definition steady {A} (m : M srv A) : Prop := forall r s, responds rs op opq r s -> wlp m (fun _ => responds rs op opq r) s.

Lemma steady_keeps {A} (m : M srv A) : keeps answer_view m -> steady m.
Proof. intros Hm r s H. eapply wlp_mono; [|apply Hm]. intros a s1 H1. by apply (responds_view _ _ _ _ s). Qed.
Lemma steady_bind {A B} (m : M srv A) (k : A -> M srv B) : steady m -> (forall a, steady (k a)) -> steady (bind m k).
Proof. intros Hm Hk r s H. apply wlp_bind. eapply wlp_mono; [|by apply Hm]. intros a s1 H1. by apply Hk. Qed.
Lemma answers_steady {A B} (m : M srv A) (k : A -> M srv B) : steady m -> (forall a, answers (k a)) -> answers (bind m k).
Proof. intros Hm Hk r s H Hv. apply wlp_bind. eapply wlp_mono; [|by apply Hm]. intros a s1 H1. by apply (Hk a r). Qed.

Lemma grow_loop_view n a b c : keeps answer_view (grow_loop n a b c).
Proof. revert a. induction n; intros; cbn [grow_loop]; frame. Qed.

Lemma grow_stats_steady n : steady (grow_stats_buf n).
Proof.
  pose proof grow_loop_view. unfold grow_stats_buf. do 3 (apply steady_bind; [apply steady_keeps; frame|intros ?]).
  destruct (negb _); [|apply steady_keeps; frame]. apply steady_bind; [apply steady_keeps; frame|intros ok].
  apply steady_bind; [|intros _; apply steady_keeps; frame]. unfold whenS. destruct ok; [|apply steady_keeps; frame].
  intros r s (H1 & H2 & H3 & H4 & H5 & H6 & H7). unfold wlp, responds, tells in *. cbn.
  split_and!; [done..|]. destruct (stats_buffer (cn s)) as [bs|]; [done|]. by exists [].
Qed.

Lemma append_bin_steady key val : steady (append_bin_stats key val).
Proof.
  intros r s (H1 & H2 & H3 & H4 & H5 & H6 & H7). unfold wlp, responds, tells in *. cbn. split_and!; [done..|]. rewrite H3.
  assert (exists kvs, default [] (stats_buffer (cn s)) = stat_packets opq kvs) as [kvs ->]
    by (destruct (stats_buffer (cn s)); [done|by exists []]).
  exists (kvs ++ [(key, val)]). unfold stat_packets. rewrite map_app, concat_app. cbn. by rewrite app_nil_r.
Qed.

Lemma append_stats_steady kv : steady (append_stats kv).
Proof.
  destruct kv as [key val]. unfold append_stats. destruct (_ && _); [apply steady_keeps; frame|].
  apply steady_bind; [apply grow_stats_steady|]. intros []; [apply append_bin_steady|apply steady_keeps; frame].
Qed.
Lemma append_all_steady kvs : steady (append_all kvs).
Proof.
  induction kvs as [|kv kvs IH]; cbn [append_all]; [apply steady_keeps; frame|].
  apply steady_bind; [apply append_stats_steady|by intros _].
Qed.

Lemma send_stats_answers v : answers (send_stats v).
Proof.
  intros r s H Hv. unfold send_stats. apply wlp_get_conn. pose proof H as (_ & _ & _ & _ & _ & _ & Ht). unfold tells in Ht.
  destruct (stats_buffer (cn s)) as [bs|]; [|by apply (oom_answers _ r)]. destruct Ht as [kvs ->].
  apply wlp_bind. eapply wlp_mono; [|by apply (add_iov_responds _ _ r)]. intros [] s1 (H1 & H2 & H3 & H4 & H5 & H6 & H7).
  apply wlp_set_conn. unfold wlp. cbn. eexists. split; [split_and!; [exact H1|done..]|].
  right. right. exists kvs. cbn. by rewrite Hv.
Qed.

Lemma end_stats_answers : answers end_stats.
Proof. apply answers_steady; [apply append_stats_steady|]. intros _. apply send_stats_answers. Qed.

Lemma stat_answers key : answers (process_bin_stat key).
Proof.
  unfold process_bin_stat. cbv zeta. apply answers_bind; [frame|]. intros sub.
  repeat first [ apply end_stats_answers | apply send_stats_answers | apply error_answers | apply oom_answers
               | apply answers_steady; [first [apply append_all_steady | apply append_stats_steady | apply steady_keeps; solve [frame]]|intros ?]
               | case_match ].
Qed.
End Replies.

Create HintDb answer.
#[export] Hint Resolve error_answers oom_answers miss_answers hit_answers stat_answers : answer.

Ltac answer :=
  match goal with
  | |- answers _ _ _ (bind (wbuf_put _ _) _) => apply answers_wbuf; intros ?; answer
  | |- answers _ _ _ (bind _ _) =>
      first [ apply answers_bind; [solve [frame]|intros ?; answer] | apply answers_then; [answer|intros ?; solve [frame]] ]
  | |- answers _ _ _ (match ?x with _ => _ end) => destruct x; answer
  | |- answers _ _ _ (write_bin_response _ _ _ _) => apply response_answers; first [done | lia]
  | |- answers _ _ _ _ => first [solve [auto with answer] | apply answers_keeps; solve [frame]]
  | |- answers _ _ _ ?m => unfold_head m; cbv beta zeta; answer
  end.

Section Commands_answer.
Context `{E : Env} (rs : list mc_resp) (op opq : Z).

Lemma dispatch_answers key ext : answers rs op opq (dispatch_bin_command key ext).
Proof. unfold dispatch_bin_command. answer. Qed.

Lemma complete_answers : answers rs op opq complete_nread_binary.
Proof. answer. Qed.
End Commands_answer.

Section Responses.
Context `{E : Env}.

End Responses.
