(* ===== verification/McRuns.v ===== *)
(** * memcached: a server to run

    A concrete server: the functions that the model leaves open ([Env]) instantiated by
    simple ones that obey what is assumed of them, and a new connection over a scripted
    network.  The statements about all runs are applied to it, and some runs show what the
    code does on inputs that it does not handle well. *)

From Stdlib Require Import String.
From stdpp Require Import gmap.
From S2P Require Import Prelude Wire McText McHash McBip McItem McAssoc McSlabs McSlabRun McItems McDagger McStore McServe McAnswers McFull McOps McConn McCommands McBinary McMeta McMachine McFraming McPackets McStream McRequests McRounds McOutput McReplies.

(** Nothing fails, and stats answers with nothing but its end. *)
#[export] Instance trial_env : Env := {|
  malloc_result := bump_malloc; trylock := fun _ _ => true; rebalance_trylock := fun _ => true;
  process_started := 2; sys_ok := fun _ => true; version := str "1.6.6"; strtod := fun _ => (0, false, O);
  logger_add_watcher := fun _ _ => LOGGER_ADD_WATCHER_OK; lru_crawler_crawl := fun _ _ _ => CRAWLER_OK;
  start_item_crawler_thread := fun _ => true; stop_item_crawler_thread := fun _ => true;
  process_stat := fun _ => out_string (str "END"); server_stats := fun _ => [(str "version", str "1.6.6")];
  process_stat_settings := fun _ => []; get_stats := fun _ _ => Some []; stats_prefix_dump := fun _ => None; rbuf_behind := fun _ => [] |}.

Lemma trial_stat_keeps ts : keeps io (process_stat ts).
Proof. apply out_string_keeps. Qed.
Lemma trial_stat_settles ts : settles 0 (process_stat ts).
Proof. apply out_string_settles. Qed.
Lemma trial_stat_swallows ts : keeps swallows (process_stat ts).
Proof. apply out_string_swallows. Qed.
Lemma trial_stat_tallies ts : tallies (process_stat ts).
Proof. apply out_string_tallies. Qed.

Definition trial_options : options := Build_options 0 true false true true true 0 0 true 20 0 0 0.

(** As [conn_new] leaves it. *)
Definition trial_conn : conn :=
  {| state := conn_new_cmd; ev_flags := EV_READ_PERSIST; rbuf := false; rsize := 0; rpos := 0; unread := [];
     rbuf_malloced := false; resps := []; ritem := 0; rlbytes := 0; citem := 0; sbytes := 0; cmd := NREAD_NONE;
     noreply := false; set_stale := false; mset_res := false; close_after_write := false; last_cas := 0;
     protocol := negotiating_prot; binary_header := no_header; bcmd := -1; opaque := 0; substate := bin_no_state;
     stats_buffer := None; stats_size := 0 |}.

(** A megabyte in four classes of items. *)
Definition trial_memory : mc :=
  match start small_settings bump_malloc 4 65536 grow_125 too_big_125 empty_mc with
  | Ret _ s => with_bumps [McBip.bipbuf_init (replicate 128 0) 128] s
  | _ => empty_mc
  end.

Definition trial (ins : list rd) (outs : list wr) : srv :=
  {| memory := trial_memory; cfg := small_settings; opts := trial_options; cn := trial_conn; errno := 0; sys_calls := 0;
     incoming := ins; outgoing := outs; output := []; thread := 0%nat; interrupted := false |}.

Definition line (s : string) : list Z := str s ++ CRLF.

(** [k] events, between which nothing happens. *)
Definition events (k : nat) : list (mc -> mc) := replicate k (fun m => m).

Definition sent (k : nat) (s : srv) : option (list Z) :=
  match worker 300 (events k) s with Ret _ s' => Some (output s') | _ => None end.

(** ** The theorems on a run *)

(** A value that contains a command line, in three pieces of the stream. *)
Definition nested : list rd :=
  [RdData (line "set a 0 0 7" ++ str "get "); RdAgain; RdData (line "b" ++ CRLF ++ str "ge"); RdAgain; RdData (line "t a")].


Lemma machine_stops_witness :
  let s := trial [RdData (line "version")] [WrTake 3; WrTake 100] in
  rounds s = 190%nat /\ drive_machine 500 s = drive_machine (rounds s) s /\
  (forall s', drive_machine 500 s <> Ret false s').
Proof.
  intros s. split; [vm_compute; reflexivity|].
  apply (machine_stops trial_stat_keeps trial_stat_settles trial_stat_swallows 500 s); [split; [intros ?; reflexivity|right; right; vm_compute; discriminate]|vm_compute; lia].
Defined.

(** Two responses, of which [sendmsg] takes five bytes. *)
Definition two_responses : list mc_resp :=
  [set_tosend 4 (set_iov [{| iov_base := Static (str "OK"); iov_len := 2 |}; {| iov_base := Static CRLF; iov_len := 2 |}] empty_resp);
   set_tosend 5 (set_iov [{| iov_base := Static (line "END"); iov_len := 5 |}] empty_resp)].


Lemma responses_tallied_witness :
  let s := trial [RdData (line "set k 0 0 1" ++ line "v" ++ line "get k")] [WrTake 4; WrAgain] in
  wlp (worker 300 (events 3)) (fun _ => all_tallied) s /\
  match worker 300 (events 3) s with Ret _ s' => map tosend (resps (cn s')) = [4; 21] | _ => False end.
Proof.
  intros s. split; [|vm_compute; reflexivity]. apply (responses_tallied trial_stat_tallies 300 (events 3) s). constructor.
Defined.

(** ** A client of the binary protocol *)
Definition bin_set (key val : string) (opaque : Z) : request :=
  {| r_op := CMD_SET; r_ext := replicate 8 0; r_key := str key; r_val := str val; r_opaque := opaque; r_cas := 0 |}.
Definition bin_getk (key : string) (opaque : Z) : request :=
  {| r_op := CMD_GETK; r_ext := []; r_key := str key; r_val := []; r_opaque := opaque; r_cas := 0 |}.

Definition bin_client : list request := [bin_set "a" "hello" 17; bin_getk "a" 18].

(** The stream in two pieces. *)
Definition in_pieces (bs : list Z) : list rd := [RdData (take 30 bs); RdAgain; RdData (drop 30 bs)].


(** A request with an unknown command and a key as long as a header: the request behind it is
    swallowed and never answered. *)
Definition unknown_request : request :=
  {| r_op := 64; r_ext := []; r_key := replicate 24 107; r_val := []; r_opaque := 7; r_cas := 0 |}.

Definition noop_request : request :=
  {| r_op := CMD_NOOP; r_ext := []; r_key := []; r_val := []; r_opaque := 8; r_cas := 0 |}.

Lemma unknown_command_overruns_witness :
  let s := trial (in_pieces (encode unknown_request ++ encode noop_request)) [WrTake 1000; WrTake 1000] in
  worker_commands 300 (events 6) s `prefix_of` packet unknown_request :: commands_of binary_prot (drop (0 + 24) (encode noop_request)) /\
  worker_commands 300 (events 6) s = [packet unknown_request] /\
  sent 6 s = Some (response_header 64 0 0 129 15 7 0 ++ str "Unknown command").
Proof.
  assert (sized_request unknown_request) as Hs by (repeat split; vm_compute; discriminate || reflexivity).
  assert (arriving (in_pieces (encode unknown_request ++ encode noop_request)) = encode unknown_request ++ encode noop_request) as Ha
    by (vm_compute; reflexivity).
  intros s. split; [|split; vm_compute; reflexivity].
  exact (unknown_command_overruns trial_stat_keeps trial_stat_settles trial_stat_swallows unknown_request (encode noop_request) 300 (events 6) s
    Hs eq_refl eq_refl eq_refl eq_refl eq_refl ltac:(done) ltac:(discriminate) Ha).
Defined.

