(* ===== verification/McCrc.v ===== *)
(** * memcached: CRC-32C

    src/sw/apps/memcached/memcached/crc32c.c: the checksum by table look-up for a
    little-endian and for a big-endian machine, and by the crc32 instruction of the
    processor in three interleaved streams, which are joined by matrices over the field of
    two elements.  All of them compute what the definition of the checksum, one bit at a
    time, gives.

    A buffer is its list of bytes and the address of the first one, of which only the
    alignment matters; [pthread_once] makes the tables before they are used. *)

From stdpp Require Import list.
From S2P Require Import Prelude Wire McHash.

Definition POLY : Z := 0x82f63b78.

(** [crc & 1 ? (crc >> 1) ^ POLY : crc >> 1] *)
Definition crc_bit (crc : Z) : Z := if Z.testbit crc 0 then Z.lxor (Z.shiftr crc 1) POLY else Z.shiftr crc 1.

Definition not32 (crc : Z) : Z := u32 (Z.lnot crc).

(** ** The crc32 instruction *)
Section Hardware.
Context (crc32b crc32q : Z -> Z -> Z).

(** A matrix has 32 rows and [vec] 32 bits, so that the rows last. *)
Fixpoint gf2_matrix_times (mat : list Z) (vec : Z) : Z :=
  match mat with
  | [] => 0
  | row :: mat' =>
      if vec =? 0 then 0 else Z.lxor (if Z.testbit vec 0 then row else 0) (gf2_matrix_times mat' (Z.shiftr vec 1))
  end.

Definition gf2_matrix_square (mat : list Z) : list Z := map (gf2_matrix_times mat) mat.

(** The loop, at its beginning; [len] has 64 bits. *)
Fixpoint zeros_loop (n : nat) (odd : list Z) (len : Z) : list Z :=
  match n with
  | O => odd
  | S n' =>
      let even := gf2_matrix_square odd in
      let len := Z.shiftr len 1 in
      if len =? 0 then even
      else
        let odd := gf2_matrix_square even in
        let len := Z.shiftr len 1 in
        if len =? 0 then odd else zeros_loop n' odd len
  end.

Definition one_zero_bit : list Z := POLY :: map (fun n => Z.shiftl 1 (Z.of_nat n)) (seq 0 31).

Definition crc32c_zeros_op (len : Z) : list Z :=
  zeros_loop 32 (gf2_matrix_square (gf2_matrix_square one_zero_bit)) len.

Definition crc32c_zeros (len : Z) : list (list Z) :=
  let op := crc32c_zeros_op len in
  map (fun k => map (fun n => gf2_matrix_times op (Z.shiftl (Z.of_nat n) (8 * Z.of_nat k))) (seq 0 256)) (seq 0 4).

(** [table[k][n]] *)
Definition entry (table : list (list Z)) (k : nat) (n : Z) : Z := nth (Z.to_nat n) (nth k table []) 0.

Definition crc32c_shift (zeros : list (list Z)) (crc : Z) : Z :=
  Z.lxor (Z.lxor (Z.lxor (entry zeros 0 (Z.land crc 255)) (entry zeros 1 (Z.land (Z.shiftr crc 8) 255)))
    (entry zeros 2 (Z.land (Z.shiftr crc 16) 255))) (entry zeros 3 (Z.shiftr crc 24)).

Definition LONG : Z := 8192.
Definition SHORT : Z := 256.

(** The little-endian word at offset [off]. *)
Definition word_le (off : nat) (bs : list Z) : Z := le_val (slice off 8 bs).

(** [n] rounds of the three streams, which are [l] bytes apart. *)
Fixpoint streams (n : nat) (l : nat) (bs : list Z) (crc0 crc1 crc2 : Z) : Z * Z * Z :=
  match n with
  | O => (crc0, crc1, crc2)
  | S n' =>
      streams n' l (drop 8 bs) (crc32q crc0 (word_le 0 bs)) (crc32q crc1 (word_le l bs)) (crc32q crc2 (word_le (2 * l) bs))
  end.

(** [while (len >= l*3)]; each round takes [3 l] bytes. *)
Fixpoint block_loop (n : nat) (l : nat) (zeros : list (list Z)) (bs : list Z) (crc0 : Z) : Z * list Z :=
  match n with
  | O => (crc0, bs)
  | S n' =>
      if (3 * l <=? length bs)%nat then
        let '(crc0, crc1, crc2) := streams (l / 8) l bs crc0 0 0 in
        let crc0 := Z.lxor (crc32c_shift zeros (u32 crc0)) crc1 in
        let crc0 := Z.lxor (crc32c_shift zeros (u32 crc0)) crc2 in
        block_loop n' l zeros (drop (3 * l) bs) crc0
      else (crc0, bs)
  end.

(** The bytes in front of an eight-byte boundary. *)
Fixpoint align_loop (byte : Z -> Z -> Z) (next : Z) (bs : list Z) (crc : Z) : Z * list Z :=
  match bs with
  | [] => (crc, [])
  | b :: bs' => if Z.land next 7 =? 0 then (crc, bs) else align_loop byte (next + 1) bs' (byte crc b)
  end.

(** Whole words. *)
Fixpoint word_loop (word : Z -> list Z -> Z) (bs : list Z) (crc : Z) : Z * list Z :=
  match bs with
  | b0 :: b1 :: b2 :: b3 :: b4 :: b5 :: b6 :: b7 :: bs' =>
      word_loop word bs' (word crc [b0; b1; b2; b3; b4; b5; b6; b7])
  | _ => (crc, bs)
  end.

Definition crc32c_hw (crc next : Z) (buf : list Z) : Z :=
  let crc0 := not32 crc in
  let '(crc0, bs) := align_loop crc32b next buf crc0 in
  let '(crc0, bs) := block_loop (length bs) (Z.to_nat LONG) (crc32c_zeros LONG) bs crc0 in
  let '(crc0, bs) := block_loop (length bs) (Z.to_nat SHORT) (crc32c_zeros SHORT) bs crc0 in
  let '(crc0, bs) := word_loop (fun c w => crc32q c (le_val w)) bs crc0 in
  not32 (fold_left crc32b bs crc0).
End Hardware.

(** ** Tables *)
Definition table_byte (n : nat) : Z := Nat.iter 8 crc_bit (Z.of_nat n).
Definition table_0 : list Z := map table_byte (seq 0 256).

(** The entry [k] of the column that starts with [crc]. *)
Fixpoint column (table : list Z) (k : nat) (crc : Z) : Z :=
  match k with
  | O => crc
  | S k' => let crc := column table k' crc in Z.lxor (nth (Z.to_nat (Z.land crc 255)) table 0) (Z.shiftr crc 8)
  end.

Definition crc32c_init_sw_little : list (list Z) := map (fun k => map (column table_0 k) table_0) (seq 0 8).

(** [crc32c_table[0][(crc ^ b) & 0xff] ^ (crc >> 8)] *)
Definition sw_byte (table : list Z) (crc b : Z) : Z :=
  Z.lxor (nth (Z.to_nat (Z.land (Z.lxor crc b) 255)) table 0) (Z.shiftr crc 8).

Definition byte_of (x : Z) (i : nat) : Z := Z.land (Z.shiftr x (8 * Z.of_nat i)) 255.

Definition sw_word_little (table : list (list Z)) (crcw : Z) (w : list Z) : Z :=
  let crcw := Z.lxor crcw (le_val w) in
  foldr (fun i acc => Z.lxor (entry table (7 - i) (byte_of crcw i)) acc) 0 (seq 0 8).

Definition crc32c_sw_little (crc next : Z) (buf : list Z) : Z :=
  let table := crc32c_init_sw_little in
  let crc := not32 crc in
  let '(crc, bs) := align_loop (sw_byte (nth 0 table [])) next buf crc in
  let '(crc, bs) := word_loop (sw_word_little table) bs crc in
  not32 (fold_left (sw_byte (nth 0 table [])) bs crc).

(** [__builtin_bswap64] *)
Definition swap (x : Z) : Z := le_val (rev (le_bytes 8 x)).

Definition crc32c_init_sw_big : list (list Z) := map (fun k => map (fun crc => swap (column table_0 k crc)) table_0) (seq 0 8).

(** A word of a big-endian machine. *)
Definition sw_word_big (table : list (list Z)) (crcw : Z) (w : list Z) : Z :=
  let crcw := Z.lxor crcw (le_val (rev w)) in
  foldr (fun i acc => Z.lxor (entry table i (byte_of crcw i)) acc) 0 (seq 0 8).

(** [swap] is done only when there is a whole word. *)
Definition crc32c_sw_big (crc next : Z) (buf : list Z) : Z :=
  let crc := not32 crc in
  let '(crc, bs) := align_loop (sw_byte table_0) next buf crc in
  let '(crc, bs) :=
    if (8 <=? length bs)%nat then
      let '(crcw, bs) := word_loop (sw_word_big crc32c_init_sw_big) bs (swap crc) in (u32 (swap crcw), bs)
    else (crc, bs) in
  not32 (fold_left (sw_byte table_0) bs crc).

(** The byte order of the machine, from its first byte of an [int] that is 1. *)
Definition crc32c_sw (little : bool) (crc next : Z) (buf : list Z) : Z :=
  if little then crc32c_sw_little crc next buf else crc32c_sw_big crc next buf.

Definition crc32c_init (crc32b crc32q : Z -> Z -> Z) (sse42 little : bool) : Z -> Z -> list Z -> Z :=
  if sse42 then crc32c_hw crc32b crc32q else crc32c_sw little.

(** ** The definition, bit by bit *)
Definition bit_steps (k : nat) (x : Z) : Z := Nat.iter k crc_bit x.
Definition crc_step (crc b : Z) : Z := bit_steps 8 (Z.lxor crc b).
Definition crc32c_ref (crc : Z) (bs : list Z) : Z := not32 (fold_left crc_step bs (not32 crc)).

(** ** Linearity *)
Lemma crc_bit_lxor a b : crc_bit (Z.lxor a b) = Z.lxor (crc_bit a) (crc_bit b).
Proof.
  unfold crc_bit. rewrite Z.lxor_spec, Z.shiftr_lxor.
  destruct (Z.testbit a 0), (Z.testbit b 0); cbn [xorb]; apply Z.bits_inj; intros i; rewrite !Z.lxor_spec;
    destruct (Z.testbit (Z.shiftr a 1) i), (Z.testbit (Z.shiftr b 1) i), (Z.testbit POLY i); done.
Qed.

Lemma bit_steps_add j k x : bit_steps (j + k) x = bit_steps j (bit_steps k x).
Proof. unfold bit_steps. apply Nat.iter_add. Qed.

Lemma bit_steps_S k x : bit_steps (S k) x = bit_steps k (crc_bit x).
Proof. rewrite <- Nat.add_1_r. apply bit_steps_add. Qed.

Lemma bit_steps_lxor k a b : bit_steps k (Z.lxor a b) = Z.lxor (bit_steps k a) (bit_steps k b).
Proof. revert a b. induction k as [|k IH]; intros a b; [done|]. by rewrite !bit_steps_S, crc_bit_lxor, IH. Qed.

Lemma bit_steps_0 k : bit_steps k 0 = 0.
Proof. induction k as [|k IH]; [done|]. by rewrite bit_steps_S. Qed.

Lemma bit_steps_shiftl k x : bit_steps k (Z.shiftl x (Z.of_nat k)) = x.
Proof.
  revert x. induction k as [|k IH]; intros x; [apply Z.shiftl_0_r|]. rewrite bit_steps_S.
  enough (crc_bit (Z.shiftl x (Z.of_nat (S k))) = Z.shiftl x (Z.of_nat k)) as -> by apply IH.
  unfold crc_bit. rewrite Z.shiftl_spec_low by lia. rewrite Z.shiftr_shiftl_l by lia. f_equal. lia.
Qed.

Lemma bit_steps_8 x : bit_steps 8 (Z.shiftl x 8) = x.
Proof. apply (bit_steps_shiftl 8). Qed.

(** The low bits are worked off, the others move down. *)
Lemma low_high n x : 0 <= n -> x = Z.lxor (wrap n x) (Z.shiftl (Z.shiftr x n) n).
Proof.
  intros Hn. apply Z.bits_inj. intros i. rewrite Z.lxor_spec. unfold wrap. destruct (decide (i < 0)); [by rewrite !Z.testbit_neg_r by lia|].
  destruct (decide (i < n)).
  - rewrite Z.mod_pow2_bits_low, Z.shiftl_spec_low by lia. by rewrite xorb_false_r.
  - rewrite Z.mod_pow2_bits_high, Z.shiftl_spec, Z.shiftr_spec by lia. rewrite xorb_false_l. f_equal. lia.
Qed.

Lemma bit_steps_split k x : bit_steps k x = Z.lxor (bit_steps k (wrap (Z.of_nat k) x)) (Z.shiftr x (Z.of_nat k)).
Proof. rewrite (low_high (Z.of_nat k) x) at 1 by lia. by rewrite bit_steps_lxor, bit_steps_shiftl. Qed.

Lemma land_255 x : Z.land x 255 = wrap 8 x.
Proof. change 255 with (Z.ones 8). apply Z.land_ones. lia. Qed.

Lemma bit_steps_byte k x : bit_steps (8 + k) x = Z.lxor (bit_steps (8 + k) (Z.land x 255)) (bit_steps k (Z.shiftr x 8)).
Proof.
  rewrite Nat.add_comm, !bit_steps_add, (bit_steps_split 8 x), bit_steps_lxor, land_255. done.
Qed.

Lemma bit_steps_table x : bit_steps 8 x = Z.lxor (bit_steps 8 (Z.land x 255)) (Z.shiftr x 8).
Proof. apply (bit_steps_byte 0). Qed.

(** ** Width *)
Lemma crc_bit_width x : in_width 32 x -> in_width 32 (crc_bit x).
Proof.
  intros Hx. assert (in_width 32 (Z.shiftr x 1)) by (apply shiftr_width; [lia..|done]).
  unfold crc_bit. destruct (Z.testbit x 0); [apply lxor_width; [lia|done|]|done]. unfold in_width, POLY. lia.
Qed.
Lemma bit_steps_width k x : in_width 32 x -> in_width 32 (bit_steps k x).
Proof. revert x. induction k as [|k IH]; intros x Hx; [done|]. rewrite bit_steps_S. by apply IH, crc_bit_width. Qed.

Lemma crc_step_width crc b : in_width 32 crc -> in_width 8 b -> in_width 32 (crc_step crc b).
Proof. intros. apply bit_steps_width, lxor_width; [lia|done|]. by apply (in_width_weaken 8). Qed.

Lemma fold_width bs crc : Forall (in_width 8) bs -> in_width 32 crc -> in_width 32 (fold_left crc_step bs crc).
Proof. intros Hb. revert crc. induction Hb as [|b bs Hb _ IH]; intros crc Hc; [done|]. by apply IH, crc_step_width. Qed.

Lemma not32_width x : in_width 32 (not32 x).
Proof. apply wrap_range. lia. Qed.

(** ** Several bytes at once *)
Lemma byte_lxor b v : in_width 8 b -> b + 256 * v = Z.lxor b (Z.shiftl v 8).
Proof.
  intros Hb. rewrite (low_high 8 (b + 256 * v)) by lia. unfold wrap. rewrite Z.shiftr_div_pow2 by lia. change (2 ^ 8) with 256.
  unfold in_width in Hb. change (2 ^ 8) with 256 in Hb. f_equal.
  - rewrite (Z.mul_comm 256), Z.mod_add by lia. apply Z.mod_small. lia.
  - f_equal. rewrite (Z.mul_comm 256), Z.div_add, Z.div_small by lia. lia.
Qed.

(** Bytes are worked off like the bits of their little-endian number. *)
Lemma fold_steps bs crc :
  Forall (in_width 8) bs -> fold_left crc_step bs crc = bit_steps (8 * length bs) (Z.lxor crc (le_val bs)).
Proof.
  intros Hb. revert crc. induction Hb as [|b bs Hb _ IH]; intros crc; [cbn; by rewrite Z.lxor_0_r|].
  cbn [fold_left length le_val]. rewrite IH, byte_lxor by done. replace (8 * S (length bs))%nat with (8 * length bs + 8)%nat by lia.
  by rewrite bit_steps_add, <- Z.lxor_assoc, (bit_steps_lxor 8), bit_steps_8.
Qed.

(** What was there before and what comes are independent. *)
Lemma fold_linear bs crc :
  Forall (in_width 8) bs -> fold_left crc_step bs crc = Z.lxor (bit_steps (8 * length bs) crc) (fold_left crc_step bs 0).
Proof. intros Hb. rewrite !fold_steps, !bit_steps_lxor, bit_steps_0, Z.lxor_0_l by done. done. Qed.

(** ** Tables *)
Lemma nth_map_seq {A} (f : nat -> A) n k d : (k < n)%nat -> nth k (map f (seq 0 n)) d = f k.
Proof. intros H. rewrite (nth_indep _ d (f 0%nat)) by (rewrite length_map, length_seq; lia). by rewrite map_nth, seq_nth. Qed.

Lemma table_0_entry n : in_width 8 n -> nth (Z.to_nat n) table_0 0 = bit_steps 8 n.
Proof.
  intros Hn. unfold in_width in Hn. unfold table_0. rewrite nth_map_seq by lia. unfold table_byte. by rewrite Z2Nat.id by lia.
Qed.

Lemma byte_width x : in_width 8 (Z.land x 255).
Proof. rewrite land_255. apply wrap_range. lia. Qed.

Lemma column_steps k crc : column table_0 k crc = bit_steps (8 * k) crc.
Proof.
  induction k as [|k IH]; [done|]. cbn [column]. rewrite table_0_entry, IH by apply byte_width.
  replace (8 * S k)%nat with (8 + 8 * k)%nat by lia. rewrite bit_steps_add. set (c := bit_steps (8 * k) crc).
  by rewrite (bit_steps_table c).
Qed.

Lemma little_entry k n : (k < 8)%nat -> in_width 8 n -> entry crc32c_init_sw_little k n = bit_steps (8 * S k) n.
Proof.
  intros Hk Hn. unfold entry, crc32c_init_sw_little. rewrite nth_map_seq by lia.
  assert (length table_0 = 256%nat) as Hl by (unfold table_0; by rewrite length_map, length_seq).
  unfold in_width in Hn. rewrite (nth_indep _ 0 (column table_0 k 0)) by (rewrite length_map, Hl; lia).
  rewrite map_nth, (table_0_entry n), column_steps by done.
  replace (8 * S k)%nat with (8 * k + 8)%nat by lia. by rewrite bit_steps_add.
Qed.

Lemma sw_byte_step crc b : in_width 8 b -> sw_byte table_0 crc b = crc_step crc b.
Proof.
  intros Hb. unfold sw_byte, crc_step. rewrite table_0_entry by apply byte_width.
  rewrite (bit_steps_table (Z.lxor crc b)). f_equal. rewrite Z.shiftr_lxor.
  rewrite (Z.shiftr_div_pow2 b) by lia. unfold in_width in Hb. rewrite (Z.div_small b) by lia. by rewrite Z.lxor_0_r.
Qed.

Lemma steps_bytes n j x :
  bit_steps (8 * n) (Z.shiftr x (8 * Z.of_nat j)) =
  Z.lxor (foldr (fun i acc => Z.lxor (bit_steps (8 * (n + j - i)) (byte_of x i)) acc) 0 (seq j n))
         (Z.shiftr x (8 * Z.of_nat (j + n))).
Proof.
  revert j. induction n as [|n IH]; intros j; [by rewrite Nat.add_0_r|]. cbn [seq foldr].
  replace (8 * S n)%nat with (8 + 8 * n)%nat by lia. rewrite bit_steps_byte, Z.shiftr_shiftr by lia.
  replace (8 * Z.of_nat j + 8) with (8 * Z.of_nat (S j)) by lia. rewrite IH.
  replace (8 * (S n + j - j))%nat with (8 + 8 * n)%nat by lia. replace (S j + n)%nat with (j + S n)%nat by lia.
  rewrite <- Z.lxor_assoc. f_equal. f_equal. apply foldr_ext; [|done|done]. intros i acc. do 2 f_equal. lia.
Qed.

Lemma byte_of_width x i : in_width 8 (byte_of x i).
Proof. apply byte_width. Qed.

Lemma word_steps x : in_width 64 x ->
  bit_steps 64 x = foldr (fun i acc => Z.lxor (bit_steps (8 * (8 - i)) (byte_of x i)) acc) 0 (seq 0 8).
Proof.
  intros Hx. pose proof (steps_bytes 8 0 x) as H. change (8 * Z.of_nat 0) with 0 in H. rewrite Z.shiftr_0_r in H.
  change (8 * 8)%nat with 64%nat in H. rewrite H.
  rewrite (Z.shiftr_div_pow2 x) by lia. unfold in_width in Hx. rewrite Z.div_small, Z.lxor_0_r by exact Hx.
  apply foldr_ext; [|done|done]. intros i acc. do 2 f_equal.
Qed.

Lemma foldr_seq_ext (f g : nat -> Z) n :
  (forall i, (i < n)%nat -> f i = g i) ->
  foldr (fun i acc => Z.lxor (f i) acc) 0 (seq 0 n) = foldr (fun i acc => Z.lxor (g i) acc) 0 (seq 0 n).
Proof.
  intros H. assert (Forall (fun i => i < n)%nat (seq 0 n)) as Hf by (apply Forall_forall; intros i Hi; apply elem_of_seq in Hi; lia).
  induction Hf as [|i l Hi _ IH]; [done|]. cbn. by rewrite H, IH.
Qed.

Lemma word_width crc w : in_width 32 crc -> Forall (in_width 8) w -> length w = 8%nat -> in_width 64 (Z.lxor crc (le_val w)).
Proof.
  intros Hc Hw Hl. apply lxor_width; [lia|by apply (in_width_weaken 32)|]. pose proof (le_val_bound w Hw) as H. by rewrite Hl in H.
Qed.

Lemma little_word crc w : in_width 32 crc -> Forall (in_width 8) w -> length w = 8%nat ->
  sw_word_little crc32c_init_sw_little crc w = fold_left crc_step w crc.
Proof.
  intros Hc Hw Hl. unfold sw_word_little. rewrite fold_steps, Hl by done. change (8 * 8)%nat with 64%nat.
  rewrite word_steps by by apply word_width. apply foldr_seq_ext. intros i Hi.
  rewrite little_entry by (lia || apply byte_of_width). do 2 f_equal. lia.
Qed.

(** ** Loops *)
Section Loops.
Context (byte : Z -> Z -> Z).
Hypothesis byte_ok : forall crc b, in_width 32 crc -> in_width 8 b -> byte crc b = crc_step crc b.

Lemma fold_byte bs crc : Forall (in_width 8) bs -> in_width 32 crc -> fold_left byte bs crc = fold_left crc_step bs crc.
Proof using byte_ok.
  intros Hb. revert crc. induction Hb as [|b bs Hb Hbs IH]; intros crc Hc; [done|]. cbn.
  rewrite byte_ok by done. by apply IH, crc_step_width.
Qed.

(** What is left of the bytes gives the checksum of all. *)
Definition leaves (crc : Z) (bs : list Z) (r : Z * list Z) : Prop :=
  in_width 32 r.1 /\ Forall (in_width 8) r.2 /\ fold_left crc_step r.2 r.1 = fold_left crc_step bs crc.

Lemma align_leaves next bs crc : Forall (in_width 8) bs -> in_width 32 crc -> leaves crc bs (align_loop byte next bs crc).
Proof using byte_ok.
  intros Hb. revert next crc. induction Hb as [|b bs Hb Hbs IH]; intros next crc Hc; [done|]. cbn [align_loop].
  destruct (_ =? _); [by split_and!; [|constructor|]|]. rewrite byte_ok by done. apply (IH (next + 1)). by apply crc_step_width.
Qed.
End Loops.

Lemma word_loop_8 word b0 b1 b2 b3 b4 b5 b6 b7 bs crc :
  word_loop word (b0 :: b1 :: b2 :: b3 :: b4 :: b5 :: b6 :: b7 :: bs) crc =
  word_loop word bs (word crc [b0; b1; b2; b3; b4; b5; b6; b7]).
Proof. done. Qed.

Lemma word_leaves word bs crc :
  (forall crc w, in_width 32 crc -> Forall (in_width 8) w -> length w = 8%nat -> word crc w = fold_left crc_step w crc) ->
  Forall (in_width 8) bs -> in_width 32 crc -> leaves crc bs (word_loop word bs crc).
Proof.
  intros Hw. remember (length bs) as n eqn:Hn. revert bs crc Hn. induction n as [n IH] using lt_wf_ind. intros bs crc Hn Hb Hc.
  destruct bs as [|b0 [|b1 [|b2 [|b3 [|b4 [|b5 [|b6 [|b7 bs]]]]]]]]; try done.
  rewrite word_loop_8.
  change (b0 :: b1 :: b2 :: b3 :: b4 :: b5 :: b6 :: b7 :: bs) with ([b0; b1; b2; b3; b4; b5; b6; b7] ++ bs) in Hb |- *.
  apply Forall_app in Hb as [H8 Hbs]. rewrite Hw by done. unfold leaves. rewrite fold_left_app.
  apply (IH (length bs)); [cbn in Hn; lia|done|done|by apply fold_width].
Qed.

(** ** The tables for a little-endian machine *)
Lemma little_row_0 : nth 0 crc32c_init_sw_little [] = table_0.
Proof. unfold crc32c_init_sw_little. rewrite nth_map_seq by lia. apply map_id. Qed.

Lemma little_correct crc next buf : Forall (in_width 8) buf -> crc32c_sw_little crc next buf = crc32c_ref crc buf.
Proof.
  intros Hb. unfold crc32c_sw_little, crc32c_ref. cbv zeta. rewrite little_row_0.
  assert (forall crc b, in_width 32 crc -> in_width 8 b -> sw_byte table_0 crc b = crc_step crc b) as Hbyte
    by (intros; by apply sw_byte_step).
  pose proof (align_leaves _ Hbyte next buf (not32 crc) Hb (not32_width crc)) as H1. destruct (align_loop _ _ _ _) as [c1 b1].
  destruct H1 as (W1 & F1 & E1). cbn [fst snd] in *.
  pose proof (word_leaves _ b1 c1 little_word F1 W1) as H2. destruct (word_loop _ _ _) as [c2 b2]. destruct H2 as (W2 & F2 & E2). cbn [fst snd] in *.
  by rewrite (fold_byte _ Hbyte), E2, E1 by done.
Qed.

(** ** The tables for a big-endian machine *)
Lemma le_val_zip a b : length a = length b -> Forall (in_width 8) a -> Forall (in_width 8) b ->
  le_val (zip_with Z.lxor a b) = Z.lxor (le_val a) (le_val b).
Proof.
  revert b. induction a as [|x a IH]; intros [|y b] Hl Ha Hb; try done. inversion_clear Ha as [|?? Hx Ha']. inversion_clear Hb as [|?? Hy Hb'].
  cbn [zip_with le_val]. rewrite IH by (done || (cbn in Hl; lia)). rewrite !byte_lxor by (done || (apply lxor_width; [lia|done..])).
  rewrite Z.shiftl_lxor. apply Z.bits_inj. intros i. rewrite !Z.lxor_spec.
  destruct (Z.testbit x i), (Z.testbit y i), (Z.testbit (Z.shiftl (le_val a) 8) i), (Z.testbit (Z.shiftl (le_val b) 8) i); done.
Qed.

Lemma le_bytes_lxor n x y : le_bytes n (Z.lxor x y) = zip_with Z.lxor (le_bytes n x) (le_bytes n y).
Proof.
  revert x y. induction n as [|n IH]; intros x y; [done|]. cbn [le_bytes zip_with]. rewrite Z.shiftr_lxor, IH. f_equal.
  rewrite <- !land_255. apply Z.bits_inj. intros i. rewrite !Z.lxor_spec, !Z.land_spec, !Z.lxor_spec.
  destruct (Z.testbit x i), (Z.testbit y i), (Z.testbit 255 i); done.
Qed.

Lemma rev_zip {A B C} (f : A -> B -> C) a b : length a = length b -> rev (zip_with f a b) = zip_with f (rev a) (rev b).
Proof.
  revert b. induction a as [|x a IH]; intros [|y b] Hl; try done. cbn. rewrite IH by (cbn in Hl; lia).
  rewrite zip_with_app by (rewrite !length_rev; cbn in Hl; lia). done.
Qed.

Lemma swap_lxor x y : swap (Z.lxor x y) = Z.lxor (swap x) (swap y).
Proof.
  unfold swap. rewrite le_bytes_lxor, rev_zip by by rewrite !length_le_bytes.
  apply le_val_zip; [by rewrite !length_rev, !length_le_bytes|apply Forall_rev, le_bytes_width..].
Qed.

Lemma swap_le w : Forall (in_width 8) w -> length w = 8%nat -> swap (le_val w) = le_val (rev w).
Proof. intros Hw Hl. unfold swap. rewrite <- Hl. by rewrite le_bytes_val. Qed.

Lemma le_bytes_swap x : le_bytes 8 (swap x) = rev (le_bytes 8 x).
Proof.
  unfold swap. assert (length (rev (le_bytes 8 x)) = 8%nat) as Hl by by rewrite length_rev, length_le_bytes.
  rewrite <- Hl at 1. apply le_bytes_val, Forall_rev, le_bytes_width.
Qed.

Lemma swap_swap x : in_width 64 x -> swap (swap x) = x.
Proof. intros Hx. unfold swap at 1. rewrite le_bytes_swap, rev_involutive, le_val_bytes. by apply wrap_small. Qed.

Lemma byte_of_nth n i x : (i < n)%nat -> nth i (le_bytes n x) 0 = byte_of x i.
Proof.
  revert i x. induction n as [|n IH]; intros [|i] x Hi; [lia..| |]; cbn [le_bytes nth].
  - unfold byte_of. by rewrite Z.shiftr_0_r, land_255.
  - rewrite IH by lia. unfold byte_of. rewrite Z.shiftr_shiftr by lia. do 2 f_equal. lia.
Qed.

Lemma byte_of_swap x i : (i < 8)%nat -> byte_of (swap x) i = byte_of x (7 - i).
Proof.
  intros Hi. rewrite <- !(byte_of_nth 8), le_bytes_swap, rev_nth by (rewrite ?length_le_bytes; lia). by rewrite length_le_bytes.
Qed.

Lemma big_entry k n : (k < 8)%nat -> in_width 8 n -> entry crc32c_init_sw_big k n = swap (bit_steps (8 * S k) n).
Proof.
  intros Hk Hn. unfold entry, crc32c_init_sw_big. rewrite nth_map_seq by lia.
  assert (length table_0 = 256%nat) as Hl by (unfold table_0; by rewrite length_map, length_seq).
  unfold in_width in Hn. rewrite (nth_indep _ 0 (swap (column table_0 k 0))) by (rewrite length_map, Hl; lia).
  rewrite (map_nth (fun crc => swap (column table_0 k crc))), (table_0_entry n), column_steps by done.
  replace (8 * S k)%nat with (8 * k + 8)%nat by lia. by rewrite bit_steps_add.
Qed.

Lemma swap_foldr (f : nat -> Z) l :
  swap (foldr (fun i acc => Z.lxor (f i) acc) 0 l) = foldr (fun i acc => Z.lxor (swap (f i)) acc) 0 l.
Proof. induction l as [|i l IH]; [done|]. cbn [foldr]. by rewrite swap_lxor, IH. Qed.

Lemma foldr_reversed (f : nat -> Z) :
  foldr (fun i acc => Z.lxor (f (7 - i)%nat) acc) 0 (seq 0 8) = foldr (fun i acc => Z.lxor (f i) acc) 0 (seq 0 8).
Proof.
  cbn [seq foldr Nat.sub]. apply Z.bits_inj. intros i. rewrite !Z.lxor_spec, Z.bits_0.
  destruct (Z.testbit (f 0%nat) i), (Z.testbit (f 1%nat) i), (Z.testbit (f 2%nat) i), (Z.testbit (f 3%nat) i),
    (Z.testbit (f 4%nat) i), (Z.testbit (f 5%nat) i), (Z.testbit (f 6%nat) i), (Z.testbit (f 7%nat) i); done.
Qed.

Lemma big_word crc w : in_width 32 crc -> Forall (in_width 8) w -> length w = 8%nat ->
  sw_word_big crc32c_init_sw_big (swap crc) w = swap (fold_left crc_step w crc).
Proof.
  intros Hc Hw Hl. unfold sw_word_big. rewrite <- swap_le, <- swap_lxor, fold_steps, Hl by done. change (8 * 8)%nat with 64%nat.
  set (x := Z.lxor crc (le_val w)). rewrite word_steps, swap_foldr by by apply word_width.
  rewrite <- (foldr_reversed (fun i => swap (bit_steps (8 * (8 - i)) (byte_of x i)))). apply foldr_seq_ext. intros i Hi.
  rewrite big_entry, byte_of_swap by (lia || apply byte_of_width). do 3 f_equal. lia.
Qed.

Lemma big_loop bs crc : Forall (in_width 8) bs -> in_width 32 crc ->
  word_loop (sw_word_big crc32c_init_sw_big) bs (swap crc) =
  let '(c, bs') := word_loop (fun c w => fold_left crc_step w c) bs crc in (swap c, bs').
Proof.
  remember (length bs) as n eqn:Hn. revert bs crc Hn. induction n as [n IH] using lt_wf_ind. intros bs crc Hn Hb Hc.
  destruct bs as [|b0 [|b1 [|b2 [|b3 [|b4 [|b5 [|b6 [|b7 bs]]]]]]]]; try done.
  set (w := [b0; b1; b2; b3; b4; b5; b6; b7]).
  rewrite !word_loop_8. fold w.
  change (Forall (in_width 8) (w ++ bs)) in Hb. apply Forall_app in Hb as [H8 Hbs]. rewrite big_word by done.
  apply (IH (length bs)); [cbn in Hn; lia|done|done|by apply fold_width].
Qed.

Lemma big_correct crc next buf : Forall (in_width 8) buf -> crc32c_sw_big crc next buf = crc32c_ref crc buf.
Proof.
  intros Hb. unfold crc32c_sw_big, crc32c_ref. cbv zeta.
  assert (forall crc b, in_width 32 crc -> in_width 8 b -> sw_byte table_0 crc b = crc_step crc b) as Hbyte
    by (intros; by apply sw_byte_step).
  pose proof (align_leaves _ Hbyte next buf (not32 crc) Hb (not32_width crc)) as H1. destruct (align_loop _ _ _ _) as [c1 b1].
  destruct H1 as (W1 & F1 & E1). cbn [fst snd] in *. destruct (8 <=? length b1)%nat; [|by rewrite (fold_byte _ Hbyte), E1 by done].
  rewrite big_loop by done.
  pose proof (word_leaves (fun c w => fold_left crc_step w c) b1 c1 ltac:(done) F1 W1) as H2.
  destruct (word_loop _ _ _) as [c2 b2]. destruct H2 as (W2 & F2 & E2). cbn [fst snd] in *.
  rewrite swap_swap by by apply (in_width_weaken 32). rewrite (wrap_small 32 c2) by done. by rewrite (fold_byte _ Hbyte), E2, E1 by done.
Qed.

(** ** Matrices *)

(** A matrix for [k] steps: row [i] is what they make of bit [i]. *)
Definition steps_matrix (k : nat) (mat : list Z) : Prop := mat = map (fun i => bit_steps k (Z.shiftl 1 (Z.of_nat i))) (seq 0 32).

Lemma times_steps k n j vec :
  in_width (Z.of_nat n) vec ->
  gf2_matrix_times (map (fun i => bit_steps k (Z.shiftl 1 (Z.of_nat i))) (seq j n)) vec = bit_steps k (Z.shiftl vec (Z.of_nat j)).
Proof.
  revert j vec. induction n as [|n IH]; intros j vec Hv.
  { assert (vec = 0) as -> by (unfold in_width in Hv; cbn in Hv; lia). cbn. by rewrite Z.shiftl_0_l, bit_steps_0. }
  cbn [seq map gf2_matrix_times]. destruct (Z.eqb_spec vec 0) as [->|H0]; [by rewrite Z.shiftl_0_l, bit_steps_0|].
  rewrite IH.
  - rewrite (low_high 1 vec) at 3 by lia. rewrite Z.shiftl_lxor, bit_steps_lxor, Z.shiftl_shiftl by lia.
    replace (1 + Z.of_nat j) with (Z.of_nat (S j)) by lia. f_equal. unfold wrap. change (2 ^ 1) with 2.
    rewrite <- Z.bit0_mod. destruct (Z.testbit vec 0); cbn [Z.b2z]; [done|]. by rewrite Z.shiftl_0_l, bit_steps_0.
  - unfold in_width in *. rewrite Z.shiftr_div_pow2 by lia. change (2 ^ 1) with 2.
    rewrite Nat2Z.inj_succ, Z.pow_succ_r in Hv by lia. split; [apply Z.div_pos; lia|apply Z.div_lt_upper_bound; lia].
Qed.

Lemma times_matrix k mat vec : steps_matrix k mat -> in_width 32 vec -> gf2_matrix_times mat vec = bit_steps k vec.
Proof. intros -> Hv. rewrite times_steps by done. by rewrite Z.shiftl_0_r. Qed.

Lemma bit_width i : (i < 32)%nat -> in_width 32 (Z.shiftl 1 (Z.of_nat i)).
Proof.
  intros Hi. rewrite Z.shiftl_1_l. unfold in_width. split; [apply Z.pow_nonneg; lia|apply Z.pow_lt_mono_r; lia].
Qed.

Lemma square_matrix k mat : steps_matrix k mat -> steps_matrix (2 * k) (gf2_matrix_square mat).
Proof.
  intros Hm. unfold steps_matrix, gf2_matrix_square. rewrite Hm at 2. rewrite map_map. apply map_ext_in. intros i Hi.
  apply in_seq in Hi. rewrite (times_matrix k) by (done || apply bit_steps_width, bit_width; lia).
  replace (2 * k)%nat with (k + k)%nat by lia. by rewrite bit_steps_add.
Qed.

Lemma one_bit_matrix : steps_matrix 1 one_zero_bit.
Proof. vm_compute. reflexivity. Qed.

(** The number of steps doubles with each square. *)
Lemma zeros_matrix n k odd len : steps_matrix k odd -> 0 < len < 2 ^ (2 * Z.of_nat n) ->
  steps_matrix (2 ^ S (Z.to_nat (Z.log2 len)) * k) (zeros_loop n odd len).
Proof.
  revert k odd len. induction n as [|n IH]; intros k odd len Hm Hl; [cbn in Hl; lia|]. cbn [zeros_loop].
  pose proof (square_matrix _ _ Hm) as H2. pose proof (square_matrix _ _ H2) as H4.
  rewrite Z.shiftr_shiftr by lia. rewrite !Z.shiftr_div_pow2 by lia. change (2 ^ 1) with 2. change (2 ^ (1 + 1)) with 4.
  destruct (Z.eqb_spec (len / 2) 0) as [E|E].
  { assert (len = 1) as -> by (apply Z.div_small_iff in E; lia). exact H2. }
  assert (2 <= len) by (destruct (decide (len = 1)) as [->|]; [done|lia]).
  destruct (Z.eqb_spec (len / 4) 0) as [E'|E'].
  { assert (Z.log2 len = 1) as -> by (apply Z.log2_unique; [lia|apply Z.div_small_iff in E'; lia]).
    change (Z.to_nat 1) with 1%nat. by replace (2 ^ 2 * k)%nat with (2 * (2 * k))%nat by (cbn [Nat.pow]; lia). }
  assert (4 <= len) by (apply Z.div_small_iff in E' || idtac; destruct (decide (len < 4)); [rewrite Z.div_small in E' by lia; done|lia]).
  assert (Z.log2 (len / 4) = Z.log2 len - 2) as Hlog.
  { change 4 with (2 ^ 2). rewrite <- Z.shiftr_div_pow2, Z.log2_shiftr by lia. pose proof (Z.log2_le_mono 4 len). change (Z.log2 4) with 2 in *. lia. }
  assert (2 <= Z.log2 len) by (pose proof (Z.log2_le_mono 4 len) as Hm4; change (Z.log2 4) with 2 in Hm4; lia).
  specialize (IH _ _ (len / 4) H4). rewrite Hlog in IH.
  replace (2 ^ S (Z.to_nat (Z.log2 len)) * k)%nat with (2 ^ S (Z.to_nat (Z.log2 len - 2)) * (2 * (2 * k)))%nat.
  - apply IH. split; [apply Z.div_str_pos; lia|]. apply Z.div_lt_upper_bound; [lia|].
    replace (4 * 2 ^ (2 * Z.of_nat n)) with (2 ^ (2 * Z.of_nat (S n))); [lia|].
    replace (2 * Z.of_nat (S n)) with (2 + 2 * Z.of_nat n) by lia. rewrite Z.pow_add_r by lia. done.
  - replace (Z.to_nat (Z.log2 len)) with (S (S (Z.to_nat (Z.log2 len - 2)))) by lia. cbn [Nat.pow]. lia.
Qed.

Lemma zeros_op_matrix p : (p < 60)%nat -> steps_matrix (8 * 2 ^ p) (crc32c_zeros_op (2 ^ Z.of_nat p)).
Proof.
  intros Hp. pose proof (square_matrix _ _ (square_matrix _ _ one_bit_matrix)) as H.
  pose proof (zeros_matrix 32 _ _ (2 ^ Z.of_nat p) H) as Hz. rewrite Z.log2_pow2, Nat2Z.id in Hz by lia.
  replace (8 * 2 ^ p)%nat with (2 ^ S p * (2 * (2 * 1)))%nat by (cbn [Nat.pow]; lia). apply Hz.
  split; [apply Z.pow_pos_nonneg; lia|]. apply Z.pow_lt_mono_r; lia.
Qed.

Lemma zeros_entry p k n : (p < 60)%nat -> (k < 4)%nat -> in_width 8 n ->
  entry (crc32c_zeros (2 ^ Z.of_nat p)) k n = bit_steps (8 * 2 ^ p) (Z.shiftl n (8 * Z.of_nat k)).
Proof.
  intros Hp Hk Hn. unfold in_width in Hn. change (2 ^ 8) with 256 in Hn. unfold entry, crc32c_zeros. rewrite nth_map_seq by lia.
  rewrite nth_map_seq by lia. rewrite Z2Nat.id by lia. apply times_matrix; [by apply zeros_op_matrix|].
  rewrite Z.shiftl_mul_pow2 by lia. unfold in_width. replace (2 ^ 32) with (2 ^ (32 - 8 * Z.of_nat k) * 2 ^ (8 * Z.of_nat k)).
  2:{ rewrite <- Z.pow_add_r by lia. f_equal. lia. }
  pose proof (Z.pow_pos_nonneg 2 (8 * Z.of_nat k) ltac:(lia) ltac:(lia)).
  assert (2 ^ 8 <= 2 ^ (32 - 8 * Z.of_nat k)) by (apply Z.pow_le_mono_r; lia). change (2 ^ 8) with 256 in *. nia.
Qed.

Lemma shift_steps p crc : (p < 60)%nat -> in_width 32 crc ->
  crc32c_shift (crc32c_zeros (2 ^ Z.of_nat p)) crc = bit_steps (8 * 2 ^ p) crc.
Proof.
  intros Hp Hc. unfold crc32c_shift.
  assert (in_width 8 (Z.shiftr crc 24)) as H3.
  { unfold in_width in *. rewrite Z.shiftr_div_pow2 by lia. split; [apply Z.div_pos; lia|apply Z.div_lt_upper_bound; lia]. }
  rewrite !zeros_entry by (lia || done || apply byte_width). rewrite <- !bit_steps_lxor. f_equal. rewrite !land_255.
  change (8 * Z.of_nat 0) with 0. change (8 * Z.of_nat 1) with 8. change (8 * Z.of_nat 2) with 16. change (8 * Z.of_nat 3) with 24.
  rewrite (low_high 8 crc) at 5 by lia. rewrite (low_high 8 (Z.shiftr crc 8)) at 2 by lia. rewrite Z.shiftr_shiftr by lia. change (8 + 8) with 16.
  rewrite (low_high 8 (Z.shiftr crc 16)) at 2 by lia. rewrite Z.shiftr_shiftr by lia. change (16 + 8) with 24.
  rewrite !Z.shiftl_lxor, !Z.shiftl_shiftl by lia. change (8 + 8) with 16. change (8 + 16) with 24. change (16 + 8) with 24.
  by rewrite Z.shiftl_0_r, !Z.lxor_assoc.
Qed.

(** ** Streams *)
Section Streams.
Context (crc32b crc32q : Z -> Z -> Z).
(** The instructions, as the manual of the processor describes them. *)
Hypothesis crc32b_doc : forall crc b, in_width 32 crc -> in_width 8 b -> crc32b crc b = bit_steps 8 (Z.lxor crc b).
Hypothesis crc32q_doc : forall crc w, in_width 32 crc -> in_width 64 w -> crc32q crc w = bit_steps 64 (Z.lxor crc w).

Lemma slice_split off a b (bs : list Z) : slice off (a + b) bs = slice off a bs ++ slice (off + a) b bs.
Proof. unfold slice. by rewrite <- drop_drop, take_take_drop. Qed.

Lemma slice_of_drop off n k (bs : list Z) : slice off n (drop k bs) = slice (off + k) n bs.
Proof. unfold slice. rewrite drop_drop. by rewrite Nat.add_comm. Qed.

Lemma slice_width off n bs : Forall (in_width 8) bs -> Forall (in_width 8) (slice off n bs).
Proof. intros. by apply Forall_take, Forall_drop. Qed.

Lemma word_instruction off bs crc : Forall (in_width 8) bs -> (off + 8 <= length bs)%nat -> in_width 32 crc ->
  crc32q crc (word_le off bs) = fold_left crc_step (slice off 8 bs) crc.
Proof using crc32q_doc.
  intros Hb Hl Hc. pose proof (slice_width off 8 bs Hb) as Hs. pose proof (slice_length off 8 bs Hl) as Hls.
  unfold word_le. rewrite crc32q_doc, fold_steps, Hls; [done|done|done|]. pose proof (le_val_bound _ Hs) as Hw. by rewrite Hls in Hw.
Qed.

Lemma streams_fold n l bs c0 c1 c2 :
  Forall (in_width 8) bs -> (2 * l + 8 * n <= length bs)%nat -> in_width 32 c0 -> in_width 32 c1 -> in_width 32 c2 ->
  streams crc32q n l bs c0 c1 c2 =
  (fold_left crc_step (slice 0 (8 * n) bs) c0, fold_left crc_step (slice l (8 * n) bs) c1, fold_left crc_step (slice (2 * l) (8 * n) bs) c2).
Proof using crc32q_doc.
  revert bs c0 c1 c2. induction n as [|n IH]; intros bs c0 c1 c2 Hb Hl H0 H1 H2; [done|]. cbn [streams].
  rewrite !word_instruction by (done || lia). replace (8 * S n)%nat with (8 + 8 * n)%nat by lia. rewrite !slice_split, !fold_left_app.
  rewrite IH; [by rewrite !slice_of_drop|by apply Forall_drop|rewrite length_drop; lia|..]; by apply fold_width; [apply slice_width|].
Qed.

(** Three streams joined are one. *)
Lemma block_leaves p n bs crc :
  (3 <= p < 60)%nat -> Forall (in_width 8) bs -> in_width 32 crc ->
  leaves crc bs (block_loop crc32q n (2 ^ p) (crc32c_zeros (2 ^ Z.of_nat p)) bs crc).
Proof using crc32q_doc.
  intros Hp. set (l := (2 ^ p)%nat). set (zeros := crc32c_zeros _). revert bs crc. induction n as [|n IH]; intros bs crc Hb Hc; [done|].
  cbn [block_loop]. destruct (Nat.leb_spec (3 * l) (length bs)) as [Hl|_]; [|done].
  assert (8 * (l / 8) = l)%nat as H8.
  { unfold l. replace p with (3 + (p - 3))%nat by lia. rewrite Nat.pow_add_r. change (2 ^ 3)%nat with 8%nat.
    rewrite (Nat.mul_comm 8 (2 ^ (p - 3))), Nat.div_mul by lia. lia. }
  rewrite streams_fold by (done || (rewrite ?H8; lia) || by apply in_width_0). rewrite H8.
  assert (forall x, in_width 32 x -> crc32c_shift zeros (u32 x) = bit_steps (8 * l) x) as Hshift.
  { intros x Hx. rewrite (wrap_small 32 x Hx). apply shift_steps; [lia|done]. }
  assert (forall off x, (off + l <= length bs)%nat -> in_width 32 x ->
    Z.lxor (crc32c_shift zeros (u32 x)) (fold_left crc_step (slice off l bs) 0) = fold_left crc_step (slice off l bs) x) as Hjoin.
  { intros off x Ho Hx. rewrite Hshift by done. rewrite (fold_linear _ x) by by apply slice_width. by rewrite slice_length. }
  assert (forall off x, in_width 32 x -> in_width 32 (fold_left crc_step (slice off l bs) x)) as Hw.
  { intros off x Hx. by apply fold_width; [apply slice_width|]. }
  rewrite (Hjoin l), (Hjoin (2 * l)%nat) by (lia || (repeat apply Hw; done)).
  destruct (IH (drop (3 * l) bs) (fold_left crc_step (slice (2 * l) l bs) (fold_left crc_step (slice l l bs) (fold_left crc_step (slice 0 l bs) crc))))
    as (W & F & Eq); [by apply Forall_drop|by repeat apply Hw|].
  split_and!; [done|done|]. rewrite Eq, <- !fold_left_app. f_equal.
  pose proof (slice_split 0 l (l + l) bs) as S1. pose proof (slice_split l l l bs) as S2. change (0 + l)%nat with l in S1.
  rewrite S2 in S1. replace (l + (l + l))%nat with (3 * l)%nat in S1 by lia. replace (2 * l)%nat with (l + l)%nat by lia.
  rewrite (assoc_L (++)), (assoc_L (++)), <- (assoc_L (++) (slice 0 l bs)), <- S1. unfold slice. rewrite drop_0. apply take_drop.
Qed.

Lemma hw_correct crc next buf : Forall (in_width 8) buf -> crc32c_hw crc32b crc32q crc next buf = crc32c_ref crc buf.
Proof using crc32b_doc crc32q_doc.
  intros Hb. unfold crc32c_hw, crc32c_ref. cbv zeta.
  pose proof (align_leaves crc32b crc32b_doc next buf (not32 crc) Hb (not32_width crc)) as H1. destruct (align_loop _ _ _ _) as [c1 b1].
  destruct H1 as (W1 & F1 & E1). cbn [fst snd] in *.
  assert (Z.to_nat LONG = 2 ^ 13 /\ Z.to_nat SHORT = 2 ^ 8)%nat as [-> ->] by (by vm_compute).
  change LONG with (2 ^ Z.of_nat 13). change SHORT with (2 ^ Z.of_nat 8).
  pose proof (block_leaves 13 (length b1) b1 c1 ltac:(lia) F1 W1) as H2. destruct (block_loop _ _ _ _ b1 c1) as [c2 b2].
  destruct H2 as (W2 & F2 & E2). cbn [fst snd] in *.
  pose proof (block_leaves 8 (length b2) b2 c2 ltac:(lia) F2 W2) as H3. destruct (block_loop _ _ _ _ b2 c2) as [c3 b3].
  destruct H3 as (W3 & F3 & E3). cbn [fst snd] in *.
  assert (forall crc w, in_width 32 crc -> Forall (in_width 8) w -> length w = 8%nat -> crc32q crc (le_val w) = fold_left crc_step w crc) as Hq.
  { intros c w Hc Hw Hl. rewrite crc32q_doc, fold_steps, Hl; [done..|]. pose proof (le_val_bound w Hw) as H. by rewrite Hl in H. }
  pose proof (word_leaves _ b3 c3 Hq F3 W3) as H4. destruct (word_loop _ b3 c3) as [c4 b4]. destruct H4 as (W4 & F4 & E4). cbn [fst snd] in *.
  by rewrite (fold_byte _ crc32b_doc), E4, E3, E2, E1 by done.
Qed.

(** C33. CRC-32C: whichever function [crc32c_init] chooses, the processor having the instruction
    or not and storing numbers with the low byte first or last, and wherever the buffer lies,
    the checksum is that of the definition, which takes one bit at a time. *)
Theorem crc32c_equivalent sse42 little crc next buf :
  Forall (in_width 8) buf -> crc32c_init crc32b crc32q sse42 little crc next buf = crc32c_ref crc buf.
Proof using crc32b_doc crc32q_doc.
  intros Hb. unfold crc32c_init, crc32c_sw. destruct sse42; [by apply hw_correct|].
  destruct little; [by apply little_correct|by apply big_correct].
Qed.
End Streams.

Lemma crc32c_equivalent_witness :
  let bs := [49; 50; 51; 52; 53; 54; 55; 56; 57] in
  let crc32b c b := bit_steps 8 (Z.lxor c b) in
  let crc32q c w := bit_steps 64 (Z.lxor c w) in
  crc32c_init crc32b crc32q true true 0 3 bs = crc32c_ref 0 bs /\
  crc32c_init crc32b crc32q false false 0 0 bs = 0xe3069283 /\ crc32c_hw crc32b crc32q 0 0 bs = 0xe3069283.
Proof.
  intros bs crc32b crc32q. split; [|split; vm_compute; reflexivity].
  apply (crc32c_equivalent crc32b crc32q); [done..|]. repeat constructor; unfold in_width; lia.
Defined.

(** ** Errors that the checksum finds *)
Lemma crc_bit_inj a b : in_width 32 a -> in_width 32 b -> crc_bit a = crc_bit b -> a = b.
Proof.
  assert (forall x, in_width 32 x -> Z.testbit (crc_bit x) 31 = Z.testbit x 0) as Htop.
  { intros x Hx. apply width_bits in Hx as [_ Hx]; [|lia].
    unfold crc_bit. destruct (Z.testbit x 0); rewrite ?Z.lxor_spec, Z.shiftr_spec, Hx by lia; done. }
  intros Ha Hb Hab. assert (Z.testbit a 0 = Z.testbit b 0) as H0 by by rewrite <- !Htop, Hab.
  assert (Z.shiftr a 1 = Z.shiftr b 1) as H1.
  { unfold crc_bit in Hab. rewrite H0 in Hab. destruct (Z.testbit b 0); [|done].
    apply (f_equal (fun x => Z.lxor x POLY)) in Hab. by rewrite !lxor_cancel in Hab. }
  rewrite (low_high 1 a), (low_high 1 b), H1 by lia. f_equal. unfold wrap. change (2 ^ 1) with 2. by rewrite <- !Z.bit0_mod, H0.
Qed.

Lemma bit_steps_inj k a b : in_width 32 a -> in_width 32 b -> bit_steps k a = bit_steps k b -> a = b.
Proof.
  revert a b. induction k as [|k IH]; intros a b Ha Hb; [done|]. rewrite !bit_steps_S. intros H.
  apply crc_bit_inj; [done..|]. by apply IH; [apply crc_bit_width..|].
Qed.

Lemma fold_inj bs a b : Forall (in_width 8) bs -> in_width 32 a -> in_width 32 b ->
  fold_left crc_step bs a = fold_left crc_step bs b -> a = b.
Proof.
  intros Hbs Ha Hb. rewrite (fold_linear bs a), (fold_linear bs b) by done. intros H.
  apply (f_equal (fun x => Z.lxor x (fold_left crc_step bs 0))) in H. rewrite !lxor_cancel in H. by apply bit_steps_inj in H.
Qed.

Lemma not32_inj a b : in_width 32 a -> in_width 32 b -> not32 a = not32 b -> a = b.
Proof.
  unfold not32, Z.lnot, in_width, wrap. intros Ha Hb H.
  rewrite <- !Z.sub_1_r in H. replace (- a - 1) with (2 ^ 32 - 1 - a + (-1) * 2 ^ 32) in H by lia.
  replace (- b - 1) with (2 ^ 32 - 1 - b + (-1) * 2 ^ 32) in H by lia. rewrite !Z.mod_add, !Z.mod_small in H by lia. lia.
Qed.

(** An error in up to four consecutive bytes always changes the checksum: two messages that
    differ, and only there, never have the same one, whatever is around them. *)
Theorem crc32c_detects_bursts crc next pre w w' post :
  Forall (in_width 8) (pre ++ w ++ post) -> Forall (in_width 8) w' -> length w' = length w -> (length w <= 4)%nat -> w' <> w ->
  crc32c_sw_little crc next (pre ++ w' ++ post) <> crc32c_sw_little crc next (pre ++ w ++ post).
Proof.
  intros Hf Hw' Hl H4 Hne Heq. pose proof Hf as Hf0. apply Forall_app in Hf as [Hpre Hf]. apply Forall_app in Hf as [Hw Hpost].
  rewrite !little_correct in Heq; [|done|by apply Forall_app; split; [|apply Forall_app; split]].
  assert (forall w, Forall (in_width 8) w -> in_width 32 (fold_left crc_step w (fold_left crc_step pre (not32 crc)))) as Hwid.
  { intros u Hu. apply fold_width; [done|]. apply fold_width; [done|apply not32_width]. }
  unfold crc32c_ref in Heq. rewrite !fold_left_app in Heq. apply not32_inj in Heq; [|by apply fold_width; auto..].
  apply fold_inj in Heq; [|by auto..]. set (c := fold_left crc_step pre (not32 crc)) in *.
  rewrite (fold_steps w), (fold_steps w'), Hl in Heq by done.
  assert (forall u, Forall (in_width 8) u -> length u = length w -> in_width 32 (le_val u)) as Hval.
  { intros u Hu Hlu. pose proof (le_val_bound u Hu). apply (in_width_weaken (8 * Z.of_nat (length u))); [lia|done]. }
  assert (in_width 32 c) as Hc by (apply fold_width; [done|apply not32_width]).
  assert (forall u, Forall (in_width 8) u -> length u = length w -> in_width 32 (Z.lxor c (le_val u))) as Hx by (intros; apply lxor_width; [lia|done|auto]).
  apply bit_steps_inj in Heq; [|by apply Hx..].
  apply (f_equal (Z.lxor c)) in Heq. rewrite <- !Z.lxor_assoc, Z.lxor_nilpotent, !Z.lxor_0_l in Heq. apply Hne.
  rewrite <- (le_bytes_val w), <- (le_bytes_val w'), Hl, Heq by done. done.
Qed.

Lemma crc32c_detects_bursts_witness : crc32c_sw_little 0 0 ([1; 2] ++ [3; 9; 5] ++ [6]) <> crc32c_sw_little 0 0 ([1; 2] ++ [3; 4; 5] ++ [6]).
Proof.
  apply (crc32c_detects_bursts 0 0 [1; 2] [3; 4; 5] [3; 9; 5] [6]); [repeat constructor; unfold in_width; lia..|done|cbn; lia|done].
Defined.
