(* ===== verification/HwBase.v ===== *)
(** * Synchronous circuits

    The vocabulary of the RTL models (src/hw/rtl).  A module is a [circuit]: its
    registers, what a rising clock edge makes of them for given inputs, and the outputs
    as a function of the registers.  All right-hand sides of nonblocking assignments read
    the registers before the edge, so [next] is one record built from the old one.
    Signals are two-valued: a register that is not reset has an arbitrary value at
    power-up, which is an arbitrary value of the initial state.  [$display] is left out.

    The generic parts of the design are here too: the block RAM, the pulse generator, the
    counters, and the FIFO between clock domains.  The last one wraps [dcfifo], a primitive
    of the FPGA vendor that is not in the repository; it is the class [Dcfifo], with its
    documented behaviour in [DcfifoLaws]. *)

From S2P Require Import Prelude.

(** ** Circuits and simulations *)
Record circuit (S I O : Type) := { next : I -> S -> S; out : S -> O }.
Arguments next {S I O} c i s : rename.
Arguments out {S I O} c s : rename.

Section circuits.
Context {S I O : Type} (c : circuit S I O).

Fixpoint final (ins : list I) (s : S) : S :=
  match ins with [] => s | i :: ins' => final ins' (next c i s) end.

(** The outputs after each edge. *)
Fixpoint outputs (ins : list I) (s : S) : list O :=
  match ins with [] => [] | i :: ins' => let s' := next c i s in out c s' :: outputs ins' s' end.

(** [pre] holds of every input, for the state it meets. *)
Fixpoint admissible (pre : I -> S -> bool) (ins : list I) (s : S) : bool :=
  match ins with [] => true | i :: ins' => pre i s && admissible pre ins' (next c i s) end.

Lemma final_app l l' s : final (l ++ l') s = final l' (final l s).
Proof. revert s. induction l as [|i l IH]; intros s; cbn; auto. Qed.

Lemma outputs_app l l' s : outputs (l ++ l') s = outputs l s ++ outputs l' (final l s).
Proof. revert s. induction l as [|i l IH]; intros s; cbn; [done|]. by rewrite IH. Qed.

Lemma final_preserves (P : S -> Prop) (ok : I -> Prop) ins s :
  (forall i s, ok i -> P s -> P (next c i s)) -> Forall ok ins -> P s -> P (final ins s).
Proof.
  intros Hp Hok. revert s. induction Hok as [|i ins Hi _ IH]; intros s Hs; cbn; [done|]. by apply IH, Hp.
Qed.
End circuits.

(** A circuit [c] implements a reference circuit [d] over the same inputs and outputs, as
    long as the environment keeps to [pre], a condition on the state of the reference. *)
Class Implements {S A I O} (c : circuit S I O) (d : circuit A I O)
    (pre : I -> A -> bool) (R : S -> A -> Prop) : Prop := {
  impl_step i s a : R s a -> pre i a = true -> R (next c i s) (next d i a);
  impl_out s a : R s a -> out c s = out d a
}.

Lemma implements_run {S A I O} (c : circuit S I O) (d : circuit A I O) pre R
    `{!Implements c d pre R} ins s a :
  R s a -> admissible d pre ins a = true ->
  outputs c ins s = outputs d ins a /\ R (final c ins s) (final d ins a).
Proof.
  revert s a. induction ins as [|i ins IH]; intros s a HR; cbn; [done|]. intros [Hp Hok]%andb_prop.
  assert (R (next c i s) (next d i a)) as HR' by by apply impl_step.
  destruct (IH _ _ HR' Hok) as [-> ?]. by rewrite (impl_out (next c i s) (next d i a)).
Qed.

(** ** Progress

    [leads k P Q]: from a state in [P], under any inputs that are [ok], the circuit is in
    [Q] after at most [k] cycles. *)
Section progress.
Context {S I O : Type} (c : circuit S I O) (ok : I -> Prop).

Definition leads (k : nat) (P Q : S -> Prop) : Prop :=
  forall ins s, Forall ok ins -> (k <= length ins)%nat -> P s ->
    exists j, (j <= k)%nat /\ Q (final c (take j ins) s).

Lemma leads_now k (P Q : S -> Prop) : (forall s, P s -> Q s) -> leads k P Q.
Proof. intros H ins s _ _ Hs. exists 0%nat. split; [lia|]. by apply H. Qed.

Lemma leads_step k (P Q : S -> Prop) : (forall i s, ok i -> P s -> Q (next c i s)) -> (1 <= k)%nat -> leads k P Q.
Proof.
  intros H Hk ins s Hins Hl Hs. destruct ins as [|i ins]; [cbn in Hl; lia|]. exists 1%nat. split; [done|].
  cbn. rewrite take_0. cbn. apply H; [|done]. by inversion Hins.
Qed.

Lemma leads_trans j k (P Q R : S -> Prop) : leads j P Q -> leads k Q R -> leads (j + k) P R.
Proof.
  intros H1 H2 ins s Hins Hl Hs. destruct (H1 ins s Hins) as (n & Hn & HQ); [lia|done|].
  destruct (H2 (drop n ins) (final c (take n ins) s)) as (m & Hm & HR); [by apply Forall_drop|rewrite length_drop; lia|done|].
  exists (n + m)%nat. split; [lia|]. by rewrite <- final_app, take_take_drop in HR.
Qed.

Lemma leads_weaken j k (P P' Q Q' : S -> Prop) :
  leads j P Q -> (j <= k)%nat -> (forall s, P' s -> P s) -> (forall s, Q s -> Q' s) -> leads k P' Q'.
Proof.
  intros H Hk HP HQ ins s Hins Hl Hs. destruct (H ins s Hins) as (n & Hn & Hq); [lia|by apply HP|].
  exists n. split; [lia|]. by apply HQ.
Qed.

Lemma leads_case k (P P' Q : S -> Prop) : leads k P Q -> leads k P' Q -> leads k (fun s => P s \/ P' s) Q.
Proof. intros H H' ins s Hins Hl [Hs|Hs]; [by apply H|by apply H']. Qed.

Lemma leads_exists {A} k (P : A -> S -> Prop) Q : (forall x, leads k (P x) Q) -> leads k (fun s => exists x, P x s) Q.
Proof. intros H ins s Hins Hl [x Hs]. by apply (H x). Qed.

(** A measure that falls in every cycle until [Q]. *)
Lemma leads_measure k (P Q : S -> Prop) (mu : S -> nat) :
  (forall s, P s -> mu s <= k)%nat ->
  (forall i s, ok i -> P s -> Q s \/ (P (next c i s) /\ (mu (next c i s) < mu s)%nat) \/ Q (next c i s)) ->
  leads (k + 1) P Q.
Proof.
  intros Hmu Hstep.
  assert (forall n, leads (n + 1) (fun s => P s /\ (mu s <= n)%nat) Q) as H.
  { induction n as [|n IH]; intros ins s Hins Hl [Hs Hn]; (destruct ins as [|i ins]; [cbn in Hl; lia|]).
    all: inversion Hins as [|? ? Hi Hins']; subst; destruct (Hstep i s Hi Hs) as [HQ|[[Hs' Hlt]|HQ]].
    all: try (exists 0%nat; split; [lia|done]).
    all: try (exists 1%nat; split; [lia|]; cbn; by rewrite take_0).
    - lia.
    - destruct (IH ins (next c i s) Hins') as (j & Hj & HQ); [cbn in Hl; lia|split; [done|lia]|].
      exists (Datatypes.S j). split; [lia|done]. }
  eapply leads_weaken; [apply (H k)|lia| |done]. intros s Hs. split; [done|by apply Hmu].
Qed.

(** A state that lasts is reached whenever the run is long enough. *)
Lemma leads_final k (P Q : S -> Prop) ins s :
  leads k P Q -> (forall i s, ok i -> Q s -> Q (next c i s)) -> Forall ok ins -> (k <= length ins)%nat -> P s ->
  Q (final c ins s).
Proof.
  intros H Hq Hins Hl Hs. destruct (H ins s Hins Hl Hs) as (j & Hj & HQ).
  rewrite <- (take_drop j ins), final_app. eapply final_preserves; [exact Hq| |exact HQ]. by apply Forall_drop.
Qed.
End progress.

(** ** single_clock_wr_ram *)
Definition upd {A} (f : Z -> A) (a : Z) (d : A) (x : Z) : A := if x =? a then d else f x.

Lemma ram_upd_same {A} (f : Z -> A) a d : upd f a d a = d.
Proof. unfold upd. by rewrite Z.eqb_refl. Qed.

Lemma ram_upd_other {A} (f : Z -> A) a d x : x <> a -> upd f a d x = f x.
Proof. intros. unfold upd. by destruct (Z.eqb_spec x a). Qed.

(** The memory and the output register [q]. *)
Record ram (A : Type) := { mem : Z -> A; q : A }.
Arguments mem {A} r _.
Arguments q {A} r.

(** Both assignments are nonblocking: a read of the address that is written in the same
    cycle gives the old content. *)
Definition ram_next {A} (we : bool) (write_address : Z) (d : A) (read_address : Z) (r : ram A) : ram A :=
  {| mem := if we then upd (mem r) write_address d else mem r; q := mem r read_address |}.

(** ** pulse_gen *)
Record pulse_gen := { pulse : bool; cnt : Z }.

Definition pulse_next (N_OF_CYCLES : Z) (reset sig_in : bool) (r : pulse_gen) : pulse_gen :=
  if reset then {| pulse := false; cnt := 0 |}
  else if pulse r then
    if cnt r =? N_OF_CYCLES - 1 then {| pulse := false; cnt := 0 |}
    else {| pulse := true; cnt := wrap (Z.log2_up N_OF_CYCLES) (cnt r + 1) |}
  else {| pulse := sig_in; cnt := cnt r |}.

(** ** dcfifo and async_fifo_channel *)

(** The vendor's FIFO of [2^l] words with a write and a read clock.
    [fifo_clk wr rd wrreq rdreq f] is a step in which the write clock rises if [wr] and the
    read clock if [rd]. *)
Class Dcfifo (F : Z -> Type -> Type) := {
  fifo_clk {l A} (wr rd : bool) (wrreq : option A) (rdreq : bool) : F l A -> F l A;
  fifo_aclr {l A} : F l A -> F l A;
  fifo_q {l A} : F l A -> A;
  rdempty {l A} : F l A -> bool;
  wrfull {l A} : F l A -> bool;
  rdusedw {l A} : F l A -> Z
}.

(** What its documentation says: words come out in the order in which they went in; with
    overflow and underflow checking a write to a full and a read from an empty FIFO do
    nothing; in normal (not show-ahead) mode a word is on [q] after the edge of its read;
    the flags of one side are late by the synchronisation delay to see what the other side
    does, and err on the safe side meanwhile; a word that the read side has seen stays there
    until it is read.  [held] are the words stored, oldest first;
    [rd_settle] and [wr_settle] bound the number of edges after which the read side and the
    write side see them all. *)
Class DcfifoLaws (F : Z -> Type -> Type) `{Dcfifo F} (latency : nat) := {
  held {l A} : F l A -> list A;
  rd_settle {l A} : F l A -> nat;
  wr_settle {l A} : F l A -> nat;
  held_aclr {l A} (f : F l A) : held (fifo_aclr f) = [];
  rd_settle_aclr {l A} (f : F l A) : rd_settle (fifo_aclr f) = O;
  wr_settle_aclr {l A} (f : F l A) : wr_settle (fifo_aclr f) = O;
  held_clk {l A} wr rd (w : option A) r (f : F l A) :
    held (fifo_clk wr rd w r f) =
      (if rd && r && negb (rdempty f) then tail (held f) else held f) ++
      (if wr && negb (wrfull f) then option_list w else []);
  q_clk {l A} wr rd (w : option A) r (f : F l A) :
    fifo_q (fifo_clk wr rd w r f) =
      (if rd && r && negb (rdempty f) then default (fifo_q f) (head (held f)) else fifo_q f);
  rd_settle_clk {l A} wr rd (w : option A) r (f : F l A) :
    (rd_settle (fifo_clk wr rd w r f) <=
       if wr && negb (wrfull f) && bool_decide (is_Some w) then latency
       else if rd then pred (rd_settle f) else rd_settle f)%nat;
  wr_settle_clk {l A} wr rd (w : option A) r (f : F l A) :
    (wr_settle (fifo_clk wr rd w r f) <=
       if rd && r && negb (rdempty f) then latency
       else if wr then pred (wr_settle f) else wr_settle f)%nat;
  rdempty_held {l A} (f : F l A) : held f = [] -> rdempty f = true;
  rdempty_settled {l A} (f : F l A) : held f <> [] -> rd_settle f = O -> rdempty f = false;
  wrfull_held {l A} (f : F l A) : 2 ^ l <= Z.of_nat (length (held f)) -> wrfull f = true;
  wrfull_settled {l A} (f : F l A) : Z.of_nat (length (held f)) < 2 ^ l -> wr_settle f = O -> wrfull f = false;
  rdusedw_held {l A} (f : F l A) : 0 <= rdusedw f <= Z.of_nat (length (held f));
  rdusedw_settled {l A} (f : F l A) : rd_settle f = O -> rdusedw f = Z.of_nat (length (held f));
  rdusedw_empty {l A} (f : F l A) : 0 < rdusedw f -> rdempty f = false;
  rdempty_clk {l A} wr rd (w : option A) r (f : F l A) :
    rdempty f = false -> rd && r = false -> rdempty (fifo_clk wr rd w r f) = false
}.

(** The channel adds the sticky loss flag and the delayed valid signal. *)
Record channel (F : Z -> Type -> Type) (l : Z) (A : Type) := {
  dcfifo_ : F l A; pop_valid : bool; packet_loss_detected : bool; loss_out : bool
}.
Arguments dcfifo_ {F l A} c.
Arguments pop_valid {F l A} c.
Arguments packet_loss_detected {F l A} c.
Arguments loss_out {F l A} c.

Section channel.
Context {F : Z -> Type -> Type} `{Dcfifo F} {l : Z} {A : Type}.

(** [clear] is asynchronous; [pop_valid] has no reset of its own. *)
Definition channel_next (clear clk_1 clk_2 : bool) (push : option A) (pop_enable : bool)
    (c : channel F l A) : channel F l A :=
  let f := if clear then fifo_aclr (dcfifo_ c) else dcfifo_ c in
  let push_en := bool_decide (is_Some push) in
  {| dcfifo_ := if clear then f
                else fifo_clk clk_1 clk_2 (if wrfull f then None else push) (negb (rdempty f) && pop_enable) f;
     pop_valid := if clk_2 then negb (rdempty f) && pop_enable else pop_valid c;
     packet_loss_detected :=
       if clear then false else if clk_1 && push_en && wrfull f then true else packet_loss_detected c;
     loss_out := if clear then false else if clk_1 then push_en && wrfull f else loss_out c |}.

Definition pop_data (c : channel F l A) : A := fifo_q (dcfifo_ c).

(** The used-words port has [LOG_DEPTH] bits. *)
Definition pop_dw (c : channel F l A) : Z := wrap l (rdusedw (dcfifo_ c)).
Definition pop_empty (c : channel F l A) : bool := rdempty (dcfifo_ c).

(** The word that is valid at the output. *)
Definition popped (c : channel F l A) : option A := if pop_valid c then Some (pop_data c) else None.

Context {latency : nat} `{!DcfifoLaws F latency}.

(** Whether the step takes a word out, and whether it puts one in. *)
Definition takes (clk_2 pop_enable : bool) (c : channel F l A) : bool :=
  clk_2 && pop_enable && negb (rdempty (dcfifo_ c)).
Definition puts (clk_1 : bool) (push : option A) (c : channel F l A) : option A :=
  if clk_1 && negb (wrfull (dcfifo_ c)) then push else None.

Lemma channel_held clk_1 clk_2 push pe (c : channel F l A) :
  held (dcfifo_ (channel_next false clk_1 clk_2 push pe c)) =
    (if takes clk_2 pe c then tail (held (dcfifo_ c)) else held (dcfifo_ c)) ++ option_list (puts clk_1 push c).
Proof.
  cbn. rewrite held_clk. unfold takes, puts. f_equal.
  - by destruct clk_2, pe, (rdempty (dcfifo_ c)).
  - by destruct clk_1, (wrfull (dcfifo_ c)).
Qed.

Lemma not_empty_held (f : F l A) : rdempty f = false -> exists x xs, held f = x :: xs.
Proof. intros E. destruct (held f) as [|x xs] eqn:Eh; [|by eauto]. by rewrite rdempty_held in E. Qed.

Lemma channel_popped clk_1 clk_2 push pe (c : channel F l A) :
  popped (channel_next false clk_1 clk_2 push pe c) =
    if clk_2 then (if takes true pe c then head (held (dcfifo_ c)) else None) else popped c.
Proof.
  unfold popped, pop_data, takes. cbn. rewrite q_clk.
  destruct clk_2; cbn; [|by destruct (pop_valid c)].
  destruct (rdempty (dcfifo_ c)) eqn:E, pe; cbn; try done.
  by destruct (not_empty_held _ E) as (x & xs & ->).
Qed.

Lemma channel_rd_settle clk_1 clk_2 push pe (c : channel F l A) :
  (rd_settle (dcfifo_ (channel_next false clk_1 clk_2 push pe c)) <=
     match puts clk_1 push c with
     | Some _ => latency
     | None => if clk_2 then pred (rd_settle (dcfifo_ c)) else rd_settle (dcfifo_ c)
     end)%nat.
Proof.
  cbn. etrans; [apply rd_settle_clk|]. unfold puts. by destruct clk_1, (wrfull (dcfifo_ c)), push.
Qed.

Lemma channel_wr_settle clk_1 clk_2 push pe (c : channel F l A) :
  (wr_settle (dcfifo_ (channel_next false clk_1 clk_2 push pe c)) <=
     if takes clk_2 pe c then latency else if clk_1 then pred (wr_settle (dcfifo_ c)) else wr_settle (dcfifo_ c))%nat.
Proof.
  cbn. etrans; [apply wr_settle_clk|]. unfold takes. by destruct clk_2, pe, (rdempty (dcfifo_ c)).
Qed.

(** An empty FIFO that nobody writes stays empty and gives nothing. *)
Lemma empty_takes clk_2 pe (c : channel F l A) : held (dcfifo_ c) = [] -> takes clk_2 pe c = false.
Proof. intros E. unfold takes. rewrite rdempty_held by done. by rewrite andb_false_r. Qed.
End channel.

(** A FIFO without synchronisation delay, for examples.  [q] holds no word at first. *)
Record queue (l : Z) (A : Type) := { words : list A; last_q : option A; dflt : A }.
Arguments words {l A} q.
Arguments last_q {l A} q.
Arguments dflt {l A} q.

Definition is_nil {A} (l : list A) : bool := match l with [] => true | _ => false end.

#[export] Instance queue_fifo : Dcfifo queue := {|
  fifo_clk l A wr rd w r f :=
    let pop := rd && r && negb (is_nil (words f)) in
    {| words := (if pop then tail (words f) else words f) ++
                (if wr && negb (2 ^ l <=? Z.of_nat (length (words f))) then option_list w else []);
       last_q := if pop then head (words f) else last_q f; dflt := dflt f |};
  fifo_aclr l A f := {| words := []; last_q := last_q f; dflt := dflt f |};
  fifo_q l A f := default (dflt f) (last_q f);
  rdempty l A f := is_nil (words f);
  wrfull l A f := 2 ^ l <=? Z.of_nat (length (words f));
  rdusedw l A f := Z.of_nat (length (words f))
|}.

#[export] Instance queue_laws : DcfifoLaws queue 0.
Proof.
  refine {| held l A f := words f; rd_settle l A f := O; wr_settle l A f := O |}; try done; intros; cbn in *.
  - by destruct rd, r, (words f).
  - lia.
  - lia.
  - by rewrite H.
  - by destruct (words f).
  - by apply Z.leb_le.
  - apply Z.leb_gt. lia.
  - lia.
  - by destruct (words f).
  - rewrite H0. cbn. by destruct (words f).
Defined.
