(* ===== verification/HwDefs.v ===== *)
(** * Packed structures of the hardware

    config_defs.vh, cpu_if_defs.vh, nic_defs.vh and rpc_defs.vh of src/hw/rtl: widths, and
    the packed structures that the CPU and the NIC exchange.  A packed structure is the
    number its bits form, its last member in the lowest bits; the members are [field]s of
    that number.  A structure with a valid bit is an [option]: its other members are looked
    at only when it is valid. *)

From S2P Require Import Prelude HwBase.

Definition LMAX_NUM_OF_FLOWS : Z := 4.
Definition LCONN_TBL_SIZE : Z := 4.
Definition LMAX_NUM_OF_CONNECTIONS : Z := 8.
Definition LMAX_CCIP_BATCH : Z := 2.

(** ** RpcPckt: 416 bits of arguments above 96 bits of header *)
Module rpc_pckt.
Definition req_type (x : Z) : Z := field x 0 1.
Definition update_flag (x : Z) : Z := field x 1 1.
Definition valid (x : Z) : Z := field x 2 1.
Definition rpc_id (x : Z) : Z := field x 8 32.
Definition n_of_frames (x : Z) : Z := field x 40 8.
Definition frame_id (x : Z) : Z := field x 48 8.
Definition fn_id (x : Z) : Z := field x 56 16.
Definition argl (x : Z) : Z := field x 72 16.
Definition connection_id (x : Z) : Z := field x 88 8.
Definition argv (x : Z) : Z := field x 96 416.
End rpc_pckt.

(** ** Interfaces between the modules *)
Record NetworkAddressTuple := { source_ip : Z; source_port : Z; dest_ip : Z; dest_port : Z }.

Record RpcIf := { flow_id : Z; rpc_data : Z }.

(** The content of [NetworkIf] and of [CManagerNetRpcIf]. *)
Record NetRpc := { net_addr : NetworkAddressTuple; net_data : Z }.

Record ConnectionControlIf := {
  conn_id : Z; c_dest_ip : Z; c_dest_port : Z; client_flow_id : Z; open : bool; enable : bool
}.

Inductive ConnSetupStatusErrors := cOK | cAlreadyOpen | cIsClosed | cIdWrong.

Definition error_code (e : ConnSetupStatusErrors) : Z :=
  match e with cOK => 0 | cAlreadyOpen => 1 | cIsClosed => 2 | cIdWrong => 3 end.

(** [ConnSetupStatus], when its valid bit is set. *)
Record conn_status := { st_conn_id : Z; st_error : ConnSetupStatusErrors }.

Definition pack_conn_status (st : option conn_status) : Z :=
  match st with
  | Some st => st_conn_id st + 2 ^ 32 + error_code (st_error st) * 2 ^ 33
  | None => 0
  end.

(** ** ConnSetupFrame, NicStatus and NicMode *)
Definition frame_data (x : Z) : Z := field x 0 32.
Definition frame_cmd (x : Z) : Z := field x 32 3.

Record NicStatus := {
  nic_id : Z; ready : bool; running : bool; error : bool; err_rpcRxFifoOvf : bool;
  err_rpcTxFifoOvf : bool; err_ccip : bool; err_rpc : bool
}.

Definition pack_nic_status (s : NicStatus) : Z :=
  wrap 3 (nic_id s) + Z.b2z (ready s) * 2 ^ 3 + Z.b2z (running s) * 2 ^ 4 + Z.b2z (error s) * 2 ^ 5 +
  Z.b2z (err_rpcRxFifoOvf s) * 2 ^ 6 + Z.b2z (err_rpcTxFifoOvf s) * 2 ^ 7 +
  Z.b2z (err_ccip s) * 2 ^ 8 + Z.b2z (err_rpc s) * 2 ^ 9.

Definition pack_nic_mode (phy_network : bool) (ccip_mode : Z) : Z :=
  wrap 2 ccip_mode + Z.b2z phy_network * 2 ^ 2.

(** ** The CCI-P layer as the rest of the NIC sees it *)

(** Registers that the CPU writes. *)
Record csrs := {
  iRegMemTxAddr : Z;
  iRegMemRxAddr : Z;
  iRegNicStart : bool;
  iRegNumOfFlows : Z;          (* number of flows - 1 *)
  iRegNicInit : bool;
  iRegGetPckCnt : Z;
  iRegRxQueueSize : Z;         (* rx queue size - 1 *)
  iRegTxQueueSize : Z;
  lRegTxBatchSize : Z;
  iRegRxBatchSize : Z;
  iRegPollingRate : Z;
  iRegConnSetupFrame : Z;
  iRegConnSetupFrame_en : bool;
  iLB : bool;
  iRegPhyNetAddr : Z;
  iRegIpv4NetAddr : Z;
  iRegReadNetDropCnt : Z;
  iRegReadNetDropCntValid : bool
}.

(** A line of memory that was read: the metadata of the request, its number in the batch,
    and the 512 bits of the line. *)
Record mem_rsp := { mdata : Z; cl_num : Z; line : Z }.
Record rd_req := { rd_address : Z; rd_mdata : Z }.
Record wr_req := { wr_address : Z; wr_sop : bool; wr_data : Z }.

Record ccip_in := {
  ci_reset : bool;
  ci_csr : csrs;
  c0TxAlmFull : bool;
  c1TxAlmFull : bool;
  c0_rsp : option mem_rsp;
  ci_rpc_valid : bool;
  ci_rpc : RpcIf               (* the bus, valid or not *)
}.

Record ccip_out := {
  co_initialized : bool;
  co_error : bool;
  co_read : option rd_req;     (* sTx_c0 *)
  co_write : option wr_req;    (* sTx_c1 *)
  co_rpc : option RpcIf;
  co_pdrop : bool;
  co_debug : Z
}.
