(* ===== verification/HwCcip.v ===== *)
(** * The CCI-P layer

    src/hw/rtl/ccip_queue_polling.sv, ccip_transmitter.sv and request_queue.sv: how packets
    get from the rings of the CPU into the NIC and back.  The layer polls the transmit rings
    line by line and knows a new packet by its update flag; packets for the CPU are kept in
    the request queue, their slots in one FIFO for each flow, and written to the receive
    rings.  The parameters are those of the instance in nic.sv.

    As in the other models of the hardware, a value with a valid bit is an [option]; the
    packet bus from the RPC unit is the exception, since the transmitter looks at it also
    when it is not valid. *)

From S2P Require Import Prelude HwBase HwDefs.

Definition LMAX_RX_QUEUE_SIZE : Z := 3.
Definition LMAX_TX_QUEUE_SIZE : Z := 8.
Definition LMAX_POLLING_RATE : Z := 8.

(** ** ccip_queue_polling: from the CPU to the NIC *)
Module queue_polling.
Definition RX_BATCH_SIZE : Z := 4.
Definition MDATA_W : Z := LMAX_NUM_OF_FLOWS + LMAX_RX_QUEUE_SIZE.
Definition META_PATTERN : Z := 2 ^ MDATA_W - 1.

(** *** Polling *)
Inductive RxState := RxIdle | RxDelay.

(** [rx_batch_cnt] is not used. *)
Record poll_regs := {
  rx_state : RxState;
  queue_poll_cnt : Z;
  flow_poll_cnt : Z;
  poll_frq_div_cnt : Z;
  sTx_c0 : option rd_req
}.

Definition poll_request (c : csrs) (r : poll_regs) : rd_req :=
  let entry := Z.shiftl (flow_poll_cnt r) LMAX_RX_QUEUE_SIZE + queue_poll_cnt r in
  {| rd_address := wrap 42 (iRegMemTxAddr c + entry); rd_mdata := Z.lxor META_PATTERN (wrap MDATA_W entry) |}.

(** The comparison with the queue size is one of 32-bit numbers. *)
Definition poll_next (reset : bool) (c : csrs) (alm_full : bool) (r : poll_regs) : poll_regs :=
  if reset then {| rx_state := RxIdle; queue_poll_cnt := 0; flow_poll_cnt := 0; poll_frq_div_cnt := 0; sTx_c0 := None |}
  else
    match rx_state r with
    | RxIdle =>
        let go := iRegNicStart c && negb alm_full in
        {| rx_state := if go then RxDelay else RxIdle; queue_poll_cnt := queue_poll_cnt r; flow_poll_cnt := flow_poll_cnt r;
           poll_frq_div_cnt := poll_frq_div_cnt r; sTx_c0 := if go then Some (poll_request c r) else None |}
    | RxDelay =>
        if poll_frq_div_cnt r =? iRegPollingRate c then
          let last := queue_poll_cnt r =? u32 (iRegRxQueueSize c - RX_BATCH_SIZE + 1) in
          {| rx_state := RxIdle;
             queue_poll_cnt := if last then 0 else wrap MDATA_W (queue_poll_cnt r + RX_BATCH_SIZE);
             flow_poll_cnt :=
               if last then (if flow_poll_cnt r =? iRegNumOfFlows c then 0 else wrap MDATA_W (flow_poll_cnt r + 1))
               else flow_poll_cnt r;
             poll_frq_div_cnt := 0; sTx_c0 := None |}
        else
          {| rx_state := RxDelay; queue_poll_cnt := queue_poll_cnt r; flow_poll_cnt := flow_poll_cnt r;
             poll_frq_div_cnt := wrap LMAX_POLLING_RATE (poll_frq_div_cnt r + 1); sTx_c0 := None |}
    end.

(** *** Answers *)

(** A line that was read: its flow, its number among all lines, and the packet in it. *)
Record entry := { e_flow : Z; e_cl : Z; e_data : Z }.

Definition rx_entry (m : mem_rsp) : entry :=
  let cl := Z.lxor (wrap MDATA_W (mdata m)) META_PATTERN in
  {| e_flow := wrap LMAX_NUM_OF_FLOWS (Z.shiftr cl LMAX_RX_QUEUE_SIZE); e_cl := wrap MDATA_W (cl + cl_num m);
     e_data := wrap 512 (line m) |}.

Definition is_valid (m : mem_rsp) : bool := rpc_pckt.valid (wrap 512 (line m)) =? 1.
Definition update_bit (e : entry) : bool := rpc_pckt.update_flag (e_data e) =? 1.

Inductive DBitTbInitState := DBInitIdle | DBInit.

(** [poll_data] is the first stage, [poll_data_1d] the second, next to which the table of
    dirty bits shows its bit, and [commit] the third: [rpc_out], and the new bit to be
    written.  Bit and packet are valid together. *)
Record pipe_regs := {
  poll_data : option entry;
  poll_data_1d : option entry;
  commit : option (entry * bool);
  ccip_dirty_tb : ram bool;
  db_tb_init_state : DBitTbInitState;
  d_bit_wr_addr_init : Z;
  d_bit_tb_initialized : bool
}.

Definition accept (start : bool) (rsp : option mem_rsp) : option entry :=
  match rsp with
  | Some m => if start && is_valid m then Some (rx_entry m) else None
  | None => None
  end.

(** A packet is new if its update flag is not the dirty bit of its line. *)
Definition compare (d_bit_rd : bool) (e : option entry) : option (entry * bool) :=
  match e with
  | Some e => if xorb d_bit_rd (update_bit e) then Some (e, negb d_bit_rd) else None
  | None => None
  end.

Definition dirty_next (r : pipe_regs) : ram bool :=
  let rd := match poll_data r with Some e => e_cl e | None => 0 end in
  match db_tb_init_state r with
  | DBInit => ram_next true (d_bit_wr_addr_init r) false rd (ccip_dirty_tb r)
  | DBInitIdle =>
      match commit r with
      | Some (e, b) => ram_next true (e_cl e) b rd (ccip_dirty_tb r)
      | None => ram_next false 0 false rd (ccip_dirty_tb r)
      end
  end.

Definition pipe_next (reset start initialize : bool) (rsp : option mem_rsp) (r : pipe_regs) : pipe_regs :=
  let last := d_bit_wr_addr_init r =? 2 ^ MDATA_W - 1 in
  {| poll_data := if reset then None else accept start rsp;
     poll_data_1d := poll_data r;
     commit := if reset then None else compare (q (ccip_dirty_tb r)) (poll_data_1d r);
     ccip_dirty_tb := dirty_next r;
     db_tb_init_state :=
       if reset then DBInitIdle
       else match db_tb_init_state r with
            | DBInit => if last then DBInitIdle else DBInit
            | DBInitIdle => if negb (d_bit_tb_initialized r) && initialize then DBInit else DBInitIdle
            end;
     d_bit_wr_addr_init :=
       if reset then 0
       else match db_tb_init_state r with
            | DBInit => if last then d_bit_wr_addr_init r else wrap MDATA_W (d_bit_wr_addr_init r + 1)
            | DBInitIdle => d_bit_wr_addr_init r
            end;
     d_bit_tb_initialized :=
       if reset then false
       else match db_tb_init_state r with
            | DBInit => last || d_bit_tb_initialized r
            | DBInitIdle => d_bit_tb_initialized r
            end |}.

Definition rpc_out (r : pipe_regs) : option RpcIf :=
  match commit r with Some (e, _) => Some {| flow_id := e_flow e; rpc_data := e_data e |} | None => None end.
End queue_polling.

(** ** request_queue *)
Module request_queue.
Section request_queue.
Context {F : Z -> Type -> Type} `{Dcfifo F} {A : Type}.
Variables (LSIZE : Z) (zero : A).

Inductive QueueInitState := QueueInitIdle | QueueInit.

(** [stored]: [queue_wr_en] with its address and data, and at the same time [push_done_out]
    with the slot; [freed]: [fr_fifo_push_en] with the slot. *)
Record regs := {
  queue_ram : ram A;
  free_entry_fifo : channel F LSIZE Z;
  q_init_state : QueueInitState;
  q_init_addr : Z;
  fr_init_addr : Z;
  q_initialized : bool;
  push_data_in_d : A;
  stored : option (Z * A);
  no_free_slot_error : bool;
  freed : option Z
}.

(** [pop]: [pop_slot_id_in] when [pop_en_in]; what is read at another time is not looked at. *)
Definition queue_next (pop : option Z) (r : regs) : ram A :=
  let rd := default 0 pop in
  match q_init_state r with
  | QueueInit => ram_next true (q_init_addr r) zero rd (queue_ram r)
  | QueueInitIdle =>
      match stored r with
      | Some (a, d) => ram_next true a d rd (queue_ram r)
      | None => ram_next false 0 zero rd (queue_ram r)
      end
  end.

Definition free_push (r : regs) : option Z :=
  match q_init_state r with QueueInit => Some (fr_init_addr r) | QueueInitIdle => freed r end.

Definition rq_next (reset initialize push_en : bool) (push_data : A) (pop : option Z) (r : regs) : regs :=
  let last := q_init_addr r =? 2 ^ LSIZE - 1 in
  let step (a : Z) :=
    if reset then 0
    else match q_init_state r with
         | QueueInit => if last then 0 else wrap LSIZE (a + 1)
         | QueueInitIdle => a
         end in
  {| queue_ram := queue_next pop r;
     free_entry_fifo := channel_next reset true true (free_push r) push_en (free_entry_fifo r);
     q_init_state :=
       if reset then QueueInitIdle
       else match q_init_state r with
            | QueueInit => if last then QueueInitIdle else QueueInit
            | QueueInitIdle => if initialize then QueueInit else QueueInitIdle
            end;
     q_init_addr := step (q_init_addr r);
     fr_init_addr := step (fr_init_addr r);
     q_initialized :=
       if reset then false
       else match q_init_state r with QueueInit => last || q_initialized r | QueueInitIdle => q_initialized r end;
     push_data_in_d := push_data;
     stored := if reset then None else match popped (free_entry_fifo r) with Some a => Some (a, push_data_in_d r) | None => None end;
     no_free_slot_error := if reset then false else (push_en && pop_empty (free_entry_fifo r)) || no_free_slot_error r;
     freed := if reset then None else pop |}.

Definition pop_data_out (r : regs) : A := q (queue_ram r).

(** Both errors at the same time. *)
Definition error (r : regs) : bool := packet_loss_detected (free_entry_fifo r) && no_free_slot_error r.
End request_queue.
End request_queue.

(** ** ccip_transmitter: from the NIC to the CPU *)
Module transmitter.
Section transmitter.
Context {F : Z -> Type -> Type} `{Dcfifo F}.

Definition LTX_FIFO_DEPTH : Z := 3.
Definition MAX_TX_FLOWS : Z := 2 ^ LMAX_NUM_OF_FLOWS.
Definition RQ_LNUM_OF_SLOTS : Z := LMAX_NUM_OF_FLOWS + LTX_FIFO_DEPTH.

(** The width of [TxQueueAddress]. *)
Definition TX_ADDRESS_W : Z := LMAX_NUM_OF_FLOWS + LMAX_TX_QUEUE_SIZE + 1.

Inductive TxState := TxIdle | TxTransmit | TxGap.
Inductive TxQueueAddrTableInitState := TxTblIdle | TxTblInit | TxTblInitialized.

Record TxQueueAddressTuple := { region_begin : Z; current : Z; region_end : Z }.

Definition no_rpc : RpcIf := {| flow_id := 0; rpc_data := 0 |}.

(** An array of enable bits of which at most one is set is an [option] with its index:
    [ff_push] has the flow and the slot, [ff_pop] the flow.  [table_w] is the write to the
    address table, [rq_pop] the slot that is read from the request queue. *)
Record regs := {
  request_queue_ : @request_queue.regs F RpcIf RQ_LNUM_OF_SLOTS;
  flow_fifo : Z -> channel F LTX_FIFO_DEPTH Z;
  rq_push_en : bool;
  rq_push_data : RpcIf;
  rpc_flow_id_in_d : Z;
  rpc_flow_id_in_1d : Z;
  rpc_flow_id_in_2d : Z;
  ff_push : option (Z * Z);
  lb_flow_cnt : Z;
  batch_latch : Z;
  tx_queue_address_tb : ram TxQueueAddressTuple;
  table_init_state : TxQueueAddrTableInitState;
  table_init_cnt : Z;
  table_w : option (Z * TxQueueAddressTuple);
  ff_pop : option Z;
  tx_state : TxState;
  tx_flow_cnt : Z;
  tx_batch_cnt : Z;
  tx_queue_address : Z;
  tx_flow_cnt_d : Z;
  tx_queue_address_d : Z;
  rq_pop : option Z;
  rq_read_d : bool;
  tx_queue_address_d1 : Z;
  tx_out_batch_cnt : Z;
  sTx_c1 : option wr_req
}.

(** The combinational block has no value for 3, so that it keeps the one before. *)
Definition tx_batch_size (c : csrs) (r : regs) : Z :=
  let l := lRegTxBatchSize c in
  if l =? 0 then 1 else if l =? 1 then 2 else if l =? 2 then 4 else batch_latch r.

(** *** Push *)

(** The request type is that of the packet on the bus in this cycle. *)
Definition balanced (i : ccip_in) : bool := iLB (ci_csr i) && (rpc_pckt.req_type (rpc_data (ci_rpc i)) =? 0).

Definition ff_push_next (i : ccip_in) (r : regs) : option (Z * Z) :=
  if ci_reset i then None
  else match request_queue.stored _ (request_queue_ r) with
       | Some (slot, _) => Some (if balanced i then lb_flow_cnt r else rpc_flow_id_in_2d r, slot)
       | None => None
       end.

Definition lb_flow_next (i : ccip_in) (r : regs) : Z :=
  if ci_reset i then 0
  else match request_queue.stored _ (request_queue_ r) with
       | Some _ =>
           if balanced i then (if lb_flow_cnt r =? iRegNumOfFlows (ci_csr i) then 0 else u16 (lb_flow_cnt r + 1))
           else lb_flow_cnt r
       | None => lb_flow_cnt r
       end.

Definition fifo_push (r : regs) (f : Z) : option Z :=
  match ff_push r with Some (g, slot) => if g =? f then Some slot else None | None => None end.

Definition fifo_pop (r : regs) (f : Z) : bool := match ff_pop r with Some g => g =? f | None => false end.

(** *** Addresses *)
Definition table_init_w (c : csrs) (r : regs) : TxQueueAddressTuple :=
  let a := wrap TX_ADDRESS_W (table_init_cnt r * iRegTxQueueSize c) in
  {| region_begin := a; current := a; region_end := wrap TX_ADDRESS_W (a + iRegTxQueueSize c - tx_batch_size c r) |}.

Definition table_next (c : csrs) (r : regs) : ram TxQueueAddressTuple :=
  match table_init_state r with
  | TxTblInit => ram_next true (table_init_cnt r) (table_init_w c r) (tx_flow_cnt r) (tx_queue_address_tb r)
  | _ =>
      match table_w r with
      | Some (f, t) => ram_next true f t (tx_flow_cnt r) (tx_queue_address_tb r)
      | None => ram_next false 0 (q (tx_queue_address_tb r)) (tx_flow_cnt r) (tx_queue_address_tb r)
      end
  end.

(** The tuple with the place of the next batch. *)
Definition advance (b : Z) (t : TxQueueAddressTuple) : TxQueueAddressTuple :=
  {| region_begin := region_begin t;
     current := if current t =? region_end t then region_begin t else wrap TX_ADDRESS_W (current t + b);
     region_end := region_end t |}.

(** *** The state machine *)
Definition found (c : csrs) (r : regs) : bool := tx_batch_size c r <=? pop_dw (flow_fifo r (tx_flow_cnt r)).
Definition last_of_batch (c : csrs) (r : regs) : bool := tx_batch_cnt r =? tx_batch_size c r - 1.

Definition ff_pop_next (i : ccip_in) (r : regs) : option Z :=
  if ci_reset i then None
  else match tx_state r with
       | TxIdle => if found (ci_csr i) r then Some (tx_flow_cnt r) else None
       | TxTransmit => if last_of_batch (ci_csr i) r then None else Some (tx_flow_cnt r)
       | TxGap => None
       end.

Definition tx_state_next (i : ccip_in) (r : regs) : TxState :=
  if ci_reset i then TxIdle
  else match tx_state r with
       | TxIdle => if found (ci_csr i) r then TxTransmit else TxIdle
       | TxTransmit => if last_of_batch (ci_csr i) r then TxGap else TxTransmit
       | TxGap => TxIdle
       end.

Definition tx_flow_next (i : ccip_in) (r : regs) : Z :=
  if ci_reset i then 0
  else match tx_state r with
       | TxIdle =>
           if found (ci_csr i) r then tx_flow_cnt r
           else if tx_flow_cnt r =? iRegNumOfFlows (ci_csr i) then 0 else wrap LMAX_NUM_OF_FLOWS (tx_flow_cnt r + 1)
       | _ => tx_flow_cnt r
       end.

Definition tx_batch_next (i : ccip_in) (r : regs) : Z :=
  if ci_reset i then 0
  else match tx_state r with
       | TxTransmit => if last_of_batch (ci_csr i) r then 0 else wrap (LMAX_CCIP_BATCH + 1) (tx_batch_cnt r + 1)
       | _ => tx_batch_cnt r
       end.

(** The first cycle of a batch takes its place from the table. *)
Definition first_of_batch (r : regs) : bool :=
  match tx_state r with TxTransmit => tx_batch_cnt r =? 0 | _ => false end.

(** *** One cycle *)
Definition write_request (c : csrs) (r : regs) : wr_req :=
  {| wr_address := wrap 42 (iRegMemRxAddr c + tx_queue_address_d1 r + tx_out_batch_cnt r);
     wr_sop := tx_out_batch_cnt r =? 0;
     wr_data := rpc_data (request_queue.pop_data_out _ (request_queue_ r)) |}.

(** [rpc_in] of the layer is the packet without the number of its flow. *)
Definition tx_next (i : ccip_in) (r : regs) : regs :=
  let c := ci_csr i in
  let t := q (tx_queue_address_tb r) in
  {| request_queue_ :=
       request_queue.rq_next _ no_rpc (ci_reset i) (iRegNicInit c) (rq_push_en r) (rq_push_data r) (rq_pop r) (request_queue_ r);
     flow_fifo := fun f => channel_next (ci_reset i) true true (fifo_push r f) (fifo_pop r f) (flow_fifo r f);
     rq_push_en := if ci_reset i then false else iRegNicStart c && ci_rpc_valid i;
     rq_push_data := {| flow_id := 0; rpc_data := rpc_data (ci_rpc i) |};
     rpc_flow_id_in_d := flow_id (ci_rpc i);
     rpc_flow_id_in_1d := rpc_flow_id_in_d r;
     rpc_flow_id_in_2d := rpc_flow_id_in_1d r;
     ff_push := ff_push_next i r;
     lb_flow_cnt := lb_flow_next i r;
     batch_latch := tx_batch_size c r;
     tx_queue_address_tb := table_next c r;
     table_init_state :=
       if ci_reset i then TxTblIdle
       else match table_init_state r with
            | TxTblIdle => if iRegNicInit c then TxTblInit else TxTblIdle
            | TxTblInit => if table_init_cnt r =? iRegNumOfFlows c then TxTblInitialized else TxTblInit
            | TxTblInitialized => TxTblInitialized
            end;
     table_init_cnt :=
       if ci_reset i then 0
       else match table_init_state r with
            | TxTblInit => if table_init_cnt r =? iRegNumOfFlows c then table_init_cnt r else wrap LMAX_NUM_OF_FLOWS (table_init_cnt r + 1)
            | _ => table_init_cnt r
            end;
     table_w := if first_of_batch r then Some (tx_flow_cnt r, advance (tx_batch_size c r) t) else None;
     ff_pop := ff_pop_next i r;
     tx_state := tx_state_next i r;
     tx_flow_cnt := tx_flow_next i r;
     tx_batch_cnt := tx_batch_next i r;
     tx_queue_address := if first_of_batch r then current t else tx_queue_address r;
     tx_flow_cnt_d := tx_flow_cnt r;
     tx_queue_address_d := tx_queue_address r;
     rq_pop := if ci_reset i then None else popped (flow_fifo r (tx_flow_cnt_d r));
     rq_read_d := match rq_pop r with Some _ => true | None => false end;
     tx_queue_address_d1 := tx_queue_address_d r;
     tx_out_batch_cnt :=
       if ci_reset i then 0
       else if rq_read_d r then
         if tx_out_batch_cnt r =? tx_batch_size c r - 1 then 0 else wrap (LMAX_CCIP_BATCH + 1) (tx_out_batch_cnt r + 1)
       else tx_out_batch_cnt r;
     sTx_c1 := if rq_read_d r then Some (write_request c r) else None |}.

Definition initialized (r : regs) : bool :=
  request_queue.q_initialized _ (request_queue_ r) &&
  match table_init_state r with TxTblInitialized => true | _ => false end.

(** A flow has lost a packet. *)
Definition pdrop (r : regs) : bool :=
  existsb (fun f => packet_loss_detected (flow_fifo r f)) (seqZ 0 MAX_TX_FLOWS).

Definition tx_code (st : TxState) : Z := match st with TxIdle => 0 | TxTransmit => 1 | TxGap => 2 end.

(** The flow number has 4 bits; shifted in 64 bits. *)
Definition debug_out (r : regs) : Z := Z.lor (tx_code (tx_state r)) (Z.shiftl (rpc_flow_id_in_2d r) 8).
End transmitter.
End transmitter.

(** ** The layer *)
Module ccip_queue_polling.
Section ccip_queue_polling.
Context {F : Z -> Type -> Type} `{Dcfifo F}.

Record regs := {
  poll : queue_polling.poll_regs;
  pipe : queue_polling.pipe_regs;
  ccip_tx : @transmitter.regs F
}.

Definition layer_next (i : ccip_in) (r : regs) : regs :=
  let c := ci_csr i in
  {| poll := queue_polling.poll_next (ci_reset i) c (c0TxAlmFull i) (poll r);
     pipe := queue_polling.pipe_next (ci_reset i) (iRegNicStart c) (iRegNicInit c) (c0_rsp i) (pipe r);
     ccip_tx := transmitter.tx_next i (ccip_tx r) |}.

Definition layer_out (r : regs) : ccip_out :=
  {| co_initialized := queue_polling.d_bit_tb_initialized (pipe r) && transmitter.initialized (ccip_tx r);
     co_error := request_queue.error _ (transmitter.request_queue_ (ccip_tx r));
     co_read := queue_polling.sTx_c0 (poll r);
     co_write := transmitter.sTx_c1 (ccip_tx r);
     co_rpc := queue_polling.rpc_out (pipe r);
     co_pdrop := transmitter.pdrop (ccip_tx r);
     co_debug := transmitter.debug_out (ccip_tx r) |}.

Definition layer : circuit regs ccip_in ccip_out := {| next := layer_next; out := layer_out |}.
End ccip_queue_polling.
End ccip_queue_polling.
