(* ===== verification/HwPolling.v ===== *)
(** * The NIC reads the transmit rings

    Theorems on the receiving half of ccip_queue_polling.sv: every line of every ring is
    asked for, over and over, in a fixed order and in bounded time; and of the lines that
    come back exactly the new packets are forwarded, if the answers for one line are at
    least three cycles apart, and not otherwise. *)

From S2P Require Import Prelude Wire HwBase HwDefs HwCcip.
Import queue_polling.

Definition catSome {A} (l : list (option A)) : list A := omap id l.

Lemma catSome_app {A} (l l' : list (option A)) : catSome (l ++ l') = catSome l ++ catSome l'.
Proof. apply omap_app. Qed.

(** ** Polling *)
Module polling.
Section polling.
Variable c : csrs.

(** The batches of a ring; a ring has 4 or 8 lines. *)
Definition batches : Z := (iRegRxQueueSize c + 1) / RX_BATCH_SIZE.
Definition flows : Z := iRegNumOfFlows c + 1.

(** The first line of batch [k] of all, counted from the first ring. *)
Definition first_line (k : Z) : Z := k / batches * 2 ^ LMAX_RX_QUEUE_SIZE + k mod batches * RX_BATCH_SIZE.

Definition request (k : Z) : rd_req :=
  {| rd_address := wrap 42 (iRegMemTxAddr c + first_line k); rd_mdata := Z.lxor META_PATTERN (first_line k) |}.

Record config_ok : Prop := {
  ok_start : iRegNicStart c = true;
  ok_flows : 0 <= iRegNumOfFlows c < 2 ^ LMAX_NUM_OF_FLOWS;
  ok_size : iRegRxQueueSize c = 3 \/ iRegRxQueueSize c = 7;
  ok_rate : 0 <= iRegPollingRate c < 2 ^ LMAX_POLLING_RATE
}.
Hypothesis ok : config_ok.

(** The circuit, and the requests that it issues in a run; an input says whether the
    memory can take a request. *)
Definition poller : circuit poll_regs bool (option rd_req) :=
  {| next := poll_next false c; out := sTx_c0 |}.

Definition after_reset (r : poll_regs) : poll_regs := poll_next true c false r.

Lemma batches_cases : batches = 1 \/ batches = 2.
Proof using ok. destruct ok as [_ _ Hs _]. unfold batches, RX_BATCH_SIZE. destruct Hs as [-> | ->]; [left|right]; reflexivity. Qed.

Lemma batches_size : u32 (iRegRxQueueSize c - RX_BATCH_SIZE + 1) = (batches - 1) * RX_BATCH_SIZE.
Proof using ok. unfold batches, RX_BATCH_SIZE. destruct ok as [_ _ Hs _]. destruct Hs as [-> | ->]; reflexivity. Qed.

Lemma all_pos : 0 < flows * batches.
Proof using ok. destruct ok as [_ Hf _ _]. unfold flows. destruct batches_cases as [-> | ->]; lia. Qed.

Lemma batch_bounds k :
  0 <= k < flows * batches -> 0 <= k / batches <= iRegNumOfFlows c /\ 0 <= k mod batches < batches.
Proof using ok.
  unfold flows. destruct batches_cases as [-> | ->]; intros; div_lia.
Qed.

Lemma first_line_range k : 0 <= k < flows * batches -> 0 <= first_line k < 2 ^ MDATA_W.
Proof using ok.
  intros Hk. pose proof (batch_bounds k Hk) as [H1 H2]. destruct ok as [_ Hf _ _]. unfold first_line, LMAX_NUM_OF_FLOWS in *.
  change (2 ^ MDATA_W) with 128. change (2 ^ LMAX_RX_QUEUE_SIZE) with 8. unfold RX_BATCH_SIZE. destruct batches_cases as [E|E]; lia.
Qed.

(** The batch behind [k]. *)
Lemma next_batch k :
  0 <= k < flows * batches ->
  let k' := (k + 1) mod (flows * batches) in
  let last := k mod batches * RX_BATCH_SIZE =? u32 (iRegRxQueueSize c - RX_BATCH_SIZE + 1) in
  (if last then (if k / batches =? iRegNumOfFlows c then 0 else wrap MDATA_W (k / batches + 1)) else k / batches) = k' / batches /\
  (if last then 0 else wrap MDATA_W (k mod batches * RX_BATCH_SIZE + RX_BATCH_SIZE)) = k' mod batches * RX_BATCH_SIZE.
Proof using ok.
  intros Hk k'. pose proof (batch_bounds k Hk) as [H1 H2]. rewrite batches_size. destruct ok as [_ Hfl _ _].
  unfold flows, RX_BATCH_SIZE, LMAX_NUM_OF_FLOWS in *. change MDATA_W with 7.
  assert (k' = if k =? (iRegNumOfFlows c + 1) * batches - 1 then 0 else k + 1) as ->.
  { subst k'. destruct (Z.eqb_spec k ((iRegNumOfFlows c + 1) * batches - 1)) as [->|].
    - replace ((iRegNumOfFlows c + 1) * batches - 1 + 1) with ((iRegNumOfFlows c + 1) * batches) by lia. apply Z_mod_same_full.
    - apply Z.mod_small. lia. }
  destruct batches_cases as [E|E]; rewrite E in Hk, H1, H2 |- *; unfold wrap.
  all: repeat match goal with |- context [?a =? ?b] => destruct (Z.eqb_spec a b) end; div_lia.
Qed.

(** [n] requests were issued, and [left] cycles go by before the next one can be. *)
Definition at_batch (k : Z) (r : poll_regs) : Prop :=
  flow_poll_cnt r = k mod (flows * batches) / batches /\ queue_poll_cnt r = k mod (flows * batches) mod batches * RX_BATCH_SIZE.

Definition polls (n left : Z) (r : poll_regs) : Prop :=
  match rx_state r with
  | RxIdle => 0 <= n /\ at_batch n r /\ poll_frq_div_cnt r = 0 /\ left = 0
  | RxDelay => 1 <= n /\ at_batch (n - 1) r /\ 0 <= poll_frq_div_cnt r <= iRegPollingRate c /\
               left = iRegPollingRate c - poll_frq_div_cnt r + 1
  end.

Definition nth_request (n : Z) : rd_req := request (n mod (flows * batches)).

Lemma poll_request_at n r : at_batch n r -> poll_request c r = nth_request n.
Proof using ok.
  intros [Hf Hq]. pose proof (first_line_range (n mod (flows * batches)) (Z.mod_pos_bound _ _ all_pos)) as Hl.
  unfold poll_request, nth_request, request. rewrite Hf, Hq, Z.shiftl_mul_pow2 by done. fold (first_line (n mod (flows * batches))).
  by rewrite (wrap_small MDATA_W).
Qed.

(** One cycle: a request, or a cycle less to wait, or no room. *)
Lemma poll_step n left full r :
  polls n left r ->
  let r' := poll_next false c full r in
  (sTx_c0 r' = Some (nth_request n) /\ left = 0 /\ polls (n + 1) (iRegPollingRate c + 1) r') \/
  (sTx_c0 r' = None /\ 0 < left /\ polls n (left - 1) r') \/
  (sTx_c0 r' = None /\ left = 0 /\ full = true /\ polls n 0 r').
Proof using ok.
  unfold polls. intros Hp. unfold poll_next. destruct ok as [Hstart _ _ Hrate]. destruct (rx_state r).
  - destruct Hp as (Hn & Hb & Hd & ->). rewrite Hstart, (poll_request_at n r Hb). destruct full; cbn; [right; right; by auto|left].
    rewrite Hd, Z.add_simpl_r.
    split; [done|]. split; [done|]. split; [lia|]. split; [exact Hb|lia].
  - destruct Hp as (Hn & [Hf Hq] & Hd & ->). right; left. destruct (Z.eqb_spec (poll_frq_div_cnt r) (iRegPollingRate c)) as [E|E]; cbn.
    + split; [done|]. split; [lia|]. rewrite Hf, Hq. pose proof (Z.mod_pos_bound (n - 1) _ all_pos) as Hk.
      destruct (next_batch _ Hk) as [-> ->]. rewrite Zplus_mod_idemp_l, Z.sub_add.
      split; [lia|]. split; [done|lia].
    + split; [done|]. split; [lia|]. unfold wrap. rewrite Z.mod_small by lia. split; [lia|]. split; [done|lia].
Qed.

(** The requests of a run. *)
Definition requests (full : list bool) (r : poll_regs) : list rd_req := catSome (outputs poller full r).

Lemma polls_run full n left r :
  polls n left r ->
  exists m left', polls (n + Z.of_nat m) left' (final poller full r) /\
    requests full r = map nth_request (seqZ n (Z.of_nat m)) /\
    Z.of_nat (length full) - Z.of_nat (count_occ bool_eq_dec full true) <= Z.of_nat m * (iRegPollingRate c + 2) + left - left'.
Proof using ok.
  revert n left r. induction full as [|b full IH]; intros n left r Hp; cbn [final].
  { exists 0%nat, left. rewrite Z.add_0_r. split_and!; [done|done|cbn; lia]. }
  set (r' := next poller b r). pose proof (poll_step n left b r Hp) as Hs. cbn zeta in Hs. change (poll_next false c b r) with r' in Hs.
  assert (requests (b :: full) r = option_list (sTx_c0 r') ++ requests full r') as ->.
  { unfold requests, catSome. cbn [outputs omap list_omap]. change (out poller (next poller b r)) with (sTx_c0 r'). by destruct (sTx_c0 r'). }
  assert (Z.of_nat (count_occ bool_eq_dec (b :: full) true) = Z.b2z b + Z.of_nat (count_occ bool_eq_dec full true)) as ->
    by (destruct b; cbn [count_occ]; [destruct (bool_eq_dec true true)|destruct (bool_eq_dec false true)]; cbn; try done; lia).
  cbn [length]. destruct Hs as [(-> & Hl & Hp')|[(-> & Hl & Hp')|(-> & Hl & -> & Hp')]]; destruct (IH _ _ _ Hp') as (m & left' & H1 & -> & H3).
  - exists (S m), left'. rewrite Nat2Z.inj_succ, <- Z.add_1_l, Z.add_assoc. split; [done|]. split; [|destruct b; cbn [Z.b2z]; lia].
    rewrite (seqZ_cons n) by lia. unfold Z.succ. by replace (Z.pred (1 + Z.of_nat m)) with (Z.of_nat m) by lia.
  - exists m, left'. split; [done|]. split; [done|]. destruct b; cbn [Z.b2z]; lia.
  - exists m, left'. split; [done|]. split; [done|]. cbn [Z.b2z]. lia.
Qed.

Lemma polls_after_reset r : polls 0 0 (after_reset r).
Proof using ok.
  unfold polls, at_batch. cbn. pose proof all_pos. rewrite Z.mod_0_l by lia. destruct batches_cases as [-> | ->]; done.
Qed.

(** The answers to a request are for the lines that were asked for. *)
Definition names (rq : rd_req) (b f i : Z) : Prop :=
  let e := rx_entry {| mdata := rd_mdata rq; cl_num := b; line := 0 |} in
  e_flow e = f /\ e_cl e = f * 2 ^ LMAX_RX_QUEUE_SIZE + i /\
  wrap 42 (rd_address rq + b) = wrap 42 (iRegMemTxAddr c + f * 2 ^ LMAX_RX_QUEUE_SIZE + i).

Lemma forall_below n (P : Z -> bool) : forallb P (seqZ 0 n) = true -> forall x, 0 <= x < n -> P x = true.
Proof. intros H x Hx. rewrite forallb_forall in H. apply H, list_elem_of_In, elem_of_seqZ. lia. Qed.

Lemma meta_involutive x : 0 <= x < 2 ^ MDATA_W -> Z.lxor (wrap MDATA_W (Z.lxor META_PATTERN x)) META_PATTERN = x.
Proof.
  intros Hx. apply Z.eqb_eq. revert x Hx. apply (forall_below _ (fun x => _ =? x)). vm_compute. reflexivity.
Qed.

Lemma line_named f i :
  0 <= f <= iRegNumOfFlows c -> 0 <= i <= iRegRxQueueSize c ->
  let k := f * batches + i / RX_BATCH_SIZE in
  0 <= k < flows * batches /\ names (request k) (i mod RX_BATCH_SIZE) f i.
Proof using ok.
  intros Hf Hi k.
  assert (0 <= i / RX_BATCH_SIZE < batches) as Hb.
  { unfold batches, RX_BATCH_SIZE. destruct ok as [_ _ [E|E] _]; rewrite E in *; div_lia. }
  assert (k / batches = f /\ k mod batches = i / RX_BATCH_SIZE) as [E1 E2].
  { subst k. rewrite Z.add_comm, Z.div_add, Z.mod_add, Z.div_small, Z.mod_small by (destruct batches_cases; lia). lia. }
  assert (0 <= k < flows * batches) as Hk by (subst k; unfold flows; destruct batches_cases as [E|E]; rewrite E in *; lia).
  assert (first_line k + i mod RX_BATCH_SIZE = f * 2 ^ LMAX_RX_QUEUE_SIZE + i) as Hl.
  { unfold first_line. rewrite E1, E2. unfold RX_BATCH_SIZE. div_lia. }
  pose proof (first_line_range k Hk) as Hr. pose proof (Z.mod_pos_bound i RX_BATCH_SIZE ltac:(done)) as Hm.
  split; [done|]. unfold names, request, rx_entry. cbn [rd_mdata rd_address mdata cl_num line e_flow e_cl].
  rewrite meta_involutive, Hl by done. destruct ok as [_ Hfl Hs _]. unfold LMAX_NUM_OF_FLOWS in *.
  split_and!.
  - rewrite Z.shiftr_div_pow2 by done. unfold first_line. rewrite E1, E2. unfold wrap, RX_BATCH_SIZE in *. change (2 ^ LMAX_RX_QUEUE_SIZE) with 8.
    destruct batches_cases as [E|E]; rewrite E in *; div_lia.
  - apply wrap_small. unfold in_width. change (2 ^ LMAX_RX_QUEUE_SIZE) with 8 in *. change (2 ^ MDATA_W) with 128. destruct Hs; lia.
  - unfold wrap. rewrite Zplus_mod_idemp_l. f_equal. lia.
Qed.

(** C10. The NIC asks for the lines of the transmit rings batch by batch, ring after ring, and
    over again, without leaving out or repeating a batch; and in a run with [s] cycles in
    which memory does not take a request it issues at least one request in every
    [polling rate + 2] of the other cycles.  So every line of every ring is asked for, and
    its answer says which ring and line it is of. *)
Theorem polling_complete (full : list bool) (r : poll_regs) :
  let rs := requests full (after_reset r) in
  let stalls := Z.of_nat (count_occ bool_eq_dec full true) in
  rs = map nth_request (seqZ 0 (Z.of_nat (length rs))) /\
  Z.of_nat (length full) <= stalls + Z.of_nat (length rs) * (iRegPollingRate c + 2) /\
  forall f i, 0 <= f <= iRegNumOfFlows c -> 0 <= i <= iRegRxQueueSize c ->
    stalls + flows * batches * (iRegPollingRate c + 2) <= Z.of_nat (length full) ->
    exists rq b, rq ∈ rs /\ 0 <= b < RX_BATCH_SIZE /\ names rq b f i.
Proof using ok.
  intros rs stalls. destruct (polls_run full 0 0 _ (polls_after_reset r)) as (m & left' & Hp & Hrs & Hb).
  fold rs in Hrs. fold stalls in Hb. assert (length rs = m) as Hm by (rewrite Hrs, length_map, length_seqZ; lia).
  rewrite Hm. assert (0 <= left') as Hl by (unfold polls in Hp; destruct (rx_state _); lia).
  split; [done|]. split; [lia|]. intros f i Hf Hi Hlen. destruct (line_named f i Hf Hi) as [Hk Hn].
  eexists _, _. split; [|split; [|exact Hn]]; [|by apply Z.mod_pos_bound].
  rewrite Hrs. apply list_elem_of_fmap. exists (f * batches + i / RX_BATCH_SIZE). split.
  - unfold nth_request. by rewrite Z.mod_small.
  - apply elem_of_seqZ. destruct ok as [_ _ _ Hr]. nia.
Qed.
End polling.
End polling.

(** ** Detection of new packets *)
Module detection.

(** The reference: the table has one bit for each line, and a packet whose flag is not the
    bit of its line is new and flips the bit. *)
Definition fresh (t : Z -> bool) (e : entry) : bool := xorb (t (e_cl e)) (update_bit e).
Definition see (t : Z -> bool) (e : entry) : Z -> bool := if fresh t e then upd t (e_cl e) (negb (t (e_cl e))) else t.

Fixpoint detect (t : Z -> bool) (es : list entry) : list entry :=
  match es with
  | [] => []
  | e :: es' => (if fresh t e then [e] else []) ++ detect (see t e) es'
  end.

Fixpoint seen (t : Z -> bool) (es : list entry) : Z -> bool :=
  match es with [] => t | e :: es' => seen (see t e) es' end.

Lemma detect_app t es es' : detect t (es ++ es') = detect t es ++ detect (seen t es) es'.
Proof. revert t. induction es as [|e es IH]; intros t; cbn; [done|]. by rewrite IH, (assoc_L (++)). Qed.

(** The circuit when it runs, the table having been cleared. *)
Definition reader : circuit pipe_regs (option mem_rsp) (option RpcIf) :=
  {| next := pipe_next false true false; out := rpc_out |}.

Definition to_rpc (e : entry) : RpcIf := {| flow_id := e_flow e; rpc_data := e_data e |}.

(** The table with the write that is under way, and the entries that are not compared yet. *)
Definition table (r : pipe_regs) : Z -> bool :=
  match commit r with Some (e, b) => upd (mem (ccip_dirty_tb r)) (e_cl e) b | None => mem (ccip_dirty_tb r) end.
Definition in_flight (r : pipe_regs) : list entry := option_list (poll_data_1d r) ++ option_list (poll_data r).

Definition line_of (e : option entry) : option Z := e_cl <$> e.

(** Two lines are not the same one. *)
Definition differ (a b : option Z) : Prop := match a, b with Some x, Some y => x <> y | _, _ => True end.

Record runs (r : pipe_regs) : Prop := {
  ru_init : db_tb_init_state r = DBInitIdle;
  ru_bit : forall e, poll_data_1d r = Some e -> q (ccip_dirty_tb r) = table r (e_cl e);
  ru_first : differ (line_of (poll_data r)) (line_of (poll_data_1d r));
  ru_second : differ (line_of (poll_data r)) (line_of (fst <$> commit r))
}.

(** Answers for one line are at least three cycles apart; [a] and [b] are the lines of the
    last cycle and of the one before. *)
Fixpoint spaced (a b : option Z) (ins : list (option mem_rsp)) : Prop :=
  match ins with
  | [] => True
  | i :: ins' =>
      let l := line_of (accept true i) in
      differ l a /\ differ l b /\ spaced l a ins'
  end.

Lemma differ_commit l d e : differ l (line_of e) -> differ l (line_of (fst <$> compare d e)).
Proof. destruct e as [e|]; cbn; [|done]. by destruct (xorb _ _), l. Qed.

Lemma table_next r i : db_tb_init_state r = DBInitIdle -> mem (ccip_dirty_tb (next reader i r)) = table r.
Proof. intros E. cbn. unfold dirty_next, table. rewrite E. by destruct (commit r) as [[e b]|]. Qed.

Lemma bit_next r i e :
  db_tb_init_state r = DBInitIdle -> poll_data r = Some e -> q (ccip_dirty_tb (next reader i r)) = mem (ccip_dirty_tb r) (e_cl e).
Proof. intros E Ep. cbn. unfold dirty_next. rewrite E, Ep. by destruct (commit r) as [[e' b]|]. Qed.

Lemma table_other r x : differ (Some x) (line_of (fst <$> commit r)) -> table r x = mem (ccip_dirty_tb r) x.
Proof. unfold table. destruct (commit r) as [[e b]|]; cbn; [|done]. intros. by apply ram_upd_other. Qed.

(** The comparison is the one of the reference. *)
Lemma table_step r i :
  runs r ->
  table (next reader i r) = match poll_data_1d r with Some e => see (table r) e | None => table r end /\
  option_list (rpc_out (next reader i r)) =
    match poll_data_1d r with Some e => if fresh (table r) e then [to_rpc e] else [] | None => [] end.
Proof.
  intros [Hi Hb _ _]. unfold table at 1, rpc_out. rewrite table_next by done. cbn [commit next reader pipe_next].
  destruct (poll_data_1d r) as [e|]; [|done]. cbn [compare]. rewrite (Hb e eq_refl). unfold see, fresh. by destruct (xorb _ _).
Qed.

Lemma runs_next r i :
  runs r -> differ (line_of (accept true i)) (line_of (poll_data r)) -> differ (line_of (accept true i)) (line_of (poll_data_1d r)) ->
  runs (next reader i r).
Proof.
  intros Hr H1 H2. pose proof Hr as [Hi Hb Hf Hs]. split; cbn [db_tb_init_state poll_data poll_data_1d next reader pipe_next].
  - by rewrite Hi, andb_false_r.
  - intros e E. fold (pipe_next false true false i r). change (pipe_next false true false i r) with (next reader i r).
    rewrite (bit_next r i e) by done. destruct (table_step r i Hr) as [-> _]. rewrite E in Hf, Hs. cbn in Hf.
    rewrite <- (table_other r (e_cl e)) by done. destruct (poll_data_1d r) as [e'|]; [|done]. cbn in Hf. unfold see.
    destruct (fresh _ _); [|done]. by rewrite ram_upd_other.
  - done.
  - by apply differ_commit.
Qed.

(** The packets that the NIC forwards. *)
Definition forwarded (ins : list (option mem_rsp)) (r : pipe_regs) : list RpcIf := catSome (outputs reader ins r).
Definition answered (ins : list (option mem_rsp)) : list entry := catSome (map (accept true) ins).

(** If the answers for a line are at least three cycles apart, the pipeline forwards what
    the reference detects: what was forwarded, with what is still under way, is what the
    reference makes of the answers, one after the other. *)
Lemma new_packets_detected (ins : list (option mem_rsp)) (r : pipe_regs) :
  runs r -> spaced (line_of (poll_data r)) (line_of (poll_data_1d r)) ins ->
  let r' := final reader ins r in
  runs r' /\
  forwarded ins r ++ map to_rpc (detect (table r') (in_flight r')) = map to_rpc (detect (table r) (in_flight r ++ answered ins)).
Proof.
  revert r. induction ins as [|i ins IH]; intros r Hr Hsp; cbn [final].
  { cbn. by rewrite app_nil_r. }
  destruct Hsp as (H1 & H2 & Hsp). pose proof (runs_next r i Hr H1 H2) as Hr'. pose proof (table_step r i Hr) as [Ht Ho].
  destruct (IH _ Hr' Hsp) as [Hf IHe]. split; [exact Hf|]. cbn zeta in IHe.
  assert (forwarded (i :: ins) r = option_list (rpc_out (next reader i r)) ++ forwarded ins (next reader i r)) as ->.
  { unfold forwarded, catSome. cbn [outputs omap list_omap]. change (out reader) with rpc_out. by destruct (rpc_out _). }
  rewrite <- (assoc_L (++)), IHe, Ho, Ht. unfold in_flight, answered. cbn [poll_data poll_data_1d next reader pipe_next map].
  assert (catSome (accept true i :: map (accept true) ins) = option_list (accept true i) ++ catSome (map (accept true) ins)) as ->
    by (unfold catSome; cbn; by destruct (accept true i)).
  destruct (poll_data_1d r) as [e|]; cbn [option_list]; rewrite ?(app_nil_l), <- ?(assoc_L (++)).
  - change (option_list (Some e)) with [e]. cbn [app detect]. by destruct (fresh (table r) e).
  - done.
Qed.

(** What is detected on a line depends on the answers for it only. *)
Definition on_line (x : Z) (es : list entry) : list entry := filter (fun e => e_cl e = x) es.

Lemma detect_line x t t' es : t x = t' x -> on_line x (detect t es) = detect t' (on_line x es).
Proof.
  revert t t'. induction es as [|e es IH]; intros t t' Ht; [done|]. cbn [detect]. unfold on_line in *. rewrite filter_app, filter_cons.
  destruct (decide (e_cl e = x)) as [<-|Hd].
  - cbn [detect]. assert (fresh t e = fresh t' e) as E by (unfold fresh; by rewrite Ht). f_equal.
    + rewrite E. destruct (fresh t' e); [|done]. by rewrite filter_cons_True.
    + apply IH. unfold see. rewrite E, Ht. destruct (fresh t' e); [by rewrite !ram_upd_same|done].
  - rewrite (IH _ t'). 2: { unfold see. destruct (fresh t e); [by rewrite ram_upd_other|done]. }
    destruct (fresh t e); [|done]. by rewrite filter_cons_False.
Qed.

Lemma spaced_idle a b ins n : spaced a b ins -> spaced a b (ins ++ replicate n None).
Proof.
  revert a b. induction ins as [|i ins IH]; intros a b; cbn; [intros _|intros (? & ? & ?); auto]. revert a b. induction n; intros a b; cbn; [done|].
  split_and!; auto.
Qed.

(** Two more cycles without an answer, and nothing is under way. *)
Lemma flushed ins r : in_flight (final reader (ins ++ [None; None]) r) = [].
Proof. rewrite final_app. done. Qed.

(** From an empty pipeline until it is empty again. *)
Lemma forwarded_detect ins r :
  runs r -> in_flight r = [] -> spaced None None ins ->
  forwarded (ins ++ [None; None]) r = map to_rpc (detect (table r) (answered ins)).
Proof.
  intros Hr Hf Hsp. assert (poll_data r = None /\ poll_data_1d r = None) as [E1 E2] by (unfold in_flight in Hf; by destruct (poll_data r), (poll_data_1d r)).
  destruct (new_packets_detected (ins ++ [None; None]) r Hr) as [_ Hd].
  { rewrite E1, E2. by apply (spaced_idle _ _ _ 2). }
  cbn zeta in Hd. rewrite flushed, Hf in Hd. cbn [detect map app] in Hd. rewrite app_nil_r in Hd. rewrite Hd.
  unfold answered. by rewrite map_app, catSome_app, app_nil_r.
Qed.

(** C39. Answers for the same line in two consecutive cycles, or with one cycle between them: the
    second comparison is made with the bit from before the first one, and a new packet is
    forwarded twice. *)
Theorem close_answers_duplicate (r : pipe_regs) (m : mem_rsp) (e : entry) (gap : bool) :
  runs r -> in_flight r = [] -> commit r = None -> accept true (Some m) = Some e -> fresh (table r) e = true ->
  let ins := [Some m] ++ (if gap then [None] else []) ++ [Some m; None; None] in
  forwarded ins r = [to_rpc e; to_rpc e].
Proof.
  destruct r as [pd pd1 cm [tm tq] st a ini]. intros [Hi _ _ _] Hf Hc Ha Hn. unfold in_flight in Hf. cbn in Hi, Hf, Hc. subst st cm.
  destruct pd, pd1; try done. unfold fresh, table in Hn. cbn in Hn. unfold forwarded, catSome.
  cbn in Ha. destruct (is_valid m) eqn:Ev; [|done]. injection Ha as <-.
  assert (forall r, next reader (Some m) r =
    {| poll_data := Some (rx_entry m); poll_data_1d := poll_data r; commit := compare (q (ccip_dirty_tb r)) (poll_data_1d r);
       ccip_dirty_tb := dirty_next r; db_tb_init_state := db_tb_init_state (next reader None r);
       d_bit_wr_addr_init := d_bit_wr_addr_init (next reader None r); d_bit_tb_initialized := d_bit_tb_initialized (next reader None r) |}) as Hm
    by (intros; cbn [next reader]; unfold pipe_next, accept; by rewrite Ev).
  destruct gap; cbn [app outputs]; rewrite !Hm; clear Hm; revert Hn; generalize (rx_entry m); intros e Hn.
  all: repeat (progress (cbn -[update_bit Z.eqb MDATA_W xorb]; unfold rpc_out, dirty_next; rewrite ?Hn, ?andb_false_r)); done.
Qed.

(** ** Initialisation

    Two cycles of reset empty the pipeline; the write of the initialisation register starts
    the clearing of the table, a line with each cycle, while nothing is read. *)
Record clearing (k : Z) (r : pipe_regs) : Prop := {
  cl_pipe : poll_data r = None /\ poll_data_1d r = None /\ commit r = None;
  cl_state : db_tb_init_state r = DBInit;
  cl_addr : d_bit_wr_addr_init r = k;
  cl_mem x : 0 <= x < k -> mem (ccip_dirty_tb r) x = false
}.

Definition clears (r : pipe_regs) (rsp : option mem_rsp) : pipe_regs := pipe_next false false false rsp r.

Lemma not_started rsp : accept false rsp = None.
Proof. by destruct rsp. Qed.

Lemma dirty_clearing_step k r rsp : 0 <= k < 2 ^ MDATA_W - 1 -> clearing k r -> clearing (k + 1) (clears r rsp).
Proof.
  intros Hk [(P1 & P2 & P3) Hs Ha Hm]. unfold clears, pipe_next. rewrite Hs, Ha, P1, P2, not_started. rewrite (proj2 (Z.eqb_neq _ _)) by lia.
  split; cbn [poll_data poll_data_1d commit db_tb_init_state d_bit_wr_addr_init ccip_dirty_tb]; [done|done|apply wrap_small; unfold in_width; lia|].
  intros x Hx. unfold dirty_next. rewrite Hs, Ha. cbn. destruct (decide (x = k)) as [->|]; [apply ram_upd_same|]. rewrite ram_upd_other by done. apply Hm. lia.
Qed.

Lemma dirty_clearing_run rsps k r :
  clearing k r -> 0 <= k -> k + Z.of_nat (length rsps) <= 2 ^ MDATA_W - 1 -> clearing (k + Z.of_nat (length rsps)) (fold_left clears rsps r).
Proof.
  revert k r. induction rsps as [|m rsps IH]; intros k r Hc Hk Hl; cbn [fold_left length] in *; [by rewrite Z.add_0_r|].
  replace (k + Z.of_nat (S (length rsps))) with (k + 1 + Z.of_nat (length rsps)) by lia. apply IH; [|lia|lia]. apply dirty_clearing_step; [lia|done].
Qed.

(** From any content at power-up to a pipeline that runs on a clear table. *)
Lemma dirty_initialised r start (m1 m2 m3 m4 : option mem_rsp) (rsps : list (option mem_rsp)) :
  Z.of_nat (length rsps) = 2 ^ MDATA_W - 1 ->
  let up := pipe_next true start false m2 (pipe_next true start false m1 r) in
  let r' := clears (fold_left clears rsps (pipe_next false false true m3 up)) m4 in
  runs r' /\ in_flight r' = [] /\ d_bit_tb_initialized r' = true /\ forall x, 0 <= x < 2 ^ MDATA_W -> table r' x = false.
Proof.
  intros Hl up r'. assert (clearing 0 (pipe_next false false true m3 up)) as H0.
  { split; cbn; [by rewrite not_started|done|done|lia]. }
  pose proof (dirty_clearing_run rsps 0 _ H0 ltac:(done) ltac:(lia)) as Hc. rewrite Hl, Z.add_0_l in Hc.
  set (r1 := fold_left _ _ _) in *. destruct Hc as [(P1 & P2 & P3) Hs Ha Hm]. subst r'. unfold clears, pipe_next.
  rewrite Hs, Ha, P1, P2, not_started, Z.eqb_refl. split; [|split_and!; try done].
  - split; cbn; done.
  - intros x Hx. unfold table. cbn [commit compare ccip_dirty_tb]. unfold dirty_next. rewrite Hs, Ha. cbn -[Z.pow].
    destruct (decide (x = 2 ^ MDATA_W - 1)) as [->|]; [apply ram_upd_same|]. rewrite ram_upd_other by done. apply Hm. lia.
Qed.
End detection.

(** ** Examples *)
Definition sample_pipe : pipe_regs :=
  {| poll_data := None; poll_data_1d := None; commit := None; ccip_dirty_tb := {| mem := fun _ => false; q := true |};
     db_tb_init_state := DBInitIdle; d_bit_wr_addr_init := 127; d_bit_tb_initialized := true |}.

Lemma sample_runs : detection.runs sample_pipe.
Proof. by split. Qed.

Definition sample_csrs : csrs :=
  {| iRegMemTxAddr := 0x400; iRegMemRxAddr := 0x440; iRegNicStart := true; iRegNumOfFlows := 3; iRegNicInit := false; iRegGetPckCnt := 0;
     iRegRxQueueSize := 7; iRegTxQueueSize := 8; lRegTxBatchSize := 0; iRegRxBatchSize := 0; iRegPollingRate := 30;
     iRegConnSetupFrame := 0; iRegConnSetupFrame_en := false; iLB := false; iRegPhyNetAddr := 0; iRegIpv4NetAddr := 0;
     iRegReadNetDropCnt := 0; iRegReadNetDropCntValid := false |}.

Definition any_poll : poll_regs :=
  {| rx_state := RxDelay; queue_poll_cnt := 9; flow_poll_cnt := 100; poll_frq_div_cnt := 77; sTx_c0 := None |}.

(** Four rings of eight lines are read in 256 cycles. *)
Lemma polling_complete_witness :
  exists rq b, rq ∈ polling.requests sample_csrs (replicate 256 false) (polling.after_reset sample_csrs any_poll) /\
    0 <= b < RX_BATCH_SIZE /\ polling.names sample_csrs rq b 1 5.
Proof.
  destruct (polling.polling_complete sample_csrs) with (full := replicate 256 false) (r := any_poll) as (_ & _ & H).
  - split; [done|done|by right|done].
  - apply H; [cbn; lia|cbn; lia|]. vm_compute. discriminate.
Defined.

Definition sample_answer : mem_rsp := {| mdata := META_PATTERN; cl_num := 0; line := 6 |}.

Lemma close_answers_duplicate_witness :
  detection.forwarded [Some sample_answer; Some sample_answer; None; None] sample_pipe =
    [{| flow_id := 0; rpc_data := 6 |}; {| flow_id := 0; rpc_data := 6 |}].
Proof.
  exact (detection.close_answers_duplicate sample_pipe sample_answer (rx_entry sample_answer) false sample_runs eq_refl eq_refl eq_refl eq_refl).
Defined.
