(* ===== verification/HwTxPath.v ===== *)
(** * From a client's stub to the NIC

    The stub of RpcStub writes packets into the transmit ring of a flow, memory answers the
    NIC's reads with the lines as they are at some time after the request, and the pipeline
    of HwPolling forwards new packets.  The theorems say when each packet arrives exactly
    once, and what happens otherwise. *)

From S2P Require Import Prelude Queues Host NicCcip CompletionQueue RpcClient Wire RpcStub HwBase HwDefs HwCcip HwPolling.
Import queue_polling detection.

(** ** The two views of a packet *)

(** The line as a number, as the NIC sees it. *)
Definition bits (p : RpcPckt) : Z := le_val (encode_pckt p).

Lemma le_val_app l l' : Forall (in_width 8) l -> le_val (l ++ l') = le_val l + 2 ^ (8 * Z.of_nat (length l)) * le_val l'.
Proof.
  induction 1 as [|b l Hb _ IH]; cbn [app le_val length]; [cbn; lia|].
  rewrite IH. replace (8 * Z.of_nat (S (length l))) with (8 + 8 * Z.of_nat (length l)) by lia. rewrite Z.pow_add_r by lia. lia.
Qed.

(** Bytes [i] to [i + n] of a number. *)
Lemma field_bytes (l a b c : list Z) lo len :
  l = a ++ b ++ c -> lo = 8 * Z.of_nat (length a) -> len = 8 * Z.of_nat (length b) ->
  Forall (in_width 8) a -> Forall (in_width 8) b -> field (le_val l) lo len = le_val b.
Proof.
  intros -> -> -> Ha Hb. rewrite le_val_app, (Z.mul_comm (2 ^ _)), field_pack_hi by (done || lia || by apply le_val_bound).
  rewrite le_val_app by done. unfold wrap. rewrite (Z.mul_comm (2 ^ _)), Z.mod_add by lia. apply wrap_small. by apply le_val_bound.
Qed.

(** A part of the first byte. *)
Lemma field_first b bs lo len :
  0 <= lo -> 0 <= len -> lo + len <= 8 -> field (le_val (b :: bs)) lo len = field b lo len.
Proof.
  intros. cbn [le_val]. replace (256 * le_val bs) with (le_val bs * 2 ^ (8 - (lo + len)) * 2 ^ (lo + len)).
  - by rewrite field_pack_lo.
  - rewrite <- Z.mul_assoc, <- Z.pow_add_r by lia. replace (8 - (lo + len) + (lo + len)) with 8 by lia. lia.
Qed.

Lemma bits_ctl p :
  wf_ctl (ctl (hdr p)) ->
  rpc_pckt.req_type (bits p) = req_type (ctl (hdr p)) /\ rpc_pckt.update_flag (bits p) = update_flag (ctl (hdr p)) /\
  rpc_pckt.valid (bits p) = valid (ctl (hdr p)).
Proof.
  intros Hctl. pose proof (decode_encode_ctl _ Hctl) as Ed. unfold bits, encode_pckt. destruct (ctl (hdr p)) as [ty u v].
  injection Ed as E1 E2 E3. split_and!; (etrans; [by apply field_first|done]).
Qed.

(** C37. cpu_if_defs.vh and rpc_header.h say the same of a packet: each member of the hardware's
    packed structure is, in the line that the software writes, the field of that name. *)
Theorem packet_layouts_agree (p : RpcPckt) (Hp : wf_pckt p) :
  let x := bits p in
  rpc_pckt.req_type x = req_type (ctl (hdr p)) /\ rpc_pckt.update_flag x = update_flag (ctl (hdr p)) /\
  rpc_pckt.valid x = valid (ctl (hdr p)) /\ rpc_pckt.rpc_id x = rpc_id (hdr p) /\
  rpc_pckt.n_of_frames x = n_of_frames (hdr p) /\ rpc_pckt.frame_id x = frame_id (hdr p) /\
  rpc_pckt.fn_id x = fn_id (hdr p) /\ rpc_pckt.argl x = argl (hdr p) /\
  rpc_pckt.connection_id x = c_id (hdr p) /\ rpc_pckt.argv x = le_val (argv p) /\ in_width 512 x.
Proof.
  intros x. destruct Hp as ((Hctl & Hi & Hn & Hf & Hfn & Hal & Hc) & Hl & Hav). pose proof (bits_ctl p Hctl) as (B1 & B2 & B3).
  split; [exact B1|]. split; [exact B2|]. split; [exact B3|]. clear B1 B2 B3. subst x. unfold bits, encode_pckt.
  destruct p as [[ct i n f fn al c] av]. cbn [hdr argv ctl rpc_id n_of_frames frame_id fn_id argl c_id] in *.
  assert (in_width 8 (encode_ctl ct)) as Hct.
  { destruct Hctl as (H1 & H2 & H3). unfold in_width, encode_ctl in *. rewrite !wrap_small by done. lia. }
  set (e := encode_ctl _) in *. pose proof (fun n x => le_bytes_width n x) as Hw.
  set (p1 := e :: le_bytes 4 i). set (p2 := p1 ++ le_bytes 1 n). set (p3 := p2 ++ le_bytes 1 f). set (p4 := p3 ++ le_bytes 2 fn).
  set (p5 := p4 ++ le_bytes 2 al). set (p6 := p5 ++ le_bytes 1 c).
  assert (Forall (in_width 8) p6) as H6 by (subst p1 p2 p3 p4 p5 p6; rewrite !Forall_app; split_and!; try done; by constructor).
  pose proof H6 as [H5 _]%Forall_app. pose proof H5 as [H4 _]%Forall_app. pose proof H4 as [H3 _]%Forall_app.
  pose proof H3 as [H2 _]%Forall_app. pose proof H2 as [H1 _]%Forall_app.
  split_and!.
  - etrans; [by apply (field_bytes _ [e] (le_bytes 4 i) _ _ _ eq_refl); [..|apply Forall_singleton|]|]. by rewrite le_val_bytes, wrap_small.
  - etrans; [by apply (field_bytes _ p1 (le_bytes 1 n) _ _ _ eq_refl)|]. by rewrite le_val_bytes, wrap_small.
  - etrans; [by apply (field_bytes _ p2 (le_bytes 1 f) _ _ _ eq_refl)|]. by rewrite le_val_bytes, wrap_small.
  - etrans; [by apply (field_bytes _ p3 (le_bytes 2 fn) _ _ _ eq_refl)|]. by rewrite le_val_bytes, wrap_small.
  - etrans; [by apply (field_bytes _ p4 (le_bytes 2 al) _ _ _ eq_refl)|]. by rewrite le_val_bytes, wrap_small.
  - etrans; [by apply (field_bytes _ p5 (le_bytes 1 c) _ _ _ eq_refl)|]. by rewrite le_val_bytes, wrap_small.
  - apply (field_bytes _ p6 av []); try done; [by rewrite app_nil_r|by rewrite Hl].
  - change (in_width 512 (le_val (p6 ++ av))). assert (512 = 8 * Z.of_nat (length (p6 ++ av))) as -> by (rewrite length_app, Hl; reflexivity).
    apply le_val_bound, Forall_app. done.
Qed.

(** ** A client and the memory *)

(** What a client and the reads of the NIC do, in the order in which memory sees it. *)
Inductive event := Send (fn : Z) (args : list Z) | Fetch (slot : Z).
Inductive obs := Sent (slot : Z) (p : RpcPckt) | Fetched (slot : Z) (p : RpcPckt).

(** The lines of the ring by their addresses. *)
Record cpu := { client : RpcClient; lines : Z -> RpcPckt }.

Definition DEPTH : Z := 2 ^ LMAX_RX_QUEUE_SIZE.

Section ring.
Variables (base tx_buff_end : Z).

Definition slot_addr (i : Z) : Z := base + i * get_mtu_size_bytes.
Definition slot_of (a : Z) : Z := (a - base) / get_mtu_size_bytes.

(** A call of a stub, the stores of which no read comes between, or a read. *)
Definition step (e : event) : M cpu obs :=
  match e with
  | Send fn args =>
      let! (tx_ptr, ws) := zoom client (fun c s => {| client := c; lines := lines s |}) (client_stub tx_buff_end fn args) in
      let! s := get in
      let p := run_stores ws (lines s tx_ptr) in
      modify (fun s => {| client := client s; lines := upd (lines s) tx_ptr p |}) ;;
      ret (Sent (slot_of tx_ptr) p)
  | Fetch i => let! s := get in ret (Fetched i (lines s (slot_addr i)))
  end.

Fixpoint exec (es : list event) : M cpu (list obs) :=
  match es with
  | [] => ret []
  | e :: es' => let! o := step e in let! os := exec es' in ret (o :: os)
  end.

Definition event_ok (e : event) : Prop :=
  match e with Send _ args => Z.of_nat (length args) <= argv_size | Fetch i => 0 <= i < DEPTH end.

Hypothesis base_ok : base <> 0 /\ base mod get_mtu_size_bytes = 0 /\ base + DEPTH * get_mtu_size_bytes <= tx_buff_end.

(** ** A packet in its slot *)
Lemma run_stores_app l l' p : run_stores (l ++ l') p = run_stores l' (run_stores l p).
Proof. apply fold_left_app. Qed.

Lemma put_data_run data p :
  (length data <= length (argv p))%nat ->
  run_stores (put_data data) p = {| hdr := hdr p; argv := map u8 data ++ drop (length data) (argv p) |}.
Proof.
  unfold put_data. induction data as [|b data IH] using rev_ind; intros Hl; [by destruct p|].
  rewrite length_app in Hl. cbn in Hl. rewrite imap_app, run_stores_app, IH by lia. cbn. unfold put_arg. cbn [hdr argv].
  f_equal. rewrite Nat.add_0_r, map_app, length_app. cbn [map length].
  rewrite insert_app_r_alt by (rewrite length_map; lia). rewrite length_map, Nat.sub_diag, <- (assoc_L (++)). f_equal.
  destruct (drop (length data) (argv p)) as [|x l] eqn:E.
  - apply (f_equal length) in E. rewrite length_drop in E. cbn in E. lia.
  - cbn. f_equal. by rewrite <- drop_drop, E.
Qed.

(** What the template leaves in a slot. *)
Definition written (conn_id id fn argl : Z) (ty : Direction) (change_bit : Z) (data : list Z) (p : RpcPckt) : RpcPckt :=
  {| hdr := {| ctl := {| req_type := Direction_val ty; update_flag := wrap 1 change_bit; valid := 1 |};
               rpc_id := u32 id; n_of_frames := 1; frame_id := 0; fn_id := u16 fn; argl := u16 argl; c_id := u8 conn_id |};
     argv := map u8 data ++ drop (length data) (argv p) |}.

Lemma dagger_write_run conn_id id fn argl ty b data p :
  (length data <= length (argv p))%nat ->
  run_stores (dagger_write conn_id id fn argl ty b data) p = written conn_id id fn argl ty b data p.
Proof.
  intros Hl. unfold dagger_write. rewrite !run_stores_app, put_data_run by done. by destruct ty.
Qed.

Lemma written_wf conn_id id fn argl ty b data p :
  (length data <= length (argv p))%nat -> wf_pckt p -> wf_pckt (written conn_id id fn argl ty b data p).
Proof.
  intros Hl (_ & Hav & Hw). split_and!.
  - unfold wf_header, wf_ctl. cbn. split_and!; try apply wrap_range; try done; try (by destruct ty).
  - cbn. rewrite length_app, length_map, length_drop. lia.
  - cbn. apply Forall_app. split; [|by apply Forall_drop]. apply Forall_map, Forall_true. intros. by apply wrap_range.
Qed.

(** ** Calls *)
Lemma stub_call k c fn args :
  0 <= k -> Tx.at_call base get_mtu_size_bytes DEPTH k (tx_queue_ c) -> Z.of_nat (length args) <= argv_size ->
  exists id c', client_stub tx_buff_end fn args c =
      Ret (slot_addr (k mod DEPTH), dagger_write (c_id_ c) id fn (Z.of_nat (length args)) rpc_request ((1 + k / DEPTH) mod 2) args) c' /\
    Tx.at_call base get_mtu_size_bytes DEPTH (k + 1) (tx_queue_ c').
Proof using base_ok.
  intros Hk Hq Hl. destruct base_ok as (Hb & Hm & He).
  destruct (Tx.get_write_ptr_spec base get_mtu_size_bytes DEPTH Hb ltac:(done) k _ Hk Hq) as (q' & Ew & Hq').
  eexists _, _. unfold client_stub, bind, zoom. rewrite Ew. pose proof (Z.mod_pos_bound k DEPTH ltac:(done)) as Hi.
  unfold massert, get, modify, ret. fold (slot_addr (k mod DEPTH)).
  assert ((slot_addr (k mod DEPTH) <? tx_buff_end) = true) as ->.
  { apply Z.ltb_lt. unfold slot_addr, DEPTH in *. change get_mtu_size_bytes with 64 in *. cbn in *. lia. }
  assert ((slot_addr (k mod DEPTH) mod get_mtu_size_bytes =? 0) = true) as ->.
  { apply Z.eqb_eq. unfold slot_addr. by rewrite Z.mod_add. }
  rewrite (proj2 (Z.ltb_ge _ _)) by done. cbn [client_id_ rpc_id_cnt_ c_id_ set_tx_queue]. split; [reflexivity|exact Hq'].
Qed.

Lemma slot_of_addr i : slot_of (slot_addr i) = i.
Proof. unfold slot_of, slot_addr. replace (base + i * get_mtu_size_bytes - base) with (i * get_mtu_size_bytes) by lia. by apply Z.div_mul. Qed.

Lemma slot_addr_inj i j : slot_addr i = slot_addr j -> i = j.
Proof. intros E. by rewrite <- (slot_of_addr i), E, slot_of_addr. Qed.

(** A call in the state of the memory. *)
Lemma send_step k fn args s :
  0 <= k -> Tx.at_call base get_mtu_size_bytes DEPTH k (tx_queue_ (client s)) -> Z.of_nat (length args) <= argv_size ->
  wf_pckt (lines s (slot_addr (k mod DEPTH))) ->
  exists p c', step (Send fn args) s = Ret (Sent (k mod DEPTH) p) {| client := c'; lines := upd (lines s) (slot_addr (k mod DEPTH)) p |} /\
    Tx.at_call base get_mtu_size_bytes DEPTH (k + 1) (tx_queue_ c') /\
    wf_pckt p /\ valid (ctl (hdr p)) = 1 /\ update_flag (ctl (hdr p)) = (1 + k / DEPTH) mod 2 /\
    argv p = map u8 args ++ drop (length args) (argv (lines s (slot_addr (k mod DEPTH)))).
Proof using base_ok.
  intros Hk Hq Hl Hw. destruct (stub_call k _ fn args Hk Hq Hl) as (id & c' & E & Hq').
  eexists _, c'. unfold step, bind at 1, zoom. rewrite E. cbn [client lines]. unfold bind, get, modify, ret. cbn [client lines].
  rewrite slot_of_addr. assert (length args <= length (argv (lines s (slot_addr (k mod DEPTH)))))%nat as Hla by (destruct Hw as (_ & -> & _); lia).
  split; [reflexivity|]. split; [exact Hq'|]. rewrite dagger_write_run by done. split; [by apply written_wf|].
  split; [done|]. split; [|done]. cbn. apply wrap_small. unfold in_width. pose proof (Z.mod_pos_bound (1 + k / DEPTH) 2). lia.
Qed.

(** ** Reads of the ring of flow [f] *)
Variable f : Z.

Definition entry_of (i : Z) (p : RpcPckt) : entry := {| e_flow := f; e_cl := f * DEPTH + i; e_data := bits p |}.

(** The answers to the reads, in their order; the pipeline looks at valid packets only. *)
Definition answer_of (o : obs) : option entry :=
  match o with
  | Fetched i p => if valid (ctl (hdr p)) =? 1 then Some (entry_of i p) else None
  | Sent _ _ => None
  end.
Definition reads (os : list obs) : list entry := omap answer_of os.

(** [new i] is the packet in slot [i] if it was not read yet.  The reads that are the first
    ones of a packet, and what is unread at the end. *)
Fixpoint firsts (new : Z -> option RpcPckt) (os : list obs) : list (Z * RpcPckt) :=
  match os with
  | [] => []
  | Sent i p :: os' => firsts (upd new i (Some p)) os'
  | Fetched i _ :: os' => match new i with Some p => [(i, p)] | None => [] end ++ firsts (upd new i None) os'
  end.

Fixpoint unread (new : Z -> option RpcPckt) (os : list obs) : Z -> option RpcPckt :=
  match os with
  | [] => new
  | Sent i p :: os' => unread (upd new i (Some p)) os'
  | Fetched i _ :: os' => unread (upd new i None) os'
  end.

(** No packet is overwritten before it was read. *)
Fixpoint no_overrun (new : Z -> option RpcPckt) (os : list obs) : Prop :=
  match os with
  | [] => True
  | Sent i p :: os' => new i = None /\ no_overrun (upd new i (Some p)) os'
  | Fetched i _ :: os' => no_overrun (upd new i None) os'
  end.

(** After [n] calls: the flag of the packet in a slot is not the one of the next call for
    the slot, and the NIC's bit for the line is this flag, or the other one as long as the
    packet was not read. *)
Record good (n : Z) (t : Z -> bool) (new : Z -> option RpcPckt) (s : cpu) : Prop := {
  g_calls : 0 <= n;
  g_queue : Tx.at_call base get_mtu_size_bytes DEPTH n (tx_queue_ (client s));
  g_wf i : 0 <= i < DEPTH -> wf_pckt (lines s (slot_addr i));
  g_old i : 0 <= i < DEPTH -> new i = None ->
    t (f * DEPTH + i) = negb (Tx.slot_bit DEPTH n i =? 1) /\
    (valid (ctl (hdr (lines s (slot_addr i)))) = 1 -> update_flag (ctl (hdr (lines s (slot_addr i)))) = 1 - Tx.slot_bit DEPTH n i);
  g_new i p : 0 <= i < DEPTH -> new i = Some p ->
    lines s (slot_addr i) = p /\ valid (ctl (hdr p)) = 1 /\ update_flag (ctl (hdr p)) = 1 - Tx.slot_bit DEPTH n i /\
    t (f * DEPTH + i) = (Tx.slot_bit DEPTH n i =? 1)
}.

Lemma slot_bit_cases n i : Tx.slot_bit DEPTH n i = 0 \/ Tx.slot_bit DEPTH n i = 1.
Proof. unfold Tx.slot_bit. pose proof (Z.mod_pos_bound (1 + (n + DEPTH - 1 - i) / DEPTH) 2). lia. Qed.

Lemma update_bit_of i p : wf_ctl (ctl (hdr p)) -> update_bit (entry_of i p) = (update_flag (ctl (hdr p)) =? 1).
Proof. intros Hc. unfold update_bit. cbn [e_data entry_of]. by destruct (bits_ctl p Hc) as (_ & -> & _). Qed.

Lemma send_good n t new s fn args :
  good n t new s -> Z.of_nat (length args) <= argv_size -> new (n mod DEPTH) = None ->
  exists p s', step (Send fn args) s = Ret (Sent (n mod DEPTH) p) s' /\ good (n + 1) t (upd new (n mod DEPTH) (Some p)) s'.
Proof using base_ok.
  intros [Hn Hq Hw Ho Hnew] Hl E. pose proof (Z.mod_pos_bound n DEPTH ltac:(done)) as Hi.
  destruct (send_step n fn args s Hn Hq Hl (Hw _ Hi)) as (p & c' & Es & Hq' & Hp & Hv & Hu & _).
  exists p, {| client := c'; lines := upd (lines s) (slot_addr (n mod DEPTH)) p |}. split; [exact Es|].
  assert (forall i, i <> n mod DEPTH -> slot_addr i <> slot_addr (n mod DEPTH)) as Hne by (intros i Hne ?%slot_addr_inj; done).
  split; cbn [client lines].
  - lia.
  - exact Hq'.
  - intros i Hr. destruct (decide (i = n mod DEPTH)) as [->|Hd]; [by rewrite ram_upd_same|]. rewrite ram_upd_other by auto. by apply Hw.
  - intros i Hr. destruct (decide (i = n mod DEPTH)) as [->|Hd]; [by rewrite ram_upd_same|]. rewrite !ram_upd_other by auto.
    intros En. rewrite Tx.slot_bit_other by done. by apply Ho.
  - intros i p' Hr. destruct (decide (i = n mod DEPTH)) as [->|Hd].
    + rewrite !ram_upd_same. intros [= <-]. split; [done|]. split; [done|]. rewrite Tx.slot_bit_flip by done.
      destruct (Ho _ Hi E) as [Ht _]. rewrite Ht, Hu, <- (Tx.slot_bit_head DEPTH n) by done.
      destruct (slot_bit_cases n (n mod DEPTH)) as [-> | ->]; done.
    + rewrite !ram_upd_other by auto. intros En. rewrite Tx.slot_bit_other by done. by apply Hnew.
Qed.

Lemma good_clean n t new s i : good n t new s -> new i = None -> good n t (upd new i None) s.
Proof.
  intros [Hn Hq Hw Ho Hnew] E. split; try done.
  - intros j Hj Ej. destruct (decide (j = i)) as [->|Hd]; [by apply Ho|]. rewrite ram_upd_other in Ej by done. by apply Ho.
  - intros j p Hj. destruct (decide (j = i)) as [->|Hd]; [by rewrite ram_upd_same|]. rewrite ram_upd_other by done. by apply Hnew.
Qed.

Lemma good_read n t new s i p :
  good n t new s -> 0 <= i < DEPTH -> new i = Some p ->
  good n (upd t (f * DEPTH + i) (negb (t (f * DEPTH + i)))) (upd new i None) s.
Proof.
  intros [Hn Hq Hw Ho Hnew] Hi E. assert (forall j, j <> i -> f * DEPTH + j <> f * DEPTH + i) as Hne by lia. split; try done.
  - intros j Hj. destruct (decide (j = i)) as [->|Hd]; [|rewrite !ram_upd_other by auto; by apply Ho].
    intros _. rewrite ram_upd_same. destruct (Hnew i p Hi E) as (-> & _ & Hu & ->). done.
  - intros j p' Hj. destruct (decide (j = i)) as [->|Hd]; [by rewrite ram_upd_same|]. rewrite !ram_upd_other by auto. by apply Hnew.
Qed.

(** A read of a packet for the first time, and of one that was read before. *)
Lemma fetch_good n t new s i :
  good n t new s -> 0 <= i < DEPTH ->
  exists p, step (Fetch i) s = Ret (Fetched i p) s /\
    detect t (option_list (answer_of (Fetched i p))) = match new i with Some p => [entry_of i p] | None => [] end /\
    good n (seen t (option_list (answer_of (Fetched i p)))) (upd new i None) s.
Proof.
  intros Hg Hi. exists (lines s (slot_addr i)). split; [done|]. cbn [answer_of].
  destruct (new i) as [p|] eqn:E.
  - destruct (g_new _ _ _ _ Hg i p Hi E) as (Hl & Hv & Hu & Ht). rewrite Hl, Hv. cbn [Z.eqb Pos.eqb].
    change (option_list (Some (entry_of i p))) with [entry_of i p]. cbn [detect seen]. unfold see.
    assert (fresh t (entry_of i p) = true) as ->.
    { unfold fresh. rewrite update_bit_of by (rewrite <- Hl; by apply (g_wf _ _ _ _ Hg i Hi)). cbn [e_cl entry_of]. rewrite Ht, Hu.
      by destruct (slot_bit_cases n i) as [-> | ->]. }
    split; [done|]. by apply (good_read n t new s i p).
  - destruct (g_old _ _ _ _ Hg i Hi E) as [Ht Hu]. set (p := lines s (slot_addr i)) in *.
    destruct (Z.eqb_spec (valid (ctl (hdr p))) 1) as [Hv|Hv]; [|split; [done|by apply good_clean]].
    change (option_list (Some (entry_of i p))) with [entry_of i p]. cbn [detect seen]. unfold see.
    assert (fresh t (entry_of i p) = false) as ->.
    { unfold fresh. rewrite update_bit_of by by apply (g_wf _ _ _ _ Hg i Hi). cbn [e_cl entry_of]. rewrite Ht, Hu by done.
      by destruct (slot_bit_cases n i) as [-> | ->]. }
    split; [done|by apply good_clean].
Qed.

(** Every history runs to its end. *)
Lemma exec_returns es n s :
  0 <= n -> Tx.at_call base get_mtu_size_bytes DEPTH n (tx_queue_ (client s)) ->
  (forall i, 0 <= i < DEPTH -> wf_pckt (lines s (slot_addr i))) -> Forall event_ok es ->
  exists os s', exec es s = Ret os s'.
Proof using base_ok.
  intros Hn Hq Hw Hok. revert n s Hn Hq Hw. induction Hok as [|e es He Hes IH]; intros n s Hn Hq Hw; [do 2 eexists; reflexivity|].
  cbn [exec]. unfold bind. pose proof (Z.mod_pos_bound n DEPTH ltac:(done)) as Hi. destruct e as [fn args|i]; cbn in He.
  - destruct (send_step n fn args s Hn Hq He (Hw _ Hi)) as (p & c' & -> & Hq' & Hp & _).
    destruct (IH (n + 1) {| client := c'; lines := upd (lines s) (slot_addr (n mod DEPTH)) p |} ltac:(lia) Hq') as (os & s' & ->); [|do 2 eexists; reflexivity].
    intros i Hr. cbn [lines]. destruct (decide (slot_addr i = slot_addr (n mod DEPTH))) as [->|Hd]; [by rewrite ram_upd_same|].
    rewrite ram_upd_other by done. by apply Hw.
  - destruct (IH n s Hn Hq Hw) as (os & s' & E). unfold step, bind, get, ret. rewrite E. do 2 eexists. reflexivity.
Qed.

(** The reference detects exactly the first reads. *)
Lemma exec_detects es n t new s os s' :
  good n t new s -> Forall event_ok es -> exec es s = Ret os s' -> no_overrun new os ->
  detect t (reads os) = map (fun x => entry_of x.1 x.2) (firsts new os).
Proof using base_ok.
  revert n t new s os. induction es as [|e es IH]; intros n t new s os Hg Hok Hx Hno; [by injection Hx as <- <-|].
  inversion_clear Hok as [|? ? He Hes]. cbn [exec] in Hx. inv_bind Hx. inv_bind Hx. unfold ret in Hx. simplify_eq. destruct e as [fn args|i]; cbn in He.
  - pose proof (Z.mod_pos_bound n DEPTH ltac:(done)) as Hi.
    destruct (send_step n fn args s (g_calls _ _ _ _ Hg) (g_queue _ _ _ _ Hg) He (g_wf _ _ _ _ Hg _ Hi)) as (p & c' & E' & _).
    rewrite E' in E. injection E as <- <-. destruct Hno as [Hf Hno].
    destruct (send_good n t new s fn args Hg He Hf) as (p' & s1 & E1 & Hg'). rewrite E' in E1. injection E1 as <- <-.
    by apply (IH (n + 1) t (upd new (n mod DEPTH) (Some p)) _ r0 Hg').
  - destruct (fetch_good n t new s i Hg He) as (p & E' & Hd & Hg'). rewrite E' in E. injection E as <- <-.
    assert (reads (Fetched i p :: r0) = option_list (answer_of (Fetched i p)) ++ reads r0) as -> by (unfold reads; cbn [omap list_omap]; by destruct (answer_of (Fetched i p))).
    rewrite detect_app, Hd. cbn [firsts]. rewrite map_app. f_equal; [by destruct (new i)|]. by apply (IH n _ _ s).
Qed.

(** The packets sent to a slot: those that were read, and the one that was not. *)
Definition sent_to (i : Z) (os : list obs) : list RpcPckt :=
  omap (fun o => match o with Sent j p => if j =? i then Some p else None | Fetched _ _ => None end) os.
Definition of_slot (i : Z) (l : list (Z * RpcPckt)) : list RpcPckt := omap (fun x => if x.1 =? i then Some x.2 else None) l.

Lemma firsts_slot i new os :
  no_overrun new os ->
  of_slot i (firsts new os) ++ option_list (unread new os i) = option_list (new i) ++ sent_to i os.
Proof.
  revert new. induction os as [|[j p|j p] os IH]; intros new Hno; cbn [firsts unread] in *.
  - by rewrite app_nil_r.
  - destruct Hno as [Hf Hno]. rewrite IH by done. unfold sent_to. cbn. destruct (Z.eqb_spec j i) as [->|Hd].
    + by rewrite ram_upd_same, Hf.
    + by rewrite ram_upd_other by done.
  - unfold of_slot. rewrite omap_app, <- (assoc_L (++)). fold (of_slot i (firsts (upd new j None) os)). rewrite IH by done.
    unfold sent_to at 2. cbn. fold (sent_to i os). destruct (Z.eqb_spec j i) as [->|Hd].
    + rewrite ram_upd_same. destruct (new i); cbn; [by rewrite Z.eqb_refl|done].
    + rewrite ram_upd_other by done. destruct (new j); cbn; [|done]. by destruct (Z.eqb_spec j i).
Qed.

(** ** The whole way *)

(** The ring as the driver and the client leave it: the queue is new, no packet is valid. *)
Definition new_ring (s : cpu) : Prop :=
  Tx.init 4096 true (Tx.TxQueue_ctor base get_mtu_size_bytes cfg.l_tx_queue_size) = Ret tt (tx_queue_ (client s)) /\
  forall i, 0 <= i < DEPTH -> wf_pckt (lines s (slot_addr i)) /\ valid (ctl (hdr (lines s (slot_addr i)))) = 0.

Definition none_read : Z -> option RpcPckt := fun _ => None.

Lemma new_ring_call s : new_ring s -> Tx.at_call base get_mtu_size_bytes DEPTH 0 (tx_queue_ (client s)).
Proof.
  intros [E _]. destruct (Tx.init_at_call base get_mtu_size_bytes cfg.l_tx_queue_size ltac:(done)) as (q0 & E' & Hq).
  rewrite E in E'. by injection E' as ->.
Qed.

Lemma new_ring_good t s : new_ring s -> (forall i, 0 <= i < DEPTH -> t (f * DEPTH + i) = false) -> good 0 t none_read s.
Proof.
  intros Hnew Ht. pose proof (new_ring_call s Hnew) as Hq. destruct Hnew as [_ Hl]. split; try done.
  - intros i Hi. by apply Hl.
  - intros i Hi _. destruct (Hl i Hi) as [_ Hv]. rewrite Ht, Hv by done. split; [|done].
    unfold Tx.slot_bit. change DEPTH with 8 in *. replace ((0 + 8 - 1 - i) / 8) with 0; [done|]. div_lia.
Qed.

Lemma line_of_slot i l : map e_data (on_line (f * DEPTH + i) (map (fun x => entry_of x.1 x.2) l)) = map bits (of_slot i l).
Proof.
  induction l as [|[j p] l IH]; [done|]. unfold on_line, of_slot in *. cbn [map omap list_omap fst snd]. rewrite filter_cons.
  destruct (Z.eqb_spec j i) as [->|Hd].
  - rewrite decide_True by done. cbn [map]. by rewrite IH.
  - rewrite decide_False; [done|]. cbn [entry_of e_cl]. lia.
Qed.

(** C4. Packets arrive exactly once.  A client sends any number of packets on its flow while the
    NIC reads the lines of the ring.  If no packet is overwritten before it was read, the
    answers for a line come in the order of its reads and at least three cycles apart, then
    the NIC forwards, of each slot, the packets that were sent to the slot, each once, in
    order and with its bytes, but for the one that no read has reached yet. *)
Theorem tx_exactly_once (es : list event) (s : cpu) (r : pipe_regs) (ins : list (option mem_rsp)) :
  new_ring s -> Forall event_ok es ->
  runs r -> in_flight r = [] -> (forall i, 0 <= i < DEPTH -> table r (f * DEPTH + i) = false) -> spaced None None ins ->
  exists os s', exec es s = Ret os s' /\
    (no_overrun none_read os ->
     (forall i, 0 <= i < DEPTH -> on_line (f * DEPTH + i) (answered ins) = on_line (f * DEPTH + i) (reads os)) ->
     exists out, forwarded (ins ++ [None; None]) r = map to_rpc out /\
       forall i, 0 <= i < DEPTH ->
         map e_data (on_line (f * DEPTH + i) out) ++ option_list (bits <$> unread none_read os i) = map bits (sent_to i os)).
Proof using base_ok.
  intros Hnew Hok Hr Hf Ht Hsp. pose proof (new_ring_call s Hnew) as Hq. pose proof Hnew as [_ Hl].
  destruct (exec_returns es 0 s ltac:(done) Hq (fun i Hi => proj1 (Hl i Hi)) Hok) as (os & s' & Hx).
  exists os, s'. split; [done|]. intros Hno Hans. exists (detect (table r) (answered ins)).
  split; [by apply forwarded_detect|].
  intros i Hi. rewrite (detect_line _ _ (table r)), Hans, <- (detect_line _ (table r)) by done.
    rewrite (exec_detects es 0 (table r) none_read s os s' (new_ring_good _ _ Hnew Ht) Hok Hx Hno), line_of_slot.
    rewrite <- (app_nil_l (sent_to i os)). change [] with (option_list (none_read i)). rewrite <- (firsts_slot i none_read os Hno), map_app.
    by destruct (unread none_read os i).
Qed.

(** ** Torn packets *)
Lemma take_put_data j data : take j (put_data data) = put_data (take j data).
Proof.
  unfold put_data. destruct (decide (j <= length data)%nat) as [Hj|Hj].
  - rewrite <- (take_drop j data) at 1. rewrite imap_app, take_app_length'; [done|]. rewrite length_imap, length_take. lia.
  - rewrite !take_ge; [done|lia|rewrite length_imap; lia].
Qed.

(** C38. The valid bit does not protect a packet: from the second round on it is set from the
    packet before, and the update flag is written ahead of the arguments.  When the NIC
    reads the line after the flag and [j] bytes of the arguments were written, it forwards
    the new header with the remaining arguments of the old packet, and it never forwards
    the packet that was meant. *)
Theorem torn_packet_forwarded (conn_id rid fn argl : Z) (ty : Direction) (b : Z) (data : list Z) (p : RpcPckt) (i : Z) (j : nat)
    (r : pipe_regs) (m1 m2 : mem_rsp) :
  wf_pckt p -> valid (ctl (hdr p)) = 1 -> in_width 1 b -> update_flag (ctl (hdr p)) = 1 - b -> table r (f * DEPTH + i) = negb (b =? 1) ->
  (j < length data)%nat -> Z.of_nat (length data) <= argv_size -> runs r -> in_flight r = [] ->
  let ws := dagger_write conn_id rid fn argl ty b data in
  let torn := run_stores (take (8 + j) ws) p in
  let meant := run_stores ws p in
  accept true (Some m1) = Some (entry_of i torn) -> accept true (Some m2) = Some (entry_of i meant) ->
  forwarded [Some m1; None; None; Some m2; None; None] r = [to_rpc (entry_of i torn)] /\
  hdr torn = hdr meant /\ argv torn = map u8 (take j data) ++ drop j (argv p) /\ argv meant = map u8 data ++ drop (length data) (argv p).
Proof.
  intros Hp Hv Hb Hu Ht Hj Hl Hr Hf ws torn meant H1 H2. pose proof Hp as (_ & Hav & _).
  assert (length data <= length (argv p))%nat as Hla by lia.
  assert (torn = {| hdr := hdr meant; argv := map u8 (take j data) ++ drop j (argv p) |}) as Et.
  { subst torn meant ws. rewrite dagger_write_run by done. unfold dagger_write.
    change (8 + j)%nat with (length (put_header conn_id rid fn argl ty ++ [put_update_flag b]) + j)%nat. rewrite (assoc_L (++)), take_app_add.
    rewrite take_app_le by (unfold put_data; rewrite length_imap; lia). rewrite take_put_data, !run_stores_app, put_data_run by (rewrite length_take; cbn; lia).
    rewrite length_take_le by lia. cbn [hdr argv]. unfold written. cbn [hdr]. f_equal. cbn. rewrite Hv. by destruct ty. }
  assert (meant = written conn_id rid fn argl ty b data p) as Em by by apply dagger_write_run.
  assert (hdr torn = hdr meant) as Eh by by rewrite Et.
  assert (wf_ctl (ctl (hdr meant)) /\ update_flag (ctl (hdr meant)) = b) as [Hc Hf'].
  { rewrite Em. cbn. rewrite (wrap_small 1 b) by done. split; [|done]. unfold wf_ctl. cbn. split_and!; [by destruct ty|done|done]. }
  split; [|split; [done|split; [by rewrite Et|by rewrite Em]]].
  change [Some m1; None; None; Some m2; None; None] with ([Some m1; None; None; Some m2] ++ [None; None]).
  rewrite forwarded_detect by (done || (cbn [spaced]; rewrite H1, H2; done)).
  assert (answered [Some m1; None; None; Some m2] = [entry_of i torn; entry_of i meant]) as ->
    by (unfold answered; cbn [map]; by rewrite H1, H2).
  cbn [detect]. unfold see.
  assert (fresh (table r) (entry_of i torn) = true) as ->.
  { unfold fresh. rewrite update_bit_of, Eh, Hf' by by rewrite Eh. cbn [e_cl entry_of]. rewrite Ht. by destruct (b =? 1). }
  unfold fresh. rewrite update_bit_of, Hf' by done. cbn [e_cl entry_of]. rewrite ram_upd_same, Ht. by destruct (b =? 1).
Qed.
End ring.

(** ** Examples *)
Definition blank_pckt : RpcPckt :=
  {| hdr := {| ctl := {| req_type := 0; update_flag := 0; valid := 0 |}; rpc_id := 0; n_of_frames := 0; frame_id := 0; fn_id := 0;
               argl := 0; c_id := 0 |}; argv := replicate 52 0 |}.

Definition sample_queue : Tx.TxQueue :=
  match Tx.init 4096 true (Tx.TxQueue_ctor 0x10000 64 3) with Ret _ q => q | _ => Tx.TxQueue_default end.

Definition sample_cpu : cpu :=
  {| client := {| client_id_ := 5; nic_flow_id_ := 2; tx_queue_ := sample_queue; rpc_id_cnt_ := 0; c_id_ := 3; cq := CompletionQueue_default |};
     lines := fun _ => blank_pckt |}.

(** Two packets, the first of which is read twice, and a third one that is not read. *)
Definition sample_events : list event := [Fetch 0; Send 7 [1; 2; 3]; Fetch 0; Send 8 [4; 5]; Fetch 0; Fetch 1; Send 9 []].

Definition sample_obs : list obs := match exec 0x10000 0x10200 sample_events sample_cpu with Ret os _ => os | _ => [] end.

Definition answer (f i : Z) (p : RpcPckt) : mem_rsp :=
  {| mdata := Z.lxor META_PATTERN (f * DEPTH + i / 4 * 4); cl_num := i mod 4; line := bits p |}.

Definition sample_answers : list (option mem_rsp) :=
  concat (map (fun o => match o with Fetched i p => [Some (answer 2 i p); None; None] | Sent _ _ => [] end) sample_obs).

Lemma blank_wf : wf_pckt blank_pckt.
Proof. split_and!; [|done|by apply Forall_replicate]. unfold wf_header, wf_ctl. cbn. split_and!; done. Qed.

Lemma tx_exactly_once_witness :
  exists out, forwarded (sample_answers ++ [None; None]) sample_pipe = map to_rpc out /\
    map e_data (on_line (2 * DEPTH + 0) out) ++ option_list (bits <$> HwTxPath.unread none_read sample_obs 0) = map bits (sent_to 0 sample_obs) /\
    length (forwarded (sample_answers ++ [None; None]) sample_pipe) = 2%nat.
Proof.
  destruct (tx_exactly_once 0x10000 0x10200 ltac:(split_and!; done) 2 sample_events sample_cpu sample_pipe sample_answers) as (os & s' & Hx & H).
  - split; [vm_compute; reflexivity|]. intros i _. split; [apply blank_wf|done].
  - repeat constructor; vm_compute; (discriminate || reflexivity).
  - apply sample_runs.
  - reflexivity.
  - reflexivity.
  - vm_compute. repeat split; try discriminate.
  - assert (os = sample_obs) as -> by (unfold sample_obs; by rewrite Hx). destruct H as (out & Hf & Ho).
    + vm_compute. repeat split.
    + intros i Hi. assert (i = 0 \/ i = 1 \/ i = 2 \/ i = 3 \/ i = 4 \/ i = 5 \/ i = 6 \/ i = 7) as Hc by (change DEPTH with 8 in Hi; lia).
      destruct_or! Hc; subst i; vm_compute; reflexivity.
    + exists out. split; [exact Hf|]. split; [exact (Ho 0 (conj (Z.le_refl 0) eq_refl))|]. vm_compute. reflexivity.
Defined.

Lemma packet_layouts_agree_witness :
  rpc_pckt.rpc_id (bits sample_pckt) = 196609 /\ rpc_pckt.connection_id (bits sample_pckt) = 3 /\ rpc_pckt.valid (bits sample_pckt) = 1.
Proof.
  destruct (packet_layouts_agree sample_pckt) as (_ & _ & Hv & Hi & _ & _ & _ & _ & Hc & _).
  - split_and!; [|done|by apply Forall_replicate]. unfold wf_header, wf_ctl. cbn. split_and!; done.
  - rewrite Hv, Hi, Hc. done.
Defined.

(** The packet of the round before, with the flag 1, and the next one for its slot: the line
    is read when one of two bytes was written. *)
Definition new_call : list store := dagger_write 3 9 1 2 rpc_request 0 [1; 2].
Definition torn_pckt : RpcPckt := run_stores (take 9 new_call) sample_pckt.
Definition meant_pckt : RpcPckt := run_stores new_call sample_pckt.
Definition late_pipe : pipe_regs :=
  {| poll_data := None; poll_data_1d := None; commit := None; ccip_dirty_tb := {| mem := fun _ => true; q := true |};
     db_tb_init_state := DBInitIdle; d_bit_wr_addr_init := 127; d_bit_tb_initialized := true |}.

Lemma torn_packet_forwarded_witness :
  forwarded [Some (answer 2 0 torn_pckt); None; None; Some (answer 2 0 meant_pckt); None; None] late_pipe = [to_rpc (entry_of 2 0 torn_pckt)] /\
  take 2 (argv torn_pckt) = [1; 7] /\ take 2 (argv meant_pckt) = [1; 2].
Proof.
  destruct (torn_packet_forwarded 2 3 9 1 2 rpc_request 0 [1; 2] sample_pckt 0 1 late_pipe (answer 2 0 torn_pckt) (answer 2 0 meant_pckt)) as [H _].
  - split_and!; [|done|by apply Forall_replicate]. unfold wf_header, wf_ctl. cbn. split_and!; done.
  - done.
  - done.
  - done.
  - done.
  - cbn. lia.
  - done.
  - by split.
  - done.
  - vm_compute. reflexivity.
  - vm_compute. reflexivity.
  - split; [exact H|]. split; vm_compute; reflexivity.
Defined.
