(* ===== verification/HwTransmit.v ===== *)
(** * The NIC writes the receive rings

    Theorems on ccip_transmitter.sv and request_queue.sv.  A packet for the CPU waits in a
    slot of the request queue, the number of the slot in the FIFO of its flow, and is then
    written to the next line of the ring of the flow.  As long as no loss is flagged, every
    packet is written once, those of a flow in their order and to consecutive lines of its
    ring.  The batch size is one line, as config.h sets it. *)

From S2P Require Import Prelude HwBase HwDefs HwCcip HwPolling.
Import transmitter.

#[export] Instance TxState_eq_dec : EqDecision TxState.
Proof. solve_decision. Defined.

Section lossless.
Context {F : Z -> Type -> Type} {latency : nat} `{DcfifoLaws F latency} {l : Z} {A : Type}.
Implicit Types ch : channel F l A.

(** What a FIFO holds after a step in which it loses nothing. *)
Lemma lossless_held push pe ch :
  packet_loss_detected (channel_next false true true push pe ch) = false ->
  held (dcfifo_ (channel_next false true true push pe ch)) =
    (if takes true pe ch then tail (held (dcfifo_ ch)) else held (dcfifo_ ch)) ++ option_list push.
Proof.
  intros Hl. rewrite channel_held. f_equal. unfold puts. cbn in Hl |- *. destruct push; [|by destruct (wrfull _)].
  by destruct (wrfull (dcfifo_ ch)).
Qed.

Lemma loss_sticky push pe ch :
  packet_loss_detected (channel_next false true true push pe ch) = false -> packet_loss_detected ch = false.
Proof. cbn. by case_match. Qed.

Lemma takes_false ch : takes true false ch = false.
Proof. done. Qed.

Lemma popped_idle push ch : popped (channel_next false true true push false ch) = None.
Proof. by rewrite channel_popped, takes_false. Qed.

(** A word that can be read is read. *)
Lemma takes_head pe ch :
  takes true pe ch = true -> exists x xs, held (dcfifo_ ch) = x :: xs.
Proof. unfold takes. intros [_ E%negb_true_iff]%andb_prop. by apply not_empty_held. Qed.

Lemma nonempty_next push ch :
  rdempty (dcfifo_ ch) = false -> rdempty (dcfifo_ (channel_next false true true push false ch)) = false.
Proof. intros E. cbn. apply rdempty_clk; [done|]. by rewrite andb_false_r. Qed.
End lossless.

(** ** Occurrences of a slot *)
Definition occ (o : option Z) (x : Z) : nat := match o with Some a => if a =? x then 1 else 0 | None => 0 end.
Definition occs (l : list Z) (x : Z) : nat := count_occ Z.eq_dec l x.

Lemma occs_app l l' x : occs (l ++ l') x = (occs l x + occs l' x)%nat.
Proof. apply count_occ_app. Qed.

Lemma occs_option o x : occs (option_list o) x = occ o x.
Proof. destruct o as [a|]; [|done]. unfold occs. cbn. by destruct (Z.eq_dec a x), (Z.eqb_spec a x). Qed.

Lemma occs_cons a l x : occs (a :: l) x = (occ (Some a) x + occs l x)%nat.
Proof. change (a :: l) with (option_list (Some a) ++ l). by rewrite occs_app, occs_option. Qed.

Lemma occs_in l x : (0 < occs l x)%nat -> x ∈ l.
Proof. intros Hx. apply list_elem_of_In. apply (count_occ_In Z.eq_dec). unfold occs in Hx. lia. Qed.

Lemma in_occs l x : x ∈ l -> (0 < occs l x)%nat.
Proof. intros Hx. apply list_elem_of_In, (count_occ_In Z.eq_dec) in Hx. unfold occs. lia. Qed.

Definition flows_sum (h : Z -> nat) : nat := sum_list_with h (seqZ 0 MAX_TX_FLOWS).

Definition at_flow (g : Z) (v : nat) (f : Z) : nat := if g =? f then v else 0.

Lemma sum_at g v l : NoDup l -> sum_list_with (at_flow g v) l = if bool_decide (g ∈ l) then v else 0%nat.
Proof.
  induction 1 as [|f l Hn _ IH]; cbn [sum_list_with]; [done|]. rewrite IH. unfold at_flow.
  destruct (Z.eqb_spec g f) as [->|Hd].
  - rewrite (bool_decide_eq_false_2 (f ∈ l)) by done. rewrite bool_decide_eq_true_2 by by left. lia.
  - destruct (decide (g ∈ l)) as [Hl|Hl]; rewrite ?(bool_decide_eq_true_2 (g ∈ l)), ?(bool_decide_eq_false_2 (g ∈ l)) by done.
    + by rewrite bool_decide_eq_true_2 by by right.
    + rewrite bool_decide_eq_false_2; [done|]. by rewrite not_elem_of_cons.
Qed.

Lemma flows_move (h h' : Z -> nat) g1 v1 g2 v2 :
  (forall f, 0 <= f < MAX_TX_FLOWS -> (h' f + at_flow g1 v1 f <= h f + at_flow g2 v2 f)%nat) -> 0 <= g1 < MAX_TX_FLOWS ->
  (flows_sum h' + v1 <= flows_sum h + v2)%nat.
Proof.
  intros Hf Hg. unfold flows_sum. set (fs := seqZ 0 MAX_TX_FLOWS).
  assert (sum_list_with h' fs + sum_list_with (at_flow g1 v1) fs <= sum_list_with h fs + sum_list_with (at_flow g2 v2) fs)%nat as Hs.
  { assert (Forall (fun f => 0 <= f < MAX_TX_FLOWS) fs) as Hr by (apply Forall_forall; intros f Hi; apply elem_of_seqZ in Hi; lia).
    induction Hr as [|f l Hi _ IH]; [done|]. cbn [sum_list_with]. specialize (Hf f Hi). lia. }
  rewrite !sum_at in Hs by apply NoDup_seqZ. rewrite (bool_decide_eq_true_2 (g1 ∈ fs)) in Hs by (apply elem_of_seqZ; lia).
  destruct (bool_decide (g2 ∈ fs)); lia.
Qed.

Lemma sum_elem (h : Z -> nat) f : 0 <= f < MAX_TX_FLOWS -> (h f <= flows_sum h)%nat.
Proof.
  intros Hf. unfold flows_sum. assert (f ∈ seqZ 0 MAX_TX_FLOWS) as Hi by (apply elem_of_seqZ; lia).
  induction (seqZ 0 MAX_TX_FLOWS) as [|g l IH]; [by apply not_elem_of_nil in Hi|]. cbn [sum_list_with]. apply elem_of_cons in Hi as [<-|Hi]; [lia|].
  specialize (IH Hi). lia.
Qed.

(** ** The transmitter *)
Module transmit.
Section transmit.
Context {F : Z -> Type -> Type} {latency : nat} `{DcfifoLaws F latency}.
Variable c : csrs.
Abbreviation state := (@transmitter.regs F).
Implicit Types r : state.

(** Lines of a ring. *)
Abbreviation T := (iRegTxQueueSize c).

Record config_ok : Prop := {
  ok_flows : 0 <= iRegNumOfFlows c < MAX_TX_FLOWS;
  ok_size : 1 <= T < 2 ^ (LMAX_TX_QUEUE_SIZE + 1);
  ok_batch : lRegTxBatchSize c = 0;
  ok_lb : iLB c = false;
  ok_init : iRegNicInit c = false
}.

(** The circuit; an input is the bus with its valid bit. *)
Definition bus (i : bool * RpcIf) : ccip_in :=
  {| ci_reset := false; ci_csr := c; c0TxAlmFull := false; c1TxAlmFull := false; c0_rsp := None; ci_rpc_valid := i.1; ci_rpc := i.2 |}.
Definition sender : circuit state (bool * RpcIf) (option wr_req) := {| next i := tx_next (bus i); out := sTx_c1 |}.

(** ** Where packets are *)
Definition rq r := request_queue_ r.
Definition ram_of r : Z -> RpcIf := mem (request_queue.queue_ram _ (rq r)).
Definition data r (a : Z) : Z := rpc_data (ram_of r a).
Definition free r := request_queue.free_entry_fifo _ (rq r).
Definition slots r (f : Z) : list Z := held (dcfifo_ (flow_fifo r f)).

(** The packets on the way to a FIFO, from the input on. *)
Definition stage_a r : option (Z * Z) := if rq_push_en r then Some (rpc_flow_id_in_d r, rpc_data (rq_push_data r)) else None.
Definition stage_b r : option (Z * Z) :=
  match popped (free r) with Some _ => Some (rpc_flow_id_in_1d r, rpc_data (request_queue.push_data_in_d _ (rq r))) | None => None end.
Definition stage_c r : option (Z * Z) :=
  match request_queue.stored _ (rq r) with Some (_, d) => Some (rpc_flow_id_in_2d r, rpc_data d) | None => None end.
Definition stage_d r : option (Z * Z) := match ff_push r with Some (g, a) => Some (g, data r a) | None => None end.

Definition for_flow (f : Z) (o : option (Z * Z)) : list Z := match o with Some (g, d) => if g =? f then [d] else [] | None => [] end.

(** The packets of flow [f] in the NIC, the oldest first; [snd] is the one that has left its
    FIFO. *)
Definition pending (snd : option (Z * Z)) r (f : Z) : list Z :=
  for_flow f snd ++ map (data r) (slots r f) ++ for_flow f (stage_d r) ++ for_flow f (stage_c r) ++ for_flow f (stage_b r) ++ for_flow f (stage_a r).

(** Each slot is at one place at most. *)
Definition places r (x : Z) : nat :=
  occs (held (dcfifo_ (free r))) x + occ (popped (free r)) x + occ (fst <$> request_queue.stored _ (rq r)) x +
  occ (snd <$> ff_push r) x + flows_sum (fun f => occs (slots r f) x) + occ (popped (flow_fifo r (tx_flow_cnt_d r))) x +
  occ (rq_pop r) x + occ (request_queue.freed _ (rq r)) x.

(** Something was lost. *)
Definition lost r : bool :=
  packet_loss_detected (free r) || request_queue.no_free_slot_error _ (rq r) ||
  existsb (fun f => packet_loss_detected (flow_fifo r f)) (seqZ 0 MAX_TX_FLOWS).

(** What the bus gives to the NIC. *)
Definition accepted (i : bool * RpcIf) : option (Z * Z) :=
  if iRegNicStart c && i.1 then Some (flow_id i.2, rpc_data i.2) else None.

Lemma lost_next i r :
  lost (next sender i r) = false ->
  packet_loss_detected (free (next sender i r)) = false /\ (rq_push_en r = true -> rdempty (dcfifo_ (free r)) = false) /\
  forall f, 0 <= f < MAX_TX_FLOWS -> packet_loss_detected (flow_fifo (next sender i r) f) = false.
Proof.
  intros [[Hf Hn]%orb_false_elim He]%orb_false_elim. split; [exact Hf|]. split.
  - intros E. cbn in Hn. apply orb_false_elim in Hn as [Hn _]. by rewrite E in Hn.
  - intros f Hr. destruct (packet_loss_detected (flow_fifo (next sender i r) f)) eqn:E; [|done].
    assert (existsb (fun f => packet_loss_detected (flow_fifo (next sender i r) f)) (seqZ 0 MAX_TX_FLOWS) = true) as Hx; [|congruence].
    apply existsb_exists. exists f. split; [|done]. apply list_elem_of_In, elem_of_seqZ. lia.
Qed.

Definition idle_queue r : Prop := request_queue.q_init_state _ (rq r) = request_queue.QueueInitIdle.

(** ** The memory of the request queue *)
Lemma ram_next_of i r :
  idle_queue r ->
  ram_of (next sender i r) = match request_queue.stored _ (rq r) with Some (a, d) => upd (ram_of r) a d | None => ram_of r end.
Proof.
  intros E. unfold ram_of. cbn. unfold request_queue.queue_next. unfold idle_queue, rq in E. rewrite E.
  by destruct (request_queue.stored _ _) as [[a d]|].
Qed.

Lemma data_keeps i r a :
  idle_queue r -> occ (fst <$> request_queue.stored _ (rq r)) a = 0%nat -> data (next sender i r) a = data r a.
Proof.
  intros E Ha. unfold data. rewrite ram_next_of by done. destruct (request_queue.stored _ _) as [[b d]|]; [|done].
  cbn in Ha. rewrite ram_upd_other; [done|]. intros ->. by rewrite Z.eqb_refl in Ha.
Qed.

Lemma data_stored i r a d :
  idle_queue r -> request_queue.stored _ (rq r) = Some (a, d) -> data (next sender i r) a = rpc_data d.
Proof. intros E Hs. unfold data. rewrite ram_next_of, Hs by done. by rewrite ram_upd_same. Qed.

(** ** The way into the FIFOs *)
Lemma free_step i r :
  idle_queue r -> lost (next sender i r) = false ->
  (forall x, (occs (held (dcfifo_ (free (next sender i r)))) x + occ (popped (free (next sender i r))) x =
     occs (held (dcfifo_ (free r))) x + occ (request_queue.freed _ (rq r)) x)%nat) /\
  (bool_decide (is_Some (popped (free (next sender i r)))) = rq_push_en r).
Proof.
  intros E Hl. destruct (lost_next i r Hl) as (Hf & He & _).
  assert (free (next sender i r) = channel_next false true true (request_queue.freed _ (rq r)) (rq_push_en r) (free r)) as Ef.
  { unfold free, rq. cbn. unfold request_queue.free_push. unfold idle_queue, rq in E. by rewrite E. }
  rewrite Ef in Hf |- *. rewrite lossless_held, channel_popped by done. destruct (rq_push_en r) eqn:Ep.
  - specialize (He eq_refl). assert (takes true true (free r) = true) as Ht by (unfold takes; by rewrite He).
    rewrite Ht. destruct (takes_head _ _ Ht) as (a & l & ->). cbn [tail head]. split; [|done].
    intros x. rewrite occs_app, occs_option, occs_cons. lia.
  - rewrite takes_false. split; [|done]. intros x. rewrite occs_app, occs_option. cbn. lia.
Qed.

Lemma stage_b_next i r :
  idle_queue r -> lost (next sender i r) = false -> stage_b (next sender i r) = stage_a r.
Proof.
  intros E Hl. destruct (free_step i r E Hl) as [_ Hb]. unfold stage_b, stage_a. destruct (popped (free (next sender i r))); cbn in Hb; by rewrite <- Hb.
Qed.

Lemma stage_c_next i r : stage_c (next sender i r) = stage_b r.
Proof. unfold stage_c, stage_b. cbn. unfold free, rq. by destruct (popped _). Qed.

Lemma stage_d_next i r : config_ok -> idle_queue r -> stage_d (next sender i r) = stage_c r.
Proof.
  intros Hok E. unfold stage_d, stage_c. change (ff_push (next sender i r)) with (ff_push_next (bus i) r). unfold ff_push_next. cbn [ci_reset bus]. fold (rq r).
  destruct (request_queue.stored _ (rq r)) as [[a d]|] eqn:Es; [|done]. unfold balanced. cbn [ci_csr bus]. rewrite (ok_lb Hok). cbn [andb].
  by rewrite (data_stored i r a d).
Qed.

(** The FIFO of flow [f], and what follows behind it. *)
Definition left_in r (f : Z) : list Z := if takes true (fifo_pop r f) (flow_fifo r f) then tail (slots r f) else slots r f.

Lemma slots_next i r f :
  lost (next sender i r) = false -> 0 <= f < MAX_TX_FLOWS -> slots (next sender i r) f = left_in r f ++ option_list (fifo_push r f).
Proof. intros Hl Hf. destruct (lost_next i r Hl) as (_ & _ & Hn). unfold slots. by apply lossless_held, Hn. Qed.

Lemma left_in_sub r f a : a ∈ left_in r f -> a ∈ slots r f.
Proof. unfold left_in. destruct (takes _ _ _); [|done]. destruct (slots r f); [done|]. cbn. by right. Qed.

(** Slots that hold a packet are not the one that is written. *)
Lemma places_stored r a : (places r a <= 1)%nat ->
  (0 < occ (snd <$> ff_push r) a + flows_sum (fun f => occs (slots r f) a) + occ (popped (flow_fifo r (tx_flow_cnt_d r))) a + occ (rq_pop r) a)%nat ->
  occ (fst <$> request_queue.stored _ (rq r)) a = 0%nat.
Proof. unfold places. lia. Qed.

Lemma fifo_step i r f :
  config_ok -> idle_queue r -> (forall x, (places r x <= 1)%nat) -> lost (next sender i r) = false -> 0 <= f < MAX_TX_FLOWS ->
  map (data (next sender i r)) (slots (next sender i r) f) = map (data r) (left_in r f) ++ for_flow f (stage_d r).
Proof.
  intros Hok E Hp Hl Hf. rewrite slots_next, map_app by done. f_equal.
  - apply map_ext_in. intros a Ha%list_elem_of_In. apply data_keeps; [done|]. apply places_stored; [done|].
    apply left_in_sub, in_occs in Ha. pose proof (sum_elem (fun f => occs (slots r f) a) f Hf). cbn in *. lia.
  - unfold fifo_push, stage_d, for_flow. destruct (ff_push r) as [[g a]|] eqn:Eg; [|done]. destruct (g =? f); [|done]. cbn. f_equal.
    apply data_keeps; [done|]. apply places_stored; [done|]. rewrite Eg. cbn. rewrite Z.eqb_refl. lia.
Qed.

Lemma behind_step i r f :
  config_ok -> idle_queue r -> (forall x, (places r x <= 1)%nat) -> lost (next sender i r) = false -> 0 <= f < MAX_TX_FLOWS ->
  pending None (next sender i r) f =
    map (data r) (left_in r f) ++ for_flow f (stage_d r) ++ for_flow f (stage_c r) ++ for_flow f (stage_b r) ++ for_flow f (stage_a r) ++
    for_flow f (accepted i).
Proof.
  intros Hok E Hp Hl Hf. unfold pending. cbn [for_flow app]. rewrite fifo_step, stage_d_next, stage_c_next, stage_b_next by done.
  rewrite <- (assoc_L (++)). done.
Qed.

(** ** The way out *)
Definition fsm r : Prop :=
  match tx_state r with
  | TxIdle => ff_pop r = None /\ table_w r = None /\ forall f, popped (flow_fifo r f) = None
  | TxTransmit =>
      ff_pop r = Some (tx_flow_cnt r) /\ table_w r = None /\ (forall f, popped (flow_fifo r f) = None) /\
      q (tx_queue_address_tb r) = mem (tx_queue_address_tb r) (tx_flow_cnt r) /\
      rdempty (dcfifo_ (flow_fifo r (tx_flow_cnt r))) = false
  | TxGap => ff_pop r = None /\ exists t, table_w r = Some (tx_flow_cnt r, t)
  end.

(** The line of the ring of [g] that takes its next packet, [cnt g] being written. *)
Definition line (cnt : Z -> Z) (g : Z) : Z := g * T + cnt g mod T.

(** The packet that has left its FIFO: its slot is read from the FIFO, goes to the request
    queue, and the packet comes out of it. *)
Inductive sending (cnt : Z -> Z) r : option (Z * Z) -> Prop :=
  | no_packet : tx_state r <> TxGap -> rq_pop r = None -> rq_read_d r = false -> sending cnt r None
  | slot_popped g a :
      tx_state r = TxGap -> tx_flow_cnt r = g -> tx_flow_cnt_d r = g -> popped (flow_fifo r g) = Some a -> tx_queue_address r = line cnt g ->
      rq_pop r = None -> rq_read_d r = false -> 0 <= g <= iRegNumOfFlows c -> sending cnt r (Some (g, data r a))
  | slot_read g a :
      tx_state r = TxIdle -> rq_pop r = Some a -> tx_queue_address_d r = line cnt g -> rq_read_d r = false ->
      0 <= g <= iRegNumOfFlows c -> sending cnt r (Some (g, data r a))
  | packet_read g d :
      tx_state r <> TxGap -> rq_pop r = None -> rq_read_d r = true -> rpc_data (request_queue.pop_data_out _ (rq r)) = d ->
      tx_queue_address_d1 r = line cnt g -> 0 <= g <= iRegNumOfFlows c -> sending cnt r (Some (g, d)).

(** The address table, with the write that is under way. *)
Definition entry_of r (f : Z) : TxQueueAddressTuple :=
  match table_w r with
  | Some (g, t) => if g =? f then t else mem (tx_queue_address_tb r) f
  | None => mem (tx_queue_address_tb r) f
  end.

Definition ring_entry (k f : Z) : TxQueueAddressTuple :=
  {| region_begin := f * T; current := f * T + k mod T; region_end := f * T + T - 1 |}.

Definition taken (cnt : Z -> Z) (snd : option (Z * Z)) (f : Z) : Z := cnt f + Z.of_nat (length (for_flow f snd)).

Record inv (cnt : Z -> Z) (snd : option (Z * Z)) r : Prop := {
  in_cnt : forall f, 0 <= cnt f;
  in_queue : idle_queue r;
  in_tbl_init : table_init_state r = TxTblInitialized;
  in_batch : tx_batch_cnt r = 0;
  in_out_batch : tx_out_batch_cnt r = 0;
  in_flow : 0 <= tx_flow_cnt r <= iRegNumOfFlows c;
  in_fsm : fsm r;
  in_sending : sending cnt r snd;
  in_table : forall f, 0 <= f <= iRegNumOfFlows c -> entry_of r f = ring_entry (taken cnt snd f) f;
  in_places : forall x, (places r x <= 1)%nat
}.

(** The packet that is written in this cycle, and the one that is on the way after it. *)
Definition written_now r (snd : option (Z * Z)) : option (Z * Z) := if rq_read_d r then snd else None.

Definition snd_next r (snd : option (Z * Z)) : option (Z * Z) :=
  match tx_state r with
  | TxTransmit => (fun a => (tx_flow_cnt r, data r a)) <$> head (slots r (tx_flow_cnt r))
  | _ => if rq_read_d r then None else snd
  end.

Definition bump (cnt : Z -> Z) (o : option (Z * Z)) : Z -> Z :=
  match o with Some _ => fun f => cnt f + Z.of_nat (length (for_flow f o)) | None => cnt end.

Lemma bump_at cnt o f : bump cnt o f = cnt f + Z.of_nat (length (for_flow f o)).
Proof. destruct o; [done|]. cbn. lia. Qed.

Lemma batch_one r : config_ok -> tx_batch_size c r = 1.
Proof. intros Hok. unfold tx_batch_size. by rewrite (ok_batch Hok). Qed.

Lemma last_one r : config_ok -> tx_batch_cnt r = 0 -> last_of_batch c r = true.
Proof. intros Hok E. unfold last_of_batch. by rewrite E, batch_one. Qed.

Lemma found_nonempty r :
  config_ok -> found c r = true -> rdempty (dcfifo_ (flow_fifo r (tx_flow_cnt r))) = false.
Proof.
  intros Hok. unfold found. rewrite batch_one by done. intros Hf%Z.leb_le. apply rdusedw_empty.
  pose proof (rdusedw_held (dcfifo_ (flow_fifo r (tx_flow_cnt r)))) as [[Hd|Hd]%Zle_lt_or_eq _]; [done|].
  unfold pop_dw in Hf. by rewrite <- Hd in Hf.
Qed.

Lemma fsm_next i r :
  config_ok -> 0 <= tx_flow_cnt r <= iRegNumOfFlows c -> table_init_state r = TxTblInitialized -> tx_batch_cnt r = 0 -> fsm r ->
  fsm (next sender i r).
Proof.
  intros Hok Hr Hi Hb. unfold fsm. cbn -[channel_next table_next]. unfold tx_state_next, ff_pop_next, first_of_batch, tx_flow_next.
  cbn [ci_reset bus ci_csr]. destruct (tx_state r) eqn:Es.
  - intros (Hp & Hw & Ho). unfold fifo_pop, table_next. rewrite Hp, Hi, Hw. destruct (found c r) eqn:Ef.
    + split_and!; [done|done|intros f; apply popped_idle|done|]. apply nonempty_next. by apply found_nonempty.
    + split_and!; [done|done|]. intros f. apply popped_idle.
  - intros (Hp & Hw & Ho & Hq & He). rewrite last_one, Hb by done. cbn. split; [done|]. by eexists.
  - intros (Hp & t & Hw). unfold fifo_pop. rewrite Hp. split_and!; [done|done|]. intros f. apply popped_idle.
Qed.

Lemma flow_next i r :
  config_ok -> 0 <= tx_flow_cnt r <= iRegNumOfFlows c -> 0 <= tx_flow_cnt (next sender i r) <= iRegNumOfFlows c.
Proof.
  intros Hok Hr. pose proof (ok_flows Hok). cbn. unfold tx_flow_next. cbn [ci_reset bus ci_csr].
  destruct (tx_state r); [|done|done]. destruct (found c r); [done|]. destruct (Z.eqb_spec (tx_flow_cnt r) (iRegNumOfFlows c)); [lia|].
  unfold MAX_TX_FLOWS in *. unfold wrap. rewrite Z.mod_small; lia.
Qed.

(** In [TxTransmit] the FIFO of the current flow gives its oldest slot, in the other states
    none does. *)
Lemma left_in_other r f : fsm r -> tx_state r <> TxTransmit -> left_in r f = slots r f.
Proof.
  unfold fsm, left_in, fifo_pop. intros Hf Hs. destruct (tx_state r); [|done|].
  - destruct Hf as (-> & _). by rewrite takes_false.
  - destruct Hf as (-> & _). by rewrite takes_false.
Qed.

Lemma transmit_pop r :
  fsm r -> tx_state r = TxTransmit -> exists a l, slots r (tx_flow_cnt r) = a :: l /\
  forall f, left_in r f = if tx_flow_cnt r =? f then l else slots r f.
Proof.
  unfold fsm. intros Hf Hs. rewrite Hs in Hf. destruct Hf as (Hp & _ & _ & _ & He).
  destruct (not_empty_held _ He) as (a & l & Hh). exists a, l. split; [exact Hh|].
  intros f. unfold left_in, fifo_pop. rewrite Hp. destruct (Z.eqb_spec (tx_flow_cnt r) f) as [<-|]; [|by rewrite takes_false].
  unfold takes. rewrite He. unfold slots. by rewrite Hh.
Qed.

Lemma popped_transmit i r a l :
  fsm r -> tx_state r = TxTransmit -> slots r (tx_flow_cnt r) = a :: l -> popped (flow_fifo (next sender i r) (tx_flow_cnt r)) = Some a.
Proof.
  unfold fsm. intros Hf Hs Hl. rewrite Hs in Hf. destruct Hf as (Hp & _ & _ & _ & He).
  cbn [flow_fifo next sender tx_next]. cbn [ci_reset bus]. rewrite channel_popped. unfold takes, fifo_pop. rewrite Hp, Z.eqb_refl, He.
  unfold slots in Hl. by rewrite Hl.
Qed.

Lemma popped_other i r f : fsm r -> tx_state r <> TxTransmit -> popped (flow_fifo (next sender i r) f) = None.
Proof.
  unfold fsm. intros Hf Hs. cbn [flow_fifo next sender tx_next]. cbn [ci_reset bus]. unfold fifo_pop.
  destruct (tx_state r); [|done|]; destruct Hf as (-> & _); apply popped_idle.
Qed.

Lemma out_step cnt r snd f :
  fsm r -> sending cnt r snd ->
  for_flow f (written_now r snd) ++ for_flow f (snd_next r snd) ++ map (data r) (left_in r f) = for_flow f snd ++ map (data r) (slots r f).
Proof.
  intros Hf Hs. unfold written_now, snd_next. destruct (decide (tx_state r = TxTransmit)) as [E|E].
  - destruct (transmit_pop r Hf E) as (a & l & Hl & Hleft). rewrite E, Hl, Hleft. cbn [head fmap option_fmap option_map].
    assert (for_flow f (Some (tx_flow_cnt r, data r a)) ++ map (data r) (if tx_flow_cnt r =? f then l else slots r f) = map (data r) (slots r f)) as ->.
    { cbn. destruct (Z.eqb_spec (tx_flow_cnt r) f) as [<-|]; [|done]. by rewrite Hl. }
    f_equal. destruct Hs as [_ _ Hd|g b ? _ _ _ _ _ _ _|g b ? _ _ _ _|g d _ _ Hd _ _ _]; try congruence; by rewrite Hd.
  - rewrite left_in_other by done.
    assert (for_flow f (if rq_read_d r then snd else None) ++ for_flow f (if rq_read_d r then None else snd) = for_flow f snd) as Hw.
    { destruct (rq_read_d r); [by rewrite app_nil_r|done]. }
    destruct (tx_state r); [|done|]; by rewrite (assoc_L (++)), Hw.
Qed.

(** A slot moves on; none is doubled. *)
Lemma flows_places i r x :
  fsm r -> 0 <= tx_flow_cnt r < MAX_TX_FLOWS -> lost (next sender i r) = false ->
  (flows_sum (fun f => occs (slots (next sender i r) f) x) + occ (popped (flow_fifo (next sender i r) (tx_flow_cnt r))) x <=
   flows_sum (fun f => occs (slots r f) x) + occ (snd <$> ff_push r) x)%nat.
Proof.
  intros Hf Hr Hl. set (g2 := match ff_push r with Some (g, _) => g | None => 0 end).
  apply (flows_move _ _ (tx_flow_cnt r) _ g2 _); [|done]. intros f Hi. rewrite slots_next, occs_app, occs_option by done.
  assert (occ (fifo_push r f) x <= at_flow g2 (occ (snd <$> ff_push r) x) f)%nat as Hp.
  { unfold fifo_push, at_flow, g2. destruct (ff_push r) as [[g a]|]; [|cbn; lia]. cbn [fmap option_fmap option_map snd]. destruct (g =? f); cbn; lia. }
  destruct (decide (tx_state r = TxTransmit)) as [E|E].
  - destruct (transmit_pop r Hf E) as (a & l & Hs & ->). rewrite (popped_transmit i r a l) by done. unfold at_flow at 1.
    destruct (Z.eqb_spec (tx_flow_cnt r) f) as [<-|]; [|lia]. rewrite Hs, occs_cons. lia.
  - rewrite left_in_other, popped_other by done. unfold at_flow at 1. cbn [occ]. destruct (_ =? f); lia.
Qed.

Lemma places_next i r x :
  idle_queue r -> fsm r -> 0 <= tx_flow_cnt r < MAX_TX_FLOWS -> lost (next sender i r) = false ->
  (places (next sender i r) x <= places r x)%nat.
Proof.
  intros E Hf Hr Hl. pose proof (flows_places i r x Hf Hr Hl) as Hm. destruct (free_step i r E Hl) as [Hfree _]. specialize (Hfree x). unfold places.
  change (tx_flow_cnt_d (next sender i r)) with (tx_flow_cnt r).
  change (rq_pop (next sender i r)) with (popped (flow_fifo r (tx_flow_cnt_d r))).
  change (request_queue.freed _ (rq (next sender i r))) with (rq_pop r).
  assert (fst <$> request_queue.stored _ (rq (next sender i r)) = popped (free r)) as ->.
  { change (request_queue.stored _ (rq (next sender i r))) with
      (match popped (free r) with Some a => Some (a, request_queue.push_data_in_d _ (rq r)) | None => None end).
    by destruct (popped (free r)). }
  assert (snd <$> ff_push (next sender i r) = fst <$> request_queue.stored _ (rq r)) as ->.
  { change (ff_push (next sender i r)) with (ff_push_next (bus i) r). unfold ff_push_next. cbn [ci_reset bus]. fold (rq r).
    by destruct (request_queue.stored _ (rq r)) as [[a d]|]. }
  lia.
Qed.

(** ** The places in the rings *)
Lemma advance_ring k f :
  config_ok -> 0 <= k -> 0 <= f <= iRegNumOfFlows c -> advance 1 (ring_entry k f) = ring_entry (k + 1) f.
Proof.
  intros Hok Hk Hf. pose proof (ok_flows Hok). pose proof (ok_size Hok). unfold advance, ring_entry. cbn [region_begin current region_end]. f_equal.
  assert (0 <= k mod T < T) by (apply Z.mod_pos_bound; lia).
  destruct (Z.eqb_spec (f * T + k mod T) (f * T + T - 1)) as [E|E].
  - rewrite <- Z.add_mod_idemp_l by lia. replace (k mod T + 1) with T by lia. rewrite Z_mod_same_full. lia.
  - rewrite <- (Z.add_mod_idemp_l k) by lia. rewrite (Z.mod_small (k mod T + 1)) by lia.
    unfold wrap. rewrite Z.mod_small; [lia|]. unfold MAX_TX_FLOWS, TX_ADDRESS_W, LMAX_NUM_OF_FLOWS, LMAX_TX_QUEUE_SIZE in *. nia.
Qed.

Lemma entry_next i r f :
  table_init_state r = TxTblInitialized ->
  mem (tx_queue_address_tb (next sender i r)) f = entry_of r f.
Proof.
  intros Hi. cbn [tx_queue_address_tb next sender tx_next]. cbn [ci_csr bus]. unfold table_next, entry_of. rewrite Hi.
  destruct (table_w r) as [[g t]|]; [|done]. cbn. unfold upd. by rewrite Z.eqb_sym.
Qed.

Lemma taken_next cnt r snd f :
  sending cnt r snd -> taken (bump cnt (written_now r snd)) (snd_next r snd) f =
    match tx_state r with TxTransmit => taken cnt snd f + Z.of_nat (length (for_flow f (snd_next r snd))) | _ => taken cnt snd f end.
Proof.
  intros Hs. unfold taken. rewrite bump_at. unfold written_now, snd_next. destruct (tx_state r) eqn:E.
  - destruct (rq_read_d r); cbn; lia.
  - destruct Hs as [_ _ Hd|g b ? _ _ _ _ _ _ _|g b ? _ _ _ _|g d _ _ Hd _ _ _]; try congruence; by rewrite Hd.
  - destruct (rq_read_d r); cbn; lia.
Qed.

Lemma ring_table_step i cnt snd r f :
  config_ok -> inv cnt snd r -> 0 <= f <= iRegNumOfFlows c ->
  entry_of (next sender i r) f = ring_entry (taken (bump cnt (written_now r snd)) (snd_next r snd) f) f.
Proof.
  intros Hok I Hf. rewrite (taken_next cnt) by apply I. unfold entry_of at 1. rewrite entry_next by apply I.
  change (table_w (next sender i r)) with
    (if first_of_batch r then Some (tx_flow_cnt r, advance (tx_batch_size c r) (q (tx_queue_address_tb r))) else None).
  unfold first_of_batch. destruct (tx_state r) eqn:E; [by apply I| |by apply I]. rewrite (in_batch _ _ _ I), batch_one by done. cbn [Z.eqb].
  pose proof (in_fsm _ _ _ I) as Hm. destruct (transmit_pop r Hm E) as (a & l & Hl & _). unfold fsm in Hm. rewrite E in Hm.
  destruct Hm as (_ & Hw & _ & Hq & _). unfold snd_next. rewrite E, Hl. cbn [head fmap option_fmap option_map for_flow].
  assert (0 <= taken cnt snd f) by (pose proof (in_cnt _ _ _ I f); unfold taken; lia).
  destruct (Z.eqb_spec (tx_flow_cnt r) f) as [<-|].
  - cbn. rewrite <- advance_ring by done. rewrite <- (in_table _ _ _ I) by done. unfold entry_of. by rewrite Hw, Hq.
  - cbn. rewrite Z.add_0_r. by apply I.
Qed.

(** ** The packet on its way *)
Lemma transmit_sends i cnt snd r :
  config_ok -> inv cnt snd r -> tx_state r = TxTransmit ->
  sending (bump cnt (written_now r snd)) (next sender i r) (snd_next r snd).
Proof.
  intros Hok I E. pose proof (in_fsm _ _ _ I) as Hm. destruct (transmit_pop r Hm E) as (a & l & Hl & _).
  pose proof (popped_transmit i r a l Hm E Hl) as Ha. unfold snd_next. rewrite E, Hl. cbn [head fmap option_fmap option_map].
  assert (data r a = data (next sender i r) a) as ->.
  { symmetry. apply data_keeps; [apply I|]. apply places_stored; [apply I|]. pose proof (ok_flows Hok). pose proof (in_flow _ _ _ I).
    assert (0 < occs (slots r (tx_flow_cnt r)) a)%nat by (apply in_occs; rewrite Hl; by left).
    pose proof (sum_elem (fun f => occs (slots r f) a) (tx_flow_cnt r) ltac:(lia)). cbn in *. lia. }
  assert (rq_pop r = None) as Hp by (destruct (in_sending _ _ _ I); congruence).
  assert (bump cnt (written_now r snd) (tx_flow_cnt r) = taken cnt snd (tx_flow_cnt r)) as Hc.
  { rewrite bump_at. unfold written_now, taken. destruct (in_sending _ _ _ I) as [_ _ Hd|g b ? _ _ _ _ _ _ _|g b ? _ _ _ _|g d _ _ Hd _ _ _];
      try congruence; by rewrite Hd. }
  unfold fsm in Hm. rewrite E in Hm. destruct Hm as (_ & Hw & Ho & Hq & _).
  apply slot_popped; [| |done|done| | | |by apply I].
  - cbn. unfold tx_state_next. cbn [ci_reset bus ci_csr]. rewrite E, last_one; [done|done|apply I].
  - cbn. unfold tx_flow_next. cbn [ci_reset bus]. by rewrite E.
  - cbn -[table_next]. unfold first_of_batch, line. rewrite E, (in_batch _ _ _ I), Hq, Hc. cbn [Z.eqb].
    pose proof (in_table _ _ _ I (tx_flow_cnt r) (in_flow _ _ _ I)) as He. unfold entry_of in He. rewrite Hw in He. by rewrite He.
  - apply Ho.
  - cbn. by rewrite Hp.
Qed.

Lemma idle_sends i cnt snd r :
  config_ok -> inv cnt snd r -> tx_state r <> TxTransmit -> sending (bump cnt (written_now r snd)) (next sender i r) (snd_next r snd).
Proof.
  intros Hok I E. pose proof (in_fsm _ _ _ I) as Hm. pose proof (in_places _ _ _ I) as Hx.
  assert (tx_state r <> TxGap -> tx_state (next sender i r) <> TxGap /\ rq_pop (next sender i r) = None) as Hn.
  { intros Hg. unfold fsm in Hm. cbn. unfold tx_state_next. cbn [ci_reset bus]. destruct (tx_state r); [|done|done].
    destruct Hm as (_ & _ & Ho). split; [by destruct (found _ r)|apply Ho]. }
  assert (snd_next r snd = if rq_read_d r then None else snd) as -> by (unfold snd_next; by destruct (tx_state r)).
  unfold written_now. destruct (in_sending _ _ _ I) as [Hs Hp Hd|g a Hs Hc Hcd Ha Hq Hp Hd Hg|g a Hs Hp Hq Hd Hg|g d Hs Hp Hd Ho Hq Hg]; rewrite Hd.
  - destruct (Hn Hs). apply no_packet; [done|done|]. cbn. by rewrite Hp.
  - rewrite <- (data_keeps i r a); [|apply I|apply places_stored; [apply Hx|]; rewrite Hcd, Ha; cbn; rewrite Z.eqb_refl; lia].
    apply slot_read; [|cbn; by rewrite Hcd, Ha|done|cbn; by rewrite Hp|done].
    cbn. unfold tx_state_next. cbn [ci_reset bus]. by rewrite Hs.
  - destruct (Hn ltac:(congruence)). apply packet_read; [done|done|cbn; by rewrite Hp| |done|done].
    change (request_queue.pop_data_out _ (rq (next sender i r))) with (q (request_queue.queue_next _ no_rpc (rq_pop r) (rq r))).
    unfold request_queue.queue_next. rewrite (in_queue _ _ _ I), Hp. by destruct (request_queue.stored _ (rq r)) as [[b d]|].
  - destruct (Hn Hs). apply no_packet; [done|done|]. cbn. by rewrite Hp.
Qed.

(** ** One cycle *)
Definition request_for (cnt : Z -> Z) (o : option (Z * Z)) : option wr_req :=
  match o with
  | Some (g, d) => Some {| wr_address := wrap 42 (iRegMemRxAddr c + line cnt g); wr_sop := true; wr_data := d |}
  | None => None
  end.

Lemma inv_next i cnt snd r :
  config_ok -> inv cnt snd r -> lost (next sender i r) = false ->
  inv (bump cnt (written_now r snd)) (snd_next r snd) (next sender i r).
Proof.
  intros Hok I Hl. pose proof (ok_flows Hok). pose proof (in_flow _ _ _ I). split.
  - intros f. rewrite bump_at. pose proof (in_cnt _ _ _ I f). lia.
  - pose proof (in_queue _ _ _ I) as E. unfold idle_queue, rq in *. cbn. rewrite E. cbn. by rewrite (ok_init Hok).
  - cbn. by rewrite (in_tbl_init _ _ _ I).
  - cbn. unfold tx_batch_next. cbn [ci_reset bus ci_csr]. destruct (tx_state r); [apply I| |apply I]. rewrite last_one; [done|done|apply I].
  - cbn. rewrite (in_out_batch _ _ _ I), batch_one by done. by destruct (rq_read_d r).
  - by apply flow_next.
  - apply fsm_next; [done|..]; apply I.
  - destruct (decide (tx_state r = TxTransmit)); [by apply transmit_sends|by apply idle_sends].
  - intros f Hf. by apply ring_table_step.
  - intros x. transitivity (places r x); [|apply I]. apply places_next; [apply I|apply I|lia|done].
Qed.

Lemma write_next i cnt snd r :
  inv cnt snd r -> sTx_c1 (next sender i r) = request_for cnt (written_now r snd).
Proof.
  intros I. cbn. unfold written_now. pose proof (in_sending _ _ _ I) as Hs.
  destruct Hs as [_ _ Hd|g a _ _ _ _ _ _ Hd _|g a _ _ _ Hd _|g d _ _ Hd Hp Hq _]; rewrite Hd; [done..|].
  unfold write_request. cbn [ci_csr bus]. rewrite (in_out_batch _ _ _ I), Hq, Z.add_0_r. cbn. by rewrite <- Hp.
Qed.

Lemma pending_next i cnt snd r f :
  config_ok -> inv cnt snd r -> lost (next sender i r) = false -> 0 <= f < MAX_TX_FLOWS ->
  for_flow f (written_now r snd) ++ pending (snd_next r snd) (next sender i r) f = pending snd r f ++ for_flow f (accepted i).
Proof.
  intros Hok I Hl Hf.
  change (pending (snd_next r snd) (next sender i r) f) with (for_flow f (snd_next r snd) ++ pending None (next sender i r) f).
  rewrite behind_step by (done || apply I). rewrite !(assoc_L (++)). unfold pending. rewrite !(assoc_L (++)). do 5 f_equal.
  rewrite <- !(assoc_L (++)). apply (out_step cnt); apply I.
Qed.

(** ** A run *)

(** The requests of a sequence of packets, each with its flow: a packet of flow [f] goes to
    the line after that of the packet before it. *)
Fixpoint place (cnt : Z -> Z) (ps : list (Z * Z)) : list wr_req :=
  match ps with
  | [] => []
  | p :: ps => option_list (request_for cnt (Some p)) ++ place (bump cnt (Some p)) ps
  end.

Definition of_flow (f : Z) (ps : list (Z * Z)) : list Z := ps ≫= (fun p => for_flow f (Some p)).

Definition input (ins : list (bool * RpcIf)) : list (Z * Z) := omap accepted ins.

Definition writes (ins : list (bool * RpcIf)) r : list wr_req := omap id (outputs sender ins r).

Lemma lost_sticky i r : lost (next sender i r) = false -> lost r = false.
Proof.
  intros Hl. destruct (lost_next i r Hl) as (Hf & _ & Hn). unfold lost. apply orb_false_intro; [apply orb_false_intro|].
  - unfold free, rq in Hf. cbn -[channel_next] in Hf. by apply loss_sticky in Hf.
  - apply orb_false_elim in Hl as [[_ Hl]%orb_false_elim _]. cbn in Hl. by apply orb_false_elim in Hl as [_ Hl].
  - destruct (existsb _ _) eqn:E; [|done]. apply existsb_exists in E as (f & Hi%list_elem_of_In%elem_of_seqZ & Hx).
    specialize (Hn f ltac:(lia)). cbn -[channel_next] in Hn. apply loss_sticky in Hn. congruence.
Qed.

Lemma lost_final ins r : lost (final sender ins r) = false -> lost r = false.
Proof. revert r. induction ins as [|i ins IH]; intros r Hl; [done|]. by apply (lost_sticky i), IH. Qed.

Lemma run_inv ins cnt snd r :
  config_ok -> inv cnt snd r -> lost (final sender ins r) = false ->
  exists ps snd', writes ins r = place cnt ps /\ sending (fold_left (fun k p => bump k (Some p)) ps cnt) (final sender ins r) snd' /\
    forall f, 0 <= f < MAX_TX_FLOWS -> of_flow f ps ++ pending snd' (final sender ins r) f = pending snd r f ++ of_flow f (input ins).
Proof.
  intros Hok. revert cnt snd r. induction ins as [|i ins IH]; intros cnt snd r I Hl.
  - exists [], snd. split; [done|]. split; [apply I|]. intros f _. by rewrite app_nil_r.
  - cbn in Hl. pose proof (lost_final _ _ Hl) as Hn. pose proof (inv_next i _ _ _ Hok I Hn) as I'.
    destruct (IH _ _ _ I' Hl) as (ps & snd' & Hw & Hs & Hp).
    assert (forall f, of_flow f (input (i :: ins)) = for_flow f (accepted i) ++ of_flow f (input ins)) as Hi.
    { intros f. unfold of_flow, input. cbn. by destruct (accepted i). }
    unfold writes in Hw |- *. cbn [outputs omap list_omap]. cbn zeta. change (out sender (next sender i r)) with (sTx_c1 (next sender i r)).
    rewrite (write_next i _ _ _ I). destruct (written_now r snd) as [[g d]|] eqn:Ew.
    + exists ((g, d) :: ps), snd'. split; [cbn; by f_equal|]. split; [done|]. intros f Hf.
      change (of_flow f ((g, d) :: ps)) with (for_flow f (Some (g, d)) ++ of_flow f ps). cbn [final]. rewrite <- (assoc_L (++)).
      rewrite (Hp f Hf), Hi, !(assoc_L (++)). f_equal. rewrite <- Ew. by eapply pending_next.
    + exists ps, snd'. split; [done|]. split; [done|]. intros f Hf. cbn [final]. rewrite (Hp f Hf), Hi, !(assoc_L (++)). f_equal.
      rewrite <- (pending_next i cnt snd r f) by done. by rewrite Ew.
Qed.

(** ** Reset and initialisation *)
Definition with_init : csrs :=
  {| iRegMemTxAddr := iRegMemTxAddr c; iRegMemRxAddr := iRegMemRxAddr c; iRegNicStart := iRegNicStart c; iRegNumOfFlows := iRegNumOfFlows c;
     iRegNicInit := true; iRegGetPckCnt := iRegGetPckCnt c; iRegRxQueueSize := iRegRxQueueSize c; iRegTxQueueSize := iRegTxQueueSize c;
     lRegTxBatchSize := lRegTxBatchSize c; iRegRxBatchSize := iRegRxBatchSize c; iRegPollingRate := iRegPollingRate c;
     iRegConnSetupFrame := iRegConnSetupFrame c; iRegConnSetupFrame_en := iRegConnSetupFrame_en c; iLB := iLB c;
     iRegPhyNetAddr := iRegPhyNetAddr c; iRegIpv4NetAddr := iRegIpv4NetAddr c; iRegReadNetDropCnt := iRegReadNetDropCnt c;
     iRegReadNetDropCntValid := iRegReadNetDropCntValid c |}.

Definition control (reset : bool) (k : csrs) : ccip_in :=
  {| ci_reset := reset; ci_csr := k; c0TxAlmFull := false; c1TxAlmFull := false; c0_rsp := None; ci_rpc_valid := false; ci_rpc := no_rpc |}.

(** Two cycles of reset, the write of the init register, and the cycles that fill the queue
    of free slots. *)
Definition start_up r : state :=
  final sender (replicate 128 (false, no_rpc)) (tx_next (control false with_init) (tx_next (control true c) (tx_next (control true c) r))).

(** Nothing is in the pipeline. *)
Record calm r : Prop := {
  ca_popped : popped (free r) = None;
  ca_stored : request_queue.stored _ (rq r) = None;
  ca_freed : request_queue.freed _ (rq r) = None;
  ca_push : rq_push_en r = false;
  ca_ff_push : ff_push r = None;
  ca_pop : rq_pop r = None;
  ca_read : rq_read_d r = false;
  ca_fsm : tx_state r = TxIdle /\ ff_pop r = None /\ table_w r = None;
  ca_batch : tx_batch_cnt r = 0 /\ tx_out_batch_cnt r = 0;
  ca_fifos : forall f, slots r f = [] /\ popped (flow_fifo r f) = None;
  ca_flow : 0 <= tx_flow_cnt r <= iRegNumOfFlows c
}.

Lemma calm_not_found k r : config_ok -> lRegTxBatchSize k = 0 -> calm r -> found k r = false.
Proof.
  intros Hok Hb Hc. unfold found, tx_batch_size, pop_dw. rewrite Hb. cbn [Z.eqb].
  pose proof (rdusedw_held (dcfifo_ (flow_fifo r (tx_flow_cnt r)))) as Hd. destruct (ca_fifos _ Hc (tx_flow_cnt r)) as [Hs _]. unfold slots in Hs.
  rewrite Hs in Hd. cbn in Hd. by replace (rdusedw (dcfifo_ (flow_fifo r (tx_flow_cnt r)))) with 0 by lia.
Qed.

Lemma calm_next i r :
  config_ok -> ci_reset i = false -> ci_rpc_valid i = false -> iRegNumOfFlows (ci_csr i) = iRegNumOfFlows c -> lRegTxBatchSize (ci_csr i) = 0 ->
  calm r -> calm (tx_next i r).
Proof.
  intros Hok Hr Hv Hn Hb Hc. pose proof (calm_not_found _ _ Hok Hb Hc) as Hf. pose proof (ok_flows Hok). pose proof (ca_flow _ Hc).
  destruct (ca_fsm _ Hc) as (Hs & Hp & Hw), (ca_batch _ Hc) as [Hbc Hob]. split.
  - unfold free, rq. cbn -[channel_next]. rewrite Hr, (ca_push _ Hc). apply popped_idle.
  - pose proof (ca_popped _ Hc) as E. unfold free, rq in *. cbn. by rewrite Hr, E.
  - cbn. by rewrite Hr, (ca_pop _ Hc).
  - cbn. by rewrite Hr, Hv, andb_false_r.
  - pose proof (ca_stored _ Hc) as E. unfold rq in E. cbn. unfold ff_push_next. by rewrite Hr, E.
  - cbn. rewrite Hr. by destruct (ca_fifos _ Hc (tx_flow_cnt_d r)).
  - cbn. by rewrite (ca_pop _ Hc).
  - cbn. unfold tx_state_next, ff_pop_next, first_of_batch. by rewrite Hr, Hs, Hf.
  - cbn. unfold tx_batch_next. by rewrite Hr, Hs, (ca_read _ Hc).
  - intros f. unfold slots. cbn -[channel_next]. unfold fifo_push, fifo_pop. rewrite Hr, (ca_ff_push _ Hc), Hp. split; [|apply popped_idle].
    rewrite channel_held, takes_false. destruct (ca_fifos _ Hc f) as [Hl _]. unfold slots in Hl. rewrite Hl. unfold puts. by destruct (_ && _).
  - cbn. unfold tx_flow_next. rewrite Hr, Hs, Hf, Hn. destruct (Z.eqb_spec (tx_flow_cnt r) (iRegNumOfFlows c)); [lia|].
    unfold MAX_TX_FLOWS in *. unfold wrap. rewrite Z.mod_small; lia.
Qed.

Lemma cleared_popped {l A} push pe (ch : channel F l A) : popped (channel_next true true true push pe ch) = None.
Proof. unfold popped. cbn. by rewrite rdempty_held by apply held_aclr. Qed.

Lemma reset_calm r : config_ok -> calm (tx_next (control true c) (tx_next (control true c) r)).
Proof.
  intros Hok. pose proof (ok_flows Hok). split; try done.
  - apply cleared_popped.
  - intros f. split; [apply held_aclr|apply cleared_popped].
  - cbn. lia.
Qed.

(** After [k] of the cycles: the slots up to [k] are free, at most once each, and the table
    has the entries of the flows up to [k]. *)
Record starting (k : Z) r : Prop := {
  st_calm : calm r;
  st_queue : request_queue.q_init_state _ (rq r) = if k <? 128 then request_queue.QueueInit else request_queue.QueueInitIdle;
  st_addr : k < 128 -> request_queue.q_init_addr _ (rq r) = k /\ request_queue.fr_init_addr _ (rq r) = k;
  st_free : forall x, (occs (held (dcfifo_ (free r))) x <= if bool_decide (0 <= x < k)%Z then 1 else 0)%nat;
  st_table : table_init_state r = (if k <=? iRegNumOfFlows c then TxTblInit else TxTblInitialized);
  st_cnt : k <= iRegNumOfFlows c -> table_init_cnt r = k;
  st_entries : forall f, 0 <= f < k -> f <= iRegNumOfFlows c -> mem (tx_queue_address_tb r) f = ring_entry 0 f
}.

Lemma free_grows i r x :
  calm r -> ci_reset i = false ->
  (occs (held (dcfifo_ (free (tx_next i r)))) x <= occs (held (dcfifo_ (free r))) x + occ (request_queue.free_push _ (rq r)) x)%nat.
Proof.
  intros Hc Hr.
  change (free (tx_next i r)) with (channel_next (ci_reset i) true true (request_queue.free_push _ (rq r)) (rq_push_en r) (free r)).
  rewrite Hr, (ca_push _ Hc), channel_held, takes_false, occs_app. unfold puts. destruct (_ && _); rewrite occs_option; cbn; lia.
Qed.

Lemma starting_0 r : config_ok -> starting 0 (tx_next (control false with_init) (tx_next (control true c) (tx_next (control true c) r))).
Proof.
  intros Hok. pose proof (ok_flows Hok). split.
  - apply calm_next; try done; [apply Hok|]. by apply reset_calm.
  - done.
  - done.
  - intros x. pose proof (free_grows (control false with_init) _ x (reset_calm r Hok) eq_refl) as Hg.
    change (held (dcfifo_ (free (tx_next (control true c) (tx_next (control true c) r))))) with
      (held (fifo_aclr (dcfifo_ (free (tx_next (control true c) r))))) in Hg.
    rewrite held_aclr in Hg. cbn [occs count_occ occ request_queue.free_push] in Hg. cbn in Hg |- *. lia.
  - cbn. destruct (Z.leb_spec 0 (iRegNumOfFlows c)); [done|lia].
  - done.
  - lia.
Qed.

Lemma init_entry r f : config_ok -> 0 <= f <= iRegNumOfFlows c -> table_init_cnt r = f -> table_init_w c r = ring_entry 0 f.
Proof.
  intros Hok Hf Hk. pose proof (ok_flows Hok). pose proof (ok_size Hok). unfold table_init_w, ring_entry. rewrite Hk, batch_one by done.
  rewrite Z.mod_0_l, Z.add_0_r by lia.
  unfold MAX_TX_FLOWS, TX_ADDRESS_W, LMAX_NUM_OF_FLOWS, LMAX_TX_QUEUE_SIZE, wrap in *.
  rewrite (Z.mod_small (f * T)) by nia. rewrite Z.mod_small by nia. done.
Qed.

Lemma starting_next k b r :
  config_ok -> 0 <= k < 128 -> starting k r -> starting (k + 1) (next sender (false, b) r).
Proof.
  intros Hok Hk St. pose proof (ok_flows Hok). pose proof (st_calm _ _ St) as Hc. pose proof (st_queue _ _ St) as Hq.
  destruct (st_addr _ _ St ltac:(lia)) as [Ha Hfa]. rewrite (proj2 (Z.ltb_lt k 128)) in Hq by lia. destruct (ca_fsm _ Hc) as (_ & _ & Hw). split.
  - apply calm_next; try done. apply Hok.
  - unfold rq in *. cbn. rewrite Hq, Ha. change (2 ^ RQ_LNUM_OF_SLOTS - 1) with 127. by destruct (Z.eqb_spec k 127), (Z.ltb_spec (k + 1) 128); try lia.
  - intros Hk'. unfold rq in *. cbn. rewrite Hq, Ha, Hfa. change (2 ^ RQ_LNUM_OF_SLOTS - 1) with 127. destruct (Z.eqb_spec k 127); [lia|].
    unfold wrap. rewrite Z.mod_small by (change (2 ^ RQ_LNUM_OF_SLOTS) with 128; lia). done.
  - intros x. pose proof (free_grows (bus (false, b)) r x Hc eq_refl) as Hg. pose proof (st_free _ _ St x) as Hx.
    unfold request_queue.free_push in Hg. rewrite Hq, Hfa in Hg. cbn [occ] in Hg. change (next sender (false, b) r) with (tx_next (bus (false, b)) r).
    destruct (Z.eqb_spec k x); repeat case_bool_decide; lia.
  - cbn. rewrite (st_table _ _ St). destruct (Z.leb_spec k (iRegNumOfFlows c)).
    + rewrite (st_cnt _ _ St) by lia. by destruct (Z.eqb_spec k (iRegNumOfFlows c)), (Z.leb_spec (k + 1) (iRegNumOfFlows c)); try lia.
    + by destruct (Z.leb_spec (k + 1) (iRegNumOfFlows c)); try lia.
  - intros Hn. cbn. rewrite (st_table _ _ St), (proj2 (Z.leb_le k (iRegNumOfFlows c))), (st_cnt _ _ St) by lia.
    destruct (Z.eqb_spec k (iRegNumOfFlows c)); [lia|]. unfold MAX_TX_FLOWS in *. unfold wrap. rewrite Z.mod_small; lia.
  - intros f Hf Hn. cbn [tx_queue_address_tb next sender tx_next]. cbn [ci_csr bus]. unfold table_next. rewrite (st_table _ _ St), Hw.
    destruct (Z.leb_spec k (iRegNumOfFlows c)); cbn [ram_next mem].
    + pose proof (st_cnt _ _ St ltac:(done)) as Hcnt. rewrite Hcnt. destruct (Z.eq_dec f k) as [->|].
      * rewrite ram_upd_same. apply init_entry; [done|lia|done].
      * rewrite ram_upd_other by done. apply St; lia.
    + apply St; lia.
Qed.

Lemma starting_final n k r :
  config_ok -> 0 <= k -> k + Z.of_nat n = 128 -> starting k r -> starting 128 (final sender (replicate n (false, no_rpc)) r).
Proof.
  intros Hok. revert k r. induction n as [|n IH]; intros k r Hk Hn St; [by replace 128 with k by lia|].
  cbn [replicate final]. apply (IH (k + 1)); [lia|lia|]. apply starting_next; [done|lia|done].
Qed.

Lemma started_inv r : config_ok -> starting 128 r -> inv (fun _ => 0) None r.
Proof.
  intros Hok St. pose proof (ok_flows Hok). pose proof (st_calm _ _ St) as Hc.
  assert (table_w r = None) as Hw by apply Hc. split.
  - lia.
  - apply (st_queue _ _ St).
  - rewrite (st_table _ _ St). destruct (Z.leb_spec 128 (iRegNumOfFlows c)); [|done]. unfold MAX_TX_FLOWS, LMAX_NUM_OF_FLOWS in *. lia.
  - apply Hc.
  - apply Hc.
  - apply Hc.
  - unfold fsm. destruct (ca_fsm _ Hc) as (-> & Hp & _). split_and!; [done|done|]. intros f. by destruct (ca_fifos _ Hc f).
  - apply no_packet; [|apply Hc|apply Hc]. destruct (ca_fsm _ Hc) as (-> & _). done.
  - intros f Hf. unfold entry_of, taken. rewrite Hw. apply (st_entries _ _ St); [|lia]. unfold MAX_TX_FLOWS, LMAX_NUM_OF_FLOWS in *. lia.
  - intros x. unfold places. destruct (ca_fifos _ Hc (tx_flow_cnt_d r)) as [_ ->].
    rewrite (ca_popped _ Hc), (ca_stored _ Hc), (ca_ff_push _ Hc), (ca_pop _ Hc), (ca_freed _ Hc). pose proof (st_free _ _ St x) as Hx.
    assert (flows_sum (fun f => occs (slots r f) x) = 0%nat) as ->.
    { unfold flows_sum. induction (seqZ 0 MAX_TX_FLOWS) as [|f fs IH]; [done|]. cbn [sum_list_with]. rewrite IH. by destruct (ca_fifos _ Hc f) as [-> _]. }
    cbn. case_bool_decide; lia.
Qed.

Lemma started r : config_ok -> starting 128 (start_up r).
Proof. intros Hok. exact (starting_final 128 0 _ Hok (Z.le_refl 0) eq_refl (starting_0 r Hok)). Qed.

Lemma calm_sending cnt r snd : calm r -> sending cnt r snd -> snd = None.
Proof.
  intros Hc Hs. pose proof (ca_pop _ Hc). pose proof (ca_read _ Hc). destruct (ca_fsm _ Hc) as (E & _). by destruct Hs; try congruence.
Qed.

Lemma calm_pending r f : calm r -> pending None r f = [].
Proof.
  intros Hc. unfold pending, stage_a, stage_b, stage_c, stage_d.
  destruct (ca_fifos _ Hc f) as [-> _]. by rewrite (ca_push _ Hc), (ca_popped _ Hc), (ca_stored _ Hc), (ca_ff_push _ Hc).
Qed.


(** ** A full FIFO *)
Definition stuck (f : Z) r : Prop :=
  Z.of_nat (length (slots r f)) = 2 ^ LTX_FIFO_DEPTH /\ rd_settle (dcfifo_ (flow_fifo r f)) = O /\ fifo_pop r f = false /\
  (tx_state r = TxTransmit -> tx_flow_cnt r <> f).

Lemma stuck_not_found f r : config_ok -> stuck f r -> tx_flow_cnt r = f -> found c r = false.
Proof.
  intros Hok (Hl & Hs & _) <-. unfold found, pop_dw. rewrite batch_one by done. unfold slots in Hl. by rewrite rdusedw_settled, Hl.
Qed.

Lemma stuck_next f i r : config_ok -> stuck f r -> stuck f (next sender i r) /\ slots (next sender i r) f = slots r f.
Proof.
  intros Hok St. pose proof (stuck_not_found f r Hok St) as Hnf. destruct St as (Hl & Hs & Hp & Ht).
  assert (wrfull (dcfifo_ (flow_fifo r f)) = true) as Hw by (apply wrfull_held; unfold slots in Hl; by rewrite Hl).
  assert (slots (next sender i r) f = slots r f) as He.
  { unfold slots. cbn -[channel_next]. rewrite channel_held, Hp, takes_false. unfold puts. rewrite Hw. by rewrite app_nil_r. }
  split; [|done]. unfold stuck. rewrite He. split; [done|]. split; [|split].
  - cbn. rewrite Hw. match goal with |- rd_settle (fifo_clk ?a ?b ?w ?p ?g) = O => pose proof (rd_settle_clk a b w p g) as Hd end.
    rewrite Hw, Hs in Hd. cbn in Hd. lia.
  - unfold fifo_pop. cbn. unfold ff_pop_next. cbn [ci_reset bus ci_csr]. destruct (tx_state r) eqn:E; [| |done].
    + destruct (found c r) eqn:Ef; [|done]. apply Z.eqb_neq. intros Hf. discriminate (Hnf Hf).
    + destruct (last_of_batch c r); [done|]. by apply Z.eqb_neq, Ht.
  - cbn. unfold tx_state_next, tx_flow_next. cbn [ci_reset bus ci_csr]. destruct (tx_state r) eqn:E; [|by intros _; apply Ht|done].
    destruct (found c r) eqn:Ef; [|done]. intros _ Hf. discriminate (Hnf Hf).
Qed.

End transmit.
End transmit.

(** ** Examples *)
Lemma sample_ok : transmit.config_ok sample_csrs.
Proof. by split. Qed.

(** The registers before the reset, with FIFOs that have no delay. *)
Definition empty_channel {l A} (x : A) : channel queue l A :=
  {| dcfifo_ := {| words := []; last_q := None; dflt := x |}; pop_valid := false; packet_loss_detected := false; loss_out := false |}.

Definition no_entry : TxQueueAddressTuple := {| region_begin := 0; current := 0; region_end := 0 |}.

Definition any_regs : @transmitter.regs queue :=
  {| request_queue_ :=
       {| request_queue.queue_ram := {| mem := fun _ => no_rpc; q := no_rpc |}; request_queue.free_entry_fifo := empty_channel 0;
          request_queue.q_init_state := request_queue.QueueInitIdle; request_queue.q_init_addr := 0; request_queue.fr_init_addr := 0;
          request_queue.q_initialized := false; request_queue.push_data_in_d := no_rpc; request_queue.stored := None;
          request_queue.no_free_slot_error := false; request_queue.freed := None |};
     flow_fifo := fun _ => empty_channel 0; rq_push_en := false; rq_push_data := no_rpc; rpc_flow_id_in_d := 0; rpc_flow_id_in_1d := 0;
     rpc_flow_id_in_2d := 0; ff_push := None; lb_flow_cnt := 0; batch_latch := 1;
     tx_queue_address_tb := {| mem := fun _ => no_entry; q := no_entry |}; table_init_state := TxTblIdle; table_init_cnt := 0; table_w := None;
     ff_pop := None; tx_state := TxIdle; tx_flow_cnt := 0; tx_batch_cnt := 0; tx_queue_address := 0; tx_flow_cnt_d := 0;
     tx_queue_address_d := 0; rq_pop := None; rq_read_d := false; tx_queue_address_d1 := 0; tx_out_batch_cnt := 0; sTx_c1 := None |}.

Definition packet (f d : Z) : bool * RpcIf := (true, {| flow_id := f; rpc_data := d |}).
Definition pause (n : nat) : list (bool * RpcIf) := replicate n (false, no_rpc).

Definition some_packets : list (bool * RpcIf) := [packet 1 11; packet 3 31; packet 1 12; packet 3 32; packet 1 13] ++ pause 40.

Definition started_regs : @transmitter.regs queue := transmit.start_up sample_csrs any_regs.


Lemma some_packets_written :
  transmit.writes sample_csrs some_packets started_regs = transmit.place sample_csrs (fun _ => 0) [(3, 31); (3, 32); (1, 11); (1, 12); (1, 13)].
Proof. by vm_compute. Qed.

(** A burst of 13 packets for one flow leaves its FIFO full; eight packets are never sent,
    here with packets for another flow that come later. *)
Definition after_burst : @transmitter.regs queue :=
  final (transmit.sender sample_csrs) (map (packet 2) (seqZ 0 13) ++ pause 80) started_regs.

