(* ===== verification/HwRxPath.v ===== *)
(** * From the NIC to the polling thread

    The transmitter of HwTransmit writes the receive rings, the polling thread of
    CompletionQueue reads one of them.  The two together are a system of the cycles of the
    NIC and the accesses of the thread in any interleaving; its writes are the hardware's
    steps of the link, so that the packets given to the NIC for a flow reach the thread. *)

From S2P Require Import Prelude HwBase HwDefs HwCcip HwPolling HwTransmit Queues Wire CompletionQueue.

(** The packet in a line. *)
Definition unpack (x : Z) : RpcPckt := decode_pckt (le_bytes 64 x).

Section system.
Context {F : Z -> Type -> Type} {latency : nat} `{DcfifoLaws F latency}.
Variables (c : csrs) (f buff : Z).
Abbreviation T := (iRegTxQueueSize c).

(** [given] are the inputs of the NIC so far. *)
Record system := { nic : @transmitter.regs F; host : link; given : list (bool * RpcIf) }.

(** The ring of flow [f] is at [buff] for the CPU, and from line [first] on for the NIC. *)
Definition first : Z := iRegMemRxAddr c + f * T.
Definition in_ring (w : wr_req) : bool := (first <=? wr_address w) && (wr_address w <? first + T).
Definition cpu_address (w : wr_req) : Z := buff + (wr_address w - first) * 64.

Definition memory_write (w : option wr_req) (s : link) : link :=
  match w with
  | Some w =>
      if in_ring w then
        {| mem := <[cpu_address w := unpack (wr_data w)]> (mem s); pol := pol s; stop_signal_ := stop_signal_ s;
           sent := sent s ++ [unpack (wr_data w)]; got := got s |}
      else s
  | None => s
  end.

(** A write to the ring has room, and brings a packet the thread can tell from the one
    before in its slot. *)
Definition write_ok (w : option wr_req) (s : link) : Prop :=
  match w with
  | Some w =>
      in_ring w = true -> fresh_pckt T (sent s) (unpack (wr_data w)) /\ Z.of_nat (length (sent s)) < Z.of_nat (length (got s)) + T
  | None => True
  end.

Inductive system_step : system -> system -> Prop :=
| nic_cycle s i :
    let r := next (transmit.sender c) i (nic s) in
    write_ok (transmitter.sTx_c1 r) (host s) ->
    system_step s {| nic := r; host := memory_write (transmitter.sTx_c1 r) (host s); given := given s ++ [i] |}
| cpu_access s o pol' :
    pull (stop_signal_ (host s)) (mem (host s)) (pol (host s)) = Ret o pol' ->
    system_step s {| nic := nic s; given := given s;
                     host := {| mem := mem (host s); pol := pol'; stop_signal_ := stop_signal_ (host s); sent := sent (host s);
                                got := got (host s) ++ option_list o |} |}
| cpu_stop s :
    system_step s {| nic := nic s; given := given s;
                     host := {| mem := mem (host s); pol := pol (host s); stop_signal_ := true; sent := sent (host s); got := got (host s) |} |}.

(** The NIC was started, and the thread made its queue. *)
Definition system_init (r : transmitter.regs) (q : Rx.RxQueue) : system :=
  {| nic := transmit.start_up c r; host := link_init q; given := [] |}.

Record rings_ok : Prop := {
  ro_config : transmit.config_ok c;
  ro_flow : 0 <= f <= iRegNumOfFlows c;
  ro_memory : 0 <= iRegMemRxAddr c /\ iRegMemRxAddr c + transmitter.MAX_TX_FLOWS * T < 2 ^ 42
}.

(** What has been written to the ring is what the NIC was given, without what it still has. *)
Record system_inv (q : Rx.RxQueue) (s : system) : Prop := {
  si_link : rtc (link_step buff 64 T) (link_init q) (host s);
  si_nic : exists cnt snd, transmit.inv c cnt snd (nic s) /\ cnt f = Z.of_nat (length (sent (host s))) /\
    sent (host s) ++ map unpack (transmit.pending snd (nic s) f) = map unpack (transmit.of_flow f (transmit.input c (given s)))
}.

Lemma ring_address cnt g d :
  rings_ok -> 0 <= g <= iRegNumOfFlows c -> (forall f, 0 <= cnt f) ->
  exists w, transmit.request_for c cnt (Some (g, d)) = Some w /\ wr_data w = d /\ in_ring w = (g =? f) /\
    (g = f -> cpu_address w = slot buff 64 T (cnt f)).
Proof.
  intros [Hok Hf [Hb Hm]] Hg Hc. pose proof (transmit.ok_flows _ Hok). pose proof (transmit.ok_size _ Hok).
  eexists. split; [reflexivity|]. split; [done|]. pose proof (Z.mod_pos_bound (cnt g) T ltac:(lia)) as Hmod.
  assert (wrap 42 (iRegMemRxAddr c + transmit.line c cnt g) = iRegMemRxAddr c + g * T + cnt g mod T) as Ha.
  { unfold transmit.line. rewrite wrap_small; [lia|]. unfold in_width. nia. }
  unfold in_ring, cpu_address, first, slot. cbn [wr_address]. rewrite Ha. split.
  - destruct (Z.eqb_spec g f) as [->|Hd]; [by rewrite (proj2 (Z.leb_le _ _)), (proj2 (Z.ltb_lt _ _)) by lia|].
    apply andb_false_iff. destruct (Z.lt_total g f) as [Hl|[Hl|Hl]]; [left; apply Z.leb_gt|done|right; apply Z.ltb_ge]; nia.
  - intros ->. lia.
Qed.

Lemma written_flow cnt snd r g d :
  transmit.inv c cnt snd r -> transmit.written_now r snd = Some (g, d) -> 0 <= g <= iRegNumOfFlows c.
Proof.
  intros I. unfold transmit.written_now. destruct (transmitter.rq_read_d r) eqn:E; [|done]. intros ->.
  pose proof (transmit.in_sending _ _ _ _ I) as Hs. inversion Hs; subst; done.
Qed.

Lemma input_snoc ins i :
  transmit.of_flow f (transmit.input c (ins ++ [i])) = transmit.of_flow f (transmit.input c ins) ++ transmit.for_flow f (transmit.accepted c i).
Proof.
  unfold transmit.of_flow, transmit.input. rewrite omap_app, bind_app. f_equal. cbn. destruct (transmit.accepted c i); cbn; [|done]. by rewrite app_nil_r.
Qed.

Lemma cycle_inv q s i :
  let r := next (transmit.sender c) i (nic s) in
  rings_ok -> system_inv q s -> write_ok (transmitter.sTx_c1 r) (host s) -> transmit.lost r = false ->
  system_inv q {| nic := r; host := memory_write (transmitter.sTx_c1 r) (host s); given := given s ++ [i] |}.
Proof.
  intros r Hr [Hl (cnt & snd & I & Hc & Hp)] Hw Hlost. pose proof (ro_config Hr) as Hok.
  assert (0 <= f < transmitter.MAX_TX_FLOWS) as Hf by (pose proof (ro_flow Hr); pose proof (transmit.ok_flows _ Hok); lia).
  pose proof (transmit.inv_next c i cnt snd (nic s) Hok I Hlost) as I'.
  pose proof (transmit.pending_next c i cnt snd (nic s) f Hok I Hlost Hf) as Hn. subst r. rewrite (transmit.write_next c i cnt snd (nic s) I) in *.
  assert (forall l, l ++ map unpack (transmit.for_flow f (transmit.written_now (nic s) snd) ++
      transmit.pending (transmit.snd_next (nic s) snd) (next (transmit.sender c) i (nic s)) f) =
    (l ++ map unpack (transmit.pending snd (nic s) f)) ++ map unpack (transmit.for_flow f (transmit.accepted c i))) as Hd.
  { intros l. by rewrite Hn, map_app, (assoc_L (++)). }
  specialize (Hd (sent (host s))). rewrite Hp, <- map_app, <- input_snoc in Hd.
  destruct (transmit.written_now (nic s) snd) as [[g d]|] eqn:Eo.
  - destruct (ring_address cnt g d Hr (written_flow _ _ _ _ _ I Eo) (transmit.in_cnt _ _ _ _ I)) as (w & Ew & Ed & Ein & Ea).
    rewrite Ew in Hw |- *. unfold write_ok in Hw. unfold memory_write. rewrite Ein in *. rewrite Ed in *. cbn [transmit.for_flow] in Hd.
    destruct (Z.eqb_spec g f) as [->|Hne].
    + destruct (Hw eq_refl) as [Hfr Hroom]. split.
      * eapply rtc_r; [exact Hl|]. cbn [host]. rewrite (Ea eq_refl), Hc. by apply nic_writes.
      * eexists _, _. split; [exact I'|]. cbn [host sent nic given]. rewrite map_app in Hd. split.
        -- rewrite transmit.bump_at. cbn. rewrite Z.eqb_refl, length_app. cbn. lia.
        -- by rewrite <- (assoc_L (++)).
    + split; [done|]. eexists _, _. split; [exact I'|]. cbn [host nic given]. split; [|done].
      rewrite transmit.bump_at. cbn. by rewrite (proj2 (Z.eqb_neq g f)), Z.add_0_r.
  - split; [done|]. by eexists _, _.
Qed.

Lemma system_step_lost s s' : system_step s s' -> transmit.lost (nic s') = false -> transmit.lost (nic s) = false.
Proof. intros Hs. inversion Hs; subst; cbn; [apply transmit.lost_sticky|done|done]. Qed.

Lemma system_steps_inv q r s :
  rings_ok -> rtc system_step (system_init r q) s -> transmit.lost (nic s) = false -> system_inv q s.
Proof.
  intros Hr. revert s. apply (rtc_ind_r (fun s => transmit.lost (nic s) = false -> system_inv q s)).
  - intros _. split; [apply rtc_refl|]. exists (fun _ => 0), None. pose proof (transmit.started c r (ro_config Hr)) as St.
    split; [by apply transmit.started_inv; [apply Hr|]|]. split; [done|]. cbn [host nic given system_init link_init sent].
    rewrite (transmit.calm_pending c); [done|apply St].
  - intros s s' _ Hs IH Hl. specialize (IH (system_step_lost _ _ Hs Hl)). destruct Hs as [s i r' Hw|s o pol' Hp|s].
    + by apply cycle_inv.
    + destruct IH as [Hk Hn]. split; [|exact Hn]. eapply rtc_r; [exact Hk|]. by apply thread_pulls.
    + destruct IH as [Hk Hn]. split; [|exact Hn]. eapply rtc_r; [exact Hk|]. apply stop_requested.
Qed.


(** Cycles of the NIC only. *)
Definition cycle (s : system) (i : bool * RpcIf) : system :=
  let r := next (transmit.sender c) i (nic s) in
  {| nic := r; host := memory_write (transmitter.sTx_c1 r) (host s); given := given s ++ [i] |}.

Fixpoint writes_ok (ins : list (bool * RpcIf)) (s : system) : Prop :=
  match ins with
  | [] => True
  | i :: ins' => write_ok (transmitter.sTx_c1 (next (transmit.sender c) i (nic s))) (host s) /\ writes_ok ins' (cycle s i)
  end.

Lemma cycles_reached ins s : writes_ok ins s -> rtc system_step s (fold_left cycle ins s).
Proof.
  revert s. induction ins as [|i ins IH]; intros s Hw; [apply rtc_refl|]. destruct Hw as [Hw Hs].
  eapply rtc_l; [by apply nic_cycle|]. by apply IH.
Qed.
End system.

(** A response for flow 1 on a NIC that was just started. *)
Definition response_in : list (bool * RpcIf) := packet 1 (le_val (encode_pckt (response 7))) :: pause 20.
Definition sample_system : system :=
  fold_left (cycle sample_csrs 1 4096) response_in (system_init sample_csrs any_regs sample_rx).

