(* ===== verification/HwConn.v ===== *)
(** * The connection manager of the NIC

    src/hw/rtl/connection_manager.sv.  A table of [2^LCACHE_SIZE] connections in block RAM,
    held twice so that both directions of RPC traffic can look up at the same time, and a
    third RAM with the status bits alone, which the state machine for opening and closing
    reads.  A look-up takes two cycles, a command three. *)

From S2P Require Import Prelude HwBase HwDefs.

Module connection_manager.
Section rtl.
Variable LCACHE_SIZE : Z.

Record ConnectionTableEntry := {
  e_dest_ip : Z; e_dest_port : Z; e_client_flow_id : Z; e_open : bool
}.

(** All bits zero; the status is then [cClosed]. *)
Definition zero_entry : ConnectionTableEntry :=
  {| e_dest_ip := 0; e_dest_port := 0; e_client_flow_id := 0; e_open := false |}.

Inductive ConnCtlState := cCtlIdle | cCtlOpenCheck | cCtlOpen | cCtlCloseCheck | cCtlClose.

Record inputs := {
  reset : bool;
  initialize : bool;
  c_ctl_in : ConnectionControlIf;
  rpc_in : option RpcIf;         (* from the CPU *)
  rpc_net_in : option NetRpc     (* from the network *)
}.

Record outs := {
  c_ctl_status_out : option conn_status;
  rpc_net_out : option NetRpc;
  rpc_out : option RpcIf;
  initialized : bool;
  error : bool
}.

(** [c_tbl_rd_addr] is the pair of look-up addresses of the previous cycle: the default
    assignment of the block that drives them is indexed with [i], which is 2 after the
    loop of another block, so that it assigns nothing and the addresses keep their value. *)
Record regs := {
  ct_initialized : bool;
  ct_init : bool;                (* [ct_init_state == CTInit] *)
  ct_init_addr : Z;
  c_tbl : ram ConnectionTableEntry;
  c_tbl_r1 : ram ConnectionTableEntry;
  c_tbl_valid : ram bool;
  c_ctl_state : ConnCtlState;
  c_tbl_rd_addr : Z * Z;
  rpc_in_1d : option RpcIf;
  rpc_net_in_1d : option NetRpc;
  rpc_path_error : bool;
  r_out : option conn_status * option NetRpc * option RpcIf
}.

Definition in_table (id : Z) : bool := id <? 2 ^ LCACHE_SIZE.

(** ** The state machine of commands: what it reads and writes, and where it goes *)
Record fsm_out := {
  c_st_tbl_rd_addr : Z;
  tbl_wr : option (Z * ConnectionTableEntry);    (* to the three RAMs *)
  c_ctl_state_next : ConnCtlState
}.

Definition fsm (i : inputs) (s : regs) : fsm_out :=
  let c := c_ctl_in i in
  match c_ctl_state s with
  | cCtlIdle =>
      if ct_initialized s && enable c then
        if negb (in_table (conn_id c)) then
          {| c_st_tbl_rd_addr := 0; tbl_wr := None; c_ctl_state_next := cCtlIdle |}
        else
          {| c_st_tbl_rd_addr := wrap LCACHE_SIZE (conn_id c); tbl_wr := None;
             c_ctl_state_next := if open c then cCtlOpenCheck else cCtlCloseCheck |}
      else {| c_st_tbl_rd_addr := 0; tbl_wr := None; c_ctl_state_next := cCtlIdle |}
  | cCtlOpenCheck =>
      if q (c_tbl_valid s) then
        {| c_st_tbl_rd_addr := 0; tbl_wr := None; c_ctl_state_next := cCtlIdle |}
      else
        {| c_st_tbl_rd_addr := 0;
           tbl_wr := Some (wrap LCACHE_SIZE (conn_id c),
                           {| e_dest_ip := c_dest_ip c; e_dest_port := c_dest_port c;
                              e_client_flow_id := client_flow_id c; e_open := true |});
           c_ctl_state_next := cCtlOpen |}
  | cCtlCloseCheck =>
      if negb (q (c_tbl_valid s)) then
        {| c_st_tbl_rd_addr := 0; tbl_wr := None; c_ctl_state_next := cCtlIdle |}
      else
        {| c_st_tbl_rd_addr := 0; tbl_wr := Some (wrap LCACHE_SIZE (conn_id c), zero_entry);
           c_ctl_state_next := cCtlClose |}
  | cCtlOpen | cCtlClose => {| c_st_tbl_rd_addr := 0; tbl_wr := None; c_ctl_state_next := cCtlIdle |}
  end.

(** The status register. *)
Definition status_next (i : inputs) (s : regs) : option conn_status :=
  let c := c_ctl_in i in
  let answer e := Some {| st_conn_id := conn_id c; st_error := e |} in
  match c_ctl_state s with
  | cCtlIdle => if ct_initialized s && enable c && negb (in_table (conn_id c)) then answer cIdWrong else None
  | cCtlOpenCheck => if q (c_tbl_valid s) then answer cAlreadyOpen else None
  | cCtlCloseCheck => if negb (q (c_tbl_valid s)) then answer cIsClosed else None
  | cCtlOpen | cCtlClose => answer cOK
  end.

(** ** The three RAMs: the initialisation has the write port while it runs *)
Definition tables_next {A} (of_entry : ConnectionTableEntry -> A) (i : inputs) (s : regs) (rd : Z)
    (r : ram A) : ram A :=
  if ct_init s then ram_next true (ct_init_addr s) (of_entry zero_entry) rd r
  else match tbl_wr (fsm i s) with
       | Some (a, e) => ram_next true a (of_entry e) rd r
       | None => ram_next false 0 (of_entry zero_entry) rd r
       end.

(** ** The RPC path *)
Definition look_up (addr : Z) (id : option Z) : Z :=
  match id with
  | Some id => if in_table id then wrap LCACHE_SIZE id else addr
  | None => addr
  end.

Definition rd_addr (i : inputs) (s : regs) : Z * Z :=
  (look_up (c_tbl_rd_addr s).1 ((fun r => rpc_pckt.connection_id (rpc_data r)) <$> rpc_in i),
   look_up (c_tbl_rd_addr s).2 ((fun r => rpc_pckt.connection_id (net_data r)) <$> rpc_net_in i)).

Definition to_net (e : ConnectionTableEntry) (r : RpcIf) : option NetRpc :=
  if e_open e then
    Some {| net_addr := {| source_ip := 0; source_port := 0; dest_ip := e_dest_ip e; dest_port := e_dest_port e |};
            net_data := rpc_data r |}
  else None.

Definition to_cpu (e : ConnectionTableEntry) (r : NetRpc) : option RpcIf :=
  if e_open e then Some {| flow_id := e_client_flow_id e; rpc_data := net_data r |} else None.

(** A request for a connection that is out of range or closed is an error. *)
Definition path_error (i : inputs) (s : regs) : bool :=
  let out_of_range := existsb (fun id => negb (in_table id)) in
  out_of_range (option_list ((fun r => rpc_pckt.connection_id (rpc_data r)) <$> rpc_in i)) ||
  out_of_range (option_list ((fun r => rpc_pckt.connection_id (net_data r)) <$> rpc_net_in i)) ||
  (bool_decide (is_Some (rpc_in_1d s)) && negb (e_open (q (c_tbl s)))) ||
  (bool_decide (is_Some (rpc_net_in_1d s)) && negb (e_open (q (c_tbl_r1 s)))).

Definition cm_next (i : inputs) (s : regs) : regs :=
  let rst := reset i in
  let last := ct_init_addr s =? 2 ^ LCACHE_SIZE - 1 in
  {| ct_initialized := if rst then false else ct_initialized s || (ct_init s && last);
     ct_init := if rst then false else if ct_init s then negb last else initialize i;
     ct_init_addr :=
       if rst then 0
       else if ct_init s then (if last then 0 else wrap LCACHE_SIZE (ct_init_addr s + 1)) else ct_init_addr s;
     c_tbl := tables_next id i s (rd_addr i s).1 (c_tbl s);
     c_tbl_r1 := tables_next id i s (rd_addr i s).2 (c_tbl_r1 s);
     c_tbl_valid := tables_next e_open i s (c_st_tbl_rd_addr (fsm i s)) (c_tbl_valid s);
     c_ctl_state := if rst then cCtlIdle else c_ctl_state_next (fsm i s);
     c_tbl_rd_addr := rd_addr i s;
     rpc_in_1d := rpc_in i;
     rpc_net_in_1d := rpc_net_in i;
     rpc_path_error := if rst then false else rpc_path_error s || path_error i s;
     r_out :=
       if rst then (None, None, None)
       else (status_next i s, rpc_in_1d s ≫= to_net (q (c_tbl s)), rpc_net_in_1d s ≫= to_cpu (q (c_tbl_r1 s))) |}.

Definition cm_out (s : regs) : outs :=
  let '(st, net, cpu) := r_out s in
  {| c_ctl_status_out := st; rpc_net_out := net; rpc_out := cpu;
     initialized := ct_initialized s; error := rpc_path_error s |}.

Definition rtl : circuit regs inputs outs := {| next := cm_next; out := cm_out |}.

(** ** The reference: a finite map of connections

    One command at a time is in progress.  It takes effect at the end of the cycle after
    the one in which it was given.  Packets are looked up in the map when they come in. *)
Record connection := { to_ip : Z; to_port : Z; to_flow : Z }.

Inductive progress := Free | Checking (c : ConnectionControlIf) | Done (c : ConnectionControlIf).

Record registry := {
  conns : gmap Z connection;
  prog : progress;
  net_found : option (option NetRpc);    (* the look-up of the previous cycle *)
  cpu_found : option (option RpcIf);
  failed : bool;
  last_out : option conn_status * option NetRpc * option RpcIf
}.

(** A command: the new map, or the error. *)
Definition execute (c : ConnectionControlIf) (m : gmap Z connection) : ConnSetupStatusErrors + gmap Z connection :=
  match open c, m !! conn_id c with
  | true, None => inr (<[conn_id c := {| to_ip := c_dest_ip c; to_port := c_dest_port c; to_flow := client_flow_id c |}]> m)
  | true, Some _ => inl cAlreadyOpen
  | false, Some _ => inr (delete (conn_id c) m)
  | false, None => inl cIsClosed
  end.

Definition send_to (m : gmap Z connection) (r : RpcIf) : option NetRpc :=
  (fun k => {| net_addr := {| source_ip := 0; source_port := 0; dest_ip := to_ip k; dest_port := to_port k |};
               net_data := rpc_data r |}) <$> m !! rpc_pckt.connection_id (rpc_data r).

Definition deliver_to (m : gmap Z connection) (r : NetRpc) : option RpcIf :=
  (fun k => {| flow_id := to_flow k; rpc_data := net_data r |}) <$> m !! rpc_pckt.connection_id (net_data r).

Definition missed {A} (found : option (option A)) : bool :=
  match found with Some None => true | _ => false end.

(** One cycle of the command in progress: the map, the progress and the answer. *)
Definition command (c : ConnectionControlIf) (m : gmap Z connection) (p : progress)
    : gmap Z connection * progress * option conn_status :=
  let answer e := Some {| st_conn_id := conn_id c; st_error := e |} in
  match p with
  | Free =>
      if enable c then
        if in_table (conn_id c) then (m, Checking c, None) else (m, Free, answer cIdWrong)
      else (m, Free, None)
  | Checking d => match execute d m with
                  | inl e => (m, Free, answer e)
                  | inr m' => (m', Done d, None)
                  end
  | Done _ => (m, Free, answer cOK)
  end.

Definition reg_next (i : inputs) (a : registry) : registry :=
  let r := command (c_ctl_in i) (conns a) (prog a) in
  {| conns := r.1.1;
     prog := r.1.2;
     net_found := send_to (conns a) <$> rpc_in i;
     cpu_found := deliver_to (conns a) <$> rpc_net_in i;
     failed := failed a || missed (net_found a) || missed (cpu_found a);
     last_out := (r.2, mjoin (net_found a), mjoin (cpu_found a)) |}.

Definition reg_out (a : registry) : outs :=
  let '(st, net, cpu) := last_out a in
  {| c_ctl_status_out := st; rpc_net_out := net; rpc_out := cpu; initialized := true; error := failed a |}.

Definition reference : circuit registry inputs outs := {| next := reg_next; out := reg_out |}.

(** What the environment has to keep to: no reset and no new initialisation; the command
    stays on the inputs until it is answered; connection numbers of packets are in range. *)
Definition held_command (i : inputs) (p : progress) : bool :=
  match p with
  | Free => true
  | Checking c | Done c =>
      (conn_id (c_ctl_in i) =? conn_id c) && (c_dest_ip (c_ctl_in i) =? c_dest_ip c) &&
      (c_dest_port (c_ctl_in i) =? c_dest_port c) && (client_flow_id (c_ctl_in i) =? client_flow_id c)
  end.

Definition ids_in_range (i : inputs) : bool :=
  forallb in_table (option_list ((fun r => rpc_pckt.connection_id (rpc_data r)) <$> rpc_in i)) &&
  forallb in_table (option_list ((fun r => rpc_pckt.connection_id (net_data r)) <$> rpc_net_in i)).

Definition good_control (i : inputs) (a : registry) : bool :=
  negb (reset i) && negb (initialize i) && (0 <=? conn_id (c_ctl_in i)) && held_command i (prog a).

Definition good_inputs (i : inputs) (a : registry) : bool := good_control i a && ids_in_range i.

(** ** The simulation *)
Definition entry_of (k : option connection) : ConnectionTableEntry :=
  match k with
  | Some k => {| e_dest_ip := to_ip k; e_dest_port := to_port k; e_client_flow_id := to_flow k; e_open := true |}
  | None => zero_entry
  end.

Definition holds_table {A} (of_entry : ConnectionTableEntry -> A) (m : gmap Z connection) (r : ram A) : Prop :=
  forall x, 0 <= x < 2 ^ LCACHE_SIZE -> mem r x = of_entry (entry_of (m !! x)).

Definition same_phase (p : progress) (m : gmap Z connection) (s : regs) : Prop :=
  match p with
  | Free => c_ctl_state s = cCtlIdle
  | Checking c => c_ctl_state s = (if open c then cCtlOpenCheck else cCtlCloseCheck) /\
                  0 <= conn_id c < 2 ^ LCACHE_SIZE /\ q (c_tbl_valid s) = e_open (entry_of (m !! conn_id c))
  | Done c => c_ctl_state s = (if open c then cCtlOpen else cCtlClose)
  end.

(** The tables and the command in progress, whatever the traffic. *)
Record controls (s : regs) (a : registry) : Prop := {
  rp_ready : ct_initialized s = true /\ ct_init s = false;
  rp_tbl : holds_table id (conns a) (c_tbl s);
  rp_tbl_r1 : holds_table id (conns a) (c_tbl_r1 s);
  rp_valid : holds_table e_open (conns a) (c_tbl_valid s);
  rp_phase : same_phase (prog a) (conns a) s;
  rp_status : (r_out s).1.1 = (last_out a).1.1
}.

Record represents (s : regs) (a : registry) : Prop := {
  rp_controls : controls s a;
  rp_net : to_net (q (c_tbl s)) <$> rpc_in_1d s = net_found a;
  rp_cpu : to_cpu (q (c_tbl_r1 s)) <$> rpc_net_in_1d s = cpu_found a;
  rp_error : rpc_path_error s = failed a;
  rp_out : r_out s = last_out a
}.

Lemma to_net_entry m r : to_net (entry_of (m !! rpc_pckt.connection_id (rpc_data r))) r = send_to m r.
Proof. unfold send_to. by destruct (m !! _). Qed.

Lemma to_cpu_entry m r : to_cpu (entry_of (m !! rpc_pckt.connection_id (net_data r))) r = deliver_to m r.
Proof. unfold deliver_to. by destruct (m !! _). Qed.

Lemma connection_id_nonneg x : 0 <= rpc_pckt.connection_id x.
Proof. apply field_range; lia. Qed.

Lemma look_up_in_range a id : 0 <= id < 2 ^ LCACHE_SIZE -> look_up a (Some id) = id.
Proof.
  intros Hid. unfold look_up, in_table. rewrite (proj2 (Z.ltb_lt _ _)) by lia. by apply wrap_small.
Qed.

(** The map after the write that the state machine makes, if any. *)
Definition written (i : inputs) (s : regs) (m m' : gmap Z connection) : Prop :=
  match tbl_wr (fsm i s) with
  | None => m' = m
  | Some (a, e) => forall x, 0 <= x < 2 ^ LCACHE_SIZE ->
      entry_of (m' !! x) = if x =? a then e else entry_of (m !! x)
  end.

Lemma tables_next_holds {A} (of_entry : _ -> A) i s rd r m m' :
  ct_init s = false -> written i s m m' -> holds_table of_entry m r ->
  holds_table of_entry m' (tables_next of_entry i s rd r).
Proof.
  unfold tables_next, written. intros -> Hw Hr x Hx. destruct (tbl_wr (fsm i s)) as [[a e]|]; cbn.
  - rewrite Hw by done. unfold upd. case_match; [done|]. by apply Hr.
  - subst m'. by apply Hr.
Qed.

Lemma q_tables_next {A} (of_entry : _ -> A) i s rd r : q (tables_next of_entry i s rd r) = mem r rd.
Proof. unfold tables_next. by repeat case_match. Qed.

(** The conditions on the inputs, one by one. *)
Lemma good_control_spec i a :
  good_control i a = true ->
  reset i = false /\ initialize i = false /\ 0 <= conn_id (c_ctl_in i) /\
  match prog a with
  | Free => True
  | Checking c | Done c =>
      conn_id (c_ctl_in i) = conn_id c /\ c_dest_ip (c_ctl_in i) = c_dest_ip c /\
      c_dest_port (c_ctl_in i) = c_dest_port c /\ client_flow_id (c_ctl_in i) = client_flow_id c
  end.
Proof.
  unfold good_control, held_command. rewrite !andb_true_iff, !negb_true_iff, Z.leb_le.
  intros (((-> & ->) & ?) & Hh). do 3 (split; [done|]).
  by destruct (prog a); rewrite ?andb_true_iff, ?Z.eqb_eq in Hh; [|destruct_and!..].
Qed.

Lemma ids_in_range_spec i :
  ids_in_range i = true ->
  (forall r, rpc_in i = Some r -> rpc_pckt.connection_id (rpc_data r) < 2 ^ LCACHE_SIZE) /\
  (forall r, rpc_net_in i = Some r -> rpc_pckt.connection_id (net_data r) < 2 ^ LCACHE_SIZE).
Proof.
  unfold ids_in_range, in_table. rewrite !andb_true_iff. intros [Hr Hr'].
  split; intros r E; rewrite E in *; cbn in *; rewrite ?andb_true_r, ?Z.ltb_lt in *; done.
Qed.

(** The look-up of a packet that comes in is in the output of the RAM one cycle later. *)
Lemma found_net i s a :
  controls s a -> ids_in_range i = true ->
  to_net (q (c_tbl (cm_next i s))) <$> rpc_in i = send_to (conns a) <$> rpc_in i.
Proof.
  intros Hs [Hr _]%ids_in_range_spec. destruct (rpc_in i) as [r|] eqn:E; [|done].
  cbn [fmap option_fmap option_map].
  f_equal. cbn [c_tbl cm_next]. rewrite q_tables_next. unfold rd_addr. rewrite E. cbn [fst fmap option_fmap option_map].
  pose proof (connection_id_nonneg (rpc_data r)). specialize (Hr r eq_refl).
  rewrite look_up_in_range by lia. rewrite (rp_tbl _ _ Hs) by lia. apply to_net_entry.
Qed.

Lemma found_cpu i s a :
  controls s a -> ids_in_range i = true ->
  to_cpu (q (c_tbl_r1 (cm_next i s))) <$> rpc_net_in i = deliver_to (conns a) <$> rpc_net_in i.
Proof.
  intros Hs [_ Hr]%ids_in_range_spec. destruct (rpc_net_in i) as [r|] eqn:E; [|done].
  cbn [fmap option_fmap option_map].
  f_equal. cbn [c_tbl_r1 cm_next]. rewrite q_tables_next. unfold rd_addr. rewrite E. cbn [snd fmap option_fmap option_map].
  pose proof (connection_id_nonneg (net_data r)). specialize (Hr r eq_refl).
  rewrite look_up_in_range by lia. rewrite (rp_tbl_r1 _ _ Hs) by lia. apply to_cpu_entry.
Qed.

(** Packets in range are errors only when they miss. *)
Lemma path_error_missed i s a :
  represents s a -> ids_in_range i = true -> path_error i s = missed (net_found a) || missed (cpu_found a).
Proof.
  intros Hs [H1 H2]%andb_prop.
  unfold path_error. rewrite <- (rp_net _ _ Hs), <- (rp_cpu _ _ Hs).
  destruct (rpc_in i), (rpc_net_in i); cbn in *; rewrite ?andb_true_r in *; rewrite ?H1, ?H2; cbn;
    unfold to_net, to_cpu; destruct (rpc_in_1d s), (rpc_net_in_1d s); cbn; by repeat case_match.
Qed.

(** The state machine follows the reference. *)
Lemma fsm_follows i s a :
  controls s a -> good_control i a = true ->
  written i s (conns a) (conns (reg_next i a)) /\
  same_phase (prog (reg_next i a)) (conns (reg_next i a)) (cm_next i s) /\
  status_next i s = (last_out (reg_next i a)).1.1.
Proof.
  intros Hs (Hrst & Hin & Hid & Hh)%good_control_spec. destruct Hs as [[Hrdy Hni] _ _ Hv Hp _].
  unfold written, status_next. cbn [conns prog last_out reg_next fst]. unfold command. destruct (prog a) as [|c|c]; cbn [same_phase] in Hp, Hh.
  - assert (q (c_tbl_valid (cm_next i s)) = mem (c_tbl_valid s) (c_st_tbl_rd_addr (fsm i s))) as Eq
      by apply q_tables_next.
    unfold same_phase. revert Eq. cbn [c_ctl_state cm_next]. rewrite Hrst.
    unfold fsm. rewrite Hp, Hrdy. cbn [andb]. destruct (enable (c_ctl_in i)); cbn; [|by rewrite ?andb_false_r].
    destruct (in_table (conn_id (c_ctl_in i))) eqn:Er; cbn; [|done]. intros ->.
    apply Z.ltb_lt in Er. rewrite wrap_small, Hv by done. done.
  - destruct Hp as (Hst & Hc & Hq). destruct Hh as (E1 & E2 & E3 & E4).
    unfold same_phase. cbn [c_ctl_state cm_next]. rewrite Hrst. unfold fsm, execute.
    rewrite Hst. destruct (open c) eqn:Eo; rewrite Hq, ?E1, ?E2, ?E3, ?E4; destruct (conns a !! conn_id c) eqn:El; cbn.
    all: rewrite ?E1, ?Eo; split; [|done]; try done.
    + intros x Hx. rewrite wrap_small by done. destruct (Z.eqb_spec x (conn_id c)) as [->|].
      * by rewrite lookup_insert_eq.
      * by rewrite lookup_insert_ne by done.
    + intros x Hx. rewrite wrap_small by done. destruct (Z.eqb_spec x (conn_id c)) as [->|].
      * by rewrite lookup_delete_eq.
      * by rewrite lookup_delete_ne by done.
  - unfold same_phase, fsm. cbn [c_ctl_state cm_next]. rewrite Hrst. unfold fsm. rewrite Hp. by destruct (open c).
Qed.

Lemma controls_step i s a :
  controls s a -> good_control i a = true -> controls (cm_next i s) (reg_next i a).
Proof.
  intros Hs Hi. destruct (fsm_follows i s a Hs Hi) as (Hw & Hp & Est).
  pose proof (good_control_spec i a Hi) as (Hrst & Hin & _). destruct (rp_ready _ _ Hs) as [Hrdy Hni].
  constructor; try (apply (tables_next_holds _ _ _ _ _ (conns a)); [done|done|apply Hs]).
  - cbn. by rewrite Hrst, Hrdy, Hni, Hin.
  - exact Hp.
  - cbn [r_out cm_next]. by rewrite Hrst.
Qed.

#[global] Instance rtl_implements : Implements rtl reference good_inputs represents.
Proof.
  split.
  - intros i s a Hs [Hi Hids]%andb_prop. pose proof (rp_controls _ _ Hs) as Hct.
    destruct (fsm_follows i s a Hct Hi) as (_ & _ & Est). pose proof (good_control_spec i a Hi) as (Hrst & _).
    constructor.
    + by apply controls_step.
    + by apply found_net.
    + by apply found_cpu.
    + cbn [rpc_path_error cm_next rtl next failed reference reg_next].
      by rewrite Hrst, (path_error_missed i s a Hs Hids), (rp_error _ _ Hs), orb_assoc.
    + cbn [r_out cm_next rtl next last_out reference reg_next] in *. rewrite Hrst, Est.
      rewrite <- (rp_net _ _ Hs), <- (rp_cpu _ _ Hs). by destruct (rpc_in_1d s), (rpc_net_in_1d s).
  - intros s a Hs. cbn. unfold cm_out, reg_out. rewrite (rp_out _ _ Hs), (rp_error _ _ Hs).
    destruct (rp_ready _ _ (rp_controls _ _ Hs)) as [-> _]. by destruct (last_out a) as [[]].
Qed.

(** ** Initialisation *)
Definition no_traffic (i : inputs) : Prop := rpc_in i = None /\ rpc_net_in i = None.
Definition quiet (i : inputs) : Prop := reset i = false /\ enable (c_ctl_in i) = false /\ no_traffic i.

Definition empty_registry : registry :=
  {| conns := ∅; prog := Free; net_found := None; cpu_found := None; failed := false; last_out := (None, None, None) |}.

(** While the table is being cleared: entries below the address are zero. *)
Record clearing (n : Z) (s : regs) : Prop := {
  cl_init : ct_init s = true /\ ct_initialized s = false /\ ct_init_addr s = n;
  cl_idle : c_ctl_state s = cCtlIdle;
  cl_tbl x : 0 <= x < n -> mem (c_tbl s) x = zero_entry /\ mem (c_tbl_r1 s) x = zero_entry /\ mem (c_tbl_valid s) x = false
}.

(** No packet is in the pipeline. *)
Definition no_packet (s : regs) : Prop := rpc_in_1d s = None /\ rpc_net_in_1d s = None /\ rpc_path_error s = false.

Lemma cleared_below {A} (f : Z -> A) d n x :
  (forall x, 0 <= x < n -> f x = d) -> 0 <= x < n + 1 -> upd f n d x = d.
Proof. intros Hf Hx. unfold upd. case_match eqn:E; [done|]. apply Z.eqb_neq in E. apply Hf. lia. Qed.

Lemma clearing_tables n s i :
  clearing n s ->
  forall x, 0 <= x < n + 1 -> mem (c_tbl (cm_next i s)) x = zero_entry /\
    mem (c_tbl_r1 (cm_next i s)) x = zero_entry /\ mem (c_tbl_valid (cm_next i s)) x = false.
Proof.
  intros [(Hi & _ & Ha) _ Ht] x Hx. cbn [c_tbl c_tbl_r1 c_tbl_valid cm_next]. unfold tables_next. rewrite Hi, Ha. cbn.
  split_and!; apply cleared_below; try done; intros y Hy; by apply Ht.
Qed.

Lemma no_packet_next i s :
  no_traffic i -> reset i = true \/ no_packet s -> no_packet (cm_next i s).
Proof.
  intros [H1 H2] Hs. unfold no_packet. cbn. rewrite H1, H2. split_and!; [done|done|].
  destruct (reset i); [done|]. destruct Hs as [?|(E1 & E2 & E3)]; [done|]. unfold path_error. by rewrite H1, H2, E1, E2, E3.
Qed.

Lemma clearing_step n s i :
  n + 1 < 2 ^ LCACHE_SIZE -> 0 <= n -> reset i = false -> clearing n s -> clearing (n + 1) (cm_next i s).
Proof.
  intros Hn H0 Hr Hc. pose proof (clearing_tables n s i Hc) as Htab.
  destruct Hc as [(Hi & Hn' & Ha) Hst _]. constructor; [| |done].
  - cbn. rewrite Hr, Hi, Hn', Ha. rewrite (proj2 (Z.eqb_neq n _)) by lia. cbn.
    by rewrite wrap_small by (unfold in_width; lia).
  - cbn. unfold fsm. by rewrite Hr, Hst, Hn'.
Qed.

Lemma clearing_run n s idle :
  0 <= n -> n + Z.of_nat (length idle) < 2 ^ LCACHE_SIZE -> Forall quiet idle ->
  clearing n s -> no_packet s -> clearing (n + Z.of_nat (length idle)) (final rtl idle s) /\ no_packet (final rtl idle s).
Proof.
  intros Hn Hl Hq. revert n s Hn Hl. induction Hq as [|i idle (Hr & He & Ht) _ IH]; intros n s Hn Hl Hc Hp; cbn in *.
  { by rewrite Z.add_0_r. }
  replace (n + Z.of_nat (S (length idle))) with ((n + 1) + Z.of_nat (length idle)) by lia.
  apply IH; [lia|lia| |].
  - apply clearing_step; [lia|done|done|done].
  - apply no_packet_next; auto.
Qed.

(** The last cycle of the initialisation. *)
Lemma clearing_ends s i :
  reset i = false -> clearing (2 ^ LCACHE_SIZE - 1) s -> controls (cm_next i s) empty_registry.
Proof.
  intros Hr Hc. pose proof (clearing_tables _ s i Hc) as Htab.
  destruct Hc as [(Hi & Hn' & Ha) Hst _]. rewrite Z.sub_add in Htab.
  constructor; try (intros x Hx; cbn [conns empty_registry]; rewrite lookup_empty; cbn; by apply Htab).
  - cbn. rewrite Hr, Hi, Ha, Z.eqb_refl. split; [by rewrite orb_true_r|done].
  - cbn. unfold fsm. by rewrite Hr, Hst, Hn'.
  - cbn. unfold status_next. by rewrite Hr, Hst, Hn'.
Qed.

Lemma clearing_ends_quiet s i :
  reset i = false -> no_traffic i -> no_packet s -> clearing (2 ^ LCACHE_SIZE - 1) s -> represents (cm_next i s) empty_registry.
Proof.
  intros Hr Ht Hp Hc. pose proof (no_packet_next i s Ht (or_intror Hp)) as (E1 & E2 & E3).
  pose proof (clearing_ends s i Hr Hc) as Hct. constructor; [done|by rewrite E1|by rewrite E2|done|].
  pose proof (rp_status _ _ Hct) as Hst. revert Hst. cbn. rewrite Hr. destruct Hp as (-> & -> & _). cbn. by intros ->.
Qed.

(** After a reset, and when the initialisation starts. *)
Record dormant (s : regs) : Prop := {
  dm_init : ct_init s = false /\ ct_initialized s = false /\ ct_init_addr s = 0;
  dm_idle : c_ctl_state s = cCtlIdle;
  dm_status : (r_out s).1.1 = None
}.

Lemma reset_dormant r s : reset r = true -> dormant (cm_next r s).
Proof. intros Hr. constructor; cbn; by rewrite Hr. Qed.

Lemma dormant_step i s : reset i = false -> initialize i = false -> dormant s -> dormant (cm_next i s).
Proof.
  intros Hr Hi [(H1 & H2 & H3) H4 _]. constructor; cbn.
  - by rewrite Hr, Hi, H1, H2, H3.
  - unfold fsm. by rewrite Hr, H4, H2.
  - unfold status_next. by rewrite Hr, H4, H2.
Qed.

Lemma clearing_starts i s : reset i = false -> initialize i = true -> dormant s -> clearing 0 (cm_next i s).
Proof.
  intros Hr Hi [(H1 & H2 & H3) H4 _]. constructor; [| |lia]; cbn.
  - by rewrite Hr, Hi, H1, H2, H3.
  - unfold fsm. by rewrite Hr, H4, H2.
Qed.

Lemma initialised s r i idle :
  0 <= LCACHE_SIZE -> reset r = true -> no_traffic r -> quiet i -> initialize i = true ->
  Forall (fun j => quiet j /\ initialize j = false) idle -> Z.of_nat (length idle) = 2 ^ LCACHE_SIZE ->
  represents (final rtl (r :: i :: idle) s) empty_registry.
Proof.
  intros HL Hr Ht (Hi & _ & Hti) Hini Hq Hlen. destruct idle as [|j idle' _] using rev_ind; [cbn in Hlen; lia|].
  rewrite length_app in Hlen. cbn in Hlen. apply Forall_app in Hq as [Hq [[(Hj & _ & Htj) Hj'] _]%Forall_cons].
  replace (r :: i :: idle' ++ [j]) with ((r :: i :: idle') ++ [j]) by done. rewrite final_app. cbn [final].
  assert (clearing (0 + Z.of_nat (length idle')) (final rtl idle' (cm_next i (cm_next r s))) /\
          no_packet (final rtl idle' (cm_next i (cm_next r s)))) as [Hc Hp].
  { apply clearing_run; [lia|lia| | |].
    - eapply Forall_impl; [exact Hq|]. by intros k [].
    - apply clearing_starts; [done|done|]. by apply reset_dormant.
    - apply no_packet_next; [done|]. right. apply no_packet_next; auto. }
  apply clearing_ends_quiet; [done|done|done|]. by replace (2 ^ LCACHE_SIZE - 1) with (0 + Z.of_nat (length idle')) by lia.
Qed.
End rtl.
End connection_manager.

(** ** The theorems *)
Import connection_manager.


(** A witness: connection 3 is opened, a packet for it goes out and its answer comes in,
    the connection is opened again and closed. *)
Definition no_command : ConnectionControlIf :=
  {| conn_id := 0; c_dest_ip := 0; c_dest_port := 0; client_flow_id := 0; open := false; enable := false |}.
Definition idle_in : inputs :=
  {| reset := false; initialize := false; c_ctl_in := no_command; rpc_in := None; rpc_net_in := None |}.
Definition command_3 (o e : bool) : inputs :=
  {| reset := false; initialize := false; rpc_in := None; rpc_net_in := None;
     c_ctl_in := {| conn_id := 3; c_dest_ip := 167772161; c_dest_port := 3136; client_flow_id := 1; open := o; enable := e |} |}.
Definition packet_for (id : Z) : Z := id * 2 ^ 88 + 4.
Definition cpu_sends (id : Z) : inputs :=
  {| reset := false; initialize := false; c_ctl_in := no_command;
     rpc_in := Some {| flow_id := 0; rpc_data := packet_for id |}; rpc_net_in := None |}.
Definition net_sends (id : Z) : inputs :=
  {| reset := false; initialize := false; c_ctl_in := no_command; rpc_in := None;
     rpc_net_in := Some {| net_addr := {| source_ip := 0; source_port := 0; dest_ip := 0; dest_port := 0 |};
                           net_data := packet_for id |} |}.
Definition power_up (e : ConnectionTableEntry) : regs :=
  {| ct_initialized := true; ct_init := true; ct_init_addr := 1; c_tbl := {| mem _ := e; q := e |};
     c_tbl_r1 := {| mem _ := e; q := e |}; c_tbl_valid := {| mem _ := true; q := true |};
     c_ctl_state := cCtlClose; c_tbl_rd_addr := (1, 1); rpc_in_1d := None; rpc_net_in_1d := None;
     rpc_path_error := true; r_out := (None, None, None) |}.
Definition session : list inputs :=
  [command_3 true true; command_3 true false; command_3 true false; cpu_sends 3; net_sends 3; idle_in;
   command_3 true true; command_3 true false; command_3 false true; command_3 false false; command_3 false false; idle_in].
Definition reset_in : inputs :=
  {| reset := true; initialize := false; c_ctl_in := no_command; rpc_in := None; rpc_net_in := None |}.
Definition init_in : inputs :=
  {| reset := false; initialize := true; c_ctl_in := no_command; rpc_in := None; rpc_net_in := None |}.


(** C32. A packet whose connection number is out of range is not dropped: the look-up keeps the
    address of the packet before it, and the packet is sent to the peer of that other
    connection. *)
Theorem stray_packet_forwarded (LCACHE_SIZE : Z) (s : regs) (a : registry) (i0 i1 i2 : inputs) (r0 r1 : RpcIf)
    (k : connection) (Hs : represents LCACHE_SIZE s a) (Hi0 : good_inputs LCACHE_SIZE i0 a = true)
    (Hr0 : rpc_in i0 = Some r0) (Hr1 : rpc_in i1 = Some r1) (Hi2 : reset i2 = false)
    (Hopen : conns (next (reference LCACHE_SIZE) i0 a) !! rpc_pckt.connection_id (rpc_data r0) = Some k)
    (Hstray : 2 ^ LCACHE_SIZE <= rpc_pckt.connection_id (rpc_data r1)) :
  rpc_net_out (out (rtl LCACHE_SIZE) (final (rtl LCACHE_SIZE) [i0; i1; i2] s)) =
    Some {| net_addr := {| source_ip := 0; source_port := 0; dest_ip := to_ip k; dest_port := to_port k |};
            net_data := rpc_data r1 |}.
Proof.
  assert (represents LCACHE_SIZE (next (rtl LCACHE_SIZE) i0 s) (next (reference LCACHE_SIZE) i0 a)) as H1
    by by apply impl_step.
  pose proof (proj2 (andb_prop _ _ Hi0)) as [Hr _]%ids_in_range_spec. specialize (Hr r0 Hr0).
  pose proof (connection_id_nonneg (rpc_data r0)) as Hn.
  assert ((c_tbl_rd_addr (next (rtl LCACHE_SIZE) i0 s)).1 = rpc_pckt.connection_id (rpc_data r0)) as Ea.
  { cbn. rewrite Hr0. cbn. apply look_up_in_range. lia. }
  cbn [final]. revert H1 Ea. generalize (next (rtl LCACHE_SIZE) i0 s) as s1. intros s1 H1 Ea.
  assert (q (c_tbl (next (rtl LCACHE_SIZE) i1 s1)) = entry_of (Some k)) as Eq.
  { cbn [next rtl c_tbl cm_next]. rewrite q_tables_next. unfold rd_addr. rewrite Hr1.
    cbn [fst fmap option_fmap option_map look_up]. unfold in_table. rewrite (proj2 (Z.ltb_ge _ _)) by done.
    rewrite Ea, (rp_tbl _ _ _ (rp_controls _ _ _ H1)) by lia. by rewrite Hopen. }
  assert (rpc_in_1d (next (rtl LCACHE_SIZE) i1 s1) = Some r1) as E1 by done.
  revert Eq E1. generalize (next (rtl LCACHE_SIZE) i1 s1) as s2. intros s2 Eq E1.
  cbn. unfold cm_out, cm_next. cbn. by rewrite Hi2, E1, Eq.
Qed.

(** With connection 3 open, a packet for connection 200 goes to the peer of connection 3. *)
Definition with_3 : registry :=
  {| conns := {[ 3 := {| to_ip := 167772161; to_port := 3136; to_flow := 1 |} ]}; prog := Free;
     net_found := None; cpu_found := None; failed := false; last_out := (None, None, None) |}.
Definition table_3 : regs :=
  let tbl x := entry_of (conns with_3 !! x) in
  {| ct_initialized := true; ct_init := false; ct_init_addr := 0; c_tbl := {| mem := tbl; q := tbl 0 |};
     c_tbl_r1 := {| mem := tbl; q := tbl 0 |}; c_tbl_valid := {| mem x := e_open (tbl x); q := false |};
     c_ctl_state := cCtlIdle; c_tbl_rd_addr := (0, 0); rpc_in_1d := None; rpc_net_in_1d := None;
     rpc_path_error := false; r_out := (None, None, None) |}.

Lemma stray_packet_forwarded_witness :
  rpc_net_out (out (rtl 4) (final (rtl 4) [cpu_sends 3; cpu_sends 200; idle_in] table_3)) =
    Some {| net_addr := {| source_ip := 0; source_port := 0; dest_ip := 167772161; dest_port := 3136 |};
            net_data := packet_for 200 |}.
Proof.
  apply (stray_packet_forwarded 4 table_3 with_3 (cpu_sends 3) (cpu_sends 200) idle_in
           {| flow_id := 0; rpc_data := packet_for 3 |} {| flow_id := 0; rpc_data := packet_for 200 |}
           {| to_ip := 167772161; to_port := 3136; to_flow := 1 |}); try reflexivity.
  - by constructor.
  - vm_compute. discriminate.
Defined.
