(* ===== verification/HwRpc.v ===== *)
(** * The RPC unit of the NIC

    src/hw/rtl/rpc.sv: the parser of connection setup frames, the connection manager, and
    the registers between it and the network.  The unit is defined over the circuit of the
    connection manager, so that [rpc_rtl] has the RAMs of connection_manager.sv and
    [rpc_reference] the finite map in their place. *)

From S2P Require Import Prelude HwBase HwDefs HwConn.

Module rpc.

(** The commands of a frame. *)
Definition setUpConnId : Z := 0.
Definition setUpOpen : Z := 1.
Definition setUpDestIPv4 : Z := 2.
Definition setUpDestPort : Z := 3.
Definition setUpClientFlowId : Z := 4.
Definition setUpEnable : Z := 5.

(** The parser: the control interface that it fills, which parameters have been set, and
    its error flag. *)
Record parser := {
  c_ctl_if : ConnectionControlIf;
  sv0 : bool; sv1 : bool; sv2 : bool; sv3 : bool; sv4 : bool;    (* setup_vector *)
  conn_setup_parsing_error : bool
}.

Definition set_ctl (c : ConnectionControlIf) (p : parser) : parser :=
  {| c_ctl_if := c; sv0 := sv0 p; sv1 := sv1 p; sv2 := sv2 p; sv3 := sv3 p; sv4 := sv4 p;
     conn_setup_parsing_error := conn_setup_parsing_error p |}.

Definition with_enable (b : bool) (c : ConnectionControlIf) : ConnectionControlIf :=
  {| conn_id := conn_id c; c_dest_ip := c_dest_ip c; c_dest_port := c_dest_port c;
     client_flow_id := client_flow_id c; open := open c; enable := b |}.

(** The loops that clear the vector run over its first four bits. *)
Definition clear_vector (p : parser) : parser :=
  {| c_ctl_if := c_ctl_if p; sv0 := false; sv1 := false; sv2 := false; sv3 := false; sv4 := sv4 p;
     conn_setup_parsing_error := conn_setup_parsing_error p |}.

Definition parse_fails (p : parser) : parser :=
  {| c_ctl_if := c_ctl_if p; sv0 := sv0 p; sv1 := sv1 p; sv2 := sv2 p; sv3 := sv3 p; sv4 := sv4 p;
     conn_setup_parsing_error := true |}.

(** A frame, on a parser whose enable signal is low; values are cut to the width of their
    member. *)
Definition parse (frame : Z) (p : parser) : parser :=
  let d := frame_data frame in
  let k := frame_cmd frame in
  let c := c_ctl_if p in
  let e := conn_setup_parsing_error p in
  if k =? setUpConnId then
    {| c_ctl_if := {| conn_id := wrap LMAX_NUM_OF_CONNECTIONS d; c_dest_ip := c_dest_ip c; c_dest_port := c_dest_port c;
                      client_flow_id := client_flow_id c; open := open c; enable := enable c |};
       sv0 := true; sv1 := sv1 p; sv2 := sv2 p; sv3 := sv3 p; sv4 := sv4 p; conn_setup_parsing_error := e |}
  else if k =? setUpOpen then
    {| c_ctl_if := {| conn_id := conn_id c; c_dest_ip := c_dest_ip c; c_dest_port := c_dest_port c;
                      client_flow_id := client_flow_id c; open := Z.odd d; enable := enable c |};
       sv0 := sv0 p; sv1 := true; sv2 := sv2 p; sv3 := sv3 p; sv4 := sv4 p; conn_setup_parsing_error := e |}
  else if k =? setUpDestIPv4 then
    {| c_ctl_if := {| conn_id := conn_id c; c_dest_ip := d; c_dest_port := c_dest_port c;
                      client_flow_id := client_flow_id c; open := open c; enable := enable c |};
       sv0 := sv0 p; sv1 := sv1 p; sv2 := true; sv3 := sv3 p; sv4 := sv4 p; conn_setup_parsing_error := e |}
  else if k =? setUpDestPort then
    {| c_ctl_if := {| conn_id := conn_id c; c_dest_ip := c_dest_ip c; c_dest_port := u16 d;
                      client_flow_id := client_flow_id c; open := open c; enable := enable c |};
       sv0 := sv0 p; sv1 := sv1 p; sv2 := sv2 p; sv3 := true; sv4 := sv4 p; conn_setup_parsing_error := e |}
  else if k =? setUpClientFlowId then
    {| c_ctl_if := {| conn_id := conn_id c; c_dest_ip := c_dest_ip c; c_dest_port := c_dest_port c;
                      client_flow_id := wrap LMAX_NUM_OF_FLOWS d; open := open c; enable := enable c |};
       sv0 := sv0 p; sv1 := sv1 p; sv2 := sv2 p; sv3 := sv3 p; sv4 := true; conn_setup_parsing_error := e |}
  else if k =? setUpEnable then
    if if open c then sv0 p && sv1 p && sv2 p && sv3 p && sv4 p else sv0 p
    then clear_vector (set_ctl (with_enable true c) p)
    else parse_fails p
  else parse_fails p.

Definition parser_next (reset : bool) (frame : option Z) (p : parser) : parser :=
  let p' := set_ctl (with_enable false (c_ctl_if p)) p in
  if reset then
    {| c_ctl_if := c_ctl_if p'; sv0 := false; sv1 := false; sv2 := false; sv3 := false; sv4 := sv4 p;
       conn_setup_parsing_error := false |}
  else match frame with Some f => parse f p' | None => p' end.

(** ** The unit *)
Record inputs := {
  reset : bool;
  initialize : bool;
  conn_setup : option Z;             (* a frame *)
  rpc_in : option RpcIf;
  network_rx_in : option NetRpc
}.

Record outs := {
  conn_setup_status_out : option conn_status;
  rpc_out : option RpcIf;
  network_tx_out : option NetRpc;
  initialized : bool;
  error : bool
}.

Record regs (S : Type) := {
  ctl : parser;
  c_manager : S;
  tx_reg : option NetRpc;            (* network_tx_out *)
  ct_net_in : option NetRpc
}.
Arguments ctl {S} r.
Arguments c_manager {S} r.
Arguments tx_reg {S} r.
Arguments ct_net_in {S} r.

Section unit.
Context {S : Type} (cm : circuit S connection_manager.inputs connection_manager.outs).

Definition cm_inputs (i : inputs) (s : regs S) : connection_manager.inputs :=
  {| connection_manager.reset := reset i; connection_manager.initialize := initialize i;
     connection_manager.c_ctl_in := c_ctl_if (ctl s); connection_manager.rpc_in := rpc_in i;
     connection_manager.rpc_net_in := ct_net_in s |}.

Definition rpc_next (i : inputs) (s : regs S) : regs S :=
  {| ctl := parser_next (reset i) (conn_setup i) (ctl s);
     c_manager := next cm (cm_inputs i s) (c_manager s);
     tx_reg := if reset i then None else connection_manager.rpc_net_out (out cm (c_manager s));
     ct_net_in := if reset i then None else network_rx_in i |}.

Definition rpc_outs (s : regs S) : outs :=
  let o := out cm (c_manager s) in
  {| conn_setup_status_out := connection_manager.c_ctl_status_out o;
     rpc_out := connection_manager.rpc_out o;
     network_tx_out := tx_reg s;
     initialized := connection_manager.initialized o;
     error := conn_setup_parsing_error (ctl s) || connection_manager.error o |}.

Definition unit : circuit (regs S) inputs outs := {| next := rpc_next; out := rpc_outs |}.
End unit.

Definition rpc_rtl : circuit (regs connection_manager.regs) inputs outs := unit (connection_manager.rtl LCONN_TBL_SIZE).
Definition rpc_reference : circuit (regs connection_manager.registry) inputs outs :=
  unit (connection_manager.reference LCONN_TBL_SIZE).

(** ** The unit over the RAMs implements the unit over the map

    The environment must not send a frame while a command that it has enabled is being
    executed; connection numbers of packets are in range. *)
Definition checking (p : connection_manager.progress) : bool :=
  match p with connection_manager.Checking _ => true | _ => false end.

Definition id_in_range (x : Z) : bool := rpc_pckt.connection_id x <? 2 ^ LCONN_TBL_SIZE.

Definition good_control (i : inputs) (s : regs connection_manager.registry) : bool :=
  negb (reset i) && negb (initialize i) &&
  (negb (enable (c_ctl_if (ctl s)) || checking (connection_manager.prog (c_manager s))) || bool_decide (conn_setup i = None)).

Definition good_inputs (i : inputs) (s : regs connection_manager.registry) : bool :=
  good_control i s && forallb id_in_range (option_list (rpc_data <$> rpc_in i)) &&
  forallb id_in_range (option_list (net_data <$> network_rx_in i)).

Definition same_command (c d : ConnectionControlIf) : Prop := with_enable false c = with_enable false d.

(** While a command is under way, the interface keeps it. *)
Definition command_kept (a : regs connection_manager.registry) : Prop :=
  match connection_manager.prog (c_manager a) with
  | connection_manager.Free => True
  | connection_manager.Checking c | connection_manager.Done c => same_command (c_ctl_if (ctl a)) c
  end.

(** Parser, tables and command, whatever the traffic. *)
Record controls (s : regs connection_manager.regs) (a : regs connection_manager.registry) : Prop := {
  rp_ctl : ctl s = ctl a;
  rp_cm : connection_manager.controls LCONN_TBL_SIZE (c_manager s) (c_manager a);
  rp_id : 0 <= conn_id (c_ctl_if (ctl a));
  rp_command : command_kept a
}.

Record represents (s : regs connection_manager.regs) (a : regs connection_manager.registry) : Prop := {
  rp_controls : controls s a;
  rp_data : connection_manager.represents LCONN_TBL_SIZE (c_manager s) (c_manager a);
  rp_tx : tx_reg s = tx_reg a;
  rp_net_in : ct_net_in s = ct_net_in a;
  rp_ids : forallb id_in_range (option_list (net_data <$> ct_net_in a)) = true
}.

Lemma parser_id reset frame p :
  0 <= conn_id (c_ctl_if p) -> 0 <= conn_id (c_ctl_if (parser_next reset frame p)).
Proof.
  intros Hp. unfold parser_next. destruct reset; [done|]. destruct frame as [f|]; [|done]. unfold parse.
  repeat case_match; cbn; try done. apply wrap_range. done.
Qed.

Lemma parser_idle p : same_command (c_ctl_if (parser_next false None p)) (c_ctl_if p).
Proof. done. Qed.

Lemma cm_good i a s :
  controls s a -> good_control i a = true ->
  connection_manager.good_control (cm_inputs i s) (c_manager a) = true.
Proof.
  intros Hs Hi. unfold good_control in Hi. rewrite !andb_true_iff in Hi. destruct Hi as ((Hr & Hn) & _).
  unfold connection_manager.good_control. rewrite !andb_true_iff. split_and!; [done|done| |].
  - apply Z.leb_le. cbn. rewrite (rp_ctl _ _ Hs). apply Hs.
  - pose proof (rp_command _ _ Hs) as Hc. unfold command_kept, connection_manager.held_command, same_command, with_enable in *.
    cbn. rewrite (rp_ctl _ _ Hs). case_match; [done|..]; injection Hc as -> -> -> -> _; by rewrite !Z.eqb_refl.
Qed.

Lemma command_kept_next i a : good_control i a = true -> command_kept a -> command_kept (next rpc_reference i a).
Proof.
  intros Hi Hc. unfold good_control in Hi. rewrite !andb_true_iff, negb_true_iff in Hi. destruct Hi as ((Hr & Hn) & Hq).
  unfold command_kept in *. cbn. unfold connection_manager.command. rewrite Hr.
  destruct (connection_manager.prog (c_manager a)) as [|c|c]; cbn [checking] in *.
  - cbn [connection_manager.c_ctl_in cm_inputs]. destruct (enable (c_ctl_if (ctl a))); cbn; [|done].
    rewrite orb_true_l in Hq. cbn in Hq. apply bool_decide_eq_true in Hq. rewrite Hq.
    destruct (connection_manager.in_table _ _); cbn; [|done]. apply parser_idle.
  - rewrite orb_true_r in Hq. cbn in Hq. apply bool_decide_eq_true in Hq. rewrite Hq.
    destruct (connection_manager.execute c _); cbn; [done|]. etrans; [apply parser_idle|done].
  - done.
Qed.

(** The map and the progress of the reference do not depend on the traffic. *)
Lemma controls_next i s a :
  controls s a -> good_control i a = true -> controls (next rpc_rtl i s) (next rpc_reference i a).
Proof.
  intros Hs Hi. pose proof (cm_good i a s Hs Hi) as Hg. constructor.
  - cbn. by rewrite (rp_ctl _ _ Hs).
  - pose proof (connection_manager.controls_step LCONN_TBL_SIZE _ _ _ (rp_cm _ _ Hs) Hg) as [H1 H2 H3 H4 H5 H6].
    cbn in H2, H3, H4, H5, H6. rewrite (rp_ctl _ _ Hs) in H2, H3, H4, H5, H6.
    by constructor.
  - cbn. by apply parser_id, Hs.
  - by apply command_kept_next, Hs.
Qed.

#[global] Instance rpc_implements : Implements rpc_rtl rpc_reference good_inputs represents.
Proof.
  split.
  - intros i s a Hs Hi. unfold good_inputs in Hi. rewrite !andb_true_iff in Hi. destruct Hi as ((Hc & Hin) & Hnet).
    pose proof (cm_good i a s (rp_controls _ _ Hs) Hc) as Hg.
    pose proof Hc as Hc'. unfold good_control in Hc'. rewrite !andb_true_iff, negb_true_iff in Hc'. destruct Hc' as ((Hr & _) & _).
    assert (cm_inputs i s = cm_inputs i a) as Ei
      by (unfold cm_inputs; by rewrite (rp_ctl _ _ (rp_controls _ _ Hs)), (rp_net_in _ _ Hs)).
    constructor.
    + by apply controls_next; [apply Hs|].
    + cbn [c_manager next rpc_rtl rpc_reference unit rpc_next]. rewrite <- Ei. apply impl_step; [apply Hs|].
      unfold connection_manager.good_inputs, connection_manager.ids_in_range. rewrite Hg. cbn.
      rewrite (rp_net_in _ _ Hs). pose proof (rp_ids _ _ Hs) as Hids.
      destruct (rpc_in i), (ct_net_in a); cbn in *; unfold id_in_range, connection_manager.in_table in *; by rewrite ?Hin, ?Hids.
    + cbn [tx_reg next rpc_rtl rpc_reference unit rpc_next]. by rewrite (impl_out _ _ (rp_data _ _ Hs)).
    + done.
    + cbn. by rewrite Hr.
  - intros s a Hs. cbn [out rpc_rtl rpc_reference unit]. unfold rpc_outs.
    by rewrite (impl_out _ _ (rp_data _ _ Hs)), (rp_ctl _ _ (rp_controls _ _ Hs)), (rp_tx _ _ Hs).
Qed.

(** ** The control state, without the traffic *)
Definition rpc_at (s : regs connection_manager.regs) (p : parser) (m : gmap Z connection_manager.connection)
    (pg : connection_manager.progress) (st : option conn_status) : Prop :=
  exists a, controls s a /\ ctl a = p /\ connection_manager.conns (c_manager a) = m /\
    connection_manager.prog (c_manager a) = pg /\ (connection_manager.last_out (c_manager a)).1.1 = st.

Lemma rpc_at_next i s p m pg st :
  rpc_at s p m pg st -> reset i = false -> initialize i = false ->
  (enable (c_ctl_if p) || checking pg = true -> conn_setup i = None) ->
  let r := connection_manager.command LCONN_TBL_SIZE (c_ctl_if p) m pg in
  rpc_at (next rpc_rtl i s) (parser_next false (conn_setup i) p) r.1.1 r.1.2 r.2.
Proof.
  intros (a & Ha & <- & <- & <- & _) Hr Hn Hq. exists (next rpc_reference i a). split.
  - apply controls_next; [done|]. unfold good_control. rewrite Hr, Hn. cbn [negb andb].
    destruct (enable (c_ctl_if (ctl a)) || checking (connection_manager.prog (c_manager a))) eqn:E; [|done].
    rewrite Hq by done. done.
  - split_and!; try done. cbn. by rewrite Hr.
Qed.

Lemma rpc_at_status s p m pg st : rpc_at s p m pg st -> conn_setup_status_out (out rpc_rtl s) = st.
Proof.
  intros (a & Ha & _ & _ & _ & <-). rewrite <- (connection_manager.rp_status _ _ _ (rp_cm _ _ Ha)).
  cbn. unfold connection_manager.cm_out. by destruct (connection_manager.r_out (c_manager s)) as [[]].
Qed.
End rpc.
