(* ===== verification/HwNic.v ===== *)
(** * The NIC

    src/hw/rtl/nic.sv: the register file behind MMIO, the FIFOs between the clock domains,
    the RPC unit, the status register and the counters, over any CCI-P layer.  The RPC
    clock has half the frequency of the CCI-P clock and is in phase with it: it rises in
    every second step. *)

From S2P Require Import Prelude HwBase HwDefs HwConn HwRpc.

Module nic.
Section nic.
Context {F : Z -> Type -> Type} `{Dcfifo F}.
Context {SC SR : Type}.
Variable ccip : circuit SC ccip_in ccip_out.
Variable rpcu : circuit SR rpc.inputs rpc.outs.
Variables (NIC_ID SRF_BASE_MMIO_ADDRESS SRF_BASE_MMIO_ADDRESS_AFU_ID afu_id : Z).
Variables (phy_network : bool) (ccip_mode : Z).

Definition RPC_IO_FIFO_LDEPTH : Z := 3.
Definition ccip_clk_hz : Z := 200000000.

(** The address map, in units of 32 bits. *)
Definition addrRegMemTxAddr : Z := SRF_BASE_MMIO_ADDRESS + 0.
Definition addrRegMemRxAddr : Z := SRF_BASE_MMIO_ADDRESS + 2.
Definition addrRegNicStart : Z := SRF_BASE_MMIO_ADDRESS + 4.
Definition addrRegNumOfFlows : Z := SRF_BASE_MMIO_ADDRESS + 6.
Definition addrRegInit : Z := SRF_BASE_MMIO_ADDRESS + 8.
Definition addrRegNicStatus : Z := SRF_BASE_MMIO_ADDRESS + 10.
Definition addrRegCcipRps : Z := SRF_BASE_MMIO_ADDRESS + 12.
Definition addrGetPckCnt : Z := SRF_BASE_MMIO_ADDRESS + 14.
Definition addrPckCnt : Z := SRF_BASE_MMIO_ADDRESS + 16.
Definition addrRegNicMode : Z := SRF_BASE_MMIO_ADDRESS + 18.
Definition addrRxQueueSize : Z := SRF_BASE_MMIO_ADDRESS + 22.
Definition addrTxBatchSize : Z := SRF_BASE_MMIO_ADDRESS + 24.
Definition addrRxBatchSize : Z := SRF_BASE_MMIO_ADDRESS + 26.
Definition addrPollingRate : Z := SRF_BASE_MMIO_ADDRESS + 28.
Definition addrConnSetup : Z := SRF_BASE_MMIO_ADDRESS + 30.
Definition addrConnStatus : Z := SRF_BASE_MMIO_ADDRESS + 32.
Definition addrLB : Z := SRF_BASE_MMIO_ADDRESS + 34.
Definition addrPhyNetAddr : Z := SRF_BASE_MMIO_ADDRESS + 36.
Definition addrIPv4NetAddr : Z := SRF_BASE_MMIO_ADDRESS + 38.
Definition addrNetDropCntRead : Z := SRF_BASE_MMIO_ADDRESS + 40.
Definition addrNetDropCnt : Z := SRF_BASE_MMIO_ADDRESS + 42.
Definition addrTxQueueSize : Z := SRF_BASE_MMIO_ADDRESS + 44.
Definition addrRegDebug_1 : Z := SRF_BASE_MMIO_ADDRESS + 46.

(** The MMIO part of channel c0: the address bits of the header, which are there in every
    cycle, and what the cycle does. *)
Inductive mmio := NoMmio | MmioRead | MmioWrite (data : Z).

Record inputs := {
  reset : bool;
  mmio_address : Z;
  mmio_req : mmio;
  c0_rsp_in : option mem_rsp;
  c0_alm_full : bool;
  c1_alm_full : bool;
  network_rx_in : option NetRpc;
  net_drop_cnt : Z                 (* the counter that the network layer shows *)
}.

(** ** nic_counters *)
Record counters := {
  cnt_in_rpc : Z; cnt_out_rpc : Z; cnt_out_net : Z; cnt_in_net : Z; cnt_pdrop : Z;
  in_rpc_d : bool; out_rpc_d : bool; pdrop_d : bool; out_net_d : bool; in_net_d : bool;
  counter_value_out : Z
}.

Definition count (b : bool) (n : Z) : Z := if b then u64 (n + 1) else n.

(** A counter number above 4 selects no counter; the output is then unspecified, and the
    model keeps it. *)
Definition counters_next (reset rpc_edge in_rpc out_rpc pdrop out_net in_net : bool) (id : Z) (c : counters) : counters :=
  let net {A} (x y z : A) := if rpc_edge then (if reset then x else y) else z in
  {| cnt_in_rpc := if reset then 0 else count (in_rpc_d c) (cnt_in_rpc c);
     cnt_out_rpc := if reset then 0 else count (out_rpc_d c) (cnt_out_rpc c);
     cnt_pdrop := if reset then 0 else count (pdrop_d c) (cnt_pdrop c);
     cnt_out_net := net 0 (count (out_net_d c) (cnt_out_net c)) (cnt_out_net c);
     cnt_in_net := net 0 (count (in_net_d c) (cnt_in_net c)) (cnt_in_net c);
     in_rpc_d := if reset then in_rpc_d c else in_rpc;
     out_rpc_d := if reset then out_rpc_d c else out_rpc;
     pdrop_d := if reset then pdrop_d c else pdrop;
     out_net_d := net (out_net_d c) out_net (out_net_d c);
     in_net_d := net (in_net_d c) in_net (in_net_d c);
     counter_value_out :=
       if reset then 0
       else match id with
            | 0 => cnt_in_rpc c | 1 => cnt_out_rpc c | 2 => cnt_out_net c | 3 => cnt_in_net c | 4 => cnt_pdrop c
            | _ => counter_value_out c
            end |}.

(** ** Registers *)
Record regs := {
  rpc_phase : bool;                               (* the RPC clock rises at the next edge *)
  csr : csrs;
  iRegConnStatus : option conn_status;
  iRegNicStatus : NicStatus;
  mmioRdValid : bool;                             (* sTx.c2 *)
  c2_data : Z;
  rpc_init : pulse_gen;
  fr_to_rpc : channel F RPC_IO_FIFO_LDEPTH Z;
  ccip_to_rpc : channel F RPC_IO_FIFO_LDEPTH RpcIf;
  rpc_to_ccip : channel F RPC_IO_FIFO_LDEPTH RpcIf;
  ccip_ : SC;
  rpc_ : SR;
  pck_counters : counters;
  from_ccip_valid_reg : bool;
  rps_cnt : Z;
  ccip_rps_rate : Z;
  iRegCcipRps : Z
}.

(** ** Writes *)
Definition is_write (i : inputs) (a : Z) : bool :=
  match mmio_req i with MmioWrite _ => mmio_address i =? a | _ => false end.

Definition wdata (i : inputs) : Z := match mmio_req i with MmioWrite d => d | _ => 0 end.

Definition csr_next (i : inputs) (c : csrs) : csrs :=
  let d := wdata i in
  let wr {A} a (v old : A) := if is_write i a then v else old in
  {| iRegMemTxAddr := wr addrRegMemTxAddr (wrap 42 d) (iRegMemTxAddr c);
     iRegMemRxAddr := wr addrRegMemRxAddr (wrap 42 d) (iRegMemRxAddr c);
     iRegNicStart := if reset i then false else wr addrRegNicStart (Z.odd d) (iRegNicStart c);
     iRegNumOfFlows := wr addrRegNumOfFlows (wrap LMAX_NUM_OF_FLOWS (field d 0 LMAX_NUM_OF_FLOWS - 1)) (iRegNumOfFlows c);
     iRegNicInit := if reset i then false else is_write i addrRegInit;
     iRegGetPckCnt := wr addrGetPckCnt (wrap 8 d) (iRegGetPckCnt c);
     iRegRxQueueSize := wr addrRxQueueSize (wrap 3 (field d 0 3 - 1)) (iRegRxQueueSize c);
     iRegTxQueueSize := wr addrTxQueueSize (wrap 9 d) (iRegTxQueueSize c);
     lRegTxBatchSize := wr addrTxBatchSize (wrap LMAX_CCIP_BATCH d) (lRegTxBatchSize c);
     iRegRxBatchSize := wr addrRxBatchSize (wrap 6 d) (iRegRxBatchSize c);
     iRegPollingRate := wr addrPollingRate (wrap 8 d) (iRegPollingRate c);
     iRegConnSetupFrame := wr addrConnSetup (wrap 40 d) (iRegConnSetupFrame c);
     iRegConnSetupFrame_en := if reset i then false else is_write i addrConnSetup;
     iLB := wr addrLB (Z.odd d) (iLB c);
     iRegPhyNetAddr := wr addrPhyNetAddr (wrap 48 d) (iRegPhyNetAddr c);
     iRegIpv4NetAddr := wr addrIPv4NetAddr (wrap 32 d) (iRegIpv4NetAddr c);
     iRegReadNetDropCnt := wr addrNetDropCntRead (wrap 4 d) (iRegReadNetDropCnt c);
     iRegReadNetDropCntValid := if reset i then false else is_write i addrNetDropCntRead |}.

(** ** Reads *)

(** An assignment to the low [n] bits. *)
Definition low_bits (n v old : Z) : Z := wrap n v + 2 ^ n * (old / 2 ^ n).

(** The data register is assigned in every cycle, by the address bits of the header; the
    narrow registers assign its low bits only. *)
Definition c2_data_next (i : inputs) (s : regs) : Z :=
  let a := mmio_address i in
  let afu := SRF_BASE_MMIO_ADDRESS_AFU_ID in
  if a =? afu + 0 then 2 ^ 60 + 2 ^ 40
  else if a =? afu + 2 then field afu_id 0 64
  else if a =? afu + 4 then field afu_id 64 64
  else if a =? afu + 6 then 0
  else if a =? afu + 8 then 0
  else if a =? addrRegNicStatus then low_bits 10 (pack_nic_status (iRegNicStatus s)) (c2_data s)
  else if a =? addrRegCcipRps then low_bits 32 (iRegCcipRps s) (c2_data s)
  else if a =? addrPckCnt then counter_value_out (pck_counters s)
  else if a =? addrRegNicMode then low_bits 3 (pack_nic_mode phy_network ccip_mode) (c2_data s)
  else if a =? addrConnStatus then low_bits 40 (pack_conn_status (iRegConnStatus s)) (c2_data s)
  else if a =? addrNetDropCnt then net_drop_cnt i
  else if a =? addrRegDebug_1 then co_debug (out ccip (ccip_ s))
  else 0.

(** The status of a connection is cleared in every cycle whose header has its address. *)
Definition conn_status_next (i : inputs) (s : regs) : option conn_status :=
  match rpc.conn_setup_status_out (out rpcu (rpc_ s)) with
  | Some st => Some st
  | None => if mmio_address i =? addrConnStatus then None else iRegConnStatus s
  end.

(** ** One cycle of the CCI-P clock *)
Definition from_ccip (s : regs) : option RpcIf := co_rpc (out ccip (ccip_ s)).
Definition from_rpc (s : regs) : option RpcIf := rpc.rpc_out (out rpcu (rpc_ s)).

Definition rpc_inputs (i : inputs) (s : regs) : rpc.inputs :=
  {| rpc.reset := reset i; rpc.initialize := pulse (rpc_init s); rpc.conn_setup := popped (fr_to_rpc s);
     rpc.rpc_in := popped (ccip_to_rpc s); rpc.network_rx_in := network_rx_in i |}.

Definition ccip_inputs (i : inputs) (s : regs) : ccip_in :=
  {| ci_reset := reset i; ci_csr := csr s; c0TxAlmFull := c0_alm_full i; c1TxAlmFull := c1_alm_full i;
     c0_rsp := c0_rsp_in i; ci_rpc_valid := pop_valid (rpc_to_ccip s); ci_rpc := pop_data (rpc_to_ccip s) |}.

Definition status_next (i : inputs) (s : regs) : NicStatus :=
  let co := out ccip (ccip_ s) in
  let ro := out rpcu (rpc_ s) in
  let init := co_initialized co && rpc.initialized ro in
  let rx := packet_loss_detected (ccip_to_rpc s) in
  let tx := packet_loss_detected (rpc_to_ccip s) in
  if reset i then
    {| nic_id := NIC_ID; ready := false; running := false; error := false; err_rpcRxFifoOvf := false;
       err_rpcTxFifoOvf := false; err_ccip := false; err_rpc := false |}
  else
    {| nic_id := NIC_ID; ready := init; running := init && iRegNicStart (csr s);
       err_rpcRxFifoOvf := rx; err_rpcTxFifoOvf := tx; err_ccip := co_error co; err_rpc := rpc.error ro;
       error := rx || tx || co_error co || rpc.error ro |}.

Definition frame_push (s : regs) : option Z :=
  if iRegConnSetupFrame_en (csr s) then Some (iRegConnSetupFrame (csr s)) else None.

Definition some {A} (o : option A) : bool := match o with Some _ => true | None => false end.

Definition nic_next (i : inputs) (s : regs) : regs :=
  let rst := reset i in
  let edge := rpc_phase s in
  let second := rps_cnt s =? ccip_clk_hz in
  {| rpc_phase := negb edge;
     csr := csr_next i (csr s);
     iRegConnStatus := conn_status_next i s;
     iRegNicStatus := status_next i s;
     mmioRdValid := if rst then false else match mmio_req i with MmioRead => true | _ => false end;
     c2_data := c2_data_next i s;
     rpc_init := pulse_next 2 rst (iRegNicInit (csr s)) (rpc_init s);
     fr_to_rpc := channel_next rst true edge (frame_push s) true (fr_to_rpc s);
     ccip_to_rpc := channel_next rst true edge (from_ccip s) true (ccip_to_rpc s);
     rpc_to_ccip := channel_next rst edge true (from_rpc s) (negb (c1_alm_full i)) (rpc_to_ccip s);
     ccip_ := next ccip (ccip_inputs i s) (ccip_ s);
     rpc_ := if edge then next rpcu (rpc_inputs i s) (rpc_ s) else rpc_ s;
     pck_counters :=
       counters_next rst edge (some (from_ccip s)) (pop_valid (rpc_to_ccip s)) (co_pdrop (out ccip (ccip_ s)))
         (some (rpc.network_tx_out (out rpcu (rpc_ s)))) (some (network_rx_in i)) (iRegGetPckCnt (csr s)) (pck_counters s);
     from_ccip_valid_reg := if rst then false else some (from_ccip s);
     rps_cnt := if rst then 0 else if second then 0 else u32 (rps_cnt s + 1);
     ccip_rps_rate :=
       if rst then 0 else if second then 0 else if from_ccip_valid_reg s then u32 (ccip_rps_rate s + 1) else ccip_rps_rate s;
     iRegCcipRps := if rst then 0 else if second then ccip_rps_rate s else iRegCcipRps s |}.

Record outs := {
  c2 : option Z;
  c0 : option rd_req;
  c1 : option wr_req;
  network_tx_out : option NetRpc
}.

Definition nic_outs (s : regs) : outs :=
  {| c2 := if mmioRdValid s then Some (c2_data s) else None; c0 := co_read (out ccip (ccip_ s)); c1 := co_write (out ccip (ccip_ s));
     network_tx_out := rpc.network_tx_out (out rpcu (rpc_ s)) |}.

Definition nic : circuit regs inputs outs := {| next := nic_next; out := nic_outs |}.
End nic.
End nic.
