(* ===== verification/HwControl.v ===== *)
(** * The path of a connection setup frame through the NIC

    A frame that the CPU writes goes through the register file and a FIFO into the parser
    of the RPC unit; an enabling frame starts a command of the connection manager, whose
    answer ends in the status register.  The stages are crossed whatever the traffic, the
    CCI-P layer and the delay of the FIFO; [frame_settles] says where it ends and after how
    many cycles. *)

From S2P Require Import Prelude HwBase HwDefs HwConn HwRpc HwNic.

Module control.
Section control.
Context {F : Z -> Type -> Type} {latency : nat} `{DcfifoLaws F latency}.
Context {SC : Type}.
Variable ccip : circuit SC ccip_in ccip_out.
Variables (NIC_ID SRF_BASE_MMIO_ADDRESS SRF_BASE_MMIO_ADDRESS_AFU_ID afu_id : Z).
Variables (phy_network : bool) (ccip_mode : Z).

Abbreviation nicc := (nic.nic ccip rpc.rpc_rtl NIC_ID SRF_BASE_MMIO_ADDRESS SRF_BASE_MMIO_ADDRESS_AFU_ID afu_id
  phy_network ccip_mode).
Abbreviation state := (@nic.regs F SC (rpc.regs connection_manager.regs)).
Abbreviation conns := (gmap Z connection_manager.connection).
Abbreviation conn_status_addr := (nic.addrConnStatus SRF_BASE_MMIO_ADDRESS).
Implicit Types (n : state) (p : rpc.parser) (m : conns) (st : option conn_status).

(** A cycle that neither initialises the NIC again nor touches the status of a connection;
    in an [idle] one no frame is written either.  Memory and network do what they like, and
    the other registers may be read and written. *)
Definition calm (i : nic.inputs) : Prop :=
  nic.reset i = false /\ nic.is_write i (nic.addrRegInit SRF_BASE_MMIO_ADDRESS) = false /\
  nic.mmio_address i <> conn_status_addr.
Definition idle (i : nic.inputs) : Prop :=
  calm i /\ nic.is_write i (nic.addrConnSetup SRF_BASE_MMIO_ADDRESS) = false.

(** Where a frame is. *)
Inductive place := Nowhere | Latched (f : Z) | InFifo (f : Z) | Popped (f : Z).

Definition frame_at (w : place) n : Prop :=
  let fifo := dcfifo_ (nic.fr_to_rpc n) in
  nic.frame_push n = match w with Latched f => Some f | _ => None end /\
  held fifo = match w with InFifo f => [f] | _ => [] end /\
  popped (nic.fr_to_rpc n) = match w with Popped f => Some f | _ => None end /\
  (wr_settle fifo <= latency)%nat.

(** A NIC that is initialised and not being initialised again. *)
Definition up n : Prop := iRegNicInit (nic.csr n) = false /\ pulse (nic.rpc_init n) = false.

(** The state of the control path. *)
Definition at_ (w : place) p m (pg : connection_manager.progress) (out st : option conn_status) n : Prop :=
  up n /\ frame_at w n /\ rpc.rpc_at (nic.rpc_ n) p m pg out /\ nic.iRegConnStatus n = st.

Definition disabled p : Prop := enable (rpc.c_ctl_if p) = false.

(** Nothing is on its way. *)
Definition rest p m st n : Prop :=
  at_ Nowhere p m connection_manager.Free None st n /\ disabled p /\ wr_settle (dcfifo_ (nic.fr_to_rpc n)) = O.

(** ** One cycle *)
Lemma up_next i n : calm i -> up n -> up (next nicc i n).
Proof.
  intros (Hr & Hm & _) [H1 H2]. split; cbn.
  - by rewrite Hr, Hm.
  - unfold pulse_next. by rewrite Hr, H1, H2.
Qed.

Lemma push_next i n : idle i -> nic.frame_push (next nicc i n) = None.
Proof. intros ((Hr & _) & Hm). unfold nic.frame_push. cbn. by rewrite Hr, Hm. Qed.

Lemma status_next i n p m pg out st :
  calm i -> rpc.rpc_at (nic.rpc_ n) p m pg out -> nic.iRegConnStatus n = st ->
  nic.iRegConnStatus (next nicc i n) = match out with Some a => Some a | None => st end.
Proof.
  intros (_ & _ & Ha) Hat <-. cbn. unfold nic.conn_status_next. rewrite (rpc.rpc_at_status _ _ _ _ _ Hat).
  destruct out; [done|]. by rewrite (proj2 (Z.eqb_neq _ _)).
Qed.

(** The RPC unit stands still until its clock rises. *)
Lemma rpc_waits i n p m pg out :
  nic.rpc_phase n = false -> rpc.rpc_at (nic.rpc_ n) p m pg out -> rpc.rpc_at (nic.rpc_ (next nicc i n)) p m pg out.
Proof. intros Hp Hat. cbn. by rewrite Hp. Qed.

Lemma rpc_moves i n p m pg out :
  calm i -> up n -> nic.rpc_phase n = true -> rpc.rpc_at (nic.rpc_ n) p m pg out ->
  (enable (rpc.c_ctl_if p) || rpc.checking pg = true -> popped (nic.fr_to_rpc n) = None) ->
  let r := connection_manager.command LCONN_TBL_SIZE (rpc.c_ctl_if p) m pg in
  rpc.rpc_at (nic.rpc_ (next nicc i n)) (rpc.parser_next false (popped (nic.fr_to_rpc n)) p) r.1.1 r.1.2 r.2.
Proof.
  intros (Hr & _ & _) [_ Hu] Hp Hat Hq. cbn [nic.rpc_ next nic.nic nic.nic_next]. rewrite Hp.
  pose proof (rpc.rpc_at_next (nic.rpc_inputs i n) _ _ _ _ _ Hat) as Hn. cbn in Hn. by apply Hn.
Qed.

Lemma phase_next i n : nic.rpc_phase (next nicc i n) = negb (nic.rpc_phase n).
Proof. done. Qed.

(** The FIFO keeps a frame until the RPC clock rises and its delay is over. *)
Lemma frame_stays i n w :
  idle i -> (forall f, w <> Latched f) -> frame_at w n ->
  (nic.rpc_phase n = true -> w = Nowhere \/ (exists f, w = InFifo f) /\ rdempty (dcfifo_ (nic.fr_to_rpc n)) = true) ->
  frame_at w (next nicc i n).
Proof.
  intros Hi Hw (Hp & Hh & Hpop & Hs) Hph. pose proof Hi as ((Hr & _) & _).
  assert (takes (nic.rpc_phase n) true (nic.fr_to_rpc n) = false) as Et.
  { unfold takes. destruct (nic.rpc_phase n); [|done]. destruct Hph as [->|[_ ->]]; [done| |done].
    by rewrite rdempty_held. }
  unfold frame_at. rewrite (push_next i n Hi). cbn [nic.fr_to_rpc next nic.nic nic.nic_next]. rewrite Hr, channel_held, channel_popped, Et.
  assert (nic.frame_push n = None) as Ep by (destruct w; [done|by destruct (Hw f)|done..]). rewrite Ep.
  unfold puts. rewrite Tauto.if_same. cbn [option_list]. rewrite app_nil_r. split_and!.
  - by destruct w; [|destruct (Hw f)|..].
  - exact Hh.
  - destruct (nic.rpc_phase n) eqn:Eph; [|done]. rewrite Et. by destruct Hph as [->|[[f ->] _]].
  - etrans; [apply channel_wr_settle|]. rewrite Et. lia.
Qed.

(** A frame leaves the register for the FIFO. *)
Lemma frame_enters i n f :
  idle i -> frame_at (Latched f) n -> wr_settle (dcfifo_ (nic.fr_to_rpc n)) = O ->
  frame_at (InFifo f) (next nicc i n) /\ (rd_settle (dcfifo_ (nic.fr_to_rpc (next nicc i n))) <= latency)%nat.
Proof.
  intros Hi (Hp & Hh & Hpop & Hs) Hws. pose proof Hi as ((Hr & _) & _).
  assert (wrfull (dcfifo_ (nic.fr_to_rpc n)) = false) as Ef.
  { apply wrfull_settled; [|done]. by rewrite Hh. }
  assert (forall b, takes b true (nic.fr_to_rpc n) = false) as Et by (intros b; by apply empty_takes).
  unfold frame_at. rewrite (push_next i n Hi). cbn [nic.fr_to_rpc next nic.nic nic.nic_next]. rewrite Hr, channel_held, channel_popped, Et.
  rewrite Et, Hp, Hh, Hpop. unfold puts. rewrite Ef. cbn. split_and!; [done|done|by case_match| |].
  - etrans; [apply channel_wr_settle|]. rewrite Et. lia.
  - etrans; [apply channel_rd_settle|]. unfold puts. by rewrite Ef.
Qed.

(** The frame comes out of the FIFO, and its word is gone one cycle later. *)
Lemma frame_leaves i n f :
  idle i -> frame_at (InFifo f) n -> nic.rpc_phase n = true -> rdempty (dcfifo_ (nic.fr_to_rpc n)) = false ->
  frame_at (Popped f) (next nicc i n).
Proof.
  intros Hi (Hp & Hh & Hpop & Hs) Hph He. pose proof Hi as ((Hr & _) & _).
  unfold frame_at. rewrite (push_next i n Hi). cbn [nic.fr_to_rpc next nic.nic nic.nic_next]. rewrite Hr, channel_held, channel_popped.
  unfold takes, puts. rewrite Hph, Hp, Hh, He, Tauto.if_same. cbn. split_and!; try done.
  etrans; [apply channel_wr_settle|]. unfold takes. by rewrite He.
Qed.

Lemma frame_read i n f : idle i -> frame_at (Popped f) n -> nic.rpc_phase n = true -> frame_at Nowhere (next nicc i n).
Proof.
  intros Hi (Hp & Hh & Hpop & Hs) Hph. pose proof Hi as ((Hr & _) & _).
  assert (forall b, takes b true (nic.fr_to_rpc n) = false) as Et by (intros b; by apply empty_takes).
  unfold frame_at. rewrite (push_next i n Hi). cbn [nic.fr_to_rpc next nic.nic nic.nic_next]. rewrite Hr, channel_held, channel_popped, Et, Et.
  unfold puts. rewrite Hph, Hp, Hh, Tauto.if_same. cbn. split_and!; try done.
  etrans; [apply channel_wr_settle|]. rewrite Et. lia.
Qed.

Lemma frame_waits i n f : idle i -> frame_at (Popped f) n -> nic.rpc_phase n = false -> frame_at (Popped f) (next nicc i n).
Proof. intros Hi Hf Hph. apply frame_stays; try done. by rewrite Hph. Qed.

(** ** The stages *)
Definition shown (out st : option conn_status) : option conn_status :=
  match out with Some a => Some a | None => st end.

Lemma shown_idem out st : shown out (shown out st) = shown out st.
Proof. by destruct out. Qed.

Abbreviation off p := (rpc.parser_next false None p).

Lemma off_disabled p : disabled p -> off p = p.
Proof. destruct p as [[]]. unfold disabled. cbn. by intros ->. Qed.

(** The next rising edge of the RPC clock, which is at most two cycles away. *)
Lemma edge_leads p m pg out st :
  let r := connection_manager.command LCONN_TBL_SIZE (rpc.c_ctl_if p) m pg in
  leads nicc idle 2 (at_ Nowhere p m pg out st) (at_ Nowhere (off p) r.1.1 r.1.2 r.2 (shown out st)).
Proof.
  intros r.
  assert (forall st i n, idle i -> at_ Nowhere p m pg out st n -> nic.rpc_phase n = true ->
            at_ Nowhere (off p) r.1.1 r.1.2 r.2 (shown out st) (next nicc i n)) as Hedge.
  { intros st' i n Hi (Hu & Hf & Hat & Hst) Hph. split_and!; [by apply up_next; [apply Hi|]| | |].
    - apply frame_stays; try done. auto.
    - pose proof Hf as (_ & _ & Hpop & _).
      pose proof (rpc_moves i n _ _ _ _ (proj1 Hi) Hu Hph Hat) as Hm. rewrite Hpop in Hm. by apply Hm.
    - by eapply status_next; [apply Hi|..]. }
  apply (leads_weaken _ _ (1 + 1) _ (at_ Nowhere p m pg out st) _
           (at_ Nowhere (off p) r.1.1 r.1.2 r.2 (shown out st))); [|lia|done|done].
  apply (leads_trans _ _ _ _ _ (fun n => (nic.rpc_phase n = true /\ (at_ Nowhere p m pg out st n \/ at_ Nowhere p m pg out (shown out st) n))
           \/ at_ Nowhere (off p) r.1.1 r.1.2 r.2 (shown out st) n)).
  - intros ins n Hins Hl Ha. destruct (nic.rpc_phase n) eqn:Eph.
    + exists 0%nat. split; [lia|]. left. auto.
    + destruct ins as [|i ins]; [cbn in Hl; lia|]. exists 1%nat. split; [lia|]. left. inversion Hins as [|? ? Hi ?]; subst.
      cbn [take final]. rewrite take_0. cbn [final]. split; [by rewrite phase_next, Eph|]. right.
      destruct Ha as (Hu & Hf & Hat & Hst). split_and!; [by apply up_next; [apply Hi|]| | |by eapply status_next; [apply Hi|..]].
      * apply frame_stays; try done. by rewrite Eph.
      * by apply rpc_waits.
  - apply leads_case.
    + apply leads_step; [|lia]. intros i n Hi [Hph [Ha|Ha]]; [by apply Hedge|].
      rewrite <- shown_idem. by apply Hedge.
    + by apply leads_now.
Qed.

(** ** What a frame does in the end *)
Definition apply_frame (f : Z) p m st : rpc.parser * conns * option conn_status :=
  let p1 := rpc.parse f p in
  let c := rpc.c_ctl_if p1 in
  let answer e := Some {| st_conn_id := conn_id c; st_error := e |} in
  if enable c then
    if connection_manager.in_table LCONN_TBL_SIZE (conn_id c) then
      match connection_manager.execute c m with
      | inl e => (off p1, m, answer e)
      | inr m' => (off p1, m', answer cOK)
      end
    else (off p1, m, answer cIdWrong)
  else (p1, m, st).

Definition settled (r : rpc.parser * conns * option conn_status) n : Prop :=
  at_ Nowhere r.1.1 r.1.2 connection_manager.Free None r.2 n /\ disabled r.1.1.

Lemma off_off p : off (off p) = off p.
Proof. done. Qed.

Lemma off_id p : conn_id (rpc.c_ctl_if (off p)) = conn_id (rpc.c_ctl_if p).
Proof. done. Qed.

(** An answer reaches the status register. *)
Lemma answer_leads p m a st :
  leads nicc idle 2 (at_ Nowhere (off p) m connection_manager.Free (Some a) st) (settled (off p, m, Some a)).
Proof.
  eapply leads_weaken; [apply edge_leads|done|done|]. cbn. intros n Hn. by split.
Qed.

Lemma command_leads f p m st :
  let p1 := rpc.parse f p in
  leads nicc idle 8 (at_ Nowhere p1 m connection_manager.Free None st) (settled (apply_frame f p m st)).
Proof.
  intros p1. unfold apply_frame. fold p1. destruct (enable (rpc.c_ctl_if p1)) eqn:Ee.
  2: { apply leads_now. intros n Hn. by split. }
  apply (leads_trans _ _ 2 6 _ _ _ (edge_leads p1 m connection_manager.Free None st)).
  unfold connection_manager.command at 1 2 3. rewrite Ee.
  destruct (connection_manager.in_table LCONN_TBL_SIZE (conn_id (rpc.c_ctl_if p1))) eqn:Et; cbn [fst snd shown].
  2: { eapply leads_weaken; [apply answer_leads|lia|done|done]. }
  apply (leads_trans _ _ 2 4 _ _ _ (edge_leads (off p1) m (connection_manager.Checking (rpc.c_ctl_if p1)) None st)).
  unfold connection_manager.command at 1 2 3. destruct (connection_manager.execute (rpc.c_ctl_if p1) m) as [e|m'] eqn:Ex;
    cbn [fst snd shown]; rewrite off_off.
  { eapply leads_weaken; [apply answer_leads|lia|done|done]. }
  apply (leads_trans _ _ 2 2 _ _ _ (edge_leads (off p1) m' (connection_manager.Done (rpc.c_ctl_if p1)) None st)).
  cbn [connection_manager.command fst snd shown]. rewrite off_off. apply answer_leads.
Qed.

(** The frame reaches the parser. *)
Lemma popped_leads f p m st :
  disabled p ->
  leads nicc idle 2 (at_ (Popped f) p m connection_manager.Free None st)
    (at_ Nowhere (rpc.parse f p) m connection_manager.Free None st).
Proof.
  intros Hd.
  assert (rpc.parser_next false (Some f) p = rpc.parse f p) as Ep.
  { unfold rpc.parser_next. pose proof (off_disabled p Hd) as E. cbn in E. by rewrite E. }
  apply (leads_weaken _ _ (1 + 1) _ (at_ (Popped f) p m connection_manager.Free None st) _
           (at_ Nowhere (rpc.parse f p) m connection_manager.Free None st)); [|lia|done|done].
  apply (leads_trans _ _ _ _ _ (fun n => nic.rpc_phase n = true /\ at_ (Popped f) p m connection_manager.Free None st n)).
  - intros ins n Hins Hl Ha. destruct (nic.rpc_phase n) eqn:Eph; [exists 0%nat; split; [lia|done]|].
    destruct ins as [|i ins]; [cbn in Hl; lia|]. exists 1%nat. split; [lia|]. inversion Hins as [|? ? Hi ?]; subst.
    cbn [take final]. rewrite take_0. cbn [final]. split; [by rewrite phase_next, Eph|].
    destruct Ha as (Hu & Hf & Hat & Hst). split_and!; [by apply up_next; [apply Hi|]|by apply frame_waits|by apply rpc_waits|].
    by eapply (status_next i n _ _ _ None); [apply Hi|..].
  - apply leads_step; [|lia]. intros i n Hi [Hph (Hu & Hf & Hat & Hst)]. split_and!; [by apply up_next; [apply Hi|]|by eapply frame_read| |].
    + pose proof Hf as (_ & _ & Hpop & _). pose proof (rpc_moves i n _ _ _ _ (proj1 Hi) Hu Hph Hat) as Hm.
      rewrite Hpop, Ep in Hm. cbn in Hm. unfold disabled in Hd. rewrite Hd in Hm. by apply Hm.
    + by eapply (status_next i n _ _ _ None); [apply Hi|..].
Qed.

(** A unit at rest with a frame on its way to it. *)
Lemma waiting_next i n w w' p m st :
  calm i -> at_ w p m connection_manager.Free None st n -> disabled p -> popped (nic.fr_to_rpc n) = None ->
  frame_at w' (next nicc i n) -> at_ w' p m connection_manager.Free None st (next nicc i n).
Proof.
  intros Hi (Hu & Hf & Hat & Hst) Hd Hpop Hf'. split_and!; [by apply up_next|done| |by eapply (status_next i n _ _ _ None)].
  destruct (nic.rpc_phase n) eqn:Eph; [|by apply rpc_waits].
  pose proof (rpc_moves i n _ _ _ _ Hi Hu Eph Hat) as Hm. rewrite Hpop in Hm. cbn in Hm.
  unfold disabled in Hd. rewrite Hd in Hm. pose proof (off_disabled p Hd) as E. cbn in E. rewrite E in Hm. by apply Hm.
Qed.

Lemma fifo_leads f p m st :
  disabled p ->
  leads nicc idle (2 * latency + 1 + 1)
    (fun n => at_ (InFifo f) p m connection_manager.Free None st n /\
              (rd_settle (dcfifo_ (nic.fr_to_rpc n)) <= latency)%nat)
    (at_ (Popped f) p m connection_manager.Free None st).
Proof.
  intros Hd. apply (leads_measure _ _ _ _ _ (fun n => 2 * rd_settle (dcfifo_ (nic.fr_to_rpc n)) + if nic.rpc_phase n then 0 else 1)%nat).
  { intros n [_ Hs]. case_match; lia. }
  intros i n Hi [Ha Hs]. right. pose proof Ha as (Hu & Hf & Hat & Hst). pose proof Hf as (Hpush & Hh & Hpop & _).
  destruct (nic.rpc_phase n) eqn:Eph.
  - destruct (rdempty (dcfifo_ (nic.fr_to_rpc n))) eqn:Ee.
    + left. assert (rd_settle (dcfifo_ (nic.fr_to_rpc n)) <> O) as Hnz.
      { intros E. rewrite rdempty_settled in Ee; [done|by rewrite Hh|done]. }
      assert (rd_settle (dcfifo_ (nic.fr_to_rpc (next nicc i n))) <= pred (rd_settle (dcfifo_ (nic.fr_to_rpc n))))%nat as Hrd.
      { cbn [nic.fr_to_rpc next nic.nic nic.nic_next]. destruct Hi as ((-> & _) & _). etrans; [apply channel_rd_settle|].
        unfold puts. by rewrite Hpush, Tauto.if_same, Eph. }
      split; [split|].
      * eapply waiting_next; try done; [apply Hi|]. apply frame_stays; try done. intros _. right. by eauto.
      * lia.
      * rewrite phase_next, Eph. cbn [negb]. lia.
    + right. eapply waiting_next; try done; [apply Hi|]. by apply frame_leaves.
  - left. assert (rd_settle (dcfifo_ (nic.fr_to_rpc (next nicc i n))) <= rd_settle (dcfifo_ (nic.fr_to_rpc n)))%nat as Hrd.
    { cbn [nic.fr_to_rpc next nic.nic nic.nic_next]. destruct Hi as ((-> & _) & _). etrans; [apply channel_rd_settle|].
      unfold puts. by rewrite Hpush, Tauto.if_same, Eph. }
    split; [split|].
    * eapply waiting_next; try done; [apply Hi|]. apply frame_stays; try done. by rewrite Eph.
    * lia.
    * rewrite phase_next, Eph. cbn [negb]. lia.
Qed.

(** ** At rest *)
Lemma empty_settles i n :
  nic.reset i = false -> held (dcfifo_ (nic.fr_to_rpc n)) = [] ->
  (wr_settle (dcfifo_ (nic.fr_to_rpc (next nicc i n))) <= pred (wr_settle (dcfifo_ (nic.fr_to_rpc n))))%nat.
Proof.
  intros Hr Hh. cbn [nic.fr_to_rpc next nic.nic nic.nic_next]. rewrite Hr. etrans; [apply channel_wr_settle|].
  by rewrite empty_takes.
Qed.

Lemma rest_next i p m st n : idle i -> rest p m st n -> rest p m st (next nicc i n).
Proof.
  intros Hi (Ha & Hd & Hw). pose proof Ha as (_ & Hf & _). pose proof Hf as (Hpush & Hh & Hpop & _). split_and!; [|done|].
  - eapply waiting_next; try done; [apply Hi|]. apply frame_stays; try done. auto.
  - pose proof (empty_settles i n (proj1 (proj1 Hi)) Hh). lia.
Qed.

Lemma rest_leads r : leads nicc idle (latency + 1) (settled r) (rest r.1.1 r.1.2 r.2).
Proof.
  apply (leads_measure _ _ _ _ _ (fun n => wr_settle (dcfifo_ (nic.fr_to_rpc n)))).
  { intros n [(_ & (_ & _ & _ & Hs) & _) _]. done. }
  intros i n Hi [Ha Hd]. pose proof Ha as (_ & Hf & _). pose proof Hf as (Hpush & Hh & Hpop & _).
  destruct (wr_settle (dcfifo_ (nic.fr_to_rpc n))) as [|k] eqn:Ew; [by left|]. right. left. split; [split|].
  - eapply waiting_next; try done; [apply Hi|]. apply frame_stays; try done. auto.
  - done.
  - pose proof (empty_settles i n (proj1 (proj1 Hi)) Hh). lia.
Qed.

(** Cycles after which a frame has had its effect: the register, the FIFO with its delay at
    both ends, the parser, and four steps of the RPC unit. *)
Definition settling : nat := 1 + (2 * latency + 1 + 1) + 2 + 8 + (latency + 1).

Definition frame_write (d : Z) (i : nic.inputs) : Prop :=
  nic.reset i = false /\ nic.mmio_req i = nic.MmioWrite d /\ nic.mmio_address i = nic.addrConnSetup SRF_BASE_MMIO_ADDRESS.

Lemma frame_write_calm d i : frame_write d i -> calm i.
Proof.
  intros (Hr & Hm & Ha). split_and!; [done| |].
  - unfold nic.is_write. rewrite Hm, Ha. apply Z.eqb_neq. unfold nic.addrConnSetup, nic.addrRegInit. lia.
  - rewrite Ha. unfold nic.addrConnSetup, nic.addrConnStatus. lia.
Qed.

Lemma frame_written d i p m st n :
  frame_write d i -> rest p m st n ->
  at_ (Latched (wrap 40 d)) p m connection_manager.Free None st (next nicc i n) /\ disabled p /\
  wr_settle (dcfifo_ (nic.fr_to_rpc (next nicc i n))) = O.
Proof.
  intros Hi (Ha & Hd & Hw). pose proof (frame_write_calm d i Hi) as Hc. destruct Hi as (Hr & Hm & Hadr).
  pose proof Ha as (_ & (Hpush & Hh & Hpop & _) & _).
  assert (wr_settle (dcfifo_ (nic.fr_to_rpc (next nicc i n))) = O) as Ew.
  { pose proof (empty_settles i n Hr Hh). lia. }
  split_and!; [|done|done]. eapply waiting_next; try done. unfold frame_at. rewrite Ew. split_and!; [| | |lia].
  - unfold nic.frame_push. cbn. unfold nic.is_write, nic.wdata. by rewrite Hr, Hm, Hadr, Z.eqb_refl.
  - cbn [nic.fr_to_rpc next nic.nic nic.nic_next]. rewrite Hr, channel_held, empty_takes, Hh, Hpush by done.
    unfold puts. by rewrite Tauto.if_same.
  - cbn [nic.fr_to_rpc next nic.nic nic.nic_next]. rewrite Hr, channel_popped, empty_takes, Hpop by done. by case_match.
Qed.

Lemma latched_leads f p m st :
  leads nicc idle 1
    (fun n => at_ (Latched f) p m connection_manager.Free None st n /\ disabled p /\
              wr_settle (dcfifo_ (nic.fr_to_rpc n)) = O)
    (fun n => at_ (InFifo f) p m connection_manager.Free None st n /\
              (rd_settle (dcfifo_ (nic.fr_to_rpc n)) <= latency)%nat).
Proof.
  apply leads_step; [|lia]. intros j s Hj (Hs & Hds & Hws). pose proof Hs as (_ & Hf & _).
  destruct (frame_enters j s _ Hj Hf Hws) as [Hf' Hrd]. split; [|done].
  eapply waiting_next; try done; [apply Hj|]. by destruct Hf as (_ & _ & ? & _).
Qed.

(** A frame written to a NIC at rest has its effect, and only it, after [settling] cycles. *)
Lemma frame_settles d i ins p m st n :
  frame_write d i -> Forall idle ins -> (settling <= length ins)%nat -> rest p m st n ->
  let r := apply_frame (wrap 40 d) p m st in
  rest r.1.1 r.1.2 r.2 (final nicc (i :: ins) n).
Proof.
  intros Hi Hins Hl Hn r. cbn [final]. destruct (frame_written d i p m st n Hi Hn) as (Ha & Hd & Hw).
  eapply leads_final; [|intros j s; apply rest_next|done|exact Hl|].
  - unfold settling. eapply leads_trans; [eapply leads_trans; [eapply leads_trans; [eapply leads_trans|]|]|].
    + apply (latched_leads (wrap 40 d) p m st).
    + by apply fifo_leads.
    + by apply popped_leads.
    + apply command_leads.
    + apply rest_leads.
  - done.
Qed.

(** ** Reading the status of a connection *)
Definition status_read (i : nic.inputs) : Prop :=
  nic.reset i = false /\ nic.mmio_req i = nic.MmioRead /\ nic.mmio_address i = conn_status_addr.

Lemma status_read_rest i p m st n :
  (conn_status_addr < SRF_BASE_MMIO_ADDRESS_AFU_ID \/ SRF_BASE_MMIO_ADDRESS_AFU_ID + 8 < conn_status_addr) ->
  status_read i -> rest p m st n ->
  rest p m None (next nicc i n) /\
  nic.c2 (out nicc (next nicc i n)) = Some (nic.low_bits 40 (pack_conn_status st) (nic.c2_data n)).
Proof.
  intros Hafu (Hr & Hm & Ha) (Hat & Hd & Hw). pose proof Hat as (Hu & Hf & Hrpc & Hst).
  pose proof Hf as (Hpush & Hh & Hpop & Hws).
  split.
  - split_and!; [|done|].
    + split_and!.
      * destruct Hu as [Hu1 Hu2]. split; cbn; [unfold nic.is_write; by rewrite Hr, Hm|].
        unfold pulse_next. by rewrite Hr, Hu1, Hu2.
      * unfold frame_at, nic.frame_push. cbn [nic.csr nic.fr_to_rpc next nic.nic nic.nic_next nic.csr_next iRegConnSetupFrame_en].
        unfold nic.is_write. rewrite Hr, Hm, channel_held, channel_popped, !empty_takes, Hh, Hpush, Hpop by done.
        unfold puts. rewrite Tauto.if_same. split_and!; [done|done|by case_match|].
        etrans; [apply channel_wr_settle|]. rewrite empty_takes by done. lia.
      * destruct (nic.rpc_phase n) eqn:Eph; [|by apply rpc_waits].
        cbn [nic.rpc_ next nic.nic nic.nic_next]. rewrite Eph.
        pose proof (rpc.rpc_at_next (nic.rpc_inputs i n) _ _ _ _ _ Hrpc Hr) as Hn. cbn in Hn. destruct Hu as [_ Hu2].
        rewrite Hpop in Hn. unfold disabled in Hd. rewrite Hd in Hn.
        pose proof (off_disabled p Hd) as E. cbn in E. rewrite E in Hn. by apply Hn.
      * cbn. unfold nic.conn_status_next. rewrite (rpc.rpc_at_status _ _ _ _ _ Hrpc). by rewrite Ha, Z.eqb_refl.
    + pose proof (empty_settles i n Hr Hh). lia.
  - cbn. rewrite Hr, Hm. cbn. unfold nic.c2_data_next. rewrite Ha, Hst.
    unfold nic.addrConnStatus, nic.addrRegNicStatus, nic.addrRegCcipRps, nic.addrPckCnt, nic.addrRegNicMode in *.
    repeat (rewrite (proj2 (Z.eqb_neq _ _)) by lia). by rewrite Z.eqb_refl.
Qed.
End control.
End control.
