(* ===== verification/HwReset.v ===== *)
(** * Reset and initialisation of the NIC

    From any content of the registers at power-up: a reset that lasts until the RPC clock
    has risen, and the write of the initialisation register, leave the NIC at rest with an
    empty connection table, whatever memory and network do meanwhile.  The write starts a
    pulse of two cycles, of which the RPC clock sees exactly one, and the RPC unit then
    clears one entry of its table with each of its cycles. *)

From S2P Require Import Prelude HwBase HwDefs HwConn HwRpc HwNic HwControl.

Module bringup.
Section bringup.
Context {F : Z -> Type -> Type} {latency : nat} `{DcfifoLaws F latency}.
Context {SC : Type}.
Variable ccip : circuit SC ccip_in ccip_out.
Variables (NIC_ID SRF_BASE_MMIO_ADDRESS SRF_BASE_MMIO_ADDRESS_AFU_ID afu_id : Z).
Variables (phy_network : bool) (ccip_mode : Z).

Abbreviation nicc := (nic.nic ccip rpc.rpc_rtl NIC_ID SRF_BASE_MMIO_ADDRESS SRF_BASE_MMIO_ADDRESS_AFU_ID afu_id
  phy_network ccip_mode).
Abbreviation state := (@nic.regs F SC (rpc.regs connection_manager.regs)).
Abbreviation idle := (control.idle SRF_BASE_MMIO_ADDRESS).
Abbreviation calm := (control.calm SRF_BASE_MMIO_ADDRESS).
Implicit Types n : state.

(** The parser is disabled; its connection number is that of an 8-bit register. *)
Definition parser_off n : Prop :=
  control.disabled (rpc.ctl (nic.rpc_ n)) /\ 0 <= conn_id (rpc.c_ctl_if (rpc.ctl (nic.rpc_ n))).

(** No frame is on its way. *)
Definition no_frame n : Prop :=
  nic.frame_push n = None /\ held (dcfifo_ (nic.fr_to_rpc n)) = [] /\ popped (nic.fr_to_rpc n) = None /\
  wr_settle (dcfifo_ (nic.fr_to_rpc n)) = O.

Definition cm_of n : connection_manager.regs := rpc.c_manager (nic.rpc_ n).

(** The state of the initialisation: not begun, the register written, the pulse in its
    cycle [c], and the table cleared up to an entry. *)
Definition asleep n : Prop := connection_manager.dormant (cm_of n).
Definition clears (k : Z) n : Prop := connection_manager.clearing k (cm_of n).

Definition quiet_path n : Prop := parser_off n /\ no_frame n.
Definition no_pulse n : Prop := pulse (nic.rpc_init n) = false /\ cnt (nic.rpc_init n) = 0.
Definition not_written n : Prop := iRegNicInit (nic.csr n) = false.

Definition dormant n : Prop := quiet_path n /\ no_pulse n /\ not_written n /\ asleep n.
Definition written n : Prop := quiet_path n /\ no_pulse n /\ iRegNicInit (nic.csr n) = true /\ asleep n.
Definition pulsing (c : Z) n : Prop :=
  quiet_path n /\ pulse (nic.rpc_init n) = true /\ cnt (nic.rpc_init n) = c /\ not_written n.
Definition clearing (k : Z) n : Prop := quiet_path n /\ no_pulse n /\ not_written n /\ clears k n.

(** ** One cycle *)
Lemma off_next i n :
  nic.reset i = false -> popped (nic.fr_to_rpc n) = None -> parser_off n -> parser_off (next nicc i n).
Proof.
  intros Hr Hp [Hd Hid]. unfold parser_off. cbn [nic.rpc_ next nic.nic nic.nic_next]. destruct (nic.rpc_phase n); [|done].
  cbn. by rewrite Hr, Hp.
Qed.

Lemma no_frame_next i n : idle i -> no_frame n -> no_frame (next nicc i n).
Proof.
  intros Hi (Hpush & Hh & Hpop & Hw). pose proof Hi as ((Hr & _) & _). split_and!.
  - by apply control.push_next.
  - cbn [nic.fr_to_rpc next nic.nic nic.nic_next]. rewrite Hr, channel_held, empty_takes, Hh, Hpush by done.
    unfold puts. by rewrite Tauto.if_same.
  - cbn [nic.fr_to_rpc next nic.nic nic.nic_next]. rewrite Hr, channel_popped, empty_takes, Hpop by done. by case_match.
  - pose proof (control.empty_settles ccip NIC_ID SRF_BASE_MMIO_ADDRESS SRF_BASE_MMIO_ADDRESS_AFU_ID afu_id phy_network ccip_mode i n Hr Hh). lia.
Qed.

Lemma path_next i n : idle i -> quiet_path n -> quiet_path (next nicc i n).
Proof.
  intros Hi [Ho Hf]. pose proof Hi as ((Hr & _) & _). split; [|by apply no_frame_next].
  apply off_next; [done|apply Hf|done].
Qed.

Lemma not_written_next i n : idle i -> not_written (next nicc i n).
Proof. intros ((Hr & Hm & _) & _). unfold not_written. cbn. by rewrite Hr, Hm. Qed.

Lemma no_pulse_next i n : nic.reset i = false -> no_pulse n -> not_written n -> no_pulse (next nicc i n).
Proof.
  intros Hr [H1 H2] Hn. unfold no_pulse, not_written in *. cbn. unfold pulse_next. by rewrite Hr, H1, H2, Hn.
Qed.

(** The connection manager moves when its clock rises. *)
Lemma cm_next_edge i n :
  cm_of (next nicc i n) =
    if nic.rpc_phase n then connection_manager.cm_next LCONN_TBL_SIZE (rpc.cm_inputs (nic.rpc_inputs i n) (nic.rpc_ n)) (cm_of n)
    else cm_of n.
Proof. unfold cm_of. cbn. by destruct (nic.rpc_phase n). Qed.

Lemma asleep_next i n : nic.reset i = false -> pulse (nic.rpc_init n) = false -> asleep n -> asleep (next nicc i n).
Proof.
  intros Hr Hp Ha. unfold asleep. rewrite cm_next_edge. destruct (nic.rpc_phase n); [|done].
  by apply connection_manager.dormant_step.
Qed.

Lemma dormant_next i n : idle i -> dormant n -> dormant (next nicc i n).
Proof.
  intros Hi (Hp & Hn & Hw & Ha). pose proof Hi as ((Hr & _) & _).
  split_and!; [by apply path_next|by apply no_pulse_next|by apply not_written_next|]. apply asleep_next; [done|apply Hn|done].
Qed.

(** A step of the RPC clock, which is at most two cycles away. *)
Lemma edge_step (ok : nic.inputs -> Prop) (P Q : state -> Prop) :
  (forall i n, ok i -> nic.rpc_phase n = false -> P n -> P (next nicc i n)) ->
  (forall i n, ok i -> nic.rpc_phase n = true -> P n -> Q (next nicc i n)) ->
  leads nicc ok 2 P Q.
Proof.
  intros Hwait Hstep. apply (leads_trans _ _ 1 1 _ (fun n => nic.rpc_phase n = true /\ P n)).
  - intros ins n Hins Hl Hn. destruct (nic.rpc_phase n) eqn:Eph; [exists 0%nat; split; [lia|done]|].
    destruct ins as [|i ins]; [cbn in Hl; lia|]. exists 1%nat. split; [lia|]. inversion Hins as [|? ? Hi ?]; subst.
    cbn [take final]. rewrite take_0. cbn [final]. split; [by rewrite control.phase_next, Eph|by apply Hwait].
  - apply leads_step; [|lia]. intros i n Hi [Hph Hn]. by apply Hstep.
Qed.

(** ** The stages *)
Definition init_write (i : nic.inputs) : Prop :=
  nic.reset i = false /\ (exists d, nic.mmio_req i = nic.MmioWrite d) /\
  nic.mmio_address i = nic.addrRegInit SRF_BASE_MMIO_ADDRESS.

Lemma init_written i n : init_write i -> dormant n -> written (next nicc i n).
Proof.
  intros (Hr & [d Hm] & Ha) ([Ho (Hpush & Hh & Hpop & Hw)] & Hp & Hnw & Has).
  assert (nic.is_write i (nic.addrConnSetup SRF_BASE_MMIO_ADDRESS) = false) as Hnf.
  { unfold nic.is_write. rewrite Hm, Ha. apply Z.eqb_neq. unfold nic.addrConnSetup, nic.addrRegInit. lia. }
  split_and!.
  - split; [by apply off_next|]. split_and!.
    + unfold nic.frame_push. cbn. by rewrite Hr, Hnf.
    + cbn [nic.fr_to_rpc next nic.nic nic.nic_next]. rewrite Hr, channel_held, empty_takes, Hh, Hpush by done.
      unfold puts. by rewrite Tauto.if_same.
    + cbn [nic.fr_to_rpc next nic.nic nic.nic_next]. rewrite Hr, channel_popped, empty_takes, Hpop by done. by case_match.
    + pose proof (control.empty_settles ccip NIC_ID SRF_BASE_MMIO_ADDRESS SRF_BASE_MMIO_ADDRESS_AFU_ID afu_id phy_network ccip_mode i n Hr Hh). lia.
  - by apply no_pulse_next.
  - cbn. rewrite Hr. unfold nic.is_write. by rewrite Hm, Ha, Z.eqb_refl.
  - apply asleep_next; [done|apply Hp|done].
Qed.

(** The pulse is up for two cycles, one of which is a cycle of the RPC clock. *)
Lemma pulse_leads : leads nicc idle 3 written (clearing 0).
Proof.
  apply (leads_trans _ _ 1 2 _ (fun n => pulsing 0 n /\ asleep n)).
  { apply leads_step; [|lia]. intros i n Hi (Hp & [H1 H2] & Hw & Ha). pose proof Hi as ((Hr & _) & _). split.
    - split_and!; [by apply path_next| | |by apply not_written_next]; cbn; unfold pulse_next; by rewrite Hr, H1, ?Hw, ?H2.
    - by apply asleep_next. }
  apply (leads_trans _ _ 1 1 _ (fun n => pulsing 1 n /\ if nic.rpc_phase n then asleep n else clears 0 n)).
  - apply leads_step; [|lia]. intros i n Hi ((Hp & H1 & H2 & Hw) & Ha). pose proof Hi as ((Hr & _) & _). split.
    + split_and!; [by apply path_next| | |by apply not_written_next]; cbn; unfold pulse_next; by rewrite Hr, H1, H2.
    + rewrite control.phase_next. unfold asleep, clears. rewrite cm_next_edge. destruct (nic.rpc_phase n); cbn [negb]; [|done].
      by apply connection_manager.clearing_starts.
  - apply leads_step; [|lia]. intros i n Hi ((Hp & H1 & H2 & Hw) & Ha). pose proof Hi as ((Hr & _) & _).
    split_and!; [by apply path_next| |by apply not_written_next|].
    + split; cbn; unfold pulse_next; by rewrite Hr, H1, H2.
    + unfold clears. rewrite cm_next_edge. destruct (nic.rpc_phase n); [|done]. by apply connection_manager.clearing_starts.
Qed.

(** Until its clock rises the RPC unit waits. *)
Lemma clearing_waits i n k : idle i -> nic.rpc_phase n = false -> clearing k n -> clearing k (next nicc i n).
Proof.
  intros Hi Hph (Hp & Hn & Hw & Hc). pose proof Hi as ((Hr & _) & _).
  split_and!; [by apply path_next|by apply no_pulse_next|by apply not_written_next|].
  unfold clears. by rewrite cm_next_edge, Hph.
Qed.

Lemma clearing_leads k : 0 <= k -> k + 1 < 2 ^ LCONN_TBL_SIZE -> leads nicc idle 2 (clearing k) (clearing (k + 1)).
Proof.
  intros Hk Hl. apply edge_step; [intros; by apply clearing_waits|].
  intros i n Hi Hph (Hp & Hn & Hw & Hc). pose proof Hi as ((Hr & _) & _).
  split_and!; [by apply path_next|by apply no_pulse_next|by apply not_written_next|].
  unfold clears. rewrite cm_next_edge, Hph. by apply connection_manager.clearing_step.
Qed.

Lemma clears_run k j :
  0 <= k -> k + Z.of_nat j < 2 ^ LCONN_TBL_SIZE -> leads nicc idle (2 * j) (clearing k) (clearing (k + Z.of_nat j)).
Proof.
  intros Hk. induction j as [|j IH]; intros Hl.
  - apply leads_now. intros n Hn. by rewrite Z.add_0_r.
  - replace (2 * S j)%nat with (2 * j + 2)%nat by lia. eapply leads_trans; [apply IH; lia|].
    replace (k + Z.of_nat (S j)) with (k + Z.of_nat j + 1) by lia. apply clearing_leads; lia.
Qed.

(** The NIC at rest with an empty table. *)
Definition empty n : Prop := exists p st, control.rest p ∅ st n.

Lemma empty_next i n : idle i -> empty n -> empty (next nicc i n).
Proof. intros Hi (p & st & Hn). exists p, st. by apply control.rest_next. Qed.

Lemma clearing_done : leads nicc idle 2 (clearing (2 ^ LCONN_TBL_SIZE - 1)) empty.
Proof.
  apply edge_step; [intros; by apply clearing_waits|].
  intros i n Hi Hph (Hp & Hn & Hw & Hc). pose proof Hi as ((Hr & _) & _).
  pose proof (path_next i n Hi Hp) as [[Hd Hid] (Hpush & Hh & Hpop & Hws)].
  pose proof (no_pulse_next i n Hr Hn Hw) as [Hnp _]. pose proof (not_written_next i n Hi) as Hnw.
  exists (rpc.ctl (nic.rpc_ (next nicc i n))), (nic.iRegConnStatus (next nicc i n)).
  split; [|done]. split_and!; [done|by split_and!; try lia| |done].
  exists {| rpc.ctl := rpc.ctl (nic.rpc_ (next nicc i n)); rpc.c_manager := connection_manager.empty_registry;
            rpc.tx_reg := None; rpc.ct_net_in := None |}.
  split_and!; try done. constructor; try done. cbn [rpc.c_manager].
  pose proof (cm_next_edge i n) as E. rewrite Hph in E. unfold cm_of at 1 in E. rewrite E.
  by apply connection_manager.clearing_ends.
Qed.

(** Cycles from the write to the end of the initialisation. *)
Definition init_cycles : nat := 3 + 2 * 15 + 2.

Lemma init_leads : leads nicc idle init_cycles written empty.
Proof.
  unfold init_cycles. eapply leads_trans; [eapply leads_trans; [apply pulse_leads|apply (clears_run 0 15); [lia|done]]|].
  apply clearing_done.
Qed.

(** ** Reset *)
Definition resets (i : nic.inputs) : Prop := nic.reset i = true.

(** The width of the parser's register for the connection number. *)
Definition power_up n : Prop := 0 <= conn_id (rpc.c_ctl_if (rpc.ctl (nic.rpc_ n))).

Lemma dormant_reset i n : resets i -> dormant n \/ nic.rpc_phase n = true /\ power_up n -> dormant (next nicc i n).
Proof.
  unfold resets. intros Hr Hn.
  assert (rdempty (fifo_aclr (dcfifo_ (nic.fr_to_rpc n))) = true) as He by apply rdempty_held, held_aclr.
  split_and!; [split|..].
  - unfold parser_off. cbn [nic.rpc_ next nic.nic nic.nic_next]. destruct (nic.rpc_phase n).
    + unfold control.disabled. cbn. rewrite Hr. cbn. split; [done|]. destruct Hn as [[[[_ Hid] _] _]|[_ Hid]]; exact Hid.
    + destruct Hn as [[[Ho _] _]|[? _]]; [exact Ho|done].
  - split_and!; cbn [nic.fr_to_rpc next nic.nic nic.nic_next]; rewrite ?Hr.
    + unfold nic.frame_push. cbn. by rewrite Hr.
    + apply held_aclr.
    + unfold popped. cbn. rewrite He. destruct (nic.rpc_phase n); [done|].
      destruct Hn as [[[_ (_ & _ & Hpop & _)] _]|[? _]]; [|done]. unfold popped in Hpop. by destruct (pop_valid _).
    + apply wr_settle_aclr.
  - split; cbn; unfold pulse_next; by rewrite Hr.
  - unfold not_written. cbn. by rewrite Hr.
  - unfold asleep. rewrite cm_next_edge. destruct (nic.rpc_phase n).
    + by apply connection_manager.reset_dormant.
    + destruct Hn as [(_ & _ & _ & Ha)|[? _]]; [exact Ha|done].
Qed.

Lemma reset_leads : leads nicc resets 2 power_up dormant.
Proof.
  apply edge_step.
  - intros i n Hi Hph Hn. unfold power_up. cbn [nic.rpc_ next nic.nic nic.nic_next]. by rewrite Hph.
  - intros i n Hi Hph Hn. apply dormant_reset; auto.
Qed.

(** From power-up to a NIC at rest. *)
Lemma reset_init rst wait i ins n :
  power_up n -> Forall resets rst -> (2 <= length rst)%nat -> Forall idle wait -> init_write i ->
  Forall idle ins -> (init_cycles <= length ins)%nat -> empty (final nicc (rst ++ wait ++ i :: ins) n).
Proof.
  intros Hn Hrst Hl Hwait Hi Hins Hl'. rewrite !final_app. cbn [final].
  eapply leads_final; [apply init_leads|apply empty_next|done|done|]. apply init_written; [done|].
  eapply (final_preserves _ _ _ wait); [apply dormant_next|done|].
  eapply leads_final; [apply reset_leads|intros; apply dormant_reset; auto|done|done|done].
Qed.
End bringup.
End bringup.
