(* ===== verification/HwDriver.v ===== *)
(** * The driver on the NIC

    The register file of the RTL model under the driver of the host: a [Platform] whose
    MMIO accesses are cycles of the NIC.  After each access a number of cycles go by before
    the program goes on, in which memory and network do what they like.  The theorems
    compose the driver's connection setup with the hardware that executes it. *)

From S2P Require Import Prelude HwBase HwDefs HwConn HwRpc HwNic HwControl HwReset.
From S2P Require Import Wire ConnectionManager Host HssiCsrs Hssi NicCcip NicProtocol NicLifecycle NicLiveness.

(** What comes to the NIC from memory and network in a cycle, and the address bits of a
    header that is not an MMIO request. *)
Record surroundings := {
  su_rsp : option mem_rsp; su_c0_full : bool; su_c1_full : bool; su_net : option NetRpc;
  su_drop : Z; su_header : Z
}.

Definition cycle_input (a : Z) (r : nic.mmio) (e : surroundings) : nic.inputs :=
  {| nic.reset := false; nic.mmio_address := a; nic.mmio_req := r; nic.c0_rsp_in := su_rsp e;
     nic.c0_alm_full := su_c0_full e; nic.c1_alm_full := su_c1_full e; nic.network_rx_in := su_net e;
     nic.net_drop_cnt := su_drop e |}.

(** The NIC and the number of cycles so far. *)
Record device (N : Type) := { dv_nic : N; dv_clock : nat }.
Arguments dv_nic {N} d.
Arguments dv_clock {N} d.

Section machine.
Context {N : Type} (c : circuit N nic.inputs nic.outs).
Variable env : nat -> surroundings.
Variable gap : nat -> nat.

Definition one_cycle (a : Z) (r : nic.mmio) (d : device N) : device N :=
  {| dv_nic := next c (cycle_input a r (env (dv_clock d))) (dv_nic d); dv_clock := S (dv_clock d) |}.

Fixpoint cycles (k : nat) (d : device N) : device N :=
  match k with
  | O => d
  | S k' => cycles k' (one_cycle (su_header (env (dv_clock d))) nic.NoMmio d)
  end.

(** The access, in units of 32 bits, and the cycles until the program goes on. *)
Definition access (a : Z) (r : nic.mmio) (d : device N) : device N * device N :=
  let d' := one_cycle (a / 4) r d in (d', cycles (gap (dv_clock d)) d').

(** The calls that are not MMIO are answered by [others]; a nanosecond is a fifth of a
    cycle. *)
Variable others : io_call -> nat -> fpga_result * Z.

Definition machine_io (call : io_call) (d : device N) : fpga_result * Z * device N :=
  match call with
  | WriteMMIO64 a v => (FPGA_OK, 0, (access a (nic.MmioWrite v) d).2)
  | ReadMMIO64 a =>
      let '(d', d'') := access a nic.MmioRead d in
      (FPGA_OK, default 0 (nic.c2 (out c (dv_nic d'))), d'')
  | Delay nsec => (FPGA_OK, 0, cycles (Z.to_nat (nsec / 5)) d)
  | _ => let '(r, v) := others call (dv_clock d) in (r, v, cycles (gap (dv_clock d)) d)
  end.

Variables (junk_of : nat -> Z) (shl : Z -> Z -> Z) (page : Z) (cmp : string -> string -> Z) (uuid : option (list Z)).

Definition machine : Platform (device N) :=
  {| io := machine_io; stack_junk d := junk_of (dv_clock d); wide_shl := shl; getpagesize := page;
     strcmp_s := cmp; uuid_parse_afu := uuid |}.
End machine.

(** ** Frames and answers on both sides *)
Lemma frame_word_low f b :
  wrap 40 (frame_word f b) = u32 (data f) + wrap 3 (cmd f) * 2 ^ 32.
Proof.
  rewrite frame_word_sum. unfold wrap at 1. rewrite Z_mod_plus_full. apply Z.mod_small.
  pose proof (wrap_range 32 (data f)). pose proof (wrap_range 3 (cmd f)). unfold in_width in *. lia.
Qed.

Definition hw_frame (d k : Z) : Z := u32 d + wrap 3 k * 2 ^ 32.

Lemma hw_frame_data d k : frame_data (hw_frame d k) = u32 d.
Proof.
  unfold frame_data, hw_frame. rewrite field_alt by lia. rewrite Z.div_1_r, Z_mod_plus_full. apply wrap_idem. lia.
Qed.

Lemma hw_frame_cmd d k : frame_cmd (hw_frame d k) = wrap 3 k.
Proof.
  unfold frame_cmd, hw_frame. rewrite field_pack_hi by (try apply wrap_range; lia). apply wrap_idem. lia.
Qed.

(** A field of the low bits. *)
Lemma field_wrap w x lo len : 0 <= lo -> 0 <= len -> lo + len <= w -> field (wrap w x) lo len = field x lo len.
Proof.
  intros Hlo Hlen Hw. unfold field, wrap. apply Z.bits_inj'. intros n Hn.
  rewrite !Z.land_spec, !Z.shiftr_spec by lia. destruct (Z.lt_ge_cases n len) as [Hl|Hl].
  - by rewrite Z.mod_pow2_bits_low by lia.
  - by rewrite Z.ones_spec_high, !andb_false_r by lia.
Qed.

Lemma field_low_bits n v old lo len :
  0 <= lo -> 0 <= len -> lo + len <= n -> n <= 64 -> field (u64 (nic.low_bits n v old)) lo len = field v lo len.
Proof.
  intros Hlo Hlen Hn H64. rewrite field_wrap by lia. rewrite <- (field_wrap n) by lia. unfold nic.low_bits.
  unfold wrap at 1. rewrite Z.mul_comm, Z_mod_plus_full. fold (wrap n (wrap n v)). rewrite wrap_idem by lia. by apply field_wrap.
Qed.

(** The driver reads back the status that the hardware shows. *)
Lemma read_conn_status st old :
  0 <= st_conn_id st < 2 ^ 32 ->
  decode_conn_status (u64 (nic.low_bits 40 (pack_conn_status (Some st)) old)) =
    {| conn_id_ := st_conn_id st; valid := 1; error_status := error_code (st_error st) |}.
Proof.
  intros Hid. unfold decode_conn_status. rewrite !field_low_bits by lia. cbn [pack_conn_status].
  rewrite !field_alt by lia.
  assert (0 <= error_code (st_error st) < 4) as He by (by destruct (st_error st)).
  f_equal; Z.to_euclidean_division_equations; lia.
Qed.

(** ** What the frames of the driver do to the parser *)
Section frames.
Implicit Types (p : rpc.parser) (m : gmap Z connection_manager.connection) (st : option conn_status).

(** The parser after each frame. *)
Lemma parse_frame d k p : rpc.parse (hw_frame d k) p =
  let c := rpc.c_ctl_if p in
  let e := rpc.conn_setup_parsing_error p in
  match wrap 3 k with
  | 0 => rpc.Build_parser (Build_ConnectionControlIf (wrap 8 d) (c_dest_ip c) (c_dest_port c) (client_flow_id c) (open c) (enable c))
           true (rpc.sv1 p) (rpc.sv2 p) (rpc.sv3 p) (rpc.sv4 p) e
  | 1 => rpc.Build_parser (Build_ConnectionControlIf (conn_id c) (c_dest_ip c) (c_dest_port c) (client_flow_id c) (Z.odd (u32 d)) (enable c))
           (rpc.sv0 p) true (rpc.sv2 p) (rpc.sv3 p) (rpc.sv4 p) e
  | 2 => rpc.Build_parser (Build_ConnectionControlIf (conn_id c) (u32 d) (c_dest_port c) (client_flow_id c) (open c) (enable c))
           (rpc.sv0 p) (rpc.sv1 p) true (rpc.sv3 p) (rpc.sv4 p) e
  | 3 => rpc.Build_parser (Build_ConnectionControlIf (conn_id c) (c_dest_ip c) (u16 d) (client_flow_id c) (open c) (enable c))
           (rpc.sv0 p) (rpc.sv1 p) (rpc.sv2 p) true (rpc.sv4 p) e
  | 4 => rpc.Build_parser (Build_ConnectionControlIf (conn_id c) (c_dest_ip c) (c_dest_port c) (wrap LMAX_NUM_OF_FLOWS d) (open c) (enable c))
           (rpc.sv0 p) (rpc.sv1 p) (rpc.sv2 p) (rpc.sv3 p) true e
  | 5 => if if open c then rpc.sv0 p && rpc.sv1 p && rpc.sv2 p && rpc.sv3 p && rpc.sv4 p else rpc.sv0 p
         then rpc.clear_vector (rpc.set_ctl (rpc.with_enable true c) p) else rpc.parse_fails p
  | _ => rpc.parse_fails p
  end.
Proof.
  unfold rpc.parse. rewrite hw_frame_cmd, hw_frame_data.
  unfold LMAX_NUM_OF_CONNECTIONS, LMAX_NUM_OF_FLOWS. rewrite !(wrap_wrap _ 32) by lia.
  pose proof (wrap_range 3 k) as Hk. unfold in_width in Hk. generalize dependent (wrap 3 k). intros x Hx.
  assert (x = 0 \/ x = 1 \/ x = 2 \/ x = 3 \/ x = 4 \/ x = 5 \/ x = 6 \/ x = 7) as Hc by lia.
  by destruct Hc as [->|[->|[->|[->|[->|[->|[->| ->]]]]]]].
Qed.

(** The frame with data [d] and command [k], on a parser in constructor form. *)
Ltac parse_step d k :=
  rewrite (parse_frame d k); change (wrap 3 k) with k; cbv beta iota zeta;
  cbn [rpc.c_ctl_if rpc.sv0 rpc.sv1 rpc.sv2 rpc.sv3 rpc.sv4 rpc.conn_setup_parsing_error
       conn_id c_dest_ip c_dest_port client_flow_id open enable].

Lemma param_frame d k p m st :
  control.disabled p -> 0 <= k < 5 ->
  control.apply_frame (hw_frame d k) p m st = (rpc.parse (hw_frame d k) p, m, st) /\
  control.disabled (rpc.parse (hw_frame d k) p).
Proof.
  unfold control.disabled. intros Hd Hk.
  assert (enable (rpc.c_ctl_if (rpc.parse (hw_frame d k) p)) = false) as E.
  { rewrite parse_frame, wrap_small by (unfold in_width; lia).
    assert (k = 0 \/ k = 1 \/ k = 2 \/ k = 3 \/ k = 4) as Hc by lia. by destruct Hc as [->|[->|[->|[->| ->]]]]. }
  split; [|done]. unfold control.apply_frame. by rewrite E.
Qed.

(** The connection that a command opens. *)
Definition hw_connection (dest : IPv4) (flow : Z) : connection_manager.connection :=
  {| connection_manager.to_ip := u32 (get_addr dest); connection_manager.to_port := u16 (get_port dest);
     connection_manager.to_flow := wrap LMAX_NUM_OF_FLOWS flow |}.

(** What the table makes of a command: the new table and the answer. *)
Definition try_open (id : Z) (k : connection_manager.connection) m :=
  if id <? 2 ^ LCONN_TBL_SIZE then
    match m !! id with None => (<[id := k]> m, HwDefs.cOK) | Some _ => (m, HwDefs.cAlreadyOpen) end
  else (m, HwDefs.cIdWrong).

Definition try_close (id : Z) m :=
  if id <? 2 ^ LCONN_TBL_SIZE then
    match m !! id with Some _ => (delete id m, HwDefs.cOK) | None => (m, HwDefs.cIsClosed) end
  else (m, HwDefs.cIdWrong).

Definition run_frames (fs : list ConnSetupFrame) p m st :=
  fold_left (fun r f => control.apply_frame (hw_frame (data f) (cmd f)) r.1.1 r.1.2 r.2) fs (p, m, st).

Lemma enable_frame p m st :
  control.disabled p ->
  (if open (rpc.c_ctl_if p) then rpc.sv0 p && rpc.sv1 p && rpc.sv2 p && rpc.sv3 p && rpc.sv4 p else rpc.sv0 p) = true ->
  let c := rpc.c_ctl_if p in
  let k := {| connection_manager.to_ip := c_dest_ip c; connection_manager.to_port := c_dest_port c;
              connection_manager.to_flow := client_flow_id c |} in
  let a := if open c then try_open (conn_id c) k m else try_close (conn_id c) m in
  exists p', control.disabled p' /\
    control.apply_frame (hw_frame 1 5) p m st = (p', a.1, Some {| st_conn_id := conn_id c; st_error := a.2 |}).
Proof.
  intros Hd Hsv c k a.
  assert (rpc.parse (hw_frame 1 5) p = rpc.clear_vector (rpc.set_ctl (rpc.with_enable true c) p)) as E.
  { rewrite parse_frame. change (wrap 3 5) with 5. cbv iota zeta. by rewrite Hsv. }
  eexists (rpc.parser_next false None (rpc.parse (hw_frame 1 5) p)). split; [by rewrite E|].
  unfold control.apply_frame. rewrite E. cbn [rpc.c_ctl_if rpc.clear_vector rpc.set_ctl enable rpc.with_enable conn_id].
  unfold a, try_open, try_close, connection_manager.in_table, connection_manager.execute. cbn [open rpc.with_enable conn_id].
  destruct (open c), (conn_id c <? 2 ^ LCONN_TBL_SIZE); try done; by destruct (m !! conn_id c).
Qed.

(** The frames of a registration and of a removal. *)
Lemma register_effect id dest flow p m st :
  control.disabled p ->
  let a := try_open (wrap 8 id) (hw_connection dest flow) m in
  exists p', control.disabled p' /\
    run_frames (register_frames id dest flow) p m st = (p', a.1, Some {| st_conn_id := wrap 8 id; st_error := a.2 |}).
Proof.
  intros Hd a. unfold run_frames, register_frames. cbn [fold_left data cmd fst snd].
  unfold setUpConnId, setUpOpen, setUpDestIPv4, setUpDestPort, setUpClientFlowId, setUpEnable.
  destruct (param_frame id 0 p m st Hd) as [-> H1]; [lia|]. cbn [fst snd].
  destruct (param_frame cOpen 1 _ m st H1) as [-> H2]; [lia|]. cbn [fst snd].
  destruct (param_frame (get_addr dest) 2 _ m st H2) as [-> H3]; [lia|]. cbn [fst snd].
  destruct (param_frame (get_port dest) 3 _ m st H3) as [-> H4]; [lia|]. cbn [fst snd].
  destruct (param_frame flow 4 _ m st H4) as [-> H5]; [lia|]. cbn [fst snd].
  match type of H5 with control.disabled ?P => set (p5 := P) in * end.
  assert (rpc.c_ctl_if p5 = {| conn_id := wrap 8 id; c_dest_ip := u32 (get_addr dest); c_dest_port := u16 (get_port dest);
            client_flow_id := wrap LMAX_NUM_OF_FLOWS flow; open := true; enable := enable (rpc.c_ctl_if p5) |} /\
          rpc.sv0 p5 = true /\ rpc.sv1 p5 = true /\ rpc.sv2 p5 = true /\ rpc.sv3 p5 = true /\ rpc.sv4 p5 = true) as (Ec & E0 & E1 & E2 & E3 & E4).
  { subst p5. clear. destruct p as [[] ? ? ? ? ? ?].
    parse_step id 0. parse_step cOpen 1. parse_step (get_addr dest) 2. parse_step (get_port dest) 3. parse_step flow 4.
    by split_and!. }
  destruct (enable_frame p5 m st H5) as (p' & Hp' & E); [by rewrite Ec, E0, E1, E2, E3, E4|].
  exists p'. split; [done|]. rewrite E, Ec. done.
Qed.

Lemma remove_effect id p m st :
  control.disabled p ->
  let a := try_close (wrap 8 id) m in
  exists p', control.disabled p' /\
    run_frames (remove_frames id) p m st = (p', a.1, Some {| st_conn_id := wrap 8 id; st_error := a.2 |}).
Proof.
  intros Hd a. unfold run_frames, remove_frames. cbn [fold_left data cmd fst snd].
  unfold setUpConnId, setUpOpen, setUpEnable.
  destruct (param_frame id 0 p m st Hd) as [-> H1]; [lia|]. cbn [fst snd].
  destruct (param_frame cClose 1 _ m st H1) as [-> H2]; [lia|]. cbn [fst snd].
  match type of H2 with control.disabled ?P => set (p5 := P) in * end.
  assert (conn_id (rpc.c_ctl_if p5) = wrap 8 id /\ open (rpc.c_ctl_if p5) = false /\ rpc.sv0 p5 = true) as (Ec & Eo & E0).
  { subst p5. clear. destruct p as [[] ? ? ? ? ? ?]. parse_step id 0. parse_step cClose 1. by split_and!. }
  destruct (enable_frame p5 m st H2) as (p' & Hp' & E); [by rewrite Eo|].
  exists p'. split; [done|]. rewrite E, Ec, Eo. done.
Qed.
End frames.

(** The byte address of a register of the NIC, in units of 32 bits. *)
Lemma reg_address base off :
  0 <= base < 2 ^ 16 -> 0 <= off < 2 ^ 16 -> off mod 4 = 0 -> u64 (4 * base + off) / 4 = base + off / 4.
Proof. intros Hb Ho Hm. rewrite wrap_small by (unfold in_width; lia). Z.to_euclidean_division_equations. lia. Qed.

(** The driver's setup as its list of frames. *)
Section setup.
Context {D : Type} `{Platform D}.

Definition send_frames (fs : list ConnSetupFrame) (k : M (sys NicCCIP D) Z) : M (sys NicCCIP D) Z :=
  foldr (fun f k => or_fail (write_frame (data f) (cmd f)) k) k fs.

Definition locked (m : M (sys NicCCIP D) Z) : M (sys NicCCIP D) Z :=
  massert_my connected_ ;; with_lock conn_setup_hw_mtx_ set_conn_setup_hw_mtx m.

Lemma register_is_frames c dest flow :
  register_connection c dest flow = locked (send_frames (register_frames c dest flow) (conn_result c)).
Proof. reflexivity. Qed.

Lemma remove_is_frames c : remove_connection c = locked (send_frames (remove_frames c) (conn_result c)).
Proof. reflexivity. Qed.

(** The lock of connection setup around a body that changes the manager only. *)
Lemma wp_setup_lock {A} (m : M (sys NicCCIP D) A) Q s :
  conn_setup_mtx_ (obj s) = false ->
  (forall n, connected_ n = connected_ (obj s) -> conn_setup_hw_mtx_ n = conn_setup_hw_mtx_ (obj s) ->
     base_nic_addr_ n = base_nic_addr_ (obj s) -> conn_manager_ n = conn_manager_ (obj s) ->
     wp m (fun a s' => exists cm, obj s' = set_conn_manager cm n /\
             Q a (Sys (set_conn_manager cm (obj s)) (wld s'))) (Sys n (wld s))) ->
  wp (with_lock conn_setup_mtx_ set_conn_setup_mtx m) Q s.
Proof.
  intros Hl Hm. apply wp_with_lock; [exact Hl|]. destruct s as [[] w]. cbn in *. subst.
  eapply wp_mono; [|apply Hm; reflexivity]. intros a [n' w'] (cm & Ho & HQ). cbn in *. subst n'. exact HQ.
Qed.

Lemma manager_set_cm cm n : conn_manager_ (set_conn_manager cm n) = cm.
Proof. by destruct n. Qed.

Definition driver_call (c : cm_call) : M (sys NicCCIP D) (Z * Z) :=
  match c with
  | Open i dest flow => open_connection i dest flow
  | Add id dest flow => let! rc := add_connection id dest flow in ret (rc, id)
  | Close id => let! rc := close_connection id in ret (rc, id)
  end.

Fixpoint driver_calls (cs : list cm_call) : M (sys NicCCIP D) (list (Z * Z)) :=
  match cs with
  | [] => ret []
  | c :: cs' => let! o := driver_call c in let! os := driver_calls cs' in ret (o :: os)
  end.
End setup.

(** ** What the calls of the driver come to

    The table of the hardware holds the connections of the manager with a number below
    its size.  A connection with a higher number is refused by the hardware but stays in
    the manager, and cannot be closed. *)
Definition hw_table (o : gmap Z (IPv4 * Z)) : gmap Z connection_manager.connection :=
  map_imap (fun id x => if id <? 2 ^ LCONN_TBL_SIZE then Some (hw_connection x.1 x.2) else None) o.

Inductive driver_spec : registry -> cm_call -> Z * Z -> registry -> Prop :=
| driver_open r i dest flow id r' :
    cm_spec r (Open i dest flow) (0, id) r' ->
    driver_spec r (Open i dest flow) (if id <? 2 ^ LCONN_TBL_SIZE then 0 else 1, id) r'
| driver_add r id dest flow r' :
    cm_spec r (Add id dest flow) (0, id) r' ->
    driver_spec r (Add id dest flow) (if id <? 2 ^ LCONN_TBL_SIZE then 0 else 1, id) r'
| driver_refused r c id r' : cm_spec r c (1, id) r' -> driver_spec r c (1, id) r
| driver_close r id r' :
    cm_spec r (Close id) (0, id) r' -> id < 2 ^ LCONN_TBL_SIZE -> driver_spec r (Close id) (0, id) r'
| driver_stuck r id : 2 ^ LCONN_TBL_SIZE <= id -> driver_spec r (Close id) (1, id) r.

Inductive driver_run : registry -> list cm_call -> list (Z * Z) -> registry -> Prop :=
| driver_nil r : driver_run r [] [] r
| driver_cons r c o r' cs os r'' :
    driver_spec r c o r' -> driver_run r' cs os r'' -> driver_run r (c :: cs) (o :: os) r''.

Lemma hw_table_lookup o id :
  hw_table o !! id = if id <? 2 ^ LCONN_TBL_SIZE then (fun x => hw_connection x.1 x.2) <$> o !! id else None.
Proof. unfold hw_table. rewrite map_lookup_imap. destruct (o !! id), (id <? _); done. Qed.

Lemma hw_table_open o id dest flow :
  o !! id = None ->
  try_open id (hw_connection dest flow) (hw_table o) =
    (hw_table (<[id := (dest, flow)]> o), if id <? 2 ^ LCONN_TBL_SIZE then HwDefs.cOK else HwDefs.cIdWrong).
Proof.
  intros Ho. unfold try_open. rewrite hw_table_lookup, Ho. destruct (id <? 2 ^ LCONN_TBL_SIZE) eqn:E; cbn [fmap option_fmap option_map]; f_equal.
  all: apply map_eq; intros j; rewrite !hw_table_lookup; destruct (Z.eq_dec j id) as [->|Hj];
    rewrite ?lookup_insert_eq, ?lookup_insert_ne, ?hw_table_lookup, ?E by congruence; done.
Qed.

Lemma hw_table_close o id :
  try_close id (hw_table o) =
    if id <? 2 ^ LCONN_TBL_SIZE then
      match o !! id with Some _ => (hw_table (delete id o), HwDefs.cOK) | None => (hw_table o, HwDefs.cIsClosed) end
    else (hw_table o, HwDefs.cIdWrong).
Proof.
  unfold try_close. rewrite hw_table_lookup. destruct (id <? 2 ^ LCONN_TBL_SIZE) eqn:E; [|done].
  destruct (o !! id); cbn [fmap option_fmap option_map]; [|done]. f_equal. apply map_eq. intros j.
  destruct (Z.eq_dec j id) as [->|Hj].
  - by rewrite hw_table_lookup, E, !lookup_delete_eq.
  - by rewrite lookup_delete_ne, !hw_table_lookup, lookup_delete_ne by congruence.
Qed.

Lemma hw_table_closed o id : (try_close id (hw_table o)).1 = delete id (hw_table o).
Proof.
  unfold try_close. rewrite hw_table_lookup. destruct (id <? 2 ^ LCONN_TBL_SIZE) eqn:Et; [destruct (o !! id) eqn:Eo|]; cbn; try done.
  all: rewrite delete_id; [done|]; by rewrite hw_table_lookup, Et, ?Eo.
Qed.

(** Connection numbers of the hardware have eight bits. *)
Definition closable (c : cm_call) : bool :=
  match c with Close id => (0 <=? id) && (id <? 2 ^ LMAX_NUM_OF_CONNECTIONS) | _ => true end.

(** ** The driver over the RTL *)
Section driver.
Context {F : Z -> Type -> Type} {latency : nat} `{DcfifoLaws F latency}.
Context {SC : Type}.
Variable ccip : circuit SC ccip_in ccip_out.
Variables (NIC_ID SRF_BASE SRF_BASE_AFU afu_id : Z).
Variables (phy_network : bool) (mode : Z).
Variables (env : nat -> surroundings) (gap : nat -> nat) (others : io_call -> nat -> fpga_result * Z).
Variables (junk_of : nat -> Z) (shl : Z -> Z -> Z) (page : Z) (cmp : string -> string -> Z) (uuid : option (list Z)).

Abbreviation nicc := (nic.nic ccip rpc.rpc_rtl NIC_ID SRF_BASE SRF_BASE_AFU afu_id phy_network mode).
Abbreviation dev_t := (device (@nic.regs F SC (rpc.regs connection_manager.regs))).
Abbreviation conns := (gmap Z connection_manager.connection).

#[local] Instance hw_platform : Platform dev_t := machine nicc env gap others junk_of shl page cmp uuid.

(** The registers of the NIC are in the MMIO space and apart from the feature header; a
    header that is not an MMIO request does not look like one for the connection status;
    the program takes at least [settling] cycles from one access to the next. *)
Hypothesis base_ok : 0 <= SRF_BASE < 2 ^ 16.
Hypothesis afu_ok : SRF_BASE + 32 < SRF_BASE_AFU \/ SRF_BASE_AFU + 8 < SRF_BASE + 32.
Hypothesis header_ok : forall t, su_header (env t) <> nic.addrConnStatus SRF_BASE.
Hypothesis gap_ok : forall t, (@control.settling latency <= gap t)%nat.

Implicit Types s : sys NicCCIP dev_t.

(** The NIC at rest: its parser, its connections, and the status that is to be read. *)
Definition at_rest (p : rpc.parser) (m : conns) (st : option conn_status) (d : dev_t) : Prop :=
  control.rest p m st (dv_nic d).

Fixpoint idle_inputs (k : nat) (t : nat) : list nic.inputs :=
  match k with
  | O => []
  | S k' => cycle_input (su_header (env t)) nic.NoMmio (env t) :: idle_inputs k' (S t)
  end.

Lemma cycles_final k (d : dev_t) :
  cycles nicc env k d = {| dv_nic := final nicc (idle_inputs k (dv_clock d)) (dv_nic d); dv_clock := k + dv_clock d |}.
Proof.
  revert d. induction k as [|k IH]; intros d; cbn [cycles idle_inputs final]; [by destruct d|].
  rewrite IH. cbn [one_cycle dv_clock dv_nic]. f_equal. lia.
Qed.

Lemma idle_inputs_idle k t : Forall (control.idle SRF_BASE) (idle_inputs k t) /\ length (idle_inputs k t) = k.
Proof using header_ok.
  revert t. induction k as [|k IH]; intros t; cbn; [by split|]. destruct (IH (S t)) as [Hi ->]. split; [|done].
  constructor; [|done]. split; [split_and!; [done|done|apply header_ok]|done].
Qed.

Lemma cycles_rest k p m st (d : dev_t) : at_rest p m st d -> at_rest p m st (cycles nicc env k d).
Proof using header_ok.
  intros Hd. unfold at_rest. rewrite cycles_final. cbn. destruct (idle_inputs_idle k (dv_clock d)) as [Hi _].
  eapply final_preserves; [|exact Hi|exact Hd]. intros i n. apply control.rest_next.
Qed.

(** *** The two accesses of connection setup *)
Definition nic_at (b : Z) : Prop := b = 4 * SRF_BASE.

Lemma hw_write_frame b w p m st (d : dev_t) :
  nic_at b -> at_rest p m st d ->
  let r := control.apply_frame (wrap 40 w) p m st in
  exists v d', io (WriteMMIO64 (u64 (b + iRegConnSetupFrame)) w) d = (FPGA_OK, v, d') /\ at_rest r.1.1 r.1.2 r.2 d'.
Proof using base_ok header_ok gap_ok.
  intros Hb Hd r. eexists _, _. split; [reflexivity|]. cbn [access snd one_cycle dv_clock dv_nic].
  rewrite cycles_final. unfold at_rest. cbn [dv_nic dv_clock one_cycle].
  destruct (idle_inputs_idle (gap (dv_clock d)) (S (dv_clock d))) as [Hi Hl].
  apply (control.frame_settles ccip NIC_ID SRF_BASE SRF_BASE_AFU afu_id phy_network mode w
           (cycle_input (u64 (b + iRegConnSetupFrame) / 4) (nic.MmioWrite w) (env (dv_clock d)))); [|done| |done].
  - split_and!; [done|done|]. cbn. rewrite Hb. by rewrite reg_address.
  - rewrite Hl. apply gap_ok.
Qed.

Lemma hw_read_status b p m st (d : dev_t) :
  nic_at b -> at_rest p m st d ->
  exists old d', io (ReadMMIO64 (u64 (b + iRegConnStatus))) d =
    (FPGA_OK, nic.low_bits 40 (pack_conn_status st) old, d') /\ at_rest p m None d'.
Proof using base_ok afu_ok header_ok.
  intros Hb Hd. pose proof (control.status_read_rest ccip NIC_ID SRF_BASE SRF_BASE_AFU afu_id phy_network mode
    (cycle_input (u64 (b + iRegConnStatus) / 4) nic.MmioRead (env (dv_clock d))) p m st (dv_nic d)) as Hr.
  destruct Hr as [Hr E]; [done| |done|].
  { split_and!; [done|done|]. cbn. rewrite Hb. by rewrite reg_address. }
  eexists _, _. split.
  - cbn [io hw_platform machine machine_io access one_cycle dv_nic]. rewrite E. cbn [default]. reflexivity.
  - by apply cycles_rest.
Qed.

Lemma hw_sleep n p m st (d : dev_t) :
  at_rest p m st d -> exists r v d', io (Delay n) d = (r, v, d') /\ at_rest p m st d'.
Proof using header_ok. intros Hd. eexists _, _, _. split; [reflexivity|]. by apply cycles_rest. Qed.

(** *** The driver's exchanges *)
Definition rests (r : rpc.parser * conns * option conn_status) s : Prop :=
  nic_at (base_nic_addr_ (obj s)) /\ at_rest r.1.1 r.1.2 r.2 (dev (wld s)).

Lemma wp_hw_frame d k cont Q r s :
  rests r s ->
  (forall s', obj s' = obj s -> rests (control.apply_frame (hw_frame d k) r.1.1 r.1.2 r.2) s' -> wp cont Q s') ->
  wp (or_fail (write_frame d k) cont) Q s.
Proof using base_ok header_ok gap_ok.
  intros [Hb Hr] Hk. unfold or_fail, write_frame. apply wp_assoc, wp_bind. unfold junk, gets, wp at 1.
  set (w := frame_word _ _). unfold write_reg. apply wp_assoc, wp_bind. unfold my, gets, wp at 1.
  destruct (hw_write_frame (base_nic_addr_ (obj s)) w _ _ _ _ Hb Hr) as (v & d' & E & Hr').
  unfold writeMMIO64. apply wp_assoc. eapply wp_io; [exact E|]. intros t. apply wp_ret_bind. cbn [fst is_ok].
  rewrite is_ok_OK. apply Hk; [done|]. split; [done|]. unfold w in Hr'. by rewrite frame_word_low in Hr'.
Qed.

Lemma wp_hw_frames fs cont Q r s :
  rests r s ->
  (forall s', obj s' = obj s -> rests (run_frames fs r.1.1 r.1.2 r.2) s' -> wp cont Q s') ->
  wp (send_frames fs cont) Q s.
Proof using base_ok header_ok gap_ok.
  revert r s. induction fs as [|f fs IH]; intros r s Hr Hk; cbn [send_frames foldr].
  - apply Hk; [done|]. by destruct r as [[] ?].
  - apply (wp_hw_frame _ _ _ _ r); [done|]. intros s' Ho Hr'. apply (IH _ _ Hr').
    intros s2 Ho2 Hr2. apply Hk; [congruence|]. unfold run_frames in *. cbn [fold_left fst snd]. by destruct (control.apply_frame _ _ _ _) as [[] ?].
Qed.

(** The first poll has the answer. *)
Lemma wp_hw_result c p m e s :
  rests (p, m, Some {| st_conn_id := c; st_error := e |}) s -> 0 <= c < 2 ^ 32 ->
  wp (conn_result c) (fun rc s' => obj s' = obj s /\ rests (p, m, None) s' /\
    rc = if bool_decide (error_code e = 0) then 0 else 1) s.
Proof using base_ok afu_ok header_ok.
  intros [Hb Hr] Hc. unfold conn_result. unfold NIC_INIT_TIMEOUT. cbn [wait_conn]. unfold read_reg.
  do 2 apply wp_assoc. apply wp_bind. unfold my, gets, wp at 1.
  destruct (hw_read_status _ _ _ _ _ Hb Hr) as (old & d' & E & Hr'). unfold readMMIO64.
  eapply wp_io; [exact E|]. intros t. cbn [fst snd]. rewrite is_ok_OK. cbn [negb]. unfold sleep. do 2 apply wp_assoc.
  destruct (hw_sleep (NIC_INIT_DELAY_S * 10 ^ 9) _ _ _ _ Hr') as (r2 & v2 & d2 & E2 & Hr2).
  eapply wp_io; [exact E2|]. intros t2. apply wp_ret_bind. cbn [fst snd] in *. rewrite read_conn_status by done.
  unfold acknowledged. cbn [valid conn_id_ error_status st_conn_id st_error]. rewrite !Z.eqb_refl. cbn [andb negb].
  apply wp_ret_bind. cbn [valid conn_id_ error_status]. rewrite !Z.eqb_refl. cbn [andb negb].
  unfold cOK. destruct e; apply wp_ret; (split; [reflexivity|split; [exact (conj Hb Hr2)|reflexivity]]).
Qed.

(** The answer for another number than the one asked for is never accepted. *)
Lemma wp_hw_timeout c n p m st s :
  rests (p, m, st) s -> (forall a, st = Some a -> st_conn_id a <> c /\ 0 <= st_conn_id a < 2 ^ 32) ->
  wp (wait_conn c (S n)) (fun r s' => obj s' = obj s /\ rests (p, m, None) s' /\
    exists st, r = Some st /\ acknowledged c st = false) s.
Proof using base_ok afu_ok header_ok.
  revert st s. induction n as [|n IH]; intros st s [Hb Hr] Hst.
  all: cbn [wait_conn]; unfold read_reg; apply wp_assoc, wp_bind; unfold my, gets, wp at 1;
    destruct (hw_read_status _ _ _ _ _ Hb Hr) as (old & d' & E & Hr'); unfold readMMIO64;
    eapply wp_io; [exact E|]; intros t; cbn [fst snd]; rewrite is_ok_OK; cbn [negb]; unfold sleep; apply wp_assoc;
    destruct (hw_sleep (NIC_INIT_DELAY_S * 10 ^ 9) _ _ _ _ Hr') as (r2 & v2 & d2 & E2 & Hr2);
    (eapply wp_io; [exact E2|]); intros t2; apply wp_ret_bind; cbn [fst snd] in *.
  all: assert (acknowledged c (decode_conn_status (u64 (nic.low_bits 40 (pack_conn_status st) old))) = false) as Ea.
  1, 3: destruct st as [a|].
  1, 3: destruct (Hst a eq_refl) as [Hne Hw]; rewrite read_conn_status by done; unfold acknowledged; cbn; by apply Z.eqb_neq.
  1, 2: unfold acknowledged, decode_conn_status; rewrite !field_low_bits by lia; done.
  - rewrite Ea. cbn [negb Nat.eqb andb]. apply wp_ret. split; [reflexivity|]. split; [exact (conj Hb Hr2)|]. eexists. by split.
  - rewrite Ea. cbn [negb Nat.eqb andb]. eapply wp_mono; [|apply (IH None); [exact (conj Hb Hr2)|done]].
    intros r s' (Ho & Hs & Hr3). split; [exact Ho|]. exact (conj Hs Hr3).
Qed.

(** The exchange under the lock of the hardware. *)
Lemma wp_hw_locked fs c p m a e st s :
  connected_ (obj s) = true -> conn_setup_hw_mtx_ (obj s) = false -> rests (p, m, st) s -> 0 <= c < 2 ^ 8 ->
  (exists p', control.disabled p' /\ run_frames fs p m st = (p', a, Some {| st_conn_id := wrap 8 c; st_error := e |})) ->
  wp (locked (send_frames fs (conn_result c)))
    (fun rc s' => obj s' = obj s /\ (exists p', rests (p', a, None) s') /\
       rc = if bool_decide (error_code e = 0) then 0 else 1) s.
Proof using base_ok afu_ok header_ok gap_ok.
  intros Hc Hl Hr Hid (p' & Hp' & Ef). unfold locked. apply wp_massert_my; [done|]. apply wp_with_lock; [done|].
  assert (rests (p, m, st) (Sys (set_conn_setup_hw_mtx true (obj s)) (wld s))) as Hr'.
  { destruct Hr as [Hb Hr]. split; [|exact Hr]. by destruct s as [[] ?]. }
  apply (wp_hw_frames fs _ _ (p, m, st)); [exact Hr'|]. intros s1 Ho1 Hr1. cbn [fst snd] in Hr1. rewrite Ef in Hr1.
  rewrite wrap_small in Hr1 by (unfold in_width; lia).
  eapply wp_mono; [|apply (wp_hw_result c p' a e s1 Hr1); lia]. intros rc s2 (Ho2 & Hr2 & ->).
  cbn [obj] in *. rewrite Ho1 in Ho2.
  assert (set_conn_setup_hw_mtx false (obj s2) = obj s) as Eo.
  { rewrite Ho2. destruct s as [[] ?]. cbn in *. by subst. }
  rewrite Eo. split; [reflexivity|]. split; [|reflexivity]. exists p'. destruct Hr2 as [Hb2 Hr2]. split; [|exact Hr2].
  cbn [obj]. destruct Hr as [Hb _]. exact Hb.
Qed.

Lemma hw_register c dest flow p m st s :
  connected_ (obj s) = true -> conn_setup_hw_mtx_ (obj s) = false -> rests (p, m, st) s -> 0 <= c < 2 ^ 8 ->
  let a := try_open c (hw_connection dest flow) m in
  wp (register_connection c dest flow) (fun rc s' => obj s' = obj s /\ (exists p', rests (p', a.1, None) s') /\
    rc = if bool_decide (error_code a.2 = 0) then 0 else 1) s.
Proof using base_ok afu_ok header_ok gap_ok.
  intros Hc Hl Hr Hid a. rewrite register_is_frames.
  refine (wp_hw_locked (register_frames c dest flow) c p m a.1 a.2 st s Hc Hl Hr Hid _).
  destruct Hr as [_ (_ & Hd & _)]. pose proof (register_effect c dest flow p m st Hd) as (p' & Hp' & E).
  exists p'. split; [exact Hp'|]. rewrite E. rewrite (wrap_small 8 c) by (unfold in_width; lia). reflexivity.
Qed.

Lemma hw_remove c p m st s :
  connected_ (obj s) = true -> conn_setup_hw_mtx_ (obj s) = false -> rests (p, m, st) s -> 0 <= c < 2 ^ 8 ->
  let a := try_close c m in
  wp (remove_connection c) (fun rc s' => obj s' = obj s /\ (exists p', rests (p', a.1, None) s') /\
    rc = if bool_decide (error_code a.2 = 0) then 0 else 1) s.
Proof using base_ok afu_ok header_ok gap_ok.
  intros Hc Hl Hr Hid a. rewrite remove_is_frames.
  refine (wp_hw_locked (remove_frames c) c p m a.1 a.2 st s Hc Hl Hr Hid _).
  destruct Hr as [_ (_ & Hd & _)]. pose proof (remove_effect c p m st Hd) as (p' & Hp' & E).
  exists p'. split; [exact Hp'|]. rewrite E. rewrite (wrap_small 8 c) by (unfold in_width; lia). reflexivity.
Qed.

(** The driver is free to set up connections and the hardware agrees with its manager. *)
Definition on_hw s : Prop :=
  setup_ready (obj s) /\ max_connections_ (conn_manager_ (obj s)) <= 2 ^ LMAX_NUM_OF_CONNECTIONS /\
  exists p st, rests (p, hw_table (open_connections_ (conn_manager_ (obj s))), st) s.

(** Moving [rests] along a change of the object. *)
Lemma rests_obj r n n' w : base_nic_addr_ n' = base_nic_addr_ n -> rests r (Sys n w) -> rests r (Sys n' w).
Proof. intros Hb [H1 H2]. split; [|exact H2]. cbn [obj] in *. by rewrite Hb. Qed.

Lemma on_hw_intro s cm p st w :
  setup_ready (obj s) -> cm_inv cm -> max_connections_ cm <= 2 ^ LMAX_NUM_OF_CONNECTIONS ->
  nic_at (base_nic_addr_ (obj s)) -> at_rest p (hw_table (open_connections_ cm)) st (dev w) ->
  on_hw (Sys (set_conn_manager cm (obj s)) w).
Proof.
  intros [Hc Hm Hh _] Hi Hx Hb Hr. destruct s as [[] ?]. cbn in *. split; [by split|]. split; [exact Hx|].
  exists p, st. split; [exact Hb|exact Hr].
Qed.

Lemma wp_hw_grant {A} (f : Z -> A) id dest flow o p st s :
  connected_ (obj s) = true -> conn_setup_hw_mtx_ (obj s) = false -> rests (p, hw_table o, st) s ->
  o !! id = None -> 0 <= id < 2 ^ 8 ->
  wp (let! res := register_connection id dest flow in if negb (res =? 0) then ret (f 1) else ret (f 0))
    (fun r s' => obj s' = obj s /\ (exists p', rests (p', hw_table (<[id := (dest, flow)]> o), None) s') /\
       r = f (if id <? 2 ^ LCONN_TBL_SIZE then 0 else 1)) s.
Proof using base_ok afu_ok header_ok gap_ok.
  intros Hc Hl Hr Ho Hid. apply wp_bind.
  eapply wp_mono; [|exact (hw_register id dest flow p (hw_table o) st s Hc Hl Hr Hid)].
  rewrite (hw_table_open o id dest flow Ho). intros rc s' (E & Hr' & ->). cbn [fst snd].
  destruct (id <? 2 ^ LCONN_TBL_SIZE); apply wp_ret; (split; [exact E|]; split; [exact Hr'|reflexivity]).
Qed.

(** A call that the manager answered with [(0, id)] or [(1, id)] and that registers [id]
    in the first case. *)
Lemma hw_setup {A} (f : Z -> A) id dest flow cm p st s n :
  setup_ready (obj s) -> base_nic_addr_ n = base_nic_addr_ (obj s) -> connected_ n = true -> conn_setup_hw_mtx_ n = false ->
  cm_inv cm -> max_connections_ cm <= 2 ^ LMAX_NUM_OF_CONNECTIONS ->
  open_connections_ (conn_manager_ (obj s)) !! id = None -> 0 <= id < max_connections_ cm ->
  open_connections_ cm = <[id := (dest, flow)]> (open_connections_ (conn_manager_ (obj s))) ->
  rests (p, hw_table (open_connections_ (conn_manager_ (obj s))), st) s ->
  wp (let! res := register_connection id dest flow in if negb (res =? 0) then ret (f 1) else ret (f 0))
    (fun r s' => exists cm', obj s' = set_conn_manager cm' n /\
       on_hw (Sys (set_conn_manager cm' (obj s)) (wld s')) /\ cm' = cm /\
       r = f (if id <? 2 ^ LCONN_TBL_SIZE then 0 else 1)) (Sys (set_conn_manager cm n) (wld s)).
Proof using base_ok afu_ok header_ok gap_ok.
  intros Hs Hb Hc Hl Hi Hx Hn Hid Ho [Hb0 Hr].
  assert (0 <= id < 2 ^ 8) as Hid' by (unfold LMAX_NUM_OF_CONNECTIONS in Hx; lia).
  eapply wp_mono; [|refine (wp_hw_grant f id dest flow _ p st (Sys (set_conn_manager cm n) (wld s)) _ _ _ Hn Hid')].
  - intros r s' (E & (p' & [_ Hr']) & ->). cbn [obj] in E. exists cm. split; [exact E|]. split; [|split; reflexivity].
    eapply (on_hw_intro s cm p' None); [exact Hs|exact Hi|exact Hx|exact Hb0|]. rewrite Ho. exact Hr'.
  - cbn [obj]. by rewrite connected_set_cm.
  - cbn [obj]. by rewrite hw_mtx_set_cm.
  - split; [|exact Hr]. cbn [obj]. rewrite base_set_cm, Hb. exact Hb0.
Qed.

(** A call after which the manager is as before. *)
Lemma on_hw_back s w p st :
  on_hw s -> at_rest p (hw_table (open_connections_ (conn_manager_ (obj s)))) st (dev w) -> on_hw (Sys (obj s) w).
Proof.
  intros (Hs & Hx & p0 & st0 & Hb & _) Hr. split; [exact Hs|]. split; [exact Hx|]. exists p, st. split; [exact Hb|exact Hr].
Qed.

Definition call_result s (c : cm_call) (o : Z * Z) s' : Prop :=
  on_hw s' /\ driver_spec (abs (conn_manager_ (obj s))) c o (abs (conn_manager_ (obj s'))).

(** The manager refuses: nothing reaches the hardware. *)
Lemma hw_refused c s n cm id :
  on_hw s -> cm_inv cm -> cm_spec (abs (conn_manager_ (obj s))) c (1, id) (abs cm) ->
  exists cm', set_conn_manager cm n = set_conn_manager cm' n /\
    call_result s c (1, id) (Sys (set_conn_manager cm' (obj s)) (wld s)).
Proof.
  intros (Hs & Hx & p & st & Hb & Hr) Hi Hsp. exists cm. split; [reflexivity|].
  assert (abs cm = abs (conn_manager_ (obj s))) as E by (inversion Hsp; unfold abs; congruence).
  injection E as Ec Eo. split.
  - eapply (on_hw_intro s cm p st); [exact Hs|exact Hi|by rewrite Ec|exact Hb|]. rewrite Eo. exact Hr.
  - cbn [obj]. rewrite manager_set_cm. unfold abs at 2. rewrite Ec, Eo. by eapply driver_refused.
Qed.

Lemma hw_open i dest flow s :
  on_hw s -> wp (driver_call (Open i dest flow)) (call_result s (Open i dest flow)) s.
Proof using base_ok afu_ok header_ok gap_ok.
  intros Hon. pose proof Hon as (Hs & Hx & p & st & Hr). apply wp_setup_lock; [apply Hs|]. intros n Hc Hl Hb Hm.
  apply wp_bind, wp_cm_method. cbn [obj]. rewrite Hm. eapply wp_mono; [|apply open_call, Hs].
  intros [rc id] cm [Hi Hsp]. destruct (cm_spec_rc _ _ _ _ _ Hsp) as [-> | ->]; cbn [fst snd Z.eqb negb].
  - assert (max_connections_ cm = max_connections_ (conn_manager_ (obj s)) /\
            open_connections_ (conn_manager_ (obj s)) !! id = None /\ 0 <= id < max_connections_ cm /\
            open_connections_ cm = <[id := (dest, flow)]> (open_connections_ (conn_manager_ (obj s)))) as (Em & En & Eid & Eo).
    { inversion Hsp; subst; cbn in *; split_and!; congruence || lia. }
    eapply wp_mono; [|refine (hw_setup (fun rc => (rc, id)) id dest flow cm p st s n Hs Hb _ _ Hi _ En Eid Eo Hr)].
    + intros r s' (cm' & E & Hon' & -> & ->). exists cm. split; [exact E|]. split; [exact Hon'|].
      cbn [obj]. rewrite manager_set_cm. by constructor.
    + rewrite Hc. apply Hs.
    + rewrite Hl. apply Hs.
    + by rewrite Em.
  - apply wp_ret. exact (hw_refused (Open i dest flow) s n cm id Hon Hi Hsp).
Qed.

Lemma hw_add id dest flow s :
  on_hw s -> wp (driver_call (Add id dest flow)) (call_result s (Add id dest flow)) s.
Proof using base_ok afu_ok header_ok gap_ok.
  intros Hon. pose proof Hon as (Hs & Hx & p & st & Hr). unfold driver_call. apply wp_bind.
  apply wp_setup_lock; [apply Hs|]. intros n Hc Hl Hb Hm.
  apply wp_bind, wp_cm_method. cbn [obj]. rewrite Hm.
  pose proof (add_call id dest flow _ (sr_cm _ Hs)) as Ha. unfold run_call in Ha. apply wp_bind_inv in Ha.
  eapply wp_mono; [|exact Ha]. intros rc cm [Hi Hsp].
  destruct (cm_spec_rc _ _ _ _ _ Hsp) as [-> | ->]; cbn [fst snd Z.eqb negb].
  - assert (max_connections_ cm = max_connections_ (conn_manager_ (obj s)) /\
            open_connections_ (conn_manager_ (obj s)) !! id = None /\ 0 <= id < max_connections_ cm /\
            open_connections_ cm = <[id := (dest, flow)]> (open_connections_ (conn_manager_ (obj s)))) as (Em & En & Eid & Eo).
    { inversion Hsp; subst; cbn in *; split_and!; congruence || lia. }
    eapply wp_mono; [|refine (hw_setup (fun rc => rc) id dest flow cm p st s n Hs Hb _ _ Hi _ En Eid Eo Hr)].
    + intros r s' (cm' & E & Hon' & -> & ->). exists cm. split; [exact E|]. apply wp_ret. split; [exact Hon'|].
      cbn [obj]. rewrite manager_set_cm. by constructor.
    + rewrite Hc. apply Hs.
    + rewrite Hl. apply Hs.
    + by rewrite Em.
  - apply wp_ret. destruct (hw_refused (Add id dest flow) s n cm id Hon Hi Hsp) as (cm' & E & Hq).
    exists cm'. split; [exact E|]. apply wp_ret. exact Hq.
Qed.

Lemma hw_close id s :
  on_hw s -> 0 <= id < 2 ^ LMAX_NUM_OF_CONNECTIONS -> wp (driver_call (Close id)) (call_result s (Close id)) s.
Proof using base_ok afu_ok header_ok gap_ok.
  intros Hon Hid. pose proof Hon as (Hs & Hx & p & st & [Hb0 Hr]). unfold driver_call. apply wp_bind.
  apply wp_setup_lock; [apply Hs|]. intros n Hc Hl Hb Hm. apply wp_bind.
  assert (rests (p, hw_table (open_connections_ (conn_manager_ (obj s))), st) (Sys n (wld s))) as Hr1.
  { split; [|exact Hr]. cbn [obj]. rewrite Hb. exact Hb0. }
  eapply wp_mono; [|refine (hw_remove id p _ st (Sys n (wld s)) _ _ Hr1 Hid)].
  2: { cbn [obj]. rewrite Hc. apply Hs. }
  2: { cbn [obj]. rewrite Hl. apply Hs. }
  rewrite hw_table_close. intros rc [n' w'] (E & (p' & _ & Hr') & ->). cbn [obj wld] in *. subst n'.
  destruct (id <? 2 ^ LCONN_TBL_SIZE) eqn:Et; [destruct (open_connections_ _ !! id) as [x|] eqn:Eo|]; cbn [fst snd] in *.
  - apply wp_bind, wp_cm_method. cbn [obj]. rewrite Hm.
    pose proof (close_call id _ (sr_cm _ Hs)) as Hcl. unfold run_call in Hcl. apply wp_bind_inv in Hcl.
    eapply wp_mono; [|exact Hcl]. intros rc cm [Hi Hsp].
    assert (rc = 0 /\ max_connections_ cm = max_connections_ (conn_manager_ (obj s)) /\
            open_connections_ cm = delete id (open_connections_ (conn_manager_ (obj s)))) as (-> & Em & Eo').
    { inversion Hsp; subst; cbn in *; split_and!; congruence. }
    exists cm. split; [reflexivity|]. apply wp_ret. split.
    + eapply (on_hw_intro s cm p' None); [exact Hs|exact Hi|by rewrite Em|exact Hb0|]. rewrite Eo'. exact Hr'.
    + cbn [obj]. rewrite manager_set_cm. apply driver_close; [exact Hsp|lia].
  - exists (conn_manager_ n). split; [by rewrite set_cm_id|]. apply wp_ret. rewrite Hm, set_cm_id.
    split; [exact (on_hw_back s w' p' None Hon Hr')|]. cbn [obj]. eapply (driver_refused _ _ _ (abs _)). by constructor.
  - exists (conn_manager_ n). split; [by rewrite set_cm_id|]. apply wp_ret. rewrite Hm, set_cm_id.
    split; [exact (on_hw_back s w' p' None Hon Hr')|]. cbn [obj]. apply driver_stuck. lia.
Qed.

Lemma hw_call c s :
  on_hw s -> closable c = true -> wp (driver_call c) (call_result s c) s.
Proof using base_ok afu_ok header_ok gap_ok.
  intros Hon Hid. destruct c as [i dest flow|id dest flow|id].
  - exact (hw_open i dest flow s Hon).
  - exact (hw_add id dest flow s Hon).
  - apply andb_prop in Hid as [H1%Z.leb_le H2%Z.ltb_lt]. exact (hw_close id s Hon (conj H1 H2)).
Qed.

Lemma hw_calls cs s :
  on_hw s -> forallb closable cs = true ->
  wp (driver_calls cs) (fun os s' => on_hw s' /\
    driver_run (abs (conn_manager_ (obj s))) cs os (abs (conn_manager_ (obj s')))) s.
Proof using base_ok afu_ok header_ok gap_ok.
  intros Hon Hcs. revert s Hon Hcs. induction cs as [|c cs IH]; intros s Hon Hcs; cbn [driver_calls].
  - apply wp_ret. split; [exact Hon|constructor].
  - apply andb_prop in Hcs as [Hc Hcs]. apply wp_bind. eapply wp_mono; [|exact (hw_call c s Hon Hc)]. intros o s1 [Hon1 Hsp].
    apply wp_bind. eapply wp_mono; [|exact (IH s1 Hon1 Hcs)]. intros os s2 [Hon2 Hrun].
    apply wp_ret. split; [exact Hon2|]. by econstructor.
Qed.

(** A NIC that was reset and initialised, under a driver without connections. *)
Lemma on_hw_start (n0 : @nic.regs F SC (rpc.regs connection_manager.regs)) rst wait ins i t tr n :
  bringup.power_up n0 -> Forall bringup.resets rst -> (2 <= length rst)%nat ->
  Forall (control.idle SRF_BASE) wait -> bringup.init_write SRF_BASE i ->
  Forall (control.idle SRF_BASE) ins -> (bringup.init_cycles <= length ins)%nat ->
  setup_ready n -> open_connections_ (conn_manager_ n) = ∅ ->
  max_connections_ (conn_manager_ n) <= 2 ^ LMAX_NUM_OF_CONNECTIONS -> nic_at (base_nic_addr_ n) ->
  on_hw (Sys n (mkWorld {| dv_nic := final nicc (rst ++ wait ++ i :: ins) n0; dv_clock := t |} tr)).
Proof.
  intros Hpower Hrst Hlrst Hwait Hinit Hins Hlins Hready Hempty Hmax Hbase.
  pose proof (bringup.reset_init ccip NIC_ID SRF_BASE SRF_BASE_AFU afu_id phy_network mode
    rst wait i ins n0 Hpower Hrst Hlrst Hwait Hinit Hins Hlins) as (p & st & Hr).
  split; [exact Hready|]. split; [exact Hmax|]. exists p, st. split; [exact Hbase|]. cbn [fst snd obj]. rewrite Hempty. exact Hr.
Qed.

(** ** The theorems *)


(** C31. Closing a number that does not fit the hardware's eight bits: the driver waits in vain
    for an answer with that number, returns 1 and keeps its registry, while the hardware
    has closed the connection with the low bits of the number. *)
Theorem close_truncates_id s (id : Z) (Hon : on_hw s)
    (Hid : 2 ^ LMAX_NUM_OF_CONNECTIONS <= id < 2 ^ 32) :
  let low := wrap LMAX_NUM_OF_CONNECTIONS id in
  wp (close_connection id) (fun rc s' => rc = 1 /\ conn_manager_ (obj s') = conn_manager_ (obj s) /\
    exists p, rests (p, delete low (hw_table (open_connections_ (conn_manager_ (obj s)))), None) s') s.
Proof using base_ok afu_ok header_ok gap_ok.
  intros low. pose proof Hon as (Hs & Hx & p & st & [Hb0 Hr]).
  apply wp_setup_lock; [apply Hs|]. intros n Hc Hl Hb Hm. apply wp_bind. rewrite remove_is_frames.
  unfold locked. apply wp_massert_my; [cbn [obj]; rewrite Hc; apply Hs|]. apply wp_with_lock; [cbn [obj]; rewrite Hl; apply Hs|].
  apply (wp_hw_frames (remove_frames id) _ _ (p, hw_table (open_connections_ (conn_manager_ (obj s))), st)).
  { split; [|exact Hr]. cbn [obj wld]. destruct n. cbn in *. rewrite Hb. exact Hb0. }
  intros s1 Ho1 Hr1. cbn [fst snd] in Hr1. destruct Hr as (_ & Hd & _).
  destruct (remove_effect id p (hw_table (open_connections_ (conn_manager_ (obj s)))) st Hd) as (p' & _ & E).
  rewrite E in Hr1. unfold conn_result, NIC_INIT_TIMEOUT. apply wp_bind.
  eapply wp_mono; [|refine (wp_hw_timeout id 14 p' _ _ s1 Hr1 _)].
  2: { intros a Ha. injection Ha as <-. cbn [st_conn_id]. pose proof (wrap_range 8 id) as Hw. unfold in_width in Hw.
       unfold LMAX_NUM_OF_CONNECTIONS in Hid. lia. }
  intros r s2 (Ho2 & [Hb2 Hr2] & st' & -> & Ha). rewrite Ha. cbn [negb]. apply wp_ret. cbn [Z.eqb negb].
  apply wp_ret. exists (conn_manager_ (obj s)). rewrite Ho1 in Ho2. rewrite Ho2. cbn [obj wld]. rewrite hw_table_closed in Hr2.
  split; [rewrite <- Hm; rewrite (sr_hw_mtx _ Hs) in Hl; destruct n; cbn in *; by rewrite Hl|]. rewrite set_cm_id. split; [reflexivity|]. split; [reflexivity|].
  exists p'. split; [exact Hb0|exact Hr2].
Qed.
End driver.

(** A NIC with undefined registers under a driver of the loopback design. *)
Definition no_ccip : circuit unit ccip_in ccip_out :=
  {| next _ s := s;
     out _ := {| co_initialized := true; co_error := false; co_read := None; co_write := None; co_rpc := None;
                 co_pdrop := false; co_debug := 0 |} |}.

Definition any_word {l A} (a : A) : channel queue l A :=
  {| dcfifo_ := {| words := [a]; last_q := None; dflt := a |}; pop_valid := true; packet_loss_detected := true; loss_out := true |}.
Definition any_parser : rpc.parser :=
  {| rpc.c_ctl_if := {| conn_id := 7; c_dest_ip := 5; c_dest_port := 6; client_flow_id := 1; open := true; enable := true |};
     rpc.sv0 := true; rpc.sv1 := true; rpc.sv2 := false; rpc.sv3 := true; rpc.sv4 := false; rpc.conn_setup_parsing_error := true |}.
Definition any_table : connection_manager.regs :=
  power_up {| connection_manager.e_dest_ip := 5; connection_manager.e_dest_port := 6;
              connection_manager.e_client_flow_id := 7; connection_manager.e_open := true |}.
Definition any_csrs : HwDefs.csrs :=
  HwDefs.Build_csrs 1 1 true 1 true 1 1 1 1 1 1 1 true true 1 1 1 true.
Definition any_packet : RpcIf := {| flow_id := 1; rpc_data := 1 |}.
Definition any_regs : @nic.regs queue unit (rpc.regs connection_manager.regs) :=
  {| nic.rpc_phase := true; nic.csr := any_csrs;
     nic.iRegConnStatus := Some {| st_conn_id := 3; st_error := HwDefs.cOK |};
     nic.iRegNicStatus := HwDefs.Build_NicStatus 0 true true true true true true true;
     nic.mmioRdValid := true; nic.c2_data := 1; nic.rpc_init := {| pulse := true; cnt := 1 |};
     nic.fr_to_rpc := any_word 1; nic.ccip_to_rpc := any_word any_packet; nic.rpc_to_ccip := any_word any_packet;
     nic.ccip_ := tt; nic.rpc_ := {| rpc.ctl := any_parser; rpc.c_manager := any_table; rpc.tx_reg := None; rpc.ct_net_in := None |};
     nic.pck_counters := {| nic.cnt_in_rpc := 1; nic.cnt_out_rpc := 1; nic.cnt_out_net := 1; nic.cnt_in_net := 1; nic.cnt_pdrop := 1;
                            nic.in_rpc_d := true; nic.out_rpc_d := true; nic.pdrop_d := true; nic.out_net_d := true;
                            nic.in_net_d := true; nic.counter_value_out := 1 |};
     nic.from_ccip_valid_reg := true; nic.rps_cnt := 1; nic.ccip_rps_rate := 1; nic.iRegCcipRps := 1 |}.

Definition calm_env (t : nat) : surroundings :=
  {| su_rsp := None; su_c0_full := false; su_c1_full := false; su_net := None; su_drop := 0; su_header := 0 |}.
Definition waits : nic.inputs := cycle_input 0 nic.NoMmio (calm_env 0).
Definition resetting : nic.inputs :=
  {| nic.reset := true; nic.mmio_address := 0; nic.mmio_req := nic.NoMmio; nic.c0_rsp_in := None; nic.c0_alm_full := false;
     nic.c1_alm_full := false; nic.network_rx_in := None; nic.net_drop_cnt := 0 |}.
Definition writes_init : nic.inputs := cycle_input (0x8000 + 8) (nic.MmioWrite 1) (calm_env 0).

Definition demo_nic : circuit (@nic.regs queue unit (rpc.regs connection_manager.regs)) nic.inputs nic.outs :=
  nic.nic no_ccip rpc.rpc_rtl 1 0x8000 0x8000 0 false 0.
Definition demo_platform : Platform (device (@nic.regs queue unit (rpc.regs connection_manager.regs))) :=
  machine demo_nic calm_env (fun _ => 20%nat) (fun _ _ => (FPGA_OK, 0)) (fun _ => 0) (fun _ _ => 0) 4096
    (fun a b => if bool_decide (a = b) then 0 else 1) None.
Definition demo_driver : NicCCIP := set_connected true (NicCCIP_ctor 0 0x20000 4 true).
Definition demo_start : sys NicCCIP (device (@nic.regs queue unit (rpc.regs connection_manager.regs))) :=
  Sys demo_driver (mkWorld {| dv_nic := final demo_nic ([resetting; resetting] ++ [waits] ++ writes_init :: replicate 35 waits) any_regs;
                              dv_clock := 0 |} []).

Lemma demo_ready : setup_ready demo_driver.
Proof. split; [done..|]. apply cm_inv_ctor. by vm_compute. Qed.

Lemma demo_capacity : max_connections_ (conn_manager_ demo_driver) <= 2 ^ LMAX_NUM_OF_CONNECTIONS.
Proof. by vm_compute. Qed.

(** The specification of [Add] and [Close] as functions. *)
Definition add_result (r : registry) (id : Z) (x : IPv4 * Z) : Z * Z * registry :=
  if bool_decide (room r /\ 0 <= id < cap r /\ ConnectionManager.conns r !! id = None) then
    (if id <? 2 ^ LCONN_TBL_SIZE then 0 else 1, id,
     {| cap := cap r; ConnectionManager.conns := <[id := x]> (ConnectionManager.conns r) |})
  else (1, id, r).

Definition close_result (r : registry) (id : Z) : Z * Z * registry :=
  if (id <? 2 ^ LCONN_TBL_SIZE) && bool_decide (is_Some (ConnectionManager.conns r !! id)) then
    (0, id, {| cap := cap r; ConnectionManager.conns := delete id (ConnectionManager.conns r) |})
  else (1, id, r).

Lemma driver_add_inv r id dest flow o r' :
  driver_spec r (Add id dest flow) o r' -> (o, r') = add_result r id (dest, flow).
Proof.
  unfold add_result. inversion 1 as [|? ? ? ? ? Hs|? ? ? ? Hs| |]; subst; inversion Hs; subst.
  - by rewrite bool_decide_true.
  - rewrite bool_decide_false; [done|]. intros (H1 & H2 & H3).
    match goal with Hc : ~ _ \/ _ |- _ => destruct Hc as [?|[?|[y Hy]]]; congruence end.
Qed.

Lemma driver_close_inv r id o r' :
  driver_spec r (Close id) o r' -> (o, r') = close_result r id.
Proof.
  unfold close_result. inversion 1 as [| |? ? ? ? Hs|? ? ? Hs Hlt|? ? Hge]; subst; try (inversion Hs; subst).
  - rewrite (bool_decide_false (is_Some _)), andb_false_r; [done|]. intros [y Hy]. congruence.
  - rewrite (proj2 (Z.ltb_lt _ _)) by done. by rewrite bool_decide_true.
  - by rewrite (proj2 (Z.ltb_ge _ _)).
Qed.


Lemma demo_on_hw : on_hw 0x8000 demo_start.
Proof.
  refine (on_hw_start no_ccip 1 0x8000 0x8000 0 false 0 any_regs [resetting; resetting] [waits] (replicate 35 waits)
    writes_init 0%nat [] demo_driver _ _ _ _ _ _ _ demo_ready eq_refl demo_capacity eq_refl).
  - unfold bringup.power_up. cbn. lia.
  - by repeat constructor.
  - cbn; lia.
  - by repeat constructor.
  - split; [reflexivity|]. split; [by exists 1|reflexivity].
  - apply Forall_replicate. by repeat constructor.
  - rewrite length_replicate. unfold bringup.init_cycles. lia.
Qed.

(** After connection 3 is opened, closing 259 closes it in the hardware. *)
Lemma close_truncates_id_witness :
  exists s1 s2, driver_calls (H := demo_platform) [Add 3 test_addr 1] demo_start = Ret [(0, 3)] s1 /\
    close_connection (H := demo_platform) 259 s1 = Ret 1 s2 /\
    open_connections_ (conn_manager_ (obj s2)) !! 3 = Some (test_addr, 1) /\
    exists p m st, control.rest p m st (dv_nic (dev (wld s2))) /\ m !! 3 = None.
Proof.
  pose proof (hw_calls (F := queue) (latency := 0) no_ccip 1 0x8000 0x8000 0 false 0 calm_env (fun _ => 20%nat)
    (fun _ _ => (FPGA_OK, 0)) (fun _ => 0) (fun _ _ => 0) 4096 (fun a b => if bool_decide (a = b) then 0 else 1) None
    ltac:(lia) ltac:(lia) ltac:(done) ltac:(cbn; lia) [Add 3 test_addr 1] demo_start demo_on_hw eq_refl) as Hw.
  apply wp_ret_inv in Hw as (os & s1 & E & Hon & Hrun).
  inversion Hrun as [|? ? ? ? ? ? ? H1 Hr1]; subst. inversion Hr1; subst.
  apply driver_add_inv in H1. cbn in H1. injection H1 as -> Ecap Econns.
  pose proof (close_truncates_id (F := queue) (latency := 0) no_ccip 1 0x8000 0x8000 0 false 0 calm_env (fun _ => 20%nat)
    (fun _ _ => (FPGA_OK, 0)) (fun _ => 0) (fun _ _ => 0) 4096 (fun a b => if bool_decide (a = b) then 0 else 1) None
    ltac:(lia) ltac:(lia) ltac:(done) ltac:(cbn; lia) s1 259 Hon ltac:(unfold LMAX_NUM_OF_CONNECTIONS; lia)) as Hw.
  apply wp_ret_inv in Hw as (rc & s2 & E2 & -> & Hm & p & Hb & Hr).
  exists s1, s2. split; [exact E|]. split; [exact E2|]. split; [rewrite Hm, Econns; apply lookup_insert_eq|].
  eexists _, _, _. split; [exact Hr|]. cbn [fst snd]. apply lookup_delete_eq.
Defined.
